(* ===== verification/_CoqProject ===== *)
-Q . S2P
Prelude.v
Values.v
Vocabulary.v
MamApi.v
Messages.v
Spacing.v
Bytes.v
Text.v
Floats.v
Json.v
Address.v
MamReplies.v
TorrentFile.v
MamClient.v
MamAnswers.v
Timer.v
MamPause.v
Startup.v
Settings.v
History.v
PortForwarding.v
NatPmp.v
Tunnel.v
Failover.v
Qbittorrent.v
Registry.v
RatioGuard.v
Describe.v
NoticeWords.v
Encode.v
Rows.v
Schema.v
Storage.v
StorageMemory.v
QbittorrentClient.v
HistoryWriter.v
HistoryCount.v
HistoryPages.v
Recorded.v
Dashboard.v
Jobs.v
CommandLine.v
RegistryStorage.v
RegistryIndex.v
Budget.v
Network.v
Account.v
Acquisition.v
Connectability.v
Mam.v
MamProofs.v
Registration.v
Notifications.v
Core.v
Shell.v
CoreProofs.v
RegistryMoves.v
MamAccess.v
Samples.v
Admission.v
Reconcile.v
Spending.v
RatioTrip.v
Html.v
MamPages.v
Pages.v
PageProofs.v
PageLinks.v
PocMachine.v
PocConfig.v
PocCores.v
PocDocker.v
PocTunnel.v
PocNet.v
PocMam.v
PocQbit.v
PocDomain.v
PocSystem.v
