(* ===== verification/Prelude.v ===== *)
(** * Windlass: a verification of the program

    Windlass keeps a private-tracker account (MAM) in good standing: it watches a VPN
    tunnel and its forwarded port, qBittorrent's torrents, and the account with its
    bonus points and bookmarks. The program is a pure core, [Core::handle], which takes
    one event at a time and returns actions, and a shell that carries the actions out
    and reports events back ([src/src]). This library models both, and proves what the
    program promises its owner.

    ** The parts and their files

    Shared: this file (notation, tactics, machine integers, time and lists), [Values]
    and [Vocabulary] (the small types), [MamApi] (what is asked of MAM and answered),
    [Messages] (events, actions and notices), [Bytes], [Text] and [Address] (text as
    Rust's standard library reads and prints it), [Floats] (binary64 where MAM and
    qBittorrent send fractions) and [Json] (documents and serde's reading of them).
    The core ([src/src/core]) has one file per component, named after the source file:
    [Timer], [MamPause], [Startup], [Settings], [History], [PortForwarding], [Tunnel],
    [Qbittorrent], [Registry], [Notifications], and of [core/mam]: [Budget],
    [RatioGuard], [Network], [Account], [Acquisition], [Connectability] and [Mam], their
    composition. [Core] is the whole step of [core/machine.rs]: the component that owns
    the event handles it, and the decisions that follow every event are taken in the
    order of the code. A method that takes [&mut self] is a function from the state to
    the state and its result. A panic is [None].

    The shell ([src/src/shell]): [TorrentFile] (bencode), [NatPmp] (the port mapping
    client), [QbittorrentClient] (the web UI client, a finite dialogue of requests and
    answers), [MamClient] (the requests to MAM, [mam.rs]) and [MamReplies] (what its
    answers mean, [mam_reply.rs]), [Rows], [Schema] and [Storage] (the database),
    [HistoryWriter] (with [Ingress], the event queue) and [HistoryPages] (the stored history),
    [Jobs] (what each action becomes, and the event it answers with). [Shell] puts them
    around the core as the runner does ([runner.rs]): a state with the queue, the jobs
    under way, the timers and the history writer; [turn] is one round of the runner's
    loop, and [happen] is what goes on beside it, one step at a time and in any order.

    Words: [Describe] ([describe.rs]) says in words what an event is, [NoticeWords]
    ([notify.rs]) what a notice and an action are and what is pushed to the owner's
    phone, [Encode] is the JSON that serde derives for events and actions, and [Recorded]
    puts them into the rows of the history.

    What the owner uses: [Dashboard] (with [Guard]: the checks, routes and forms of
    [shell/web]), [Html] (markup as a tree), [MamPages] and [Pages] (every page, over the
    observation the runner publishes), and [CommandLine] (the
    options of [main.rs], and [Console], the console's commands).

    The archived prototype ([src/POC]), which the program replaces: its cores are machines
    of one class, [PocMachine.Machine], with their shared types. [PocTunnel] is its own
    WireGuard tunnel ([windlass-tunnel-core]), [PocConfig] the configuration and the
    packets the tunnel reads, [PocNet] what carries out the tunnel's actions, as scripts of
    requests to a system that may reply anything ([windlass-net]), [PocDocker] the
    containers, [PocMam] the account at MAM, [PocQbit] qBittorrent with its torrents,
    [PocCores] the VPN, disk and database cores, [PocDomain] the one that commands the others. [PocSystem] is all of them together: the
    loops that run them and the channels between them, as lists of labels in any order,
    with a contract for each core and a theorem that contracts which fit hold throughout.

    Files that only prove: [Spacing] (attempts spaced by what storage holds, a contract
    that [Registration] and [Failover] discharge), [StorageMemory], [RegistryStorage],
    [RegistryIndex], [RegistryMoves], [HistoryCount], [MamAnswers], [MamProofs],
    [CoreProofs], [MamAccess], [Admission], [Reconcile], [Spending], [RatioTrip],
    [PageProofs], [PageLinks], and [Samples] with a concrete run.

    ** What is shown

    - Of requests to MAM, in every run of the core ([MamAccess], [Registration],
      [Budget]): they are sent only when permitted, one at a time, within the rate, with
      the right cookie; IP lookups and registrations keep their spacing.
    - Of torrents and points ([Reconcile], [Admission], [Spending], [RatioTrip]): each
      command, fetch and purchase follows the owner's and the tracker's rules, and a
      counted download stops them until the owner has checked.
    - Of the VPN ([Failover]): automatic switches are an hour apart.
    - Of what is kept ([MamPause], [Settings], [RegistryStorage], [RegistryMoves],
      [StorageMemory], [Schema], [Rows]): preferences, settings and the registry never
      claim what storage does not hold and settle on what was asked for last; storage
      refines a memory of plain values whatever the disk fails; any older database is
      brought to the tables of a new one; rows are read back as they were saved.
    - Of the history ([HistoryWriter], [HistoryCount], [HistoryPages]): every entry is
      written in order, held, or counted as lost; the core's count is the table's while
      the disk works; the pages show every entry once.
    - Of the shell ([Jobs], [Shell]): every action is answered by the event of its own
      success or failure; the stream ends only when all work is done, and shutdown never
      waits for nothing.
    - Of input from outside ([TorrentFile], [NatPmp], [QbittorrentClient], [Text]): the
      bencode reader is its grammar and ends on every input, gateway answers and web UI
      preferences are read as they are meant, accepted text is valid.
    - Of MAM's client ([MamAnswers]): each request carries what was asked and the cookie
      only to MAM; every failure is what happened; what is understood is valid.
    - Of what is said ([Recorded], [NoticeWords]): no secret reaches the history or a
      push, and the history's entries are read back as they were recorded.
    - Of the dashboard ([Dashboard], [PageLinks], [PageProofs]): only its own
      forms command the core, with values it may have; every form and link of a page is
      answered; no page but the settings form shows a secret; the history's links keep
      the filter.
    - Of the command line ([CommandLine]): what a started Windlass was told.
    - Of the prototype ([PocTunnel], [PocConfig], [PocNet], [PocDocker], [PocMam], [PocQbit], [PocDomain],
      [PocSystem]): its
      tunnel is fenced from the first step of its boot, the port told is the port held, no
      watch over it ends; an installed kill switch lets out what it should and nothing else,
      read back as [nft] reads it, the default route moves only when the peers' routes are
      fixed, the keys reach only the input of [wg], a reported lease was granted for both
      protocols and a reported leak was seen; an accepted configuration is complete and fully understood;
      automatic restarts keep their budget and registrations at MAM their distance; no
      torrent that owes seeding is deleted; a torrent is fetched exactly if the latest
      signals allow it; qBittorrent and MAM are given only ports of the gateway. Two
      faults of its wiring are theorems too: no fetched torrent is ever added, and a lost
      address is never good again.

    ** Conventions

    Integers are [Z] with the width's operations written out below: wrapping where the
    code adds plainly, saturating and checked where it says so. Times and durations count
    nanoseconds. A Rust variant [Enum::Variant] is [Enum_Variant]. [HashMap] and [BTreeMap]
    are [gmap]; an order that matters is that of the keys ([bt_items]).

    Fuel: [TorrentFile.parse] takes fuel for its nesting, and twice the input's length
    and one more is shown to be enough; [HistoryPages.turn_pages] takes one more than the
    entries of the query, shown enough; text readers take the length of their input,
    which every step shortens. All other recursion is structural. Theorems about whole
    runs of the core assume fewer events than would wrap its 64-bit counters, the one of
    [HistoryCount] fewer turns than there are row ids.

    ** Parameters

    SQLite's column values and their conversions are the interface [Rows.Columns], whose
    laws are [ColumnsOk] and whose instance is [SqliteValue]; whether the disk carries
    an operation out is an argument, an error leaves the tables as they were. The HTTP
    library is [MamClient.MamLibrary]; the URL library [NoticeWords.UrlLibrary]; the form of
    times [Describe.Rfc3339]. SHA-1, the UDP socket, the web UI, the text of JSON
    documents, MIME types, the reading of times and of a request's parameters, Unicode's
    lower case and the clock are arguments too. Binary64 arithmetic is the standard
    library's [SpecFloat]; printing a fraction uses its exact value. Of the prototype, the
    order of a hash map ([PocQbit.HashOrder]), the form of times and the last of them
    ([PocDomain.Chrono]), the quoted form of text ([PocDomain.DebugText]), the text of JSON
    documents ([PocNet.JsonText]) and the times of a handshake ([PocNet.Timestamps]).

    ** Not modelled

    What third-party libraries do: the sockets and TLS of the HTTP clients and of the
    web server, writing markup and JSON as text, SQLite's file, and the tasks of the
    runtime, whose steps [Shell] interleaves freely. The dashboard's stylesheet and
    script are files it sends. Of the prototype: the shells and clients that carry out what
    its cores ask for, the pages of its web server and its observability; they may
    answer anything in [PocSystem]. *)

From stdpp Require Export base tactics option list gmap sets strings sorting numbers.

#[global] Open Scope Z_scope.

(** ** Notation of the development *)

Declare Scope windlass_scope.
Delimit Scope windlass_scope with W.

(** Rust's [==] on a type with decidable equality. *)
Notation "x ==? y" := (bool_decide (x = y)) (at level 70, no associativity) : windlass_scope.
Notation "x !=? y" := (negb (bool_decide (x = y))) (at level 70, no associativity) : windlass_scope.
#[global] Open Scope windlass_scope.

(** ** Tactics and hint databases *)

(** [windlass]: facts that close the routine side conditions of the components. *)
Create HintDb windlass discriminated.
Create Rewrite HintDb windlass_rw.

(** Turn boolean tests of the code into propositions. *)
Ltac reflect_bools :=
  repeat match goal with
  | H : andb _ _ = true |- _ => apply andb_true_iff in H; destruct H
  | H : orb _ _ = false |- _ => apply orb_false_iff in H; destruct H
  | H : negb _ = true |- _ => apply negb_true_iff in H
  | H : negb _ = false |- _ => apply negb_false_iff in H
  | H : bool_decide _ = true |- _ => apply bool_decide_eq_true in H
  | H : bool_decide _ = false |- _ => apply bool_decide_eq_false in H
  | H : (_ <=? _) = true |- _ => apply Z.leb_le in H
  | H : (_ <=? _) = false |- _ => apply Z.leb_gt in H
  | H : (_ <? _) = true |- _ => apply Z.ltb_lt in H
  | H : (_ <? _) = false |- _ => apply Z.ltb_ge in H
  | H : (_ =? _) = true |- _ => apply Z.eqb_eq in H
  | H : (_ =? _) = false |- _ => apply Z.eqb_neq in H
  end.

(** Case analysis on every [match] and [if] that blocks the goal or a
    hypothesis, keeping the equations. *)
Ltac split_cases :=
  repeat (case_match; simplify_eq/=; reflect_bools; simplify_eq/=).

Ltac step_cases := simplify_eq/=; reflect_bools; split_cases.

(** Take a successful computation apart into its steps. *)
Ltac bind_inv :=
  repeat match goal with
  | H : mbind _ _ = Some _ |- _ => apply bind_Some in H as (? & ? & ?)
  | H : fmap _ _ = Some _ |- _ => apply fmap_Some in H as (? & ? & ?)
  | H : Some _ = Some _ |- _ => injection H as H
  end; subst.

(** ** Machine integers *)

(** Unsigned integers are [Z] kept in range; the operations below are those of
    the Rust standard library at that width. *)
Definition u8_max : Z := 2 ^ 8 - 1.
Definition u16_max : Z := 2 ^ 16 - 1.
Definition u32_max : Z := 2 ^ 32 - 1.
Definition u64_max : Z := 2 ^ 64 - 1.
Definition i64_min : Z := - 2 ^ 63.
Definition i64_max : Z := 2 ^ 63 - 1.

Definition in_width (max x : Z) : Prop := 0 ≤ x ≤ max.
Abbreviation is_u8 := (in_width u8_max).
Abbreviation is_u16 := (in_width u16_max).
Abbreviation is_u32 := (in_width u32_max).
Abbreviation is_u64 := (in_width u64_max).

Definition saturating_add (max a b : Z) : Z := Z.min (a + b) max.
Definition saturating_mul (max a b : Z) : Z := Z.min (a * b) max.
Definition saturating_sub (a b : Z) : Z := Z.max (a - b) 0.
Definition wrapping_add (max a b : Z) : Z := (a + b) mod (max + 1).
Definition checked_sub (a b : Z) : option Z := if b <=? a then Some (a - b) else None.
(** [uN::try_from(x).unwrap_or(uN::MAX)] for a non-negative [x]. *)
Definition try_from_or_max (max x : Z) : Z := Z.min x max.

Section machine_integers.
Context (max : Z).

Lemma saturating_add_width a b :
  in_width max a → in_width max b → in_width max (saturating_add max a b).
Proof. unfold in_width, saturating_add. lia. Qed.

Lemma saturating_sub_width a b :
  in_width max a → in_width max b → in_width max (saturating_sub a b).
Proof. unfold in_width, saturating_sub. lia. Qed.

Lemma saturating_mul_width a b :
  in_width max a → in_width max b → in_width max (saturating_mul max a b).
Proof. unfold in_width, saturating_mul. nia. Qed.

Lemma wrapping_add_small a b :
  0 ≤ a + b ≤ max → wrapping_add max a b = a + b.
Proof. intros. unfold wrapping_add. apply Z.mod_small. lia. Qed.

Lemma wrapping_add_width a b : 0 ≤ max → in_width max (wrapping_add max a b).
Proof.
  intros. unfold in_width, wrapping_add.
  pose proof (Z.mod_pos_bound (a + b) (max + 1)). lia.
Qed.
End machine_integers.
#[export] Hint Resolve saturating_add_width saturating_sub_width
  saturating_mul_width wrapping_add_width : windlass.

(** ** Time

    [Instant] and [SystemTime] count nanoseconds; on the target platform both
    hold their seconds in an [i64], which bounds [checked_add]. A [Duration]
    counts nanoseconds too, with its seconds in a [u64]. *)
Abbreviation Instant := Z (only parsing).
Abbreviation SystemTime := Z (only parsing).
Abbreviation Duration := Z (only parsing).

Definition NANOS_PER_SEC : Z := 1_000_000_000.
Definition TIME_MAX : Z := (2 ^ 63 - 1) * NANOS_PER_SEC + (NANOS_PER_SEC - 1).
Definition DURATION_MAX : Z := u64_max * NANOS_PER_SEC + (NANOS_PER_SEC - 1).

Definition from_secs (s : Z) : Duration := s * NANOS_PER_SEC.
Definition from_mins (m : Z) : Duration := from_secs (60 * m).
Definition from_hours (h : Z) : Duration := from_mins (60 * h).
Definition as_secs (d : Duration) : Z := d / NANOS_PER_SEC.

(** [checked_add] of [Instant] and of [SystemTime]. *)
Definition checked_add (t : Z) (d : Duration) : option Z :=
  if t + d <=? TIME_MAX then Some (t + d) else None.

(** [t.checked_add(d).unwrap_or(t)]. *)
Definition add_or_same (t : Z) (d : Duration) : Z := default t (checked_add t d).

(** [Instant::duration_since] and [saturating_duration_since]: zero when
    [earlier] is later. *)
Definition duration_since (t earlier : Instant) : Duration := Z.max (t - earlier) 0.

(** [SystemTime::duration_since]: an error when [earlier] is later. *)
Definition wall_duration_since (t earlier : SystemTime) : option Duration :=
  if earlier <=? t then Some (t - earlier) else None.

(** [Duration * u32] panics on overflow; [None] is that panic. *)
Definition duration_mul (d : Duration) (k : Z) : option Duration :=
  if d * k <=? DURATION_MAX then Some (d * k) else None.
Definition duration_saturating_mul (d : Duration) (k : Z) : Duration :=
  Z.min (d * k) DURATION_MAX.
Definition duration_saturating_sub (a b : Duration) : Duration := Z.max (a - b) 0.
Definition duration_saturating_add (a b : Duration) : Duration := Z.min (a + b) DURATION_MAX.

Lemma checked_add_Some t d u : checked_add t d = Some u ↔ u = t + d ∧ t + d ≤ TIME_MAX.
Proof. unfold checked_add. case_match; reflect_bools; split; intros; simplify_eq; lia || (f_equal; lia) || auto. Qed.

Lemma checked_add_fits t d : t + d ≤ TIME_MAX → checked_add t d = Some (t + d).
Proof. intros. by apply checked_add_Some. Qed.

Lemma add_or_same_fits t d : t + d ≤ TIME_MAX → add_or_same t d = t + d.
Proof. intros. unfold add_or_same. by rewrite checked_add_fits. Qed.

Lemma add_or_same_ge t d : 0 ≤ d → t ≤ add_or_same t d.
Proof. unfold add_or_same, checked_add. case_match; simpl; lia. Qed.

(** Times that do not run backwards, from [t] on. *)
Fixpoint ascending (t : Instant) (times : list Instant) : Prop :=
  match times with
  | [] => True
  | u :: times => t ≤ u ≤ TIME_MAX ∧ ascending u times
  end.

Definition last_time (t : Instant) (times : list Instant) : Instant :=
  fold_left (λ _ u, u) times t.

Lemma ascending_app t xs ys :
  ascending t (xs ++ ys) ↔ ascending t xs ∧ ascending (last_time t xs) ys.
Proof.
  revert t. induction xs as [|x xs IH]; intros t; [simpl; tauto|].
  change (last_time t (x :: xs)) with (last_time x xs). simpl. rewrite IH. tauto.
Qed.

(** Clock values recorded where an event occurs ([core/mod.rs]). *)
Record ClockReading := mkClockReading {
  monotonic : Instant;
  wall : SystemTime;
}.

(** ** Options, as Rust's combinators read them *)

Definition is_some_and {A} (o : option A) (p : A → bool) : bool :=
  match o with Some x => p x | None => false end.
Definition is_none_or {A} (o : option A) (p : A → bool) : bool :=
  match o with Some x => p x | None => true end.
Definition is_some {A} (o : option A) : bool := is_some_and o (λ _, true).
Definition is_none {A} (o : option A) : bool := negb (is_some o).
Definition opt_filter {A} (p : A → bool) (o : option A) : option A :=
  match o with Some x => if p x then Some x else None | None => None end.
Definition opt_or {A} (o o' : option A) : option A :=
  match o with Some _ => o | None => o' end.
Definition opt_zip {A B} (o : option A) (o' : option B) : option (A * B) :=
  match o, o' with Some x, Some y => Some (x, y) | _, _ => None end.
(** [then_some]: [Some] under a condition. *)
Definition then_some {A} (b : bool) (x : A) : option A := if b then Some x else None.
(** [max] and [<] of [Option<T>], where [None] comes first. *)
Definition opt_max (o o' : option Z) : option Z :=
  match o, o' with
  | Some a, Some b => Some (Z.max a b)
  | Some a, None | None, Some a => Some a
  | None, None => None
  end.
Definition opt_lt (o o' : option Z) : bool :=
  match o, o' with
  | Some a, Some b => a <? b
  | None, Some _ => true
  | _, None => false
  end.

Lemma opt_filter_Some {A} (p : A → bool) o x :
  opt_filter p o = Some x ↔ o = Some x ∧ p x = true.
Proof.
  destruct o as [y|]; simpl; [destruct (p y) eqn:?|];
    split; intros; destruct_and?; simplify_eq; auto; congruence.
Qed.

Lemma is_some_and_true {A} (p : A → bool) o :
  is_some_and o p = true ↔ ∃ x, o = Some x ∧ p x = true.
Proof. destruct o; naive_solver. Qed.

Lemma is_none_or_true {A} (p : A → bool) o :
  is_none_or o p = true ↔ ∀ x, o = Some x → p x = true.
Proof. destruct o; naive_solver. Qed.

Lemma then_some_Some {A} b (x y : A) : then_some b x = Some y ↔ b = true ∧ x = y.
Proof. destruct b; naive_solver. Qed.

(** Results of fallible operations. *)
Inductive Result (T E : Type) :=
  | Ok (value : T)
  | Err (error : E).
Arguments Ok {T E} value.
Arguments Err {T E} error.
#[global] Instance Result_eq_dec {T E} `{EqDecision T, EqDecision E} : EqDecision (Result T E).
Proof. solve_decision. Defined.

(** ** Lists *)

(** [Vec::is_empty] *)
Definition is_empty {A} (l : list A) : bool :=
  match l with [] => true | _ :: _ => false end.

Lemma filter_all {A} (P : A → Prop) `{∀ x, Decision (P x)} l : Forall P l → filter P l = l.
Proof. induction 1; [done|]. rewrite filter_cons_True by done. by f_equal. Qed.

Lemma Forall_kept {A} (P Q : A → Prop) `{∀ x, Decision (P x)} l :
  Forall Q l → Forall Q (filter P l).
Proof. induction 1; [constructor|]. rewrite filter_cons. case_decide; [by constructor|done]. Qed.

Lemma StronglySorted_kept {A} (R : A → A → Prop) (P : A → Prop) `{∀ x, Decision (P x)} l :
  StronglySorted R l → StronglySorted R (filter P l).
Proof.
  induction 1; [constructor|]. rewrite filter_cons. case_decide; [|done].
  constructor; [done|]. by apply Forall_kept.
Qed.

(** [Iterator::find_map]. *)
Fixpoint find_map {A B} (f : A → option B) (l : list A) : option B :=
  match l with
  | [] => None
  | x :: l => match f x with Some y => Some y | None => find_map f l end
  end.

Lemma find_map_Some {A B} (f : A → option B) l y :
  find_map f l = Some y → ∃ x, x ∈ l ∧ f x = Some y.
Proof.
  induction l as [|x l IH]; simpl; [done|].
  destruct (f x) eqn:E; intros; simplify_eq; [by exists x; split; [left|]|].
  destruct IH as (z & ? & ?); [done|]. exists z. split; [by right|done].
Qed.

Lemma find_map_None {A B} (f : A → option B) l :
  find_map f l = None ↔ ∀ x, x ∈ l → f x = None.
Proof.
  induction l as [|x l IH]; simpl.
  - split; [|done]. intros _ x. by rewrite elem_of_nil.
  - destruct (f x) eqn:E; [split; [done|intros H]; rewrite H in E; [done|by left]|].
    rewrite IH. split; intros H y; [rewrite elem_of_cons; naive_solver|].
    intros. apply H. by right.
Qed.

(** The minimum and maximum of a list of numbers, [Iterator::min] and [max]. *)
Definition min_list (l : list Z) : option Z :=
  foldr (λ x acc, Some (match acc with Some y => Z.min x y | None => x end)) None l.
Definition max_list (l : list Z) : option Z :=
  foldr (λ x acc, opt_max (Some x) acc) None l.

Lemma min_list_Some l m : min_list l = Some m → m ∈ l ∧ ∀ x, x ∈ l → m ≤ x.
Proof.
  revert m. induction l as [|x l IH]; simpl; intros m; [done|].
  destruct (min_list l) as [y|] eqn:E; intros; simplify_eq.
  - destruct (IH y) as [Hin Hle]; [done|]. split.
    + destruct (Z.min_spec x y) as [[? ->]|[? ->]]; [by left|by right].
    + intros z [->|Hz]%elem_of_cons; [lia|]. specialize (Hle z Hz). lia.
  - destruct l as [|z l]; [|done].
    split; [by left|]. intros z. rewrite list_elem_of_singleton. lia.
Qed.

Lemma max_list_ge l x : x ∈ l → ∃ m, max_list l = Some m ∧ x ≤ m.
Proof.
  induction l as [|y l IH]; [by rewrite elem_of_nil|].
  intros [->|Hx]%elem_of_cons; simpl.
  - destruct (max_list l) as [z|]; eexists; (split; [reflexivity|]); simpl; lia.
  - destruct (IH Hx) as (z & -> & ?). eexists. split; [reflexivity|]. lia.
Qed.

(** ** Ordered maps

    [BTreeMap] and [BTreeSet] are stdpp's [gmap] and [gset], whose equality is
    extensional as that of the Rust maps; iterating one visits the keys in
    ascending order. *)
Class KeyOrder (K : Type) := key_le : relation K.
#[global] Hint Mode KeyOrder ! : typeclass_instances.

Class KeyOrderOk (K : Type) `{KeyOrder K} := {
  key_le_dec :: RelDecision (key_le (K:=K));
  key_le_po :: PartialOrder (key_le (K:=K));
  key_le_total :: Total (key_le (K:=K));
}.

#[global] Instance Z_key_order : KeyOrder Z := Z.le.
#[global] Instance Z_key_order_ok : KeyOrderOk Z.
Proof. split; unfold key_le, Z_key_order; apply _. Defined.
#[global] Instance string_key_order : KeyOrder string := String.le.
#[global] Instance string_key_order_ok : KeyOrderOk string.
Proof. split; unfold key_le, string_key_order; apply _. Defined.

Section ordered_maps.
Context {K V : Type} `{Countable K, KeyOrder K, !KeyOrderOk K}.
Implicit Types (m : gmap K V) (k : K) (v : V).

Definition item_le (p q : K * V) : Prop := key_le p.1 q.1.
#[global] Instance item_le_dec : RelDecision item_le.
Proof. intros p q. unfold item_le. apply _. Defined.
#[global] Instance item_le_trans : Transitive item_le.
Proof. intros p q r. unfold item_le. apply transitivity. Qed.
#[global] Instance item_le_total : Total item_le.
Proof. intros p q. unfold item_le. apply total, _. Qed.

(** The entries in ascending order of their keys: [BTreeMap::iter]. *)
Definition bt_items m : list (K * V) := merge_sort item_le (map_to_list m).
Definition bt_keys m : list K := (bt_items m).*1.
Definition bt_values m : list V := (bt_items m).*2.

Lemma bt_items_permutation m : bt_items m ≡ₚ map_to_list m.
Proof. apply merge_sort_Permutation. Qed.

Lemma elem_of_bt_items m k v : (k, v) ∈ bt_items m ↔ m !! k = Some v.
Proof. rewrite bt_items_permutation. apply elem_of_map_to_list. Qed.

Lemma elem_of_bt_values m v : v ∈ bt_values m ↔ ∃ k, m !! k = Some v.
Proof.
  unfold bt_values. rewrite list_elem_of_fmap. split.
  - intros ([k w] & -> & Hin). exists k. by apply elem_of_bt_items.
  - intros [k Hk]. exists (k, v). split; [done|]. by apply elem_of_bt_items.
Qed.

Lemma NoDup_bt_keys m : NoDup (bt_keys m).
Proof. unfold bt_keys. rewrite bt_items_permutation. apply NoDup_fst_map_to_list. Qed.

Lemma bt_items_sorted m : StronglySorted item_le (bt_items m).
Proof. apply StronglySorted_merge_sort; apply _. Qed.

Lemma bt_items_empty : bt_items ∅ = [].
Proof. unfold bt_items. by rewrite map_to_list_empty. Qed.

(** [Iterator::collect] into a map: the last of equal keys wins. *)
Definition bt_collect (l : list (K * V)) : gmap K V :=
  fold_left (λ m p, <[p.1 := p.2]> m) l ∅.

Lemma bt_collect_Some l k v : bt_collect l !! k = Some v → (k, v) ∈ l.
Proof.
  unfold bt_collect. revert v. induction l as [|[k' v'] l IH] using rev_ind; intros v.
  { simpl. by rewrite lookup_empty. }
  rewrite fold_left_app, elem_of_app, list_elem_of_singleton. simpl.
  rewrite lookup_insert_Some. naive_solver.
Qed.
Lemma bt_collect_is_Some l k : k ∈ l.*1 → is_Some (bt_collect l !! k).
Proof.
  unfold bt_collect. induction l as [|[k' v'] l IH] using rev_ind; simpl.
  { by rewrite elem_of_nil. }
  rewrite fold_left_app, fmap_app, elem_of_app. simpl. rewrite list_elem_of_singleton.
  rewrite lookup_insert_is_Some'. naive_solver.
Qed.

Lemma bt_collect_items m : bt_collect (bt_items m) = m.
Proof.
  apply map_eq. intros k. destruct (m !! k) as [v|] eqn:Hm.
  - apply elem_of_bt_items in Hm as Hin.
    destruct (bt_collect_is_Some (bt_items m) k) as [w Hw];
      [by apply list_elem_of_fmap_2 with (f := fst) in Hin|].
    rewrite Hw. apply bt_collect_Some, elem_of_bt_items in Hw. congruence.
  - destruct (bt_collect _ !! k) as [w|] eqn:Hw; [|done].
    apply bt_collect_Some, elem_of_bt_items in Hw. congruence.
Qed.
End ordered_maps.
