(* ===== verification/Values.v ===== *)
(** * Values

    The validated numbers and small value types the components share, with
    their operations: counts and sizes ([core/failures.rs], [core/settings.rs],
    [core/qbittorrent.rs], [core/registry.rs], [core/mam/api.rs]). A numeric
    newtype is an abbreviation of [Z]; the [_ok] predicate of a type that
    excludes some numbers is what its constructor checks. *)

From S2P Require Import Prelude.

Abbreviation TimerId := Z (only parsing).
Abbreviation HttpStatus := Z (only parsing).
Abbreviation FailureCount := Z (only parsing).
Abbreviation Port := Z (only parsing).
Abbreviation RecordId := Z (only parsing).
Abbreviation MamTorrentId := Z (only parsing).
Abbreviation ByteSize := Z (only parsing).
Abbreviation Ratio := Z (only parsing).
Abbreviation Progress := Z (only parsing).
Abbreviation SyncPosition := Z (only parsing).
Abbreviation Points := Z (only parsing).
Abbreviation UnsatisfiedCount := Z (only parsing).
Abbreviation UnsatisfiedLimit := Z (only parsing).
Abbreviation TorrentCount := Z (only parsing).
Abbreviation NoticeCount := Z (only parsing).
Abbreviation WedgeCount := Z (only parsing).
Abbreviation BookmarkCount := Z (only parsing).
Abbreviation EntryCount := Z (only parsing).
Abbreviation HistoryLimit := Z (only parsing).
Abbreviation PointsReserve := Z (only parsing).
Abbreviation DownloadingLimit := Z (only parsing).
Abbreviation ActiveLimit := Z (only parsing).
Abbreviation Asn := Z (only parsing).
Abbreviation NoticeId := Z (only parsing).
Abbreviation PushCount := Z (only parsing).
Abbreviation TorrentHash := string (only parsing).
Abbreviation ApiCookie := string (only parsing).
Abbreviation NtfyTopic := string (only parsing).
Abbreviation VpnServer := string (only parsing).

(** ** Failures in a row *)

Definition FailureCount_NONE : FailureCount := 0.
Definition FailureCount_after_another (c : FailureCount) : FailureCount :=
  saturating_add u32_max c 1.
Definition FailureCount_any (c : FailureCount) : bool := 0 <? c.

(** ** Identities: non-zero integers *)

(** [NonZeroU16::new] and [NonZeroU64::new]. *)
Definition non_zero (max n : Z) : option Z :=
  if (1 <=? n) && (n <=? max) then Some n else None.
Definition Port_new (number : Z) : option Port := non_zero u16_max number.
Definition RecordId_new (id : Z) : option RecordId := non_zero u64_max id.
Definition RecordId_after (id : RecordId) : RecordId := saturating_add u64_max id 1.
Definition MamTorrentId_new (id : Z) : option MamTorrentId := non_zero u64_max id.
Definition NoticeId_FIRST : NoticeId := 1.
Definition NoticeId_new (id : Z) : option NoticeId := non_zero u64_max id.
Definition NoticeId_following (id : NoticeId) : NoticeId := saturating_add u64_max id 1.
Definition PushCount_plus_one (c : PushCount) : PushCount := saturating_add u64_max c 1.

(** ** Sizes, progress and ratios *)

Definition Progress_from_permille (permille : Z) : option Progress :=
  if permille <=? 1000 then Some permille else None.
Definition ByteSize_is_zero (b : ByteSize) : bool := b =? 0.
Definition ByteSize_less (a b : ByteSize) : ByteSize := saturating_sub a b.

(** Uploaded over downloaded in thousandths; the product is taken in 128 bits
    and the quotient saturates at 64. *)
Definition Ratio_of (uploaded downloaded : ByteSize) : option Ratio :=
  if ByteSize_is_zero downloaded then None
  else Some (try_from_or_max u64_max (uploaded * 1000 / downloaded)).

(** ** Points *)

Definition Points_plus (a b : Points) : Points := saturating_add u64_max a b.
Definition Points_less (a b : Points) : Points := saturating_sub a b.
Definition Points_times (a count : Z) : Points := saturating_mul u64_max a count.

(** ** Counts MAM reports *)

Definition UnsatisfiedCount_plus (a b : UnsatisfiedCount) : UnsatisfiedCount :=
  saturating_add u32_max a b.

(** Whether one more torrent still leaves [reserve] slots free below the limit. *)
Definition UnsatisfiedLimit_admits_one_more (limit : UnsatisfiedLimit)
    (count reserve : UnsatisfiedCount) : bool :=
  saturating_add u32_max (saturating_add u32_max count 1) reserve <=? limit.

(** Whether the count has reached 80% of a limit above zero. *)
Definition UnsatisfiedLimit_nearly_reached_by (limit : UnsatisfiedLimit)
    (count : UnsatisfiedCount) : bool :=
  (0 <? limit) && (limit * 4 <=? count * 5).

Definition TorrentCount_counting {T} (torrents : list T) : TorrentCount :=
  try_from_or_max u32_max (Z.of_nat (length torrents)).
Definition TorrentCount_is_zero (c : TorrentCount) : bool := c =? 0.
Definition TorrentCount_plus (a b : TorrentCount) : TorrentCount := saturating_add u32_max a b.
Definition NoticeCount_is_zero (c : NoticeCount) : bool := c =? 0.
Definition NoticeCount_plus (a b : NoticeCount) : NoticeCount := saturating_add u32_max a b.
Definition WedgeCount_is_zero (c : WedgeCount) : bool := c =? 0.

(** [BookmarkCount::of] a list of this length. *)
Definition BookmarkCount_of (listed : nat) : option BookmarkCount :=
  if Z.of_nat listed <=? u32_max then Some (Z.of_nat listed) else None.
Definition BookmarkCount_is_reached_by (count : BookmarkCount) (listed : nat) : bool :=
  count <=? Z.of_nat listed.

(** ** Settings *)

Definition EntryCount_plus (a count : EntryCount) : EntryCount := saturating_add u64_max a count.
Definition EntryCount_minus (a b : EntryCount) : EntryCount := saturating_sub a b.

Definition HistoryLimit_try_new (n : Z) : option HistoryLimit :=
  if (100 <=? n) && (n <=? 1_000_000) then Some n else None.
Definition HistoryLimit_default : HistoryLimit := 10_000.
(** The number of entries to keep after trimming, leaving room below the limit. *)
Definition HistoryLimit_trim_target (limit : HistoryLimit) : EntryCount := limit * 9 / 10.
Definition HistoryLimit_is_exceeded_by (limit : HistoryLimit) (retained : EntryCount) : bool :=
  limit <? retained.

Definition PointsReserve_try_new (n : Z) : option PointsReserve :=
  if (0 <=? n) && (n <=? 100_000_000) then Some n else None.
Definition PointsReserve_default : PointsReserve := 20_000.
Definition PointsReserve_points (reserve : PointsReserve) : Points := reserve.

Definition DownloadingLimit_try_new (n : Z) : option DownloadingLimit :=
  if (1 <=? n) && (n <=? 100) then Some n else None.
Definition DownloadingLimit_default : DownloadingLimit := 5.
Definition DownloadingLimit_is_reached_by (limit : DownloadingLimit) (downloading : TorrentCount)
    : bool :=
  limit <=? downloading.
Definition ActiveLimit_try_new (n : Z) : option ActiveLimit :=
  if (1 <=? n) && (n <=? 1_000) then Some n else None.
Definition ActiveLimit_default : ActiveLimit := 10.

Record TorrentLimits := mkTorrentLimits {
  limits_downloading : DownloadingLimit;
  limits_active : ActiveLimit;
}.
#[global] Instance TorrentLimits_eq_dec : EqDecision TorrentLimits.
Proof. solve_decision. Defined.

Inductive FewerActiveThanDownloading := mkFewerActiveThanDownloading.

(** Limits with at least as many active torrents as downloading ones. *)
Definition TorrentLimits_new (downloading : DownloadingLimit) (active : ActiveLimit)
    : Result TorrentLimits FewerActiveThanDownloading :=
  if active <? downloading then Err mkFewerActiveThanDownloading
  else Ok (mkTorrentLimits downloading active).
Definition TorrentLimits_default : TorrentLimits :=
  mkTorrentLimits DownloadingLimit_default ActiveLimit_default.

(** ** Client versions *)

Record ClientVersion := mkClientVersion {
  version_major : Z;
  version_minor : Z;
  version_patch : Z;
}.
#[global] Instance ClientVersion_eq_dec : EqDecision ClientVersion.
Proof. solve_decision. Defined.

(** The derived order: major, then minor, then patch. *)
Definition ClientVersion_le (a b : ClientVersion) : bool :=
  (version_major a <? version_major b)
  || ((version_major a =? version_major b)
      && ((version_minor a <? version_minor b)
          || ((version_minor a =? version_minor b) && (version_patch a <=? version_patch b)))).

Inductive MamApproval :=
  | MamApproval_Recommended
  | MamApproval_Allowed
  | MamApproval_Discouraged
  | MamApproval_NotAllowed.
#[global] Instance MamApproval_eq_dec : EqDecision MamApproval.
Proof. solve_decision. Defined.

(** MAM's position on a release version. *)
Definition ClientVersion_mam_approval (v : ClientVersion) : MamApproval :=
  let within low high := ClientVersion_le low v && ClientVersion_le v high in
  if (version_major v =? 5) && (version_minor v =? 2) then MamApproval_Recommended
  else if within (mkClientVersion 5 0 1) (mkClientVersion 5 2 u32_max) then MamApproval_Allowed
  else if within (mkClientVersion 4 5 2) (mkClientVersion 4 6 7)
       || within (mkClientVersion 4 3 4) (mkClientVersion 4 4 5) then MamApproval_Discouraged
  else MamApproval_NotAllowed.

Inductive ReportedVersion :=
  | ReportedVersion_Release (version : ClientVersion)
  | ReportedVersion_Unrecognised (text : string).
#[global] Instance ReportedVersion_eq_dec : EqDecision ReportedVersion.
Proof. solve_decision. Defined.

Definition ReportedVersion_release (v : ReportedVersion) : option ClientVersion :=
  match v with
  | ReportedVersion_Release version => Some version
  | ReportedVersion_Unrecognised _ => None
  end.
(** Only releases can be allowed. *)
Definition ReportedVersion_mam_approval (v : ReportedVersion) : MamApproval :=
  match ReportedVersion_release v with
  | Some version => ClientVersion_mam_approval version
  | None => MamApproval_NotAllowed
  end.

(** ** Addresses *)

Inductive IpAddr :=
  | IpAddr_V4 (bits : Z)
  | IpAddr_V6 (bits : Z).
#[global] Instance IpAddr_eq_dec : EqDecision IpAddr.
Proof. solve_decision. Defined.
