(* ===== verification/Vocabulary.v ===== *)
(** * Vocabulary

    The data the components exchange: what each event reports, what each
    action asks of the shell, and the structs and enums they carry
    ([core/mod.rs] and the type declarations of the component files). A Rust
    variant [Enum::Variant] is the constructor [Enum_Variant]; a field [f] of a
    struct is a projection prefixed by the struct's name. *)

From S2P Require Import Prelude Values.

(** ** Startup and the MAM pause *)

Inductive StartupMode :=
  | StartupMode_Initialise
  | StartupMode_Resume.
#[global] Instance StartupMode_eq_dec : EqDecision StartupMode.
Proof. solve_decision. Defined.

Inductive StartupEvent :=
  | StartupEvent_Start (mode : StartupMode)
  | StartupEvent_StorageOpened
  | StartupEvent_StorageOpenFailed.
#[global] Instance StartupEvent_eq_dec : EqDecision StartupEvent.
Proof. solve_decision. Defined.

Inductive MamRequestMode :=
  | MamRequestMode_Paused
  | MamRequestMode_Enabled.
#[global] Instance MamRequestMode_eq_dec : EqDecision MamRequestMode.
Proof. solve_decision. Defined.

Inductive MamPauseEvent :=
  | MamPauseEvent_Set (mode : MamRequestMode)
  | MamPauseEvent_Delete
  | MamPauseEvent_Read (mode : option MamRequestMode)
  | MamPauseEvent_ReadFailed
  | MamPauseEvent_Written
  | MamPauseEvent_WriteFailed
  | MamPauseEvent_Deleted
  | MamPauseEvent_DeleteFailed.
#[global] Instance MamPauseEvent_eq_dec : EqDecision MamPauseEvent.
Proof. solve_decision. Defined.

(** ** Settings and history *)

Inductive SettingsEvent :=
  | SettingsEvent_Read (history_limit : option HistoryLimit) (api_cookie : option ApiCookie)
      (ntfy_topic : option NtfyTopic) (points_reserve : option PointsReserve)
      (torrent_limits : option TorrentLimits)
  | SettingsEvent_ReadFailed
  | SettingsEvent_SetHistoryLimit (limit : HistoryLimit)
  | SettingsEvent_HistoryLimitWritten
  | SettingsEvent_HistoryLimitWriteFailed
  | SettingsEvent_SetApiCookie (cookie : ApiCookie)
  | SettingsEvent_ClearApiCookie
  | SettingsEvent_ApiCookieWritten
  | SettingsEvent_ApiCookieWriteFailed
  | SettingsEvent_SetNtfyTopic (topic : NtfyTopic)
  | SettingsEvent_ClearNtfyTopic
  | SettingsEvent_NtfyTopicWritten
  | SettingsEvent_NtfyTopicWriteFailed
  | SettingsEvent_SetPointsReserve (reserve : PointsReserve)
  | SettingsEvent_PointsReserveWritten
  | SettingsEvent_PointsReserveWriteFailed
  | SettingsEvent_SetTorrentLimits (limits : TorrentLimits)
  | SettingsEvent_TorrentLimitsWritten
  | SettingsEvent_TorrentLimitsWriteFailed
  | SettingsEvent_RotatedApiCookieWritten
  | SettingsEvent_RotatedApiCookieWriteFailed.
#[global] Instance SettingsEvent_eq_dec : EqDecision SettingsEvent.
Proof. solve_decision. Defined.

Inductive HistoryEvent :=
  | HistoryEvent_Opened (retained : EntryCount)
  | HistoryEvent_OpenFailed
  | HistoryEvent_Trimmed (retained : EntryCount)
  | HistoryEvent_TrimFailed
  | HistoryEvent_EntriesLost (count : EntryCount) (from until : SystemTime).
#[global] Instance HistoryEvent_eq_dec : EqDecision HistoryEvent.
Proof. solve_decision. Defined.

(** ** Timers *)

Inductive TimerName :=
  | TimerName_QbittorrentPoll
  | TimerName_PortLease
  | TimerName_TunnelCheck
  | TimerName_NotificationGrace
  | TimerName_NotificationRetry
  | TimerName_Mam.
#[global] Instance TimerName_eq_dec : EqDecision TimerName.
Proof. solve_decision. Defined.

Record Deadline := mkDeadline {
  deadline_at : Instant;
  deadline_after : Duration;
}.
#[global] Instance Deadline_eq_dec : EqDecision Deadline.
Proof. solve_decision. Defined.

(** ** Port forwarding *)

Inductive NatPmpRefusal :=
  | NatPmpRefusal_UnsupportedVersion
  | NatPmpRefusal_NotAuthorized
  | NatPmpRefusal_NetworkFailure
  | NatPmpRefusal_OutOfResources
  | NatPmpRefusal_UnsupportedOpcode.
#[global] Instance NatPmpRefusal_eq_dec : EqDecision NatPmpRefusal.
Proof. solve_decision. Defined.

Inductive MappingFailure :=
  | MappingFailure_NoResponse
  | MappingFailure_Refused (reason : NatPmpRefusal)
  | MappingFailure_Malformed.
#[global] Instance MappingFailure_eq_dec : EqDecision MappingFailure.
Proof. solve_decision. Defined.

Inductive PortForwardingEvent :=
  | PortForwardingEvent_Enable
  | PortForwardingEvent_Mapped (tcp udp : Port) (lifetime : Duration)
  | PortForwardingEvent_MappingFailed (reason : MappingFailure).
#[global] Instance PortForwardingEvent_eq_dec : EqDecision PortForwardingEvent.
Proof. solve_decision. Defined.

(** ** The VPN tunnel *)

Inductive ExitIpFailure :=
  | ExitIpFailure_Unreachable
  | ExitIpFailure_Rejected (status : HttpStatus)
  | ExitIpFailure_Malformed.
#[global] Instance ExitIpFailure_eq_dec : EqDecision ExitIpFailure.
Proof. solve_decision. Defined.

Record VpnSwitch := mkVpnSwitch {
  switch_server : VpnServer;
  switch_at : SystemTime;
}.
#[global] Instance VpnSwitch_eq_dec : EqDecision VpnSwitch.
Proof. solve_decision. Defined.

Inductive TunnelEvent :=
  | TunnelEvent_Enable (servers : list VpnServer) (current : option VpnServer)
  | TunnelEvent_ExitIpObserved (ip : IpAddr)
  | TunnelEvent_ExitIpCheckFailed (reason : ExitIpFailure)
  | TunnelEvent_LastSwitchRead (last_switch : option VpnSwitch)
  | TunnelEvent_LastSwitchReadFailed
  | TunnelEvent_SwitchSaved
  | TunnelEvent_SwitchSaveFailed
  | TunnelEvent_Switched
  | TunnelEvent_SwitchFailed.
#[global] Instance TunnelEvent_eq_dec : EqDecision TunnelEvent.
Proof. solve_decision. Defined.

(** ** qBittorrent *)

Inductive Completion :=
  | Completion_Complete
  | Completion_Incomplete.
#[global] Instance Completion_eq_dec : EqDecision Completion.
Proof. solve_decision. Defined.

Inductive ForceStart :=
  | ForceStart_NotForced
  | ForceStart_Forced.
#[global] Instance ForceStart_eq_dec : EqDecision ForceStart.
Proof. solve_decision. Defined.

Inductive TorrentState :=
  | TorrentState_FetchingMetadata
  | TorrentState_Downloading
  | TorrentState_DownloadStalled
  | TorrentState_DownloadQueued
  | TorrentState_Seeding
  | TorrentState_SeedStalled
  | TorrentState_SeedQueued
  | TorrentState_Stopped (completion : Completion)
  | TorrentState_Checking
  | TorrentState_Moving
  | TorrentState_MissingFiles
  | TorrentState_Error
  | TorrentState_Unknown.
#[global] Instance TorrentState_eq_dec : EqDecision TorrentState.
Proof. solve_decision. Defined.

(** A torrent as qBittorrent last reported it. *)
Record Torrent := mkTorrent {
  torrent_name : option string;
  torrent_state : TorrentState;
  torrent_progress : Progress;
  torrent_size : ByteSize;
  torrent_total_size : ByteSize;
  torrent_downloaded : ByteSize;
  torrent_uploaded : ByteSize;
  torrent_ratio : Ratio;
  torrent_seeding_time : Duration;
  torrent_added_at : option SystemTime;
  torrent_completed_at : option SystemTime;
  torrent_content_path : option string;
  torrent_save_path : option string;
  torrent_force_start : ForceStart;
}.
#[global] Instance Torrent_eq_dec : EqDecision Torrent.
Proof. solve_decision. Defined.
Definition Torrent_default : Torrent := {|
  torrent_name := None; torrent_state := TorrentState_Unknown; torrent_progress := 0;
  torrent_size := 0; torrent_total_size := 0; torrent_downloaded := 0; torrent_uploaded := 0;
  torrent_ratio := 0; torrent_seeding_time := 0; torrent_added_at := None;
  torrent_completed_at := None; torrent_content_path := None; torrent_save_path := None;
  torrent_force_start := ForceStart_NotForced;
|}.

(** Changed fields of one torrent; absent fields are unchanged. *)
Record TorrentUpdate := mkTorrentUpdate {
  update_name : option (option string);
  update_state : option TorrentState;
  update_progress : option Progress;
  update_size : option ByteSize;
  update_total_size : option ByteSize;
  update_downloaded : option ByteSize;
  update_uploaded : option ByteSize;
  update_ratio : option Ratio;
  update_seeding_time : option Duration;
  update_added_at : option (option SystemTime);
  update_completed_at : option (option SystemTime);
  update_content_path : option (option string);
  update_save_path : option (option string);
  update_force_start : option ForceStart;
}.
#[global] Instance TorrentUpdate_eq_dec : EqDecision TorrentUpdate.
Proof. solve_decision. Defined.
Definition TorrentUpdate_default : TorrentUpdate :=
  mkTorrentUpdate None None None None None None None None None None None None None None.

Inductive TorrentCommand :=
  | TorrentCommand_Start (hashes : list TorrentHash)
  | TorrentCommand_SelectAllFiles (hash : TorrentHash)
  | TorrentCommand_Remove (hashes : list TorrentHash)
  | TorrentCommand_Stop (hashes : list TorrentHash)
  | TorrentCommand_ForceStart (hashes : list TorrentHash)
  | TorrentCommand_EndForceStart (hashes : list TorrentHash)
  | TorrentCommand_Add (mam : MamTorrentId) (hash : TorrentHash).
#[global] Instance TorrentCommand_eq_dec : EqDecision TorrentCommand.
Proof. solve_decision. Defined.

Inductive SyncScope :=
  | SyncScope_Changes
  | SyncScope_Full.
#[global] Instance SyncScope_eq_dec : EqDecision SyncScope.
Proof. solve_decision. Defined.

Record SyncUpdate := mkSyncUpdate {
  sync_position : SyncPosition;
  sync_scope : SyncScope;
  sync_torrents : list (TorrentHash * TorrentUpdate);
  sync_removed : list TorrentHash;
}.
#[global] Instance SyncUpdate_eq_dec : EqDecision SyncUpdate.
Proof. solve_decision. Defined.

Inductive Queueing :=
  | Queueing_On
  | Queueing_Off.
#[global] Instance Queueing_eq_dec : EqDecision Queueing.
Proof. solve_decision. Defined.

Inductive QueueLimit :=
  | QueueLimit_Unlimited
  | QueueLimit_At (count : TorrentCount).
#[global] Instance QueueLimit_eq_dec : EqDecision QueueLimit.
Proof. solve_decision. Defined.

Inductive IdleTorrents :=
  | IdleTorrents_Counted
  | IdleTorrents_NotCounted.
#[global] Instance IdleTorrents_eq_dec : EqDecision IdleTorrents.
Proof. solve_decision. Defined.

Record QueuePreferences := mkQueuePreferences {
  queue_queueing : Queueing;
  queue_max_downloading : QueueLimit;
  queue_max_active : QueueLimit;
  queue_max_seeding : QueueLimit;
  queue_idle : IdleTorrents;
}.
#[global] Instance QueuePreferences_eq_dec : EqDecision QueuePreferences.
Proof. solve_decision. Defined.

Record QbittorrentPreferences := mkQbittorrentPreferences {
  preferences_listen_port : option Port;
  preferences_interface : option string;
  preferences_queue : option QueuePreferences;
}.
#[global] Instance QbittorrentPreferences_eq_dec : EqDecision QbittorrentPreferences.
Proof. solve_decision. Defined.

Inductive QbittorrentFailure :=
  | QbittorrentFailure_Unreachable
  | QbittorrentFailure_Rejected (status : HttpStatus)
  | QbittorrentFailure_Malformed.
#[global] Instance QbittorrentFailure_eq_dec : EqDecision QbittorrentFailure.
Proof. solve_decision. Defined.

Inductive QbittorrentEvent :=
  | QbittorrentEvent_Enable
  | QbittorrentEvent_Connected (version : ReportedVersion) (preferences : QbittorrentPreferences)
  | QbittorrentEvent_ConnectFailed (reason : QbittorrentFailure)
  | QbittorrentEvent_Synced (update : SyncUpdate)
  | QbittorrentEvent_SyncFailed (reason : QbittorrentFailure)
  | QbittorrentEvent_PreferencesRead (preferences : QbittorrentPreferences)
  | QbittorrentEvent_PreferencesReadFailed (reason : QbittorrentFailure)
  | QbittorrentEvent_ListenPortSet
  | QbittorrentEvent_ListenPortSetFailed (reason : QbittorrentFailure)
  | QbittorrentEvent_QueueSet
  | QbittorrentEvent_QueueSetFailed (reason : QbittorrentFailure)
  | QbittorrentEvent_CommandDone
  | QbittorrentEvent_CommandFailed (reason : QbittorrentFailure).
#[global] Instance QbittorrentEvent_eq_dec : EqDecision QbittorrentEvent.
Proof. solve_decision. Defined.

(** ** The torrent registry *)

Inductive Identity :=
  | Identity_Mam (mam : MamTorrentId)
  | Identity_Client (hash : TorrentHash)
  | Identity_Linked (mam : MamTorrentId) (hash : TorrentHash).
#[global] Instance Identity_eq_dec : EqDecision Identity.
Proof. solve_decision. Defined.

Inductive Origin :=
  | Origin_Bookmark
  | Origin_Redownload
  | Origin_Adopted.
#[global] Instance Origin_eq_dec : EqDecision Origin.
Proof. solve_decision. Defined.

Inductive Desired :=
  | Desired_Queued
  | Desired_Snatched
  | Desired_Active
  | Desired_Held
  | Desired_Removed.
#[global] Instance Desired_eq_dec : EqDecision Desired.
Proof. solve_decision. Defined.

Record Observation := mkObservation {
  observation_torrent : Torrent;
  observation_last_seen : SystemTime;
}.
#[global] Instance Observation_eq_dec : EqDecision Observation.
Proof. solve_decision. Defined.

Inductive ContentDeletion :=
  | ContentDeletion_Allowed
  | ContentDeletion_NotAllowed.
#[global] Instance ContentDeletion_eq_dec : EqDecision ContentDeletion.
Proof. solve_decision. Defined.

Record TorrentRecord := mkTorrentRecord {
  record_id : RecordId;
  record_identity : Identity;
  record_origin : Origin;
  record_desired : Desired;
  record_save_path : option string;
  record_deletion : ContentDeletion;
  record_observation : option Observation;
}.
#[global] Instance TorrentRecord_eq_dec : EqDecision TorrentRecord.
Proof. solve_decision. Defined.

Inductive RegistryEvent :=
  | RegistryEvent_Redownload (id : RecordId)
  | RegistryEvent_Read (records : list TorrentRecord)
  | RegistryEvent_ReadFailed
  | RegistryEvent_Saved
  | RegistryEvent_SaveFailed.
#[global] Instance RegistryEvent_eq_dec : EqDecision RegistryEvent.
Proof. solve_decision. Defined.
