(* ===== verification/MamApi.v ===== *)
(** * What Windlass asks MAM, and what MAM answers

    The requests, replies and failures of [core/mam/api.rs], with the
    operations on the account data they carry. *)

From S2P Require Import Prelude Values Vocabulary.

Inductive Wedge :=
  | Wedge_Spend
  | Wedge_Keep.
#[global] Instance Wedge_eq_dec : EqDecision Wedge.
Proof. solve_decision. Defined.

Inductive ClientListing :=
  | ClientListing_Include
  | ClientListing_Omit.
#[global] Instance ClientListing_eq_dec : EqDecision ClientListing.
Proof. solve_decision. Defined.

Inductive Purchase :=
  | Purchase_Vip.
#[global] Instance Purchase_eq_dec : EqDecision Purchase.
Proof. solve_decision. Defined.

Inductive MamRequest :=
  | MamRequest_LookUpIp
  | MamRequest_RegisterSeedbox
  | MamRequest_LoadUserData (clients : ClientListing)
  | MamRequest_ListBookmarks (start : BookmarkCount)
  | MamRequest_FetchTorrent (id : MamTorrentId) (wedge : Wedge)
  | MamRequest_Buy (purchase : Purchase)
  | MamRequest_WedgeHistory
  | MamRequest_LookUpTorrent (id : MamTorrentId).
#[global] Instance MamRequest_eq_dec : EqDecision MamRequest.
Proof. solve_decision. Defined.

(** Whether the request needs the API cookie. *)
Definition MamRequest_needs_cookie (r : MamRequest) : bool :=
  match r with MamRequest_LookUpIp => false | _ => true end.

Inductive RedKind :=
  | RedKind_NotSeeding
  | RedKind_Other.
#[global] Instance RedKind_eq_dec : EqDecision RedKind.
Proof. solve_decision. Defined.

Inductive UserClass :=
  | UserClass_Mouse
  | UserClass_User
  | UserClass_PowerUser
  | UserClass_Vip
  | UserClass_EliteVip
  | UserClass_Other (name : string).
#[global] Instance UserClass_eq_dec : EqDecision UserClass.
Proof. solve_decision. Defined.

Record IpObservation := mkIpObservation {
  observed_ip : IpAddr;
  observed_asn : Asn;
  observed_provider : option string;
}.
#[global] Instance IpObservation_eq_dec : EqDecision IpObservation.
Proof. solve_decision. Defined.

Inductive Registration :=
  | Registration_Completed
  | Registration_NoChange.
#[global] Instance Registration_eq_dec : EqDecision Registration.
Proof. solve_decision. Defined.

Inductive Connectable :=
  | Connectable_Yes
  | Connectable_No
  | Connectable_Offline
  | Connectable_Unrecognised (value : string).
#[global] Instance Connectable_eq_dec : EqDecision Connectable.
Proof. solve_decision. Defined.

Record RedCategory := mkRedCategory {
  red_name : string;
  red_kind : RedKind;
  red_count : TorrentCount;
}.
#[global] Instance RedCategory_eq_dec : EqDecision RedCategory.
Proof. solve_decision. Defined.

Inductive Partials :=
  | Partials_NotSeen
  | Partials_Seen.
#[global] Instance Partials_eq_dec : EqDecision Partials.
Proof. solve_decision. Defined.

Record SnatchSummary := mkSnatchSummary {
  summary_unsatisfied : UnsatisfiedCount;
  summary_unsatisfied_limit : UnsatisfiedLimit;
  summary_unsatisfied_not_seeding : TorrentCount;
  summary_hit_and_run_not_seeding : TorrentCount;
  summary_partial : Partials;
  summary_duplicates : TorrentCount;
  summary_tracker_errors : TorrentCount;
  summary_connectable : Connectable;
  summary_red : list RedCategory;
}.
#[global] Instance SnatchSummary_eq_dec : EqDecision SnatchSummary.
Proof. solve_decision. Defined.

Record MamNotices := mkMamNotices {
  notices_messages : NoticeCount;
  notices_tickets : NoticeCount;
  notices_waiting_tickets : NoticeCount;
  notices_requests : NoticeCount;
  notices_topics : NoticeCount;
  notices_about_to_drop_client : NoticeCount;
}.
#[global] Instance MamNotices_eq_dec : EqDecision MamNotices.
Proof. solve_decision. Defined.

(** The number of notices of every kind. *)
Definition MamNotices_total (n : MamNotices) : NoticeCount :=
  NoticeCount_plus (NoticeCount_plus (NoticeCount_plus (NoticeCount_plus (NoticeCount_plus
    (notices_messages n) (notices_tickets n)) (notices_waiting_tickets n))
    (notices_requests n)) (notices_topics n)) (notices_about_to_drop_client n).

Inductive ClientRefusal :=
  | ClientRefusal_NotRefused
  | ClientRefusal_Refused.
#[global] Instance ClientRefusal_eq_dec : EqDecision ClientRefusal.
Proof. solve_decision. Defined.

Record ListedClient := mkListedClient {
  client_qbittorrent : option ClientVersion;
  client_connectable : option Connectable;
  client_refusal : ClientRefusal;
}.
#[global] Instance ListedClient_eq_dec : EqDecision ListedClient.
Proof. solve_decision. Defined.

Record UserData := mkUserData {
  data_uploaded : ByteSize;
  data_downloaded : ByteSize;
  data_points : Points;
  data_wedges : WedgeCount;
  data_class : UserClass;
  data_vip_until : option SystemTime;
  data_summary : option SnatchSummary;
  data_notices : option MamNotices;
  data_clients : option (list ListedClient);
}.
#[global] Instance UserData_eq_dec : EqDecision UserData.
Proof. solve_decision. Defined.

Definition UserData_buffer (d : UserData) : ByteSize :=
  ByteSize_less (data_uploaded d) (data_downloaded d).
Definition UserData_ratio (d : UserData) : option Ratio :=
  Ratio_of (data_uploaded d) (data_downloaded d).
(** Whether the account is VIP at this time. *)
Definition UserData_is_vip (d : UserData) (now : SystemTime) : bool :=
  is_some_and (data_vip_until d) (λ until, now <? until).

Inductive VipTorrent :=
  | VipTorrent_No
  | VipTorrent_Indefinitely
  | VipTorrent_Until (time : SystemTime).
#[global] Instance VipTorrent_eq_dec : EqDecision VipTorrent.
Proof. solve_decision. Defined.

(** Whether it is still a VIP torrent at this time. *)
Definition VipTorrent_at (v : VipTorrent) (time : SystemTime) : bool :=
  match v with
  | VipTorrent_No => false
  | VipTorrent_Indefinitely => true
  | VipTorrent_Until end_ => time <? end_
  end.

Inductive Freeleech :=
  | Freeleech_No
  | Freeleech_ForEveryone.
#[global] Instance Freeleech_eq_dec : EqDecision Freeleech.
Proof. solve_decision. Defined.

Inductive Snatched :=
  | Snatched_Never
  | Snatched_Before.
#[global] Instance Snatched_eq_dec : EqDecision Snatched.
Proof. solve_decision. Defined.

Inductive PersonalFreeleech :=
  | PersonalFreeleech_No
  | PersonalFreeleech_ThroughVip
  | PersonalFreeleech_ThroughWedge.
#[global] Instance PersonalFreeleech_eq_dec : EqDecision PersonalFreeleech.
Proof. solve_decision. Defined.

Definition PersonalFreeleech_from_flags (personal_freeleech freeleech_for_owner : bool)
    : PersonalFreeleech :=
  match personal_freeleech, freeleech_for_owner with
  | true, _ => PersonalFreeleech_ThroughWedge
  | false, true => PersonalFreeleech_ThroughVip
  | false, false => PersonalFreeleech_No
  end.

Record Bookmark := mkBookmark {
  bookmark_id : MamTorrentId;
  bookmark_title : string;
  bookmark_vip : VipTorrent;
  bookmark_freeleech : Freeleech;
  bookmark_personal : PersonalFreeleech;
  bookmark_snatched : Snatched;
  bookmark_bookmarked_at : option SystemTime;
}.
#[global] Instance Bookmark_eq_dec : EqDecision Bookmark.
Proof. solve_decision. Defined.

Record BookmarkPage := mkBookmarkPage {
  page_found : BookmarkCount;
  page_bookmarks : list Bookmark;
}.
#[global] Instance BookmarkPage_eq_dec : EqDecision BookmarkPage.
Proof. solve_decision. Defined.

Record FetchedTorrent := mkFetchedTorrent {
  fetched_hash : TorrentHash;
  fetched_size : ByteSize;
}.
#[global] Instance FetchedTorrent_eq_dec : EqDecision FetchedTorrent.
Proof. solve_decision. Defined.

Record WedgeSpent := mkWedgeSpent {
  spent_torrent : MamTorrentId;
  spent_at : SystemTime;
}.
#[global] Instance WedgeSpent_eq_dec : EqDecision WedgeSpent.
Proof. solve_decision. Defined.

Inductive MamReply :=
  | MamReply_Ip (observation : IpObservation)
  | MamReply_Registered (registration : Registration) (ip : IpAddr)
  | MamReply_UserData (data : UserData)
  | MamReply_Bookmarks (page : BookmarkPage)
  | MamReply_Fetched (fetched : FetchedTorrent)
  | MamReply_Purchased (points : Points)
  | MamReply_WedgeHistory (spent : list WedgeSpent)
  | MamReply_Torrent (listing : option Bookmark).
#[global] Instance MamReply_eq_dec : EqDecision MamReply.
Proof. solve_decision. Defined.

Inductive SessionRejection :=
  | SessionRejection_InvalidCookie
  | SessionRejection_IpMismatch
  | SessionRejection_AsnMismatch
  | SessionRejection_NotAllowed
  | SessionRejection_Other.
#[global] Instance SessionRejection_eq_dec : EqDecision SessionRejection.
Proof. solve_decision. Defined.

Inductive MamFailure :=
  | MamFailure_Session (rejection : SessionRejection)
  | MamFailure_TooSoon (retry_after : option Duration)
  | MamFailure_Refused (message : option string)
  | MamFailure_NotKept
  | MamFailure_Unreachable
  | MamFailure_Rejected (status : HttpStatus)
  | MamFailure_Malformed.
#[global] Instance MamFailure_eq_dec : EqDecision MamFailure.
Proof. solve_decision. Defined.

(** Whether MAM may have acted on the request even though it failed. *)
Definition MamFailure_uncertain (f : MamFailure) : bool :=
  match f with
  | MamFailure_Unreachable | MamFailure_Rejected _ | MamFailure_Malformed
  | MamFailure_NotKept => true
  | _ => false
  end.
