(* ===== verification/Messages.v ===== *)
(** * Notices, events and actions

    What the owner is told, every input of the core and every effect it asks
    the shell for ([core/mod.rs] and the message types of
    [core/notifications.rs] and [core/mam]). *)

From S2P Require Import Prelude Values Vocabulary MamApi.

(** ** Facts carried by notices *)

(** [core/mam/ratio_guard.rs] *)
Record RatioUse := mkRatioUse {
  use_before : ByteSize;
  use_after : ByteSize;
  use_at : SystemTime;
}.
#[global] Instance RatioUse_eq_dec : EqDecision RatioUse.
Proof. solve_decision. Defined.

Inductive SavedRatioGuard :=
  | SavedRatioGuard_Unset
  | SavedRatioGuard_Watching (downloaded : ByteSize)
  | SavedRatioGuard_Tripped (used : RatioUse).
#[global] Instance SavedRatioGuard_eq_dec : EqDecision SavedRatioGuard.
Proof. solve_decision. Defined.

(** [core/mam/account.rs] *)
Inductive ClientStanding :=
  | ClientStanding_Unknown
  | ClientStanding_NoneListed
  | ClientStanding_Listed
  | ClientStanding_NotListed
  | ClientStanding_Refused
  | ClientStanding_NotUnderstood.
#[global] Instance ClientStanding_eq_dec : EqDecision ClientStanding.
Proof. solve_decision. Defined.

Inductive Sale :=
  | Sale_Made
  | Sale_NotMade.
#[global] Instance Sale_eq_dec : EqDecision Sale.
Proof. solve_decision. Defined.

(** [core/mam/acquisition.rs] *)
Inductive Hold :=
  | Hold_MamUnavailable
  | Hold_SeedboxUnconfirmed
  | Hold_DownloadsRefused
  | Hold_ClientUnavailable
  | Hold_MamClientList (standing : ClientStanding)
  | Hold_DownloadingLimit (downloading : TorrentCount) (limit : DownloadingLimit)
  | Hold_AccountUnknown
  | Hold_RatioLow
  | Hold_UnsatisfiedLimit (count : UnsatisfiedCount) (limit : UnsatisfiedLimit)
  | Hold_NoWedge
  | Hold_RatioUsed
  | Hold_RatioGuardUnknown
  | Hold_NotBookmarked.
#[global] Instance Hold_eq_dec : EqDecision Hold.
Proof. solve_decision. Defined.

(** [core/mam/connectability.rs] *)
Inductive PortFinding :=
  | PortFinding_Matches (port : Port)
  | PortFinding_Differs (listening : option Port) (forwarded : Port)
  | PortFinding_NoForwardedPort.
#[global] Instance PortFinding_eq_dec : EqDecision PortFinding.
Proof. solve_decision. Defined.

Inductive IpFinding :=
  | IpFinding_Matches (ip : IpAddr)
  | IpFinding_Differs (mam tunnel : IpAddr)
  | IpFinding_Unknown.
#[global] Instance IpFinding_eq_dec : EqDecision IpFinding.
Proof. solve_decision. Defined.

Inductive LeaseRenewal :=
  | LeaseRenewal_Requested
  | LeaseRenewal_NotRequested.
#[global] Instance LeaseRenewal_eq_dec : EqDecision LeaseRenewal.
Proof. solve_decision. Defined.

Inductive SeedboxConfirmation :=
  | SeedboxConfirmation_Confirmed
  | SeedboxConfirmation_Unconfirmed.
#[global] Instance SeedboxConfirmation_eq_dec : EqDecision SeedboxConfirmation.
Proof. solve_decision. Defined.

Record Findings := mkFindings {
  findings_listen_port : PortFinding;
  findings_lease : LeaseRenewal;
  findings_exit_ip : IpFinding;
  findings_seedbox : SeedboxConfirmation;
  findings_interface : option string;
}.
#[global] Instance Findings_eq_dec : EqDecision Findings.
Proof. solve_decision. Defined.

(** [core/notifications.rs] *)
Inductive SettingName :=
  | SettingName_MamRequests
  | SettingName_HistoryLimit
  | SettingName_ApiCookie
  | SettingName_NtfyTopic
  | SettingName_PointsReserve.
#[global] Instance SettingName_eq_dec : EqDecision SettingName.
Proof. solve_decision. Defined.

Inductive SwitchBlock :=
  | SwitchBlock_Until (at_ : SystemTime)
  | SwitchBlock_LastSwitchUnknown
  | SwitchBlock_NoOtherServer.
#[global] Instance SwitchBlock_eq_dec : EqDecision SwitchBlock.
Proof. solve_decision. Defined.

Inductive Urgency :=
  | Urgency_Urgent
  | Urgency_Normal.
#[global] Instance Urgency_eq_dec : EqDecision Urgency.
Proof. solve_decision. Defined.

Inductive ClientWarning :=
  | ClientWarning_Given
  | ClientWarning_NotGiven.
#[global] Instance ClientWarning_eq_dec : EqDecision ClientWarning.
Proof. solve_decision. Defined.

Inductive NotFreeOutcome :=
  | NotFreeOutcome_Stopped
  | NotFreeOutcome_FinishedFirst.
#[global] Instance NotFreeOutcome_eq_dec : EqDecision NotFreeOutcome.
Proof. solve_decision. Defined.

Inductive Reach :=
  | Reach_Push
  | Reach_Dashboard.
#[global] Instance Reach_eq_dec : EqDecision Reach.
Proof. solve_decision. Defined.

Inductive Notice :=
  | Notice_Started (mode : StartupMode)
  | Notice_StartupFailed
  | Notice_VpnProtectionLost (failures : FailureCount)
  | Notice_VpnProtectionRestored (exit_ip : IpAddr) (server : option VpnServer)
  | Notice_FailoverStarted (server : VpnServer)
  | Notice_FailoverSucceeded (server : VpnServer)
  | Notice_FailoverFailed (server : VpnServer)
  | Notice_FailoverBlocked (reason : SwitchBlock)
  | Notice_ForwardedPortLost
  | Notice_ForwardedPortRestored (port : Port)
  | Notice_QbittorrentUnreachable (reason : QbittorrentFailure)
  | Notice_QbittorrentReachable
  | Notice_QbittorrentVersionNotAllowed (version : ReportedVersion)
  | Notice_QbittorrentVersionAllowed (version : ReportedVersion)
  | Notice_TorrentErrors (count : TorrentCount)
  | Notice_TorrentErrorsCleared
  | Notice_FilesMissing (count : TorrentCount)
  | Notice_FilesMissingCleared
  | Notice_TorrentsMissing (count : TorrentCount)
  | Notice_TorrentsMissingCleared
  | Notice_RegistryNotSaved
  | Notice_RegistrySaved
  | Notice_RegistryUnreadable
  | Notice_SettingNotSaved (setting : SettingName)
  | Notice_HistoryUnavailable
  | Notice_HistoryEntriesLost (count : EntryCount)
  | Notice_Test
  | Notice_MamSessionRejected (rejection : SessionRejection)
  | Notice_MamSessionAccepted
  | Notice_SeedboxNotRegistered
  | Notice_SeedboxRegistered (ip : IpAddr)
  | Notice_MamIpUnknown (failures : FailureCount)
  | Notice_MamIpKnown
  | Notice_MamStateUnreadable
  | Notice_RatioLow (ratio : Ratio) (urgency : Urgency)
  | Notice_RatioRestored
  | Notice_RatioUsed (counted : ByteSize)
  | Notice_RatioUseChecked
  | Notice_UnsatisfiedNearLimit (count : UnsatisfiedCount) (limit : UnsatisfiedLimit)
  | Notice_UnsatisfiedBelowLimit
  | Notice_UnsatisfiedNotSeeding (count : TorrentCount)
  | Notice_UnsatisfiedSeeding
  | Notice_MamFlagged (partial : Partials) (tracker_errors flagged : TorrentCount)
  | Notice_MamFlagsCleared
  | Notice_MamMessages (count : NoticeCount) (client_warning : ClientWarning)
  | Notice_DownloadsHeld (hold : Hold)
  | Notice_DownloadsResumed
  | Notice_NoWedgesLeft
  | Notice_PointsBelowReserve (points reserve : Points)
  | Notice_VipEnding (until : SystemTime)
  | Notice_DownloadsRefused
  | Notice_SeedingBehind (count : TorrentCount)
  | Notice_SeedingOnTrack
  | Notice_PurchaseMade (purchase : Purchase) (points : Points)
  | Notice_PurchaseRefused (purchase : Purchase)
  | Notice_PurchaseUncertain (purchase : Purchase)
  | Notice_WedgeNotSpent
  | Notice_DownloadNotFree (outcome : NotFreeOutcome)
  | Notice_WedgedMidDownload
  | Notice_PurchaseSettled (purchase : Purchase) (sale : Sale)
  | Notice_PurchaseNeedsChecking (purchase : Purchase)
  | Notice_MamClientNotListed (standing : ClientStanding)
  | Notice_MamClientListed
  | Notice_NotConnectable (findings : Findings)
  | Notice_ConnectableAgain
  | Notice_MamVisitReminder.

(** A notice as the log keeps it. *)
Record Logged := mkLogged {
  logged_id : NoticeId;
  logged_at : SystemTime;
  logged_notice : Notice;
  logged_reach : Reach;
}.

(** A notice waiting to be pushed. *)
Record Push := mkPush {
  push_entry : option NoticeId;
  push_notice : Notice;
}.

Inductive DeliveryFailure :=
  | DeliveryFailure_Unreachable
  | DeliveryFailure_Rejected (status : HttpStatus).
#[global] Instance DeliveryFailure_eq_dec : EqDecision DeliveryFailure.
Proof. solve_decision. Defined.

Inductive NotificationEvent :=
  | NotificationEvent_SendTest
  | NotificationEvent_Delivered
  | NotificationEvent_DeliveryFailed (reason : DeliveryFailure)
  | NotificationEvent_LogRead (last : option NoticeId)
  | NotificationEvent_LogReadFailed
  | NotificationEvent_Saved
  | NotificationEvent_SaveFailed.
#[global] Instance NotificationEvent_eq_dec : EqDecision NotificationEvent.
Proof. solve_decision. Defined.

Inductive MamEvent :=
  | MamEvent_Enable
  | MamEvent_Answered (result : Result MamReply MamFailure) (rotated : option ApiCookie)
  | MamEvent_StateRead (last_registration last_reminder : option SystemTime)
      (ratio_guard : SavedRatioGuard)
  | MamEvent_StateReadFailed
  | MamEvent_RegistrationAttemptSaved
  | MamEvent_RegistrationAttemptSaveFailed
  | MamEvent_PurchaseChecked (sale : Sale)
  | MamEvent_RatioUseChecked
  | MamEvent_RatioGuardSaved
  | MamEvent_RatioGuardSaveFailed
  | MamEvent_ReminderSaved
  | MamEvent_ReminderSaveFailed.

(** ** Events: the inputs of the core *)

Inductive Event :=
  | Event_Startup (event : StartupEvent)
  | Event_MamPause (event : MamPauseEvent)
  | Event_Settings (event : SettingsEvent)
  | Event_History (event : HistoryEvent)
  | Event_TimerExpired (name : TimerName) (id : TimerId)
  | Event_PortForwarding (event : PortForwardingEvent)
  | Event_Qbittorrent (event : QbittorrentEvent)
  | Event_Registry (event : RegistryEvent)
  | Event_Tunnel (event : TunnelEvent)
  | Event_Notification (event : NotificationEvent)
  | Event_Mam (event : MamEvent).

(** An event with the time it occurred. *)
Record TimedEvent := mkTimedEvent {
  occurred_at : ClockReading;
  timed_event : Event;
}.

(** ** Actions: the effects the core asks for *)

Inductive Action :=
  | Action_OpenStorage (mode : StartupMode)
  | Action_ReadMamRequestMode
  | Action_WriteMamRequestMode (mode : MamRequestMode)
  | Action_DeleteMamRequestMode
  | Action_ReadSettings
  | Action_WriteHistoryLimit (limit : HistoryLimit)
  | Action_WriteApiCookie (cookie : option ApiCookie)
  | Action_OpenHistory
  | Action_TrimHistory (keep : EntryCount)
  | Action_StartTimer (name : TimerName) (id : TimerId) (deadline : Deadline)
  | Action_RequestPortMapping (lifetime : Duration)
  | Action_ConnectQbittorrent
  | Action_SyncQbittorrent (position : SyncPosition)
  | Action_ReadQbittorrentPreferences
  | Action_SetQbittorrentListenPort (port : Port)
  | Action_QbittorrentCommand (command : TorrentCommand)
  | Action_ReadTorrentRegistry
  | Action_SaveTorrents (records : list TorrentRecord)
  | Action_CheckExitIp
  | Action_ReadLastVpnSwitch
  | Action_SaveVpnSwitch (switch : VpnSwitch)
  | Action_SwitchVpnServer (server : VpnServer)
  | Action_WriteNtfyTopic (topic : option NtfyTopic)
  | Action_SendNotification (topic : NtfyTopic) (push : Push)
  | Action_ReadNoticeLog
  | Action_SaveNotice (entry : Logged) (forget_through : option NoticeId)
  | Action_WritePointsReserve (reserve : PointsReserve)
  | Action_SetQbittorrentQueue (queue : QueuePreferences)
  | Action_WriteTorrentLimits (limits : TorrentLimits)
  | Action_WriteRotatedApiCookie (cookie : ApiCookie)
  | Action_ReadMamState
  | Action_SaveRegistrationAttempt (at_ : SystemTime)
  | Action_SaveRatioGuard (guard : SavedRatioGuard)
  | Action_SaveReminder (at_ : SystemTime)
  | Action_MamRequest (request : MamRequest) (cookie : option ApiCookie).
