(* ===== verification/Spacing.v ===== *)
(** * Attempts spaced by what storage holds

    MAM allows one registration, and one change of the VPN address, per hour.
    Both are spaced in the same way: an attempt is saved before it starts, and is
    allowed by the time of the last saved one. This file is that contract: a
    ledger of attempts, its steps, and the proof that attempts that follow it are
    spaced. [Registration] and [Failover] show that the components keep it. *)

From S2P Require Import Prelude.

(** Each time follows the next older one by at least [d]. *)
Fixpoint spaced (d : Duration) (times : list SystemTime) : Prop :=
  match times with
  | t :: (u :: _) as rest => u + d ≤ t ∧ spaced d rest
  | _ => True
  end.

Lemma spaced_cons d t ts :
  spaced d (t :: ts) ↔ (match ts with u :: _ => u + d ≤ t | [] => True end) ∧ spaced d ts.
Proof. destruct ts; simpl; tauto. Qed.

(** What storage holds, what memory believes it holds ([None]: nothing is
    believed), the attempt whose save is in progress, and the attempts started,
    newest first. *)
Record Ledger := mkLedger {
  ledger_disk : option SystemTime;
  ledger_known : option (option SystemTime);
  ledger_pending : option SystemTime;
  ledger_started : list SystemTime;
}.

Section spacing.
Context (d : Duration).

(** The clock is far enough from its end to add the spacing. *)
Definition clock_ok (t : SystemTime) : Prop := t + d ≤ TIME_MAX.
Definition follows (older : option SystemTime) (t : SystemTime) : Prop :=
  match older with Some u => u + d ≤ t | None => True end.

(** What may happen: storage answers a read, memory forgets, an attempt allowed
    by the last known one is saved, its save fails or succeeds, and the saved one
    starts or is given up; a restart may find the save in progress committed. *)
Inductive ledger_step : Ledger → Ledger → Prop :=
  | ledger_read disk known pending started :
      ledger_step (mkLedger disk known pending started) (mkLedger disk (Some disk) pending started)
  | ledger_forget disk known pending started :
      ledger_step (mkLedger disk known pending started) (mkLedger disk None pending started)
  | ledger_attempt disk known pending started t :
      clock_ok t → ((∀ u, known = Some u → clock_ok u) → follows known t) →
      ledger_step (mkLedger disk (Some known) pending started)
        (mkLedger disk (Some known) (Some t) started)
  | ledger_drop disk known pending started :
      ledger_step (mkLedger disk known pending started) (mkLedger disk known None started)
  | ledger_start disk known t started :
      ledger_step (mkLedger disk known (Some t) started)
        (mkLedger (Some t) (Some (Some t)) None (t :: started))
  | ledger_give_up disk known t started :
      ledger_step (mkLedger disk known (Some t) started)
        (mkLedger (Some t) (Some (Some t)) None started)
  | ledger_restart disk known pending started :
      ledger_step (mkLedger disk known pending started) (mkLedger disk None None started)
  | ledger_restart_committed disk known t started :
      ledger_step (mkLedger disk known (Some t) started) (mkLedger (Some t) None None started).

(** Attempts are spaced, storage holds one no older than the last started, and
    the attempt being saved follows it. *)
Record ledger_ok (l : Ledger) : Prop := {
  lo_spaced : spaced d (ledger_started l);
  lo_last : ∀ t rest, ledger_started l = t :: rest →
    ∃ u, ledger_disk l = Some u ∧ t ≤ u ∧ (t = u ∨ t + d ≤ u);
  lo_clock : ∀ u, ledger_disk l = Some u → clock_ok u;
  lo_known : ∀ known, ledger_known l = Some known → known = ledger_disk l;
  lo_pending : ∀ t, ledger_pending l = Some t → clock_ok t ∧ follows (ledger_disk l) t;
}.

Definition ledger_new (disk : option SystemTime) : Ledger :=
  mkLedger disk None None (option_list disk).

Lemma ledger_new_ok disk : (∀ u, disk = Some u → clock_ok u) → ledger_ok (ledger_new disk).
Proof.
  intros Hd. split; simpl; try done.
  - by destruct disk.
  - destruct disk as [u|]; intros t rest [= <- _]. exists u. auto with lia.
Qed.

(** Once storage holds an attempt that follows the last one, so does every
    attempt started before. *)
Lemma last_moves (l : Ledger) t :
  0 ≤ d → ledger_ok l → follows (ledger_disk l) t →
  ∀ s rest, ledger_started l = s :: rest → s + d ≤ t.
Proof.
  intros Hd Hl Hf s rest Hs. destruct (lo_last l Hl s rest Hs) as (u & Hu & Hle & _).
  rewrite Hu in Hf. simpl in Hf. lia.
Qed.

Lemma ledger_step_ok l l' : 0 ≤ d → ledger_ok l → ledger_step l l' → ledger_ok l'.
Proof.
  intros Hd Hl Hstep.
  pose proof (λ t, last_moves l t Hd Hl) as Hmove. destruct Hl as [S L C K P].
  inversion Hstep as [| |disk known pending started t Ht Hf| |disk known t started
    |disk known t started| |disk known t started]; subst; simpl in *; split; simpl; try done.
  - by intros known0 [= <-].
  - intros t' [= <-]. split; [done|]. rewrite <-(K known eq_refl). apply Hf.
    rewrite (K known eq_refl). exact C.
  - apply spaced_cons. split; [|done]. destruct started as [|s rest]; [done|].
    by apply (Hmove t (proj2 (P t eq_refl)) s rest).
  - intros s rest [= <- _]. exists t. auto with lia.
  - intros u [= <-]. by apply P.
  - by intros known0 [= <-].
  - intros s rest Hs. pose proof (Hmove t (proj2 (P t eq_refl)) s rest Hs). exists t.
    split_and!; [done|lia|by right].
  - intros u [= <-]. by apply P.
  - by intros known0 [= <-].
  - intros s rest Hs. pose proof (Hmove t (proj2 (P t eq_refl)) s rest Hs). exists t.
    split_and!; [done|lia|by right].
  - intros u [= <-]. by apply P.
Qed.

Lemma ledger_steps_ok l l' : 0 ≤ d → ledger_ok l → rtc ledger_step l l' → ledger_ok l'.
Proof.
  intros Hd Hl Hsteps. revert Hl. induction Hsteps as [|l l1 l2 Hs _ IH]; intros Hl; [done|].
  apply IH. by apply (ledger_step_ok l).
Qed.

Lemma ledger_spaced disk l :
  0 ≤ d → (∀ u, disk = Some u → clock_ok u) → rtc ledger_step (ledger_new disk) l →
  spaced d (ledger_started l).
Proof.
  intros Hd Hdisk Hsteps. apply (ledger_steps_ok _ l Hd (ledger_new_ok disk Hdisk) Hsteps).
Qed.
End spacing.

(** A world whose every step is none or some of the ledger's. *)
Section ledger_world.
Context {World Input : Type} (d : Duration) (step : World → Input → World)
  (ledger : World → Ledger) (ok : Input → Prop).
Context (simulates : ∀ w i, ok i → rtc (ledger_step d) (ledger w) (ledger (step w i))).

Lemma world_run_ledger w inputs :
  Forall ok inputs → rtc (ledger_step d) (ledger w) (ledger (fold_left step inputs w)).
Proof using simulates.
  intros Hok. revert w. induction Hok as [|i inputs Hi _ IH]; intros w; [done|].
  simpl. etrans; [by apply simulates|apply IH].
Qed.

Lemma world_spaced w disk inputs :
  0 ≤ d → (∀ u, disk = Some u → clock_ok d u) → ledger w = ledger_new disk → Forall ok inputs →
  spaced d (ledger_started (ledger (fold_left step inputs w))).
Proof using simulates.
  intros Hd Hdisk Hw Hok. apply (ledger_spaced d disk _ Hd Hdisk). rewrite <-Hw.
  by apply world_run_ledger.
Qed.
End ledger_world.
