(* ===== verification/Bytes.v ===== *)
(** * Bytes and text

    Byte strings as the shell reads and writes them: slices, big-endian words,
    and the numbers the Rust standard library parses and prints. A byte is an
    [ascii], whose 256 values are the [u8]s; a [str] is the bytes of its
    UTF-8 encoding. *)

From Stdlib Require Export Ascii.
From S2P Require Import Prelude.

Abbreviation bytes := (list ascii) (only parsing).

(** A byte string literal. *)
Definition b (s : string) : bytes := String.list_ascii_of_string s.

#[global] Instance ascii_eq_dec : EqDecision ascii := ascii_dec.

(** ** Bytes as numbers *)

Definition u8 (c : ascii) : Z := Z.of_N (N_of_ascii c).
Definition byte (n : Z) : ascii := ascii_of_N (Z.to_N (n mod 256)).

Lemma u8_range c : 0 ≤ u8 c < 256.
Proof. unfold u8. pose proof (N_ascii_bounded c). lia. Qed.

Lemma byte_u8 c : byte (u8 c) = c.
Proof.
  unfold byte. pose proof (u8_range c). rewrite Z.mod_small by lia. unfold u8.
  rewrite N2Z.id. apply ascii_N_embedding.
Qed.

Lemma u8_byte n : u8 (byte n) = n mod 256.
Proof.
  unfold byte, u8. pose proof (Z.mod_pos_bound n 256 ltac:(lia)).
  rewrite N_ascii_embedding by lia. lia.
Qed.

Lemma u8_inj c d : u8 c = u8 d → c = d.
Proof. intros H. by rewrite <-(byte_u8 c), H, byte_u8. Qed.

(** [from_be_bytes] and [to_be_bytes]. *)
Definition from_be (l : bytes) : Z := fold_left (λ acc c, acc * 256 + u8 c) l 0.
Definition to_be_u32 (n : Z) : bytes :=
  [byte (n / 2 ^ 24); byte (n / 2 ^ 16); byte (n / 2 ^ 8); byte n].
Definition to_be_u16 (n : Z) : bytes := [byte (n / 2 ^ 8); byte n].

Lemma from_to_be_u32 n : is_u32 n → from_be (to_be_u32 n) = n.
Proof.
  unfold in_width, u32_max, from_be, to_be_u32. intros H. simpl. rewrite !u8_byte.
  change (2 ^ 24) with 16777216. change (2 ^ 16) with 65536. change (2 ^ 8) with 256.
  change (2 ^ 32) with 4294967296 in H.
  Z.div_mod_to_equations. lia.
Qed.

Lemma from_to_be_u16 n : is_u16 n → from_be (to_be_u16 n) = n.
Proof.
  unfold in_width, u16_max, from_be, to_be_u16. intros H. simpl. rewrite !u8_byte.
  change (2 ^ 8) with 256. change (2 ^ 16) with 65536 in H. Z.div_mod_to_equations. lia.
Qed.

Lemma from_be_bound l : 0 ≤ from_be l < 2 ^ (8 * Z.of_nat (length l)).
Proof.
  unfold from_be. induction l as [|c l IH] using rev_ind; [simpl; lia|].
  rewrite fold_left_app, length_app. simpl. pose proof (u8_range c).
  replace (8 * Z.of_nat (length l + 1)) with (8 * Z.of_nat (length l) + 8) by lia.
  rewrite Z.pow_add_r by lia. change (2 ^ 8) with 256. lia.
Qed.

(** ** Slices *)

(** [l.iter().position(|x| x == c)]. *)
Fixpoint find_byte (c : ascii) (l : bytes) : option nat :=
  match l with
  | [] => None
  | x :: l => if x ==? c then Some 0%nat else S <$> find_byte c l
  end.

(** [l.get(start..end)] and [l.get(start..)], for positions in a [usize]. *)
Definition get_range {A} (l : list A) (start end_ : Z) : option (list A) :=
  if (start <=? end_) && (end_ <=? Z.of_nat (length l))
  then Some (firstn (Z.to_nat (end_ - start)) (skipn (Z.to_nat start) l)) else None.
Definition get_from {A} (l : list A) (start : Z) : option (list A) :=
  get_range l start (Z.of_nat (length l)).

Lemma find_byte_Some c l n :
  find_byte c l = Some n ↔ ∃ x y, l = x ++ c :: y ∧ length x = n ∧ c ∉ x.
Proof.
  revert n. induction l as [|d l IH]; intros n; simpl.
  { split; [done|]. by intros ([|] & y & ? & _). }
  case_bool_decide as Hd.
  - subst d. split.
    + intros [= <-]. exists [], l. split_and!; [done..|apply not_elem_of_nil].
    + intros ([|z x] & y & Heq & <- & Hc); [done|]. simplify_eq/=. destruct Hc. by left.
  - rewrite fmap_Some. setoid_rewrite IH. split.
    + intros (k & (x & y & -> & <- & Hc) & ->). exists (d :: x), y.
      split_and!; [done..|]. rewrite not_elem_of_cons. auto.
    + intros ([|z x] & y & Heq & <- & Hc); simplify_eq/=.
      exists (length x). split; [|done]. exists x, y. split_and!; [done..|].
      apply not_elem_of_cons in Hc. tauto.
Qed.

Lemma get_range_app {A} (x y z : list A) :
  get_range (x ++ y ++ z) (Z.of_nat (length x)) (Z.of_nat (length x + length y)) = Some y.
Proof.
  unfold get_range. rewrite !length_app. rewrite (proj2 (Z.leb_le _ _)), (proj2 (Z.leb_le _ _)) by lia.
  simpl. f_equal. rewrite Nat2Z.id, drop_app_length.
  replace (Z.to_nat _) with (length y) by lia. apply take_app_length.
Qed.

Lemma get_range_start {A} (y z : list A) : get_range (y ++ z) 0 (Z.of_nat (length y)) = Some y.
Proof. apply (get_range_app [] y z). Qed.

Lemma get_from_app {A} (x y : list A) : get_from (x ++ y) (Z.of_nat (length x)) = Some y.
Proof.
  unfold get_from. rewrite length_app. pose proof (get_range_app x y []) as H.
  by rewrite app_nil_r in H.
Qed.

Lemma get_range_Some {A} (l r : list A) s e :
  0 ≤ s → get_range l s e = Some r →
  ∃ x z, l = x ++ r ++ z ∧ Z.of_nat (length x) = s ∧ Z.of_nat (length x + length r) = e.
Proof.
  unfold get_range. intros Hs. case_match eqn:Hb; [|done]. reflect_bools. intros [= <-].
  set (x := firstn (Z.to_nat s) l). set (k := Z.to_nat (e - s)).
  exists x, (skipn k (skipn (Z.to_nat s) l)). unfold x. rewrite !take_drop.
  rewrite !length_take, length_drop. unfold k. split_and!; [done|lia|lia].
Qed.

(** ** Numbers in text *)

Definition is_digit (c : ascii) : bool := (48 <=? u8 c) && (u8 c <=? 57).
Definition digit (n : Z) : ascii := byte (48 + n).
Definition to_digit (c : ascii) : option Z := then_some (is_digit c) (u8 c - 48).

(** The checked accumulation of [from_str_radix(_, 10)]: [None] at the first byte
    that is no digit or step that overflows. *)
Fixpoint accumulate (step : Z → Z → option Z) (acc : Z) (l : bytes) : option Z :=
  match l with
  | [] => Some acc
  | c :: l => d ← to_digit c; acc ← step acc d; accumulate step acc l
  end.

Definition step_up (max acc d : Z) : option Z :=
  then_some (acc * 10 + d <=? max) (acc * 10 + d).
Definition step_down (min acc d : Z) : option Z :=
  then_some (min <=? acc * 10 - d) (acc * 10 - d).

(** [str::parse] of an unsigned integer: digits, perhaps after a plus sign. *)
Definition parse_unsigned (max : Z) (l : bytes) : option Z :=
  match l with
  | [] => None
  | c :: rest =>
      let digits := if c ==? "+"%char then rest else l in
      if digits ==? [] then None else accumulate (step_up max) 0 digits
  end.


(** [str::parse::<i64>]. *)
Definition parse_i64 (l : bytes) : option Z :=
  match l with
  | [] => None
  | c :: rest =>
      if c ==? "-"%char then
        if rest ==? [] then None else accumulate (step_down i64_min) 0 rest
      else
        let digits := if c ==? "+"%char then rest else l in
        if digits ==? [] then None else accumulate (step_up i64_max) 0 digits
  end.

(** [Display] of a non-negative integer. *)
Fixpoint digits_of (fuel : nat) (n : Z) : bytes :=
  match fuel with
  | O => []
  | S fuel => if n <? 10 then [digit n] else digits_of fuel (n / 10) ++ [digit (n mod 10)]
  end.
Definition print_nat (n : Z) : bytes := digits_of (S (Z.to_nat (Z.log2 n))) n.
Definition print_Z (n : Z) : bytes := if n <? 0 then "-"%char :: print_nat (- n) else print_nat n.

(** ** The numbers round-trip *)

Lemma accumulate_app step l l' acc :
  accumulate step acc (l ++ l') = acc ← accumulate step acc l; accumulate step acc l'.
Proof.
  revert acc. induction l as [|c l IH]; intros acc; simpl; [done|].
  destruct (to_digit c); simpl; [|done]. destruct (step acc z); simpl; [apply IH|done].
Qed.

Lemma u8_digit n : 0 ≤ n < 10 → u8 (digit n) = 48 + n.
Proof. intros. unfold digit. rewrite u8_byte, Z.mod_small; lia. Qed.

Lemma to_digit_digit n : 0 ≤ n < 10 → to_digit (digit n) = Some n.
Proof.
  intros. unfold to_digit, is_digit. rewrite u8_digit by done.
  apply then_some_Some. split; [|lia]. apply andb_true_iff. split; apply Z.leb_le; lia.
Qed.

Lemma to_digit_Some c d : to_digit c = Some d → is_digit c = true ∧ 0 ≤ d < 10.
Proof.
  unfold to_digit. rewrite then_some_Some. intros [H <-]. split; [done|].
  unfold is_digit in H. reflect_bools. lia.
Qed.

Lemma is_digit_digit n : 0 ≤ n < 10 → is_digit (digit n) = true.
Proof. intros. by eapply to_digit_Some, to_digit_digit. Qed.

(** The digits of [n], read by a fold that takes in one digit at a time. *)
Lemma accumulate_digits (step : Z → Z → option Z) (value : Z → Z) fuel n :
  value 0 = 0 →
  (∀ k d, 0 ≤ k → 0 ≤ d < 10 → k * 10 + d ≤ n → step (value k) d = Some (value (k * 10 + d))) →
  0 ≤ n → (Z.to_nat (Z.log2 n) < fuel)%nat →
  accumulate step 0 (digits_of fuel n) = Some (value n).
Proof.
  intros H0. revert n. induction fuel as [|fuel IH]; intros n Hstep Hn Hfuel; [lia|]. simpl.
  case_match; reflect_bools.
  - simpl. rewrite to_digit_digit by lia. simpl. rewrite <-H0 at 1. rewrite Hstep by lia. done.
  - rewrite accumulate_app, IH.
    + simpl. rewrite to_digit_digit by (apply Z.mod_pos_bound; lia). simpl.
      rewrite Hstep; [|apply Z.div_pos; lia|apply Z.mod_pos_bound; lia|Z.div_mod_to_equations; lia].
      simpl. do 2 f_equal. Z.div_mod_to_equations. lia.
    + intros k d ???. apply Hstep; [done..|]. pose proof (Z.div_le_upper_bound n 10 n). lia.
    + apply Z.div_pos; lia.
    + pose proof (Z.log2_nonneg (n / 10)). enough (Z.log2 (n / 10) < Z.log2 n) by lia.
      assert (0 < n / 10) by (apply Z.div_str_pos; lia).
      assert (Z.log2 (2 * (n / 10)) ≤ Z.log2 n).
      { apply Z.log2_le_mono. Z.div_mod_to_equations; lia. }
      rewrite Z.log2_double in *; lia.
Qed.

Lemma digits_of_all fuel n : 0 ≤ n → Forall (λ c, is_digit c = true) (digits_of fuel n).
Proof.
  revert n. induction fuel as [|fuel IH]; intros n Hn; simpl; [constructor|].
  case_match; reflect_bools.
  - repeat constructor. apply is_digit_digit. lia.
  - apply Forall_app. split; [apply IH, Z.div_pos; lia|].
    repeat constructor. apply is_digit_digit, Z.mod_pos_bound. lia.
Qed.

Lemma digit_no_sign c : is_digit c = true → c ≠ "+"%char ∧ c ≠ "-"%char.
Proof. intros H. split; intros ->; by vm_compute in H. Qed.

(** A printed number starts with a digit. *)
Lemma print_nat_cons n :
  0 ≤ n → ∃ c l, print_nat n = c :: l ∧ Forall (λ c, is_digit c = true) (c :: l).
Proof.
  intros Hn. pose proof (digits_of_all (S (Z.to_nat (Z.log2 n))) n Hn) as Hall.
  unfold print_nat in *. destruct (digits_of _ _) as [|c l] eqn:E; [|by exists c, l].
  exfalso. revert E. simpl. case_match; [done|]. by destruct (digits_of _ (n / 10)).
Qed.

Lemma parse_print_unsigned max n :
  0 ≤ n ≤ max → parse_unsigned max (print_nat n) = Some n.
Proof.
  intros Hn. destruct (print_nat_cons n) as (c & l & E & Hall); [lia|].
  pose proof (Forall_inv Hall) as Hc. simpl in Hc. unfold parse_unsigned. rewrite E. cbv zeta.
  apply digit_no_sign in Hc as [Hc _]. rewrite (bool_decide_eq_false_2 _ Hc).
  rewrite bool_decide_eq_false_2 by done. rewrite <-E.
  unfold print_nat. apply (accumulate_digits (step_up max) (λ k, k)); [done| |lia..].
  intros k d ???. apply then_some_Some. split; [apply Z.leb_le; lia|done].
Qed.

Lemma parse_print_i64 n : i64_min ≤ n ≤ i64_max → parse_i64 (print_Z n) = Some n.
Proof.
  intros Hn. unfold print_Z. case_match; reflect_bools.
  - destruct (print_nat_cons (- n)) as (c & l & E & _); [lia|].
    unfold parse_i64. rewrite bool_decide_eq_true_2 by done.
    rewrite bool_decide_eq_false_2 by (by rewrite E). unfold print_nat.
    rewrite (accumulate_digits (step_down i64_min) Z.opp); [f_equal; lia|done| |lia..].
    intros k d ???. apply then_some_Some. split; [apply Z.leb_le; lia|lia].
  - pose proof (parse_print_unsigned i64_max n ltac:(lia)) as H1.
    destruct (print_nat_cons n) as (c & l & E & Hall); [lia|].
    pose proof (Forall_inv Hall) as Hc. simpl in Hc. unfold parse_unsigned, parse_i64 in *.
    rewrite E in *. apply digit_no_sign in Hc as [_ Hc]. by rewrite (bool_decide_eq_false_2 _ Hc).
Qed.

Lemma accumulate_bound (P : Z → Prop) step acc l n :
  (∀ a d a', P a → 0 ≤ d < 10 → step a d = Some a' → P a') →
  P acc → accumulate step acc l = Some n → P n.
Proof.
  intros Hstep. revert acc. induction l as [|c l IH]; intros acc Ha; simpl; [by intros [= <-]|].
  destruct (to_digit c) as [d|] eqn:Ed; simpl; [|done].
  apply to_digit_Some in Ed as [_ Ed].
  destruct (step acc d) as [a|] eqn:Es; simpl; [|done]. eauto.
Qed.

Lemma parse_unsigned_bound max l n : 0 ≤ max → parse_unsigned max l = Some n → 0 ≤ n ≤ max.
Proof.
  intros Hmax. unfold parse_unsigned. destruct l as [|c l]; [done|]. cbv zeta.
  case_match; [done|]. apply (accumulate_bound (in_width max)); unfold in_width; [|lia].
  intros a d a' ? ? [? <-]%then_some_Some. reflect_bools. lia.
Qed.

(** A number that is read is read with more room too. *)
Lemma accumulate_more max max' acc l n :
  max ≤ max' → accumulate (step_up max) acc l = Some n → accumulate (step_up max') acc l = Some n.
Proof.
  intros Hmax. revert acc. induction l as [|c l IH]; intros acc; simpl; [done|].
  destruct (to_digit c) as [d|]; simpl; [|done].
  intros (a & [Ha <-]%then_some_Some & Hl)%bind_Some. apply Z.leb_le in Ha.
  unfold step_up. rewrite (proj2 (Z.leb_le (acc * 10 + d) max')) by lia. by apply IH.
Qed.

Lemma parse_unsigned_more max max' l n :
  max ≤ max' → parse_unsigned max l = Some n → parse_unsigned max' l = Some n.
Proof.
  intros Hmax. unfold parse_unsigned. destruct l as [|c l]; [done|]. cbv zeta.
  case_match; [done|]. by apply accumulate_more.
Qed.
