(* ===== verification/Text.v ===== *)
(** * Validated text

    The text types of the core whose values are checked when they are made
    ([core/qbittorrent.rs], [core/settings.rs], [core/tunnel.rs]): release
    versions, info hashes, the API cookie, the ntfy topic and server names. A
    [str] is the [string] of the bytes of its UTF-8 encoding. *)

From S2P Require Import Prelude Values Bytes.

(** ** The string functions of the standard library *)

Definition t (l : bytes) : string := String.string_of_list_ascii l.

Lemma b_t l : b (t l) = l.
Proof. apply String.list_ascii_of_string_of_list_ascii. Qed.
Lemma t_b s : t (b s) = s.
Proof. apply String.string_of_list_ascii_of_string. Qed.

Definition between (low high : Z) (c : ascii) : bool := (low <=? u8 c) && (u8 c <=? high).
Definition is_ascii_graphic (c : ascii) : bool := between 33 126 c.
Definition is_ascii_alphanumeric (c : ascii) : bool :=
  is_digit c || between 65 90 c || between 97 122 c.
Definition is_ascii_hexdigit (c : ascii) : bool :=
  is_digit c || between 65 70 c || between 97 102 c.
Definition to_ascii_lowercase (c : ascii) : ascii :=
  if between 65 90 c then byte (u8 c + 32) else c.

Fixpoint strip_prefix (w l : bytes) : option bytes :=
  match w, l with
  | [], _ => Some l
  | c :: w, d :: l => if c ==? d then strip_prefix w l else None
  | _ :: _, [] => None
  end.

(** The UTF-8 encodings of the characters with the Unicode property
    [White_Space]: U+0009 to U+000D, U+0020, U+0085, U+00A0, U+1680, U+2000 to
    U+200A, U+2028, U+2029, U+202F, U+205F and U+3000. *)
Definition white_space : list bytes :=
  map (map byte)
    (map (λ n, [n]) [9; 10; 11; 12; 13; 32] ++ [[194; 133]; [194; 160]; [225; 154; 128]] ++
     map (λ n, [226; 128; n])
       [128; 129; 130; 131; 132; 133; 134; 135; 136; 137; 138; 168; 169; 175] ++
     [[226; 129; 159]; [227; 128; 128]]).

(** Drop the encodings [ws] from the front for as long as one is there. *)
Fixpoint trim_front (fuel : nat) (ws : list bytes) (l : bytes) : bytes :=
  match fuel with
  | O => l
  | S fuel =>
      match find_map (λ w, strip_prefix w l) ws with
      | Some rest => trim_front fuel ws rest
      | None => l
      end
  end.

(** [str::trim]. *)
Definition trim (l : bytes) : bytes :=
  let front := trim_front (length l) white_space l in
  reverse (trim_front (length front) (map reverse white_space) (reverse front)).

(** [str::trim_start_matches] of an ASCII character. *)
Fixpoint trim_start_matches (c : ascii) (l : bytes) : bytes :=
  match l with
  | [] => []
  | d :: l' => if d ==? c then trim_start_matches c l' else l
  end.

(** [str::split] at an ASCII character. *)
Fixpoint split (c : ascii) (l : bytes) : list bytes :=
  match l with
  | [] => [[]]
  | d :: l =>
      if d ==? c then [] :: split c l
      else match split c l with [] => [[d]] | part :: parts => (d :: part) :: parts end
  end.

(** [slice::sort_by_key]: ascending, with what has the same key in its order. *)
Fixpoint insert_by_key {A} (key : A → string) (x : A) (l : list A) : list A :=
  match l with
  | [] => [x]
  | y :: l' => if String.leb (key x) (key y) then x :: l else y :: insert_by_key key x l'
  end.
Definition sort_by_key {A} (key : A → string) (l : list A) : list A :=
  foldr (insert_by_key key) [] l.

(** The first position of [w] in [l], [str::find], and [str::contains]. *)
Fixpoint find_text (w l : bytes) : option nat :=
  if is_some (strip_prefix w l) then Some 0%nat
  else match l with [] => None | _ :: l => S <$> find_text w l end.
Definition contains (w l : bytes) : bool := is_some (find_text w l).

(** A [match] on text: the value beside it in the table. *)
Definition named {A} (table : list (string * A)) (text : string) : option A :=
  find_map (λ p, then_some (String.eqb p.1 text) p.2) table.

(** [try_new] of a text that is trimmed and must not be empty. *)
Definition try_new_text (text : string) : option string :=
  let text := trim (b text) in
  if text ==? [] then None else Some (t text).

(** *** UTF-8 *)

(** The ranges the bytes after a first byte must be in. *)
Definition continuation : Z * Z := (128, 191).
Definition following (first : Z) : option (list (Z * Z)) :=
  if first <=? 127 then Some []
  else if (194 <=? first) && (first <=? 223) then Some [continuation]
  else if first =? 224 then Some [(160, 191); continuation]
  else if first =? 237 then Some [(128, 159); continuation]
  else if (225 <=? first) && (first <=? 239) then Some [continuation; continuation]
  else if first =? 240 then Some [(144, 191); continuation; continuation]
  else if (241 <=? first) && (first <=? 243) then Some [continuation; continuation; continuation]
  else if first =? 244 then Some [(128, 143); continuation; continuation]
  else None.

(** The bytes that are in their ranges, whether that is all of them, and the rest. *)
Fixpoint take_ranges (ranges : list (Z * Z)) (l : bytes) : bytes * bool * bytes :=
  match ranges, l with
  | [], _ => ([], true, l)
  | (low, high) :: ranges, c :: rest =>
      if between low high c
      then let '(taken, whole, rest) := take_ranges ranges rest in (c :: taken, whole, rest)
      else ([], false, l)
  | _ :: _, [] => ([], false, l)
  end.

Definition REPLACEMENT : bytes := map byte [239; 191; 189].

(** [String::from_utf8_lossy]: what is no character becomes U+FFFD. *)
Fixpoint lossy (fuel : nat) (l : bytes) : bytes :=
  match fuel, l with
  | S fuel, c :: rest =>
      match following (u8 c) with
      | Some ranges =>
          let '(taken, whole, rest) := take_ranges ranges rest in
          (if whole then c :: taken else REPLACEMENT) ++ lossy fuel rest
      | None => REPLACEMENT ++ lossy fuel rest
      end
  | _, _ => []
  end.
Definition from_utf8_lossy (l : bytes) : bytes := lossy (length l) l.

(** [str::is_char_boundary], for a position in the text or at its end. *)
Definition is_char_boundary (l : bytes) (at_ : nat) : bool :=
  is_none_or (l !! at_) (λ c, negb (between 128 191 c)).

(** [str::get] of a range: [None] past the end or within a character. *)
Definition get_text (l : bytes) (start end_ : nat) : option bytes :=
  if is_char_boundary l start && is_char_boundary l end_
  then get_range l (Z.of_nat start) (Z.of_nat end_) else None.

(** ** Release versions *)

Definition ClientVersion_parse (version : string) : option ClientVersion :=
  let number := parse_unsigned u32_max in
  match split "."%char (trim_start_matches "v"%char (trim (b version))) with
  | [major; minor] =>
      major ← number major; minor ← number minor; Some (mkClientVersion major minor 0)
  | [major; minor; patch] =>
      major ← number major; minor ← number minor; patch ← number patch;
      Some (mkClientVersion major minor patch)
  | _ => None
  end.

(** [Display]. *)
Definition ClientVersion_fmt (v : ClientVersion) : string :=
  t (print_nat (version_major v) ++ "."%char :: print_nat (version_minor v) ++
     "."%char :: print_nat (version_patch v)).

(** [VersionText::try_new]. *)
Definition VersionText_try_new : string → option string := try_new_text.

Definition ReportedVersion_parse (text : string) : option ReportedVersion :=
  match ClientVersion_parse text with
  | Some version => Some (ReportedVersion_Release version)
  | None => ReportedVersion_Unrecognised <$> VersionText_try_new text
  end.

(** ** Info hashes *)

Definition TorrentHash_parse (hash : string) : option TorrentHash :=
  let hash := b hash in
  let len := Z.of_nat (length hash) in
  then_some (((len =? 40) || (len =? 64)) && forallb is_ascii_hexdigit hash)
    (t (map to_ascii_lowercase hash)).

(** ** Secrets and names *)

Inductive InvalidApiCookie :=
  | InvalidApiCookie_Empty
  | InvalidApiCookie_InvalidCharacter.

Definition ApiCookie_parse (value : string) : Result ApiCookie InvalidApiCookie :=
  let value := trim (b value) in
  if value ==? [] then Err InvalidApiCookie_Empty
  else if negb (forallb (λ c, is_ascii_graphic c &&
                 negb ((u8 c =? 59) || (u8 c =? 44) || (u8 c =? 34) || (u8 c =? 92))) value)
  then Err InvalidApiCookie_InvalidCharacter
  else Ok (t value).

Inductive InvalidNtfyTopic :=
  | InvalidNtfyTopic_Empty
  | InvalidNtfyTopic_Invalid.

(** Letters, digits, hyphens and underscores. *)
Definition name_byte (c : ascii) : bool :=
  is_ascii_alphanumeric c || ((u8 c =? 45) || (u8 c =? 95)).

Definition NtfyTopic_parse (value : string) : Result NtfyTopic InvalidNtfyTopic :=
  let value := trim (b value) in
  if value ==? [] then Err InvalidNtfyTopic_Empty
  else if (64 <? Z.of_nat (length value)) || negb (forallb name_byte value)
  then Err InvalidNtfyTopic_Invalid
  else Ok (t value).

(** [VpnServer::try_new]. *)
Definition VpnServer_try_new (name : string) : option VpnServer :=
  let len := Z.of_nat (length (b name)) in
  then_some ((1 <=? len) && (len <=? 64) && forallb name_byte (b name)) name.

(** ** Text without white space *)

(** A fact about every byte, by computation. *)
Ltac each_byte := let c := fresh in intros c; destruct c as [[] [] [] [] [] [] [] []]; vm_compute; try done.

Lemma trim_front_solid fuel ws c l :
  forallb (λ w, match w with d :: _ => negb (is_ascii_graphic d) | [] => false end) ws = true →
  is_ascii_graphic c = true → trim_front fuel ws (c :: l) = c :: l.
Proof.
  intros Hws Hc. destruct fuel as [|fuel]; [done|]. simpl.
  rewrite (proj2 (find_map_None _ _)); [done|].
  intros [|d w] Hw; rewrite forallb_forall in Hws; apply list_elem_of_In, Hws in Hw as Hd; [done|].
  simpl. case_bool_decide; [|done]. subst. by rewrite Hc in Hd.
Qed.

(** Text that starts and ends with visible characters is not trimmed. *)
Lemma trim_graphic l : Forall (λ c, is_ascii_graphic c = true) l → trim l = l.
Proof.
  intros Hall. unfold trim.
  assert (trim_front (length l) white_space l = l) as ->.
  { destruct l as [|c l]; [done|]. apply trim_front_solid; [done|]. by inversion Hall. }
  assert (Forall (λ c, is_ascii_graphic c = true) (reverse l)) as Hrev by by apply Forall_reverse.
  rewrite <-(reverse_involutive l) at 3. f_equal.
  destruct (reverse l) as [|c r]; [by destruct (length l)|].
  apply trim_front_solid; [done|]. by inversion Hrev.
Qed.

(** *** Trimming twice is trimming once *)

Lemma strip_prefix_Some w l r : strip_prefix w l = Some r ↔ l = w ++ r.
Proof.
  revert l. induction w as [|c w IH]; intros l; simpl.
  { split; [intros [= ->]; done|intros ->; done]. }
  destruct l as [|d l]; [done|]. case_bool_decide as Hd.
  - subst d. rewrite IH. split; [intros ->; done|intros [= ->]; done].
  - split; [done|intros [= ]; congruence].
Qed.

Definition no_prefix (ws : list bytes) (l : bytes) : Prop := ∀ w, w ∈ ws → strip_prefix w l = None.

Lemma trim_front_suffix fuel ws l : ∃ p, l = p ++ trim_front fuel ws l.
Proof.
  revert l. induction fuel as [|fuel IH]; intros l; simpl; [by exists []|].
  destruct (find_map _ ws) as [rest|] eqn:E; [|by exists []].
  apply find_map_Some in E as (w & _ & Hw). apply strip_prefix_Some in Hw as ->.
  destruct (IH rest) as (p & Hp). exists (w ++ p). rewrite <-(assoc_L (++)). by f_equal.
Qed.

Lemma trim_front_stuck fuel ws l :
  Forall (λ w, w ≠ []) ws → (length l ≤ fuel)%nat → no_prefix ws (trim_front fuel ws l).
Proof.
  intros Hws. revert l. induction fuel as [|fuel IH]; intros l Hl; simpl.
  - destruct l; [|simpl in Hl; lia]. intros w Hw. rewrite List.Forall_forall in Hws.
    destruct w as [|c w]; [|done]. apply list_elem_of_In in Hw. by destruct (Hws _ Hw).
  - destruct (find_map _ ws) as [rest|] eqn:E.
    + apply find_map_Some in E as (w & Hw & Hs). apply strip_prefix_Some in Hs as ->. apply IH.
      rewrite length_app in Hl. rewrite List.Forall_forall in Hws.
      apply list_elem_of_In in Hw. apply Hws in Hw. destruct w; [done|]. simpl in Hl. lia.
    + intros w Hw. by apply find_map_None with (x := w) in E.
Qed.

Lemma trim_front_none fuel ws l : no_prefix ws l → trim_front fuel ws l = l.
Proof.
  intros Hn. destruct fuel as [|fuel]; [done|]. simpl. by rewrite (proj2 (find_map_None _ _)).
Qed.

Lemma white_space_solid :
  Forall (λ w, w ≠ []) white_space ∧ Forall (λ w, w ≠ []) (map reverse white_space).
Proof. split; repeat constructor; done. Qed.

Lemma trim_trim l : trim (trim l) = trim l.
Proof.
  destruct white_space_solid as [Hw Hr]. unfold trim at 2 3. cbv zeta.
  set (front := trim_front (length l) white_space l).
  set (back := trim_front (length front) (map reverse white_space) (reverse front)).
  assert (no_prefix white_space front) as Hf by (by apply trim_front_stuck).
  assert (no_prefix (map reverse white_space) back) as Hb
    by (apply trim_front_stuck; [done|by rewrite length_reverse]).
  destruct (trim_front_suffix (length front) (map reverse white_space) (reverse front)) as [p Hp].
  fold back in Hp. apply (f_equal reverse) in Hp. rewrite reverse_involutive, reverse_app in Hp.
  unfold trim. cbv zeta. rewrite (trim_front_none _ white_space).
  - rewrite reverse_involutive, trim_front_none by done. done.
  - intros w Hin. specialize (Hf w Hin). destruct (strip_prefix w (reverse back)) as [r|] eqn:E; [|done].
    apply strip_prefix_Some in E. rewrite Hp, E, <-(assoc_L (++)) in Hf.
    by rewrite (proj2 (strip_prefix_Some _ _ _) eq_refl) in Hf.
Qed.

(** Text of a type that is trimmed and must not be empty. *)
Definition text_ok (s : string) : Prop := b s ≠ [] ∧ trim (b s) = b s.

Lemma try_new_text_ok s v : try_new_text s = Some v → text_ok v.
Proof.
  unfold try_new_text, text_ok. cbv zeta. case_bool_decide; [done|]. intros [= <-].
  rewrite b_t. split; [done|apply trim_trim].
Qed.

Lemma try_new_text_id s : text_ok s → try_new_text s = Some s.
Proof.
  intros [Hs Ht]. unfold try_new_text. cbv zeta. rewrite Ht, bool_decide_eq_false_2 by done.
  by rewrite t_b.
Qed.

Lemma digit_graphic : ∀ c, is_digit c = true → is_ascii_graphic c = true.
Proof. each_byte. Qed.
Lemma name_byte_graphic : ∀ c, name_byte c = true → is_ascii_graphic c = true.
Proof. each_byte. Qed.
Lemma lowercase_hexdigit : ∀ c, is_ascii_hexdigit c = true →
  is_ascii_hexdigit (to_ascii_lowercase c) = true ∧
  between 65 90 (to_ascii_lowercase c) = false.
Proof. each_byte. Qed.
Lemma lowercase_id : ∀ c, between 65 90 c = false → to_ascii_lowercase c = c.
Proof. intros c. unfold to_ascii_lowercase. by intros ->. Qed.

Lemma forallb_Forall_true {A} (p : A → bool) l : forallb p l = true ↔ Forall (λ x, p x = true) l.
Proof. by rewrite forallb_forall, List.Forall_forall. Qed.

(** ** Versions round-trip *)

Lemma split_last c x : c ∉ x → split c x = [x].
Proof.
  induction x as [|d x IH]; simpl; [done|]. rewrite not_elem_of_cons. intros [? Hx].
  rewrite bool_decide_eq_false_2 by congruence. by rewrite IH.
Qed.

Lemma split_app c x y : c ∉ x → split c (x ++ c :: y) = x :: split c y.
Proof.
  induction x as [|d x IH]; simpl.
  { intros _. by rewrite bool_decide_eq_true_2. }
  rewrite not_elem_of_cons. intros [? Hx].
  rewrite bool_decide_eq_false_2 by congruence. by rewrite IH.
Qed.

Lemma digits_no_dot l : Forall (λ c, is_digit c = true) l → "."%char ∉ l.
Proof. rewrite List.Forall_forall. intros Hall Hin%list_elem_of_In. by apply Hall in Hin. Qed.

(** The range of a version's parts. *)
Definition ClientVersion_ok (v : ClientVersion) : Prop :=
  is_u32 (version_major v) ∧ is_u32 (version_minor v) ∧ is_u32 (version_patch v).

Lemma b_app x y : b (x ++ y)%string = b x ++ b y.
Proof. induction x as [|c x IH]; [done|]. unfold b in *. simpl. by rewrite IH. Qed.

Lemma print_nat_digits n : 0 ≤ n → Forall (λ c, is_digit c = true) (print_nat n).
Proof. intros. by apply digits_of_all. Qed.

Lemma version_graphic x y z :
  0 ≤ x → 0 ≤ y → 0 ≤ z →
  Forall (λ c, is_ascii_graphic c = true)
    (print_nat x ++ "."%char :: print_nat y ++ "."%char :: print_nat z).
Proof.
  intros.
  assert (∀ n, 0 ≤ n → Forall (λ c, is_ascii_graphic c = true) (print_nat n)) as Hn.
  { intros n Hn. eapply List.Forall_impl; [apply digit_graphic|by apply print_nat_digits]. }
  apply Forall_app; split; [auto|]. constructor; [done|].
  apply Forall_app; split; [auto|]. constructor; [done|auto].
Qed.

Lemma trim_start_digits c n l :
  0 ≤ n → is_digit c = false → trim_start_matches c (print_nat n ++ l) = print_nat n ++ l.
Proof.
  intros Hn Hc. destruct (print_nat_cons n Hn) as (d & r & -> & Hall). simpl.
  rewrite bool_decide_eq_false_2; [done|]. intros ->. inversion Hall. congruence.
Qed.

Lemma parse_fmt_version v prefix :
  ClientVersion_ok v → Forall (λ c, c = "v"%char) (b prefix) →
  ClientVersion_parse (prefix ++ ClientVersion_fmt v) = Some v.
Proof.
  intros (Hma & Hmi & Hpa) Hprefix. unfold in_width in *. destruct v as [ma mi pa]; simpl in *.
  unfold ClientVersion_parse, ClientVersion_fmt. rewrite b_app, b_t. simpl.
  rewrite trim_graphic.
  2: { apply Forall_app; split; [|apply version_graphic; lia].
       eapply List.Forall_impl; [|exact Hprefix]. by intros ? ->. }
  assert (∀ l, trim_start_matches "v"%char (b prefix ++ l) = trim_start_matches "v"%char l) as ->.
  { intros l. induction Hprefix as [|d p -> Hp IH]; simpl; [done|]. apply IH. }
  rewrite trim_start_digits by (done || lia).
  rewrite !split_app, split_last by (apply digits_no_dot, print_nat_digits; lia).
  by rewrite !parse_print_unsigned.
Qed.

Lemma parse_version_ok s v : ClientVersion_parse s = Some v → ClientVersion_ok v.
Proof.
  unfold ClientVersion_parse, ClientVersion_ok.
  assert (∀ l n, parse_unsigned u32_max l = Some n → is_u32 n) as Hb
    by (intros ???; by apply parse_unsigned_bound with l).
  assert (is_u32 0) by (unfold in_width, u32_max; lia).
  intros Hv. repeat (case_match; simplify_option_eq); split_and!; simpl; eauto.
Qed.

(** ** Accepted text is valid, and read back the same *)

(** What each type promises of its values. *)
Definition TorrentHash_ok (h : TorrentHash) : Prop :=
  (length (b h) = 40%nat ∨ length (b h) = 64%nat) ∧
  Forall (λ c, is_ascii_hexdigit c = true ∧ between 65 90 c = false) (b h).
Definition ApiCookie_ok (v : ApiCookie) : Prop :=
  b v ≠ [] ∧
  Forall (λ c, is_ascii_graphic c = true ∧ u8 c ≠ 59 ∧ u8 c ≠ 44 ∧ u8 c ≠ 34 ∧ u8 c ≠ 92) (b v).
Definition name_ok (v : string) : Prop :=
  (1 ≤ length (b v) ≤ 64)%nat ∧ Forall (λ c, name_byte c = true) (b v).

Lemma map_lowercase_ok l :
  Forall (λ c, is_ascii_hexdigit c = true ∧ between 65 90 c = false) l →
  map to_ascii_lowercase l = l ∧ forallb is_ascii_hexdigit l = true.
Proof.
  induction 1 as [|c l [Hh Hc] _ [IH1 IH2]]; simpl; [done|].
  by rewrite lowercase_id, IH1, Hh, IH2.
Qed.

Lemma TorrentHash_parse_ok s h :
  TorrentHash_parse s = Some h → TorrentHash_ok h ∧ TorrentHash_parse h = Some h.
Proof.
  unfold TorrentHash_parse. rewrite then_some_Some. intros [Hs <-].
  apply andb_true_iff in Hs as [Hlen Hhex]. apply forallb_Forall_true in Hhex.
  assert (Forall (λ c, is_ascii_hexdigit c = true ∧ between 65 90 c = false)
            (map to_ascii_lowercase (b s))) as Hall.
  { clear Hlen. induction Hhex; simpl; constructor; auto using lowercase_hexdigit. }
  rewrite !b_t. unfold TorrentHash_ok. rewrite b_t, length_map.
  destruct (map_lowercase_ok _ Hall) as [Hid Hhd].
  split.
  - split; [|done]. apply orb_true_iff in Hlen as [?|?]; reflect_bools; [left|right]; lia.
  - by rewrite Hid, Hhd, Hlen.
Qed.

Lemma nonempty_match {A} (l : bytes) (x y : A) : l ≠ [] → (if l ==? [] then x else y) = y.
Proof. intros. by rewrite bool_decide_eq_false_2. Qed.

Lemma ApiCookie_parse_ok s v :
  ApiCookie_parse s = Ok v → ApiCookie_ok v ∧ ApiCookie_parse v = Ok v.
Proof.
  unfold ApiCookie_parse. cbv zeta. destruct (trim (b s) ==? []) eqn:Hne; [done|].
  destruct (negb _) eqn:Hall; [done|]. intros [= <-]. rewrite b_t.
  apply negb_false_iff in Hall as Hp. apply forallb_Forall_true in Hp.
  assert (Forall (λ c, is_ascii_graphic c = true ∧ u8 c ≠ 59 ∧ u8 c ≠ 44 ∧ u8 c ≠ 34 ∧ u8 c ≠ 92)
            (trim (b s))) as Hok.
  { eapply List.Forall_impl; [|exact Hp]. intros c Hc. simpl in Hc. reflect_bools. auto. }
  unfold ApiCookie_ok. rewrite b_t. reflect_bools. split; [done|].
  rewrite trim_graphic, Hall, nonempty_match; [done..|].
  eapply List.Forall_impl; [|exact Hok]. by intros c [? _].
Qed.

Lemma NtfyTopic_parse_ok s v :
  NtfyTopic_parse s = Ok v → name_ok v ∧ NtfyTopic_parse v = Ok v.
Proof.
  unfold NtfyTopic_parse. cbv zeta. destruct (trim (b s) ==? []) eqn:Hne; [done|].
  destruct (_ || _) eqn:Hall; [done|]. intros [= <-]. rewrite b_t.
  apply orb_false_iff in Hall as Hp. destruct Hp as [Hlen Hp].
  apply negb_false_iff, forallb_Forall_true in Hp.
  apply bool_decide_eq_false in Hne. apply Z.ltb_ge in Hlen.
  unfold name_ok. rewrite b_t. split.
  - split; [|done]. destruct (trim (b s)); [done|]. simpl in *. lia.
  - rewrite trim_graphic, Hall, nonempty_match; [done..|].
    eapply List.Forall_impl; [apply name_byte_graphic|done].
Qed.

Lemma VpnServer_try_new_ok s v : VpnServer_try_new s = Some v → v = s ∧ name_ok v.
Proof.
  unfold VpnServer_try_new. rewrite then_some_Some. intros [H <-]. split; [done|].
  apply andb_true_iff in H as [Hlen Hall]. reflect_bools.
  apply forallb_Forall_true in Hall. split; [lia|done].
Qed.

(** ** Properties *)

(** a release version within the range of its fields, printed the way
    Windlass prints it, with or without the [v] qBittorrent puts before it, is read
    back as the same release; and every version that is read is within that range. *)
Theorem client_version_round_trip v :
  ClientVersion_ok v →
  ReportedVersion_parse (ClientVersion_fmt v) = Some (ReportedVersion_Release v) ∧
  ReportedVersion_parse ("v" ++ ClientVersion_fmt v) = Some (ReportedVersion_Release v) ∧
  ∀ text w, ReportedVersion_parse text = Some (ReportedVersion_Release w) → ClientVersion_ok w.
Proof.
  intros Hv. unfold ReportedVersion_parse. split_and!.
  - pose proof (parse_fmt_version v "" Hv (List.Forall_nil _)) as H.
    change (ClientVersion_parse (ClientVersion_fmt v) = Some v) in H. by rewrite H.
  - rewrite (parse_fmt_version v "v"); [done..|]. repeat constructor.
  - intros text w. destruct (ClientVersion_parse text) eqn:E.
    + intros [= <-]. by eapply parse_version_ok.
    + by destruct (VersionText_try_new text).
Qed.

Lemma client_version_witness :
  ClientVersion_fmt (mkClientVersion 5 2 10) = "5.2.10" ∧
  ReportedVersion_parse (ClientVersion_fmt (mkClientVersion 5 2 10))
    = Some (ReportedVersion_Release (mkClientVersion 5 2 10)).
Proof.
  split; [vm_compute; reflexivity|].
  apply (client_version_round_trip (mkClientVersion 5 2 10)).
  unfold ClientVersion_ok, in_width; simpl; unfold u32_max; lia.
Defined.

(** text that one of the validated types accepts satisfies what the type
    promises of its values: 40 or 64 lower-case hexadecimal digits for an info hash;
    visible characters without the separators of a cookie header for the API
    cookie; 1 to 64 letters, digits, hyphens and underscores for a topic or a
    server; and the accepted value, stored and read again, is accepted as itself. *)
Theorem accepted_text_is_valid (s : string) :
  (∀ h, TorrentHash_parse s = Some h → TorrentHash_ok h ∧ TorrentHash_parse h = Some h) ∧
  (∀ v, ApiCookie_parse s = Ok v → ApiCookie_ok v ∧ ApiCookie_parse v = Ok v) ∧
  (∀ v, NtfyTopic_parse s = Ok v → name_ok v ∧ NtfyTopic_parse v = Ok v) ∧
  (∀ v, VpnServer_try_new s = Some v → name_ok v ∧ VpnServer_try_new v = Some v).
Proof.
  split_and!; [apply TorrentHash_parse_ok|apply ApiCookie_parse_ok|apply NtfyTopic_parse_ok|].
  intros v Hv. by destruct (VpnServer_try_new_ok s v Hv) as [-> Hok].
Qed.

Lemma accepted_text_witness :
  NtfyTopic_parse "  windlass_1 " = Ok "windlass_1" ∧ NtfyTopic_parse "windlass_1" = Ok "windlass_1".
Proof.
  assert (NtfyTopic_parse "  windlass_1 " = Ok "windlass_1") as H by (vm_compute; reflexivity).
  split; [exact H|]. exact (proj2 (proj1 (proj2 (proj2 (accepted_text_is_valid _))) _ H)).
Defined.
