(* ===== verification/Floats.v ===== *)
(** * Floating-point numbers

    An [f64] is a number of Stdlib's specification of IEEE 754, with 53 bits of mantissa.
    Here are the operations the shell uses on what it reads from outside: the
    conversions the standard library makes to and from integers, text and durations. *)

From Stdlib Require Export SpecFloat.
From S2P Require Import Prelude Bytes Text.

Abbreviation f64 := spec_float (only parsing).

Definition f64_mul : f64 → f64 → f64 := SFmul 53 1024.
Definition f64_zero : f64 := S754_zero false.
Definition f64_one : f64 := S754_finite false (2 ^ 52) (-52).
Definition f64_thousand : f64 := S754_finite false (1000 * 2 ^ 43) (-43).
Definition f64_is_finite (x : f64) : bool :=
  match x with S754_zero _ | S754_finite _ _ _ => true | _ => false end.

(** [n as f64], to the nearest. *)
Definition f64_of (n : Z) : f64 := binary_normalize 53 1024 n 0 false.

(** [x.round() as u_]: halves go away from zero, and what does not fit saturates. *)
Definition round_to (max : Z) (x : f64) : Z :=
  match x with
  | S754_zero _ | S754_nan => 0
  | S754_infinity negative => if negative then 0 else max
  | S754_finite true _ _ => 0
  | S754_finite false m e =>
      let n := if 0 <=? e then Z.pos m * 2 ^ e else (2 * Z.pos m + 2 ^ (- e)) / (2 * 2 ^ (- e)) in
      Z.min n max
  end.

(** [x.floor() as u64]. *)
Definition floor_to (max : Z) (x : f64) : Z :=
  match x with
  | S754_zero _ | S754_nan => 0
  | S754_infinity negative => if negative then 0 else max
  | S754_finite true _ _ => 0
  | S754_finite false m e =>
      Z.min (if 0 <=? e then Z.pos m * 2 ^ e else Z.pos m / 2 ^ (- e)) max
  end.

(** [n / d] to the nearest integer, halves to the even one. *)
Definition round_half_even (n d : Z) : Z :=
  let q := n / d in
  match 2 * (n mod d) ?= d with
  | Lt => q
  | Eq => if Z.even q then q else q + 1
  | Gt => q + 1
  end.

(** [Duration::try_from_secs_f64]: rounded to nanoseconds; an error below zero, from
    [2^64] seconds on, and for what is no number. *)
Definition try_from_secs_f64 (x : f64) : option Duration :=
  match x with
  | S754_zero _ => Some 0
  | S754_finite false m e =>
      let n := Z.pos m * 2 ^ Z.max e 0 in
      let d := 2 ^ Z.max (- e) 0 in
      if n / d <=? u64_max then Some (round_half_even (n * NANOS_PER_SEC) d) else None
  | _ => None
  end.

(** ** [str::parse::<f64>] *)

Fixpoint take_digits (l : bytes) : list Z * bytes :=
  match l with
  | [] => ([], [])
  | c :: rest =>
      match to_digit c with
      | Some d => let '(ds, rest) := take_digits rest in (d :: ds, rest)
      | None => ([], l)
      end
  end.

Definition digits_value (l : list Z) : Z := fold_left (λ n d, n * 10 + d) l 0.
(** The exponent is no longer added to once it has reached 2^16. *)
Definition exponent_value (l : list Z) : Z :=
  fold_left (λ n d, if n <? 65536 then n * 10 + d else n) l 0.

Definition parse_sign (l : bytes) : bool * bytes :=
  match l with
  | c :: rest => if c ==? "-"%char then (true, rest) else if c ==? "+"%char then (false, rest) else (false, l)
  | [] => (false, l)
  end.

(** The exponent at the end of a number, which may be left out. *)
Definition parse_exponent (l : bytes) : option Z :=
  match l with
  | [] => Some 0
  | c :: rest =>
      if (c ==? "e"%char) || (c ==? "E"%char) then
        let '(negative, rest) := parse_sign rest in
        match take_digits rest with
        | (d :: ds, []) => let n := exponent_value (d :: ds) in Some (if negative then - n else n)
        | _ => None
        end
      else None
  end.

(** [m * 10^e], to the nearest. *)
Definition decimal (negative : bool) (m e : Z) : f64 :=
  match m with
  | Zpos m =>
      if 0 <=? e
      then binary_normalize 53 1024 (if negative then - (Z.pos m * 10 ^ e) else Z.pos m * 10 ^ e) 0 negative
      else SFdiv 53 1024 (S754_finite negative m 0) (S754_finite false (Z.to_pos (10 ^ (- e))) 0)
  | _ => S754_zero negative
  end.

(** Digits with perhaps a point among them, and perhaps an exponent. *)
Definition parse_number (negative : bool) (l : bytes) : option f64 :=
  let '(whole, rest) := take_digits l in
  let '(fraction, rest) :=
    match rest with
    | c :: rest' => if c ==? "."%char then take_digits rest' else ([], rest)
    | [] => ([], rest)
    end in
  match whole ++ fraction with
  | [] => None
  | digits =>
      e ← parse_exponent rest;
      Some (decimal negative (digits_value digits) (e - Z.of_nat (length fraction)))
  end.

(** Infinities and what is no number, in either case. *)
Definition parse_inf_nan (negative : bool) (l : bytes) : option f64 :=
  let l := map to_ascii_lowercase l in
  if l ==? b "nan" then Some S754_nan
  else if (l ==? b "inf") || (l ==? b "infinity") then Some (S754_infinity negative)
  else None.

Definition parse_f64 (l : bytes) : option f64 :=
  let '(negative, rest) := parse_sign l in
  match parse_number negative rest with
  | Some x => Some x
  | None => parse_inf_nan negative rest
  end.

(** ** Bounds *)

Lemma round_half_even_range n d :
  0 < d → n / d ≤ round_half_even n d ≤ n / d + 1.
Proof. intros. unfold round_half_even. repeat case_match; lia. Qed.

Lemma floor_to_width max x : 0 ≤ max → in_width max (floor_to max x).
Proof.
  intros Hm. unfold in_width. destruct x as [|[]| |[] m e]; simpl; try lia.
  case_match; reflect_bools.
  - assert (0 ≤ Z.pos m * 2 ^ e) by (apply Z.mul_nonneg_nonneg; [lia|apply Z.pow_nonneg; lia]). lia.
  - assert (0 ≤ Z.pos m / 2 ^ (- e)) by (apply Z.div_pos; [lia|apply Z.pow_pos_nonneg; lia]). lia.
Qed.

Lemma try_from_secs_f64_nonneg x d : try_from_secs_f64 x = Some d → 0 ≤ d.
Proof.
  destruct x as [| | |[] m e]; simpl; try done; [by intros [= <-]|].
  case_match; [|done]. intros [= <-].
  assert (0 < 2 ^ Z.max (- e) 0) by (apply Z.pow_pos_nonneg; lia).
  assert (0 < 2 ^ Z.max e 0) by (apply Z.pow_pos_nonneg; lia).
  set (n := Z.pos m * 2 ^ Z.max e 0 * NANOS_PER_SEC).
  pose proof (round_half_even_range n (2 ^ Z.max (- e) 0) ltac:(done)).
  assert (0 ≤ n / 2 ^ Z.max (- e) 0); [|lia].
  apply Z.div_pos; [|done]. unfold n, NANOS_PER_SEC. nia.
Qed.
