(* ===== verification/Json.v ===== *)
(** * JSON

    What serde derives to read a JSON document into the shell's structures: objects by
    the names of their fields, which must be there once unless they are optional, or
    arrays by position. A document is as it is written, its fields in order and
    perhaps more than once; [serde_json]'s own [Value] holds each key of an object
    once, in ascending order. Reading a document from text is [serde_json]'s part. *)

From S2P Require Import Prelude Bytes Text Floats.

Inductive Number :=
  | Number_PosInt (n : Z)
  | Number_NegInt (n : Z)
  | Number_Float (x : f64).

Inductive Value :=
  | Value_Null
  | Value_Bool (x : bool)
  | Value_Number (n : Number)
  | Value_String (s : string)
  | Value_Array (values : list Value)
  | Value_Object (fields : list (string * Value)).

Abbreviation Map := (gmap string Value) (only parsing).

(** What can be read of a document, if it has the shape. *)
Definition Reader (T : Type) : Type := Value → option T.

(** [serde_json]'s [Value]: in an object the last of equal keys counts. *)
Fixpoint to_value (v : Value) : Value :=
  match v with
  | Value_Array values => Value_Array (map to_value values)
  | Value_Object fields =>
      Value_Object (bt_items (bt_collect (map (λ f, (f.1, to_value f.2)) fields)))
  | v => v
  end.

Definition read_value : Reader Value := λ v, Some (to_value v).
Definition read_map : Reader Map := λ v,
  match v with
  | Value_Object fields => Some (bt_collect (map (λ f, (f.1, to_value f.2)) fields))
  | _ => None
  end.

Definition read_bool : Reader bool := λ v, match v with Value_Bool x => Some x | _ => None end.
Definition read_string : Reader string := λ v, match v with Value_String s => Some s | _ => None end.
Definition read_option {T} (read : Reader T) : Reader (option T) := λ v,
  match v with Value_Null => Some None | v => Some <$> read v end.
Definition read_list {T} (read : Reader T) : Reader (list T) := λ v,
  match v with Value_Array values => mapM read values | _ => None end.

(** ** Structures *)

(** The field of this name; twice is an error. *)
Definition given (fields : list (string * Value)) (name : string) : option (option Value) :=
  match filter (λ f, f.1 = name) fields with
  | [] => Some None
  | [f] => Some (Some f.2)
  | _ => None
  end.

(** The fields of a structure in the order of its declaration. *)
Definition struct (names : list string) (v : Value) : option (list (option Value)) :=
  match v with
  | Value_Object fields => mapM (given fields) names
  | Value_Array values => then_some (bool_decide (length values = length names)) (map Some values)
  | _ => None
  end.

Definition required {T} (read : Reader T) (field : option Value) : option T := field ≫= read.
Definition optional_field {T} (read : Reader T) (field : option Value) : option (option T) :=
  match field with Some v => read_option read v | None => Some None end.

(** ** Documents in range *)

(** The integers [serde_json] keeps as such fit 64 bits. *)
Definition number_ok (n : Number) : bool :=
  match n with
  | Number_PosInt n => (0 <=? n) && (n <=? u64_max)
  | Number_NegInt n => (i64_min <=? n) && (n <? 0)
  | Number_Float _ => true
  end.

Fixpoint value_ok (v : Value) : bool :=
  match v with
  | Value_Number n => number_ok n
  | Value_Array values => forallb value_ok values
  | Value_Object fields => forallb (λ f, value_ok f.2) fields
  | _ => true
  end.

(** Induction over the parts of a document. *)
Lemma value_ind (P : Value → Prop) :
  P Value_Null → (∀ x, P (Value_Bool x)) → (∀ n, P (Value_Number n)) → (∀ s, P (Value_String s)) →
  (∀ values, Forall P values → P (Value_Array values)) →
  (∀ fields, Forall (λ f, P f.2) fields → P (Value_Object fields)) →
  ∀ v, P v.
Proof.
  intros HN HB HM HS HA HO. fix IH 1. intros [|x|n|s|values|fields]; [exact HN|apply HB|apply HM|apply HS|..].
  - apply HA. induction values; constructor; auto.
  - apply HO. induction fields as [|[k v] fields IHf]; constructor; simpl; auto.
Qed.

Lemma bt_collect_value_ok (fields : list (string * Value)) k v :
  Forall (λ f, value_ok f.2 = true) fields → bt_collect fields !! k = Some v → value_ok v = true.
Proof.
  rewrite Forall_forall. intros Hf Hv. apply bt_collect_Some, list_elem_of_In in Hv. exact (Hf _ Hv).
Qed.

Lemma to_value_ok v : value_ok v = true → value_ok (to_value v) = true.
Proof.
  induction v as [| | | |values IH|fields IH] using value_ind; simpl; auto; intros Hok.
  - rewrite forallb_forall in *. intros v (w & <- & Hw)%in_map_iff.
    rewrite Forall_forall in IH. apply IH; auto.
  - apply forallb_forall. intros [k v] Hv. apply list_elem_of_In, elem_of_bt_items in Hv.
    eapply bt_collect_value_ok; [|exact Hv]. rewrite forallb_forall in Hok.
    rewrite Forall_forall in *. intros f (g & <- & Hg)%in_map_iff. simpl.
    exact (IH g Hg (Hok g Hg)).
Qed.

(** A document in [serde_json]'s own form keeps it. *)
Lemma to_value_to_value v : to_value (to_value v) = to_value v.
Proof.
  induction v as [| | | |values IH|fields IH] using value_ind; try done; simpl; f_equal.
  - rewrite map_map. apply map_ext_in. by rewrite List.Forall_forall in IH.
  - set (m := bt_collect (map _ fields)).
    assert (map (λ f, (f.1, to_value f.2)) (bt_items m) = bt_items m) as ->;
      [|by rewrite bt_collect_items].
    rewrite <-(map_id (bt_items m)) at 2. apply map_ext_in. intros [k v] Hv. simpl. f_equal.
    apply list_elem_of_In, elem_of_bt_items, bt_collect_Some, list_elem_of_In, in_map_iff in Hv
      as ([k' w] & [= -> <-] & Hw).
    rewrite List.Forall_forall in IH. exact (IH _ Hw).
Qed.

Lemma read_map_ok v m k w :
  value_ok v = true → read_map v = Some m → m !! k = Some w → value_ok w = true.
Proof.
  destruct v as [| | | | |fields]; try discriminate. intros Hok [= <-] Hw.
  pose proof (to_value_ok (Value_Object fields) Hok) as H. simpl in H.
  rewrite forallb_forall in H. apply (H (k, w)). by apply list_elem_of_In, elem_of_bt_items.
Qed.
