(* ===== verification/Address.v ===== *)
(** * Addresses as text

    [str::parse::<IpAddr>] of the Rust standard library, which the tunnel check and
    MAM's answers are read with: a reader of the dotted and the colon form. *)

From S2P Require Import Prelude Values Bytes Text.

(** A reader gives what it read and the rest; where it fails nothing is consumed. *)
Definition Reader (A : Type) : Type := bytes → option (A * bytes).

Definition read_given_char (c : ascii) : Reader unit := λ l,
  match l with d :: l => if d ==? c then Some ((), l) else None | [] => None end.

Definition digit_of (radix : Z) (c : ascii) : option Z :=
  let d :=
    if between 48 57 c then u8 c - 48
    else if between 97 122 c then u8 c - 87
    else if between 65 90 c then u8 c - 55 else radix in
  then_some (d <? radix) d.

(** The digits at the front, most significant first. *)
Fixpoint digits (radix : Z) (l : bytes) : list Z * bytes :=
  match l with
  | c :: rest =>
      match digit_of radix c with
      | Some d => let '(ds, rest) := digits radix rest in (d :: ds, rest)
      | None => ([], l)
      end
  | [] => ([], l)
  end.

(** At most [max_digits] digits of a number up to [max], with or without zeros before. *)
Definition read_number (radix max : Z) (max_digits : nat) (allow_zero_prefix : bool) : Reader Z :=
  λ l,
    let '(ds, rest) := digits radix l in
    let n := fold_left (λ n d, n * radix + d) ds 0 in
    let count := length ds in
    if (1 <=? count)%nat && (count <=? max_digits)%nat && (n <=? max)
       && (allow_zero_prefix || negb ((1 <? count)%nat && (head ds ==? Some 0)))
    then Some (n, rest) else None.

Definition read_separator {A} (c : ascii) (index : nat) (inner : Reader A) : Reader A := λ l,
  if (index =? 0)%nat then inner l else '(_, l) ← read_given_char c l; inner l.

Fixpoint read_octets (n index : nat) (l : bytes) : option (list Z * bytes) :=
  match n with
  | O => Some ([], l)
  | S n =>
      '(octet, l) ← read_separator "." index (read_number 10 255 3 false) l;
      '(octets, l) ← read_octets n (S index) l;
      Some (octet :: octets, l)
  end.
Definition from_base (base : Z) (l : list Z) : Z := fold_left (λ n d, n * base + d) l 0.
Definition read_ipv4_addr : Reader Z := λ l,
  '(octets, l) ← read_octets 4 0 l; Some (from_base 256 octets, l).

(** The groups of the colon form, at most [room] of them, and whether the last two were
    written as a dotted address, which needs room for two. *)
Fixpoint read_groups (room index : nat) (l : bytes) : list Z * bool * bytes :=
  match room with
  | O => ([], false, l)
  | S room =>
      let ipv4 := if (1 <=? room)%nat then read_separator ":" index read_ipv4_addr l else None in
      match ipv4 with
      | Some (bits, l) => ([bits / 2 ^ 16; bits mod 2 ^ 16], true, l)
      | None =>
          match read_separator ":" index (read_number 16 u16_max 4 true) l with
          | Some (group, l) =>
              let '(groups, ipv4, l) := read_groups room (S index) l in (group :: groups, ipv4, l)
          | None => ([], false, l)
          end
      end
  end.

Definition read_ipv6_addr : Reader Z := λ l,
  let '(head, ipv4, l) := read_groups 8 0 l in
  if (length head =? 8)%nat then Some (from_base (2 ^ 16) head, l)
  else if (ipv4 : bool) then None
  else
    '(_, l) ← read_given_char ":" l;
    '(_, l) ← read_given_char ":" l;
    let '(tail, _, l) := read_groups (8 - (length head + 1)) 0 l in
    Some (from_base (2 ^ 16) (head ++ repeat 0 (8 - length head - length tail) ++ tail), l).

(** [IpAddr::from_str]: all of the text is the address. *)
Definition parse_ip (text : bytes) : option IpAddr :=
  match read_ipv4_addr text with
  | Some (bits, []) => Some (IpAddr_V4 bits)
  | Some _ => None
  | None =>
      match read_ipv6_addr text with
      | Some (bits, []) => Some (IpAddr_V6 bits)
      | _ => None
      end
  end.

Example addresses_read :
  map parse_ip (map b ["192.0.2.7"; "192.0.02.7"; "256.0.0.1"; "::1"; "1::"; "2001:db8::ff00:42:8329";
                       "::ffff:10.2.0.1"; "1:2:3:4:5:6:7:8"; "1:2:3:4:5:6:7"; "10.2.0.1 "]%string)
  = [Some (IpAddr_V4 3221225991); None; None; Some (IpAddr_V6 1); Some (IpAddr_V6 (2 ^ 112));
     Some (IpAddr_V6 (8193 * 2 ^ 112 + 3512 * 2 ^ 96 + 65280 * 2 ^ 32 + 66 * 2 ^ 16 + 33577));
     Some (IpAddr_V6 (65535 * 2 ^ 32 + 167903233));
     Some (IpAddr_V6 (from_base (2 ^ 16) [1; 2; 3; 4; 5; 6; 7; 8])); None; None].
Proof. vm_compute. reflexivity. Qed.

(** ** Socket addresses *)

(** [SocketAddr]: the address, the port and, of the colon form, the scope. *)
Record SocketAddr := mkSocketAddr {
  socket_ip : IpAddr;
  socket_port : Z;
  socket_scope : Z;
}.

Definition read_port : Reader Z := λ l,
  '(_, l) ← read_given_char ":" l; read_number 10 u16_max (length l) true l.
Definition read_socket_addr_v4 : Reader SocketAddr := λ l,
  '(bits, l) ← read_ipv4_addr l; '(port, l) ← read_port l; Some (mkSocketAddr (IpAddr_V4 bits) port 0, l).
Definition read_scope_id : Reader Z := λ l,
  '(_, l) ← read_given_char "%" l; read_number 10 u32_max (length l) true l.
Definition read_socket_addr_v6 : Reader SocketAddr := λ l,
  '(_, l) ← read_given_char "[" l;
  '(bits, l) ← read_ipv6_addr l;
  let '(scope, l) := default (0, l) (read_scope_id l) in
  '(_, l) ← read_given_char "]" l;
  '(port, l) ← read_port l;
  Some (mkSocketAddr (IpAddr_V6 bits) port scope, l).

(** All of the text is the address. *)
Definition whole {A} (read : Reader A) (text : bytes) : option A :=
  match read text with Some (x, []) => Some x | _ => None end.
Definition parse_socket_addr (text : bytes) : option SocketAddr :=
  match read_socket_addr_v4 text with
  | Some (addr, rest) => if is_empty rest then Some addr else None
  | None => whole read_socket_addr_v6 text
  end.

(** ** Addresses as they are printed *)

Fixpoint join (c : ascii) (parts : list bytes) : bytes :=
  match parts with
  | [] => []
  | [part] => part
  | part :: parts => part ++ c :: join c parts
  end.

Definition octets (bits : Z) : list Z :=
  [bits / 2 ^ 24; bits / 2 ^ 16 mod 256; bits / 2 ^ 8 mod 256; bits mod 256].
Definition print_ipv4 (bits : Z) : bytes := join "." (map print_nat (octets bits)).

(** [{:x}] of a group. *)
Definition hex_char (d : Z) : ascii := if d <? 10 then digit d else byte (87 + d).
Definition print_hex (g : Z) : bytes :=
  let d3 := g / 4096 in let d2 := g / 256 mod 16 in let d1 := g / 16 mod 16 in let d0 := g mod 16 in
  map hex_char
    (if d3 =? 0 then if d2 =? 0 then if d1 =? 0 then [d0] else [d1; d0] else [d2; d1; d0]
     else [d3; d2; d1; d0]).

Definition segments (bits : Z) : list Z :=
  map (λ i, bits / 2 ^ (16 * i) mod 2 ^ 16) [7; 6; 5; 4; 3; 2; 1; 0].

(** The start and length of the first longest run of zeros, of what is [zero]. *)
Fixpoint longest_run (zero : list bool) (i : nat) (current longest : nat * nat) : nat * nat :=
  match zero with
  | [] => longest
  | true :: zero =>
      let current := (if (current.2 =? 0)%nat then i else current.1, S current.2) in
      longest_run zero (S i) current (if (longest.2 <? current.2)%nat then current else longest)
  | false :: zero => longest_run zero (S i) (0%nat, 0%nat) longest
  end.
Definition zero_run (segments : list Z) : nat * nat :=
  longest_run (map (Z.eqb 0) segments) 0 (0%nat, 0%nat) (0%nat, 0%nat).

(** [Display] of an [Ipv6Addr]: an IPv4-mapped address shows the IPv4 address, and the
    longest run of two zero groups or more is left out. *)
Definition print_ipv6 (bits : Z) : bytes :=
  if bits / 2 ^ 32 =? 65535 then b "::ffff:" ++ print_ipv4 (bits mod 2 ^ 32)
  else
    let groups := segments bits in
    let '(start, len) := zero_run groups in
    if (1 <? len)%nat
    then join ":" (map print_hex (firstn start groups)) ++ b "::"
         ++ join ":" (map print_hex (skipn (start + len) groups))
    else join ":" (map print_hex groups).

Definition print_ip (ip : IpAddr) : bytes :=
  match ip with IpAddr_V4 bits => print_ipv4 bits | IpAddr_V6 bits => print_ipv6 bits end.

Definition IpAddr_ok (ip : IpAddr) : Prop :=
  match ip with IpAddr_V4 bits => 0 ≤ bits < 2 ^ 32 | IpAddr_V6 bits => 0 ≤ bits < 2 ^ 128 end.

Example addresses_printed :
  map (λ s, t (print_ip (default (IpAddr_V4 0) (parse_ip (b s)))))
    ["192.0.2.7"; "0:0::1"; "1::"; "2001:db8:0:0:1:0:0:1"; "::ffff:10.2.0.1"; "1:2:3:4:5:6:7:8";
     "1:0:3:0:5:6:00ab:F"; "::"]%string
  = ["192.0.2.7"; "::1"; "1::"; "2001:db8::1:0:0:1"; "::ffff:10.2.0.1"; "1:2:3:4:5:6:7:8";
     "1:0:3:0:5:6:ab:f"; "::"]%string.
Proof. vm_compute. reflexivity. Qed.

(** ** Printed addresses are read back *)

Lemma digit_of_hex d : 0 ≤ d < 16 → digit_of 16 (hex_char d) = Some d.
Proof.
  intros Hd. assert (d = 0 ∨ d = 1 ∨ d = 2 ∨ d = 3 ∨ d = 4 ∨ d = 5 ∨ d = 6 ∨ d = 7 ∨ d = 8 ∨ d = 9 ∨
    d = 10 ∨ d = 11 ∨ d = 12 ∨ d = 13 ∨ d = 14 ∨ d = 15) as H by lia.
  by repeat destruct H as [->|H]; [..|subst].
Qed.

Lemma digit_of_dec d : 0 ≤ d < 10 → digit_of 10 (digit d) = Some d.
Proof.
  intros Hd. assert (d = 0 ∨ d = 1 ∨ d = 2 ∨ d = 3 ∨ d = 4 ∨ d = 5 ∨ d = 6 ∨ d = 7 ∨ d = 8 ∨ d = 9)
    as H by lia.
  by repeat destruct H as [->|H]; [..|subst].
Qed.

(** No digit of this radix is next. *)
Definition no_digit (radix : Z) (l : bytes) : Prop :=
  match l with [] => True | c :: _ => digit_of radix c = None end.

Lemma digits_app radix (char : Z → ascii) ds rest :
  Forall (λ d, digit_of radix (char d) = Some d) ds → no_digit radix rest →
  digits radix (map char ds ++ rest) = (ds, rest).
Proof.
  intros Hds Hrest. induction Hds as [|d ds Hd Hds IH]; simpl.
  - destruct rest as [|c rest]; [done|]. simpl in *. by rewrite Hrest.
  - by rewrite Hd, IH.
Qed.

Lemma read_group g rest :
  0 ≤ g < 65536 → no_digit 16 rest → read_number 16 u16_max 4 true (print_hex g ++ rest) = Some (g, rest).
Proof.
  intros Hg Hrest. unfold print_hex. cbv zeta.
  assert (Forall (λ d, 0 ≤ d < 16) [g / 4096; g / 256 mod 16; g / 16 mod 16; g mod 16]) as Hall.
  { repeat constructor; Z.div_mod_to_equations; lia. }
  assert (∀ ds, Forall (λ d, 0 ≤ d < 16) ds → (1 ≤ length ds ≤ 4)%nat →
    fold_left (λ n d, n * 16 + d) ds 0 = g →
    read_number 16 u16_max 4 true (map hex_char ds ++ rest) = Some (g, rest)) as Hr.
  { intros ds Hds Hl Hv. unfold read_number. rewrite digits_app.
    - rewrite Hv. rewrite (proj2 (Nat.leb_le _ _)), (proj2 (Nat.leb_le _ _)) by lia.
      rewrite (proj2 (Z.leb_le _ _)) by (unfold u16_max; lia). done.
    - eapply List.Forall_impl; [apply digit_of_hex|done].
    - done. }
  repeat match goal with H : Forall _ (_ :: _) |- _ => apply Forall_cons_1 in H as [? H] end.
  repeat case_match; reflect_bools; apply Hr; try (repeat constructor; lia); simpl; try lia;
    Z.div_mod_to_equations; lia.
Qed.

(** What is no dotted address: the digits at the front are not followed by a dot. *)
Definition not_dot (l : bytes) : Prop := match l with [] => True | c :: _ => c ≠ "."%char end.

Lemma read_number_rest radix max k zero l n rest :
  read_number radix max k zero l = Some (n, rest) → rest = (digits radix l).2.
Proof.
  unfold read_number. destruct (digits radix l) as [ds r].
  match goal with |- context [if ?c then _ else _] => destruct c end; [|done]. by intros [= _ <-].
Qed.

Lemma not_dotted l : not_dot (digits 10 l).2 → read_ipv4_addr l = None.
Proof.
  intros Hd. unfold read_ipv4_addr. cbn [read_octets].
  change (read_separator "." 0 (read_number 10 255 3 false) l) with (read_number 10 255 3 false l).
  destruct (read_number 10 255 3 false l) as [[n rest]|] eqn:E; [|done]. apply read_number_rest in E.
  rewrite <-E in Hd. simpl. destruct rest as [|c rest]; [done|]. simpl in *.
  unfold read_separator, read_given_char. simpl. by rewrite bool_decide_eq_false_2.
Qed.

Lemma digits_not_dot x y :
  Forall (λ c, c ≠ "."%char) x → no_digit 10 y → not_dot y → not_dot (digits 10 (x ++ y)).2.
Proof.
  intros Hx Hy Hd. induction Hx as [|c x Hc Hx IH]; simpl.
  - destruct y as [|d y]; [done|]. simpl in *. by rewrite Hy.
  - destruct (digit_of 10 c); [|done]. by destruct (digits 10 (x ++ y)).
Qed.

Lemma print_hex_no_dot g : 0 ≤ g < 65536 → Forall (λ c, c ≠ "."%char) (print_hex g).
Proof.
  intros Hg. unfold print_hex. cbv zeta.
  assert (∀ d, 0 ≤ d < 16 → hex_char d ≠ "."%char) as Hc.
  { intros d Hd E. pose proof (digit_of_hex d Hd) as H. by rewrite E in H. }
  repeat case_match; repeat constructor; apply Hc; Z.div_mod_to_equations; lia.
Qed.

(** Groups with colons before all of them, or before all but the first. *)
Fixpoint groups_text (index : nat) (gs : list Z) : bytes :=
  match gs with
  | [] => []
  | g :: gs => (if (index =? 0)%nat then [] else [":"%char]) ++ print_hex g ++ groups_text (S index) gs
  end.

Lemma groups_text_S i j gs : groups_text (S i) gs = groups_text (S j) gs.
Proof. revert i j. induction gs as [|g gs IH]; intros i j; [done|]. cbn. do 2 f_equal. apply IH. Qed.

Lemma groups_text_join gs : join ":" (map print_hex gs) = groups_text 0 gs.
Proof.
  assert (∀ g gs, join ":" (map print_hex (g :: gs)) = print_hex g ++ groups_text 1 gs) as H.
  { intros g l. revert g. induction l as [|h l IH]; intros g; [simpl; by rewrite app_nil_r|].
    change (join ":" (map print_hex (g :: h :: l)))
      with (print_hex g ++ ":"%char :: join ":" (map print_hex (h :: l))).
    rewrite IH, (groups_text_S 0 1). done. }
  destruct gs as [|g gs]; [done|]. by rewrite H.
Qed.

(** Where groups end: at the end of the text or before a double colon. *)
Definition stops (rest : bytes) : Prop := rest = [] ∨ ∃ l, rest = ":"%char :: ":"%char :: l.

Lemma groups_then index gs rest :
  stops rest → no_digit 16 (groups_text (S index) gs ++ rest) ∧ no_digit 10 (groups_text (S index) gs ++ rest)
  ∧ not_dot (groups_text (S index) gs ++ rest).
Proof. intros [->|[l ->]]; by destruct gs. Qed.

Lemma read_groups_text room index gs rest :
  Forall (λ g, 0 ≤ g < 65536) gs → (length gs ≤ room)%nat → stops rest →
  read_groups room index (groups_text index gs ++ rest) = (gs, false, rest).
Proof.
  intros Hgs. revert room index. induction Hgs as [|g gs Hg Hgs IH]; intros room index Hlen Hstop.
  - destruct room as [|room]; [done|]. cbn [groups_text app read_groups].
    assert (∀ l, stops l → read_ipv4_addr l = None ∧ read_number 16 u16_max 4 true l = None) as Hnone
      by (intros l [->|[l' ->]]; done).
    assert (read_separator ":" index read_ipv4_addr rest = None ∧
            read_separator ":" index (read_number 16 u16_max 4 true) rest = None) as [H4 H6].
    { unfold read_separator. destruct (index =? 0)%nat; [by apply Hnone|].
      destruct Hstop as [->|[l ->]]; [done|]. done. }
    rewrite H4, H6. by destruct (1 <=? room)%nat.
  - destruct room as [|room]; [simpl in Hlen; lia|]. simpl in Hlen.
    destruct (groups_then index gs rest Hstop) as (H16 & H10 & Hdot).
    set (text := groups_text (S index) gs ++ rest) in *.
    assert (∀ A (inner : Reader A),
      read_separator ":" index inner (groups_text index (g :: gs) ++ rest) = inner (print_hex g ++ text)) as Hsep.
    { intros A inner. unfold read_separator. cbn [groups_text].
      destruct (index =? 0)%nat eqn:E; [simpl; by rewrite <-(assoc_L (++))|].
      cbn [app read_given_char]. rewrite bool_decide_eq_true_2 by done. simpl. by rewrite <-(assoc_L (++)). }
    cbn [read_groups]. rewrite !Hsep.
    rewrite (not_dotted (print_hex g ++ text)) by (apply digits_not_dot; [by apply print_hex_no_dot|done..]).
    rewrite read_group by done. unfold text. rewrite IH by (lia || done).
    by destruct (1 <=? room)%nat.
Qed.

Lemma v6_not_dotted gs rest :
  Forall (λ g, 0 ≤ g < 65536) gs → stops rest → read_ipv4_addr (groups_text 0 gs ++ rest) = None.
Proof.
  intros Hgs Hstop. apply not_dotted. destruct gs as [|g gs].
  - by destruct Hstop as [->|[l ->]].
  - inversion Hgs; subst. destruct (groups_then 0 gs rest Hstop) as (_ & H10 & Hdot).
    cbn [groups_text Nat.eqb app]. rewrite <-(assoc_L (++)). apply digits_not_dot; [by apply print_hex_no_dot|done..].
Qed.

(** *** The dotted form *)

Definition decimal_digits (n : Z) : list Z :=
  if n <? 10 then [n] else if n <? 100 then [n / 10; n mod 10] else [n / 100; n / 10 mod 10; n mod 10].

Lemma print_octet n : 0 ≤ n < 256 → print_nat n = map digit (decimal_digits n).
Proof.
  intros Hn.
  assert (forallb (λ k, print_nat (Z.of_nat k) ==? map digit (decimal_digits (Z.of_nat k))) (seq 0 256) = true)
    as H by (vm_compute; reflexivity).
  rewrite forallb_forall in H. specialize (H (Z.to_nat n)). rewrite Z2Nat.id in H by lia.
  eapply bool_decide_eq_true_1, H. apply in_seq. lia.
Qed.

Lemma decimal_digits_facts n :
  0 ≤ n < 256 →
  fold_left (λ n d, n * 10 + d) (decimal_digits n) 0 = n ∧ (1 <= length (decimal_digits n) <= 3)%nat ∧
  (1 <? length (decimal_digits n))%nat && (list.head (decimal_digits n) ==? Some 0) = false ∧
  Forall (λ d, 0 ≤ d < 10) (decimal_digits n).
Proof.
  intros Hn. unfold decimal_digits. destruct (n <? 10) eqn:H10; [|destruct (n <? 100) eqn:H100];
    reflect_bools; cbn [fold_left length list.head].
  - split_and!; [lia|lia|lia|done|repeat constructor; lia].
  - split; [Z.div_mod_to_equations; lia|]. split; [lia|]. split.
    + apply andb_false_intro2, bool_decide_eq_false_2. intros [=]. Z.div_mod_to_equations. lia.
    + repeat constructor; Z.div_mod_to_equations; lia.
  - split; [Z.div_mod_to_equations; lia|]. split; [lia|]. split.
    + apply andb_false_intro2, bool_decide_eq_false_2. intros [=]. Z.div_mod_to_equations. lia.
    + repeat constructor; Z.div_mod_to_equations; lia.
Qed.

Lemma read_octet n rest :
  0 ≤ n < 256 → no_digit 10 rest → read_number 10 255 3 false (print_nat n ++ rest) = Some (n, rest).
Proof.
  intros Hn Hrest. rewrite print_octet by done. unfold read_number.
  destruct (decimal_digits_facts n Hn) as (Hv & [Hl Hh] & Hz & Hd). rewrite digits_app; [|..|done].
  - cbv zeta. rewrite Hv, Hz. apply Nat.leb_le in Hl, Hh. rewrite Hl, Hh.
    rewrite (proj2 (Z.leb_le _ _)) by lia. done.
  - eapply List.Forall_impl; [apply digit_of_dec|done].
Qed.

Lemma octets_range bits : 0 ≤ bits < 2 ^ 32 → Forall (λ n, 0 ≤ n < 256) (octets bits).
Proof.
  change (2 ^ 32) with 4294967296. intros Hb. unfold octets.
  change (2 ^ 24) with 16777216. change (2 ^ 16) with 65536. change (2 ^ 8) with 256.
  repeat constructor; Z.div_mod_to_equations; lia.
Qed.

Lemma from_octets bits : 0 ≤ bits < 2 ^ 32 → from_base 256 (octets bits) = bits.
Proof.
  change (2 ^ 32) with 4294967296. intros Hb. unfold octets, from_base. simpl.
  change (2 ^ 24) with 16777216. change (2 ^ 16) with 65536. change (2 ^ 8) with 256.
  Z.div_mod_to_equations. lia.
Qed.

Lemma read_dot l : read_given_char "." ("."%char :: l) = Some ((), l).
Proof. done. Qed.

Lemma read_print_ipv4 bits : 0 ≤ bits < 2 ^ 32 → read_ipv4_addr (print_ipv4 bits) = Some (bits, []).
Proof.
  intros Hb. pose proof (octets_range bits Hb) as Hr. rewrite <-(from_octets bits Hb) at 2.
  unfold print_ipv4, read_ipv4_addr, octets in *. cbn [map join].
  repeat match goal with H : Forall _ (_ :: _) |- _ => apply Forall_cons_1 in H as [? H] end.
  cbn [read_octets]. unfold read_separator. cbn [Nat.eqb].
  do 3 (rewrite read_octet by done; cbn [mbind option_bind];
        rewrite read_dot; cbn [mbind option_bind]).
  rewrite <-(app_nil_r (print_nat (bits mod 256))), read_octet by done. done.
Qed.

(** *** The colon form *)

Lemma segments_range bits : Forall (λ g, 0 ≤ g < 65536) (segments bits).
Proof.
  unfold segments. apply List.Forall_forall. intros g (i & <- & _)%in_map_iff.
  change (2 ^ 16) with 65536. apply Z.mod_pos_bound. lia.
Qed.

Lemma from_segments bits : 0 ≤ bits < 2 ^ 128 → from_base (2 ^ 16) (segments bits) = bits.
Proof.
  intros Hb. unfold from_base, segments. cbn [map fold_left]. change (2 ^ 16) with 65536.
  assert (∀ i j, 0 ≤ i → j = i + 1 → bits / 2 ^ (16 * i) =
    bits / 2 ^ (16 * j) * 65536 + bits / 2 ^ (16 * i) mod 65536) as Hs.
  { intros i j Hi ->. replace (16 * (i + 1)) with (16 * i + 16) by lia.
    rewrite Z.pow_add_r, <-Z.div_div by lia. change (2 ^ 16) with 65536.
    pose proof (Z.div_mod (bits / 2 ^ (16 * i)) 65536). lia. }
  assert (bits / 2 ^ (16 * 8) = 0) as H8 by (apply Z.div_small; exact Hb).
  assert (bits / 2 ^ (16 * 0) = bits) as H0 by (change (16 * 0) with 0; apply Z.div_1_r).
  pose proof (Hs 0 1). pose proof (Hs 1 2). pose proof (Hs 2 3). pose proof (Hs 3 4).
  pose proof (Hs 4 5). pose proof (Hs 5 6). pose proof (Hs 6 7). pose proof (Hs 7 8). lia.
Qed.

(** All runs over eight groups. *)
Lemma longest_run_zeros (zero : list bool) :
  length zero = 8%nat →
  let '(start, len) := longest_run zero 0 (0%nat, 0%nat) (0%nat, 0%nat) in
  (start + len <= 8)%nat ∧ firstn len (skipn start zero) = repeat true len.
Proof.
  intros H. destruct zero as [|z0 [|z1 [|z2 [|z3 [|z4 [|z5 [|z6 [|z7 [|]]]]]]]]]; try discriminate H.
  destruct z0, z1, z2, z3, z4, z5, z6, z7; vm_compute; split; (reflexivity || lia).
Qed.

Lemma zero_run_zeros gs :
  length gs = 8%nat →
  let '(start, len) := zero_run gs in
  (start + len <= 8)%nat ∧ firstn len (skipn start gs) = repeat 0 len.
Proof.
  intros H. pose proof (longest_run_zeros (map (Z.eqb 0) gs)) as Hz. unfold zero_run.
  destruct (longest_run _ _ _ _) as [start len]. rewrite length_map in Hz. destruct (Hz H) as [Hle Hr].
  split; [done|]. rewrite skipn_map, firstn_map in Hr. clear -Hr.
  revert Hr. generalize (skipn start gs). intros l. revert len.
  induction l as [|g l IH]; intros [|len] Hr; simpl in *; try done. injection Hr as Hg Hr.
  destruct g; try discriminate Hg. f_equal. by apply IH.
Qed.

Lemma parse_v6 text bits :
  read_ipv4_addr text = None → read_ipv6_addr text = Some (bits, []) → parse_ip text = Some (IpAddr_V6 bits).
Proof. intros H4 H6. unfold parse_ip. by rewrite H4, H6. Qed.

Lemma read_colon l : read_given_char ":" (":"%char :: l) = Some ((), l).
Proof. done. Qed.

(** The groups before and after a double colon. *)
Lemma read_compressed front back :
  Forall (λ g, 0 ≤ g < 65536) front → Forall (λ g, 0 ≤ g < 65536) back →
  (length front + length back < 8)%nat →
  read_ipv6_addr (groups_text 0 front ++ ":"%char :: ":"%char :: groups_text 0 back)
    = Some (from_base (2 ^ 16) (front ++ repeat 0 (8 - length front - length back) ++ back), []).
Proof.
  intros Hf Hb Hl. unfold read_ipv6_addr.
  rewrite read_groups_text; [|done|lia|right; eauto]. rewrite (proj2 (Nat.eqb_neq _ _)) by lia.
  rewrite read_colon. cbn [mbind option_bind]. rewrite read_colon. cbn [mbind option_bind].
  rewrite <-(app_nil_r (groups_text 0 back)), read_groups_text; [|done|lia|by left]. done.
Qed.

Lemma parse_mapped bits :
  0 ≤ bits < 2 ^ 32 → parse_ip (b "::ffff:" ++ print_ipv4 bits) = Some (IpAddr_V6 (65535 * 2 ^ 32 + bits)).
Proof.
  intros Hb. apply parse_v6; [done|].
  change (b "::ffff:" ++ print_ipv4 bits)
    with (":"%char :: ":"%char :: (b "ffff:" ++ print_ipv4 bits)).
  assert (read_groups 7 0 (b "ffff:" ++ print_ipv4 bits) = ([65535; bits / 2 ^ 16; bits mod 2 ^ 16], true, []))
    as Hg.
  { change (read_groups 7 0 (b "ffff:" ++ print_ipv4 bits))
      with (let '(groups, ipv4, l) := read_groups 6 1 (":"%char :: print_ipv4 bits) in (65535 :: groups, ipv4, l)).
    cbn [read_groups Nat.leb].
    assert (read_separator ":" 1 read_ipv4_addr (":"%char :: print_ipv4 bits) = Some (bits, [])) as ->
      by (unfold read_separator; cbn [Nat.eqb]; rewrite read_colon; by apply read_print_ipv4).
    done. }
  set (text := b "ffff:" ++ print_ipv4 bits) in *. unfold read_ipv6_addr.
  change (read_groups 8 0 (":"%char :: ":"%char :: text)) with (([] : list Z), false, ":"%char :: ":"%char :: text).
  cbn [length Nat.eqb]. rewrite read_colon. cbn [mbind option_bind]. rewrite read_colon.
  cbn [mbind option_bind]. change (8 - (0 + 1))%nat with 7%nat. rewrite Hg.
  unfold from_base. cbn [length app repeat Nat.sub fold_left]. do 2 f_equal.
  change (2 ^ 32) with 4294967296. change (2 ^ 16) with 65536. Z.div_mod_to_equations. lia.
Qed.

(** an address is read back from the text it is printed as, whatever the address: the
    dotted form, an IPv4-mapped address, and the colon form with its longest run of zero
    groups left out. *)
Theorem address_round_trip ip : IpAddr_ok ip → parse_ip (print_ip ip) = Some ip.
Proof.
  destruct ip as [bits|bits]; simpl; intros Hb.
  { unfold parse_ip. by rewrite read_print_ipv4. }
  unfold print_ipv6. destruct (bits / 2 ^ 32 =? 65535) eqn:Hm; reflect_bools.
  { rewrite parse_mapped by (apply Z.mod_pos_bound; lia). do 2 f_equal.
    pose proof (Z.div_mod bits (2 ^ 32)). lia. }
  pose proof (segments_range bits) as Hr. pose proof (zero_run_zeros (segments bits) eq_refl) as Hz.
  rewrite <-(from_segments bits Hb) at 2. set (gs := segments bits) in *.
  assert (length gs = 8%nat) as Hlen by done. clearbody gs.
  destruct (zero_run gs) as [start len]. destruct Hz as [Hle Hz].
  destruct (1 <? len)%nat eqn:Hl; [apply Nat.ltb_lt in Hl|].
  - rewrite !groups_text_join.
    assert (Forall (λ g, 0 ≤ g < 65536) (firstn start gs)) as Hf by (by apply Forall_take).
    assert (Forall (λ g, 0 ≤ g < 65536) (skipn (start + len) gs)) as Hs by (by apply Forall_drop).
    assert (length (firstn start gs) = start) as Hfl by (rewrite length_firstn; lia).
    assert (length (skipn (start + len) gs) = 8 - start - len)%nat as Hsl by (rewrite length_skipn; lia).
    apply parse_v6; [by apply v6_not_dotted; [|right; eauto]|].
    change (b "::" ++ groups_text 0 (skipn (start + len) gs))
      with (":"%char :: ":"%char :: groups_text 0 (skipn (start + len) gs)).
    rewrite read_compressed by (done || lia). do 3 f_equal. rewrite Hfl, Hsl.
    replace (8 - start - (8 - start - len))%nat with len by lia. rewrite <-Hz, <-drop_drop.
    by rewrite !take_drop.
  - rewrite groups_text_join. pose proof (v6_not_dotted gs [] Hr (or_introl eq_refl)) as H4.
    rewrite app_nil_r in H4. apply parse_v6; [done|]. unfold read_ipv6_addr.
    rewrite <-(app_nil_r (groups_text 0 gs)), read_groups_text; [|done|lia|by left].
    by rewrite Hlen.
Qed.

Lemma address_round_trip_witness :
  parse_ip (print_ip (IpAddr_V6 (2 ^ 112 + 5))) = Some (IpAddr_V6 (2 ^ 112 + 5)) ∧
  t (print_ip (IpAddr_V6 (2 ^ 112 + 5))) = "1::5"%string.
Proof. split; [apply address_round_trip; simpl; lia|vm_compute; reflexivity]. Defined.
