(* ===== verification/MamReplies.v ===== *)
(** * MAM's answers

    The bodies of MAM's answers as the core's types ([shell/mam_reply.rs], and the
    constructors of [core/mam/api.rs] it uses). Everything Windlass relies on is
    required: where something is missing or outside its type, nothing is read at all.
    [None] is [Malformed]. Reading JSON from text and a date in MAM's format are
    parameters. *)

From S2P Require Import Prelude Values Vocabulary MamApi.
From S2P Require Import Bytes Text Address Floats Json.

(** ** Constructors of the core's types *)

Definition NetworkName_try_new : string → option string := try_new_text.
Definition BookTitle_try_new : string → option string := try_new_text.
Definition CategoryName_try_new : string → option string := try_new_text.
Definition ClassName_try_new : string → option string := try_new_text.
Definition MamMessage_try_new : string → option string := try_new_text.

Definition Points_from_balance (balance : f64) : option Points :=
  then_some (f64_is_finite balance && SFleb f64_zero balance) (floor_to u64_max balance).

Definition UserClass_parse (name : string) : option UserClass :=
  let name := t (trim (b name)) in
  match named [("Mouse", UserClass_Mouse); ("User", UserClass_User);
               ("Power User", UserClass_PowerUser); ("VIP", UserClass_Vip);
               ("Elite VIP", UserClass_EliteVip)]%string name with
  | Some class => Some class
  | None => UserClass_Other <$> ClassName_try_new name
  end.

Definition Connectable_parse (value : string) : Connectable :=
  let trimmed := trim (b value) in
  default (Connectable_Unrecognised (t trimmed))
    (named [("yes", Connectable_Yes); ("true", Connectable_Yes); ("connectable", Connectable_Yes);
            ("no", Connectable_No); ("false", Connectable_No);
            ("not connectable", Connectable_No); ("unconnectable", Connectable_No);
            ("offline", Connectable_Offline)]%string
       (t (map to_ascii_lowercase trimmed))).

(** ** Numbers, flags and times *)

(** A whole number MAM sends as a JSON number or as text. *)
Definition Whole : Reader Z := λ v,
  match v with
  | Value_Number (Number_PosInt n) => Some n
  | Value_String s => parse_unsigned u64_max (trim (b s))
  | _ => None
  end.

(** [Whole::count]. *)
Definition count (n : Z) : option Z := then_some (n <=? u32_max) n.

(** A number with a possible fraction. *)
Definition Decimal : Reader f64 := λ v,
  match v with
  | Value_Number (Number_PosInt n) | Value_Number (Number_NegInt n) => Some (f64_of n)
  | Value_Number (Number_Float x) => Some x
  | Value_String s => parse_f64 (trim (b s))
  | _ => None
  end.

(** A yes or no. *)
Definition Flag : Reader bool := λ v,
  match v with
  | Value_Bool flag => Some flag
  | Value_Number (Number_PosInt 0) => Some false
  | Value_Number (Number_PosInt 1) => Some true
  | Value_String s =>
      if trim (b s) ==? b "0" then Some false else if trim (b s) ==? b "1" then Some true else None
  | _ => None
  end.

Definition IpAddr_read : Reader IpAddr := λ v, s ← read_string v; parse_ip (b s).

(** A required entry of a JSON object. *)
Definition entry {T} (read : Reader T) (object : Map) (name : string) : option T :=
  object !! name ≫= read.

(** A Unix time in whole seconds. *)
Definition unix (seconds : Z) : option SystemTime := checked_add 0 (from_secs seconds).

(** [Option::map] with a fallible function, then [transpose]. *)
Definition traverse {A B} (f : A → option B) (o : option A) : option (option B) :=
  match o with Some x => Some <$> f x | None => Some None end.

(** ** Refused sessions *)

(** [trim_ascii_start]: space, tab, line feed, form feed and carriage return. *)
Fixpoint trim_ascii_start (l : bytes) : bytes :=
  match l with
  | c :: rest =>
      if existsb (Z.eqb (u8 c)) [9; 10; 12; 13; 32] then trim_ascii_start rest else l
  | [] => []
  end.

Definition signed_out (body : bytes) : bool :=
  is_some (strip_prefix (b "Error, you are not signed in") (trim_ascii_start body)).

Definition rejection (message : bytes) : SessionRejection :=
  let message := map to_ascii_lowercase message in
  if contains (b "asn mismatch") message then SessionRejection_AsnMismatch
  else if contains (b "ip mismatch") message then SessionRejection_IpMismatch
  else if contains (b "session type") message then SessionRejection_NotAllowed
  else if contains (b "cookie") message then SessionRejection_InvalidCookie
  else SessionRejection_Other.

(** ** The client list *)

(** Whether text says a client is not allowed. *)
Definition refusal (text : string) : bool :=
  let text := map to_ascii_lowercase (b text) in
  existsb (λ word, contains (b word) text)
    ["not allowed"; "disallowed"; "unauthori"; "banned"; "blocked"]%string.

Fixpoint take_while (p : ascii → bool) (l : bytes) : bytes :=
  match l with c :: l => if p c then c :: take_while p l else [] | [] => [] end.
Fixpoint skip_while (p : ascii → bool) (l : bytes) : bytes :=
  match l with c :: rest => if p c then skip_while p rest else l | [] => [] end.

(** The version after [qbittorrent], without the separators between them. *)
Definition named_version (rest : bytes) : option ClientVersion :=
  let separator := λ c, existsb (Z.eqb (u8 c)) [32; 47; 118; 45; 58] in
  let version := take_while (λ c, is_digit c || (c ==? "."%char)) (skip_while separator rest) in
  ClientVersion_parse (t (reverse (skip_while (λ c, c ==? "."%char) (reverse version)))).

(** The version in the prefix of a peer ID, three digits of four characters. *)
Definition peer_version (text : bytes) (at_ : nat) : option ClientVersion :=
  digits ← get_text text (at_ + 3) (at_ + 7);
  match digits with
  | major :: minor :: patch :: _ =>
      major ← to_digit major; minor ← to_digit minor; patch ← to_digit patch;
      ClientVersion_parse (t (print_nat major ++ "."%char :: print_nat minor ++
                              "."%char :: print_nat patch))
  | _ => None
  end.

Definition qbittorrent_version (text : string) : option ClientVersion :=
  let lower := map to_ascii_lowercase (b text) in
  match find_text (b "qbittorrent") lower with
  | Some at_ => rest ← get_text lower (at_ + 11) (length lower); named_version rest
  | None => at_ ← find_text (b "-qB") (b text); peer_version (b text) at_
  end.

(** The fields of an entry of the client list; what is no object is one field without
    a name. *)
Definition client_fields (entry : Value) : list (string * Value) :=
  match entry with Value_Object fields => fields | other => [(""%string, other)] end.

Definition field_connectable (v : Value) : option Connectable :=
  match v with
  | Value_String text => Some (Connectable_parse text)
  | Value_Bool true => Some Connectable_Yes
  | Value_Bool false => Some Connectable_No
  | Value_Number (Number_PosInt 0) => Some Connectable_No
  | Value_Number _ => Some Connectable_Yes
  | _ => None
  end.

Definition field_refuses (field : string * Value) : bool :=
  let key := t (map to_ascii_lowercase (b field.1)) in
  match field.2 with
  | Value_String text => refusal text
  | Value_Bool flag =>
      (flag && refusal key)
      || (negb flag && existsb (String.eqb key) ["allowed"; "approved"; "authorized"]%string)
  | _ => false
  end.

Definition listed_client (entry : Value) : ListedClient :=
  let fields := client_fields entry in
  mkListedClient
    (find_map (λ field, read_string field.2 ≫= qbittorrent_version) fields)
    (match List.find (λ field, contains (b "connect") (map to_ascii_lowercase (b field.1))) fields with
     | Some field => field_connectable field.2
     | None => None
     end)
    (if existsb field_refuses fields then ClientRefusal_Refused else ClientRefusal_NotRefused).

(** [clients]: a list, or an object of entries. *)
Definition clients (value : Value) : option (list ListedClient) :=
  match value with
  | Value_Array entries => Some (map listed_client entries)
  | Value_Object entries => Some (map (λ f, listed_client f.2) entries)
  | _ => None
  end.

(** ** The structures of MAM's answers *)

Record IpAnswer := mkIpAnswer {
  answer_ip : IpAddr;
  answer_asn : Z;
  answer_network : option string;
}.
Definition IpAnswer_read : Reader IpAnswer := λ v,
  match struct ["ip"; "ASN"; "AS"]%string v with
  | Some [ip; asn; network] =>
      ip ← required IpAddr_read ip;
      asn ← required Whole asn;
      network ← optional_field read_string network;
      Some (mkIpAnswer ip asn network)
  | _ => None
  end.

Record SeedboxAnswer := mkSeedboxAnswer {
  seedbox_msg : option string;
  seedbox_ip : option IpAddr;
}.
Definition SeedboxAnswer_read : Reader SeedboxAnswer := λ v,
  match struct ["msg"; "ip"]%string v with
  | Some [msg; ip] =>
      msg ← optional_field read_string msg;
      ip ← optional_field IpAddr_read ip;
      Some (mkSeedboxAnswer msg ip)
  | _ => None
  end.

Record NoticesAnswer := mkNoticesAnswer {
  answer_pms : Z;
  answer_tickets : Z;
  answer_waiting_tickets : Z;
  answer_requests : Z;
  answer_topics : Z;
  answer_about_to_drop_client : Z;
}.
Definition NoticesAnswer_read : Reader NoticesAnswer := λ v,
  match struct ["pms"; "tickets"; "waiting_tickets"; "requests"; "topics"; "aboutToDropClient"]%string v with
  | Some [pms; tickets; waiting_tickets; requests; topics; about_to_drop_client] =>
      pms ← required Whole pms;
      tickets ← required Whole tickets;
      waiting_tickets ← required Whole waiting_tickets;
      requests ← required Whole requests;
      topics ← required Whole topics;
      about_to_drop_client ← required Whole about_to_drop_client;
      Some (mkNoticesAnswer pms tickets waiting_tickets requests topics about_to_drop_client)
  | _ => None
  end.

Record AccountAnswer := mkAccountAnswer {
  account_uploaded_bytes : Z;
  account_downloaded_bytes : Z;
  account_seedbonus : f64;
  account_wedges : Z;
  account_classname : string;
  account_vip_until : option string;
  account_snatch_summary : option Map;
  account_notifs : option NoticesAnswer;
  account_client_stats : option Value;
}.
Definition AccountAnswer_read : Reader AccountAnswer := λ v,
  match struct ["uploaded_bytes"; "downloaded_bytes"; "seedbonus"; "wedges"; "classname";
                "vip_until"; "snatch_summary"; "notifs"; "clientStats"]%string v with
  | Some [uploaded; downloaded; seedbonus; wedges; classname; vip_until; summary; notifs; client_stats] =>
      uploaded ← required Whole uploaded;
      downloaded ← required Whole downloaded;
      seedbonus ← required Decimal seedbonus;
      wedges ← required Whole wedges;
      classname ← required read_string classname;
      vip_until ← optional_field read_string vip_until;
      summary ← optional_field read_map summary;
      notifs ← optional_field NoticesAnswer_read notifs;
      client_stats ← optional_field read_value client_stats;
      Some (mkAccountAnswer uploaded downloaded seedbonus wedges classname vip_until summary
              notifs client_stats)
  | _ => None
  end.

(** [Counted]: its count. *)
Definition Counted : Reader Z := λ v,
  match struct ["count"]%string v with Some [count] => required Whole count | _ => None end.
Definition Counted_torrents (counted : Z) : option TorrentCount := count counted.

Record Limited := mkLimited {
  limited_count : Z;
  limited_limit : Z;
}.
Definition Limited_read : Reader Limited := λ v,
  match struct ["count"; "limit"]%string v with
  | Some [count; limit] =>
      count ← required Whole count; limit ← required Whole limit; Some (mkLimited count limit)
  | _ => None
  end.

Record RedEntry := mkRedEntry {
  red_entry_name : string;
  red_entry_count : Z;
  red_entry_red : bool;
}.
Definition RedEntry_read : Reader RedEntry := λ v,
  match struct ["name"; "count"; "red"]%string v with
  | Some [name; count; red] =>
      name ← required read_string name; count ← required Whole count; red ← required Flag red;
      Some (mkRedEntry name count red)
  | _ => None
  end.

Record SearchResult := mkSearchResult {
  result_id : Z;
  result_title : string;
  result_vip : bool;
  result_free : bool;
  result_fl_vip : bool;
  result_personal_freeleech : bool;
  result_my_snatched : bool;
  result_vip_expire : Z;
  result_bookmarked : option Z;
}.
Definition SearchResult_read : Reader SearchResult := λ v,
  match struct ["id"; "title"; "vip"; "free"; "fl_vip"; "personal_freeleech"; "my_snatched";
                "vip_expire"; "bookmarked"]%string v with
  | Some [id; title; vip; free; fl_vip; personal; snatched; vip_expire; bookmarked] =>
      id ← required Whole id;
      title ← required read_string title;
      vip ← required Flag vip;
      free ← required Flag free;
      fl_vip ← required Flag fl_vip;
      personal ← required Flag personal;
      snatched ← required Flag snatched;
      vip_expire ← required Whole vip_expire;
      bookmarked ← optional_field Whole bookmarked;
      Some (mkSearchResult id title vip free fl_vip personal snatched vip_expire bookmarked)
  | _ => None
  end.

Record SearchAnswer := mkSearchAnswer {
  search_found : Z;
  search_data : option (list SearchResult);
}.
Definition SearchAnswer_read : Reader SearchAnswer := λ v,
  match struct ["found"; "data"]%string v with
  | Some [found; data] =>
      found ← required Whole found;
      data ← optional_field (read_list SearchResult_read) data;
      Some (mkSearchAnswer found data)
  | _ => None
  end.

Record StoreAnswer := mkStoreAnswer {
  store_success : bool;
  store_seedbonus : option f64;
  store_error : option string;
}.
Definition StoreAnswer_read : Reader StoreAnswer := λ v,
  match struct ["success"; "seedbonus"; "error"]%string v with
  | Some [success; seedbonus; error] =>
      success ← required read_bool success;
      seedbonus ← optional_field Decimal seedbonus;
      error ← optional_field read_string error;
      Some (mkStoreAnswer success seedbonus error)
  | _ => None
  end.

Record BonusEntry := mkBonusEntry {
  bonus_kind : string;
  bonus_tid : option Z;
  bonus_timestamp : f64;
}.
Definition BonusEntry_read : Reader BonusEntry := λ v,
  match struct ["type"; "tid"; "timestamp"]%string v with
  | Some [kind; tid; timestamp] =>
      kind ← required read_string kind;
      tid ← optional_field Whole tid;
      timestamp ← required Decimal timestamp;
      Some (mkBonusEntry kind tid timestamp)
  | _ => None
  end.

(** ** The answers *)

(** [red_categories]: what is marked red and holds torrents. *)
Definition red_category (key : string) (value : Value) : option (option RedCategory) :=
  match value with
  | Value_Object fields =>
      if is_empty (filter (λ f, f.1 = "red"%string) fields) then Some None else
        category ← RedEntry_read value;
        number ← count (red_entry_count category);
        if negb (red_entry_red category) || TorrentCount_is_zero number then Some None else
          name ← CategoryName_try_new (red_entry_name category);
          Some (Some (mkRedCategory name
            (if existsb (String.eqb key) ["inactUnsat"; "inactHnr"]%string
             then RedKind_NotSeeding else RedKind_Other) number))
  | _ => Some None
  end.
Definition red_categories (summary : Map) : option (list RedCategory) :=
  (λ found, omap id found) <$> mapM (λ p, red_category p.1 p.2) (bt_items summary).

Definition snatch_summary (summary : Map) : option SnatchSummary :=
  unsatisfied ← entry Limited_read summary "unsat";
  not_seeding ← entry Counted summary "inactUnsat";
  hit_and_run ← entry Counted summary "inactHnr";
  duplicates ← entry Counted summary "duplicates";
  tracker_errors ← entry Counted summary "ite";
  partial ← entry Flag summary "partial";
  connectable ← entry read_string summary "connectable";
  unsatisfied_count ← count (limited_count unsatisfied);
  unsatisfied_limit ← count (limited_limit unsatisfied);
  not_seeding ← Counted_torrents not_seeding;
  hit_and_run ← Counted_torrents hit_and_run;
  duplicates ← Counted_torrents duplicates;
  tracker_errors ← Counted_torrents tracker_errors;
  red ← red_categories summary;
  Some {| summary_unsatisfied := unsatisfied_count;
          summary_unsatisfied_limit := unsatisfied_limit;
          summary_unsatisfied_not_seeding := not_seeding;
          summary_hit_and_run_not_seeding := hit_and_run;
          summary_partial := if partial : bool then Partials_Seen else Partials_NotSeen;
          summary_duplicates := duplicates;
          summary_tracker_errors := tracker_errors;
          summary_connectable := Connectable_parse connectable;
          summary_red := red |}.

Definition notices (notices : NoticesAnswer) : option MamNotices :=
  messages ← count (answer_pms notices);
  tickets ← count (answer_tickets notices);
  waiting_tickets ← count (answer_waiting_tickets notices);
  requests ← count (answer_requests notices);
  topics ← count (answer_topics notices);
  about_to_drop_client ← count (answer_about_to_drop_client notices);
  Some (mkMamNotices messages tickets waiting_tickets requests topics about_to_drop_client).

Definition bookmark (result : SearchResult) : option Bookmark :=
  vip ← (if result_vip result
         then if result_vip_expire result =? 0 then Some VipTorrent_Indefinitely
              else VipTorrent_Until <$> unix (result_vip_expire result)
         else Some VipTorrent_No);
  id ← MamTorrentId_new (result_id result);
  title ← BookTitle_try_new (result_title result);
  bookmarked_at ← traverse unix (opt_filter (λ seconds, negb (seconds =? 0)) (result_bookmarked result));
  Some {| bookmark_id := id;
          bookmark_title := title;
          bookmark_vip := vip;
          bookmark_freeleech := if result_free result then Freeleech_ForEveryone else Freeleech_No;
          bookmark_personal :=
            PersonalFreeleech_from_flags (result_personal_freeleech result) (result_fl_vip result);
          bookmark_snatched := if result_my_snatched result then Snatched_Before else Snatched_Never;
          bookmark_bookmarked_at := bookmarked_at |}.

Definition wedge_spent (entry : BonusEntry) : option WedgeSpent :=
  since ← try_from_secs_f64 (bonus_timestamp entry);
  torrent ← bonus_tid entry ≫= MamTorrentId_new;
  at_ ← checked_add 0 since;
  Some (mkWedgeSpent torrent at_).

Section answers.
(** [serde_json::from_slice], and a date in MAM's format as the UTC time it is. *)
Context (parse_json : bytes → option Value) (parse_date : bytes → option SystemTime).

Definition json {T} (read : Reader T) (body : bytes) : option T := parse_json body ≫= read.

Definition utc (value : string) : option SystemTime := parse_date (trim (b value)).

Definition ip_observation (body : bytes) : option IpObservation :=
  answer ← json IpAnswer_read body;
  asn ← count (answer_asn answer);
  Some (mkIpObservation (answer_ip answer) asn (answer_network answer ≫= NetworkName_try_new)).

Definition registration (status : HttpStatus) (body : bytes) : Result MamReply MamFailure :=
  let answer := json SeedboxAnswer_read body in
  let message := b (default ""%string (answer ≫= seedbox_msg)) in
  if status =? 403 then Err (MamFailure_Session (rejection message))
  else if negb ((200 <=? status) && (status <=? 299)) then Err (MamFailure_Rejected status)
  else
    match named [("completed", Registration_Completed); ("no change", Registration_NoChange)]%string
            (t (map to_ascii_lowercase message)) with
    | None => Err MamFailure_Malformed
    | Some registration =>
        match answer ≫= seedbox_ip with
        | Some ip => Ok (MamReply_Registered registration ip)
        | None => Err MamFailure_Malformed
        end
    end.

Definition user_data (body : bytes) : option UserData :=
  answer ← json AccountAnswer_read body;
  points ← Points_from_balance (account_seedbonus answer);
  wedges ← count (account_wedges answer);
  class ← UserClass_parse (account_classname answer);
  vip_until ← traverse utc (account_vip_until answer);
  summary ← traverse snatch_summary (account_snatch_summary answer);
  notices ← traverse notices (account_notifs answer);
  clients ← traverse clients (account_client_stats answer);
  Some {| data_uploaded := account_uploaded_bytes answer;
          data_downloaded := account_downloaded_bytes answer;
          data_points := points;
          data_wedges := wedges;
          data_class := class;
          data_vip_until := vip_until;
          data_summary := summary;
          data_notices := notices;
          data_clients := clients |}.

Definition bookmark_page (body : bytes) : option BookmarkPage :=
  answer ← json SearchAnswer_read body;
  found ← count (search_found answer);
  results ← (match search_data answer with
             | Some results => Some results
             | None => if search_found answer =? 0 then Some [] else None
             end);
  bookmarks ← mapM bookmark results;
  Some (mkBookmarkPage found bookmarks).

Definition purchase (body : bytes) : Result MamReply MamFailure :=
  match json StoreAnswer_read body with
  | None => Err MamFailure_Malformed
  | Some answer =>
      if negb (store_success answer)
      then Err (MamFailure_Refused (store_error answer ≫= MamMessage_try_new))
      else
        match store_seedbonus answer ≫= Points_from_balance with
        | Some points => Ok (MamReply_Purchased points)
        | None => Err MamFailure_Malformed
        end
  end.

(** The personal freeleech wedges of the bonus history. *)
Definition wedge_history (body : bytes) : option (list WedgeSpent) :=
  entries ← json (read_list BonusEntry_read) body;
  mapM wedge_spent (filter (λ entry, bonus_kind entry = "wedgePF"%string) entries).
End answers.
