(* ===== verification/TorrentFile.v ===== *)
(** * Torrent files

    The bencode reader of [shell/torrent_file.rs]: one value and the input after
    it, with every dictionary entry's encoded value kept, and from the [info]
    dictionary the torrent's hash and size. SHA-1 is a parameter. *)

From S2P Require Import Prelude Values Bytes Text.

Definition MAX_DEPTH : Z := 32.

(** ** Values *)

Inductive Value :=
  | Integer (n : Z)
  | Bytes (s : bytes)
  | List (items : list Value)
  | Dictionary (entries : list (bytes * Value * bytes)).

(** What a call comes to: [OutOfFuel] is a run that has not ended. *)
Inductive Run (A : Type) :=
  | Finished (result : option A)
  | OutOfFuel.
Arguments Finished {A} result.
Arguments OutOfFuel {A}.

(** The [?] operator on an option of the code, and sequencing of calls. *)
Definition try_ {A B} (o : option A) (k : A → Run B) : Run B :=
  match o with Some x => k x | None => Finished None end.
Definition call {A B} (r : Run A) (k : A → Run B) : Run B :=
  match r with Finished o => try_ o k | OutOfFuel => OutOfFuel end.
Notation "'let?' x := o 'in' k" := (try_ o (λ x, k))
  (at level 10, x pattern, o at level 100, k at level 200) : windlass_scope.
Notation "'call?' x := r 'in' k" := (call r (λ x, k))
  (at level 10, x pattern, r at level 100, k at level 200) : windlass_scope.

(** ** [parse] *)

(** The leaves: [i…e], and a length, a colon and that many bytes. Digits that
    are not UTF-8 are no number either. *)
Definition parse_integer (input : bytes) : option (Value * bytes) :=
  end_ ← find_byte "e"%char input;
  digits ← get_range input 1 (Z.of_nat end_);
  n ← parse_i64 digits;
  rest ← get_from input (Z.of_nat end_ + 1);
  Some (Integer n, rest).

Definition parse_bytes (input : bytes) : option (bytes * bytes) :=
  colon ← find_byte ":"%char input;
  digits ← get_range input 0 (Z.of_nat colon);
  length_ ← parse_unsigned u64_max digits;
  let start := Z.of_nat colon + 1 in
  end_ ← then_some (start + length_ <=? u64_max) (start + length_);
  s ← get_range input start end_;
  rest ← get_from input end_;
  Some (s, rest).

(** The bytes of [after] before [after_value], a suffix of it. *)
Definition before_suffix (after after_value : bytes) : option bytes :=
  get_range after 0 (Z.of_nat (length after) - Z.of_nat (length after_value)).

(** [parse] and its two loops; [fuel] bounds the nesting of calls and of
    iterations. *)
Fixpoint parse (fuel : nat) (input : bytes) (depth : Z) : Run (Value * bytes) :=
  match fuel with
  | O => OutOfFuel
  | S fuel =>
      if MAX_DEPTH <? depth then Finished None
      else let? c := head input in
        if c ==? "i"%char then Finished (parse_integer input)
        else if c ==? "l"%char then
          let? rest := get_from input 1 in
          call? (items, rest) := list_items fuel rest depth in
          let? rest := get_from rest 1 in
          Finished (Some (List items, rest))
        else if c ==? "d"%char then
          let? rest := get_from input 1 in
          call? (entries, rest) := dictionary_entries fuel rest depth in
          let? rest := get_from rest 1 in
          Finished (Some (Dictionary entries, rest))
        else if is_digit c then
          Finished ('(s, rest) ← parse_bytes input; Some (Bytes s, rest))
        else Finished None
  end
with list_items (fuel : nat) (rest : bytes) (depth : Z) : Run (list Value * bytes) :=
  match fuel with
  | O => OutOfFuel
  | S fuel =>
      let? c := head rest in
      if c ==? "e"%char then Finished (Some ([], rest))
      else
        call? (item, after) := parse fuel rest (depth + 1) in
        call? (items, rest) := list_items fuel after depth in
        Finished (Some (item :: items, rest))
  end
with dictionary_entries (fuel : nat) (rest : bytes) (depth : Z)
    : Run (list (bytes * Value * bytes) * bytes) :=
  match fuel with
  | O => OutOfFuel
  | S fuel =>
      let? c := head rest in
      if c ==? "e"%char then Finished (Some ([], rest))
      else
        call? (key, after) := parse fuel rest (depth + 1) in
        match key with
        | Bytes key =>
            call? (value, after_value) := parse fuel after (depth + 1) in
            let? encoded := before_suffix after after_value in
            call? (entries, rest) := dictionary_entries fuel after_value depth in
            Finished (Some ((key, value, encoded) :: entries, rest))
        | _ => Finished None
        end
  end.

(** A call on input of this length ends within [parse_fuel] nested calls
    ([parse_terminates]). *)
Definition parse_fuel (input : bytes) : nat := 2 * length input + 1.
Definition parse_value (input : bytes) : option (Value * bytes) :=
  match parse (parse_fuel input) input 0 with Finished r => r | OutOfFuel => None end.

(** ** [read] *)

Record TorrentFile := mkTorrentFile {
  file_hash : TorrentHash;
  file_size : ByteSize;
}.

(** [u64::try_from] of an [i64]. *)
Definition u64_of_i64 (n : Z) : option Z := then_some (0 <=? n) n.

Definition field (name : bytes) (info : list (bytes * Value * bytes)) : option Value :=
  (λ e, e.1.2) <$> List.find (λ e, e.1.1 ==? name) info.

(** The length of one file: its first [length] that is an integer of at least
    zero. *)
Definition file_length (file : Value) : option Z :=
  match file with
  | Dictionary file =>
      find_map (λ e, match e.1.2 with
                     | Integer n => if e.1.1 ==? b "length" then u64_of_i64 n else None
                     | _ => None
                     end) file
  | _ => None
  end.

Definition checked_add_u64 (x y : Z) : option Z := then_some (x + y <=? u64_max) (x + y).

Fixpoint files_length (total : Z) (files : list Value) : option Z :=
  match files with
  | [] => Some total
  | file :: files =>
      length_ ← file_length file; total ← checked_add_u64 total length_; files_length total files
  end.

Definition info_size (info : list (bytes * Value * bytes)) : option ByteSize :=
  match field (b "length") info, field (b "files") info with
  | Some (Integer length_), None => u64_of_i64 length_
  | None, Some (List files) => files_length 0 files
  | _, _ => None
  end.

(** [{byte:02x}] of every byte. *)
Definition hex_digit (n : Z) : ascii := if n <? 10 then digit n else byte (97 + (n - 10)).
Definition hex (l : bytes) : bytes :=
  flat_map (λ c, [hex_digit (u8 c / 16); hex_digit (u8 c mod 16)]) l.

Section read.
(** [Sha1::digest]. *)
Context (sha1 : bytes → bytes).

Definition read (input : bytes) : option TorrentFile :=
  '(value, rest) ← parse_value input;
  if negb (rest ==? []) then None
  else match value with
  | Dictionary entries =>
      '(_, info, encoded) ← List.find (λ e, e.1.1 ==? b "info") entries;
      match info with
      | Dictionary info =>
          size ← info_size info;
          hash ← TorrentHash_parse (t (hex (sha1 encoded)));
          Some (mkTorrentFile hash size)
      | _ => None
      end
  | _ => None
  end.
End read.

(** ** The bencode grammar

    [encodes depth v s]: [s] is an encoding of [v] that may stand inside [depth]
    lists and dictionaries. *)
Inductive encodes : Z → Value → bytes → Prop :=
  | encodes_integer depth digits n :
      depth ≤ MAX_DEPTH → parse_i64 digits = Some n →
      encodes depth (Integer n) (b "i" ++ digits ++ b "e")
  | encodes_bytes depth c digits s :
      depth ≤ MAX_DEPTH → is_digit c = true →
      parse_unsigned u64_max (c :: digits) = Some (Z.of_nat (length s)) →
      encodes depth (Bytes s) (c :: digits ++ b ":" ++ s)
  | encodes_list depth items s :
      depth ≤ MAX_DEPTH → encodes_items (depth + 1) items s →
      encodes depth (List items) (b "l" ++ s ++ b "e")
  | encodes_dictionary depth entries s :
      depth ≤ MAX_DEPTH → encodes_entries (depth + 1) entries s →
      encodes depth (Dictionary entries) (b "d" ++ s ++ b "e")
with encodes_items : Z → list Value → bytes → Prop :=
  | encodes_items_nil depth : encodes_items depth [] []
  | encodes_items_cons depth v s items s' :
      encodes depth v s → encodes_items depth items s' →
      encodes_items depth (v :: items) (s ++ s')
with encodes_entries : Z → list (bytes * Value * bytes) → bytes → Prop :=
  | encodes_entries_nil depth : encodes_entries depth [] []
  | encodes_entries_cons depth key k v s entries s' :
      encodes depth (Bytes key) k → encodes depth v s → encodes_entries depth entries s' →
      encodes_entries depth ((key, v, s) :: entries) (k ++ s ++ s').

Scheme encodes_mut := Minimality for encodes Sort Prop
with encodes_items_mut := Minimality for encodes_items Sort Prop
with encodes_entries_mut := Minimality for encodes_entries Sort Prop.
Combined Scheme encodes_ind' from encodes_mut, encodes_items_mut, encodes_entries_mut.

(** ** The leaves *)

Lemma accumulate_digits_only step acc l n c :
  accumulate step acc l = Some n → is_digit c = false → c ∉ l.
Proof.
  intros Hacc Hc. revert acc Hacc. induction l as [|d l IH]; intros acc; simpl.
  { intros _. apply not_elem_of_nil. }
  destruct (to_digit d) as [k|] eqn:Ed; simpl; [|done]. apply to_digit_Some in Ed as [Ed _].
  destruct (step acc k) as [a|]; simpl; [|done]. intros Hacc%IH.
  rewrite not_elem_of_cons. split; [congruence|done].
Qed.

Lemma parse_unsigned_digits max l n c :
  parse_unsigned max l = Some n → is_digit c = false → c ≠ "+"%char → c ∉ l.
Proof.
  unfold parse_unsigned. destruct l as [|d l]; [done|]. cbv zeta. case_match; [done|].
  intros Hacc Hc Hp. destruct (d ==? "+"%char) eqn:E; reflect_bools; simplify_eq.
  - rewrite not_elem_of_cons. split; [done|]. by eapply accumulate_digits_only.
  - by eapply accumulate_digits_only.
Qed.

Lemma parse_i64_no_e l n : parse_i64 l = Some n → "e"%char ∉ l.
Proof.
  unfold parse_i64. destruct l as [|d l]; [done|]. cbv zeta.
  destruct (d ==? "-"%char) eqn:E; reflect_bools.
  - case_match; [done|]. intros Hacc. subst. rewrite not_elem_of_cons. split; [done|].
    by eapply accumulate_digits_only.
  - intros Hacc. by apply (parse_unsigned_digits i64_max (d :: l) n).
Qed.

Lemma find_byte_app c x y : c ∉ x → find_byte c (x ++ c :: y) = Some (length x).
Proof. intros. apply find_byte_Some. by exists x, y. Qed.

Lemma parse_integer_app digits rest :
  "e"%char ∉ digits →
  parse_integer (b "i" ++ digits ++ b "e" ++ rest) = n ← parse_i64 digits; Some (Integer n, rest).
Proof.
  intros He. unfold parse_integer.
  assert (find_byte "e"%char (b "i" ++ digits ++ b "e" ++ rest)
          = Some (length (b "i") + length digits)%nat) as ->.
  { apply (find_byte_app "e"%char ("i"%char :: digits)). by rewrite not_elem_of_cons. }
  cbn [mbind option_bind]. rewrite (get_range_app (b "i") digits). cbn [mbind option_bind].
  pose proof (get_from_app (b "i" ++ digits ++ b "e") rest) as Hrest.
  rewrite <-!app_assoc, !length_app in Hrest.
  replace (Z.of_nat (length (b "i") + length digits) + 1)
    with (Z.of_nat (length (b "i") + (length digits + length (b "e")))) by (simpl; lia).
  by rewrite Hrest.
Qed.

Lemma parse_bytes_app digits s rest :
  ":"%char ∉ digits → parse_unsigned u64_max digits = Some (Z.of_nat (length s)) →
  Z.of_nat (length (digits ++ b ":" ++ s ++ rest)) ≤ i64_max →
  parse_bytes (digits ++ b ":" ++ s ++ rest) = Some (s, rest).
Proof.
  intros Hc Hn Hlen. unfold parse_bytes.
  assert (find_byte ":"%char (digits ++ b ":" ++ s ++ rest) = Some (length digits)) as ->
    by by apply (find_byte_app ":"%char digits).
  cbn [mbind option_bind].
  rewrite get_range_start.
  cbn [mbind option_bind]. rewrite Hn. cbn [mbind option_bind].
  rewrite !length_app in Hlen. unfold i64_max in Hlen.
  unfold then_some, u64_max. rewrite (proj2 (Z.leb_le _ _)) by (simpl in *; lia).
  cbn [mbind option_bind].
  pose proof (get_range_app (digits ++ b ":") s rest) as H2.
  pose proof (get_from_app (digits ++ b ":" ++ s) rest) as H3.
  rewrite <-!app_assoc, ?length_app in H2, H3. rewrite <-app_assoc, !length_app in H3.
  replace (Z.of_nat (length digits) + 1) with (Z.of_nat (length digits + length (b ":")))
    by (simpl; lia).
  rewrite <-Nat2Z.inj_add, H2. cbn [mbind option_bind].
  rewrite Nat.add_assoc in H3. by rewrite H3.
Qed.

Lemma parse_integer_Some input v rest :
  head input = Some "i"%char → parse_integer input = Some (v, rest) →
  ∃ digits n, v = Integer n ∧ parse_i64 digits = Some n ∧
    input = (b "i" ++ digits ++ b "e") ++ rest.
Proof.
  intros Hh Hp. assert (∃ k, find_byte "e"%char input = Some k) as [k Hk].
  { unfold parse_integer in Hp. destruct (find_byte _ _); [by eexists|done]. }
  apply find_byte_Some in Hk as (x & y & -> & _ & Hx).
  destruct x as [|c digits]; [done|]. simpl in Hh. injection Hh as ->.
  apply not_elem_of_cons in Hx as [_ Hx].
  change (("i"%char :: digits) ++ "e"%char :: y) with (b "i" ++ digits ++ b "e" ++ y) in Hp.
  rewrite parse_integer_app in Hp by done.
  destruct (parse_i64 digits) as [n|] eqn:Hn; simplify_eq/=.
  exists digits, n. by rewrite <-app_assoc.
Qed.

Lemma parse_bytes_Some input s rest :
  parse_bytes input = Some (s, rest) →
  ∃ digits, parse_unsigned u64_max digits = Some (Z.of_nat (length s)) ∧
    input = (digits ++ b ":" ++ s) ++ rest.
Proof.
  unfold parse_bytes. intros Hp.
  destruct (find_byte _ _) as [k|] eqn:Hk; simplify_eq/=.
  apply find_byte_Some in Hk as (x & y & -> & <- & Hx).
  rewrite get_range_start in Hp.
  simpl in Hp.
  destruct (parse_unsigned _ x) as [n|] eqn:Hn; simplify_eq/=.
  pose proof (parse_unsigned_bound u64_max x n ltac:(by unfold u64_max) Hn) as Hb.
  destruct (then_some _ _) as [e|] eqn:He; simplify_eq/=. apply then_some_Some in He as [_ <-].
  destruct (get_range _ _ _) as [r|] eqn:Hr; simplify_eq/=.
  apply get_range_Some in Hr as (x' & z & Heq & Hl & Hl'); [|lia].
  change (x ++ ":"%char :: y) with (x ++ b ":" ++ y) in *. rewrite Heq in Hp.
  pose proof (get_from_app (x' ++ r) z) as Hz. rewrite <-app_assoc, length_app, Hl' in Hz.
  rewrite Hz in Hp. simplify_eq/=.
  exists x. split; [rewrite Hn; f_equal; lia|].
  replace (x ++ ":"%char :: y) with ((x ++ b ":") ++ y) in * by by rewrite <-app_assoc.
  apply app_inj_1 in Heq as [_ ->]; [|rewrite length_app; simpl; lia].
  by rewrite <-!app_assoc.
Qed.

(** ** The reader and the grammar *)

Lemma get_from_1 {A} (c : A) l : get_from (c :: l) 1 = Some l.
Proof. apply (get_from_app [c] l). Qed.

Lemma before_suffix_app s rest : before_suffix (s ++ rest) rest = Some s.
Proof.
  unfold before_suffix. rewrite length_app.
  replace (_ - _) with (Z.of_nat (length s)) by lia. apply get_range_start.
Qed.

Lemma call_Some {A B} (r : Run A) (k : A → Run B) y :
  call r k = Finished (Some y) ↔ ∃ x, r = Finished (Some x) ∧ k x = Finished (Some y).
Proof. destruct r as [[x|]|]; simpl; naive_solver. Qed.
Lemma try_Some {A B} (o : option A) (k : A → Run B) y :
  try_ o k = Finished (Some y) ↔ ∃ x, o = Some x ∧ k x = Finished (Some y).
Proof. destruct o as [x|]; simpl; naive_solver. Qed.

Lemma head_cons {A} (l : list A) c : head l = Some c → ∃ l', l = c :: l'.
Proof. destruct l; simpl; naive_solver. Qed.

(** Everything the reader returns, the grammar derives from the input it used. *)
Lemma parse_sound fuel :
  (∀ input depth v rest, parse fuel input depth = Finished (Some (v, rest)) →
     ∃ s, input = s ++ rest ∧ encodes depth v s) ∧
  (∀ input depth items rest, list_items fuel input depth = Finished (Some (items, rest)) →
     ∃ s l, input = s ++ rest ∧ rest = "e"%char :: l ∧ encodes_items (depth + 1) items s) ∧
  (∀ input depth entries rest,
     dictionary_entries fuel input depth = Finished (Some (entries, rest)) →
     ∃ s l, input = s ++ rest ∧ rest = "e"%char :: l ∧ encodes_entries (depth + 1) entries s).
Proof.
  induction fuel as [|fuel (IHp & IHl & IHd)]; [by split_and!|]. split_and!.
  - intros input depth v rest. simpl. case_match eqn:Hd; [done|]. reflect_bools.
    rewrite try_Some. intros (c & (l & ->)%head_cons & Hk). revert Hk.
    case_bool_decide; [|case_bool_decide; [|case_bool_decide; [|case_match; [|done]]]].
    + subst c. intros [= (digits & n & -> & Hn & ->)%parse_integer_Some]; [|done].
      eexists. split; [done|]. by constructor.
    + subst c. rewrite get_from_1. simpl. rewrite call_Some.
      intros ([items r] & (s & l' & -> & -> & Hs)%IHl & Hk). rewrite get_from_1 in Hk. simplify_eq/=.
      exists (b "l" ++ s ++ b "e"). split; [by simpl; rewrite <-app_assoc|]. by constructor.
    + subst c. rewrite get_from_1. simpl. rewrite call_Some.
      intros ([items r] & (s & l' & -> & -> & Hs)%IHd & Hk). rewrite get_from_1 in Hk. simplify_eq/=.
      exists (b "d" ++ s ++ b "e"). split; [by simpl; rewrite <-app_assoc|]. by constructor.
    + destruct (parse_bytes _) as [[s r]|] eqn:Hp; intros; simplify_eq/=.
      apply parse_bytes_Some in Hp as (digits & Hn & Heq).
      destruct digits as [|d digits]; [done|]. simpl in Heq. injection Heq as -> ->.
      eexists (d :: digits ++ b ":" ++ s). split; [done|]. by constructor.
  - intros input depth items rest. simpl. rewrite try_Some.
    intros (c & (l & ->)%head_cons & Hk). revert Hk. case_bool_decide.
    + subst c. intros [= <- <-]. exists [], l. split_and!; [done..|constructor].
    + rewrite call_Some. intros ([v after] & (s & -> & Hs)%IHp & Hk). revert Hk.
      rewrite call_Some. intros ([vs r] & (s' & l' & -> & -> & Hs')%IHl & Hk). simplify_eq/=.
      exists (s ++ s'), l'. rewrite <-app_assoc. split_and!; [done..|by constructor].
  - intros input depth entries rest. simpl. rewrite try_Some.
    intros (c & (l & ->)%head_cons & Hk). revert Hk. case_bool_decide.
    + subst c. intros [= <- <-]. exists [], l. split_and!; [done..|constructor].
    + rewrite call_Some. intros ([v after] & (s & -> & Hs)%IHp & Hk).
      destruct v as [|key| |]; [done| |done..]. revert Hk.
      rewrite call_Some. intros ([v after'] & (s' & -> & Hs')%IHp & Hk).
      rewrite before_suffix_app in Hk. simpl in Hk. revert Hk.
      rewrite call_Some. intros ([es r] & (s2 & l' & -> & -> & Hs2)%IHd & Hk). simplify_eq/=.
      exists (s ++ s' ++ s2), l'. rewrite <-!app_assoc. split_and!; [done..|by constructor].
Qed.

(** An encoding starts with a byte that is not the end mark. *)
Lemma encodes_head depth v s :
  encodes depth v s → depth ≤ MAX_DEPTH ∧ ∃ c s', s = c :: s' ∧ c ≠ "e"%char.
Proof.
  destruct 1; (split; [done|]); [eexists "i"%char, _|exists c; eexists|eexists "l"%char, _|eexists "d"%char, _];
    split; try reflexivity; try done. by intros ->.
Qed.

Lemma run_head_items fuel c s depth :
  c ≠ "e"%char →
  list_items (S fuel) (c :: s) depth =
    call (parse fuel (c :: s) (depth + 1)) (λ '(item, after),
      call (list_items fuel after depth) (λ '(items, rest), Finished (Some (item :: items, rest)))).
Proof. intros. simpl. by rewrite bool_decide_eq_false_2. Qed.

Lemma run_head_entries fuel c s depth key after :
  c ≠ "e"%char → parse fuel (c :: s) (depth + 1) = Finished (Some (Bytes key, after)) →
  dictionary_entries (S fuel) (c :: s) depth =
    call (parse fuel after (depth + 1)) (λ '(value, after_value),
      try_ (before_suffix after after_value) (λ encoded,
      call (dictionary_entries fuel after_value depth) (λ '(entries, rest),
        Finished (Some ((key, value, encoded) :: entries, rest))))).
Proof. intros ? H. simpl. rewrite bool_decide_eq_false_2 by done. by rewrite H. Qed.

Lemma digit_no_kind c :
  is_digit c = true → c ≠ "i"%char ∧ c ≠ "l"%char ∧ c ≠ "d"%char.
Proof. intros H. split_and!; intros ->; by vm_compute in H. Qed.

(** Everything the grammar derives, the reader returns, in fuel that the length of
    the encoding bounds. *)
Lemma parse_complete :
  (∀ depth v s, encodes depth v s → ∀ rest fuel,
     Z.of_nat (length (s ++ rest)) ≤ i64_max → (length s ≤ fuel)%nat →
     parse fuel (s ++ rest) depth = Finished (Some (v, rest))) ∧
  (∀ depth items s, encodes_items depth items s → ∀ l fuel,
     Z.of_nat (length (s ++ "e"%char :: l)) ≤ i64_max → (length s < fuel)%nat →
     list_items fuel (s ++ "e"%char :: l) (depth - 1) = Finished (Some (items, "e"%char :: l))) ∧
  (∀ depth entries s, encodes_entries depth entries s → ∀ l fuel,
     Z.of_nat (length (s ++ "e"%char :: l)) ≤ i64_max → (length s < fuel)%nat →
     dictionary_entries fuel (s ++ "e"%char :: l) (depth - 1) =
       Finished (Some (entries, "e"%char :: l))).
Proof.
  apply encodes_ind'.
  - intros depth digits n Hd Hn rest fuel _ Hfuel. destruct fuel as [|fuel]; [simpl in *; lia|].
    rewrite <-!app_assoc. simpl. rewrite (proj2 (Z.ltb_ge _ _)) by done. f_equal.
    pose proof (parse_integer_app digits rest (parse_i64_no_e _ _ Hn)) as Hp.
    rewrite Hn in Hp. exact Hp.
  - intros depth c digits s Hd Hc Hn rest fuel Hlen Hfuel. destruct fuel as [|fuel]; [simpl in *; lia|].
    destruct (digit_no_kind c Hc) as (? & ? & ?).
    change ((c :: digits ++ b ":" ++ s) ++ rest) with (c :: (digits ++ b ":" ++ s) ++ rest) in *.
    rewrite <-!app_assoc in *. simpl. rewrite (proj2 (Z.ltb_ge _ _)) by done.
    rewrite !bool_decide_eq_false_2, Hc by done.
    replace (parse_bytes _) with (Some (s, rest)); [done|]. symmetry.
    apply (parse_bytes_app (c :: digits) s rest); [|done..].
    by eapply parse_unsigned_digits.
  - intros depth items s Hd Hs IH rest fuel Hlen Hfuel. destruct fuel as [|fuel]; [simpl in *; lia|].
    rewrite <-!app_assoc in *. simpl. rewrite (proj2 (Z.ltb_ge _ _)) by done. rewrite get_from_1. simpl.
    replace depth with (depth + 1 - 1) at 1 by lia. rewrite IH.
    + simpl. by rewrite get_from_1.
    + rewrite !length_app in *. simpl in *. lia.
    + simpl in Hfuel. rewrite !length_app in Hfuel. simpl in Hfuel. lia.
  - intros depth entries s Hd Hs IH rest fuel Hlen Hfuel. destruct fuel as [|fuel]; [simpl in *; lia|].
    rewrite <-!app_assoc in *. simpl. rewrite (proj2 (Z.ltb_ge _ _)) by done. rewrite get_from_1. simpl.
    replace depth with (depth + 1 - 1) at 1 by lia. rewrite IH.
    + simpl. by rewrite get_from_1.
    + rewrite !length_app in *. simpl in *. lia.
    + simpl in Hfuel. rewrite !length_app in Hfuel. simpl in Hfuel. lia.
  - intros depth l [|fuel] _ Hfuel; [simpl in *; lia|done].
  - intros depth v s items s' Hs IH Hs' IH' l fuel Hlen Hfuel.
    destruct fuel as [|fuel]; [lia|].
    destruct (encodes_head _ _ _ Hs) as (_ & c & r & -> & Hc).
    rewrite <-app_assoc in *. simpl app at 1. rewrite run_head_items by done.
    replace (depth - 1 + 1) with depth by lia. rewrite !length_app in *. simpl in *.
    rewrite (IH (s' ++ "e"%char :: l)) by (rewrite ?length_app; simpl; lia). simpl.
    by rewrite IH' by (rewrite ?length_app; simpl; lia).
  - intros depth l [|fuel] _ Hfuel; [simpl in *; lia|done].
  - intros depth key k v s entries s' Hk IHk Hs IH Hs' IH' l fuel Hlen Hfuel.
    destruct fuel as [|fuel]; [lia|].
    destruct (encodes_head _ _ _ Hk) as (_ & c & r & -> & Hc).
    rewrite <-!app_assoc in *. simpl app at 1.
    rewrite (run_head_entries fuel c _ _ key (s ++ s' ++ "e"%char :: l)); [|done|].
    + replace (depth - 1 + 1) with depth by lia. rewrite !length_app in *. simpl in *.
      rewrite IH by (rewrite ?length_app; simpl; lia). simpl. rewrite before_suffix_app. simpl.
      by rewrite IH' by (rewrite ?length_app; simpl; lia).
    + replace (depth - 1 + 1) with depth by lia. rewrite !length_app in *. simpl in *.
      apply IHk; rewrite ?length_app; simpl; lia.
Qed.

(** Each call and each iteration takes in at least one byte, so fuel twice the length
    of the input is never used up. *)
Lemma call_ends {A B} (r : Run A) (k : A → Run B) :
  r ≠ OutOfFuel → (∀ x, r = Finished (Some x) → k x ≠ OutOfFuel) → call r k ≠ OutOfFuel.
Proof. destruct r as [[x|]|]; simpl; auto. Qed.
Lemma try_ends {A B} (o : option A) (k : A → Run B) :
  (∀ x, o = Some x → k x ≠ OutOfFuel) → try_ o k ≠ OutOfFuel.
Proof. destruct o; simpl; auto. Qed.

Lemma parse_takes_in fuel input depth v rest :
  parse fuel input depth = Finished (Some (v, rest)) → (length rest < length input)%nat.
Proof.
  intros (s & -> & Hs)%(proj1 (parse_sound fuel)).
  apply encodes_head in Hs as (_ & c & s' & -> & _). rewrite length_app. simpl. lia.
Qed.

Lemma calls_end fuel :
  (∀ input depth, (2 * length input < fuel)%nat → parse fuel input depth ≠ OutOfFuel) ∧
  (∀ rest depth, (2 * length rest + 1 < fuel)%nat → list_items fuel rest depth ≠ OutOfFuel) ∧
  (∀ rest depth, (2 * length rest + 1 < fuel)%nat → dictionary_entries fuel rest depth ≠ OutOfFuel).
Proof.
  induction fuel as [|fuel (IHp & IHl & IHd)]; [split_and!; intros; lia|]. split_and!.
  - intros input depth Hfuel. simpl. case_match; [done|].
    apply try_ends. intros c (l & ->)%head_cons. rewrite get_from_1. simpl in *.
    repeat case_match; try done; apply call_ends.
    1,3: (apply IHl || apply IHd); lia.
    all: intros [items r] _; by apply try_ends.
  - intros rest depth Hfuel. simpl. apply try_ends. intros c (l & ->)%head_cons.
    case_match; [done|]. apply call_ends; [apply IHp; lia|].
    intros [v after] Ht%parse_takes_in. apply call_ends; [apply IHl; lia|]. by intros [].
  - intros rest depth Hfuel. simpl. apply try_ends. intros c (l & ->)%head_cons.
    case_match; [done|]. apply call_ends; [apply IHp; lia|].
    intros [v after] Ht%parse_takes_in. destruct v; try done.
    apply call_ends; [apply IHp; lia|].
    intros [v after'] Ht'%parse_takes_in. apply try_ends. intros encoded _.
    apply call_ends; [apply IHd; lia|]. by intros [].
Qed.

(** ** Properties *)

(** C31: reading a bencoded value ends on every input, at every nesting
    depth and with every amount of fuel above twice its length: no input makes its
    recursion or its two loops run on, and more fuel than that changes nothing. *)
Theorem parse_terminates input depth fuel :
  (parse_fuel input ≤ fuel)%nat →
  Z.of_nat (length input) ≤ i64_max →
  (∃ r, parse fuel input depth = Finished r) ∧
  parse fuel input depth = parse (parse_fuel input) input depth.
Proof.
  intros Hfuel Hlen. unfold parse_fuel in *.
  assert (∀ fuel, (2 * length input < fuel)%nat → ∃ r, parse fuel input depth = Finished r) as Hends.
  { intros f Hf. pose proof (proj1 (calls_end f) input depth Hf).
    destruct (parse f input depth) as [r|]; [by exists r|done]. }
  split; [apply Hends; lia|].
  assert (∀ f g v rest, (2 * length input < f)%nat → (2 * length input < g)%nat →
    parse f input depth = Finished (Some (v, rest)) →
    parse g input depth = Finished (Some (v, rest))) as Hsome.
  { intros f g v rest Hf Hg (s & -> & Hs)%(proj1 (parse_sound f)).
    apply (proj1 parse_complete); [done..|]. rewrite length_app in Hg. lia. }
  destruct (Hends fuel) as [[[v rest]|] Hr]; [lia| |].
  - symmetry. rewrite Hr. apply (Hsome fuel); [lia..|done].
  - destruct (Hends (2 * length input + 1)%nat) as [[[v rest]|] Hr']; [lia| |congruence].
    rewrite Hr'. apply (Hsome (2 * length input + 1)%nat); [lia..|done].
Qed.

Lemma parse_terminates_witness :
  parse 100 (b "d4:infoli5ei-3eee") 0 = parse (parse_fuel (b "d4:infoli5ei-3eee")) (b "d4:infoli5ei-3eee") 0.
Proof. apply (parse_terminates (b "d4:infoli5ei-3eee") 0 100); apply Z.leb_le || apply Nat.leb_le; vm_compute; reflexivity. Defined.

Lemma parse_value_encodes input v rest :
  Z.of_nat (length input) ≤ i64_max →
  parse_value input = Some (v, rest) ↔ ∃ s, input = s ++ rest ∧ encodes 0 v s.
Proof.
  intros Hlen. unfold parse_value, parse_fuel. split.
  - case_match eqn:Hp; [|done]. intros ->. by apply (proj1 (parse_sound _)) in Hp.
  - intros (s & -> & Hs). rewrite (proj1 parse_complete 0 v s Hs); [done..|].
    rewrite length_app. lia.
Qed.

(** C30: the reader is the bencode grammar: it returns a value and the input
    after it exactly when what it took in is an encoding of that value, nested at most
    32 deep, with the encoding of every dictionary entry kept as the slice it was read
    from; so it never misses a value, and never takes another. *)
Theorem parse_is_the_grammar input v rest :
  Z.of_nat (length input) ≤ i64_max →
  parse_value input = Some (v, rest) ↔ ∃ s, input = s ++ rest ∧ encodes 0 v s.
Proof. apply parse_value_encodes. Qed.

Lemma parse_is_the_grammar_witness :
  parse_value (b "l3:abci42ee!") = Some (List [Bytes (b "abc"); Integer 42], b "!") ∧
  ∃ s, b "l3:abci42ee!" = s ++ b "!" ∧ encodes 0 (List [Bytes (b "abc"); Integer 42]) s.
Proof.
  assert (parse_value (b "l3:abci42ee!") = Some (List [Bytes (b "abc"); Integer 42], b "!")) as H
    by (vm_compute; reflexivity).
  split; [exact H|].
  apply (parse_is_the_grammar (b "l3:abci42ee!") (List [Bytes (b "abc"); Integer 42]) (b "!")).
  - apply Z.leb_le. vm_compute. reflexivity.
  - exact H.
Defined.

(** ** What [read] names and sizes *)

Lemma hex_digits_ok : ∀ c,
  forallb (λ d, is_ascii_hexdigit d && negb (between 65 90 d))
    [hex_digit (u8 c / 16); hex_digit (u8 c mod 16)] = true.
Proof. each_byte. Qed.

Lemma hex_ok l :
  length (hex l) = (2 * length l)%nat ∧
  Forall (λ d, is_ascii_hexdigit d = true ∧ between 65 90 d = false) (hex l).
Proof.
  induction l as [|c l [IHn IHl]]; [done|]. split; [simpl; lia|].
  change (hex (c :: l)) with ([hex_digit (u8 c / 16); hex_digit (u8 c mod 16)] ++ hex l).
  apply Forall_app; split; [|done].
  pose proof (proj1 (forallb_Forall_true _ _) (hex_digits_ok c)) as Hc.
  eapply List.Forall_impl; [|exact Hc]. intros d Hd. simpl in Hd. by reflect_bools.
Qed.

Lemma hash_of_digest l : length l = 20%nat → TorrentHash_parse (t (hex l)) = Some (t (hex l)).
Proof.
  intros Hl. destruct (hex_ok l) as [Hn Hh]. unfold TorrentHash_parse. cbv zeta. rewrite b_t, Hn, Hl.
  destruct (map_lowercase_ok _ Hh) as [-> ->]. done.
Qed.

Lemma files_length_sum total files n :
  0 ≤ total ≤ u64_max →
  files_length total files = Some n ↔
  ∃ lens, Forall2 (λ f k, file_length f = Some k) files lens ∧
    n = total + foldr Z.add 0 lens ∧ n ≤ u64_max.
Proof.
  revert total. induction files as [|f files IH]; intros total Ht; simpl.
  { split.
    - intros [= <-]. exists []. split_and!; [constructor|simpl; lia|lia].
    - intros (lens & Hf & -> & _). inversion Hf. simpl. f_equal. lia. }
  assert (∀ k, file_length f = Some k → 0 ≤ k) as Hpos.
  { intros k Hk. destruct f; try done. apply find_map_Some in Hk as (e & _ & He).
    destruct e.1.2; try done. case_match; [|done]. unfold u64_of_i64 in He.
    apply then_some_Some in He as [? <-]. by apply Z.leb_le. }
  assert (∀ l lens, Forall2 (λ f k, file_length f = Some k) l lens → 0 ≤ foldr Z.add 0 lens) as Hsum.
  { induction 1 as [|g k l lens Hg Hl IHl]; simpl; [lia|].
    enough (0 ≤ k) by lia. destruct g; try done. apply find_map_Some in Hg as (e & _ & He).
    destruct e.1.2; try done. case_match; [|done]. unfold u64_of_i64 in He.
    apply then_some_Some in He as [? <-]. by apply Z.leb_le. }
  split.
  - destruct (file_length f) as [k|] eqn:Hk; simpl; [|done].
    destruct (checked_add_u64 total k) as [s|] eqn:Hs; simpl; [|done].
    apply then_some_Some in Hs as [Hs <-]. apply Z.leb_le in Hs. specialize (Hpos k eq_refl).
    rewrite IH by lia. intros (lens & Hl & -> & Hn). exists (k :: lens).
    split_and!; [by constructor|simpl; lia|done].
  - intros (lens & Hl & -> & Hn). inversion Hl as [|? k ? lens' Hk Hl']; subst.
    rewrite Hk. simpl in *. specialize (Hpos k Hk). specialize (Hsum _ _ Hl').
    unfold checked_add_u64, then_some. rewrite (proj2 (Z.leb_le _ _)) by lia. simpl.
    rewrite IH by lia. exists lens'. split_and!; [done|lia..].
Qed.

(** The first entry of a name, as the code looks it up. *)
Definition first_entry (name : bytes) (entries : list (bytes * Value * bytes))
    (v : Value) (s : bytes) : Prop :=
  ∃ xs ys, entries = xs ++ (name, v, s) :: ys ∧ Forall (λ e, e.1.1 ≠ name) xs.

Lemma find_first_entry name entries e :
  List.find (λ e, e.1.1 ==? name) entries = Some e ↔
  e.1.1 = name ∧ first_entry name entries e.1.2 e.2.
Proof.
  destruct e as [[k v] s]. simpl. unfold first_entry. induction entries as [|[[k' v'] s'] es IH]; simpl.
  { split; [done|]. by intros (_ & [|] & ys & ? & _). }
  case_bool_decide as Hk; simpl in *.
  - split.
    + intros [= -> -> ->]. split; [done|]. exists [], es. subst. by split; [|constructor].
    + intros (-> & [|x xs] & ys & Heq & Hxs); simplify_eq/=; [done|]. inversion Hxs. by simplify_eq/=.
  - rewrite IH. split.
    + intros (-> & xs & ys & -> & Hxs). split; [done|].
      exists ((k', v', s') :: xs), ys. split; [done|]. by constructor.
    + intros (-> & [|x xs] & ys & Heq & Hxs); simplify_eq/=. inversion Hxs; subst.
      split; [done|]. by exists xs, ys.
Qed.

(** The size an info dictionary gives: of its single file, or the sum of its
    files', where that fits 64 bits. *)
Definition sized (info : list (bytes * Value * bytes)) (size : ByteSize) : Prop :=
  match field (b "length") info, field (b "files") info with
  | Some (Integer n), None => 0 ≤ n ∧ size = n
  | None, Some (List files) =>
      ∃ lens, Forall2 (λ f k, file_length f = Some k) files lens ∧
        size = foldr Z.add 0 lens ∧ size ≤ u64_max
  | _, _ => False
  end.

Lemma info_size_sized info size : info_size info = Some size ↔ sized info size.
Proof.
  unfold info_size, sized. destruct (field (b "length") info) as [[n| | |]|];
    destruct (field (b "files") info) as [[| |files|]|]; try done.
  - unfold u64_of_i64. rewrite then_some_Some, Z.leb_le. naive_solver.
  - rewrite files_length_sum by (unfold u64_max; lia). by setoid_rewrite Z.add_0_l.
Qed.

(** a torrent file is read exactly when all of it is one dictionary
    whose first [info] entry is a dictionary that gives a size; its hash is then the
    SHA-1 of the bytes [info] was encoded as in the file, whatever their form, in
    lower-case hexadecimal, and its size the length of its one file or the sum of its
    files' lengths, which fits 64 bits. *)
Theorem read_names_the_info sha1 input file :
  (∀ x, length (sha1 x) = 20%nat) →
  Z.of_nat (length input) ≤ i64_max →
  read sha1 input = Some file ↔
  ∃ entries info encoded size,
    encodes 0 (Dictionary entries) input ∧
    first_entry (b "info") entries (Dictionary info) encoded ∧
    sized info size ∧ file = mkTorrentFile (t (hex (sha1 encoded))) size.
Proof.
  intros Hsha Hlen. unfold read. split.
  - destruct (parse_value input) as [[v rest]|] eqn:Hp; simpl; [|done].
    apply parse_value_encodes in Hp as (s & -> & Hs); [|done].
    case_bool_decide as Hr; simpl; [subst rest; rewrite app_nil_r in *|done].
    destruct v as [| | |entries]; try done.
    destruct (List.find _ entries) as [[[k v] encoded]|] eqn:Hf; simpl; [|done].
    apply find_first_entry in Hf as [Hk Hf]. simpl in *.
    destruct v as [| | |info]; try done.
    destruct (info_size info) as [size|] eqn:Hsz; simpl; [|done].
    rewrite hash_of_digest by done. simpl. intros [= <-]. apply info_size_sized in Hsz.
    by exists entries, info, encoded, size.
  - intros (entries & info & encoded & size & Hs & Hf & Hsz & ->).
    rewrite (proj2 (parse_value_encodes input (Dictionary entries) [] Hlen))
      by (exists input; by rewrite app_nil_r). simpl.
    rewrite (proj2 (find_first_entry _ _ (b "info", Dictionary info, encoded))) by done. simpl.
    rewrite (proj2 (info_size_sized info size) Hsz). simpl. by rewrite hash_of_digest.
Qed.

(** Stands for SHA-1: twenty bytes that depend on the input. *)
Definition sample_digest (x : bytes) : bytes := firstn 20 (x ++ repeat (byte 0) 20).

Lemma read_names_the_info_witness :
  let input := b "d3:agei7e4:infod6:lengthi42e4:name1:xee" in
  ∃ entries info encoded size,
    encodes 0 (Dictionary entries) input ∧
    first_entry (b "info") entries (Dictionary info) encoded ∧
    sized info size ∧
    mkTorrentFile (t (hex (sample_digest (b "d6:lengthi42e4:name1:xe")))) 42 =
      mkTorrentFile (t (hex (sample_digest encoded))) size.
Proof.
  apply (read_names_the_info sample_digest (b "d3:agei7e4:infod6:lengthi42e4:name1:xee")).
  - intros x. unfold sample_digest. rewrite length_firstn, length_app, repeat_length. lia.
  - apply Z.leb_le. vm_compute. reflexivity.
  - vm_compute. reflexivity.
Defined.
