(* ===== verification/MamClient.v ===== *)
(** * The MAM client

    The request the core chose as an HTTPS request, and the answer in the core's terms
    ([shell/mam.rs]). Sending it, JSON, URLs, dates and SHA-1 are the libraries'. A
    header's value is the text of it, if it is text. *)

From S2P Require Import Prelude Values Vocabulary MamApi.
From S2P Require Import Bytes Text Json MamReplies.
From S2P Require TorrentFile.

(** [USER_AGENT], with the version of [Cargo.toml]. *)
Definition USER_AGENT : string := "Windlass/0.1.0".
Definition BOOKMARKS_PER_PAGE : Z := 100.
Definition TIMEOUT : Duration := from_secs 30.

Record MamLibrary := mkMamLibrary {
  mam_json : bytes → option Value;
  mam_date : bytes → option SystemTime;
  mam_join : string → string → option string;
  mam_sha1 : bytes → bytes;
}.

(** MAM's two hosts. *)
Record MamHosts := mkMamHosts {
  host_site : string;
  host_tracker : string;
}.

Record Client := mkClient {
  client_ip : string;
  client_seedbox : string;
  client_user_data : string;
  client_search : string;
  client_download : string;
  client_store : string;
  client_bonus_history : string;
}.

(** [Client::new]: [None] if the hosts cannot carry MAM's paths. *)
Definition Client_new (lib : MamLibrary) (hosts : MamHosts) : option Client :=
  let site := mam_join lib (host_site hosts) in
  let tracker := mam_join lib (host_tracker hosts) in
  ip ← tracker "json/jsonIp.php"%string;
  seedbox ← tracker "json/dynamicSeedbox.php"%string;
  user_data ← site "jsonLoad.php"%string;
  search ← site "tor/js/loadSearchJSONbasic.php"%string;
  download ← site "tor/download.php"%string;
  store ← site "json/bonusBuy.php"%string;
  bonus_history ← site "json/userBonusHistory.php"%string;
  Some (mkClient ip seedbox user_data search download store bonus_history).

(** ** Requests *)

Inductive Method :=
  | Method_Get
  | Method_Post.

Record HttpRequest := mkHttpRequest {
  http_method : Method;
  http_url : string;
  http_query : list (string * string);
  http_json : option Value;
  http_user_agent : string;
  http_timeout : Duration;
  http_cookie : option string;
}.

Definition get (url : string) (query : list (string * string)) : HttpRequest :=
  mkHttpRequest Method_Get url query None USER_AGENT TIMEOUT None.
Definition post (url : string) (document : Value) : HttpRequest :=
  mkHttpRequest Method_Post url [] (Some document) USER_AGENT TIMEOUT None.

Definition show (n : Z) : string := t (print_nat n).

Definition build (client : Client) (request : MamRequest) : HttpRequest :=
  match request with
  | MamRequest_LookUpIp => get (client_ip client) []
  | MamRequest_RegisterSeedbox => get (client_seedbox client) []
  | MamRequest_LoadUserData clients =>
      get (client_user_data client)
        ([("snatch_summary", "true"); ("notif", "true")]%string
         ++ if clients ==? ClientListing_Include then [("clientStats", "true")%string] else [])
  | MamRequest_ListBookmarks start =>
      post (client_search client)
        (Value_Object
          [("perpage", Value_Number (Number_PosInt BOOKMARKS_PER_PAGE));
           ("tor", Value_Object
             [("searchIn", Value_String "bookmarks");
              ("sortType", Value_String "");
              ("startNumber", Value_String (show start))])])%string
  | MamRequest_FetchTorrent id wedge =>
      get (client_download client)
        ([("tid", show id)%string] ++ if wedge ==? Wedge_Spend then [("fl", "1")%string] else [])
  | MamRequest_Buy Purchase_Vip =>
      get (client_store client) [("spendtype", "VIP"); ("duration", "max")]%string
  | MamRequest_LookUpTorrent id => get (client_search client) [("tor[id]", show id)]%string
  | MamRequest_WedgeHistory => get (client_bonus_history client) [("type[]", "wedgePF")]%string
  end.

(** A request with a cookie header. *)
Definition with_cookie (cookie : ApiCookie) (self : HttpRequest) : HttpRequest :=
  {| http_method := http_method self;
     http_url := http_url self;
     http_query := http_query self;
     http_json := http_json self;
     http_user_agent := http_user_agent self;
     http_timeout := http_timeout self;
     http_cookie := Some ("mam_id=" +:+ cookie)%string |}.

(** What [perform] sends, or why it does not. *)
Definition outgoing (client : option Client) (request : MamRequest) (cookie : option ApiCookie)
    : Result HttpRequest MamFailure :=
  match client with
  | None => Err MamFailure_Unreachable
  | Some client =>
      match MamRequest_needs_cookie request, cookie with
      | false, _ => Ok (build client request)
      | true, Some cookie => Ok (with_cookie cookie (build client request))
      | true, None => Err (MamFailure_Session SessionRejection_InvalidCookie)
      end
  end.

(** ** Answers *)

(** MAM's answer: its status, the values of its [Set-Cookie] headers, of its first
    [Retry-After] header, and its body if it could be read. *)
Record HttpAnswer := mkHttpAnswer {
  http_status : HttpStatus;
  http_set_cookie : list (option string);
  http_retry_after : option (option string);
  http_body : option bytes;
}.

(** What [perform] returns: the result, the torrent file it fetched, and a replacement
    cookie if MAM issued one. *)
Record MamAnswer := mkMamAnswer {
  answer_result : Result MamReply MamFailure;
  answer_file : option bytes;
  answer_rotated : option ApiCookie;
}.

Definition answer_failed (failure : MamFailure) : MamAnswer := mkMamAnswer (Err failure) None None.

Definition result_ok {T E} (r : Result T E) : option T :=
  match r with Ok x => Some x | Err _ => None end.

(** The cookie one [Set-Cookie] header carries. *)
Definition cookie_of (value : option string) : option ApiCookie :=
  value ← value;
  value ← strip_prefix (b "mam_id=") (b value);
  value ← list.head (split ";"%char value);
  result_ok (ApiCookie_parse (t value)).

(** A new [mam_id], if it differs from the one sent. *)
Definition rotated_cookie (headers : list (option string)) (sent : option ApiCookie)
    : option ApiCookie :=
  find_map (λ value, opt_filter (λ cookie, Some cookie !=? sent) (cookie_of value)) headers.

Definition retry_after (header : option (option string)) : option Duration :=
  value ← header;
  value ← value;
  from_secs <$> parse_unsigned u64_max (trim (b value)).

Definition or_malformed {T} (make : T → MamReply) (parsed : option T) : Result MamReply MamFailure :=
  match parsed with Some x => Ok (make x) | None => Err MamFailure_Malformed end.

Definition is_success (status : HttpStatus) : bool := (200 <=? status) && (status <=? 299).

Section client.
Context (lib : MamLibrary).

(** [interpret]: the order of the arms is that of the code. *)
Definition interpret (request : MamRequest) (status : HttpStatus) (retry_after : option Duration)
    (body : bytes) : Result MamReply MamFailure * option bytes :=
  let page := bookmark_page (mam_json lib) body in
  if signed_out body
  then (Err (MamFailure_Session (rejection (from_utf8_lossy body))), None)
  else if status =? 429 then (Err (MamFailure_TooSoon retry_after), None)
  else
    match request with
    | MamRequest_RegisterSeedbox => (registration (mam_json lib) status body, None)
    | _ =>
        if negb (is_success status) then (Err (MamFailure_Rejected status), None)
        else
          match request with
          | MamRequest_RegisterSeedbox => (registration (mam_json lib) status body, None)
          | MamRequest_FetchTorrent _ _ =>
              match TorrentFile.read (mam_sha1 lib) body with
              | None => (Err (MamFailure_Refused None), None)
              | Some file =>
                  (Ok (MamReply_Fetched (mkFetchedTorrent (TorrentFile.file_hash file)
                                           (TorrentFile.file_size file))), Some body)
              end
          | MamRequest_LookUpIp =>
              (or_malformed MamReply_Ip (ip_observation (mam_json lib) body), None)
          | MamRequest_LoadUserData _ =>
              (or_malformed MamReply_UserData (user_data (mam_json lib) (mam_date lib) body), None)
          | MamRequest_ListBookmarks _ => (or_malformed MamReply_Bookmarks page, None)
          | MamRequest_Buy _ => (purchase (mam_json lib) body, None)
          | MamRequest_LookUpTorrent id =>
              (or_malformed (λ page, MamReply_Torrent
                 (List.find (λ listing, bookmark_id listing =? id) (page_bookmarks page))) page, None)
          | MamRequest_WedgeHistory =>
              (or_malformed MamReply_WedgeHistory (wedge_history (mam_json lib) body), None)
          end
    end.

(** [perform]: [serve] is MAM, which may not answer. *)
Definition perform (client : option Client) (request : MamRequest) (cookie : option ApiCookie)
    (serve : HttpRequest → option HttpAnswer) : MamAnswer :=
  match outgoing client request cookie with
  | Err failure => answer_failed failure
  | Ok sent =>
      match serve sent with
      | None => answer_failed MamFailure_Unreachable
      | Some response =>
          let '(result, file) :=
            interpret request (http_status response) (retry_after (http_retry_after response))
              (default [] (http_body response)) in
          mkMamAnswer result file (rotated_cookie (http_set_cookie response) cookie)
      end
  end.
End client.
