(* ===== verification/MamAnswers.v ===== *)
(** * What reaches the core from MAM

    Proofs about [MamClient] and [MamReplies]: every answer that is understood fits the
    request and holds only values of its types, whatever MAM sends; failures say what
    happened; and requests carry what was asked and nothing more. *)

From S2P Require Import Prelude Values Vocabulary MamApi.
From S2P Require Import Bytes Text Address Floats Json MamReplies MamClient.
From S2P Require TorrentFile.

(** ** Values of the core's types *)

Definition time_ok (time : SystemTime) : Prop := time ≤ TIME_MAX.
Definition opt_ok {A} (P : A → Prop) (o : option A) : Prop := ∀ x, o = Some x → P x.

Definition IpObservation_ok (o : IpObservation) : Prop :=
  is_u32 (observed_asn o) ∧ opt_ok text_ok (observed_provider o).

Definition UserClass_ok (class : UserClass) : Prop :=
  match class with UserClass_Other name => text_ok name | _ => True end.

Definition RedCategory_ok (c : RedCategory) : Prop :=
  text_ok (red_name c) ∧ 0 < red_count c ≤ u32_max.

Definition SnatchSummary_ok (s : SnatchSummary) : Prop :=
  is_u32 (summary_unsatisfied s) ∧ is_u32 (summary_unsatisfied_limit s) ∧
  is_u32 (summary_unsatisfied_not_seeding s) ∧ is_u32 (summary_hit_and_run_not_seeding s) ∧
  is_u32 (summary_duplicates s) ∧ is_u32 (summary_tracker_errors s) ∧
  Forall RedCategory_ok (summary_red s).

Definition MamNotices_ok (n : MamNotices) : Prop :=
  is_u32 (notices_messages n) ∧ is_u32 (notices_tickets n) ∧ is_u32 (notices_waiting_tickets n) ∧
  is_u32 (notices_requests n) ∧ is_u32 (notices_topics n) ∧ is_u32 (notices_about_to_drop_client n).

Definition ListedClient_ok (c : ListedClient) : Prop := opt_ok ClientVersion_ok (client_qbittorrent c).

Definition UserData_ok (d : UserData) : Prop :=
  is_u64 (data_uploaded d) ∧ is_u64 (data_downloaded d) ∧ is_u64 (data_points d) ∧
  is_u32 (data_wedges d) ∧ UserClass_ok (data_class d) ∧ opt_ok time_ok (data_vip_until d) ∧
  opt_ok SnatchSummary_ok (data_summary d) ∧ opt_ok MamNotices_ok (data_notices d) ∧
  opt_ok (Forall ListedClient_ok) (data_clients d).

Definition Bookmark_ok (m : Bookmark) : Prop :=
  1 ≤ bookmark_id m ≤ u64_max ∧ text_ok (bookmark_title m) ∧
  (match bookmark_vip m with VipTorrent_Until time => time_ok time | _ => True end) ∧
  opt_ok time_ok (bookmark_bookmarked_at m).

Definition WedgeSpent_ok (w : WedgeSpent) : Prop :=
  1 ≤ spent_torrent w ≤ u64_max ∧ 0 ≤ spent_at w ≤ TIME_MAX.

Definition MamReply_ok (reply : MamReply) : Prop :=
  match reply with
  | MamReply_Ip observation => IpObservation_ok observation
  | MamReply_Registered _ _ => True
  | MamReply_UserData data => UserData_ok data
  | MamReply_Bookmarks page => is_u32 (page_found page) ∧ Forall Bookmark_ok (page_bookmarks page)
  | MamReply_Fetched fetched => TorrentHash_ok (fetched_hash fetched)
  | MamReply_Purchased points => is_u64 points
  | MamReply_WedgeHistory spent => Forall WedgeSpent_ok spent
  | MamReply_Torrent listing => opt_ok Bookmark_ok listing
  end.

(** Which answers a request may have. *)
Definition fits (request : MamRequest) (reply : MamReply) : bool :=
  match request, reply with
  | MamRequest_LookUpIp, MamReply_Ip _
  | MamRequest_RegisterSeedbox, MamReply_Registered _ _
  | MamRequest_LoadUserData _, MamReply_UserData _
  | MamRequest_ListBookmarks _, MamReply_Bookmarks _
  | MamRequest_FetchTorrent _ _, MamReply_Fetched _
  | MamRequest_Buy _, MamReply_Purchased _
  | MamRequest_WedgeHistory, MamReply_WedgeHistory _ => true
  | MamRequest_LookUpTorrent id, MamReply_Torrent listing =>
      is_none_or listing (λ listing, bookmark_id listing =? id)
  | _, _ => false
  end.

(** What the libraries promise: the integers of a JSON document fit 64 bits, and a date is
    a time. *)
Record MamLibraryOk (lib : MamLibrary) : Prop := {
  json_in_range body v : mam_json lib body = Some v → value_ok v = true;
  date_in_range text time : mam_date lib text = Some time → time_ok time;
}.

(** ** Reading keeps to the types *)

Create HintDb replies discriminated.

Lemma Whole_ok v n : value_ok v = true → Whole v = Some n → is_u64 n.
Proof.
  destruct v as [| |[]|s| |]; try discriminate; simpl.
  - intros Hv [= <-]. unfold in_width. reflect_bools. lia.
  - intros _ Hn. by apply parse_unsigned_bound in Hn.
Qed.

Lemma count_ok n k : is_u64 n → count n = Some k → is_u32 k.
Proof. unfold count, in_width. intros Hn [? <-]%then_some_Some. reflect_bools. lia. Qed.

Lemma given_ok fields name v :
  forallb (λ f, value_ok f.2) fields = true → given fields name = Some (Some v) → value_ok v = true.
Proof.
  rewrite forallb_forall. intros Hf. unfold given.
  destruct (filter _ fields) as [|f [|]] eqn:E; [done| |done]. intros [= <-]. apply Hf.
  apply list_elem_of_In. apply (list_elem_of_filter (λ f, f.1 = name)). rewrite E. by left.
Qed.

Definition field_ok (field : option Value) : Prop := opt_ok (λ v, value_ok v = true) field.

Lemma struct_ok names v fields :
  value_ok v = true → struct names v = Some fields → Forall field_ok fields.
Proof.
  destruct v as [| | | |values|given_fields]; try discriminate; simpl.
  - intros Hv [_ <-]%then_some_Some. rewrite forallb_forall in Hv.
    apply List.Forall_forall. intros f (w & <- & Hw)%in_map_iff x [= <-]. auto.
  - intros Hv Hm. apply mapM_Some_1 in Hm. apply Forall_forall. intros f Hf v ->.
    apply list_elem_of_In, list_elem_of_lookup in Hf as [i Hf].
    destruct (Forall2_lookup_r _ _ _ _ _ Hm Hf) as (name & _ & Hg). by eapply given_ok.
Qed.

Section fields.
Context {T : Type} (read : Reader T) (P : T → Prop).
Hypothesis read_ok : ∀ v x, value_ok v = true → read v = Some x → P x.

Lemma required_ok field x : field_ok field → required read field = Some x → P x.
Proof.
  unfold required. intros Hf Hx. apply bind_Some in Hx as (v & -> & Hx). eapply read_ok; [by apply Hf|done].
Qed.

Lemma optional_field_ok field o :
  field_ok field → optional_field read field = Some o → opt_ok P o.
Proof.
  unfold optional_field, read_option, opt_ok. destruct field as [v|]; [|by intros _ [= <-]].
  intros Hf Ho x ->. specialize (Hf v eq_refl).
  destruct v; simplify_eq/=; apply fmap_Some in Ho as (y & Hy & ?); simplify_eq; (eapply read_ok; [|exact Hy]); done.
Qed.

Lemma read_list_ok v l : value_ok v = true → read_list read v = Some l → Forall P l.
Proof.
  destruct v as [| | | |values|]; try discriminate. simpl. intros Hv Hm. rewrite forallb_forall in Hv.
  apply mapM_Some_1 in Hm. apply List.Forall_forall. intros x Hx.
  apply list_elem_of_In, list_elem_of_lookup in Hx as [i Hx].
  destruct (Forall2_lookup_r _ _ _ _ _ Hm Hx) as (w & Hw & Hr). eapply read_ok; [|exact Hr].
  apply Hv. apply list_elem_of_In. by eapply list_elem_of_lookup_2.
Qed.
End fields.

Lemma traverse_ok {A B} (f : A → option B) (P : A → Prop) (Q : B → Prop) o o' :
  (∀ x y, P x → f x = Some y → Q y) → opt_ok P o → traverse f o = Some o' → opt_ok Q o'.
Proof.
  intros Hf Ho. unfold traverse, opt_ok. destruct o as [x|]; [|by intros [= <-]].
  intros (y & Hy & ->)%fmap_Some z [= <-]. eauto.
Qed.

Lemma mapM_ok {A B} (f : A → option B) (P : A → Prop) (Q : B → Prop) l l' :
  (∀ x y, P x → f x = Some y → Q y) → Forall P l → mapM f l = Some l' → Forall Q l'.
Proof.
  intros Hf Hl Hm. apply mapM_Some_1 in Hm. revert Hl.
  induction Hm; intros Hl; inversion Hl; constructor; eauto.
Qed.

(** Take a structure that was read apart into its fields, which are in range. *)
Ltac open_struct Hv H :=
  match type of H with
  | context [struct ?names ?v] =>
      let fields := fresh "fields" in let E := fresh "E" in
      destruct (struct names v) as [fields|] eqn:E; [|discriminate H];
      apply (struct_ok _ _ _ Hv) in E;
      repeat (destruct fields as [|? fields]; try discriminate H);
      bind_inv; simplify_eq;
      repeat match goal with
      | HF : Forall field_ok (_ :: _) |- _ => apply Forall_cons_1 in HF as [? HF]
      | Hf : field_ok ?f, Hr : required Whole ?f = Some _ |- _ =>
          apply (required_ok Whole is_u64 Whole_ok f _ Hf) in Hr
      | Hf : field_ok ?f, Hr : optional_field Whole ?f = Some _ |- _ =>
          apply (optional_field_ok Whole is_u64 Whole_ok f _ Hf) in Hr
      end
  end.

(** ** The structures *)

Lemma IpAnswer_ok v x : value_ok v = true → IpAnswer_read v = Some x → is_u64 (answer_asn x).
Proof. unfold IpAnswer_read. intros Hv H. open_struct Hv H. done. Qed.

Definition NoticesAnswer_ok (n : NoticesAnswer) : Prop :=
  is_u64 (answer_pms n) ∧ is_u64 (answer_tickets n) ∧ is_u64 (answer_waiting_tickets n) ∧
  is_u64 (answer_requests n) ∧ is_u64 (answer_topics n) ∧ is_u64 (answer_about_to_drop_client n).

Lemma NoticesAnswer_read_ok v x : value_ok v = true → NoticesAnswer_read v = Some x → NoticesAnswer_ok x.
Proof. unfold NoticesAnswer_read. intros Hv H. open_struct Hv H. split_and!; done. Qed.

Lemma notices_ok n m : NoticesAnswer_ok n → notices n = Some m → MamNotices_ok m.
Proof.
  intros (?&?&?&?&?&?). unfold notices. intros Hn. bind_inv.
  split_and!; simpl; (eapply count_ok; [|eassumption]); assumption.
Qed.

Lemma Counted_ok v n : value_ok v = true → Counted v = Some n → is_u64 n.
Proof. unfold Counted. intros Hv H. open_struct Hv H. done. Qed.

Lemma Limited_ok v x :
  value_ok v = true → Limited_read v = Some x → is_u64 (limited_count x) ∧ is_u64 (limited_limit x).
Proof. unfold Limited_read. intros Hv H. open_struct Hv H. done. Qed.

Lemma RedEntry_ok v x : value_ok v = true → RedEntry_read v = Some x → is_u64 (red_entry_count x).
Proof. unfold RedEntry_read. intros Hv H. open_struct Hv H. done. Qed.

Definition SearchResult_ok (r : SearchResult) : Prop :=
  is_u64 (result_id r) ∧ is_u64 (result_vip_expire r) ∧ opt_ok is_u64 (result_bookmarked r).

Lemma SearchResult_read_ok v x : value_ok v = true → SearchResult_read v = Some x → SearchResult_ok x.
Proof. unfold SearchResult_read. intros Hv H. open_struct Hv H. done. Qed.

Lemma SearchAnswer_ok v x :
  value_ok v = true → SearchAnswer_read v = Some x →
  is_u64 (search_found x) ∧ opt_ok (Forall SearchResult_ok) (search_data x).
Proof.
  unfold SearchAnswer_read. intros Hv H. open_struct Hv H. split; [done|].
  eapply (optional_field_ok (read_list SearchResult_read)); [| |eassumption]; [|assumption].
  intros. eapply read_list_ok; [apply SearchResult_read_ok|done..].
Qed.

Lemma BonusEntry_ok v x : value_ok v = true → BonusEntry_read v = Some x → opt_ok is_u64 (bonus_tid x).
Proof. unfold BonusEntry_read. intros Hv H. open_struct Hv H. done. Qed.

(** An object whose entries are in range. *)
Definition map_ok (m : Map) : Prop := ∀ k v, m !! k = Some v → value_ok v = true.

Definition AccountAnswer_ok (a : AccountAnswer) : Prop :=
  is_u64 (account_uploaded_bytes a) ∧ is_u64 (account_downloaded_bytes a) ∧
  is_u64 (account_wedges a) ∧ opt_ok map_ok (account_snatch_summary a) ∧
  opt_ok NoticesAnswer_ok (account_notifs a).

Lemma AccountAnswer_read_ok v x : value_ok v = true → AccountAnswer_read v = Some x → AccountAnswer_ok x.
Proof.
  unfold AccountAnswer_read. intros Hv H. open_struct Hv H. split_and!; [done..| |].
  - eapply (optional_field_ok read_map); [| |eassumption]; [|assumption].
    intros w m Hw Hm k y Hy. by eapply read_map_ok.
  - eapply (optional_field_ok NoticesAnswer_read); [| |eassumption]; [|assumption]. apply NoticesAnswer_read_ok.
Qed.

(** ** The answers *)

Lemma Points_ok x p : Points_from_balance x = Some p → is_u64 p.
Proof. intros [_ <-]%then_some_Some. by apply floor_to_width. Qed.

Lemma UserClass_parse_ok name class : UserClass_parse name = Some class → UserClass_ok class.
Proof.
  unfold UserClass_parse. cbv zeta. destruct (named _ _) eqn:E.
  - intros [= ->]. apply find_map_Some in E as (p & Hp & E). apply then_some_Some in E as [_ <-].
    rewrite !elem_of_cons, elem_of_nil in Hp. by repeat destruct Hp as [->|Hp].
  - intros (other & Ho & ->)%fmap_Some. by eapply try_new_text_ok.
Qed.

Lemma unix_ok seconds time : unix seconds = Some time → time_ok time.
Proof. unfold unix, time_ok. intros [-> ?]%checked_add_Some. lia. Qed.

Lemma non_zero_ok max n k : non_zero max n = Some k → 1 ≤ k ≤ max.
Proof. unfold non_zero. case_match; [|done]. intros [= <-]. reflect_bools. lia. Qed.

Lemma red_category_ok key v o :
  value_ok v = true → red_category key v = Some o → opt_ok RedCategory_ok o.
Proof.
  intros Hv. unfold red_category. destruct v as [| | | | |fields]; try by intros [= <-].
  case_match; [by intros [= <-]|].
  intros (entry & He & (n & Hn & Ho)%bind_Some)%bind_Some.
  apply RedEntry_ok in He; [|done]. pose proof (count_ok _ _ He Hn) as [Hlow Hhigh].
  destruct (_ || _) eqn:Hb; [by simplify_eq|]. apply orb_false_iff in Hb as [_ Hz].
  unfold TorrentCount_is_zero in Hz. reflect_bools.
  apply bind_Some in Ho as (name & Hname & [= <-]). intros c [= <-].
  split; simpl; [by eapply try_new_text_ok|lia].
Qed.

Lemma red_categories_ok m l : map_ok m → red_categories m = Some l → Forall RedCategory_ok l.
Proof.
  intros Hm. unfold red_categories. intros (found & Hf & ->)%fmap_Some.
  apply (mapM_ok _ (λ p, value_ok p.2 = true) (opt_ok RedCategory_ok)) in Hf.
  - induction Hf as [|[c|] found Hc Hf IH]; simpl; [constructor| |done]. constructor; [by apply Hc|done].
  - intros [k v] o Hv. by apply red_category_ok.
  - apply List.Forall_forall. intros [k v] Hin%list_elem_of_In%elem_of_bt_items. by eapply Hm.
Qed.

Lemma entry_ok {T} (read : Reader T) (P : T → Prop) m name x :
  (∀ v x, value_ok v = true → read v = Some x → P x) →
  map_ok m → entry read m name = Some x → P x.
Proof. intros Hr Hm. unfold entry. intros (v & Hv & Hx)%bind_Some. eapply Hr; [by eapply Hm|done]. Qed.

Lemma snatch_summary_ok m s : map_ok m → snatch_summary m = Some s → SnatchSummary_ok s.
Proof.
  intros Hm. unfold snatch_summary, Counted_torrents. intros H. bind_inv.
  repeat match goal with
  | Hr : entry Counted m _ = Some _ |- _ => apply (entry_ok _ _ _ _ _ Counted_ok Hm) in Hr
  | Hr : entry Limited_read m _ = Some _ |- _ =>
      apply (entry_ok _ _ _ _ _ Limited_ok Hm) in Hr as [? ?]
  end.
  split_and!; simpl; try (eapply count_ok; [|eassumption]; assumption).
  by eapply red_categories_ok.
Qed.

Lemma qbittorrent_version_ok text v : qbittorrent_version text = Some v → ClientVersion_ok v.
Proof.
  unfold qbittorrent_version, named_version, peer_version. intros H.
  repeat (case_match; simplify_option_eq); by eapply parse_version_ok.
Qed.

Lemma clients_ok v l : clients v = Some l → Forall ListedClient_ok l.
Proof.
  assert (∀ entry, ListedClient_ok (listed_client entry)) as He.
  { intros entry v' Hv. simpl in Hv. apply find_map_Some in Hv as (field & _ & Hv).
    bind_inv. by eapply qbittorrent_version_ok. }
  destruct v as [| | | |values|fields]; try discriminate; intros [= <-];
    apply List.Forall_forall; intros c (w & <- & _)%in_map_iff; apply He.
Qed.

Lemma bookmark_ok r m : SearchResult_ok r → bookmark r = Some m → Bookmark_ok m.
Proof.
  intros (Hi & He & Hb). unfold bookmark. intros H. apply bind_Some in H as (vip & Hvip & H). bind_inv.
  split; [|split; [|split]]; simpl.
  - match goal with Hi : MamTorrentId_new _ = Some _ |- _ => exact (non_zero_ok _ _ _ Hi) end.
  - by eapply try_new_text_ok.
  - destruct (result_vip r); [|by simplify_eq]. case_match; [by simplify_eq|].
    apply fmap_Some in Hvip as (time & Ht & ->). by eapply unix_ok.
  - eapply (traverse_ok _ (λ _, True)); [|done|eassumption]. intros s time _. apply unix_ok.
Qed.

Lemma wedge_spent_ok e w : wedge_spent e = Some w → WedgeSpent_ok w.
Proof.
  unfold wedge_spent. intros H. bind_inv. split; simpl;
    [match goal with Hi : MamTorrentId_new _ = Some _ |- _ => exact (non_zero_ok _ _ _ Hi) end|].
  match goal with Hd : try_from_secs_f64 _ = Some _ |- _ => apply try_from_secs_f64_nonneg in Hd end.
  match goal with Hc : checked_add _ _ = Some _ |- _ => apply checked_add_Some in Hc as [-> ?] end. lia.
Qed.

Lemma rotated_cookie_ok headers sent new :
  rotated_cookie headers sent = Some new → ApiCookie_ok new ∧ sent ≠ Some new.
Proof.
  unfold rotated_cookie. intros (value & _ & Hv)%find_map_Some.
  apply opt_filter_Some in Hv as [Hc Hd]. reflect_bools. split; [|by intros ->].
  unfold cookie_of in Hc. bind_inv. destruct (ApiCookie_parse _) as [c|] eqn:E; [|done].
  simplify_eq/=. by apply ApiCookie_parse_ok in E as [? _].
Qed.

Lemma read_hash_ok sha1 input file :
  TorrentFile.read sha1 input = Some file → TorrentHash_ok (TorrentFile.file_hash file).
Proof.
  unfold TorrentFile.read. intros H. apply bind_Some in H as ([v rest] & _ & H).
  destruct (negb _); [done|]. destruct v; try done. apply bind_Some in H as ([[k i] e] & _ & H).
  destruct i; try done. bind_inv. simpl. by eapply TorrentHash_parse_ok.
Qed.

Section understood.
Context (lib : MamLibrary).
Hypothesis lib_ok : MamLibraryOk lib.
Abbreviation reads := (json (mam_json lib)) (only parsing).

Lemma json_ok {T} (read : Reader T) (P : T → Prop) body x :
  (∀ v x, value_ok v = true → read v = Some x → P x) → reads read body = Some x → P x.
Proof.
  intros Hr. unfold json. intros (v & Hv & Hx)%bind_Some. eapply Hr; [|done].
  by eapply json_in_range.
Qed.

Lemma ip_observation_ok body o : ip_observation (mam_json lib) body = Some o → IpObservation_ok o.
Proof.
  unfold ip_observation. intros (a & Ha & (asn & Hn & [= <-])%bind_Some)%bind_Some.
  apply (json_ok _ _ _ _ IpAnswer_ok) in Ha. split; [by eapply count_ok|].
  intros name (n & _ & Hname)%bind_Some. by eapply try_new_text_ok.
Qed.

Lemma user_data_ok body d : user_data (mam_json lib) (mam_date lib) body = Some d → UserData_ok d.
Proof.
  unfold user_data. intros (a & Ha & H)%bind_Some.
  apply (json_ok _ _ _ _ AccountAnswer_read_ok) in Ha as (? & ? & ? & Hs & Hn). bind_inv.
  split; [done|]. split; [done|]. split; [by eapply Points_ok|]. split; [by eapply count_ok|].
  split; [by eapply UserClass_parse_ok|]. split; [|split; [|split]]; simpl.
  - eapply (traverse_ok _ (λ _, True)); [|done|eassumption].
    intros text time _. by apply date_in_range.
  - eapply (traverse_ok _ map_ok); [|done|eassumption]. intros m s. apply snatch_summary_ok.
  - eapply (traverse_ok _ NoticesAnswer_ok); [|done|eassumption]. intros m s. apply notices_ok.
  - eapply (traverse_ok _ (λ _, True)); [|done|eassumption]. intros v l _. apply clients_ok.
Qed.

Lemma bookmark_page_ok body page :
  bookmark_page (mam_json lib) body = Some page →
  is_u32 (page_found page) ∧ Forall Bookmark_ok (page_bookmarks page).
Proof.
  unfold bookmark_page. intros (a & Ha & (n & Hn & (results & Hr & H)%bind_Some)%bind_Some)%bind_Some.
  apply (json_ok _ _ _ _ SearchAnswer_ok) in Ha as [Hf Hd]. bind_inv. split; simpl.
  - by eapply count_ok.
  - eapply (mapM_ok _ SearchResult_ok); [apply bookmark_ok| |eassumption].
    destruct (search_data a) as [l|]; [simplify_eq; by apply Hd|]. case_match; by simplify_eq.
Qed.

Lemma wedge_history_ok body l : wedge_history (mam_json lib) body = Some l → Forall WedgeSpent_ok l.
Proof.
  unfold wedge_history. intros (entries & _ & H)%bind_Some.
  eapply (mapM_ok _ (λ _, True)); [|by apply List.Forall_forall|exact H].
  intros e w _. apply wedge_spent_ok.
Qed.

Lemma purchase_ok body reply :
  purchase (mam_json lib) body = Ok reply → ∃ points, reply = MamReply_Purchased points ∧ is_u64 points.
Proof.
  unfold purchase. destruct (json _ _ _) as [a|]; [|done]. case_match; [done|].
  destruct (store_seedbonus a ≫= _) as [p|] eqn:E; [|done]. intros [= <-].
  apply bind_Some in E as (x & _ & E). exists p. split; [done|by eapply Points_ok].
Qed.

Lemma registration_reply status body reply :
  registration (mam_json lib) status body = Ok reply →
  is_success status = true ∧ ∃ r ip, reply = MamReply_Registered r ip.
Proof.
  unfold registration, is_success. cbv zeta. do 2 (case_match; [done|]).
  destruct (named _ _); [|done]. destruct (_ ≫= seedbox_ip); [|done]. intros [= <-].
  apply negb_false_iff in H0. split; [done|eauto].
Qed.

(** A reply is read only of a success that does not refuse the session. *)
Lemma interpret_ok request status retry body reply file :
  interpret lib request status retry body = (Ok reply, file) →
  signed_out body = false ∧ is_success status = true ∧
  fits request reply = true ∧ MamReply_ok reply ∧
  match reply with
  | MamReply_Fetched fetched =>
      file = Some body ∧ TorrentFile.read (mam_sha1 lib) body
        = Some (TorrentFile.mkTorrentFile (fetched_hash fetched) (fetched_size fetched))
  | _ => file = None
  end.
Proof.
  unfold interpret. cbv zeta. destruct (signed_out body); [done|]. case_match; [done|].
  destruct request; try (destruct (is_success status) eqn:Hs; simpl; [|done]); unfold or_malformed.
  - destruct (ip_observation _ _) eqn:E; [|done]. intros [= <- <-]. simpl.
    split_and!; [done..|apply (ip_observation_ok _ _ E)|done].
  - intros [= Hr <-]. apply registration_reply in Hr as (Hs & r & ip & ->). by split_and!.
  - destruct (user_data _ _ _) eqn:E; [|done]. intros [= <- <-]. simpl.
    split_and!; [done..|apply (user_data_ok _ _ E)|done].
  - destruct (bookmark_page _ _) eqn:E; [|done]. intros [= <- <-]. simpl.
    split_and!; [done..| | |done]; apply (bookmark_page_ok _ _ E).
  - destruct (TorrentFile.read _ _) as [[h n]|] eqn:E; [|done]. intros [= <- <-]. simpl.
    split_and!; try done; apply (read_hash_ok _ _ _ E).
  - intros [= Hr <-]. apply purchase_ok in Hr as (p & -> & Hp). by split_and!.
  - destruct (wedge_history _ _) eqn:E; [|done]. intros [= <- <-]. simpl.
    split_and!; [done..|apply (wedge_history_ok _ _ E)|done].
  - destruct (bookmark_page _ _) as [page|] eqn:E; [|done]. intros [= <- <-]. simpl.
    destruct (bookmark_page_ok _ _ E) as [_ Hb]. rewrite List.Forall_forall in Hb.
    destruct (List.find _ _) as [m|] eqn:Ef; simpl; [|by split_and!].
    apply List.find_some in Ef as [Hin Hid]. split_and!; try done.
    intros x [= <-]. by apply Hb.
Qed.
End understood.

(** ** The theorems *)


(** MAM was asked and answered so. *)
Definition answered (client : option Client) (request : MamRequest) (cookie : option ApiCookie)
    (serve : HttpRequest → option HttpAnswer) (P : HttpAnswer → bytes → Prop) : Prop :=
  ∃ sent response, outgoing client request cookie = Ok sent ∧ serve sent = Some response ∧
    P response (default [] (http_body response)).

(** What each failure says of MAM's answer. *)
Definition cause (lib : MamLibrary) (client : option Client) (request : MamRequest)
    (cookie : option ApiCookie) (serve : HttpRequest → option HttpAnswer) (failure : MamFailure)
    : Prop :=
  let answered := answered client request cookie serve in
  match failure with
  | MamFailure_Unreachable =>
      client = None ∨ ∃ sent, outgoing client request cookie = Ok sent ∧ serve sent = None
  | MamFailure_Session why =>
      (why = SessionRejection_InvalidCookie ∧ MamRequest_needs_cookie request = true ∧ cookie = None) ∨
      answered (λ response body, signed_out body = true ∨
        (request = MamRequest_RegisterSeedbox ∧ http_status response = 403))
  | MamFailure_TooSoon after =>
      answered (λ response _, http_status response = 429 ∧ after = retry_after (http_retry_after response))
  | MamFailure_Rejected status =>
      answered (λ response _, http_status response = status ∧ is_success status = false ∧ status ≠ 429)
  | MamFailure_Refused message =>
      answered (λ response body, is_success (http_status response) = true ∧
        ((∃ what store, request = MamRequest_Buy what ∧
            json (mam_json lib) StoreAnswer_read body = Some store ∧ store_success store = false) ∨
         (∃ id wedge, request = MamRequest_FetchTorrent id wedge ∧
            TorrentFile.read (mam_sha1 lib) body = None)))
  | MamFailure_Malformed =>
      answered (λ response _, is_success (http_status response) = true ∧
        ∀ id wedge, request ≠ MamRequest_FetchTorrent id wedge)
  | MamFailure_NotKept => False
  end.

Lemma purchase_failure parse body failure :
  purchase parse body = Err failure →
  failure = MamFailure_Malformed ∨
  ∃ store message, failure = MamFailure_Refused message ∧
    json parse StoreAnswer_read body = Some store ∧ store_success store = false.
Proof.
  unfold purchase. destruct (json _ _ _) as [store|]; [|intros [= <-]; by left].
  destruct (store_success store) eqn:Hs; simpl.
  - destruct (_ ≫= Points_from_balance); [done|]. intros [= <-]. by left.
  - intros [= <-]. right. eauto.
Qed.

Lemma registration_failure parse status body failure :
  registration parse status body = Err failure →
  (status = 403 ∧ ∃ why, failure = MamFailure_Session why) ∨
  (is_success status = false ∧ failure = MamFailure_Rejected status) ∨
  (is_success status = true ∧ failure = MamFailure_Malformed).
Proof.
  unfold registration, is_success. cbv zeta. case_match; [intros [= <-]; left; reflect_bools; eauto|].
  destruct ((200 <=? status) && (status <=? 299)); simpl; [|intros [= <-]; right; left; done].
  destruct (named _ _); [destruct (_ ≫= seedbox_ip); [done|]|]; intros [= <-]; right; right; done.
Qed.

Lemma or_malformed_failure {T} (make : T → MamReply) o failure :
  or_malformed make o = Err failure → failure = MamFailure_Malformed.
Proof. destruct o; [done|]. by intros [= <-]. Qed.

Lemma interpret_failure lib request status retry body failure file :
  interpret lib request status retry body = (Err failure, file) →
  match failure with
  | MamFailure_Session _ =>
      signed_out body = true ∨ (request = MamRequest_RegisterSeedbox ∧ status = 403)
  | MamFailure_TooSoon after => status = 429 ∧ after = retry
  | MamFailure_Rejected s => status = s ∧ is_success s = false ∧ s ≠ 429
  | MamFailure_Refused _ => is_success status = true ∧
      ((∃ what store, request = MamRequest_Buy what ∧
          json (mam_json lib) StoreAnswer_read body = Some store ∧ store_success store = false) ∨
       (∃ id wedge, request = MamRequest_FetchTorrent id wedge ∧
          TorrentFile.read (mam_sha1 lib) body = None))
  | MamFailure_Malformed => is_success status = true ∧
      ∀ id wedge, request ≠ MamRequest_FetchTorrent id wedge
  | _ => False
  end.
Proof.
  unfold interpret. cbv zeta. destruct (signed_out body); [intros [= <- _]; by left|].
  destruct (status =? 429) eqn:H429; reflect_bools; [by intros [= <- _]|].
  destruct request; try (destruct (is_success status) eqn:Hs; simpl; [|by intros [= <- _]]);
    intros H; try (injection H as H _; apply or_malformed_failure in H as ->; done).
  - injection H as H _.
    apply registration_failure in H as [[-> [why ->]]|[[? ->]|[? ->]]]; [by right|done|done].
  - destruct (TorrentFile.read _ _) eqn:E; [done|]. simplify_eq. split; [done|]. right. eauto.
  - injection H as H _.
    apply purchase_failure in H as [->|(store & message & -> & Hj & Hf)]; [done|].
    split; [done|]. left. eauto.
Qed.


(** A fetch whose answer breaks off counts as refused, which the core takes for MAM's
    word that it did not act. *)
Lemma lost_torrent_counts_as_refused lib id wedge retry :
  interpret lib (MamRequest_FetchTorrent id wedge) 200 retry [] = (Err (MamFailure_Refused None), None)
  ∧ MamFailure_uncertain (MamFailure_Refused None) = false.
Proof. done. Qed.

(** ** Requests *)

Definition request_in_range (request : MamRequest) : Prop :=
  match request with
  | MamRequest_ListBookmarks start => is_u32 start
  | MamRequest_FetchTorrent id _ | MamRequest_LookUpTorrent id => is_u64 id
  | _ => True
  end.

Lemma show_inj n k : 0 ≤ n → 0 ≤ k → show n = show k → n = k.
Proof.
  unfold show. intros Hn Hk H. apply (f_equal b) in H. rewrite !b_t in H.
  pose proof (parse_print_unsigned (n + k) n ltac:(lia)) as E.
  rewrite H, parse_print_unsigned in E by lia. congruence.
Qed.

Lemma build_inj client request request' :
  client_ip client ≠ client_seedbox client →
  request_in_range request → request_in_range request' →
  build client request = build client request' → request = request'.
Proof.
  intros Hne Hr Hr' H.
  destruct request as [| |[]|start|id []|[]| |id], request' as [| |[]|start'|id' []|[]| |id'];
    try reflexivity; try discriminate H; try (exfalso; injection H; congruence);
    injection H as H; simpl in *; unfold in_width in *;
    apply show_inj in H; try lia; by subst.
Qed.

(** Two requests that differ in their cookies alone. *)
Definition same_but_cookie (x y : HttpRequest) : Prop :=
  http_method x = http_method y ∧ http_url x = http_url y ∧ http_query x = http_query y ∧
  http_json x = http_json y ∧ http_user_agent x = http_user_agent y ∧ http_timeout x = http_timeout y.

(** C14: a request to MAM carries the core's choice and nothing more. It goes to a path of
    one of MAM's two hosts under Windlass's name; it spends a wedge or buys exactly when
    the core chose that, and no two choices make the same request; the API cookie is in
    the cookie header and nowhere else, and the IP lookup is sent without it. *)
Theorem requests_carry_the_choice lib hosts client request cookie sent :
  Client_new lib hosts = Some client →
  outgoing (Some client) request cookie = Ok sent →
  (∃ host path, (host = host_site hosts ∨ host = host_tracker hosts) ∧
     mam_join lib host path = Some (http_url sent)) ∧
  http_user_agent sent = USER_AGENT ∧
  ("fl"%string ∈ (http_query sent).*1 ↔ ∃ id, request = MamRequest_FetchTorrent id Wedge_Spend) ∧
  ("spendtype"%string ∈ (http_query sent).*1 ↔ ∃ what, request = MamRequest_Buy what) ∧
  (http_cookie sent = if MamRequest_needs_cookie request
                      then (λ c, "mam_id=" +:+ c)%string <$> cookie else None) ∧
  (∀ other sent', outgoing (Some client) request other = Ok sent' → same_but_cookie sent sent') ∧
  (∀ request' sent', client_ip client ≠ client_seedbox client →
     request_in_range request → request_in_range request' →
     outgoing (Some client) request' cookie = Ok sent' → same_but_cookie sent sent' → request = request').
Proof.
  intros Hc Ho.
  assert (∀ request other sent, outgoing (Some client) request other = Ok sent →
    same_but_cookie sent (build client request) ∧
    http_cookie sent = if MamRequest_needs_cookie request
                       then (λ c, "mam_id=" +:+ c)%string <$> other else None) as Hsent.
  { intros r o s. unfold outgoing. destruct (MamRequest_needs_cookie r) eqn:Hn; [destruct o; [|done]|];
      intros [= <-]; repeat split; by destruct r as [| | | | |[]| |]. }
  destruct (Hsent _ _ _ Ho) as [(Hm & Hu & Hq & Hj & Ha & Ht) Hcookie].
  split; [|split; [|split; [|split; [|split; [exact Hcookie|split]]]]].
  - rewrite Hu. unfold Client_new in Hc. bind_inv.
    destruct request as [| | | | |[]| |]; simpl; eauto 6.
  - rewrite Ha. by destruct request as [| | | | |[]| |].
  - rewrite Hq. destruct request as [| |[]| |id []|[]| |]; simpl;
      rewrite ?elem_of_cons, ?elem_of_nil; split; intros H; destruct_or?; try done; try naive_solver; eauto.
  - rewrite Hq. destruct request as [| |[]| |id []|[]| |]; simpl;
      rewrite ?elem_of_cons, ?elem_of_nil; split; intros H; destruct_or?; try done; try naive_solver; eauto.
  - intros o s' Hs'. apply Hsent in Hs' as [(?&?&?&?&?&?) _]. repeat split; congruence.
  - intros r s' Hne Hr Hr' Hs' (?&?&?&?&?&?). apply Hsent in Hs' as [(?&?&?&?&?&?) _].
    apply (build_inj client); [done..|].
    assert (∀ q, http_cookie (build client q) = None) as Hnone by (by intros [| | | | |[]| |]).
    pose proof (Hnone request). pose proof (Hnone r).
    destruct (build client request), (build client r); simpl in *. congruence.
Qed.

(** ** A request that is answered *)

Definition sample_document : Value := Value_Object
  [("success", Value_Bool true); ("seedbonus", Value_String " 12500.75 ")]%string.
Definition sample_library : MamLibrary := {|
  mam_json := λ body, if body ==? b "{success}" then Some sample_document else None;
  mam_date := λ _, None;
  mam_join := λ host path, Some (host +:+ path)%string;
  mam_sha1 := λ _, repeat "000"%char 20;
|}.
Definition sample_hosts : MamHosts :=
  mkMamHosts "https://www.myanonamouse.net/" "https://t.myanonamouse.net/"%string.
Definition sample_client : Client :=
  default (mkClient "" "" "" "" "" "" "") (Client_new sample_library sample_hosts).
Definition sample_serve (request : HttpRequest) : option HttpAnswer :=
  Some (mkHttpAnswer 200 [Some "mam_id=rotated; Path=/"%string] None (Some (b "{success}"))).

Lemma sample_library_ok : MamLibraryOk sample_library.
Proof.
  split; [|done]. intros body v. simpl. case_bool_decide; [|done]. by intros [= <-].
Qed.

Definition sample_answer : MamAnswer :=
  perform sample_library (Some sample_client) (MamRequest_Buy Purchase_Vip) (Some "session"%string) sample_serve.



Lemma requests_carry_the_choice_witness :
  ∃ sent, outgoing (Some sample_client) (MamRequest_FetchTorrent 42 Wedge_Spend) (Some "session"%string)
            = Ok sent ∧
    http_cookie sent = Some "mam_id=session"%string ∧ "fl"%string ∈ (http_query sent).*1.
Proof.
  destruct (requests_carry_the_choice sample_library sample_hosts sample_client
    (MamRequest_FetchTorrent 42 Wedge_Spend) (Some "session"%string) _ eq_refl eq_refl)
    as (_ & _ & Hfl & _ & Hcookie & _).
  eexists. split; [reflexivity|]. split; [exact Hcookie|]. apply Hfl. by exists 42.
Defined.
