(* ===== verification/Timer.v ===== *)
(** * Timers

    Timer identities and deadlines ([core/timer.rs]). Replacing a timer gives it
    a new identity, so an obsolete expiry is recognised. *)

From S2P Require Import Prelude Values Vocabulary.

Record Timers := mkTimers {
  timers_next : TimerId;
}.

Definition new : Timers := mkTimers 0.

(** [Timers::schedule]: allocate an identity and turn a delay into a deadline. *)
Definition schedule (self : Timers) (now : Instant) (after : Duration)
    : Timers * (TimerId * Deadline) :=
  let id := timers_next self in
  (mkTimers (saturating_add u64_max id 1), (id, mkDeadline (add_or_same now after) after)).

(** An identity is in use when it was allocated before. *)
Definition allocated (self : Timers) (id : TimerId) : Prop := id < timers_next self.

Lemma schedule_spec self now after :
  timers_next self < u64_max →
  ∃ self' dl, schedule self now after = (self', (timers_next self, dl))
    ∧ timers_next self' = timers_next self + 1
    ∧ deadline_after dl = after
    ∧ deadline_at dl = add_or_same now after.
Proof.
  intros. eexists _, _. split; [reflexivity|]. simpl.
  unfold saturating_add. repeat split; lia.
Qed.

Lemma schedule_id self now after self' id dl :
  schedule self now after = (self', (id, dl)) →
  id = timers_next self ∧ dl = mkDeadline (add_or_same now after) after.
Proof. unfold schedule. by intros; simplify_eq. Qed.

Lemma schedule_mono self now after self' r :
  timers_next self ≤ u64_max →
  schedule self now after = (self', r) → timers_next self ≤ timers_next self' ≤ u64_max.
Proof. unfold schedule. intros; simplify_eq; simpl. unfold saturating_add. lia. Qed.

(** A fresh identity differs from every identity allocated before. *)
Lemma schedule_fresh self now after self' id dl old :
  schedule self now after = (self', (id, dl)) → allocated self old → id ≠ old.
Proof. unfold allocated. intros [-> _]%schedule_id ?. lia. Qed.
#[export] Hint Resolve schedule_fresh : windlass.
