(* ===== verification/MamPause.v ===== *)
(** * The MAM pause

    The core's startup state ([core/machine.rs]) and the user's preference about
    MAM requests: what is requested, what is in force and what storage holds
    ([core/mam_pause.rs]). *)

From S2P Require Import Prelude Values Vocabulary MamApi Messages.

(** ** Data *)

Inductive MamPreferenceUpdate :=
  | MamPreferenceUpdate_Set (mode : MamRequestMode)
  | MamPreferenceUpdate_Delete.
#[global] Instance MamPreferenceUpdate_eq_dec : EqDecision MamPreferenceUpdate.
Proof. solve_decision. Defined.

Inductive MamPreferencePersistence :=
  | MamPreferencePersistence_Idle
  | MamPreferencePersistence_Pending (update : MamPreferenceUpdate)
  | MamPreferencePersistence_Failed.
#[global] Instance MamPreferencePersistence_eq_dec : EqDecision MamPreferencePersistence.
Proof. solve_decision. Defined.

Inductive MamRequestsStatus :=
  | MamRequestsStatus_Starting
  | MamRequestsStatus_StartupFailed
  | MamRequestsStatus_Running
  | MamRequestsStatus_Paused
  | MamRequestsStatus_PausePending
  | MamRequestsStatus_PauseNotSaved
  | MamRequestsStatus_ResumePending
  | MamRequestsStatus_ResumeNotSaved.
#[global] Instance MamRequestsStatus_eq_dec : EqDecision MamRequestsStatus.
Proof. solve_decision. Defined.

Record MamPreferenceState := mkMamPreferenceState {
  preference_saved : option MamRequestMode;
  preference_requested : MamPreferenceUpdate;
  preference_effective : MamRequestMode;
  preference_persistence : MamPreferencePersistence;
}.
#[global] Instance MamPreferenceState_eq_dec : EqDecision MamPreferenceState.
Proof. solve_decision. Defined.

(** The state of the core's startup ([State] in [core/machine.rs]). *)
Inductive State :=
  | State_NotStarted
  | State_OpeningStorage (requested : option MamPreferenceUpdate)
  | State_ReadingMamPreference (requested : option MamPreferenceUpdate)
  | State_Ready (preference : MamPreferenceState)
  | State_Failed.
#[global] Instance State_eq_dec : EqDecision State.
Proof. solve_decision. Defined.

Inductive MamPreferenceCompletion :=
  | MamPreferenceCompletion_Written
  | MamPreferenceCompletion_WriteFailed
  | MamPreferenceCompletion_Deleted
  | MamPreferenceCompletion_DeleteFailed.

(** ** Operations *)

Definition update_stored (u : MamPreferenceUpdate) : option MamRequestMode :=
  match u with
  | MamPreferenceUpdate_Set mode => Some mode
  | MamPreferenceUpdate_Delete => None
  end.

Definition update_mode (u : MamPreferenceUpdate) : MamRequestMode :=
  match u with
  | MamPreferenceUpdate_Set mode => mode
  | MamPreferenceUpdate_Delete => MamRequestMode_Paused
  end.

Definition update_action (u : MamPreferenceUpdate) : Action :=
  match u with
  | MamPreferenceUpdate_Set mode => Action_WriteMamRequestMode mode
  | MamPreferenceUpdate_Delete => Action_DeleteMamRequestMode
  end.

Definition State_has_failed (s : State) : bool :=
  match s with
  | State_Failed => true
  | State_Ready p => preference_persistence p ==? MamPreferencePersistence_Failed
  | _ => false
  end.

Definition requests_status_requested (s : MamRequestsStatus) : option MamRequestMode :=
  match s with
  | MamRequestsStatus_Starting | MamRequestsStatus_StartupFailed => None
  | MamRequestsStatus_Running | MamRequestsStatus_ResumePending
  | MamRequestsStatus_ResumeNotSaved => Some MamRequestMode_Enabled
  | MamRequestsStatus_Paused | MamRequestsStatus_PausePending
  | MamRequestsStatus_PauseNotSaved => Some MamRequestMode_Paused
  end.

(** [MamPreferenceState::status]: judged by the latest request. *)
Definition preference_status (self : MamPreferenceState) : MamRequestsStatus :=
  match update_mode (preference_requested self), preference_persistence self with
  | MamRequestMode_Paused, MamPreferencePersistence_Pending _ => MamRequestsStatus_PausePending
  | MamRequestMode_Paused, MamPreferencePersistence_Failed => MamRequestsStatus_PauseNotSaved
  | MamRequestMode_Enabled, MamPreferencePersistence_Pending _ => MamRequestsStatus_ResumePending
  | MamRequestMode_Enabled, MamPreferencePersistence_Failed => MamRequestsStatus_ResumeNotSaved
  | _, MamPreferencePersistence_Idle =>
      match preference_effective self with
      | MamRequestMode_Paused => MamRequestsStatus_Paused
      | MamRequestMode_Enabled => MamRequestsStatus_Running
      end
  end.

(** [State::mam_requests] *)
Definition mam_requests (s : State) : MamRequestsStatus :=
  match s with
  | State_NotStarted | State_OpeningStorage _ | State_ReadingMamPreference _ =>
      MamRequestsStatus_Starting
  | State_Failed => MamRequestsStatus_StartupFailed
  | State_Ready preference => preference_status preference
  end.

(** [MamPreferenceState::update_mam_preference] *)
Definition preference_update (self : MamPreferenceState) (change : MamPreferenceUpdate)
    : MamPreferenceState * list Action :=
  let self := {| self with preference_requested := change |} in
  let self :=
    if update_mode change ==? MamRequestMode_Paused
    then {| self with preference_effective := MamRequestMode_Paused |} else self in
  match preference_persistence self with
  | MamPreferencePersistence_Pending _ => (self, [])
  | _ =>
      if update_stored change ==? preference_saved self then
        ({| self with preference_effective := update_mode change;
                      preference_persistence := MamPreferencePersistence_Idle |}, [])
      else
        ({| self with preference_persistence := MamPreferencePersistence_Pending change |},
         [update_action change])
  end.

(** Whether a completion answers the pending update, and with success. *)
Definition completion_success (pending : MamPreferenceUpdate)
    (completion : MamPreferenceCompletion) : option bool :=
  match pending, completion with
  | MamPreferenceUpdate_Set _, MamPreferenceCompletion_Written
  | MamPreferenceUpdate_Delete, MamPreferenceCompletion_Deleted => Some true
  | MamPreferenceUpdate_Set _, MamPreferenceCompletion_WriteFailed
  | MamPreferenceUpdate_Delete, MamPreferenceCompletion_DeleteFailed => Some false
  | _, _ => None
  end.

(** [MamPreferenceState::complete] *)
Definition preference_complete (self : MamPreferenceState) (completion : MamPreferenceCompletion)
    : MamPreferenceState * list Action :=
  match preference_persistence self with
  | MamPreferencePersistence_Pending pending =>
      match completion_success pending completion with
      | None => (self, [])
      | Some success =>
          let self :=
            {| self with
               preference_saved :=
                 if success then update_stored pending else preference_saved self;
               preference_persistence :=
                 if success then MamPreferencePersistence_Idle
                 else MamPreferencePersistence_Failed;
               preference_effective :=
                 if success && (pending ==? preference_requested self)
                 then update_mode pending else MamRequestMode_Paused |} in
          if pending !=? preference_requested self
          then preference_update self (preference_requested self)
          else (self, [])
      end
  | _ => (self, [])
  end.

(** [update_mam_preference] *)
Definition update_mam_preference (state : State) (change : MamPreferenceUpdate)
    : State * list Action :=
  match state with
  | State_OpeningStorage _ => (State_OpeningStorage (Some change), [])
  | State_ReadingMamPreference _ => (State_ReadingMamPreference (Some change), [])
  | State_Ready preference =>
      let '(preference, actions) := preference_update preference change in
      (State_Ready preference, actions)
  | State_NotStarted | State_Failed => (state, [])
  end.

(** [loaded] *)
Definition loaded (state : State) (saved : option MamRequestMode) : State * list Action :=
  match state with
  | State_ReadingMamPreference requested =>
      let mode := default MamRequestMode_Paused saved in
      let state := State_Ready {|
        preference_saved := saved;
        preference_requested := MamPreferenceUpdate_Set mode;
        preference_effective := if is_some requested then MamRequestMode_Paused else mode;
        preference_persistence := MamPreferencePersistence_Idle |} in
      match requested with
      | Some change => update_mam_preference state change
      | None => (state, [])
      end
  | _ => (state, [])
  end.

(** [complete] *)
Definition complete (state : State) (completion : MamPreferenceCompletion)
    : State * list Action :=
  match state with
  | State_Ready preference =>
      let '(preference, actions) := preference_complete preference completion in
      (State_Ready preference, actions)
  | _ => (state, [])
  end.

(** [mam_pause::handle] *)
Definition handle (state : State) (now : ClockReading) (event : MamPauseEvent)
    : State * list Action :=
  match event with
  | MamPauseEvent_Set mode => update_mam_preference state (MamPreferenceUpdate_Set mode)
  | MamPauseEvent_Delete => update_mam_preference state MamPreferenceUpdate_Delete
  | MamPauseEvent_Read mode => loaded state mode
  | MamPauseEvent_ReadFailed =>
      match state with
      | State_ReadingMamPreference _ => (State_Failed, [])
      | _ => (state, [])
      end
  | MamPauseEvent_Written => complete state MamPreferenceCompletion_Written
  | MamPauseEvent_WriteFailed => complete state MamPreferenceCompletion_WriteFailed
  | MamPauseEvent_Deleted => complete state MamPreferenceCompletion_Deleted
  | MamPauseEvent_DeleteFailed => complete state MamPreferenceCompletion_DeleteFailed
  end.

(** ** The preference is never in force before it is saved *)

(** Requests are enabled only when that is what the owner asked for last, it is
    what storage holds, and nothing is being saved. *)
Definition preference_ok (p : MamPreferenceState) : Prop :=
  preference_effective p = MamRequestMode_Enabled →
  preference_requested p = MamPreferenceUpdate_Set MamRequestMode_Enabled
  ∧ preference_saved p = Some MamRequestMode_Enabled
  ∧ preference_persistence p = MamPreferencePersistence_Idle.

(** An idle preference is settled: what storage holds is what is requested, and
    the mode in force is that mode. *)
Definition preference_settled (p : MamPreferenceState) : Prop :=
  default MamRequestMode_Paused (preference_saved p) = update_mode (preference_requested p)
  ∧ preference_effective p = update_mode (preference_requested p).

Definition preference_inv (p : MamPreferenceState) : Prop :=
  preference_ok p
  ∧ (preference_persistence p = MamPreferencePersistence_Idle → preference_settled p)
  ∧ (preference_persistence p = MamPreferencePersistence_Failed →
     preference_effective p = MamRequestMode_Paused).

Lemma update_mode_stored u : default MamRequestMode_Paused (update_stored u) = update_mode u.
Proof. by destruct u. Qed.

Lemma update_mode_enabled u :
  update_mode u = MamRequestMode_Enabled → u = MamPreferenceUpdate_Set MamRequestMode_Enabled.
Proof. destruct u; simpl; naive_solver. Qed.

Lemma preference_inv_ok p : preference_inv p → preference_ok p.
Proof. by intros []. Qed.
#[export] Hint Resolve preference_inv_ok : windlass.

Lemma preference_update_inv p change p' acts :
  preference_ok p → preference_update p change = (p', acts) → preference_inv p'.
Proof.
  destruct p as [saved req eff pers]. unfold preference_inv, preference_ok, preference_settled.
  intros Hok Hup. unfold preference_update in Hup; simpl in *.
  destruct change as [[]|], pers as [|u|]; simpl in *; repeat case_bool_decide;
    simplify_eq/=; naive_solver.
Qed.

Lemma preference_complete_inv p completion p' acts :
  preference_inv p → preference_complete p completion = (p', acts) → preference_inv p'.
Proof.
  intros Hinv Hc. unfold preference_complete in Hc.
  destruct (preference_persistence p) as [|pending|] eqn:Hpers; simplify_eq; [done| |done].
  destruct (completion_success pending completion) as [success|]; simplify_eq; [|done].
  simpl in Hc. case_bool_decide as Heq; simpl in Hc; simplify_eq.
  - destruct success; simpl; [|by repeat split; unfold preference_ok; simpl].
    unfold preference_inv, preference_ok, preference_settled; simpl.
    split_and!; [|by rewrite update_mode_stored|done].
    intros Hen%update_mode_enabled. by rewrite Hen.
  - eapply preference_update_inv, Hc.
    unfold preference_ok; simpl. by rewrite andb_false_r.
Qed.
#[export] Hint Resolve preference_update_inv preference_complete_inv : windlass.

Lemma preference_running p :
  preference_inv p →
  preference_status p = MamRequestsStatus_Running ↔ preference_effective p = MamRequestMode_Enabled.
Proof.
  intros (Hok & Hidle & Hfail). unfold preference_status.
  split.
  - destruct (update_mode _), (preference_persistence p), (preference_effective p); naive_solver.
  - intros He. destruct (Hok He) as (-> & _ & ->). by rewrite He.
Qed.

(** ** The preference and the database, across failures and restarts *)

(** The core beside the stored preference and the writes it asked for, oldest
    first. A write that fails, or is lost in a crash before it commits, leaves
    the stored preference as it was. *)
Record World := mkWorld {
  world_state : State;
  world_disk : option MamRequestMode;
  world_inflight : list MamPreferenceUpdate;
}.

Inductive Input :=
  | Input_Owner (change : MamPreferenceUpdate)
  | Input_StorageOpened
  | Input_ReadBack
  | Input_ReadFails
  | Input_Complete (success : bool)
  | Input_Restart (committed : bool).

Definition requested_write (a : Action) : option MamPreferenceUpdate :=
  match a with
  | Action_WriteMamRequestMode mode => Some (MamPreferenceUpdate_Set mode)
  | Action_DeleteMamRequestMode => Some MamPreferenceUpdate_Delete
  | _ => None
  end.

Definition completion_event (u : MamPreferenceUpdate) (success : bool) : MamPauseEvent :=
  match u, success with
  | MamPreferenceUpdate_Set _, true => MamPauseEvent_Written
  | MamPreferenceUpdate_Set _, false => MamPauseEvent_WriteFailed
  | MamPreferenceUpdate_Delete, true => MamPauseEvent_Deleted
  | MamPreferenceUpdate_Delete, false => MamPauseEvent_DeleteFailed
  end.

Definition owner_event (change : MamPreferenceUpdate) : MamPauseEvent :=
  match change with
  | MamPreferenceUpdate_Set mode => MamPauseEvent_Set mode
  | MamPreferenceUpdate_Delete => MamPauseEvent_Delete
  end.

Definition deliver (now : ClockReading) (w : World) (event : MamPauseEvent) : World :=
  let '(state, actions) := handle (world_state w) now event in
  {| w with world_state := state;
            world_inflight := world_inflight w ++ omap requested_write actions |}.

Definition world_step (now : ClockReading) (w : World) (input : Input) : World :=
  match input with
  | Input_Owner change => deliver now w (owner_event change)
  | Input_StorageOpened =>
      match world_state w with
      | State_OpeningStorage requested =>
          {| w with world_state := State_ReadingMamPreference requested |}
      | _ => w
      end
  | Input_ReadBack => deliver now w (MamPauseEvent_Read (world_disk w))
  | Input_ReadFails => deliver now w MamPauseEvent_ReadFailed
  | Input_Complete success =>
      match world_inflight w with
      | [] => w
      | u :: rest =>
          deliver now {| w with world_disk := if success then update_stored u else world_disk w;
                                world_inflight := rest |} (completion_event u success)
      end
  | Input_Restart committed =>
      mkWorld (State_OpeningStorage None)
        (match world_inflight w with
         | u :: _ => if committed then update_stored u else world_disk w
         | [] => world_disk w
         end) []
  end.

Definition world_run (now : ClockReading) (w : World) (inputs : list Input) : World :=
  fold_left (world_step now) inputs w.

Definition world_start (disk : option MamRequestMode) : World :=
  mkWorld (State_OpeningStorage None) disk [].

(** What the core believes of storage is what storage holds, and it waits for
    exactly the write it knows to be pending. *)
Definition pending_writes (p : MamPreferenceState) : list MamPreferenceUpdate :=
  match preference_persistence p with
  | MamPreferencePersistence_Pending u => [u]
  | _ => []
  end.

Definition world_inv (w : World) : Prop :=
  match world_state w with
  | State_Ready p =>
      preference_inv p ∧ world_disk w = preference_saved p ∧ world_inflight w = pending_writes p
  | _ => world_inflight w = []
  end.

Lemma preference_update_writes p change p' acts :
  preference_update p change = (p', acts) →
  preference_saved p' = preference_saved p
  ∧ pending_writes p' = pending_writes p ++ omap requested_write acts.
Proof.
  unfold preference_update, pending_writes. intros H.
  destruct change as [[]|], (preference_persistence p) eqn:E; simpl in H;
    rewrite ?E in H; repeat case_bool_decide; simplify_eq/=; rewrite ?E; auto.
Qed.

(** The completion that answers a write. *)
Definition completion_of (u : MamPreferenceUpdate) (success : bool) : MamPreferenceCompletion :=
  match u, success with
  | MamPreferenceUpdate_Set _, true => MamPreferenceCompletion_Written
  | MamPreferenceUpdate_Set _, false => MamPreferenceCompletion_WriteFailed
  | MamPreferenceUpdate_Delete, true => MamPreferenceCompletion_Deleted
  | MamPreferenceUpdate_Delete, false => MamPreferenceCompletion_DeleteFailed
  end.

Lemma handle_completion state now u success :
  handle state now (completion_event u success) = complete state (completion_of u success).
Proof. by destruct u, success. Qed.

Lemma handle_owner state now change :
  handle state now (owner_event change) = update_mam_preference state change.
Proof. by destruct change. Qed.

(** A completion of the pending write leaves the core believing what storage
    then holds. *)
Lemma preference_complete_writes p u success p' acts :
  preference_persistence p = MamPreferencePersistence_Pending u →
  preference_complete p (completion_of u success) = (p', acts) →
  preference_saved p' = (if success then update_stored u else preference_saved p)
  ∧ pending_writes p' = omap requested_write acts.
Proof.
  intros Hp. unfold preference_complete. rewrite Hp.
  assert (completion_success u (completion_of u success) = Some success) as ->
    by (by destruct u, success).
  simpl. intros H. case_bool_decide; simpl in H; simplify_eq/=.
  - by destruct success.
  - apply preference_update_writes in H as [-> ->]. by destruct success.
Qed.

Lemma world_step_inv now w input : world_inv w → world_inv (world_step now w input).
Proof.
  destruct w as [state disk inflight]. unfold world_inv. simpl. intros Hinv.
  destruct input as [change| | | |success|committed]; simpl; [| | | | |done].
  - unfold deliver; rewrite handle_owner; simpl.
    destruct state; simpl in *; try (by rewrite Hinv).
    destruct Hinv as (Hp & -> & ->), (preference_update _ _) as [p' acts] eqn:E; simpl.
    destruct (preference_update_writes _ _ _ _ E) as [-> ->]; eauto with windlass.
  - by destruct state.
  - unfold deliver; simpl. destruct state as [| |requested| |]; simpl in *;
      rewrite ?app_nil_r; try done.
    destruct requested as [change|]; simpl; rewrite Hinv.
    + destruct (preference_update _ _) as [p' acts] eqn:E; simpl.
      destruct (preference_update_writes _ _ _ _ E) as [-> ->].
      split_and!; try done. eapply preference_update_inv, E. by unfold preference_ok; simpl.
    + split_and!; try done.
      unfold preference_inv, preference_ok, preference_settled; simpl.
      split_and!; try done. destruct disk as [[]|]; naive_solver.
  - unfold deliver; simpl. destruct state; simpl in *; rewrite ?app_nil_r; done.
  - destruct inflight as [|u rest]; simpl; [done|].
    destruct state as [| | |p|]; simpl in Hinv; try done.
    destruct Hinv as (Hp & -> & Hpend). unfold pending_writes in Hpend.
    destruct (preference_persistence p) as [|u'|] eqn:Hpers; simplify_eq.
    unfold deliver; rewrite handle_completion; simpl.
    destruct (preference_complete p _) as [p' acts] eqn:E; simpl.
    destruct (preference_complete_writes _ _ _ _ _ Hpers E) as [-> ->].
    eauto with windlass.
Qed.

Lemma world_run_inv now w inputs : world_inv w → world_inv (world_run now w inputs).
Proof.
  unfold world_run. revert w. induction inputs as [|i l IH]; simpl; auto using world_step_inv.
Qed.

(** The dashboard never claims what storage does not hold: from any stored
    preference, after any sequence of owner commands, storage successes and
    failures and restarts, a shown [Running] means the database holds the enabled
    preference and a shown [Paused] means a restart would read back a pause; and
    at most one write is ever outstanding. *)
Theorem pause_status_is_durable now disk inputs :
  let w := world_run now (world_start disk) inputs in
  (mam_requests (world_state w) = MamRequestsStatus_Running →
     world_disk w = Some MamRequestMode_Enabled)
  ∧ (mam_requests (world_state w) = MamRequestsStatus_Paused →
     default MamRequestMode_Paused (world_disk w) = MamRequestMode_Paused)
  ∧ (length (world_inflight w) ≤ 1)%nat.
Proof.
  intros w. assert (world_inv w) as Hinv by (by apply world_run_inv).
  unfold world_inv in Hinv. destruct (world_state w) as [| | |p|]; simpl.
  all: try (rewrite Hinv; simpl; split_and!; [done|done|lia]).
  destruct Hinv as (Hp & Hdisk & ->). rewrite Hdisk. split_and!.
  - intros He%preference_running; [|done]. by apply Hp in He as (_ & ? & _).
  - destruct Hp as (_ & Hidle & _). unfold preference_status.
    destruct (update_mode (preference_requested p)) eqn:Em,
      (preference_persistence p) eqn:Ep; try done; intros He;
      destruct Hidle as [Hs Hf]; try done; rewrite Hs, Em; [done|].
    by rewrite Hf, Em in He.
  - unfold pending_writes. case_match; simpl; lia.
Qed.

(** Pausing is immediate and resuming waits: whatever the core is doing, an
    owner's pause leaves the requests not running at once, and requests start
    running only in a step where the database confirms a write, or when it held
    the enabled preference already. *)
Theorem pause_is_immediate_and_resume_waits now w :
  world_inv w →
  (∀ change, update_mode change = MamRequestMode_Paused →
     mam_requests (world_state (world_step now w (Input_Owner change)))
       ≠ MamRequestsStatus_Running)
  ∧ (∀ input, mam_requests (world_state w) ≠ MamRequestsStatus_Running →
     mam_requests (world_state (world_step now w input)) = MamRequestsStatus_Running →
     input = Input_Complete true
     ∨ world_disk w = Some MamRequestMode_Enabled).
Proof.
  intros Hinv. split.
  - intros change Hm. pose proof (world_step_inv now w (Input_Owner change) Hinv) as Hinv'.
    revert Hinv'. simpl. unfold deliver. rewrite handle_owner.
    destruct w as [[] disk inflight]; simpl; try done.
    destruct (preference_update _ _) as [p' acts] eqn:E. unfold world_inv; simpl.
    intros (Hp' & _) Hr%preference_running; [|done].
    apply Hp' in Hr as (Hreq & _ & _).
    assert (preference_requested p' = change) as Hch.
    { revert E. unfold preference_update; simpl. intros E.
      destruct (preference_persistence _); repeat case_bool_decide; by simplify_eq/=. }
    by rewrite <-Hch, Hreq in Hm.
  - intros input Hno Hyes.
    pose proof (world_step_inv now w input Hinv) as Hinv'.
    destruct (world_state (world_step now w input)) as [| | |p'|] eqn:E'; try done.
    unfold world_inv in Hinv'. rewrite E' in Hinv'. destruct Hinv' as (Hp' & Hdisk' & _).
    apply preference_running in Hyes; [|done]. apply Hp' in Hyes as (_ & Hs & _).
    rewrite Hs in Hdisk'.
    destruct input as [change| | | |[]|]; auto; right; rewrite <-Hdisk'; simpl.
    all: unfold deliver; repeat case_match; by simplify_eq/=.
Qed.

(** Whatever the owner asked for while a write was outstanding is what ends
    up stored and in force: two successful completions suffice, since at most one
    more write follows the outstanding one. *)
Theorem pause_settles_after_two_writes now w p u :
  world_inv w →
  world_state w = State_Ready p →
  preference_persistence p = MamPreferencePersistence_Pending u →
  ∃ p', let w' := world_run now w [Input_Complete true; Input_Complete true] in
    world_state w' = State_Ready p'
    ∧ preference_effective p' = update_mode (preference_requested p)
    ∧ world_disk w' = update_stored (preference_requested p)
    ∧ world_inflight w' = [].
Proof.
  destruct w as [state disk inflight]. unfold world_inv; simpl. intros Hinv -> Hpers.
  destruct Hinv as (Hp & -> & ->), p as [saved req eff pers]; simpl in *; subst pers.
  unfold pending_writes, deliver, preference_complete, preference_update; simpl.
  destruct u as [[]|], req as [[]|]; simpl; eexists; split_and!; reflexivity.
Qed.

(** *** Witnesses *)

Definition clock0 : ClockReading := mkClockReading 0 0.
(** Resuming, and asking for a pause while the resume is being saved. *)
Definition resume_then_pause : World :=
  world_run clock0 (world_start None)
    [Input_StorageOpened; Input_ReadBack;
     Input_Owner (MamPreferenceUpdate_Set MamRequestMode_Enabled);
     Input_Owner (MamPreferenceUpdate_Set MamRequestMode_Paused)].

Lemma resume_then_pause_inv : world_inv resume_then_pause.
Proof. by apply world_run_inv. Qed.

Lemma pause_is_immediate_witness :
  mam_requests (world_state (world_step clock0 resume_then_pause
     (Input_Owner MamPreferenceUpdate_Delete))) ≠ MamRequestsStatus_Running.
Proof.
  apply (pause_is_immediate_and_resume_waits clock0 resume_then_pause resume_then_pause_inv).
  reflexivity.
Defined.

Lemma pause_settles_witness :
  ∃ p', let w' := world_run clock0 resume_then_pause [Input_Complete true; Input_Complete true] in
    world_state w' = State_Ready p'
    ∧ preference_effective p' = MamRequestMode_Paused
    ∧ world_disk w' = Some MamRequestMode_Paused
    ∧ world_inflight w' = [].
Proof.
  apply (pause_settles_after_two_writes clock0 resume_then_pause
    (mkMamPreferenceState None (MamPreferenceUpdate_Set MamRequestMode_Paused)
       MamRequestMode_Paused
       (MamPreferencePersistence_Pending (MamPreferenceUpdate_Set MamRequestMode_Enabled)))
    (MamPreferenceUpdate_Set MamRequestMode_Enabled) resume_then_pause_inv);
    vm_compute; reflexivity.
Defined.
