(* ===== verification/Startup.v ===== *)
(** * Startup

    Opening storage and starting the reads ([core/startup.rs]). *)

From S2P Require Import Prelude Values Vocabulary MamApi Messages MamPause.

(** [startup::handle] *)
Definition handle (state : State) (now : ClockReading) (event : StartupEvent)
    : State * list Action :=
  match event with
  | StartupEvent_Start mode =>
      match state with
      | State_NotStarted => (State_OpeningStorage None, [Action_OpenStorage mode])
      | _ => (state, [])
      end
  | StartupEvent_StorageOpened =>
      match state with
      | State_OpeningStorage requested =>
          (State_ReadingMamPreference requested, [Action_ReadMamRequestMode])
      | _ => (state, [])
      end
  | StartupEvent_StorageOpenFailed =>
      match state with
      | State_OpeningStorage _ => (State_Failed, [])
      | _ => (state, [])
      end
  end.
