(* ===== verification/Settings.v ===== *)
(** * Dashboard settings

    One setting is its saved value, the value last requested and the save in
    progress; the settings are five of these, loaded from storage
    ([core/settings.rs]). *)

From S2P Require Import Prelude Values Vocabulary MamApi Messages.

(** ** One setting *)

Inductive SettingPersistence (T : Type) :=
  | SettingPersistence_Idle
  | SettingPersistence_Pending (value : T)
  | SettingPersistence_Failed.
Arguments SettingPersistence_Idle {T}.
Arguments SettingPersistence_Pending {T} value.
Arguments SettingPersistence_Failed {T}.

Inductive SettingStatus :=
  | SettingStatus_Saved
  | SettingStatus_Saving
  | SettingStatus_NotSaved.
#[global] Instance SettingStatus_eq_dec : EqDecision SettingStatus.
Proof. solve_decision. Defined.

Record Setting (T : Type) := mkSetting {
  setting_saved : T;
  setting_requested : T;
  setting_persistence : SettingPersistence T;
}.
Arguments mkSetting {T}.
Arguments setting_saved {T}.
Arguments setting_requested {T}.
Arguments setting_persistence {T}.

Section setting_operations.
Context {T : Type} `{Heq_T : EqDecision T}.
Implicit Types (self : Setting T) (value : T).

Definition Setting_loaded (saved requested : T) : Setting T :=
  mkSetting saved requested SettingPersistence_Idle.

Definition Setting_status self : SettingStatus :=
  match setting_persistence self with
  | SettingPersistence_Idle => SettingStatus_Saved
  | SettingPersistence_Pending _ => SettingStatus_Saving
  | SettingPersistence_Failed => SettingStatus_NotSaved
  end.

(** [Setting::request]: the value to save, unless a save is outstanding or
    the value is the saved one. *)
Definition Setting_request self value : Setting T * option T :=
  let self := {| self with setting_requested := value |} in
  match setting_persistence self with
  | SettingPersistence_Pending _ => (self, None)
  | _ =>
      if value ==? setting_saved self then
        ({| self with setting_persistence := SettingPersistence_Idle |}, None)
      else
        ({| self with setting_persistence := SettingPersistence_Pending value |}, Some value)
  end.

(** [Setting::complete] *)
Definition Setting_complete self (succeeded : bool) : Setting T * option T :=
  match setting_persistence self with
  | SettingPersistence_Pending pending =>
      let self :=
        {| self with
           setting_saved := if succeeded then pending else setting_saved self;
           setting_persistence :=
             if succeeded then SettingPersistence_Idle else SettingPersistence_Failed |} in
      if pending ==? setting_requested self then (self, None)
      else Setting_request self (setting_requested self)
  | _ => (self, None)
  end.

(** [Setting::replacement_failed]: the saved value stays in use, unless the
    owner asked for another meanwhile. *)
Definition Setting_replacement_failed self : Setting T * option T :=
  match setting_persistence self with
  | SettingPersistence_Pending pending =>
      if pending ==? setting_requested self then
        ({| self with setting_requested := setting_saved self;
                      setting_persistence := SettingPersistence_Idle |}, None)
      else Setting_complete self false
  | _ => Setting_complete self false
  end.
End setting_operations.

(** ** The settings *)

Record Settings := mkSettings {
  settings_history_limit : Setting HistoryLimit;
  settings_api_cookie : Setting (option ApiCookie);
  settings_ntfy_topic : Setting (option NtfyTopic);
  settings_points_reserve : Setting PointsReserve;
  settings_torrent_limits : Setting TorrentLimits;
}.

Inductive SettingsState :=
  | SettingsState_Unread
  | SettingsState_Reading
  | SettingsState_Loaded (settings : Settings)
  | SettingsState_ReadFailed.

(** The cookie that may be used: saved, with no replacement pending or failed. *)
Definition usable_api_cookie (self : Settings) : option ApiCookie :=
  match setting_persistence (settings_api_cookie self), setting_saved (settings_api_cookie self) with
  | SettingPersistence_Idle, Some cookie => Some cookie
  | _, _ => None
  end.

Definition loaded (self : SettingsState) : option Settings :=
  match self with SettingsState_Loaded settings => Some settings | _ => None end.
Definition points_reserve (self : SettingsState) : option Points :=
  (λ s, PointsReserve_points (setting_saved (settings_points_reserve s))) <$> loaded self.
Definition torrent_limits (self : SettingsState) : option TorrentLimits :=
  (λ s, setting_saved (settings_torrent_limits s)) <$> loaded self.
Definition history_limit (self : SettingsState) : option HistoryLimit :=
  (λ s, setting_saved (settings_history_limit s)) <$> loaded self.

Definition start_reading (self : SettingsState) : SettingsState * list Action :=
  (SettingsState_Reading, [Action_ReadSettings]).

(** [change]: changes are refused until settings load. *)
Definition change (state : SettingsState) (apply : Settings → Settings * option Action)
    : SettingsState * list Action :=
  match state with
  | SettingsState_Loaded settings =>
      let '(settings, action) := apply settings in
      (SettingsState_Loaded settings, option_list action)
  | _ => (state, [])
  end.

(** The closures of [settings::handle]: an operation on one setting, with the
    write it asks for. *)
Definition on_history_limit (op : Setting HistoryLimit → Setting HistoryLimit * option HistoryLimit)
    (s : Settings) : Settings * option Action :=
  let '(x, write) := op (settings_history_limit s) in
  ({| s with settings_history_limit := x |}, Action_WriteHistoryLimit <$> write).
Definition on_api_cookie
    (op : Setting (option ApiCookie) → Setting (option ApiCookie) * option (option ApiCookie))
    (s : Settings) : Settings * option Action :=
  let '(x, write) := op (settings_api_cookie s) in
  ({| s with settings_api_cookie := x |}, Action_WriteApiCookie <$> write).
Definition on_ntfy_topic
    (op : Setting (option NtfyTopic) → Setting (option NtfyTopic) * option (option NtfyTopic))
    (s : Settings) : Settings * option Action :=
  let '(x, write) := op (settings_ntfy_topic s) in
  ({| s with settings_ntfy_topic := x |}, Action_WriteNtfyTopic <$> write).
Definition on_points_reserve
    (op : Setting PointsReserve → Setting PointsReserve * option PointsReserve)
    (s : Settings) : Settings * option Action :=
  let '(x, write) := op (settings_points_reserve s) in
  ({| s with settings_points_reserve := x |}, Action_WritePointsReserve <$> write).
Definition on_torrent_limits
    (op : Setting TorrentLimits → Setting TorrentLimits * option TorrentLimits)
    (s : Settings) : Settings * option Action :=
  let '(x, write) := op (settings_torrent_limits s) in
  ({| s with settings_torrent_limits := x |}, Action_WriteTorrentLimits <$> write).

(** [settings::handle] *)
Definition handle (state : SettingsState) (event : SettingsEvent) : SettingsState * list Action :=
  match event with
  | SettingsEvent_Read history_limit api_cookie ntfy_topic points_reserve torrent_limits =>
      match state with
      | SettingsState_Reading =>
          let limit := default HistoryLimit_default history_limit in
          let reserve := default PointsReserve_default points_reserve in
          let limits := default TorrentLimits_default torrent_limits in
          (SettingsState_Loaded {|
             settings_history_limit := Setting_loaded limit limit;
             settings_api_cookie := Setting_loaded api_cookie api_cookie;
             settings_ntfy_topic := Setting_loaded ntfy_topic ntfy_topic;
             settings_points_reserve := Setting_loaded reserve reserve;
             settings_torrent_limits := Setting_loaded limits limits |}, [])
      | _ => (state, [])
      end
  | SettingsEvent_ReadFailed =>
      match state with
      | SettingsState_Reading => (SettingsState_ReadFailed, [])
      | _ => (state, [])
      end
  | SettingsEvent_SetHistoryLimit limit =>
      change state (on_history_limit (λ s, Setting_request s limit))
  | SettingsEvent_HistoryLimitWritten =>
      change state (on_history_limit (λ s, Setting_complete s true))
  | SettingsEvent_HistoryLimitWriteFailed =>
      change state (on_history_limit (λ s, Setting_complete s false))
  | SettingsEvent_SetApiCookie cookie =>
      change state (on_api_cookie (λ s, Setting_request s (Some cookie)))
  | SettingsEvent_ClearApiCookie => change state (on_api_cookie (λ s, Setting_request s None))
  | SettingsEvent_ApiCookieWritten => change state (on_api_cookie (λ s, Setting_complete s true))
  | SettingsEvent_ApiCookieWriteFailed =>
      change state (on_api_cookie (λ s, Setting_complete s false))
  | SettingsEvent_SetNtfyTopic topic =>
      change state (on_ntfy_topic (λ s, Setting_request s (Some topic)))
  | SettingsEvent_ClearNtfyTopic => change state (on_ntfy_topic (λ s, Setting_request s None))
  | SettingsEvent_NtfyTopicWritten => change state (on_ntfy_topic (λ s, Setting_complete s true))
  | SettingsEvent_NtfyTopicWriteFailed =>
      change state (on_ntfy_topic (λ s, Setting_complete s false))
  | SettingsEvent_SetPointsReserve reserve =>
      change state (on_points_reserve (λ s, Setting_request s reserve))
  | SettingsEvent_PointsReserveWritten =>
      change state (on_points_reserve (λ s, Setting_complete s true))
  | SettingsEvent_PointsReserveWriteFailed =>
      change state (on_points_reserve (λ s, Setting_complete s false))
  | SettingsEvent_SetTorrentLimits limits =>
      change state (on_torrent_limits (λ s, Setting_request s limits))
  | SettingsEvent_TorrentLimitsWritten =>
      change state (on_torrent_limits (λ s, Setting_complete s true))
  | SettingsEvent_TorrentLimitsWriteFailed =>
      change state (on_torrent_limits (λ s, Setting_complete s false))
  | SettingsEvent_RotatedApiCookieWritten =>
      change state (on_api_cookie (λ s, Setting_complete s true))
  | SettingsEvent_RotatedApiCookieWriteFailed =>
      change state (on_api_cookie Setting_replacement_failed)
  end.

(** [settings::rotate]: save a cookie MAM issued in place of the saved one. *)
Definition rotate (state : SettingsState) (cookie : ApiCookie) : SettingsState * list Action :=
  change state (λ s,
    let '(x, write) := Setting_request (settings_api_cookie s) (Some cookie) in
    ({| s with settings_api_cookie := x |},
     Action_WriteRotatedApiCookie <$> (write ≫= id))).

(** ** A setting and the database

    The setting beside the value storage holds and the saves it asked for. A
    failed save, or one lost in a restart before it commits, leaves storage as
    it was. *)
Section durable_setting.
Context {T : Type} `{Heq_T : EqDecision T}.

Record SettingWorld := mkSettingWorld {
  sw_setting : Setting T;
  sw_disk : T;
  sw_inflight : list T;
}.

Inductive SettingInput :=
  | SettingInput_Request (value : T)
  | SettingInput_Complete (succeeded : bool)
  | SettingInput_ReplacementFailed
  | SettingInput_Restart (committed : bool).

Definition sw_apply (w : SettingWorld) (r : Setting T * option T) : SettingWorld :=
  {| w with sw_setting := r.1; sw_inflight := sw_inflight w ++ option_list r.2 |}.

Definition sw_step (w : SettingWorld) (input : SettingInput) : SettingWorld :=
  match input with
  | SettingInput_Request value => sw_apply w (Setting_request (sw_setting w) value)
  | SettingInput_Complete succeeded =>
      match sw_inflight w with
      | [] => w
      | v :: rest =>
          sw_apply {| w with sw_disk := if succeeded then v else sw_disk w;
                             sw_inflight := rest |}
            (Setting_complete (sw_setting w) succeeded)
      end
  | SettingInput_ReplacementFailed =>
      match sw_inflight w with
      | [] => w
      | _ :: rest => sw_apply {| w with sw_inflight := rest |}
                       (Setting_replacement_failed (sw_setting w))
      end
  | SettingInput_Restart committed =>
      let disk := match sw_inflight w with
                  | v :: _ => if committed then v else sw_disk w
                  | [] => sw_disk w
                  end in
      mkSettingWorld (Setting_loaded disk disk) disk []
  end.

Definition sw_start (disk : T) : SettingWorld :=
  mkSettingWorld (Setting_loaded disk disk) disk [].
Definition sw_run (w : SettingWorld) (inputs : list SettingInput) : SettingWorld :=
  fold_left sw_step inputs w.

Definition pending_saves (s : Setting T) : list T :=
  match setting_persistence s with SettingPersistence_Pending v => [v] | _ => [] end.

(** An idle setting has nothing left to save. *)
Definition setting_inv (s : Setting T) : Prop :=
  setting_persistence s = SettingPersistence_Idle → setting_saved s = setting_requested s.

Definition sw_inv (w : SettingWorld) : Prop :=
  setting_inv (sw_setting w)
  ∧ sw_disk w = setting_saved (sw_setting w)
  ∧ sw_inflight w = pending_saves (sw_setting w).

Lemma Setting_request_spec s v s' o :
  Setting_request s v = (s', o) →
  setting_inv s' ∧ setting_saved s' = setting_saved s ∧ setting_requested s' = v
  ∧ pending_saves s' = pending_saves s ++ option_list o.
Proof.
  unfold Setting_request, setting_inv, pending_saves. simpl. intros H.
  destruct (setting_persistence s) eqn:E; repeat case_bool_decide; simplify_eq/=;
    rewrite ?E; naive_solver.
Qed.

Lemma Setting_complete_spec s v ok s' o :
  setting_persistence s = SettingPersistence_Pending v →
  Setting_complete s ok = (s', o) →
  setting_inv s' ∧ setting_saved s' = (if ok then v else setting_saved s)
  ∧ setting_requested s' = setting_requested s ∧ pending_saves s' = option_list o.
Proof.
  intros Hp. unfold Setting_complete. rewrite Hp. simpl. intros H.
  case_bool_decide; simplify_eq/=.
  - unfold setting_inv, pending_saves. destruct ok; naive_solver.
  - apply Setting_request_spec in H as (? & -> & -> & ->). by destruct ok.
Qed.

Lemma Setting_replacement_failed_spec s v s' o :
  setting_persistence s = SettingPersistence_Pending v →
  Setting_replacement_failed s = (s', o) →
  setting_inv s' ∧ setting_saved s' = setting_saved s ∧ pending_saves s' = option_list o.
Proof.
  intros Hp. unfold Setting_replacement_failed. rewrite Hp. case_bool_decide as Hb; intros H.
  - by simplify_eq/=.
  - by apply (Setting_complete_spec _ _ _ _ _ Hp) in H as (? & ? & _ & ?).
Qed.

Lemma sw_step_inv w input : sw_inv w → sw_inv (sw_step w input).
Proof.
  destruct w as [s disk inflight]. unfold sw_inv; simpl. intros (Hs & -> & ->).
  destruct input as [v|ok| |committed]; simpl; unfold sw_apply; simpl; [| | |done].
  - destruct (Setting_request s v) as [s' o] eqn:E; simpl.
    apply Setting_request_spec in E as (? & ? & _ & ?). by split_and!.
  - unfold pending_saves. destruct (setting_persistence s) as [|v|] eqn:Ep; simpl;
      [by rewrite Ep| |by rewrite Ep].
    destruct (Setting_complete s ok) as [s' o] eqn:E; simpl.
    eapply Setting_complete_spec in E as (? & ? & _ & ?); [|done]. by split_and!.
  - unfold pending_saves. destruct (setting_persistence s) as [|v|] eqn:Ep; simpl;
      [by rewrite Ep| |by rewrite Ep].
    destruct (Setting_replacement_failed s) as [s' o] eqn:E; simpl.
    eapply Setting_replacement_failed_spec in E as (? & ? & ?); [|done]. by split_and!.
Qed.

Lemma sw_run_inv disk inputs : sw_inv (sw_run (sw_start disk) inputs).
Proof.
  unfold sw_run. assert (sw_inv (sw_start disk)) as Hinv by done.
  revert Hinv. generalize (sw_start disk).
  induction inputs as [|i l IH]; simpl; auto using sw_step_inv.
Qed.

(** Every setting tells the truth about storage: after any requests, save
    results, failed replacements and restarts, the value the core takes for
    saved is the stored one, a setting shown as saved has its requested value
    stored, and at most one save is outstanding. *)
Theorem setting_refines_storage disk inputs :
  let w := sw_run (sw_start disk) inputs in
  setting_saved (sw_setting w) = sw_disk w
  ∧ (Setting_status (sw_setting w) = SettingStatus_Saved →
     sw_disk w = setting_requested (sw_setting w))
  ∧ (length (sw_inflight w) ≤ 1)%nat.
Proof.
  intros w. destruct (sw_run_inv disk inputs) as (Hs & Hd & Hi).
  unfold Setting_status. fold w in Hs, Hd, Hi. rewrite Hd, Hi. split_and!; [done| |].
  - unfold setting_inv in Hs. destruct (setting_persistence _); naive_solver.
  - unfold pending_saves. case_match; simpl; lia.
Qed.

(** A value requested while a save is outstanding is not lost: two
    successful saves store the value requested last. *)
Theorem setting_settles_after_two_saves disk inputs :
  let w := sw_run (sw_start disk) inputs in
  Setting_status (sw_setting w) = SettingStatus_Saving →
  let w' := sw_run w [SettingInput_Complete true; SettingInput_Complete true] in
  sw_disk w' = setting_requested (sw_setting w)
  ∧ Setting_status (sw_setting w') = SettingStatus_Saved
  ∧ setting_requested (sw_setting w') = setting_requested (sw_setting w).
Proof.
  intros w Hst w'. pose proof (sw_run_inv disk inputs) as (Hs & Hd & Hi).
  fold w in Hs, Hd, Hi. subst w'. clearbody w. destruct w as [s d i]; simpl in *.
  destruct s as [saved req []]; try done. simpl in *. subst d i.
  unfold sw_run, pending_saves, sw_apply, Setting_complete, Setting_request; simpl.
  repeat (case_bool_decide; simpl); simplify_eq; split_and!; done.
Qed.
End durable_setting.
Arguments SettingWorld : clear implicits.
Arguments SettingInput : clear implicits.

(** *** Witness *)

Lemma setting_settles_witness :
  let w := sw_run (sw_start 10_000) [SettingInput_Request 500; SettingInput_Request 700] in
  sw_disk (sw_run w [SettingInput_Complete true; SettingInput_Complete true]) = 700.
Proof.
  intros w.
  destruct (setting_settles_after_two_saves 10_000
    [SettingInput_Request 500; SettingInput_Request 700]) as [H _].
  - vm_compute. reflexivity.
  - exact H.
Defined.

(** ** The API cookie *)

Definition settings_inv (s : Settings) : Prop :=
  setting_inv (settings_history_limit s)
  ∧ setting_inv (settings_api_cookie s)
  ∧ setting_inv (settings_ntfy_topic s)
  ∧ setting_inv (settings_points_reserve s)
  ∧ setting_inv (settings_torrent_limits s).

Definition state_inv (s : SettingsState) : Prop :=
  match s with SettingsState_Loaded settings => settings_inv settings | _ => True end.

Lemma Setting_request_inv {T} `{EqDecision T} (s : Setting T) v :
  setting_inv (Setting_request s v).1.
Proof.
  destruct (Setting_request s v) eqn:E. by apply Setting_request_spec in E as (? & _).
Qed.
Lemma Setting_complete_inv {T} `{EqDecision T} (s : Setting T) ok :
  setting_inv s → setting_inv (Setting_complete s ok).1.
Proof.
  intros. destruct (Setting_complete s ok) as [s' o] eqn:E.
  destruct (setting_persistence s) eqn:Ep;
    [|by eapply Setting_complete_spec in E as (? & _)|];
    unfold Setting_complete in E; rewrite Ep in E; by simplify_eq.
Qed.
Lemma Setting_replacement_failed_inv {T} `{EqDecision T} (s : Setting T) :
  setting_inv s → setting_inv (Setting_replacement_failed s).1.
Proof.
  intros. unfold Setting_replacement_failed.
  case_match; [|case_bool_decide; [done|]|]; by apply Setting_complete_inv.
Qed.
#[export] Hint Resolve Setting_request_inv Setting_complete_inv
  Setting_replacement_failed_inv : windlass.

Lemma change_inv state apply :
  state_inv state → (∀ s, settings_inv s → settings_inv (apply s).1) →
  state_inv (change state apply).1.
Proof.
  intros Hinv Happ. destruct state as [| |s|]; simpl; try done.
  specialize (Happ s Hinv). by destruct (apply s).
Qed.

Lemma handle_inv state event : state_inv state → state_inv (handle state event).1.
Proof.
  intros Hinv. destruct event; simpl; try (by destruct state).
  all: apply change_inv; [done|]; intros s (?&?&?&?&?);
    unfold on_history_limit, on_api_cookie, on_ntfy_topic, on_points_reserve, on_torrent_limits;
    rewrite (surjective_pairing (_ (_ s))); simpl; split_and!; simpl; auto with windlass.
Qed.

Lemma rotate_inv state cookie : state_inv state → state_inv (rotate state cookie).1.
Proof.
  intros Hinv. apply change_inv; [done|]. intros s (?&?&?&?&?).
  rewrite (surjective_pairing (Setting_request _ _)); simpl; split_and!; simpl;
    auto with windlass.
Qed.
#[export] Hint Resolve handle_inv rotate_inv : windlass.

(** One input of the settings: an event, or a cookie MAM issued. *)
Definition settings_input (state : SettingsState) (i : SettingsEvent + ApiCookie) : SettingsState :=
  match i with
  | inl event => (handle state event).1
  | inr cookie => (rotate state cookie).1
  end.

(** The cookie the core may use is always the one storage confirmed and the
    one requested last: while a replacement is being saved, or after saving it
    failed, no cookie is usable. *)
Theorem usable_cookie_is_saved_and_requested inputs s c :
  fold_left settings_input inputs (start_reading SettingsState_Unread).1 = SettingsState_Loaded s →
  usable_api_cookie s = Some c →
  setting_saved (settings_api_cookie s) = Some c
  ∧ setting_requested (settings_api_cookie s) = Some c
  ∧ Setting_status (settings_api_cookie s) = SettingStatus_Saved.
Proof.
  intros Hrun Huse.
  assert (state_inv (SettingsState_Loaded s)) as (_ & Hinv & _).
  { rewrite <-Hrun. generalize (start_reading SettingsState_Unread).1
      (I : state_inv (start_reading SettingsState_Unread).1). clear.
    induction inputs as [|[event|cookie] l IH]; simpl; auto with windlass. }
  unfold usable_api_cookie in Huse. unfold Setting_status, setting_inv in *.
  repeat case_match; simplify_eq. by rewrite <-Hinv.
Qed.

Lemma usable_cookie_witness :
  ∃ s, fold_left settings_input
         [inl (SettingsEvent_Read None None None None None);
          inl (SettingsEvent_SetApiCookie "abc"); inl SettingsEvent_ApiCookieWritten;
          inr "def"; inl SettingsEvent_RotatedApiCookieWriteFailed]
         (start_reading SettingsState_Unread).1 = SettingsState_Loaded s
     ∧ setting_requested (settings_api_cookie s) = Some "abc".
Proof.
  eexists. split; [vm_compute; reflexivity|].
  eapply (usable_cookie_is_saved_and_requested
    [inl (SettingsEvent_Read None None None None None);
     inl (SettingsEvent_SetApiCookie "abc"); inl SettingsEvent_ApiCookieWritten;
     inr "def"; inl SettingsEvent_RotatedApiCookieWriteFailed]);
    vm_compute; reflexivity.
Defined.
