(* ===== verification/History.v ===== *)
(** * Stored history

    What the core knows about the stored history: how many entries there are
    and whether a trim is outstanding ([core/history.rs]). *)

From S2P Require Import Prelude Values Vocabulary MamApi Messages.

(** ** Data *)

(** The position of a handled event in the processing order. *)
Abbreviation Step := Z (only parsing).

Definition Step_ZERO : Step := 0.
(** [Step::next]: a 64-bit addition. *)
Definition Step_next (s : Step) : Step := wrapping_add u64_max s 1.
(** The number of steps handled after [earlier] and before [s]. *)
Definition Step_strictly_after (s earlier : Step) : Z :=
  saturating_sub (saturating_sub s earlier) 1.

Inductive Trim :=
  | Trim_Idle
  | Trim_Pending (requested : Step)
  | Trim_Failed.
#[global] Instance Trim_eq_dec : EqDecision Trim.
Proof. solve_decision. Defined.

Inductive HistoryState :=
  | HistoryState_Closed
  | HistoryState_Opening (requested : Step)
  | HistoryState_Open (retained : EntryCount) (trim : Trim)
  | HistoryState_Unavailable.
#[global] Instance HistoryState_eq_dec : EqDecision HistoryState.
Proof. solve_decision. Defined.

(** ** Operations *)

Definition open (self : HistoryState) (step : Step) : HistoryState * list Action :=
  (HistoryState_Opening step, [Action_OpenHistory]).

Definition handle (self : HistoryState) (step : Step) (event : HistoryEvent) : HistoryState :=
  match self, event with
  | HistoryState_Opening requested, HistoryEvent_Opened retained
  | HistoryState_Open _ (Trim_Pending requested), HistoryEvent_Trimmed retained =>
      HistoryState_Open
        (EntryCount_plus retained (Step_strictly_after step requested)) Trim_Idle
  | HistoryState_Opening _, HistoryEvent_OpenFailed => HistoryState_Unavailable
  | HistoryState_Open retained (Trim_Pending _), HistoryEvent_TrimFailed =>
      HistoryState_Open retained Trim_Failed
  | HistoryState_Open retained trim, HistoryEvent_EntriesLost count _ _ =>
      HistoryState_Open (EntryCount_minus retained count) trim
  | _, _ => self
  end.

(** Count this step's entry and trim if the limit is exceeded. *)
Definition after_step (self : HistoryState) (step : Step) (limit : option HistoryLimit)
    : HistoryState * list Action :=
  match self with
  | HistoryState_Open retained trim =>
      let retained := EntryCount_plus retained 1 in
      match limit with
      | Some limit =>
          if (trim ==? Trim_Idle) && HistoryLimit_is_exceeded_by limit retained then
            (HistoryState_Open retained (Trim_Pending step),
             [Action_TrimHistory (HistoryLimit_trim_target limit)])
          else (HistoryState_Open retained trim, [])
      | None => (HistoryState_Open retained trim, [])
      end
  | _ => (self, [])
  end.
