(* ===== verification/PortForwarding.v ===== *)
(** * Proton VPN port forwarding

    Leases on a forwarded port: requested, renewed with a quarter of the lifetime
    to spare, forgotten when they expire ([core/port_forwarding.rs]). *)

From S2P Require Import Prelude Values Vocabulary MamApi Messages Timer.

(** ** Data *)

Definition LEASE_LIFETIME : Duration := from_mins 1.
Definition RETRY_AFTER : Duration := from_secs 5.

Record Lease := mkLease {
  lease_tcp : Port;
  lease_udp : Port;
  lease_renewed_at : SystemTime;
  lease_expires : Instant;
}.
#[global] Instance Lease_eq_dec : EqDecision Lease.
Proof. solve_decision. Defined.

Inductive LeaseRequest :=
  | LeaseRequest_Outstanding
  | LeaseRequest_Waiting (timer : TimerId).
#[global] Instance LeaseRequest_eq_dec : EqDecision LeaseRequest.
Proof. solve_decision. Defined.

(** The fields of the [Enabled] variant. *)
Record Enabled := mkEnabled {
  pf_lease : option Lease;
  pf_request : LeaseRequest;
  pf_failures : FailureCount;
  pf_last_failure : option MappingFailure;
}.
#[global] Instance Enabled_eq_dec : EqDecision Enabled.
Proof. solve_decision. Defined.

Inductive PortForwarding :=
  | PortForwarding_Disabled
  | PortForwarding_Enabled (enabled : Enabled).
#[global] Instance PortForwarding_eq_dec : EqDecision PortForwarding.
Proof. solve_decision. Defined.

(** ** Operations *)

(** The port qBittorrent should listen on, while a lease is valid. *)
Definition forwarded_port (self : PortForwarding) : option Port :=
  match self with
  | PortForwarding_Enabled e => lease_tcp <$> pf_lease e
  | PortForwarding_Disabled => None
  end.

Definition request_mapping : Action := Action_RequestPortMapping LEASE_LIFETIME.

(** [*request_state = LeaseRequest::Waiting(id)] with the timer it waits for. *)
Definition wait (e : Enabled) (timers : Timers) (now : Instant) (after : Duration)
    : PortForwarding * Timers * list Action :=
  let '(timers, (id, deadline)) := schedule timers now after in
  (PortForwarding_Enabled {| e with pf_request := LeaseRequest_Waiting id |}, timers,
   [Action_StartTimer TimerName_PortLease id deadline]).

(** [PortForwarding::handle]; [None] is the panic of [lifetime * 3] when the
    product overflows a [Duration]. *)
Definition handle (self : PortForwarding) (now : ClockReading) (event : PortForwardingEvent)
    (timers : Timers) : option (PortForwarding * Timers * list Action) :=
  match self, event with
  | PortForwarding_Disabled, PortForwardingEvent_Enable =>
      Some (PortForwarding_Enabled
              (mkEnabled None LeaseRequest_Outstanding FailureCount_NONE None),
            timers, [request_mapping])
  | PortForwarding_Enabled e, PortForwardingEvent_Mapped tcp udp lifetime =>
      match pf_request e with
      | LeaseRequest_Outstanding =>
          if lifetime !=? 0 then
            let e :=
              {| e with
                 pf_lease := Some (mkLease tcp udp (wall now) (add_or_same (monotonic now) lifetime));
                 pf_failures := FailureCount_NONE;
                 pf_last_failure := None |} in
            tripled ← duration_mul lifetime 3;
            Some (wait e timers (monotonic now) (tripled / 4))
          else
            Some (wait {| e with pf_failures := FailureCount_after_another (pf_failures e);
                                 pf_last_failure := Some MappingFailure_Malformed |}
                    timers (monotonic now) RETRY_AFTER)
      | LeaseRequest_Waiting _ => Some (self, timers, [])
      end
  | PortForwarding_Enabled e, PortForwardingEvent_MappingFailed reason =>
      match pf_request e with
      | LeaseRequest_Outstanding =>
          Some (wait {| e with pf_failures := FailureCount_after_another (pf_failures e);
                               pf_last_failure := Some reason |}
                  timers (monotonic now) RETRY_AFTER)
      | LeaseRequest_Waiting _ => Some (self, timers, [])
      end
  | _, _ => Some (self, timers, [])
  end.

(** Request a lease when this timer is the current one. *)
Definition timer_expired (self : PortForwarding) (id : TimerId) : PortForwarding * list Action :=
  match self with
  | PortForwarding_Enabled e =>
      if pf_request e ==? LeaseRequest_Waiting id then
        (PortForwarding_Enabled {| e with pf_request := LeaseRequest_Outstanding |},
         [request_mapping])
      else (self, [])
  | PortForwarding_Disabled => (self, [])
  end.

(** Forget the lease and ask for a new one now: the gateway changed. *)
Definition renew (self : PortForwarding) : PortForwarding * list Action :=
  match self with
  | PortForwarding_Enabled e =>
      match pf_request e with
      | LeaseRequest_Waiting _ =>
          (PortForwarding_Enabled {| e with pf_lease := None;
                                            pf_request := LeaseRequest_Outstanding |},
           [request_mapping])
      | LeaseRequest_Outstanding => (PortForwarding_Enabled {| e with pf_lease := None |}, [])
      end
  | PortForwarding_Disabled => (self, [])
  end.

(** Forget a lease once its lifetime has passed. *)
Definition expire (self : PortForwarding) (now : Instant) : PortForwarding :=
  match self with
  | PortForwarding_Enabled e =>
      if is_some_and (pf_lease e) (λ lease, lease_expires lease <=? now)
      then PortForwarding_Enabled {| e with pf_lease := None |} else self
  | PortForwarding_Disabled => self
  end.
