(* ===== verification/NatPmp.v ===== *)
(** * NAT-PMP

    The client that asks the VPN gateway for forwarded ports
    ([shell/natpmp.rs]): the packets it writes and reads, its four attempts, and
    the event it reports to [PortForwarding]. The socket is a parameter: what
    each attempt sends and receives. *)

From S2P Require Import Prelude Values Vocabulary MamApi Messages Timer PortForwarding Bytes.

(** ** Packets *)

Definition UDP : Z := 1.
Definition TCP : Z := 2.

Definition from_millis (m : Z) : Duration := m * 1_000_000.
Definition ATTEMPT_TIMEOUTS : list Duration :=
  [from_millis 250; from_millis 500; from_secs 1; from_secs 2].

Definition request (opcode : Z) (lifetime : Duration) : bytes :=
  [byte 0; byte opcode; byte 0; byte 0; byte 0; byte 0; byte 0; byte 1]
    ++ to_be_u32 (try_from_or_max u32_max (as_secs lifetime)).

(** The gateway's result code: granted, refused, or none the RFC knows. *)
Definition result_code (code : Z) : option (option NatPmpRefusal) :=
  if code =? 0 then Some None
  else if code =? 1 then Some (Some NatPmpRefusal_UnsupportedVersion)
  else if code =? 2 then Some (Some NatPmpRefusal_NotAuthorized)
  else if code =? 3 then Some (Some NatPmpRefusal_NetworkFailure)
  else if code =? 4 then Some (Some NatPmpRefusal_OutOfResources)
  else if code =? 5 then Some (Some NatPmpRefusal_UnsupportedOpcode)
  else None.

Definition response (opcode : Z) (packet : bytes) : Result (Port * Duration) MappingFailure :=
  match packet with
  | [version; op; r0; r1; _; _; _; _; _; _; p0; p1; l0; l1; l2; l3] =>
      if (u8 version !=? 0) || (u8 op !=? opcode + 128) then Err MappingFailure_Malformed
      else match result_code (from_be [r0; r1]) with
           | None => Err MappingFailure_Malformed
           | Some (Some reason) => Err (MappingFailure_Refused reason)
           | Some None =>
               match Port_new (from_be [p0; p1]) with
               | None => Err MappingFailure_Malformed
               | Some port => Ok (port, from_secs (from_be [l0; l1; l2; l3]))
               end
           end
  | _ => Err MappingFailure_Malformed
  end.

(** ** Attempts *)

(** One attempt as the socket saw it: whether the request was sent, and the
    datagram that arrived in time, if one did, with whether the gateway sent it. *)
Record Attempt := mkAttempt {
  attempt_sent : bool;
  attempt_received : option (bool * bytes);
}.

(** The length of [map]'s receive buffer: what is longer is cut off. *)
Definition BUFFER : nat := 64.

Section socket.
(** What happens when a packet is sent for the [n]th time and an answer is
    awaited for so long. *)
Context (attempt : bytes → nat → Duration → Attempt).

(** The loop of [map] over the remaining timeouts. *)
Fixpoint map_from (opcode : Z) (packet : bytes) (n : nat) (timeouts : list Duration)
    : Result (Port * Duration) MappingFailure :=
  match timeouts with
  | [] => Err MappingFailure_NoResponse
  | timeout :: timeouts =>
      let a := attempt packet n timeout in
      if negb (attempt_sent a) then Err MappingFailure_NoResponse
      else match attempt_received a with
           | Some (true, datagram) => response opcode (firstn BUFFER datagram)
           | _ => map_from opcode packet (S n) timeouts
           end
  end.

Definition map (opcode : Z) (lifetime : Duration) : Result (Port * Duration) MappingFailure :=
  map_from opcode (request opcode lifetime) 0 ATTEMPT_TIMEOUTS.
End socket.

(** [map_ports]: with a gateway and a socket bound, or not. *)
Definition map_ports (gateway bound : bool)
    (udp tcp : bytes → nat → Duration → Attempt) (lifetime : Duration) : PortForwardingEvent :=
  if negb gateway then PortForwardingEvent_MappingFailed MappingFailure_NoResponse
  else if negb bound then PortForwardingEvent_MappingFailed MappingFailure_NoResponse
  else match map udp UDP lifetime with
  | Err reason => PortForwardingEvent_MappingFailed reason
  | Ok (udp_port, udp_lifetime) =>
      match map tcp TCP lifetime with
      | Err reason => PortForwardingEvent_MappingFailed reason
      | Ok (tcp_port, tcp_lifetime) =>
          PortForwardingEvent_Mapped tcp_port udp_port (Z.min udp_lifetime tcp_lifetime)
      end
  end.

(** ** The packets of RFC 6886

    What a gateway sends: version, opcode, result code, its clock, the internal
    and the public port, and the lifetime. *)
Definition gateway_answer (opcode code epoch internal port lifetime : Z) : bytes :=
  [byte 0; byte (opcode + 128)] ++ to_be_u16 code ++ to_be_u32 epoch ++ to_be_u16 internal
    ++ to_be_u16 port ++ to_be_u32 lifetime.

Definition code_of (reason : NatPmpRefusal) : Z :=
  match reason with
  | NatPmpRefusal_UnsupportedVersion => 1
  | NatPmpRefusal_NotAuthorized => 2
  | NatPmpRefusal_NetworkFailure => 3
  | NatPmpRefusal_OutOfResources => 4
  | NatPmpRefusal_UnsupportedOpcode => 5
  end.

Definition is_opcode (opcode : Z) : Prop := opcode = UDP ∨ opcode = TCP.

Lemma response_answer opcode code epoch internal port lifetime :
  is_opcode opcode → is_u16 code → is_u16 port → is_u32 lifetime →
  response opcode (gateway_answer opcode code epoch internal port lifetime) =
    match result_code code with
    | None => Err MappingFailure_Malformed
    | Some (Some reason) => Err (MappingFailure_Refused reason)
    | Some None =>
        match Port_new port with
        | None => Err MappingFailure_Malformed
        | Some port => Ok (port, from_secs lifetime)
        end
    end.
Proof.
  intros Hop Hcode Hport Hlife.
  pose proof (from_to_be_u16 code Hcode) as Hc. pose proof (from_to_be_u16 port Hport) as Hp.
  pose proof (from_to_be_u32 lifetime Hlife) as Hl. unfold to_be_u16, to_be_u32 in Hc, Hp, Hl.
  unfold gateway_answer, to_be_u16, to_be_u32, response. cbn [app].
  rewrite Hc, Hp, Hl, !u8_byte. by destruct Hop as [-> | ->].
Qed.

(** What it takes for an answer to grant a port. *)
Lemma response_Ok opcode packet port lifetime :
  response opcode packet = Ok (port, lifetime) →
  1 ≤ port ≤ u16_max ∧ ∃ secs, is_u32 secs ∧ lifetime = from_secs secs.
Proof.
  unfold response, result_code, Port_new, non_zero. intros H.
  repeat case_match; simplify_eq; reflect_bools; (split; [done|]).
  eexists; (split; [|reflexivity]).
  match goal with |- in_width _ (from_be ?l) => pose proof (from_be_bound l) as Hb end.
  unfold in_width, u32_max. simpl length in Hb. change (8 * Z.of_nat 4) with 32 in Hb. lia.
Qed.

Lemma map_from_Ok attempt opcode packet n timeouts r :
  map_from attempt opcode packet n timeouts = Ok r → ∃ datagram, response opcode datagram = Ok r.
Proof.
  revert n. induction timeouts as [|timeout timeouts IH]; intros n; simpl; [done|].
  repeat case_match; try done; eauto.
Qed.

Lemma map_ports_event gateway bound udp tcp lifetime :
  let event := map_ports gateway bound udp tcp lifetime in
  (∃ reason, event = PortForwardingEvent_MappingFailed reason) ∨
  ∃ tcp_port udp_port secs, event = PortForwardingEvent_Mapped tcp_port udp_port (from_secs secs) ∧
    1 ≤ tcp_port ≤ u16_max ∧ 1 ≤ udp_port ≤ u16_max ∧ is_u32 secs.
Proof.
  unfold map_ports, map. repeat (case_match; eauto).
  repeat match goal with H : map_from _ _ _ _ _ = Ok _ |- _ => apply map_from_Ok in H as (? & H) end.
  repeat match goal with H : response _ _ = Ok _ |- _ => apply response_Ok in H as (? & ? & ? & ->) end.
  right. eexists _, _, (Z.min _ _). split.
  { unfold from_secs. by rewrite <-Z.mul_min_distr_nonneg_r. }
  unfold in_width in *. lia.
Qed.

(** ** Properties *)

(** an answer the gateway sends for the protocol asked about is read as
    it was meant: a granted port and its lifetime, the refusal of its result code, and
    malformed when the port is zero, the result code unknown, the answer for the other
    protocol or of another length. *)
Theorem gateway_answers_are_read opcode epoch internal port lifetime :
  is_opcode opcode → 1 ≤ port ≤ u16_max → is_u32 lifetime →
  response opcode (gateway_answer opcode 0 epoch internal port lifetime)
    = Ok (port, from_secs lifetime) ∧
  (∀ reason, response opcode (gateway_answer opcode (code_of reason) epoch internal port lifetime)
    = Err (MappingFailure_Refused reason)) ∧
  (∀ code, 6 ≤ code ≤ u16_max →
    response opcode (gateway_answer opcode code epoch internal port lifetime)
    = Err MappingFailure_Malformed) ∧
  response opcode (gateway_answer opcode 0 epoch internal 0 lifetime)
    = Err MappingFailure_Malformed ∧
  response opcode (gateway_answer (3 - opcode) 0 epoch internal port lifetime)
    = Err MappingFailure_Malformed ∧
  ∀ packet, length packet ≠ 16%nat → response opcode packet = Err MappingFailure_Malformed.
Proof.
  intros Hop Hport Hlife. pose proof Hport as Hport'. unfold u16_max in Hport'.
  assert (is_u16 port) by (unfold in_width; lia).
  split_and!.
  - rewrite response_answer by (done || (unfold in_width, u16_max; lia)). simpl.
    unfold Port_new, non_zero. by rewrite (proj2 (Z.leb_le 1 port)), (proj2 (Z.leb_le port _)) by lia.
  - intros reason. rewrite response_answer by (done || (destruct reason; unfold in_width, u16_max; simpl; lia)).
    by destruct reason.
  - intros code Hcode. rewrite response_answer by (done || (unfold in_width; lia)).
    assert (result_code code = None) as ->; [|done].
    unfold result_code. repeat (rewrite (proj2 (Z.eqb_neq code _)) by lia). done.
  - by rewrite response_answer by (done || (unfold in_width, u16_max; lia)).
  - unfold gateway_answer, to_be_u16, to_be_u32, response. cbn [app]. rewrite !u8_byte.
    by destruct Hop as [-> | ->].
  - intros packet Hlen. do 17 (destruct packet as [|? packet]; [done|]). done.
Qed.

Lemma gateway_answers_witness :
  gateway_answer UDP 0 9 0 41000 60 =
    List.map byte [0; 129; 0; 0; 0; 0; 0; 9; 0; 0; 160; 40; 0; 0; 0; 60] ∧
  response UDP (gateway_answer UDP 0 9 0 41000 60) = Ok (41000, from_mins 1).
Proof.
  split; [vm_compute; reflexivity|].
  apply (gateway_answers_are_read UDP 9 0 41000 60).
  - left. reflexivity.
  - unfold u16_max; lia.
  - unfold in_width, u32_max; lia.
Defined.

(** whatever the gateway and the network do to the attempts, what the
    shell reports is handled without a panic and leaves the next request to a timer: a
    granted lease on non-zero ports, renewed when three quarters of its lifetime have
    passed and so before it expires, or one more failure that keeps the lease there
    was, tried again after five seconds. *)
Theorem mapping_reaches_core gateway bound udp tcp lifetime e now timers :
  pf_request e = LeaseRequest_Outstanding →
  0 ≤ monotonic now → monotonic now + from_secs u32_max ≤ TIME_MAX →
  ∃ e' timers' id dl,
    handle (PortForwarding_Enabled e) now (map_ports gateway bound udp tcp lifetime) timers
      = Some (PortForwarding_Enabled e', timers', [Action_StartTimer TimerName_PortLease id dl]) ∧
    pf_request e' = LeaseRequest_Waiting id ∧
    ((∃ lease, pf_lease e' = Some lease ∧ lease_renewed_at lease = wall now ∧
        1 ≤ lease_tcp lease ≤ u16_max ∧ 1 ≤ lease_udp lease ≤ u16_max ∧
        pf_failures e' = FailureCount_NONE ∧
        monotonic now < deadline_at dl < lease_expires lease) ∨
     (pf_lease e' = pf_lease e ∧ pf_failures e' = FailureCount_after_another (pf_failures e) ∧
        deadline_at dl = monotonic now + RETRY_AFTER)).
Proof.
  intros Hreq Hnow Hfit. unfold from_secs, u32_max, NANOS_PER_SEC in Hfit.
  assert (add_or_same (monotonic now) RETRY_AFTER = monotonic now + RETRY_AFTER) as Hretry.
  { apply add_or_same_fits. unfold RETRY_AFTER, from_secs, NANOS_PER_SEC. lia. }
  destruct (map_ports_event gateway bound udp tcp lifetime)
    as [[reason ->]|(tp & up & secs & -> & Htp & Hup & Hsecs)]; simpl; rewrite Hreq.
  { eexists _, _, _, _. split; [reflexivity|]. split; [reflexivity|]. by right. }
  unfold in_width, u32_max in Hsecs. case_bool_decide as Hz; simpl.
  { eexists _, _, _, _. split; [reflexivity|]. split; [reflexivity|]. by right. }
  unfold duration_mul. rewrite (proj2 (Z.leb_le _ _)).
  2: { unfold from_secs, NANOS_PER_SEC, DURATION_MAX, u64_max, NANOS_PER_SEC. lia. }
  simpl. eexists _, _, _, _. split; [reflexivity|]. split; [reflexivity|]. left.
  assert (4 ≤ from_secs secs ≤ (2 ^ 32 - 1) * 1000000000) as [Hpos Hle].
  { unfold from_secs, NANOS_PER_SEC in *. lia. }
  assert (0 < from_secs secs * 3 / 4 < from_secs secs) as Hquarter.
  { revert Hpos. generalize (from_secs secs). intros d Hd. split.
    - apply Z.div_str_pos. lia.
    - apply Z.div_lt_upper_bound; lia. }
  eexists. simpl. rewrite !add_or_same_fits by lia. split_and!; [reflexivity|..]; simpl; done || lia.
Qed.

(** The gateway answers the second attempt on each protocol. *)
Definition late_gateway (opcode : Z) (packet : bytes) (n : nat) (timeout : Duration) : Attempt :=
  mkAttempt true
    (if (n =? 1)%nat then Some (true, gateway_answer opcode 0 9 0 41000 60)
     else Some (false, packet)).

Definition asked : Enabled := mkEnabled None LeaseRequest_Outstanding 2 None.

Lemma mapping_reaches_core_witness :
  map_ports true true (late_gateway UDP) (late_gateway TCP) LEASE_LIFETIME
    = PortForwardingEvent_Mapped 41000 41000 (from_mins 1) ∧
  ∃ e' timers' id dl,
    handle (PortForwarding_Enabled asked) (mkClockReading 5 7)
      (map_ports true true (late_gateway UDP) (late_gateway TCP) LEASE_LIFETIME) Timer.new
    = Some (PortForwarding_Enabled e', timers', [Action_StartTimer TimerName_PortLease id dl]).
Proof.
  split; [vm_compute; reflexivity|].
  destruct (mapping_reaches_core true true (late_gateway UDP) (late_gateway TCP) LEASE_LIFETIME
              asked (mkClockReading 5 7) Timer.new) as (e' & timers' & id & dl & H & _).
  - reflexivity.
  - simpl. lia.
  - apply Z.leb_le. vm_compute. reflexivity.
  - exists e', timers', id, dl. exact H.
Defined.
