(* ===== verification/Tunnel.v ===== *)
(** * The VPN tunnel

    Exit-IP checks and failover to another server, spaced by MAM's limit on how
    often the VPN IP may change ([core/tunnel.rs]). *)

From S2P Require Import Prelude Values Vocabulary MamApi Messages Timer.

(** ** Data *)

Definition CHECK_INTERVAL : Duration := from_mins 15.
Definition RETRY_AFTER : Duration := from_mins 1.
Definition FAILURES_BEFORE_SWITCH : FailureCount := 3.
Definition SWITCH_SPACING : Duration := from_hours 1.
Definition SUSPICION_SPACING : Duration := from_secs 30.

Inductive Protection :=
  | Protection_Unknown
  | Protection_Available (exit_ip : IpAddr) (checked_at : SystemTime)
  | Protection_Unavailable (since : SystemTime).
#[global] Instance Protection_eq_dec : EqDecision Protection.
Proof. solve_decision. Defined.

Inductive Check :=
  | Check_Outstanding
  | Check_Waiting (timer : TimerId)
  | Check_Switching.
#[global] Instance Check_eq_dec : EqDecision Check.
Proof. solve_decision. Defined.

Inductive LastSwitch :=
  | LastSwitch_Unread
  | LastSwitch_Reading
  | LastSwitch_Known (switch : option VpnSwitch)
  | LastSwitch_ReadFailed.
#[global] Instance LastSwitch_eq_dec : EqDecision LastSwitch.
Proof. solve_decision. Defined.

Inductive Failover :=
  | Failover_Saving (switch : VpnSwitch)
  | Failover_Switching (server : VpnServer).
#[global] Instance Failover_eq_dec : EqDecision Failover.
Proof. solve_decision. Defined.

Inductive SwitchAllowance :=
  | SwitchAllowance_Now
  | SwitchAllowance_After (at_ : SystemTime)
  | SwitchAllowance_Unknown
  | SwitchAllowance_NoAlternative.
#[global] Instance SwitchAllowance_eq_dec : EqDecision SwitchAllowance.
Proof. solve_decision. Defined.

Record Watch := mkWatch {
  watch_servers : list VpnServer;
  watch_current : option VpnServer;
  watch_protection : Protection;
  watch_check : Check;
  watch_failures : FailureCount;
  watch_last_failure : option ExitIpFailure;
  watch_failover : option Failover;
  watch_last_check : Instant;
}.
#[global] Instance Watch_eq_dec : EqDecision Watch.
Proof. solve_decision. Defined.

Record Tunnel := mkTunnel {
  tunnel_last_switch : LastSwitch;
  tunnel_watch : option Watch;
}.
#[global] Instance Tunnel_eq_dec : EqDecision Tunnel.
Proof. solve_decision. Defined.

(** ** Operations *)

Definition new : Tunnel := mkTunnel LastSwitch_Unread None.

Definition start_reading (self : Tunnel) : Tunnel * list Action :=
  ({| self with tunnel_last_switch := LastSwitch_Reading |}, [Action_ReadLastVpnSwitch]).

Definition current (self : Tunnel) : option VpnServer := tunnel_watch self ≫= watch_current.

(** [iter().position(..)]: the index of the first equal server. *)
Fixpoint position (x : VpnServer) (l : list VpnServer) : option nat :=
  match l with
  | [] => None
  | y :: l => if y ==? x then Some 0%nat else S <$> position x l
  end.

(** [Watch::next_server]: the server after the current one, in configured order.
    Cycling over [n] servers, skipping [start <= n] and taking [n] visits the
    servers from [start] on, then those before it. *)
Definition next_server (w : Watch) : option VpnServer :=
  let start := match watch_current w ≫= (λ c, position c (watch_servers w)) with
               | Some position => S position
               | None => 0%nat
               end in
  head (filter (λ server, Some server ≠ watch_current w)
    (drop start (watch_servers w) ++ take start (watch_servers w))).

(** When the next automatic switch may start, as of [now]. *)
Definition switch_allowance (self : Tunnel) (now : SystemTime) : SwitchAllowance :=
  match tunnel_watch self ≫= next_server with
  | None => SwitchAllowance_NoAlternative
  | Some _ =>
      match tunnel_last_switch self with
      | LastSwitch_Known None => SwitchAllowance_Now
      | LastSwitch_Known (Some last) =>
          let allowed := add_or_same (switch_at last) SWITCH_SPACING in
          if allowed <=? now then SwitchAllowance_Now else SwitchAllowance_After allowed
      | LastSwitch_Unread | LastSwitch_Reading | LastSwitch_ReadFailed =>
          SwitchAllowance_Unknown
      end
  end.

Definition check_now (w : Watch) (now : ClockReading) : Watch * list Action :=
  ({| w with watch_check := Check_Outstanding; watch_last_check := monotonic now |},
   [Action_CheckExitIp]).

Definition wait (w : Watch) (now : ClockReading) (timers : Timers) (after : Duration)
    : Watch * Timers * list Action :=
  let '(timers, (id, deadline)) := schedule timers (monotonic now) after in
  ({| w with watch_check := Check_Waiting id |}, timers,
   [Action_StartTimer TimerName_TunnelCheck id deadline]).

(** Save, then start, a switch to this server. *)
Definition fail_over (w : Watch) (now : ClockReading) (server : VpnServer)
    : Watch * list Action :=
  let switch := mkVpnSwitch server (wall now) in
  ({| w with watch_check := Check_Switching;
             watch_failover := Some (Failover_Saving switch) |},
   [Action_SaveVpnSwitch switch]).

(** [Tunnel::handle] *)
Definition handle (self : Tunnel) (now : ClockReading) (event : TunnelEvent) (timers : Timers)
    : Tunnel * Timers * list Action :=
  let allowance := switch_allowance self (wall now) in
  match tunnel_watch self, event with
  | None, TunnelEvent_Enable servers current =>
      ({| self with tunnel_watch := Some {|
            watch_servers := servers;
            watch_current := current;
            watch_protection := Protection_Unknown;
            watch_check := Check_Outstanding;
            watch_failures := FailureCount_NONE;
            watch_last_failure := None;
            watch_failover := None;
            watch_last_check := monotonic now |} |}, timers, [Action_CheckExitIp])
  | _, TunnelEvent_LastSwitchRead last_switch =>
      (if tunnel_last_switch self ==? LastSwitch_Reading
       then {| self with tunnel_last_switch := LastSwitch_Known last_switch |} else self,
       timers, [])
  | _, TunnelEvent_LastSwitchReadFailed =>
      (if tunnel_last_switch self ==? LastSwitch_Reading
       then {| self with tunnel_last_switch := LastSwitch_ReadFailed |} else self,
       timers, [])
  | Some w, TunnelEvent_ExitIpObserved ip =>
      if watch_check w ==? Check_Outstanding then
        let w := {| w with watch_protection := Protection_Available ip (wall now);
                           watch_failures := FailureCount_NONE;
                           watch_last_failure := None |} in
        let '(w, timers, actions) := wait w now timers CHECK_INTERVAL in
        ({| self with tunnel_watch := Some w |}, timers, actions)
      else (self, timers, [])
  | Some w, TunnelEvent_ExitIpCheckFailed reason =>
      if watch_check w ==? Check_Outstanding then
        let w :=
          {| w with
             watch_protection := match watch_protection w with
                                 | Protection_Unavailable since => Protection_Unavailable since
                                 | _ => Protection_Unavailable (wall now)
                                 end;
             watch_failures := FailureCount_after_another (watch_failures w);
             watch_last_failure := Some reason |} in
        match (FAILURES_BEFORE_SWITCH <=? watch_failures w)
              && (allowance ==? SwitchAllowance_Now), next_server w with
        | true, Some server =>
            let '(w, actions) := fail_over w now server in
            ({| self with tunnel_watch := Some w |}, timers, actions)
        | _, _ =>
            let '(w, timers, actions) := wait w now timers RETRY_AFTER in
            ({| self with tunnel_watch := Some w |}, timers, actions)
        end
      else (self, timers, [])
  | Some w, TunnelEvent_SwitchSaved =>
      match watch_failover w with
      | Some (Failover_Saving switch) =>
          (mkTunnel (LastSwitch_Known (Some switch))
             (Some {| w with watch_failover := Some (Failover_Switching (switch_server switch)) |}),
           timers, [Action_SwitchVpnServer (switch_server switch)])
      | _ => (self, timers, [])
      end
  | Some w, TunnelEvent_Switched =>
      match watch_failover w with
      | Some (Failover_Switching server) =>
          let w := {| w with watch_failover := None;
                             watch_current := Some server;
                             watch_protection := Protection_Unknown;
                             watch_failures := FailureCount_NONE;
                             watch_last_failure := None |} in
          let '(w, actions) := check_now w now in
          ({| self with tunnel_watch := Some w |}, timers, actions)
      | _ => (self, timers, [])
      end
  | Some w, TunnelEvent_SwitchSaveFailed
  | Some w, TunnelEvent_SwitchFailed =>
      if is_some (watch_failover w) then
        let '(w, timers, actions) :=
          wait {| w with watch_failover := None |} now timers RETRY_AFTER in
        ({| self with tunnel_watch := Some w |}, timers, actions)
      else (self, timers, [])
  | _, _ => (self, timers, [])
  end.

(** Check now when this timer is the current one. *)
Definition timer_expired (self : Tunnel) (now : ClockReading) (id : TimerId)
    : Tunnel * list Action :=
  match tunnel_watch self with
  | Some w =>
      if watch_check w ==? Check_Waiting id then
        let '(w, actions) := check_now w now in
        ({| self with tunnel_watch := Some w |}, actions)
      else (self, [])
  | None => (self, [])
  end.

(** Something suggests the tunnel fails: check it now, unless a check is
    running, a switch is in progress, or a check started moments ago. *)
Definition suspect (self : Tunnel) (now : ClockReading) : Tunnel * list Action :=
  match tunnel_watch self with
  | Some w =>
      match watch_check w with
      | Check_Waiting _ =>
          if SUSPICION_SPACING <=? duration_since (monotonic now) (watch_last_check w) then
            let '(w, actions) := check_now w now in
            ({| self with tunnel_watch := Some w |}, actions)
          else (self, [])
      | _ => (self, [])
      end
  | None => (self, [])
  end.
