(* ===== verification/Failover.v ===== *)
(** * Switching VPN servers

    Which server the tunnel moves to, and that its automatic switches are an hour
    apart whatever happens between them, restarts and failed saves included. *)

From S2P Require Import Prelude Spacing Values Vocabulary MamApi Messages Timer Tunnel.

(** ** The choice of a server *)

Lemma position_Some x l i : position x l = Some i → l !! i = Some x.
Proof.
  revert i. induction l as [|y l IH]; intros i; simpl; [done|].
  case_bool_decide as Hy; [intros [= <-]; by subst|].
  rewrite fmap_Some. intros (j & Hj & ->). by apply IH.
Qed.

Lemma position_NoDup x l i : NoDup l → l !! i = Some x → position x l = Some i.
Proof.
  revert i. induction l as [|y l IH]; intros i Hnd Hi; [done|].
  inversion_clear Hnd as [|? ? Hy Hnd']. rename Hnd' into Hnd. simpl. destruct i as [|i]; simplify_eq/=.
  - by rewrite bool_decide_eq_true_2.
  - rewrite bool_decide_eq_false_2 by (intros ->; by apply Hy, list_elem_of_lookup_2 with i).
    by rewrite (IH i).
Qed.

Lemma head_filter_Some {A} (P : A → Prop) `{∀ x, Decision (P x)} l x :
  head (filter P l) = Some x → P x ∧ x ∈ l.
Proof.
  intros Hx. rewrite <-(list_elem_of_filter P). destruct (filter P l) as [|y ys]; simplify_eq/=.
  by left.
Qed.

Lemma head_filter_None {A} (P : A → Prop) `{∀ x, Decision (P x)} l :
  head (filter P l) = None ↔ ∀ x, x ∈ l → ¬ P x.
Proof.
  split.
  - intros Hn x Hx HP. assert (x ∈ filter P l) as Hin by (by apply list_elem_of_filter).
    destruct (filter P l); [by apply elem_of_nil in Hin|done].
  - intros Hall. destruct (filter P l) as [|y ys] eqn:Ef; [done|].
    assert (y ∈ filter P l) as [Hy Hin]%list_elem_of_filter by (rewrite Ef; left).
    by destruct (Hall y Hin).
Qed.

Lemma elem_of_rotation {A} (x : A) n l : x ∈ drop n l ++ firstn n l ↔ x ∈ l.
Proof.
  rewrite <-(take_drop n l) at 3. rewrite !elem_of_app. tauto.
Qed.

(** The next server is one of the configured ones and another than the
    current one; there is one exactly when another is configured; and where the
    servers are distinct and the current one is among them, it is the one after
    it in the configured order, the first after the last. *)
Theorem next_server_cycles w :
  (∀ s, next_server w = Some s → s ∈ watch_servers w ∧ Some s ≠ watch_current w)
  ∧ (next_server w = None ↔ ∀ s, s ∈ watch_servers w → Some s = watch_current w)
  ∧ ∀ c i, NoDup (watch_servers w) → watch_current w = Some c → watch_servers w !! i = Some c →
      (2 ≤ length (watch_servers w))%nat →
      next_server w = watch_servers w !! (S i mod length (watch_servers w))%nat.
Proof.
  unfold next_server. set (start := match _ with Some _ => _ | None => _ end). split_and!.
  - intros s [Hne Hs]%head_filter_Some. by rewrite elem_of_rotation in Hs.
  - rewrite head_filter_None. split; intros Hall s Hs.
    + destruct (base.decide (Some s = watch_current w)) as [|Hne]; [done|].
      destruct (Hall s); [by apply elem_of_rotation|done].
    + rewrite elem_of_rotation in Hs. intros Hne. by apply Hne, Hall.
  - intros c i Hnd Hc Hi Hlen. subst start. rewrite Hc. simpl.
    rewrite (position_NoDup c _ i Hnd Hi). pose proof (lookup_lt_Some _ _ _ Hi) as Hlt.
    assert (∀ s l, Some s ≠ Some c →
      head (filter (λ server, Some server ≠ Some c) (s :: l)) = Some s) as Hhead.
    { intros s l Hs. by rewrite filter_cons_True. }
    assert (∀ j s, j ≠ i → watch_servers w !! j = Some s → Some s ≠ Some c) as Hother.
    { intros j s Hj Hs [= ->]. apply Hj. by apply (NoDup_lookup _ _ _ c Hnd). }
    destruct (base.decide (S i = length (watch_servers w))) as [Hend|Hmid].
    + rewrite <-Hend, Nat.Div0.mod_same, drop_ge, firstn_all2 by lia. simpl.
      destruct (watch_servers w) as [|s l] eqn:El; simpl in *; [lia|].
      apply Hhead, (Hother 0%nat); [lia|done].
    + rewrite Nat.mod_small by lia.
      destruct (lookup_lt_is_Some_2 (watch_servers w) (S i)) as [s Hs]; [lia|].
      rewrite Hs, (drop_S _ s (S i)) by done. apply Hhead, (Hother (S i)); [lia|done].
Qed.

(** ** The switches and the database, across restarts

    The tunnel beside the last switch storage holds and the times of the switches
    it started, newest first, above the one storage held at the start. *)
Record World := mkWorld {
  world_tunnel : Tunnel;
  world_disk : option VpnSwitch;
  world_started : list SystemTime;
}.

Inductive Input :=
  | Input_StartReading
  | Input_Event (now : ClockReading) (event : TunnelEvent) (timers : Timers)
  | Input_TimerExpired (now : ClockReading) (id : TimerId)
  | Input_Suspect (now : ClockReading)
  | Input_Restart (committed : bool).

Definition saving_switch (t : Tunnel) : option VpnSwitch :=
  w ← tunnel_watch t;
  match watch_failover w with
  | Some (Failover_Saving switch) => Some switch
  | _ => None
  end.

(** Storage answers the read with what it holds. *)
Definition from_storage (disk : option VpnSwitch) (ev : TunnelEvent) : TunnelEvent :=
  match ev with TunnelEvent_LastSwitchRead _ => TunnelEvent_LastSwitchRead disk | _ => ev end.

Definition switches (acts : list Action) : bool :=
  existsb (λ a, match a with Action_SwitchVpnServer _ => true | _ => false end) acts.

(** Storage holds the switch once its save has succeeded; a switch counts from the
    time it was saved with. *)
Definition disk_after (t : Tunnel) (ev : TunnelEvent) (disk : option VpnSwitch) : option VpnSwitch :=
  match ev with TunnelEvent_SwitchSaved => opt_or (saving_switch t) disk | _ => disk end.
Definition start_time (t : Tunnel) (now : ClockReading) : SystemTime :=
  default (wall now) (switch_at <$> saving_switch t).

Definition world_step (w : World) (input : Input) : World :=
  let t := world_tunnel w in
  match input with
  | Input_StartReading => {| w with world_tunnel := (start_reading t).1 |}
  | Input_TimerExpired now id => {| w with world_tunnel := (timer_expired t now id).1 |}
  | Input_Suspect now => {| w with world_tunnel := (suspect t now).1 |}
  | Input_Event now ev timers =>
      let '(t', _, acts) := handle t now (from_storage (world_disk w) ev) timers in
      mkWorld t' (disk_after t ev (world_disk w))
        (if switches acts then start_time t now :: world_started w else world_started w)
  | Input_Restart committed =>
      {| w with world_tunnel := Tunnel.new;
                world_disk := if committed then opt_or (saving_switch t) (world_disk w)
                              else world_disk w |}
  end.

Definition world_start (disk : option VpnSwitch) : World :=
  mkWorld Tunnel.new disk (option_list (switch_at <$> disk)).
Definition world_run (w : World) (inputs : list Input) : World := fold_left world_step inputs w.

Definition input_ok (i : Input) : Prop :=
  match i with Input_Event now _ _ => clock_ok SWITCH_SPACING (wall now) | _ => True end.

(** What memory knows of the last switch. *)
Definition known_switch (t : Tunnel) : option (option SystemTime) :=
  match tunnel_last_switch t with
  | LastSwitch_Known known => Some (switch_at <$> known)
  | _ => None
  end.

Definition switch_ledger (w : World) : Ledger :=
  mkLedger (switch_at <$> world_disk w) (known_switch (world_tunnel w))
    (switch_at <$> saving_switch (world_tunnel w)) (world_started w).

(** What one event does to what the ledger sees of the tunnel. *)
Inductive moved (t : Tunnel) (now : ClockReading) : TunnelEvent → Tunnel → bool → Prop :=
  | moved_not ev t' :
      (ev = TunnelEvent_SwitchSaved → saving_switch t = None) →
      tunnel_last_switch t' = tunnel_last_switch t → saving_switch t' = saving_switch t →
      moved t now ev t' false
  | moved_read disk t' :
      tunnel_last_switch t' = LastSwitch_Known disk → saving_switch t' = saving_switch t →
      moved t now (TunnelEvent_LastSwitchRead disk) t' false
  | moved_unread t' :
      tunnel_last_switch t' = LastSwitch_ReadFailed → saving_switch t' = saving_switch t →
      moved t now TunnelEvent_LastSwitchReadFailed t' false
  | moved_attempt reason t' server :
      tunnel_last_switch t' = tunnel_last_switch t →
      switch_allowance t (wall now) = SwitchAllowance_Now →
      saving_switch t' = Some (mkVpnSwitch server (wall now)) →
      moved t now (TunnelEvent_ExitIpCheckFailed reason) t' false
  | moved_saved switch t' :
      saving_switch t = Some switch → tunnel_last_switch t' = LastSwitch_Known (Some switch) →
      saving_switch t' = None → moved t now TunnelEvent_SwitchSaved t' true
  | moved_drop ev t' :
      ev ≠ TunnelEvent_SwitchSaved →
      tunnel_last_switch t' = tunnel_last_switch t → saving_switch t' = None →
      moved t now ev t' false.

Lemma wait_failover w now timers after :
  let '(w', _, acts) := wait w now timers after in
  watch_failover w' = watch_failover w ∧ switches acts = false.
Proof. unfold wait. by destruct (schedule _ _ _) as [? []]. Qed.

(** A wait moves no switch. *)
Ltac wait_moves tac :=
  match goal with |- context [wait ?x ?y ?z ?u] =>
    let Hw := fresh "Hw" in
    pose proof (wait_failover x y z u) as Hw; destruct (wait x y z u) as [[? ?] ?];
    let Hf := fresh "Hf" in
    destruct Hw as [Hf ->]; tac; [..|unfold saving_switch; simpl in *; by rewrite Hf]
  end.

Lemma handle_moved t now ev timers :
  let '(t', _, acts) := handle t now ev timers in moved t now ev t' (switches acts).
Proof.
  unfold handle. destruct t as [last [w|]], ev as [servers cur|ip|reason|sw| | | | |];
    cbn [tunnel_watch tunnel_last_switch].
  all: try (by apply moved_not).
  all: try (case_bool_decide; [|by apply moved_not]).
  all: try (by apply moved_read). all: try (by apply moved_unread).
  - wait_moves ltac:(apply moved_not); done.
  - cbv zeta. destruct (_ && _) eqn:Ea; [destruct (next_server _) as [server|]|].
    + reflect_bools. by apply (moved_attempt _ _ _ _ server).
    + wait_moves ltac:(apply moved_not); done.
    + wait_moves ltac:(apply moved_not); done.
  - destruct (watch_failover w) as [[switch|server]|] eqn:Ef;
      try (apply moved_not; [unfold saving_switch; simpl; by rewrite Ef|done..]).
    apply moved_saved with switch; [|done..]. unfold saving_switch. simpl. by rewrite Ef.
  - destruct (is_some _); [|by apply moved_not].
    wait_moves ltac:(apply moved_drop); done.
  - destruct (watch_failover w) as [[switch|server]|] eqn:Ef; try (by apply moved_not).
    apply moved_drop; done.
  - destruct (is_some _); [|by apply moved_not].
    wait_moves ltac:(apply moved_drop); done.
Qed.

Lemma frame_simulated t t' disk started :
  tunnel_last_switch t' = tunnel_last_switch t → saving_switch t' = saving_switch t →
  rtc (ledger_step SWITCH_SPACING) (switch_ledger (mkWorld t disk started))
    (switch_ledger (mkWorld t' disk started)).
Proof. intros Hl Hs. unfold switch_ledger, known_switch. simpl. by rewrite Hl, Hs. Qed.

Lemma check_now_failover w now : watch_failover (check_now w now).1 = watch_failover w.
Proof. done. Qed.

(** An allowed switch follows the last known one. *)
Lemma allowance_now_follows_switch t now :
  clock_ok SWITCH_SPACING now → switch_allowance t now = SwitchAllowance_Now →
  ∃ known, known_switch t = Some known
    ∧ ((∀ u, known = Some u → clock_ok SWITCH_SPACING u) → follows SWITCH_SPACING known now).
Proof.
  unfold switch_allowance, known_switch. intros Hnow H.
  destruct (_ ≫= next_server); [|done]. destruct (tunnel_last_switch t) as [| |known|]; try done.
  eexists. split; [reflexivity|]. intros Hk. destruct known as [last|]; [|done]. simpl in *.
  specialize (Hk _ eq_refl). unfold clock_ok in Hk. rewrite add_or_same_fits in H by done.
  case_match; reflect_bools; done.
Qed.

Lemma switch_event_simulated t disk started now ev timers :
  clock_ok SWITCH_SPACING (wall now) →
  rtc (ledger_step SWITCH_SPACING) (switch_ledger (mkWorld t disk started))
    (switch_ledger (world_step (mkWorld t disk started) (Input_Event now ev timers))).
Proof.
  intros Hin. pose proof (handle_moved t now (from_storage disk ev) timers) as Hm.
  simpl. destruct (handle t now _ timers) as [[t' timers'] acts].
  assert (disk_after t ev disk = disk_after t (from_storage disk ev) disk) as -> by (by destruct ev).
  assert (∀ d, from_storage disk ev = TunnelEvent_LastSwitchRead d → d = disk) as Hread
    by (destruct ev; simpl; congruence).
  destruct Hm as [ev' t' Hno Hl Hs|disk' t' Hl Hs|t' Hl Hs|reason t' server Hl Hal Hs
    |sw t' Ht Hl Hs|ev' t' Hne Hl Hs].
  - assert (disk_after t ev' disk = disk) as ->.
    { destruct ev'; try done. simpl. by rewrite Hno. }
    by apply frame_simulated.
  - unfold switch_ledger, known_switch. simpl. rewrite Hl, Hs, (Hread disk' eq_refl).
    apply rtc_once, ledger_read.
  - unfold switch_ledger, known_switch. simpl. rewrite Hl, Hs. apply rtc_once, ledger_forget.
  - destruct (allowance_now_follows_switch _ _ Hin Hal) as (known & Hk & Hf).
    unfold switch_ledger. assert (known_switch t' = known_switch t) as Hk'
      by (unfold known_switch; by rewrite Hl).
    simpl. rewrite Hk', Hk, Hs. by apply rtc_once, ledger_attempt.
  - unfold switch_ledger, known_switch, start_time. simpl. rewrite Hl, Hs, Ht.
    apply rtc_once, ledger_start.
  - assert (disk_after t ev' disk = disk) as -> by (by destruct ev').
    unfold switch_ledger, known_switch. simpl. rewrite Hl, Hs. apply rtc_once, ledger_drop.
Qed.

Lemma switches_simulated w input :
  input_ok input →
  rtc (ledger_step SWITCH_SPACING) (switch_ledger w) (switch_ledger (world_step w input)).
Proof.
  destruct w as [t disk started], input as [|now ev timers|now id|now|committed]; intros Hin.
  - apply rtc_once. unfold switch_ledger. simpl. apply ledger_forget.
  - by apply switch_event_simulated.
  - simpl. apply frame_simulated; unfold timer_expired;
      (destruct t as [last [w|]]; simpl; [|done]); by case_bool_decide.
  - simpl. apply frame_simulated; unfold suspect;
      (destruct t as [last [w|]]; simpl; [|done]); by repeat case_match.
  - unfold switch_ledger. simpl. destruct committed; [|apply rtc_once, ledger_restart].
    destruct (saving_switch t) as [sw|]; apply rtc_once;
      [apply ledger_restart_committed|apply ledger_restart].
Qed.

(** C8: The automatic switches of the VPN server are at least an hour apart by the
    calendar, and at least an hour after the last one storage held at first,
    whatever the checks, failed switches, failed or lost saves and restarts
    between them. *)
Theorem vpn_switches_spaced disk inputs :
  (∀ switch, disk = Some switch → clock_ok SWITCH_SPACING (switch_at switch)) →
  Forall input_ok inputs →
  spaced SWITCH_SPACING (world_started (world_run (world_start disk) inputs)).
Proof.
  intros Hdisk Hall.
  refine (world_spaced SWITCH_SPACING world_step switch_ledger input_ok switches_simulated
    (world_start disk) (switch_at <$> disk) inputs ltac:(done) _ eq_refl Hall).
  intros u (switch & Hs & ->)%fmap_Some. by apply Hdisk.
Qed.

(** *** Witnesses *)

Definition clock (s : Z) : ClockReading :=
  mkClockReading (from_secs s) (from_secs (1_800_000_000 + s)).

Definition sample_servers : list VpnServer := ["no-osl"; "se-sto"; "nl-ams"]%string.

(** The tunnel is enabled and fails three checks in a row. *)
Definition sample_failures (start : Z) : list Input :=
  let event s ev := Input_Event (clock (start + s)) ev (mkTimers 0) in
  let failed s := event s (TunnelEvent_ExitIpCheckFailed ExitIpFailure_Unreachable) in
  [Input_StartReading;
   event 0 (TunnelEvent_Enable sample_servers (Some "nl-ams"%string));
   event 1 (TunnelEvent_LastSwitchRead None);
   failed 2; Input_TimerExpired (clock (start + 62)) 0;
   failed 63; Input_TimerExpired (clock (start + 123)) 0;
   failed 124;
   event 125 TunnelEvent_SwitchSaved].

Lemma vpn_switches_spaced_witness :
  let started := world_started (world_run (world_start None)
    (sample_failures 0 ++ [Input_Restart true] ++ sample_failures 1_000
     ++ [Input_Restart false] ++ sample_failures 3_600)) in
  started = [from_secs 1_800_003_724; from_secs 1_800_000_124]
  ∧ spaced SWITCH_SPACING started.
Proof.
  intros started. split; [vm_compute; reflexivity|].
  apply (vpn_switches_spaced None); [done|]. cbn [app sample_failures].
  repeat (apply Forall_cons_2; [first [exact I|vm_compute; discriminate]|]). apply Forall_nil_2.
Defined.

Definition sample_watch : Watch := {|
  watch_servers := sample_servers;
  watch_current := Some "nl-ams"%string;
  watch_protection := Protection_Unknown;
  watch_check := Check_Outstanding;
  watch_failures := FailureCount_NONE;
  watch_last_failure := None;
  watch_failover := None;
  watch_last_check := 0 |}.

Lemma next_server_cycles_witness : next_server sample_watch = Some "no-osl"%string.
Proof.
  destruct (next_server_cycles sample_watch) as (_ & _ & Hcycle).
  rewrite (Hcycle "nl-ams"%string 2%nat).
  - reflexivity.
  - exact (bool_decide_unpack (NoDup sample_servers) I).
  - reflexivity.
  - reflexivity.
  - vm_compute. lia.
Defined.
