(* ===== verification/Qbittorrent.v ===== *)
(** * qBittorrent

    The core's view of qBittorrent: one request outstanding at a time, the
    torrent list merged from incremental updates, and the choice of the next
    request ([core/qbittorrent.rs]). *)

From S2P Require Import Prelude Values Vocabulary MamApi Messages Timer.

(** ** Data *)

Definition POLL_INTERVAL : Duration := from_secs 10.

(** Polls since the preferences were last read, a [u8]. *)
Abbreviation Polls := Z (only parsing).
Definition Polls_NONE : Polls := 0.
Definition Polls_plus_one (p : Polls) : Polls := saturating_add u8_max p 1.
Definition POLLS_PER_PREFERENCES_READ : Polls := 6.

(** The queue that keeps qBittorrent within these limits. *)
Definition QueuePreferences_for_limits (limits : TorrentLimits) : QueuePreferences :=
  let active := QueueLimit_At (limits_active limits) in
  {| queue_queueing := Queueing_On;
     queue_max_downloading := QueueLimit_At (limits_downloading limits);
     queue_max_active := active;
     queue_max_seeding := active;
     queue_idle := IdleTorrents_NotCounted |}.

Record Wanted := mkWanted {
  wanted_listen_port : option Port;
  wanted_queue : option QueuePreferences;
}.
#[global] Instance Wanted_eq_dec : EqDecision Wanted.
Proof. solve_decision. Defined.

Inductive DecidingAfter :=
  | DecidingAfter_Sync
  | DecidingAfter_Other.
#[global] Instance DecidingAfter_eq_dec : EqDecision DecidingAfter.
Proof. solve_decision. Defined.

Inductive Activity :=
  | Activity_Waiting (timer : TimerId)
  | Activity_Syncing
  | Activity_ReadingPreferences
  | Activity_SettingListenPort (port : Port)
  | Activity_SettingQueue
  | Activity_Commanding
  | Activity_Deciding (after : DecidingAfter).
#[global] Instance Activity_eq_dec : EqDecision Activity.
Proof. solve_decision. Defined.

Inductive Listing :=
  | Listing_Awaited
  | Listing_Received.
#[global] Instance Listing_eq_dec : EqDecision Listing.
Proof. solve_decision. Defined.

Record Session := mkSession {
  session_version : ReportedVersion;
  session_approval : MamApproval;
  session_preferences : QbittorrentPreferences;
  session_torrents : gmap TorrentHash Torrent;
  session_activity : Activity;
  session_position : SyncPosition;
  session_listing : Listing;
  session_polls_since_preferences : Polls;
}.
#[global] Instance Session_eq_dec : EqDecision Session.
Proof. solve_decision. Defined.

Inductive Qbittorrent :=
  | Qbittorrent_Disabled
  | Qbittorrent_Connecting
  | Qbittorrent_Unreachable (reason : QbittorrentFailure) (retry : TimerId)
  | Qbittorrent_Connected (session : Session).
#[global] Instance Qbittorrent_eq_dec : EqDecision Qbittorrent.
Proof. solve_decision. Defined.

(** ** Merging updates *)

(** [Torrent::apply]: the fields an update carries replace those known. *)
Definition Torrent_apply (self : Torrent) (update : TorrentUpdate) : Torrent := {|
  torrent_name := default (torrent_name self) (update_name update);
  torrent_state := default (torrent_state self) (update_state update);
  torrent_progress := default (torrent_progress self) (update_progress update);
  torrent_size := default (torrent_size self) (update_size update);
  torrent_total_size := default (torrent_total_size self) (update_total_size update);
  torrent_downloaded := default (torrent_downloaded self) (update_downloaded update);
  torrent_uploaded := default (torrent_uploaded self) (update_uploaded update);
  torrent_ratio := default (torrent_ratio self) (update_ratio update);
  torrent_seeding_time := default (torrent_seeding_time self) (update_seeding_time update);
  torrent_added_at := default (torrent_added_at self) (update_added_at update);
  torrent_completed_at := default (torrent_completed_at self) (update_completed_at update);
  torrent_content_path := default (torrent_content_path self) (update_content_path update);
  torrent_save_path := default (torrent_save_path self) (update_save_path update);
  torrent_force_start := default (torrent_force_start self) (update_force_start update);
|}.

(** Whether the torrent list is complete. *)
Definition listed (self : Session) : bool := session_listing self ==? Listing_Received.

(** [self.torrents.entry(hash).or_default().apply(changes)] *)
Definition merge_torrent (torrents : gmap TorrentHash Torrent)
    (change : TorrentHash * TorrentUpdate) : gmap TorrentHash Torrent :=
  <[change.1 := Torrent_apply (default Torrent_default (torrents !! change.1)) change.2]> torrents.

(** [Session::apply] *)
Definition Session_apply (self : Session) (update : SyncUpdate) : Session :=
  let self :=
    if sync_scope update ==? SyncScope_Full
    then {| self with session_torrents := ∅; session_listing := Listing_Received |}
    else self in
  let torrents := fold_left merge_torrent (sync_torrents update) (session_torrents self) in
  let torrents := fold_left (λ torrents hash, delete hash torrents) (sync_removed update) torrents in
  {| self with session_torrents := torrents; session_position := sync_position update |}.

(** [Session::set_preferences]: change the first setting that differs. *)
Definition set_preferences (self : Session) (wanted : Wanted) : Session * option (list Action) :=
  match opt_filter (λ port, preferences_listen_port (session_preferences self) !=? Some port)
          (wanted_listen_port wanted) with
  | Some port =>
      ({| self with session_activity := Activity_SettingListenPort port |},
       Some [Action_SetQbittorrentListenPort port])
  | None =>
      match opt_filter
              (λ queue, is_some_and (preferences_queue (session_preferences self))
                          (λ current, current !=? queue))
              (wanted_queue wanted) with
      | Some queue =>
          ({| self with session_activity := Activity_SettingQueue |},
           Some [Action_SetQbittorrentQueue queue])
      | None => (self, None)
      end
  end.

(** [Session::wait] *)
Definition wait (self : Session) (now : ClockReading) (timers : Timers)
    : Session * Timers * list Action :=
  let '(timers, (id, deadline)) := schedule timers (monotonic now) POLL_INTERVAL in
  ({| self with session_activity := Activity_Waiting id |}, timers,
   [Action_StartTimer TimerName_QbittorrentPoll id deadline]).

(** ** Operations *)

(** The failure arm of [Qbittorrent::handle]. *)
Definition failed (now : ClockReading) (reason : QbittorrentFailure) (timers : Timers)
    : Qbittorrent * Timers * list Action :=
  let '(timers, (retry, deadline)) := schedule timers (monotonic now) POLL_INTERVAL in
  (Qbittorrent_Unreachable reason retry, timers,
   [Action_StartTimer TimerName_QbittorrentPoll retry deadline]).

Definition is_setting_listen_port (a : Activity) : bool :=
  match a with Activity_SettingListenPort _ => true | _ => false end.

(** [Qbittorrent::handle] *)
Definition handle (self : Qbittorrent) (now : ClockReading) (event : QbittorrentEvent)
    (timers : Timers) : Qbittorrent * Timers * list Action :=
  match self, event with
  | Qbittorrent_Disabled, QbittorrentEvent_Enable =>
      (Qbittorrent_Connecting, timers, [Action_ConnectQbittorrent])
  | Qbittorrent_Connecting, QbittorrentEvent_Connected version preferences =>
      (Qbittorrent_Connected {|
         session_version := version;
         session_approval := ReportedVersion_mam_approval version;
         session_preferences := preferences;
         session_torrents := ∅;
         session_activity := Activity_Syncing;
         session_position := 0;
         session_listing := Listing_Awaited;
         session_polls_since_preferences := Polls_NONE |}, timers,
       [Action_SyncQbittorrent 0])
  | Qbittorrent_Connected session, QbittorrentEvent_Synced update =>
      if session_activity session ==? Activity_Syncing then
        let session := Session_apply session update in
        (Qbittorrent_Connected
           {| session with
              session_polls_since_preferences :=
                Polls_plus_one (session_polls_since_preferences session);
              session_activity := Activity_Deciding DecidingAfter_Sync |}, timers, [])
      else (self, timers, [])
  | Qbittorrent_Connected session, QbittorrentEvent_CommandDone =>
      if session_activity session ==? Activity_Commanding then
        (Qbittorrent_Connected
           {| session with session_activity := Activity_Deciding DecidingAfter_Other |},
         timers, [])
      else (self, timers, [])
  | Qbittorrent_Connected session, QbittorrentEvent_PreferencesRead preferences =>
      if session_activity session ==? Activity_ReadingPreferences then
        let '(session, timers, actions) :=
          wait {| session with session_preferences := preferences;
                               session_polls_since_preferences := Polls_NONE |} now timers in
        (Qbittorrent_Connected session, timers, actions)
      else (self, timers, [])
  | Qbittorrent_Connected session, QbittorrentEvent_ListenPortSet =>
      if is_setting_listen_port (session_activity session) then
        (Qbittorrent_Connected {| session with session_activity := Activity_ReadingPreferences |},
         timers, [Action_ReadQbittorrentPreferences])
      else (self, timers, [])
  | Qbittorrent_Connected session, QbittorrentEvent_QueueSet =>
      if session_activity session ==? Activity_SettingQueue then
        (Qbittorrent_Connected {| session with session_activity := Activity_ReadingPreferences |},
         timers, [Action_ReadQbittorrentPreferences])
      else (self, timers, [])
  | Qbittorrent_Connecting, QbittorrentEvent_ConnectFailed reason
  | Qbittorrent_Connected _, QbittorrentEvent_SyncFailed reason
  | Qbittorrent_Connected _, QbittorrentEvent_PreferencesReadFailed reason
  | Qbittorrent_Connected _, QbittorrentEvent_ListenPortSetFailed reason
  | Qbittorrent_Connected _, QbittorrentEvent_QueueSetFailed reason
  | Qbittorrent_Connected _, QbittorrentEvent_CommandFailed reason => failed now reason timers
  | _, _ => (self, timers, [])
  end.

(** [Qbittorrent::timer_expired] *)
Definition timer_expired (self : Qbittorrent) (id : TimerId) : Qbittorrent * list Action :=
  match self with
  | Qbittorrent_Unreachable _ retry =>
      if retry ==? id then (Qbittorrent_Connecting, [Action_ConnectQbittorrent]) else (self, [])
  | Qbittorrent_Connected session =>
      if session_activity session ==? Activity_Waiting id then
        (Qbittorrent_Connected
           {| session with session_activity := Activity_Deciding DecidingAfter_Other |}, [])
      else (self, [])
  | _ => (self, [])
  end.

(** The session, while it is choosing its next request. *)
Definition deciding (self : Qbittorrent) : option (Session * DecidingAfter) :=
  match self with
  | Qbittorrent_Connected session =>
      match session_activity session with
      | Activity_Deciding after => Some (session, after)
      | _ => None
      end
  | _ => None
  end.

(** [Qbittorrent::decide]: the closure [command] may change what it captured, the
    state [captured], and runs only where the code calls it. *)
Definition decide {C} (self : Qbittorrent) (now : ClockReading) (timers : Timers)
    (wanted : Wanted) (captured : C) (command : C → Session → C * option TorrentCommand)
    : Qbittorrent * Timers * C * list Action :=
  match deciding self with
  | None => (self, timers, captured, [])
  | Some (session, after) =>
      match set_preferences session wanted with
      | (session, Some actions) => (Qbittorrent_Connected session, timers, captured, actions)
      | (session, None) =>
          if after ==? DecidingAfter_Other then
            (Qbittorrent_Connected {| session with session_activity := Activity_Syncing |}, timers,
             captured, [Action_SyncQbittorrent (session_position session)])
          else
            match command captured session with
            | (captured, Some command) =>
                (Qbittorrent_Connected {| session with session_activity := Activity_Commanding |},
                 timers, captured, [Action_QbittorrentCommand command])
            | (captured, None) =>
                if POLLS_PER_PREFERENCES_READ <=? session_polls_since_preferences session then
                  (Qbittorrent_Connected
                     {| session with session_activity := Activity_ReadingPreferences |}, timers,
                   captured, [Action_ReadQbittorrentPreferences])
                else
                  let '(session, timers, actions) := wait session now timers in
                  (Qbittorrent_Connected session, timers, captured, actions)
            end
      end
  end.

(** [Qbittorrent::follow_preferences] *)
Definition follow_preferences (self : Qbittorrent) (wanted : Wanted)
    : Qbittorrent * list Action :=
  match self with
  | Qbittorrent_Connected session =>
      match session_activity session with
      | Activity_Waiting _ =>
          let '(session, actions) := set_preferences session wanted in
          (Qbittorrent_Connected session, default [] actions)
      | _ => (self, [])
      end
  | _ => (self, [])
  end.
