(* ===== verification/Registry.v ===== *)
(** * The torrent registry

    The torrents Windlass wants and what it last saw of them: rows in memory
    with two indexes, their save progress, and the reconciliation of
    qBittorrent with the rows ([core/registry.rs]). *)

From S2P Require Import Prelude Values Vocabulary MamApi Messages Timer Qbittorrent.

(** ** Data *)

Definition COUNTER_SAVE_INTERVAL : Duration := from_mins 15.
Definition COMMAND_REPEAT_AFTER : Duration := from_mins 1.
Definition SEEDING_REQUIRED : Duration := from_hours 72.
Definition SEEDING_TARGET : Duration :=
  duration_saturating_add SEEDING_REQUIRED (from_hours 24).

Definition Identity_new (mam : option MamTorrentId) (hash : option TorrentHash)
    : option Identity :=
  match mam, hash with
  | Some mam, Some hash => Some (Identity_Linked mam hash)
  | Some mam, None => Some (Identity_Mam mam)
  | None, Some hash => Some (Identity_Client hash)
  | None, None => None
  end.
Definition Identity_hash (i : Identity) : option TorrentHash :=
  match i with
  | Identity_Mam _ => None
  | Identity_Client hash | Identity_Linked _ hash => Some hash
  end.
Definition Identity_mam_id (i : Identity) : option MamTorrentId :=
  match i with
  | Identity_Mam mam | Identity_Linked mam _ => Some mam
  | Identity_Client _ => None
  end.

(** A download Windlass added, as the guard over running downloads sees it. *)
Record Download := mkDownload {
  download_mam : MamTorrentId;
  download_hash : TorrentHash;
  download_desired : Desired;
  download_completion : Completion;
  download_added_at : option SystemTime;
}.
#[global] Instance Download_eq_dec : EqDecision Download.
Proof. solve_decision. Defined.

Definition Download_is_downloading (d : Download) : bool :=
  (download_desired d ==? Desired_Active) && (download_completion d ==? Completion_Incomplete).

Inductive LastSave :=
  | LastSave_Saved
  | LastSave_Failed.
#[global] Instance LastSave_eq_dec : EqDecision LastSave.
Proof. solve_decision. Defined.

Inductive Counters :=
  | Counters_Saved
  | Counters_Unsaved.
#[global] Instance Counters_eq_dec : EqDecision Counters.
Proof. solve_decision. Defined.

Record Entry := mkEntry {
  entry_record : TorrentRecord;
  entry_saved_at : option Instant;
  entry_counters : Counters;
}.
#[global] Instance Entry_eq_dec : EqDecision Entry.
Proof. solve_decision. Defined.

Record Records := mkRecords {
  rec_entries : gmap RecordId Entry;
  rec_by_hash : gmap TorrentHash RecordId;
  rec_by_mam : gmap MamTorrentId RecordId;
  rec_next_id : RecordId;
  rec_unsaved : gset RecordId;
  rec_saving : option (gset RecordId);
  rec_last_save : LastSave;
  rec_last_command : option (TorrentCommand * Instant);
}.
#[global] Instance Records_eq_dec : EqDecision Records.
Proof. solve_decision. Defined.

Inductive Registry :=
  | Registry_Unread
  | Registry_Reading
  | Registry_ReadFailed
  | Registry_Loaded (records : Records).
#[global] Instance Registry_eq_dec : EqDecision Registry.
Proof. solve_decision. Defined.

(** ** Torrents *)

(** Whether some files are not selected. *)
Definition partial (t : Torrent) : bool :=
  (torrent_state t !=? TorrentState_FetchingMetadata) && (torrent_size t <? torrent_total_size t).

Definition untouched (t : Torrent) : bool :=
  (torrent_progress t =? 0) && (torrent_downloaded t =? 0).

(** Whether removing the torrent leaves nothing unsatisfied on MAM. *)
Definition removable (t : Torrent) : bool :=
  let seeded := is_some (torrent_completed_at t) && (SEEDING_TARGET <=? torrent_seeding_time t) in
  seeded || untouched t.

(** Whether a change is saved at once. *)
Definition significant (previous current : Torrent) : bool :=
  (torrent_name previous !=? torrent_name current)
  || (torrent_state previous !=? torrent_state current)
  || (torrent_size previous !=? torrent_size current)
  || (torrent_total_size previous !=? torrent_total_size current)
  || (torrent_added_at previous !=? torrent_added_at current)
  || (torrent_completed_at previous !=? torrent_completed_at current)
  || (torrent_content_path previous !=? torrent_content_path current)
  || (torrent_save_path previous !=? torrent_save_path current).

Definition is_stopped (s : TorrentState) : bool :=
  match s with TorrentState_Stopped _ => true | _ => false end.

(** ** Entries *)

Definition Entry_new (record : TorrentRecord) : Entry := mkEntry record None Counters_Saved.

(** [Entry::observe]: whether the row must be saved now. *)
Definition Entry_observe (self : Entry) (now : Instant) (observation : Observation)
    : Entry * bool :=
  let current := observation_torrent observation in
  let previous := record_observation (entry_record self) in
  let record := entry_record self in
  let self := {| self with entry_record :=
                   {| record with record_observation := Some observation |} |} in
  match previous with
  | Some previous =>
      if significant (observation_torrent previous) current then (self, true)
      else
        let self := if observation_torrent previous !=? current
                    then {| self with entry_counters := Counters_Unsaved |} else self in
        let due := is_none_or (entry_saved_at self)
                     (λ saved_at, COUNTER_SAVE_INTERVAL <=? duration_since now saved_at) in
        (self, (entry_counters self ==? Counters_Unsaved) && due)
  | None => (self, true)
  end.

Definition Entry_set_desired (desired : Desired) (e : Entry) : Entry :=
  let record := entry_record e in
  {| e with entry_record := {| record with record_desired := desired |} |}.

(** ** Rows *)

Definition Records_new (records : list TorrentRecord) : Records := {|
  rec_entries := bt_collect ((λ r, (record_id r, Entry_new r)) <$> records);
  rec_by_hash :=
    bt_collect (omap (λ r, (λ hash, (hash, record_id r)) <$> Identity_hash (record_identity r))
                  records);
  rec_by_mam :=
    bt_collect (omap (λ r, (λ mam, (mam, record_id r)) <$> Identity_mam_id (record_identity r))
                  (filter (λ r, record_desired r = Desired_Removed) records
                   ++ filter (λ r, record_desired r ≠ Desired_Removed) records));
  rec_next_id := match max_list (record_id <$> records) with
                 | Some id => RecordId_after id
                 | None => 1
                 end;
  rec_unsaved := ∅;
  rec_saving := None;
  rec_last_save := LastSave_Saved;
  rec_last_command := None;
|}.

(** Every row, oldest first. *)
Definition records (self : Records) : list TorrentRecord :=
  entry_record <$> bt_values (rec_entries self).

Definition find (self : Records) (hash : TorrentHash) : option TorrentRecord :=
  id ← rec_by_hash self !! hash; entry_record <$> rec_entries self !! id.
Definition find_mam (self : Records) (mam : MamTorrentId) : option TorrentRecord :=
  id ← rec_by_mam self !! mam; entry_record <$> rec_entries self !! id.

(** Downloads Windlass added from MAM, wanted running or held. *)
Definition downloads (self : Records) : list Download :=
  omap (λ record,
    match record_identity record with
    | Identity_Linked mam hash =>
        let seen := observation_torrent <$> record_observation record in
        then_some
          (((record_desired record ==? Desired_Active) || (record_desired record ==? Desired_Held))
           && (record_origin record !=? Origin_Adopted))
          {| download_mam := mam;
             download_hash := hash;
             download_desired := record_desired record;
             download_completion :=
               if is_some_and seen (λ t, is_some (torrent_completed_at t))
               then Completion_Complete else Completion_Incomplete;
             download_added_at := seen ≫= torrent_added_at |}
    | _ => None
    end) (records self).

(** Queued torrents, oldest first. *)
Definition queued (self : Records) : list MamTorrentId :=
  omap (λ record, Identity_mam_id (record_identity record))
    (filter (λ record, record_desired record = Desired_Queued) (records self)).

Definition save_failed (self : Records) : bool := rec_last_save self ==? LastSave_Failed.
Definition knows (self : Records) (mam : MamTorrentId) : bool := is_some (rec_by_mam self !! mam).

Definition set_desired (self : Records) (id : RecordId) (desired : Desired) : Records :=
  {| self with rec_entries := alter (Entry_set_desired desired) id (rec_entries self);
               rec_unsaved := {[id]} ∪ rec_unsaved self |}.

Definition allocate (self : Records) : Records * RecordId :=
  let id := rec_next_id self in
  ({| self with rec_next_id := RecordId_after id |}, id).

Definition adopt (self : Records) (hash : TorrentHash) (torrent : Torrent) : Records * RecordId :=
  let '(self, id) := allocate self in
  ({| self with
      rec_by_hash := <[hash := id]> (rec_by_hash self);
      rec_entries := <[id := Entry_new {|
        record_id := id;
        record_identity := Identity_Client hash;
        record_origin := Origin_Adopted;
        record_desired := Desired_Active;
        record_save_path := torrent_save_path torrent;
        record_deletion := ContentDeletion_NotAllowed;
        record_observation := None |}]> (rec_entries self) |}, id).

(** The mark [save] leaves on a row of the batch. *)
Definition Entry_saved (now : Instant) (e : Entry) : Entry :=
  {| e with entry_saved_at := Some now; entry_counters := Counters_Saved |}.

(** [Records::save]: every changed row in one batch, unless one is outstanding. *)
Definition save (self : Records) (now : Instant) : Records * list Action :=
  if is_some (rec_saving self) || (rec_unsaved self ==? ∅) then (self, [])
  else
    let ids := rec_unsaved self in
    let batch := entry_record <$>
      (filter (λ item, item.1 ∈ ids) (bt_items (rec_entries self))).*2 in
    ({| self with
        rec_unsaved := ∅;
        rec_entries := map_imap (λ id e, Some (if bool_decide (id ∈ ids) then Entry_saved now e else e))
                         (rec_entries self);
        rec_saving := Some ids |},
     [Action_SaveTorrents batch]).

(** One torrent of [Records::observe]. *)
Definition observe_torrent (now : ClockReading) (self : Records)
    (item : TorrentHash * Torrent) : Records :=
  let '(hash, torrent) := item in
  let observation := mkObservation torrent (wall now) in
  let '(self, id) := match rec_by_hash self !! hash with
                     | Some known => (self, known)
                     | None => adopt self hash torrent
                     end in
  let self :=
    match rec_entries self !! id with
    | Some entry =>
        let '(entry, save_now) := Entry_observe entry (monotonic now) observation in
        let self := {| self with rec_entries := <[id := entry]> (rec_entries self) |} in
        if save_now then {| self with rec_unsaved := {[id]} ∪ rec_unsaved self |} else self
    | None => self
    end in
  let completed_while_held :=
    is_some_and (rec_entries self !! id) (λ entry,
      (record_desired (entry_record entry) ==? Desired_Held)
      && is_some (torrent_completed_at torrent)) in
  if completed_while_held then set_desired self id Desired_Active else self.

Definition Records_observe (self : Records) (now : ClockReading) (session : Session)
    : Records * list Action :=
  save (fold_left (observe_torrent now) (bt_items (session_torrents session)) self) (monotonic now).

(** One bookmark of [Records::bookmarked]. *)
Definition bookmark_one (self : Records) (bookmark : MamTorrentId * Desired) : Records :=
  let '(mam, desired) := bookmark in
  if is_some (rec_by_mam self !! mam) then self
  else
    let '(self, id) := allocate self in
    {| self with
       rec_by_mam := <[mam := id]> (rec_by_mam self);
       rec_entries := <[id := Entry_new {|
         record_id := id;
         record_identity := Identity_Mam mam;
         record_origin := Origin_Bookmark;
         record_desired := desired;
         record_save_path := None;
         record_deletion := ContentDeletion_NotAllowed;
         record_observation := None |}]> (rec_entries self);
       rec_unsaved := {[id]} ∪ rec_unsaved self |}.

Definition bookmarked (self : Records) (now : Instant) (bookmarks : list (MamTorrentId * Desired))
    : Records * list Action :=
  save (fold_left bookmark_one bookmarks self) now.

(** Queue a snatched torrent the owner wants again. *)
Definition redownload (self : Records) (now : Instant) (id : RecordId) : Records * list Action :=
  match opt_filter (λ e, record_desired (entry_record e) ==? Desired_Snatched)
          (rec_entries self !! id) with
  | Some entry =>
      let record := entry_record entry in
      save {| self with
              rec_entries := <[id := {| entry with entry_record :=
                {| record with record_desired := Desired_Queued;
                               record_origin := Origin_Redownload |} |}]> (rec_entries self);
              rec_unsaved := {[id]} ∪ rec_unsaved self |} now
  | None => (self, [])
  end.

(** [Records::link] *)
Definition link (self : Records) (id : RecordId) (mam : MamTorrentId) (hash : TorrentHash)
    : Records :=
  let origin := (λ e, record_origin (entry_record e)) <$> rec_entries self !! id in
  let '(self, target) :=
    match rec_by_hash self !! hash with
    | Some existing =>
        if existing !=? id then
          let self := set_desired self id Desired_Removed in
          ({| self with rec_by_mam := <[mam := existing]> (rec_by_mam self) |}, existing)
        else (self, id)
    | None => (self, id)
    end in
  let relink e :=
    let record := entry_record e in
    {| e with entry_record :=
       {| record with record_identity := Identity_Linked mam hash;
                      record_origin := default (record_origin record) origin |} |} in
  let self := {| self with rec_entries := alter relink target (rec_entries self) |} in
  let self := set_desired self target Desired_Active in
  {| self with rec_by_hash := <[hash := target]> (rec_by_hash self) |}.

(** A queued torrent's file was fetched. *)
Definition fetched (self : Records) (now : Instant) (mam : MamTorrentId) (hash : TorrentHash)
    : Records * list Action :=
  save (match rec_by_mam self !! mam with
        | Some id => link self id mam hash
        | None => self
        end) now.

(** A queued bookmark MAM now reports snatched before waits for the owner. *)
Definition snatched (self : Records) (now : Instant) (mam : MamTorrentId) : Records * list Action :=
  save (match opt_filter (λ id, is_some_and (rec_entries self !! id) (λ e,
                (record_desired (entry_record e) ==? Desired_Queued)
                && (record_origin (entry_record e) ==? Origin_Bookmark)))
              (rec_by_mam self !! mam) with
        | Some id => set_desired self id Desired_Snatched
        | None => self
        end) now.

(** Let a held torrent run again. *)
Definition resume (self : Records) (now : Instant) (hash : TorrentHash) : Records * list Action :=
  save (match opt_filter (λ id, is_some_and (rec_entries self !! id) (λ e,
                record_desired (entry_record e) ==? Desired_Held))
              (rec_by_hash self !! hash) with
        | Some id => set_desired self id Desired_Active
        | None => self
        end) now.

(** Stop this torrent and keep it stopped. *)
Definition hold (self : Records) (now : Instant) (hash : TorrentHash) : Records * list Action :=
  save (match rec_by_hash self !! hash with
        | Some id => set_desired self id Desired_Held
        | None => self
        end) now.

(** ** Reconciliation *)

(** Rows with this desire whose torrent qBittorrent lists. *)
Definition present (self : Records) (session : Session) (desired : Desired)
    : list (TorrentHash * Torrent) :=
  omap (λ record,
      hash ← Identity_hash (record_identity record);
      torrent ← session_torrents session !! hash;
      Some (hash, torrent))
    (filter (λ record, record_desired record = desired) (records self)).

(** Whether MAM's current permission, where the row has a MAM ID, allows the
    torrent to transfer content. *)
Definition permitted (permits_download : MamTorrentId → bool) (record : TorrentRecord) : bool :=
  is_none_or (Identity_mam_id (record_identity record)) permits_download.

Definition unsatisfied (t : Torrent) : bool :=
  is_some (torrent_completed_at t) && (torrent_seeding_time t <? SEEDING_TARGET).

(** The first torrent whose files are not all selected. *)
Definition first_partial (self : Records) (session : Session)
    (permits_download : MamTorrentId → bool) : option TorrentHash :=
  find_map (λ record,
    hash ← Identity_hash (record_identity record);
    torrent ← session_torrents session !! hash;
    then_some ((record_desired record ==? Desired_Active) && partial torrent
               && permitted permits_download record) hash) (records self).

(** The first fetched torrent qBittorrent does not have. *)
Definition first_missing (self : Records) (session : Session)
    (permits_download : MamTorrentId → bool) : option TorrentCommand :=
  find_map (λ record,
    match record_identity record with
    | Identity_Linked mam hash =>
        then_some ((record_desired record ==? Desired_Active)
                   && (record_origin record !=? Origin_Adopted)
                   && permits_download mam
                   && negb (is_some (session_torrents session !! hash)))
          (TorrentCommand_Add mam hash)
    | _ => None
    end) (records self).

Definition stopped_hashes (self : Records) (session : Session)
    (permits_download : MamTorrentId → bool) : list TorrentHash :=
  omap (λ record,
      hash ← Identity_hash (record_identity record);
      torrent ← session_torrents session !! hash;
      then_some
        (is_stopped (torrent_state torrent)
         && negb ((record_origin record ==? Origin_Adopted) && untouched torrent)
         && (((torrent_state torrent ==? TorrentState_Stopped Completion_Complete)
              && negb (partial torrent))
             || permitted permits_download record))
        hash)
    (filter (λ record, record_desired record = Desired_Active) (records self)).

(** [Records::reconcile]: the first change needed. *)
Definition reconcile (self : Records) (session : Session)
    (permits_download : MamTorrentId → bool) : option TorrentCommand :=
  let removed := (filter (λ p, removable p.2) (present self session Desired_Removed)).*1 in
  if negb (bool_decide (removed = [])) then Some (TorrentCommand_Remove removed) else
  let running := (filter (λ p, is_none (torrent_completed_at p.2)
                               && negb (is_stopped (torrent_state p.2)))
                    (present self session Desired_Held)).*1 in
  if negb (bool_decide (running = [])) then Some (TorrentCommand_Stop running) else
  match first_partial self session permits_download with
  | Some hash => Some (TorrentCommand_SelectAllFiles hash)
  | None =>
  match first_missing self session permits_download with
  | Some command => Some command
  | None =>
  let stopped := stopped_hashes self session permits_download in
  if negb (bool_decide (stopped = [])) then Some (TorrentCommand_Start stopped) else
  let force := (filter (λ p, unsatisfied p.2 && negb (partial p.2)
                             && (torrent_force_start p.2 ==? ForceStart_NotForced))
                  (present self session Desired_Active)).*1 in
  if negb (bool_decide (force = [])) then Some (TorrentCommand_ForceStart force) else
  let release := (filter (λ p, negb (unsatisfied p.2)
                               && (torrent_force_start p.2 ==? ForceStart_Forced))
                    (present self session Desired_Active)).*1 in
  then_some (negb (bool_decide (release = []))) (TorrentCommand_EndForceStart release)
  end end.

(** [Records::command]: not the same command again within a minute. *)
Definition Records_command (self : Records) (now : Instant) (session : Session)
    (permits_download : MamTorrentId → bool) : Records * option TorrentCommand :=
  match reconcile self session permits_download with
  | None => (self, None)
  | Some command =>
      if is_some_and (rec_last_command self) (λ last,
           (last.1 ==? command) && (duration_since now last.2 <? COMMAND_REPEAT_AFTER))
      then (self, None)
      else ({| self with rec_last_command := Some (command, now) |}, Some command)
  end.

(** ** The registry *)

Definition start_reading (self : Registry) : Registry * list Action :=
  (Registry_Reading, [Action_ReadTorrentRegistry]).

(** [Registry::handle] *)
Definition handle (self : Registry) (now : Instant) (event : RegistryEvent)
    : Registry * list Action :=
  match self, event with
  | Registry_Reading, RegistryEvent_Read rows => (Registry_Loaded (Records_new rows), [])
  | Registry_Reading, RegistryEvent_ReadFailed => (Registry_ReadFailed, [])
  | Registry_Loaded r, RegistryEvent_Saved =>
      if is_some (rec_saving r) then
        let '(r, actions) :=
          save {| r with rec_saving := None; rec_last_save := LastSave_Saved |} now in
        (Registry_Loaded r, actions)
      else (self, [])
  | Registry_Loaded r, RegistryEvent_Redownload id =>
      let '(r, actions) := redownload r now id in (Registry_Loaded r, actions)
  | Registry_Loaded r, RegistryEvent_SaveFailed =>
      match rec_saving r with
      | Some saving =>
          (Registry_Loaded {| r with rec_unsaved := rec_unsaved r ∪ saving;
                                     rec_saving := None;
                                     rec_last_save := LastSave_Failed |}, [])
      | None => (self, [])
      end
  | _, _ => (self, [])
  end.

(** Adopt unknown torrents and record what qBittorrent reports. *)
Definition observe (self : Registry) (now : ClockReading) (session : Session)
    : Registry * list Action :=
  match self with
  | Registry_Loaded r =>
      if listed session then
        let '(r, actions) := Records_observe r now session in (Registry_Loaded r, actions)
      else (self, [])
  | _ => (self, [])
  end.

(** The change qBittorrent needs to match the registry, if any. *)
Definition command (self : Registry) (now : Instant) (session : Session)
    (permits_download : MamTorrentId → bool) : Registry * option TorrentCommand :=
  match self with
  | Registry_Loaded r =>
      if listed session then
        let '(r, c) := Records_command r now session permits_download in (Registry_Loaded r, c)
      else (self, None)
  | _ => (self, None)
  end.

Definition loaded (self : Registry) : option Records :=
  match self with Registry_Loaded r => Some r | _ => None end.
