(* ===== verification/RatioGuard.v ===== *)
(** * The watch over ratio use

    MAM's downloaded figure must not rise; when it does, every download stops
    until the owner has checked ([core/mam/ratio_guard.rs]). *)

From S2P Require Import Prelude Values Vocabulary MamApi Messages.

(** The bytes MAM counted against the ratio. *)
Definition RatioUse_counted (used : RatioUse) : ByteSize :=
  ByteSize_less (use_after used) (use_before used).

Inductive RatioGuard :=
  | RatioGuard_Reading
  | RatioGuard_ReadFailed
  | RatioGuard_Watching (downloaded : option ByteSize)
  | RatioGuard_Tripped (used : RatioUse).
#[global] Instance RatioGuard_eq_dec : EqDecision RatioGuard.
Proof. solve_decision. Defined.

(** What a reading changed. *)
Inductive Seen :=
  | Seen_Unchanged
  | Seen_Rebased (saved : SavedRatioGuard)
  | Seen_Tripped (used : RatioUse).
#[global] Instance Seen_eq_dec : EqDecision Seen.
Proof. solve_decision. Defined.

(** The guard read from storage. *)
Definition restored (saved : SavedRatioGuard) : RatioGuard :=
  match saved with
  | SavedRatioGuard_Unset => RatioGuard_Watching None
  | SavedRatioGuard_Watching downloaded => RatioGuard_Watching (Some downloaded)
  | SavedRatioGuard_Tripped used => RatioGuard_Tripped used
  end.

Definition permits_downloads (self : RatioGuard) : bool :=
  match self with RatioGuard_Watching _ => true | _ => false end.

(** Note the downloaded figure from a reading. *)
Definition observe (self : RatioGuard) (downloaded : ByteSize) (at_ : SystemTime)
    : RatioGuard * Seen :=
  match self with
  | RatioGuard_Watching watched =>
      let rebase :=
        (RatioGuard_Watching (Some downloaded),
         Seen_Rebased (SavedRatioGuard_Watching downloaded)) in
      match watched with
      | Some before =>
          if before <? downloaded then
            let used := mkRatioUse before downloaded at_ in
            (RatioGuard_Tripped used, Seen_Tripped used)
          else if downloaded =? before then (self, Seen_Unchanged)
          else rebase
      | None => rebase
      end
  | _ => (self, Seen_Unchanged)
  end.

(** The owner checked what used ratio: watch again from the latest figure. *)
Definition checked (self : RatioGuard) (latest : option ByteSize)
    : RatioGuard * option SavedRatioGuard :=
  match self with
  | RatioGuard_Tripped used =>
      let downloaded := default (use_after used) latest in
      (RatioGuard_Watching (Some downloaded), Some (SavedRatioGuard_Watching downloaded))
  | _ => (self, None)
  end.
