(* ===== verification/Describe.v ===== *)
(** * Words

    The plain-language descriptions of events and actions that the history shows and
    notices reuse ([shell/describe.rs]), with the [Display] forms of the values they
    name. The text of a wall time is made by the [time] crate, a parameter. *)

From S2P Require Import Prelude Values Vocabulary MamApi Messages.
From S2P Require Import Bytes Text.
From S2P Require Import Floats.
From S2P Require Import Address.
From S2P Require Import RatioGuard.

(** The [time] crate's RFC 3339 form, in UTC, of the time this long after 1970; [None]
    where it has none. *)
Class Rfc3339 := rfc3339 : Duration → option string.

(** ** Formatting *)

(** [format!] of its pieces in order. *)
Definition say (pieces : list string) : string := String.concat EmptyString pieces.
Definition num (n : Z) : string := t (print_Z n).
Definition count_of {A} (l : list A) : string := num (Z.of_nat (length l)).
Definition ip_text (ip : IpAddr) : string := t (print_ip ip).

(** [Duration::as_secs_f64], and the form with one decimal of a number that is not
    negative, halves to the even digit. *)
Definition as_secs_f64 (d : Duration) : f64 :=
  SFadd 53 1024 (f64_of (d / NANOS_PER_SEC))
    (SFdiv 53 1024 (f64_of (d mod NANOS_PER_SEC)) (f64_of NANOS_PER_SEC)).
Definition tenths_text (tenths : Z) : string := say [num (tenths / 10); "."; num (tenths mod 10)]%string.
Definition one_decimal (x : f64) : string :=
  match x with
  | S754_finite false m e =>
      tenths_text (round_half_even (Z.pos m * 10 * 2 ^ Z.max e 0) (2 ^ Z.max (- e) 0))
  | _ => tenths_text 0
  end.

(** ** The [Display] forms of the core's values *)

Local Open Scope string_scope.
Local Open Scope Z_scope.

Definition Ratio_fmt (r : Ratio) : string :=
  let hundredths := r mod 1000 / 10 in
  say [num (r / 1000); "."; num (hundredths / 10); num (hundredths mod 10)].
Definition Asn_fmt (asn : Asn) : string := say ["AS"; num asn].
Definition ReportedVersion_fmt (version : ReportedVersion) : string :=
  match version with
  | ReportedVersion_Release version => ClientVersion_fmt version
  | ReportedVersion_Unrecognised text => text
  end.
Definition NatPmpRefusal_fmt (refusal : NatPmpRefusal) : string :=
  match refusal with
  | NatPmpRefusal_UnsupportedVersion => "unsupported version"
  | NatPmpRefusal_NotAuthorized => "not authorized"
  | NatPmpRefusal_NetworkFailure => "network failure"
  | NatPmpRefusal_OutOfResources => "out of resources"
  | NatPmpRefusal_UnsupportedOpcode => "unsupported opcode"
  end.
Definition QueueLimit_fmt (limit : QueueLimit) : string :=
  match limit with
  | QueueLimit_Unlimited => "no limit"
  | QueueLimit_At count => num count
  end.

(** ** Words without a time *)

Definition CATEGORIES : list (string * string) :=
  [("startup", "Startup"); ("mam", "MAM requests"); ("settings", "Settings");
   ("history", "History"); ("vpn", "VPN"); ("qbittorrent", "qBittorrent");
   ("torrents", "Torrent registry"); ("notifications", "Notifications")].

Definition timer (name : TimerName) : string :=
  match name with
  | TimerName_QbittorrentPoll => "qBittorrent poll"
  | TimerName_PortLease => "forwarded-port lease"
  | TimerName_TunnelCheck => "tunnel check"
  | TimerName_NotificationGrace => "notification grace period"
  | TimerName_NotificationRetry => "notification retry"
  | TimerName_Mam => "MAM work"
  end.

(** The loop of [size]: the value, its tenths and its unit, and the larger units left. *)
Fixpoint in_unit (value tenths : Z) (unit : string) (larger : list string) : Z * Z * string :=
  match larger with
  | next :: larger =>
      if 1024 <=? value
      then in_unit (value / 1024) (value mod 1024 * 10 / 1024) next larger
      else (value, tenths, unit)
  | [] => (value, tenths, unit)
  end.
(** A size in the largest binary unit that keeps it at 1 or more. *)
Definition size (bytes : ByteSize) : string :=
  let '(value, tenths, unit) := in_unit bytes 0 "B" ["KiB"; "MiB"; "GiB"; "TiB"] in
  if String.eqb unit "B" then say [num value; " "; unit]
  else say [num value; "."; num tenths; " "; unit].

(** A size in GiB with one decimal. *)
Definition gib (size : ByteSize) : string :=
  let tenths := size * 10 / 2 ^ 30 in
  say [num (tenths / 10); "."; num (tenths mod 10); " GiB"].

Definition rejection (rejection : SessionRejection) : string :=
  match rejection with
  | SessionRejection_InvalidCookie => "the API cookie is missing, invalid, or expired"
  | SessionRejection_IpMismatch => "the session is locked to another IP"
  | SessionRejection_AsnMismatch => "the session is locked to another network (ASN)"
  | SessionRejection_NotAllowed => "the session may not set the dynamic seedbox IP"
  | SessionRejection_Other => "MAM refused the session"
  end.

Definition mam_failure (failure : MamFailure) : string :=
  match failure with
  | MamFailure_Session reason => say ["MAM refused the session: "; rejection reason]
  | MamFailure_TooSoon (Some after) =>
      say ["MAM asked Windlass to wait "; num (as_secs after); " seconds"]
  | MamFailure_TooSoon None => "MAM asked Windlass to wait"
  | MamFailure_Refused (Some message) => say ["MAM refused: "; message]
  | MamFailure_Refused None => "MAM refused without a torrent file or reason"
  | MamFailure_NotKept => "the torrent file could not be kept in storage"
  | MamFailure_Unreachable => "MAM did not answer"
  | MamFailure_Rejected status => say ["MAM answered with HTTP status "; num status]
  | MamFailure_Malformed => "MAM's answer was not understood"
  end.

(** What Windlass checked and found when MAM could not reach qBittorrent. *)
Definition findings (found : Findings) : string :=
  let port :=
    match findings_listen_port found with
    | PortFinding_Matches port => say ["qBittorrent listens on the forwarded port "; num port]
    | PortFinding_Differs (Some listening) forwarded =>
        say ["qBittorrent listened on "; num listening; ", not the forwarded port ";
             num forwarded; "; Windlass is setting it"]
    | PortFinding_Differs None forwarded =>
        say ["qBittorrent's listen port is unknown; the forwarded port is "; num forwarded]
    | PortFinding_NoForwardedPort => "the VPN forwards no port"
    end in
  let lease := if findings_lease found ==? LeaseRenewal_Requested
               then "a new forwarded-port lease was asked for"
               else "no lease could be renewed" in
  let ip :=
    match findings_exit_ip found with
    | IpFinding_Matches ip => say ["MAM sees "; ip_text ip; ", the tunnel's exit IP"]
    | IpFinding_Differs mam tunnel =>
        say ["MAM sees "; ip_text mam; ", but the tunnel's exit IP is "; ip_text tunnel]
    | IpFinding_Unknown => "the IP MAM sees, or the tunnel's, is unknown"
    end in
  let registration :=
    if findings_seedbox found ==? SeedboxConfirmation_Confirmed
    then "the seedbox registration was confirmed and is renewed when allowed"
    else "the seedbox registration was not confirmed; Windlass registers when allowed" in
  let interface :=
    match findings_interface found with
    | None => "qBittorrent is not bound to an interface"
    | Some interface => say ["qBittorrent is bound to "; interface]
    end in
  say [port; "; "; lease; "; "; ip; "; "; registration; "; "; interface].

(** What MAM's client list says about the running qBittorrent. *)
Definition client_standing (standing : ClientStanding) : string :=
  match standing with
  | ClientStanding_Unknown => "not read yet"
  | ClientStanding_NoneListed => "MAM lists no client yet"
  | ClientStanding_Listed => "MAM lists the running version"
  | ClientStanding_NotListed => "MAM lists qBittorrent, but not the running version"
  | ClientStanding_Refused => "MAM marks the running version as not allowed"
  | ClientStanding_NotUnderstood =>
      "MAM lists clients in a form Windlass cannot match to qBittorrent"
  end.

(** Why the next bookmarked torrent waits. *)
Definition hold (hold : Hold) : string :=
  match hold with
  | Hold_MamUnavailable =>
      "MAM requests are paused, the VPN is down, or MAM refused the session"
  | Hold_SeedboxUnconfirmed => "MAM has not confirmed the seedbox for the current IP"
  | Hold_DownloadsRefused =>
      "MAM refused a download; downloads stay held until Windlass restarts or the cookie changes"
  | Hold_ClientUnavailable => "qBittorrent is not connected, or MAM does not allow its version"
  | Hold_MamClientList standing =>
      say ["MAM's client list does not show the running qBittorrent as allowed: ";
           client_standing standing]
  | Hold_DownloadingLimit downloading limit =>
      say [num downloading; " downloads are running, and the limit is "; num limit]
  | Hold_AccountUnknown => "the account has not been read from MAM yet"
  | Hold_RatioLow => "the ratio is below 2.0"
  | Hold_UnsatisfiedLimit count limit =>
      say [num count; " unsatisfied torrents of MAM's limit of "; num limit;
           " leave no slot after the reserve of 2"]
  | Hold_NoWedge => "the torrent needs a wedge and none is left"
  | Hold_RatioUsed =>
      "MAM counted downloaded bytes against the ratio; downloads stay stopped until you check"
  | Hold_RatioGuardUnknown =>
      "Windlass has not read whether ratio was used before, so it cannot tell"
  | Hold_NotBookmarked => "the queued torrents are no longer bookmarked"
  end.

(** A torrent as MAM lists it now. *)
Definition looked_up (listing : Bookmark) : string :=
  say ["MAM torrent "; num (bookmark_id listing); " looked up: ";
       match bookmark_freeleech listing with
       | Freeleech_ForEveryone => "freeleech, "
       | Freeleech_No => EmptyString
       end;
       match bookmark_vip listing with
       | VipTorrent_No => EmptyString
       | VipTorrent_Indefinitely | VipTorrent_Until _ => "VIP, "
       end;
       match bookmark_personal listing with
       | PersonalFreeleech_No => "not free for you"
       | PersonalFreeleech_ThroughVip => "free for you through VIP"
       | PersonalFreeleech_ThroughWedge => "free for you through a wedge"
       end;
       match bookmark_snatched listing with
       | Snatched_Before => ", snatched before"
       | Snatched_Never => EmptyString
       end].

Definition purchase (purchase : Purchase) : string :=
  match purchase with Purchase_Vip => "VIP, filled to 90 days" end.

Definition mam_request (request : MamRequest) : string :=
  match request with
  | MamRequest_LookUpIp => "Ask MAM which IP it sees"
  | MamRequest_RegisterSeedbox => "Register the seedbox IP with MAM"
  | MamRequest_LoadUserData clients =>
      say ["Read the account from MAM";
           if clients ==? ClientListing_Include then ", with the client list" else EmptyString]
  | MamRequest_ListBookmarks start => say ["List bookmarks from number "; num start]
  | MamRequest_FetchTorrent id wedge =>
      say ["Download the torrent file of MAM torrent "; num id; ", ";
           if wedge ==? Wedge_Spend then "spending a wedge" else "without a wedge"]
  | MamRequest_Buy bought => say ["Buy "; purchase bought]
  | MamRequest_WedgeHistory => "Read the wedges spent, from MAM's bonus history"
  | MamRequest_LookUpTorrent id => say ["Look up MAM torrent "; num id; " as it is now"]
  end.

Definition mapping_failure (reason : MappingFailure) : string :=
  match reason with
  | MappingFailure_NoResponse => "the gateway did not answer"
  | MappingFailure_Refused reason =>
      say ["the gateway refused the mapping: "; NatPmpRefusal_fmt reason]
  | MappingFailure_Malformed => "the gateway's answer was not valid"
  end.

Definition qbittorrent_failure (reason : QbittorrentFailure) : string :=
  match reason with
  | QbittorrentFailure_Unreachable => "qBittorrent did not answer"
  | QbittorrentFailure_Rejected status =>
      say ["qBittorrent answered with HTTP status "; num status]
  | QbittorrentFailure_Malformed => "qBittorrent's answer was not understood"
  end.

Definition startup_mode (mode : StartupMode) : string :=
  match mode with
  | StartupMode_Initialise => "initialise new storage"
  | StartupMode_Resume => "resume existing storage"
  end.

Definition request_mode (mode : MamRequestMode) : string :=
  match mode with
  | MamRequestMode_Paused => "paused"
  | MamRequestMode_Enabled => "running"
  end.

Definition delivery_failure (reason : DeliveryFailure) : string :=
  match reason with
  | DeliveryFailure_Unreachable => "ntfy did not answer"
  | DeliveryFailure_Rejected status => say ["ntfy answered with HTTP status "; num status]
  end.

Definition exit_ip_failure (reason : ExitIpFailure) : string :=
  match reason with
  | ExitIpFailure_Unreachable => "the exit-IP service did not answer"
  | ExitIpFailure_Rejected status =>
      say ["the exit-IP service answered with HTTP status "; num status]
  | ExitIpFailure_Malformed => "the exit-IP service's answer was not an address"
  end.

Definition notification (event : NotificationEvent) : string :=
  match event with
  | NotificationEvent_SendTest => "Test notification requested"
  | NotificationEvent_Delivered => "Notification delivered"
  | NotificationEvent_DeliveryFailed reason =>
      say ["Notification not delivered: "; delivery_failure reason]
  | NotificationEvent_LogRead (Some last) =>
      say ["Notifications log read; newest notice "; num last]
  | NotificationEvent_LogRead None => "Notifications log read; empty"
  | NotificationEvent_LogReadFailed => "Notifications log could not be read"
  | NotificationEvent_Saved => "Notice saved"
  | NotificationEvent_SaveFailed => "Notice could not be saved"
  end.

Definition registry (event : RegistryEvent) : string :=
  match event with
  | RegistryEvent_Redownload id =>
      say ["Download torrent row "; num id; " again, as asked on the dashboard"]
  | RegistryEvent_Read records => say ["Torrent registry read: "; count_of records; " rows"]
  | RegistryEvent_ReadFailed => "Torrent registry could not be read"
  | RegistryEvent_Saved => "Torrent registry saved"
  | RegistryEvent_SaveFailed => "Torrent registry could not be saved"
  end.

Definition torrent_command (command : TorrentCommand) : string :=
  match command with
  | TorrentCommand_Start hashes => say ["Start "; count_of hashes; " stopped torrents"]
  | TorrentCommand_SelectAllFiles hash => say ["Select every file of torrent "; hash]
  | TorrentCommand_Remove hashes => say ["Remove "; count_of hashes; " torrents and their files"]
  | TorrentCommand_Stop hashes => say ["Stop "; count_of hashes; " held torrents"]
  | TorrentCommand_ForceStart hashes =>
      say ["Force-start "; count_of hashes; " torrents still short of 96 hours of seeding"]
  | TorrentCommand_EndForceStart hashes =>
      say ["Return "; count_of hashes; " torrents that have seeded 96 hours to qBittorrent's queue"]
  | TorrentCommand_Add mam hash =>
      say ["Add MAM torrent "; num mam; " ("; hash; ") from its kept torrent file"]
  end.

Definition port_forwarding (event : PortForwardingEvent) : string :=
  match event with
  | PortForwardingEvent_Enable => "Port forwarding started"
  | PortForwardingEvent_Mapped tcp udp lifetime =>
      say ["Forwarded ports granted: TCP "; num tcp; ", UDP "; num udp; ", for ";
           num (as_secs lifetime); " seconds"]
  | PortForwardingEvent_MappingFailed reason =>
      say ["Port forwarding failed: "; mapping_failure reason]
  end.

Definition qbittorrent (event : QbittorrentEvent) : string :=
  match event with
  | QbittorrentEvent_Enable => "Connecting to qBittorrent"
  | QbittorrentEvent_Connected version _ =>
      say ["Connected to qBittorrent "; ReportedVersion_fmt version]
  | QbittorrentEvent_ConnectFailed reason =>
      say ["Could not connect: "; qbittorrent_failure reason]
  | QbittorrentEvent_Synced update =>
      say ["qBittorrent update: "; count_of (sync_torrents update); " torrents changed, ";
           count_of (sync_removed update); " removed";
           match sync_scope update with
           | SyncScope_Full => " (full list)"
           | SyncScope_Changes => EmptyString
           end]
  | QbittorrentEvent_SyncFailed reason =>
      say ["Reading qBittorrent failed: "; qbittorrent_failure reason]
  | QbittorrentEvent_PreferencesRead preferences =>
      say ["qBittorrent preferences read: listen port ";
           match preferences_listen_port preferences with Some port => num port | None => "none" end;
           ", interface ";
           match preferences_interface preferences with Some i => i | None => "any" end]
  | QbittorrentEvent_PreferencesReadFailed reason =>
      say ["Reading qBittorrent preferences failed: "; qbittorrent_failure reason]
  | QbittorrentEvent_ListenPortSet => "qBittorrent accepted the new listen port"
  | QbittorrentEvent_QueueSet => "qBittorrent accepted the new queue settings"
  | QbittorrentEvent_QueueSetFailed reason =>
      say ["Setting qBittorrent's queue failed: "; qbittorrent_failure reason]
  | QbittorrentEvent_ListenPortSetFailed reason =>
      say ["Setting qBittorrent's listen port failed: "; qbittorrent_failure reason]
  | QbittorrentEvent_CommandDone => "qBittorrent accepted the torrent change"
  | QbittorrentEvent_CommandFailed reason =>
      say ["Changing qBittorrent's torrents failed: "; qbittorrent_failure reason]
  end.

Definition mam_pause (event : MamPauseEvent) : string :=
  match event with
  | MamPauseEvent_Set MamRequestMode_Paused => "Pause of MAM requests requested"
  | MamPauseEvent_Set MamRequestMode_Enabled => "Resume of MAM requests requested"
  | MamPauseEvent_Delete => "Removal of the saved MAM request choice requested"
  | MamPauseEvent_Read None => "MAM request choice read: none saved, so requests are paused"
  | MamPauseEvent_Read (Some MamRequestMode_Paused) => "MAM request choice read: paused"
  | MamPauseEvent_Read (Some MamRequestMode_Enabled) => "MAM request choice read: running"
  | MamPauseEvent_ReadFailed => "MAM request choice could not be read"
  | MamPauseEvent_Written => "MAM request choice saved"
  | MamPauseEvent_WriteFailed => "MAM request choice could not be saved"
  | MamPauseEvent_Deleted => "Saved MAM request choice removed"
  | MamPauseEvent_DeleteFailed => "Saved MAM request choice could not be removed"
  end.

Definition settings (event : SettingsEvent) : string :=
  match event with
  | SettingsEvent_Read history_limit api_cookie ntfy_topic points_reserve torrent_limits =>
      let configured (set : bool) := if set then "configured" else "not configured" in
      let limits := default TorrentLimits_default torrent_limits in
      say ["Settings read: history limit "; num (default HistoryLimit_default history_limit);
           ", API cookie "; configured (is_some api_cookie);
           ", notification topic "; configured (is_some ntfy_topic);
           ", points reserve "; num (default PointsReserve_default points_reserve);
           ", at most "; num (limits_downloading limits); " downloading and ";
           num (limits_active limits); " active torrents"]
  | SettingsEvent_ReadFailed => "Settings could not be read"
  | SettingsEvent_SetHistoryLimit limit =>
      say ["History limit change to "; num limit; " entries requested"]
  | SettingsEvent_HistoryLimitWritten => "History limit saved"
  | SettingsEvent_HistoryLimitWriteFailed => "History limit could not be saved"
  | SettingsEvent_SetApiCookie _ =>
      "API cookie replaced from the dashboard (value not recorded)"
  | SettingsEvent_ClearApiCookie => "API cookie removal requested"
  | SettingsEvent_ApiCookieWritten => "API cookie change saved"
  | SettingsEvent_ApiCookieWriteFailed => "API cookie change could not be saved"
  | SettingsEvent_SetNtfyTopic _ =>
      "Notification topic replaced from the dashboard (value not recorded)"
  | SettingsEvent_ClearNtfyTopic => "Notification topic removal requested"
  | SettingsEvent_NtfyTopicWritten => "Notification topic change saved"
  | SettingsEvent_NtfyTopicWriteFailed => "Notification topic change could not be saved"
  | SettingsEvent_SetPointsReserve reserve =>
      say ["Points reserve change to "; num reserve; " requested"]
  | SettingsEvent_PointsReserveWritten => "Points reserve saved"
  | SettingsEvent_PointsReserveWriteFailed => "Points reserve could not be saved"
  | SettingsEvent_SetTorrentLimits limits =>
      say ["Torrent limits change to "; num (limits_downloading limits); " downloading and ";
           num (limits_active limits); " active requested"]
  | SettingsEvent_TorrentLimitsWritten => "Torrent limits saved"
  | SettingsEvent_TorrentLimitsWriteFailed => "Torrent limits could not be saved"
  | SettingsEvent_RotatedApiCookieWritten => "The new API cookie MAM issued was saved"
  | SettingsEvent_RotatedApiCookieWriteFailed =>
      "The new API cookie MAM issued could not be saved; the saved one stays in use"
  end.

(** ** Words with a time *)

Section describe.
Context `{!Rfc3339}.

(** Wall time as UTC RFC 3339; a time that has no such form is left empty. *)
Definition timestamp (time : SystemTime) : string :=
  default EmptyString (since ← wall_duration_since time 0; rfc3339 since).

(** The ratio guard as storage keeps it. *)
Definition saved_ratio_guard (guard : SavedRatioGuard) : string :=
  match guard with
  | SavedRatioGuard_Unset => "no downloaded figure watched yet"
  | SavedRatioGuard_Watching downloaded =>
      say ["watching MAM's downloaded figure of "; size downloaded]
  | SavedRatioGuard_Tripped used =>
      say ["ratio used: MAM counted "; size (RatioUse_counted used);
           " on "; timestamp (use_at used); "; downloads stopped until you check"]
  end.

Definition optional_time (time : option SystemTime) : string :=
  match time with None => "none" | Some time => timestamp time end.

Definition mam (event : MamEvent) : string :=
  match event with
  | MamEvent_Enable => "MAM work started"
  | MamEvent_Answered result rotated =>
      let answer :=
        match result with
        | Ok (MamReply_Ip observed) =>
            say ["MAM sees IP "; ip_text (observed_ip observed); " in "; Asn_fmt (observed_asn observed);
                 match observed_provider observed with
                 | Some name => say [" ("; name; ")"]
                 | None => EmptyString
                 end]
        | Ok (MamReply_Registered Registration_Completed ip) =>
            say ["MAM registered "; ip_text ip; " as the seedbox IP"]
        | Ok (MamReply_Registered Registration_NoChange ip) =>
            say ["MAM already had "; ip_text ip; " as the seedbox IP"]
        | Ok (MamReply_UserData data) =>
            say ["Account read: "; num (data_points data); " points, "; num (data_wedges data);
                 " wedges, "; gib (UserData_buffer data); " uploaded beyond downloads";
                 match data_summary data with
                 | Some summary =>
                     say [", "; num (summary_unsatisfied summary); " of ";
                          num (summary_unsatisfied_limit summary); " unsatisfied"]
                 | None => EmptyString
                 end]
        | Ok (MamReply_Bookmarks page) =>
            say ["Bookmarks listed: "; count_of (page_bookmarks page); " on this page of ";
                 num (page_found page)]
        | Ok (MamReply_Fetched fetched) =>
            say ["Torrent file fetched and kept: "; fetched_hash fetched; ", ";
                 gib (fetched_size fetched)]
        | Ok (MamReply_Purchased points) => say ["Purchase made; "; num points; " points left"]
        | Ok (MamReply_Torrent (Some listing)) => looked_up listing
        | Ok (MamReply_Torrent None) => "MAM no longer lists the torrent"
        | Ok (MamReply_WedgeHistory spent) =>
            say ["Bonus history read: "; count_of spent; " wedges spent"]
        | Err failure => say ["MAM request failed: "; mam_failure failure]
        end in
      if is_some rotated then say [answer; " (MAM issued a new cookie, not recorded)"] else answer
  | MamEvent_StateRead last_registration last_reminder ratio_guard =>
      say ["MAM state read: last seedbox registration "; optional_time last_registration;
           ", last visit reminder "; optional_time last_reminder; ", ";
           saved_ratio_guard ratio_guard]
  | MamEvent_StateReadFailed => "MAM state could not be read; seedbox registration waits"
  | MamEvent_RegistrationAttemptSaved => "Seedbox registration attempt recorded"
  | MamEvent_RegistrationAttemptSaveFailed =>
      "Seedbox registration attempt could not be recorded, so it was not sent"
  | MamEvent_PurchaseChecked Sale_Made =>
      "You checked on MAM: the uncertain purchase went through"
  | MamEvent_PurchaseChecked Sale_NotMade =>
      "You checked on MAM: the uncertain purchase did not go through"
  | MamEvent_RatioUseChecked => "You checked on MAM what used ratio; downloads may run again"
  | MamEvent_RatioGuardSaved => "Ratio guard saved"
  | MamEvent_RatioGuardSaveFailed =>
      "Ratio guard could not be saved; after a restart MAM's downloaded figure is compared with the last one saved"
  | MamEvent_ReminderSaved => "MAM visit reminder time saved"
  | MamEvent_ReminderSaveFailed => "MAM visit reminder time could not be saved"
  end.

Definition tunnel (event : TunnelEvent) : string :=
  match event with
  | TunnelEvent_Enable servers current =>
      say ["Tunnel checks started with "; count_of servers; " servers; connected to ";
           default "an unknown server" current]
  | TunnelEvent_ExitIpObserved ip => say ["Tunnel works; exit IP "; ip_text ip]
  | TunnelEvent_ExitIpCheckFailed reason => say ["Tunnel check failed: "; exit_ip_failure reason]
  | TunnelEvent_LastSwitchRead None => "No earlier VPN server switch is recorded"
  | TunnelEvent_LastSwitchRead (Some switch) =>
      say ["Last VPN server switch read: to "; switch_server switch; " at ";
           timestamp (switch_at switch)]
  | TunnelEvent_LastSwitchReadFailed =>
      "The last VPN server switch could not be read; switches are blocked"
  | TunnelEvent_SwitchSaved => "VPN server switch recorded"
  | TunnelEvent_SwitchSaveFailed => "VPN server switch could not be recorded, so it did not start"
  | TunnelEvent_Switched => "VPN server switch completed"
  | TunnelEvent_SwitchFailed => "VPN server switch failed"
  end.

Definition history (event : HistoryEvent) : string :=
  match event with
  | HistoryEvent_Opened retained => say ["History opened with "; num retained; " entries"]
  | HistoryEvent_OpenFailed => "History could not be opened"
  | HistoryEvent_Trimmed retained =>
      say ["Oldest history removed; "; num retained; " entries kept"]
  | HistoryEvent_TrimFailed => "Oldest history could not be removed"
  | HistoryEvent_EntriesLost count from until =>
      say ["History could not be saved: "; num count; " entries are missing, processed from ";
           timestamp from; " to "; timestamp until]
  end.

Definition event (event : Event) : string :=
  match event with
  | Event_Startup (StartupEvent_Start mode) =>
      say ["Startup requested ("; startup_mode mode; ")"]
  | Event_Startup StartupEvent_StorageOpened => "Storage opened"
  | Event_Startup StartupEvent_StorageOpenFailed => "Storage could not be opened"
  | Event_MamPause event => mam_pause event
  | Event_Settings event => settings event
  | Event_History event => history event
  | Event_TimerExpired name _ => say ["Timer expired: "; timer name]
  | Event_PortForwarding event => port_forwarding event
  | Event_Qbittorrent event => qbittorrent event
  | Event_Registry event => registry event
  | Event_Tunnel event => tunnel event
  | Event_Notification event => notification event
  | Event_Mam event => mam event
  end.
End describe.
