(* ===== verification/NoticeWords.v ===== *)
(** * Words of notices and of actions

    What every notice says, how urgently it is pushed and which page explains it
    ([message] of [shell/notify.rs]), what a push carries outside, and the history's
    words for actions, which quote a notice's title ([describe::action]). *)

From S2P Require Import Prelude Values Vocabulary MamApi Messages.
From S2P Require Import Bytes Text.
From S2P Require Import Address Describe.

Local Open Scope string_scope.
Local Open Scope Z_scope.

Definition MAM_HOME : string := "https://www.myanonamouse.net/".
(** What every push says. *)
Definition PUSH_TITLE : string := "Windlass".
Definition PUSH_BODY : string :=
  "Windlass has a new notice. Open it to read it on the dashboard.".
Definition NTFY_SH : string := "https://ntfy.sh/".
Definition SEND_TIMEOUT : Duration := from_secs 20.

(** What a notice says, with ntfy's priority, from 1 (min) to 5 (urgent), and the
    dashboard page that explains it. *)
Record Message := mkMessage {
  message_title : string;
  message_body : string;
  message_priority : Z;
  message_page : string;
}.

Definition torrents (count : TorrentCount) : string :=
  if count =? 1 then "1 torrent" else say [num count; " torrents"].

Definition setting (setting : SettingName) : string :=
  match setting with
  | SettingName_MamRequests => "The MAM request pause or resume"
  | SettingName_HistoryLimit => "The history limit"
  | SettingName_ApiCookie => "The MAM API cookie"
  | SettingName_NtfyTopic => "The notification topic"
  | SettingName_PointsReserve => "The bonus points reserve"
  end.

(** The notice's entry on the notifications page, or the page itself. *)
Definition entry_page (push : Push) : string :=
  match push_entry push with
  | None => "/notifications"
  | Some id => say ["/notifications#notice-"; num id]
  end.

Section notify.
Context `{!Rfc3339}.

Definition blocked (reason : SwitchBlock) : string :=
  match reason with
  | SwitchBlock_Until at_ =>
      say ["MAM allows one VPN IP change an hour, so Windlass can switch servers after ";
           timestamp at_; "."]
  | SwitchBlock_LastSwitchUnknown =>
      "Windlass could not read when it last switched servers, so it will not switch."
  | SwitchBlock_NoOtherServer => "No other VPN server is configured."
  end.

Definition at_mam (title body : string) (priority : Z) : Message :=
  mkMessage title body priority "/#mam".

(** The words, priority, and dashboard page for a notice. *)
Definition message (notice : Notice) : Message :=
  match notice with
  | Notice_Started mode =>
      mkMessage "Windlass started"
        match mode with
        | StartupMode_Initialise => "Windlass started with new storage."
        | StartupMode_Resume => "Windlass started and resumed its saved state."
        end 2 "/"
  | Notice_StartupFailed =>
      mkMessage "Windlass could not start"
        "Startup failed, so Windlass does nothing until it is restarted. The dashboard shows the storage error."
        5 "/"
  | Notice_VpnProtectionLost failures =>
      mkMessage "VPN not working"
        (say ["The last "; num failures; " tunnel checks failed, so torrent traffic is stopped."])
        4 "/#tunnel"
  | Notice_VpnProtectionRestored exit_ip server =>
      mkMessage "VPN working again"
        (say ["Traffic flows through "; default "the VPN" server; " with exit IP ";
              ip_text exit_ip; "."])
        3 "/#tunnel"
  | Notice_FailoverStarted server =>
      mkMessage "Switching VPN server"
        (say ["The tunnel stopped working, so Windlass is switching to "; server; "."])
        4 "/#tunnel"
  | Notice_FailoverSucceeded server =>
      mkMessage "VPN server switched"
        (say ["Windlass now uses "; server; " and is checking the tunnel."])
        3 "/#tunnel"
  | Notice_FailoverFailed server =>
      mkMessage "VPN server switch failed"
        (say ["Switching to "; server; " failed. Windlass keeps checking the tunnel."])
        5 "/#tunnel"
  | Notice_FailoverBlocked reason =>
      mkMessage "VPN switch blocked"
        (say ["The tunnel is not working. "; blocked reason])
        5 "/#tunnel"
  | Notice_ForwardedPortLost =>
      mkMessage "No forwarded port"
        "ProtonVPN has not granted a forwarded port for 5 minutes, so peers cannot connect in."
        3 "/#port-forwarding"
  | Notice_ForwardedPortRestored port =>
      mkMessage "Forwarded port back"
        (say ["Peers can connect in on port "; num port; " again."])
        2 "/#port-forwarding"
  | Notice_QbittorrentUnreachable reason =>
      mkMessage "qBittorrent not responding"
        (say [qbittorrent_failure reason; " for 5 minutes."])
        4 "/#qbittorrent"
  | Notice_QbittorrentReachable =>
      mkMessage "qBittorrent responding again"
        "Windlass is in contact with qBittorrent again."
        2 "/#qbittorrent"
  | Notice_QbittorrentVersionNotAllowed version =>
      mkMessage "qBittorrent version not allowed"
        (say ["MAM does not allow qBittorrent "; ReportedVersion_fmt version;
              ". Use a 5.0.1 to 5.2.x release."])
        5 "/#qbittorrent"
  | Notice_QbittorrentVersionAllowed version =>
      mkMessage "qBittorrent version allowed"
        (say ["MAM allows qBittorrent "; ReportedVersion_fmt version; "."])
        2 "/#qbittorrent"
  | Notice_TorrentErrors count =>
      mkMessage "Torrents with errors"
        (say ["qBittorrent reports errors for "; torrents count; "."])
        4 "/#torrents"
  | Notice_TorrentErrorsCleared =>
      mkMessage "Torrent errors cleared" "No torrent reports an error." 2 "/#torrents"
  | Notice_FilesMissing count =>
      mkMessage "Files missing on disk"
        (say [torrents count; " "; if count =? 1 then "has" else "have";
              " missing files. Windlass does not download them again without you."])
        4 "/#torrents"
  | Notice_FilesMissingCleared =>
      mkMessage "Missing files resolved" "No torrent has missing files." 2 "/#torrents"
  | Notice_TorrentsMissing count =>
      mkMessage "Torrents missing from qBittorrent"
        (say [torrents count; " Windlass manages "; if count =? 1 then "is" else "are";
              " not in qBittorrent."])
        4 "/#torrents"
  | Notice_TorrentsMissingCleared =>
      mkMessage "Torrents back in qBittorrent"
        "Every torrent Windlass manages is in qBittorrent."
        2 "/#torrents"
  | Notice_RegistryNotSaved =>
      mkMessage "Torrent records not saved"
        "Windlass has not saved its torrent records for 2 minutes and keeps retrying."
        4 "/#torrents"
  | Notice_RegistrySaved =>
      mkMessage "Torrent records saved" "Windlass saves its torrent records again." 2 "/#torrents"
  | Notice_RegistryUnreadable =>
      mkMessage "Torrent records unreadable"
        "Windlass could not read its torrent records, so torrents are shown but not managed."
        5 "/#torrents"
  | Notice_SettingNotSaved name =>
      mkMessage "Setting not saved" (say [setting name; " could not be saved."]) 4 "/settings"
  | Notice_HistoryUnavailable =>
      mkMessage "History unavailable"
        "History storage could not be opened, so events are not recorded."
        4 "/history"
  | Notice_HistoryEntriesLost count =>
      mkMessage "History incomplete"
        (say [num count; " history entries could not be saved."])
        3 "/history"
  | Notice_Test =>
      mkMessage "Test notification" "Notifications from Windlass reach this topic." 3 "/settings"
  | Notice_MamSessionRejected reason =>
      at_mam "MAM refused the API session"
        (say ["MAM requests that need the cookie have stopped: "; rejection reason;
              ". Create a new session from the VPN and enter it on the settings page."])
        5
  | Notice_MamSessionAccepted =>
      at_mam "MAM session working" "MAM accepts the API session again." 2
  | Notice_SeedboxNotRegistered =>
      at_mam "Seedbox IP not registered"
        "MAM has not registered the VPN's IP as the seedbox, so new downloads wait. The dashboard shows why and when Windlass tries again."
        4
  | Notice_SeedboxRegistered ip =>
      at_mam "Seedbox IP registered" (say ["MAM has "; ip_text ip; " as the seedbox IP."]) 2
  | Notice_MamIpUnknown failures =>
      at_mam "Cannot see MAM's view of the IP"
        (say ["The last "; num failures; " IP lookups at MAM failed, so new downloads wait."])
        3
  | Notice_MamIpKnown =>
      at_mam "MAM IP lookups working" "Windlass sees the IP MAM sees again." 2
  | Notice_MamStateUnreadable =>
      at_mam "MAM state unreadable"
        "Windlass could not read when it last registered the seedbox IP, so it will not register until restarted."
        5
  | Notice_RatioLow value urgency =>
      at_mam "Ratio below 2.0"
        (say ["MAM reports a ratio of "; Ratio_fmt value;
              ". Every download is held until you find out why."])
        match urgency with Urgency_Urgent => 5 | Urgency_Normal => 4 end
  | Notice_RatioUsed counted =>
      at_mam "Ratio used: downloads stopped"
        (say ["MAM counted "; size counted;
              " of downloads against your ratio, which Windlass never does on purpose. Every download Windlass added is stopped. Find out on MAM what used it, then say on the dashboard that you checked."])
        5
  | Notice_RatioUseChecked =>
      at_mam "Downloads may run again"
        "You checked what used ratio, so Windlass watches MAM's downloaded figure from now on and lets downloads run."
        2
  | Notice_RatioRestored =>
      at_mam "Ratio back above 2.0" "MAM reports a ratio of 2.0 or more." 2
  | Notice_UnsatisfiedNearLimit count limit =>
      at_mam "Unsatisfied torrents near the limit"
        (say ["MAM counts "; num count; " unsatisfied torrents of a limit of "; num limit; "."])
        4
  | Notice_UnsatisfiedBelowLimit =>
      at_mam "Unsatisfied torrents below 80%"
        "MAM's unsatisfied count is below 80% of the limit again."
        2
  | Notice_UnsatisfiedNotSeeding count =>
      at_mam "Unsatisfied torrents not seeding"
        (say ["MAM sees "; num count;
              " unsatisfied torrents that are not seeding. They must seed 72 hours within 30 days."])
        4
  | Notice_UnsatisfiedSeeding =>
      at_mam "Unsatisfied torrents seeding" "MAM sees every unsatisfied torrent seeding." 2
  | Notice_MamFlagged partial tracker_errors flagged =>
      at_mam "MAM flags the account's torrents"
        (say ["MAM reports";
              match partial with
              | Partials_Seen => " a partial download;"
              | Partials_NotSeen => EmptyString
              end;
              if TorrentCount_is_zero tracker_errors then EmptyString
              else say [" "; num tracker_errors; " tracker errors;"];
              if TorrentCount_is_zero flagged then EmptyString
              else say [" "; num flagged; " torrents in categories it marks red"];
              "."])
        4
  | Notice_MamFlagsCleared =>
      at_mam "MAM flags cleared" "MAM no longer flags any of the account's torrents." 2
  | Notice_MamMessages count client_warning =>
      at_mam
        (if client_warning ==? ClientWarning_Given
         then "MAM warns about a client" else "MAM has notifications")
        (say ["MAM has "; num count; " notifications for you";
              if client_warning ==? ClientWarning_Given
              then ", including a warning that it is about to stop accepting a client"
              else EmptyString;
              ". Windlass does not read them."])
        match client_warning with ClientWarning_Given => 5 | ClientWarning_NotGiven => 3 end
  | Notice_DownloadsHeld reason =>
      at_mam "Downloads held"
        (say ["Bookmarked torrents wait for 30 minutes now: "; hold reason; "."])
        3
  | Notice_DownloadsResumed =>
      at_mam "Downloads resumed" "Bookmarked torrents download again." 2
  | Notice_NoWedgesLeft =>
      at_mam "No wedges left"
        "Torrents that are not freeleech for you wait, because no wedge is left and the store does not sell them through the API."
        4
  | Notice_PointsBelowReserve points reserve =>
      at_mam "Bonus points below the reserve"
        (say ["MAM reports "; num points; " points, below the reserve of "; num reserve;
              ". Windlass buys nothing."])
        3
  | Notice_VipEnding until =>
      at_mam "VIP ending"
        (say ["VIP ends at "; timestamp until;
              " and Windlass has not renewed it, usually because the points would fall below the reserve."])
        4
  | Notice_DownloadsRefused =>
      at_mam "MAM refused a download"
        "MAM answered a download without a torrent file, so downloads are held until Windlass restarts or the cookie changes."
        5
  | Notice_SeedingBehind count =>
      at_mam "Torrents behind on seeding"
        (say [torrents count; " completed 20 or more days ago "; if count =? 1 then "has" else "have";
              " not seeded 96 hours yet. MAM requires 72 within 30 days; Windlass aims a day higher."])
        4
  | Notice_SeedingOnTrack =>
      at_mam "Seeding on track"
        "Every torrent is on track to seed 96 hours, a day more than MAM's 72."
        2
  | Notice_PurchaseMade bought points =>
      at_mam "Bonus points spent"
        (say ["Windlass bought "; purchase bought; "; "; num points; " points are left."])
        3
  | Notice_PurchaseRefused wanted =>
      at_mam "Purchase refused"
        (say ["MAM refused to sell "; purchase wanted;
              ". Windlass waits 6 hours before trying again."])
        4
  | Notice_PurchaseUncertain wanted =>
      at_mam "Purchase uncertain"
        (say ["Windlass does not know whether MAM sold "; purchase wanted;
              ", so it buys nothing until it reads MAM's figures again."])
        4
  | Notice_DownloadNotFree NotFreeOutcome_Stopped =>
      at_mam "Download stopped"
        "A download is no longer free for you, and no wedge could be spent on it, so Windlass stopped it to protect the ratio. It resumes if it becomes free or a wedge is available."
        4
  | Notice_DownloadNotFree NotFreeOutcome_FinishedFirst =>
      at_mam "Download may have cost ratio"
        "A download finished before Windlass could confirm it was free for you. Check your ratio on MAM."
        4
  | Notice_WedgedMidDownload =>
      at_mam "Wedge spent on a running download"
        "A download's freeleech ended before it finished, so Windlass spent a wedge on it."
        2
  | Notice_PurchaseSettled wanted sale =>
      at_mam "Purchase settled"
        (say ["The uncertain purchase of "; purchase wanted; " ";
              if sale ==? Sale_Made then "went through" else "did not go through";
              "; Windlass buys again only as needed."])
        3
  | Notice_PurchaseNeedsChecking wanted =>
      at_mam "Check a purchase on MAM"
        (say ["MAM's figures do not show whether it sold "; purchase wanted;
              ". Check your bonus points on MAM, then say on the dashboard whether it went through; Windlass buys nothing until then."])
        4
  | Notice_WedgeNotSpent =>
      at_mam "Wedge not spent"
        "MAM's bonus history shows no wedge spent on a wedged download, so Windlass stopped the torrent to protect the ratio."
        5
  | Notice_MamClientNotListed standing =>
      at_mam "qBittorrent not listed by MAM"
        (say ["Downloads are held: "; client_standing standing;
              ". Check MAM's client list on its site."])
        4
  | Notice_MamClientListed =>
      at_mam "qBittorrent listed by MAM" "MAM lists the running qBittorrent again." 2
  | Notice_NotConnectable found =>
      at_mam "qBittorrent not connectable"
        (say ["MAM still cannot reach qBittorrent after Windlass's repair. "; findings found;
              ". Check that the namespace firewall admits the forwarded port."])
        4
  | Notice_ConnectableAgain =>
      at_mam "qBittorrent connectable" "MAM reaches qBittorrent again." 2
  | Notice_MamVisitReminder =>
      mkMessage "Visit MAM"
        "Your weekly reminder: visit MAM to keep the account active, and read its announcements about approved clients."
        3 MAM_HOME
  end.

(** ** The history's words for an action *)

Definition action (action : Action) : string :=
  match action with
  | Action_OpenStorage mode => say ["Open storage ("; startup_mode mode; ")"]
  | Action_ReadMamRequestMode => "Read the saved MAM request choice"
  | Action_WriteMamRequestMode mode => say ["Save MAM request choice: "; request_mode mode]
  | Action_DeleteMamRequestMode => "Remove the saved MAM request choice"
  | Action_ReadSettings => "Read saved settings"
  | Action_WriteHistoryLimit limit => say ["Save history limit: "; num limit; " entries"]
  | Action_WriteApiCookie (Some _) => "Save API cookie (value not recorded)"
  | Action_WriteApiCookie None => "Remove the saved API cookie"
  | Action_OpenHistory => "Open history storage"
  | Action_TrimHistory keep => say ["Remove oldest history, keeping the newest "; num keep]
  | Action_StartTimer name _ deadline =>
      say ["Start timer: "; timer name; " in "; one_decimal (as_secs_f64 (deadline_after deadline));
           " seconds"]
  | Action_RequestPortMapping lifetime =>
      say ["Request forwarded ports for "; num (as_secs lifetime); " seconds"]
  | Action_ConnectQbittorrent => "Connect to qBittorrent"
  | Action_SyncQbittorrent position =>
      say ["Read qBittorrent changes since update "; num position]
  | Action_ReadQbittorrentPreferences => "Read qBittorrent preferences"
  | Action_SetQbittorrentListenPort port => say ["Set qBittorrent's listen port to "; num port]
  | Action_QbittorrentCommand command => torrent_command command
  | Action_ReadTorrentRegistry => "Read the torrent registry"
  | Action_SaveTorrents records => say ["Save "; count_of records; " torrent registry rows"]
  | Action_CheckExitIp => "Check the tunnel's exit IP"
  | Action_ReadLastVpnSwitch => "Read the last VPN server switch"
  | Action_SaveVpnSwitch switch => say ["Record a switch to VPN server "; switch_server switch]
  | Action_SwitchVpnServer server => say ["Switch to VPN server "; server]
  | Action_WriteNtfyTopic (Some _) => "Save notification topic (value not recorded)"
  | Action_WriteNtfyTopic None => "Remove the notification topic"
  | Action_SendNotification _ push => say ["Push: "; message_title (message (push_notice push))]
  | Action_ReadNoticeLog => "Read the notifications log"
  | Action_SaveNotice entry _ =>
      say ["Save notice "; num (logged_id entry); ": "; message_title (message (logged_notice entry))]
  | Action_WritePointsReserve reserve => say ["Save points reserve: "; num reserve]
  | Action_WriteTorrentLimits limits =>
      say ["Save torrent limits: "; num (limits_downloading limits); " downloading, ";
           num (limits_active limits); " active"]
  | Action_SetQbittorrentQueue queue =>
      say ["Set qBittorrent's queue: "; QueueLimit_fmt (queue_max_downloading queue);
           " downloading, "; QueueLimit_fmt (queue_max_active queue); " active, ";
           QueueLimit_fmt (queue_max_seeding queue); " seeding, idle torrents ";
           match queue_idle queue with
           | IdleTorrents_NotCounted => "not counted"
           | IdleTorrents_Counted => "counted"
           end]
  | Action_WriteRotatedApiCookie _ => "Save the new API cookie MAM issued (value not recorded)"
  | Action_ReadMamState => "Read saved MAM state"
  | Action_SaveRegistrationAttempt at_ =>
      say ["Record a seedbox registration attempt at "; timestamp at_]
  | Action_SaveRatioGuard guard => say ["Save the ratio guard: "; saved_ratio_guard guard]
  | Action_SaveReminder at_ => say ["Record the MAM visit reminder at "; timestamp at_]
  | Action_MamRequest request _ => mam_request request
  end.

(** ** What a push carries *)

(** The URLs' library: [Url::parse], [Url::join] and [Url::host_str]. *)
Record UrlLibrary := mkUrlLibrary {
  url_parse : string → option string;
  url_join : string → string → option string;
  url_host_str : string → option string;
}.

(** Where notices are published, the address the server's name stands for if it is
    reached through a relay, and the dashboard they link to. *)
Record Channel := mkChannel {
  channel_server : option string;
  channel_resolve : option (string * SocketAddr);
  channel_dashboard : option string;
}.

Definition Channel_new (urls : UrlLibrary) (server : option string) (relay : option SocketAddr)
    (dashboard : option string) : Channel :=
  mkChannel server (relay ← relay; host ← server ≫= url_host_str urls; Some (host, relay)) dashboard.

Record PushRequest := mkPushRequest {
  pushed_url : string;
  pushed_title : string;
  pushed_priority : string;
  pushed_click : option string;
  pushed_body : string;
  pushed_timeout : Duration;
  pushed_resolve : option (string * SocketAddr);
}.

(** What [deliver] posts; [None] if there is no server or the topic makes no URL. *)
Definition push_request (urls : UrlLibrary) (channel : Channel) (topic : NtfyTopic) (push : Push)
    : option PushRequest :=
  url ← (server ← channel_server channel; url_join urls server topic);
  let link := dashboard ← channel_dashboard channel; url_join urls dashboard (entry_page push) in
  Some (mkPushRequest url PUSH_TITLE (num (message_priority (message (push_notice push)))) link
          PUSH_BODY SEND_TIMEOUT (channel_resolve channel)).
End notify.

(** ** What notices may say *)

Definition printable (c : ascii) : bool := between 32 126 c.
Definition title_ok (title : string) : bool :=
  negb (b title ==? []) && forallb printable (b title).
Definition priority_ok (priority : Z) : bool := (1 <=? priority) && (priority <=? 5).

(** A push's priority is a single digit. *)
Lemma priority_digit priority :
  priority_ok priority = true → num priority ∈ ["1"; "2"; "3"; "4"; "5"].
Proof.
  unfold priority_ok. intros H. reflect_bools.
  assert (priority = 1 ∨ priority = 2 ∨ priority = 3 ∨ priority = 4 ∨ priority = 5)
    as [->|[->|[->|[->| ->]]]] by lia;
    repeat (first [by apply elem_of_cons; left|apply elem_of_cons; right]).
Qed.

Lemma message_shown `{!Rfc3339} notice :
  title_ok (message_title (message notice)) = true ∧
  priority_ok (message_priority (message notice)) = true.
Proof.
  destruct notice; try (by split); simpl;
    repeat match goal with |- context [match ?x with _ => _ end] => destruct x end; by split.
Qed.

(** ** Properties *)

(** C21: a push tells ntfy nothing of its notice: beside the topic it is posted to, its
    request holds fixed words, a digit of urgency and a link to the notice's entry on
    the dashboard. Two pushes of the same entry and urgency make the same request. *)
Theorem pushes_carry_only_a_link `{!Rfc3339} urls channel topic push request :
  push_request urls channel topic push = Some request →
  pushed_title request = PUSH_TITLE ∧ pushed_body request = PUSH_BODY ∧
  pushed_priority request ∈ ["1"; "2"; "3"; "4"; "5"] ∧
  (∃ server, channel_server channel = Some server ∧
     url_join urls server topic = Some (pushed_url request)) ∧
  (∀ link, pushed_click request = Some link →
     ∃ dashboard, channel_dashboard channel = Some dashboard ∧
       url_join urls dashboard
         (match push_entry push with
          | Some id => say ["/notifications#notice-"; num id]
          | None => "/notifications"
          end) = Some link) ∧
  ∀ notice, message_priority (message notice) = message_priority (message (push_notice push)) →
    push_request urls channel topic (mkPush (push_entry push) notice) = Some request.
Proof.
  unfold push_request. intros Hr. apply bind_Some in Hr as (url & Hu & [= <-]). cbn.
  split; [done|]. split; [done|]. split; [apply priority_digit, message_shown|].
  split. { by apply bind_Some in Hu as (server & Hs & Hj); eauto. }
  split.
  - intros link Hl. apply bind_Some in Hl as (dashboard & Hd & Hj). exists dashboard.
    split; [done|exact Hj].
  - intros notice Hp. rewrite Hu, Hp. done.
Qed.

#[local] Instance sample_rfc3339 : Rfc3339 := λ _, None.

Lemma pushes_carry_only_a_link_witness :
  let urls := mkUrlLibrary Some (λ base path, Some (say [base; path])) (λ _, None) in
  let channel := mkChannel (Some NTFY_SH) None (Some "http://windlass:8740") in
  let request := mkPushRequest "https://ntfy.sh/windlass-alerts" "Windlass" "5"
    (Some "http://windlass:8740/notifications#notice-42") PUSH_BODY SEND_TIMEOUT None in
  let push := mkPush (Some 42) (Notice_RatioUsed 1_000_000) in
  push_request urls channel "windlass-alerts" push = Some request ∧
  push_request urls channel "windlass-alerts" (mkPush (Some 42) Notice_WedgeNotSpent) = Some request.
Proof.
  intros urls channel request push.
  assert (Hr : push_request urls channel "windlass-alerts" push = Some request)
    by (vm_compute; reflexivity).
  split; [exact Hr|].
  destruct (pushes_carry_only_a_link urls channel "windlass-alerts" push request Hr)
    as (_ & _ & _ & _ & _ & Hsame).
  exact (Hsame Notice_WedgeNotSpent eq_refl).
Defined.
