(* ===== verification/Encode.v ===== *)
(** * Events and actions as JSON

    What the history keeps of an event and of its actions beside their words: the JSON
    that serde derives for the core's types, an enum's variant by its name, with its
    fields as an object, and the four encodings the core writes itself. A structure is
    [None] when a time in it is before 1970, which has no encoding. *)

From S2P Require Import Prelude Values Vocabulary MamApi Messages.
From S2P Require Import Bytes Text Address Json.

Local Open Scope string_scope.
Local Open Scope Z_scope.

(** ** What serde makes of the standard library's types *)

Definition json_number (n : Z) : option Value := Some (Value_Number (Number_PosInt n)).
Definition json_text (s : string) : option Value := Some (Value_String s).
Definition json_ip (ip : IpAddr) : option Value := json_text (t (print_ip ip)).
Definition object (fields : list (string * option Value)) : option Value :=
  Value_Object <$> mapM (λ f, pair f.1 <$> f.2) fields.
Definition json_option {A} (encode : A → option Value) (o : option A) : option Value :=
  match o with Some x => encode x | None => Some Value_Null end.
Definition json_list {A} (encode : A → option Value) (l : list A) : option Value :=
  Value_Array <$> mapM encode l.
Definition json_pair {A B} (encode : A → option Value) (encode' : B → option Value) (p : A * B)
    : option Value :=
  x ← encode p.1; y ← encode' p.2; Some (Value_Array [x; y]).
Definition unit_variant (name : string) : option Value := json_text name.
Definition newtype_variant (name : string) (content : option Value) : option Value :=
  object [(name, content)].
Definition struct_variant (name : string) (fields : list (string * option Value)) : option Value :=
  newtype_variant name (object fields).
Definition json_result {A B} (encode : A → option Value) (encode' : B → option Value) (r : Result A B)
    : option Value :=
  match r with
  | Ok x => newtype_variant "Ok" (encode x)
  | Err e => newtype_variant "Err" (encode' e)
  end.
Definition json_duration (d : Duration) : option Value :=
  object [("secs", json_number (d / NANOS_PER_SEC)); ("nanos", json_number (d mod NANOS_PER_SEC))].
Definition json_time (time : SystemTime) : option Value :=
  since ← wall_duration_since time 0;
  object [("secs_since_epoch", json_number (since / NANOS_PER_SEC));
          ("nanos_since_epoch", json_number (since mod NANOS_PER_SEC))].

(** ** What the core encodes itself *)

(** [Serialize] for [ApiCookie] and [NtfyTopic]. *)
Definition redacted (secret : string) : option Value := json_text "[redacted]".
(** [Serialize] for [Deadline]: the delay alone. *)
Definition encode_Deadline (deadline : Deadline) : option Value := json_duration (deadline_after deadline).

(** ** What serde derives *)

Definition encode_StartupMode (v : StartupMode) : option Value :=
  match v with
  | StartupMode_Initialise => unit_variant "Initialise"
  | StartupMode_Resume => unit_variant "Resume"
  end.

Definition encode_StartupEvent (v : StartupEvent) : option Value :=
  match v with
  | StartupEvent_Start mode => struct_variant "Start" [("mode", encode_StartupMode mode)]
  | StartupEvent_StorageOpened => unit_variant "StorageOpened"
  | StartupEvent_StorageOpenFailed => unit_variant "StorageOpenFailed"
  end.

Definition encode_MamRequestMode (v : MamRequestMode) : option Value :=
  match v with
  | MamRequestMode_Paused => unit_variant "Paused"
  | MamRequestMode_Enabled => unit_variant "Enabled"
  end.

Definition encode_MamPauseEvent (v : MamPauseEvent) : option Value :=
  match v with
  | MamPauseEvent_Set mode => struct_variant "Set" [("mode", encode_MamRequestMode mode)]
  | MamPauseEvent_Delete => unit_variant "Delete"
  | MamPauseEvent_Read mode =>
      struct_variant "Read" [("mode", json_option encode_MamRequestMode mode)]
  | MamPauseEvent_ReadFailed => unit_variant "ReadFailed"
  | MamPauseEvent_Written => unit_variant "Written"
  | MamPauseEvent_WriteFailed => unit_variant "WriteFailed"
  | MamPauseEvent_Deleted => unit_variant "Deleted"
  | MamPauseEvent_DeleteFailed => unit_variant "DeleteFailed"
  end.

Definition encode_TorrentLimits (v : TorrentLimits) : option Value :=
  object [("downloading", json_number (limits_downloading v));
          ("active", json_number (limits_active v))].

Definition encode_SettingsEvent (v : SettingsEvent) : option Value :=
  match v with
  | SettingsEvent_Read history_limit api_cookie ntfy_topic points_reserve torrent_limits =>
      struct_variant "Read" [("history_limit", json_option json_number history_limit);
        ("api_cookie", json_option redacted api_cookie);
        ("ntfy_topic", json_option redacted ntfy_topic);
        ("points_reserve", json_option json_number points_reserve);
        ("torrent_limits", json_option encode_TorrentLimits torrent_limits)]
  | SettingsEvent_ReadFailed => unit_variant "ReadFailed"
  | SettingsEvent_SetHistoryLimit limit =>
      struct_variant "SetHistoryLimit" [("limit", json_number limit)]
  | SettingsEvent_HistoryLimitWritten => unit_variant "HistoryLimitWritten"
  | SettingsEvent_HistoryLimitWriteFailed => unit_variant "HistoryLimitWriteFailed"
  | SettingsEvent_SetApiCookie cookie =>
      struct_variant "SetApiCookie" [("cookie", redacted cookie)]
  | SettingsEvent_ClearApiCookie => unit_variant "ClearApiCookie"
  | SettingsEvent_ApiCookieWritten => unit_variant "ApiCookieWritten"
  | SettingsEvent_ApiCookieWriteFailed => unit_variant "ApiCookieWriteFailed"
  | SettingsEvent_SetNtfyTopic topic =>
      struct_variant "SetNtfyTopic" [("topic", redacted topic)]
  | SettingsEvent_ClearNtfyTopic => unit_variant "ClearNtfyTopic"
  | SettingsEvent_NtfyTopicWritten => unit_variant "NtfyTopicWritten"
  | SettingsEvent_NtfyTopicWriteFailed => unit_variant "NtfyTopicWriteFailed"
  | SettingsEvent_SetPointsReserve reserve =>
      struct_variant "SetPointsReserve" [("reserve", json_number reserve)]
  | SettingsEvent_PointsReserveWritten => unit_variant "PointsReserveWritten"
  | SettingsEvent_PointsReserveWriteFailed => unit_variant "PointsReserveWriteFailed"
  | SettingsEvent_SetTorrentLimits limits =>
      struct_variant "SetTorrentLimits" [("limits", encode_TorrentLimits limits)]
  | SettingsEvent_TorrentLimitsWritten => unit_variant "TorrentLimitsWritten"
  | SettingsEvent_TorrentLimitsWriteFailed => unit_variant "TorrentLimitsWriteFailed"
  | SettingsEvent_RotatedApiCookieWritten => unit_variant "RotatedApiCookieWritten"
  | SettingsEvent_RotatedApiCookieWriteFailed => unit_variant "RotatedApiCookieWriteFailed"
  end.

Definition encode_HistoryEvent (v : HistoryEvent) : option Value :=
  match v with
  | HistoryEvent_Opened retained => struct_variant "Opened" [("retained", json_number retained)]
  | HistoryEvent_OpenFailed => unit_variant "OpenFailed"
  | HistoryEvent_Trimmed retained =>
      struct_variant "Trimmed" [("retained", json_number retained)]
  | HistoryEvent_TrimFailed => unit_variant "TrimFailed"
  | HistoryEvent_EntriesLost count from until =>
      struct_variant "EntriesLost" [("count", json_number count); ("from", json_time from);
        ("until", json_time until)]
  end.

Definition encode_TimerName (v : TimerName) : option Value :=
  match v with
  | TimerName_QbittorrentPoll => unit_variant "QbittorrentPoll"
  | TimerName_PortLease => unit_variant "PortLease"
  | TimerName_TunnelCheck => unit_variant "TunnelCheck"
  | TimerName_NotificationGrace => unit_variant "NotificationGrace"
  | TimerName_NotificationRetry => unit_variant "NotificationRetry"
  | TimerName_Mam => unit_variant "Mam"
  end.

Definition encode_NatPmpRefusal (v : NatPmpRefusal) : option Value :=
  match v with
  | NatPmpRefusal_UnsupportedVersion => unit_variant "UnsupportedVersion"
  | NatPmpRefusal_NotAuthorized => unit_variant "NotAuthorized"
  | NatPmpRefusal_NetworkFailure => unit_variant "NetworkFailure"
  | NatPmpRefusal_OutOfResources => unit_variant "OutOfResources"
  | NatPmpRefusal_UnsupportedOpcode => unit_variant "UnsupportedOpcode"
  end.

Definition encode_MappingFailure (v : MappingFailure) : option Value :=
  match v with
  | MappingFailure_NoResponse => unit_variant "NoResponse"
  | MappingFailure_Refused reason =>
      struct_variant "Refused" [("reason", encode_NatPmpRefusal reason)]
  | MappingFailure_Malformed => unit_variant "Malformed"
  end.

Definition encode_PortForwardingEvent (v : PortForwardingEvent) : option Value :=
  match v with
  | PortForwardingEvent_Enable => unit_variant "Enable"
  | PortForwardingEvent_Mapped tcp udp lifetime =>
      struct_variant "Mapped" [("tcp", json_number tcp); ("udp", json_number udp);
        ("lifetime", json_duration lifetime)]
  | PortForwardingEvent_MappingFailed reason =>
      struct_variant "MappingFailed" [("reason", encode_MappingFailure reason)]
  end.

Definition encode_ClientVersion (v : ClientVersion) : option Value :=
  object [("major", json_number (version_major v));
          ("minor", json_number (version_minor v));
          ("patch", json_number (version_patch v))].

Definition encode_ReportedVersion (v : ReportedVersion) : option Value :=
  match v with
  | ReportedVersion_Release version => newtype_variant "Release" (encode_ClientVersion version)
  | ReportedVersion_Unrecognised text => newtype_variant "Unrecognised" (json_text text)
  end.

Definition encode_Queueing (v : Queueing) : option Value :=
  match v with
  | Queueing_On => unit_variant "On"
  | Queueing_Off => unit_variant "Off"
  end.

Definition encode_QueueLimit (v : QueueLimit) : option Value :=
  match v with
  | QueueLimit_Unlimited => unit_variant "Unlimited"
  | QueueLimit_At count => newtype_variant "At" (json_number count)
  end.

Definition encode_IdleTorrents (v : IdleTorrents) : option Value :=
  match v with
  | IdleTorrents_Counted => unit_variant "Counted"
  | IdleTorrents_NotCounted => unit_variant "NotCounted"
  end.

Definition encode_QueuePreferences (v : QueuePreferences) : option Value :=
  object [("queueing", encode_Queueing (queue_queueing v));
          ("max_downloading", encode_QueueLimit (queue_max_downloading v));
          ("max_active", encode_QueueLimit (queue_max_active v));
          ("max_seeding", encode_QueueLimit (queue_max_seeding v));
          ("idle", encode_IdleTorrents (queue_idle v))].

Definition encode_QbittorrentPreferences (v : QbittorrentPreferences) : option Value :=
  object [("listen_port", json_option json_number (preferences_listen_port v));
          ("interface", json_option json_text (preferences_interface v));
          ("queue", json_option encode_QueuePreferences (preferences_queue v))].

Definition encode_QbittorrentFailure (v : QbittorrentFailure) : option Value :=
  match v with
  | QbittorrentFailure_Unreachable => unit_variant "Unreachable"
  | QbittorrentFailure_Rejected status =>
      struct_variant "Rejected" [("status", json_number status)]
  | QbittorrentFailure_Malformed => unit_variant "Malformed"
  end.

Definition encode_SyncScope (v : SyncScope) : option Value :=
  match v with
  | SyncScope_Changes => unit_variant "Changes"
  | SyncScope_Full => unit_variant "Full"
  end.

Definition encode_Completion (v : Completion) : option Value :=
  match v with
  | Completion_Complete => unit_variant "Complete"
  | Completion_Incomplete => unit_variant "Incomplete"
  end.

Definition encode_TorrentState (v : TorrentState) : option Value :=
  match v with
  | TorrentState_FetchingMetadata => unit_variant "FetchingMetadata"
  | TorrentState_Downloading => unit_variant "Downloading"
  | TorrentState_DownloadStalled => unit_variant "DownloadStalled"
  | TorrentState_DownloadQueued => unit_variant "DownloadQueued"
  | TorrentState_Seeding => unit_variant "Seeding"
  | TorrentState_SeedStalled => unit_variant "SeedStalled"
  | TorrentState_SeedQueued => unit_variant "SeedQueued"
  | TorrentState_Stopped completion => newtype_variant "Stopped" (encode_Completion completion)
  | TorrentState_Checking => unit_variant "Checking"
  | TorrentState_Moving => unit_variant "Moving"
  | TorrentState_MissingFiles => unit_variant "MissingFiles"
  | TorrentState_Error => unit_variant "Error"
  | TorrentState_Unknown => unit_variant "Unknown"
  end.

Definition encode_ForceStart (v : ForceStart) : option Value :=
  match v with
  | ForceStart_NotForced => unit_variant "NotForced"
  | ForceStart_Forced => unit_variant "Forced"
  end.

Definition encode_TorrentUpdate (v : TorrentUpdate) : option Value :=
  object [("name", json_option (json_option json_text) (update_name v));
          ("state", json_option encode_TorrentState (update_state v));
          ("progress", json_option json_number (update_progress v));
          ("size", json_option json_number (update_size v));
          ("total_size", json_option json_number (update_total_size v));
          ("downloaded", json_option json_number (update_downloaded v));
          ("uploaded", json_option json_number (update_uploaded v));
          ("ratio", json_option json_number (update_ratio v));
          ("seeding_time", json_option json_duration (update_seeding_time v));
          ("added_at", json_option (json_option json_time) (update_added_at v));
          ("completed_at", json_option (json_option json_time) (update_completed_at v));
          ("content_path", json_option (json_option json_text) (update_content_path v));
          ("save_path", json_option (json_option json_text) (update_save_path v));
          ("force_start", json_option encode_ForceStart (update_force_start v))].

Definition encode_SyncUpdate (v : SyncUpdate) : option Value :=
  object [("position", json_number (sync_position v));
          ("scope", encode_SyncScope (sync_scope v));
          ("torrents", json_list (json_pair json_text encode_TorrentUpdate) (sync_torrents v));
          ("removed", json_list json_text (sync_removed v))].

Definition encode_QbittorrentEvent (v : QbittorrentEvent) : option Value :=
  match v with
  | QbittorrentEvent_Enable => unit_variant "Enable"
  | QbittorrentEvent_Connected version preferences =>
      struct_variant "Connected" [("version", encode_ReportedVersion version);
        ("preferences", encode_QbittorrentPreferences preferences)]
  | QbittorrentEvent_ConnectFailed reason =>
      struct_variant "ConnectFailed" [("reason", encode_QbittorrentFailure reason)]
  | QbittorrentEvent_Synced update => newtype_variant "Synced" (encode_SyncUpdate update)
  | QbittorrentEvent_SyncFailed reason =>
      struct_variant "SyncFailed" [("reason", encode_QbittorrentFailure reason)]
  | QbittorrentEvent_PreferencesRead preferences =>
      newtype_variant "PreferencesRead" (encode_QbittorrentPreferences preferences)
  | QbittorrentEvent_PreferencesReadFailed reason =>
      struct_variant "PreferencesReadFailed" [("reason", encode_QbittorrentFailure reason)]
  | QbittorrentEvent_ListenPortSet => unit_variant "ListenPortSet"
  | QbittorrentEvent_ListenPortSetFailed reason =>
      struct_variant "ListenPortSetFailed" [("reason", encode_QbittorrentFailure reason)]
  | QbittorrentEvent_QueueSet => unit_variant "QueueSet"
  | QbittorrentEvent_QueueSetFailed reason =>
      struct_variant "QueueSetFailed" [("reason", encode_QbittorrentFailure reason)]
  | QbittorrentEvent_CommandDone => unit_variant "CommandDone"
  | QbittorrentEvent_CommandFailed reason =>
      struct_variant "CommandFailed" [("reason", encode_QbittorrentFailure reason)]
  end.

Definition encode_Identity (v : Identity) : option Value :=
  match v with
  | Identity_Mam mam => newtype_variant "Mam" (json_number mam)
  | Identity_Client hash => newtype_variant "Client" (json_text hash)
  | Identity_Linked mam hash =>
      struct_variant "Linked" [("mam", json_number mam); ("hash", json_text hash)]
  end.

Definition encode_VipTorrent (v : VipTorrent) : option Value :=
  match v with
  | VipTorrent_No => unit_variant "No"
  | VipTorrent_Indefinitely => unit_variant "Indefinitely"
  | VipTorrent_Until time => newtype_variant "Until" (json_time time)
  end.

Definition encode_Freeleech (v : Freeleech) : option Value :=
  match v with
  | Freeleech_No => unit_variant "No"
  | Freeleech_ForEveryone => unit_variant "ForEveryone"
  end.

Definition encode_PersonalFreeleech (v : PersonalFreeleech) : option Value :=
  match v with
  | PersonalFreeleech_No => unit_variant "No"
  | PersonalFreeleech_ThroughVip => unit_variant "ThroughVip"
  | PersonalFreeleech_ThroughWedge => unit_variant "ThroughWedge"
  end.

Definition encode_Snatched (v : Snatched) : option Value :=
  match v with
  | Snatched_Never => unit_variant "Never"
  | Snatched_Before => unit_variant "Before"
  end.

Definition encode_Bookmark (v : Bookmark) : option Value :=
  object [("id", json_number (bookmark_id v));
          ("title", json_text (bookmark_title v));
          ("vip", encode_VipTorrent (bookmark_vip v));
          ("freeleech", encode_Freeleech (bookmark_freeleech v));
          ("personal", encode_PersonalFreeleech (bookmark_personal v));
          ("snatched", encode_Snatched (bookmark_snatched v));
          ("bookmarked_at", json_option json_time (bookmark_bookmarked_at v))].

Definition encode_Origin (v : Origin) : option Value :=
  match v with
  | Origin_Bookmark => unit_variant "Bookmark"
  | Origin_Redownload => unit_variant "Redownload"
  | Origin_Adopted => unit_variant "Adopted"
  end.

Definition encode_Desired (v : Desired) : option Value :=
  match v with
  | Desired_Queued => unit_variant "Queued"
  | Desired_Snatched => unit_variant "Snatched"
  | Desired_Active => unit_variant "Active"
  | Desired_Held => unit_variant "Held"
  | Desired_Removed => unit_variant "Removed"
  end.

Definition encode_ContentDeletion (v : ContentDeletion) : option Value :=
  match v with
  | ContentDeletion_Allowed => unit_variant "Allowed"
  | ContentDeletion_NotAllowed => unit_variant "NotAllowed"
  end.

Definition encode_Torrent (v : Torrent) : option Value :=
  object [("name", json_option json_text (torrent_name v));
          ("state", encode_TorrentState (torrent_state v));
          ("progress", json_number (torrent_progress v));
          ("size", json_number (torrent_size v));
          ("total_size", json_number (torrent_total_size v));
          ("downloaded", json_number (torrent_downloaded v));
          ("uploaded", json_number (torrent_uploaded v));
          ("ratio", json_number (torrent_ratio v));
          ("seeding_time", json_duration (torrent_seeding_time v));
          ("added_at", json_option json_time (torrent_added_at v));
          ("completed_at", json_option json_time (torrent_completed_at v));
          ("content_path", json_option json_text (torrent_content_path v));
          ("save_path", json_option json_text (torrent_save_path v));
          ("force_start", encode_ForceStart (torrent_force_start v))].

Definition encode_Observation (v : Observation) : option Value :=
  object [("torrent", encode_Torrent (observation_torrent v));
          ("last_seen", json_time (observation_last_seen v))].

Definition encode_TorrentRecord (v : TorrentRecord) : option Value :=
  object [("id", json_number (record_id v));
          ("identity", encode_Identity (record_identity v));
          ("origin", encode_Origin (record_origin v));
          ("desired", encode_Desired (record_desired v));
          ("save_path", json_option json_text (record_save_path v));
          ("deletion", encode_ContentDeletion (record_deletion v));
          ("observation", json_option encode_Observation (record_observation v))].

Definition encode_RegistryEvent (v : RegistryEvent) : option Value :=
  match v with
  | RegistryEvent_Redownload id => newtype_variant "Redownload" (json_number id)
  | RegistryEvent_Read records => newtype_variant "Read" (json_list encode_TorrentRecord records)
  | RegistryEvent_ReadFailed => unit_variant "ReadFailed"
  | RegistryEvent_Saved => unit_variant "Saved"
  | RegistryEvent_SaveFailed => unit_variant "SaveFailed"
  end.

Definition encode_ExitIpFailure (v : ExitIpFailure) : option Value :=
  match v with
  | ExitIpFailure_Unreachable => unit_variant "Unreachable"
  | ExitIpFailure_Rejected status => struct_variant "Rejected" [("status", json_number status)]
  | ExitIpFailure_Malformed => unit_variant "Malformed"
  end.

Definition encode_VpnSwitch (v : VpnSwitch) : option Value :=
  object [("server", json_text (switch_server v));
          ("at", json_time (switch_at v))].

Definition encode_TunnelEvent (v : TunnelEvent) : option Value :=
  match v with
  | TunnelEvent_Enable servers current =>
      struct_variant "Enable" [("servers", json_list json_text servers);
        ("current", json_option json_text current)]
  | TunnelEvent_ExitIpObserved ip => struct_variant "ExitIpObserved" [("ip", json_ip ip)]
  | TunnelEvent_ExitIpCheckFailed reason =>
      struct_variant "ExitIpCheckFailed" [("reason", encode_ExitIpFailure reason)]
  | TunnelEvent_LastSwitchRead last_switch =>
      struct_variant "LastSwitchRead" [("last_switch", json_option encode_VpnSwitch last_switch)]
  | TunnelEvent_LastSwitchReadFailed => unit_variant "LastSwitchReadFailed"
  | TunnelEvent_SwitchSaved => unit_variant "SwitchSaved"
  | TunnelEvent_SwitchSaveFailed => unit_variant "SwitchSaveFailed"
  | TunnelEvent_Switched => unit_variant "Switched"
  | TunnelEvent_SwitchFailed => unit_variant "SwitchFailed"
  end.

Definition encode_DeliveryFailure (v : DeliveryFailure) : option Value :=
  match v with
  | DeliveryFailure_Unreachable => unit_variant "Unreachable"
  | DeliveryFailure_Rejected status =>
      struct_variant "Rejected" [("status", json_number status)]
  end.

Definition encode_NotificationEvent (v : NotificationEvent) : option Value :=
  match v with
  | NotificationEvent_SendTest => unit_variant "SendTest"
  | NotificationEvent_Delivered => unit_variant "Delivered"
  | NotificationEvent_DeliveryFailed reason =>
      struct_variant "DeliveryFailed" [("reason", encode_DeliveryFailure reason)]
  | NotificationEvent_LogRead last =>
      struct_variant "LogRead" [("last", json_option json_number last)]
  | NotificationEvent_LogReadFailed => unit_variant "LogReadFailed"
  | NotificationEvent_Saved => unit_variant "Saved"
  | NotificationEvent_SaveFailed => unit_variant "SaveFailed"
  end.

Definition encode_IpObservation (v : IpObservation) : option Value :=
  object [("ip", json_ip (observed_ip v));
          ("asn", json_number (observed_asn v));
          ("provider", json_option json_text (observed_provider v))].

Definition encode_Registration (v : Registration) : option Value :=
  match v with
  | Registration_Completed => unit_variant "Completed"
  | Registration_NoChange => unit_variant "NoChange"
  end.

Definition encode_UserClass (v : UserClass) : option Value :=
  match v with
  | UserClass_Mouse => unit_variant "Mouse"
  | UserClass_User => unit_variant "User"
  | UserClass_PowerUser => unit_variant "PowerUser"
  | UserClass_Vip => unit_variant "Vip"
  | UserClass_EliteVip => unit_variant "EliteVip"
  | UserClass_Other name => newtype_variant "Other" (json_text name)
  end.

Definition encode_Partials (v : Partials) : option Value :=
  match v with
  | Partials_NotSeen => unit_variant "NotSeen"
  | Partials_Seen => unit_variant "Seen"
  end.

Definition encode_Connectable (v : Connectable) : option Value :=
  match v with
  | Connectable_Yes => unit_variant "Yes"
  | Connectable_No => unit_variant "No"
  | Connectable_Offline => unit_variant "Offline"
  | Connectable_Unrecognised value => newtype_variant "Unrecognised" (json_text value)
  end.

Definition encode_RedKind (v : RedKind) : option Value :=
  match v with
  | RedKind_NotSeeding => unit_variant "NotSeeding"
  | RedKind_Other => unit_variant "Other"
  end.

Definition encode_RedCategory (v : RedCategory) : option Value :=
  object [("name", json_text (red_name v));
          ("kind", encode_RedKind (red_kind v));
          ("count", json_number (red_count v))].

Definition encode_SnatchSummary (v : SnatchSummary) : option Value :=
  object [("unsatisfied", json_number (summary_unsatisfied v));
          ("unsatisfied_limit", json_number (summary_unsatisfied_limit v));
          ("unsatisfied_not_seeding", json_number (summary_unsatisfied_not_seeding v));
          ("hit_and_run_not_seeding", json_number (summary_hit_and_run_not_seeding v));
          ("partial", encode_Partials (summary_partial v));
          ("duplicates", json_number (summary_duplicates v));
          ("tracker_errors", json_number (summary_tracker_errors v));
          ("connectable", encode_Connectable (summary_connectable v));
          ("red", json_list encode_RedCategory (summary_red v))].

Definition encode_MamNotices (v : MamNotices) : option Value :=
  object [("messages", json_number (notices_messages v));
          ("tickets", json_number (notices_tickets v));
          ("waiting_tickets", json_number (notices_waiting_tickets v));
          ("requests", json_number (notices_requests v));
          ("topics", json_number (notices_topics v));
          ("about_to_drop_client", json_number (notices_about_to_drop_client v))].

Definition encode_ClientRefusal (v : ClientRefusal) : option Value :=
  match v with
  | ClientRefusal_NotRefused => unit_variant "NotRefused"
  | ClientRefusal_Refused => unit_variant "Refused"
  end.

Definition encode_ListedClient (v : ListedClient) : option Value :=
  object [("qbittorrent", json_option encode_ClientVersion (client_qbittorrent v));
          ("connectable", json_option encode_Connectable (client_connectable v));
          ("refusal", encode_ClientRefusal (client_refusal v))].

Definition encode_UserData (v : UserData) : option Value :=
  object [("uploaded", json_number (data_uploaded v));
          ("downloaded", json_number (data_downloaded v));
          ("points", json_number (data_points v));
          ("wedges", json_number (data_wedges v));
          ("class", encode_UserClass (data_class v));
          ("vip_until", json_option json_time (data_vip_until v));
          ("summary", json_option encode_SnatchSummary (data_summary v));
          ("notices", json_option encode_MamNotices (data_notices v));
          ("clients", json_option (json_list encode_ListedClient) (data_clients v))].

Definition encode_BookmarkPage (v : BookmarkPage) : option Value :=
  object [("found", json_number (page_found v));
          ("bookmarks", json_list encode_Bookmark (page_bookmarks v))].

Definition encode_FetchedTorrent (v : FetchedTorrent) : option Value :=
  object [("hash", json_text (fetched_hash v));
          ("size", json_number (fetched_size v))].

Definition encode_WedgeSpent (v : WedgeSpent) : option Value :=
  object [("torrent", json_number (spent_torrent v));
          ("at", json_time (spent_at v))].

Definition encode_MamReply (v : MamReply) : option Value :=
  match v with
  | MamReply_Ip observation => newtype_variant "Ip" (encode_IpObservation observation)
  | MamReply_Registered registration ip =>
      struct_variant "Registered" [("registration", encode_Registration registration);
        ("ip", json_ip ip)]
  | MamReply_UserData data => newtype_variant "UserData" (encode_UserData data)
  | MamReply_Bookmarks page => newtype_variant "Bookmarks" (encode_BookmarkPage page)
  | MamReply_Fetched fetched => newtype_variant "Fetched" (encode_FetchedTorrent fetched)
  | MamReply_Purchased points => struct_variant "Purchased" [("points", json_number points)]
  | MamReply_WedgeHistory spent =>
      newtype_variant "WedgeHistory" (json_list encode_WedgeSpent spent)
  | MamReply_Torrent listing => newtype_variant "Torrent" (json_option encode_Bookmark listing)
  end.

Definition encode_SessionRejection (v : SessionRejection) : option Value :=
  match v with
  | SessionRejection_InvalidCookie => unit_variant "InvalidCookie"
  | SessionRejection_IpMismatch => unit_variant "IpMismatch"
  | SessionRejection_AsnMismatch => unit_variant "AsnMismatch"
  | SessionRejection_NotAllowed => unit_variant "NotAllowed"
  | SessionRejection_Other => unit_variant "Other"
  end.

Definition encode_MamFailure (v : MamFailure) : option Value :=
  match v with
  | MamFailure_Session rejection => newtype_variant "Session" (encode_SessionRejection rejection)
  | MamFailure_TooSoon retry_after =>
      struct_variant "TooSoon" [("retry_after", json_option json_duration retry_after)]
  | MamFailure_Refused message =>
      struct_variant "Refused" [("message", json_option json_text message)]
  | MamFailure_NotKept => unit_variant "NotKept"
  | MamFailure_Unreachable => unit_variant "Unreachable"
  | MamFailure_Rejected status => struct_variant "Rejected" [("status", json_number status)]
  | MamFailure_Malformed => unit_variant "Malformed"
  end.

Definition encode_RatioUse (v : RatioUse) : option Value :=
  object [("before", json_number (use_before v));
          ("after", json_number (use_after v));
          ("at", json_time (use_at v))].

Definition encode_SavedRatioGuard (v : SavedRatioGuard) : option Value :=
  match v with
  | SavedRatioGuard_Unset => unit_variant "Unset"
  | SavedRatioGuard_Watching downloaded => newtype_variant "Watching" (json_number downloaded)
  | SavedRatioGuard_Tripped used => newtype_variant "Tripped" (encode_RatioUse used)
  end.

Definition encode_Sale (v : Sale) : option Value :=
  match v with
  | Sale_Made => unit_variant "Made"
  | Sale_NotMade => unit_variant "NotMade"
  end.

Definition encode_MamEvent (v : MamEvent) : option Value :=
  match v with
  | MamEvent_Enable => unit_variant "Enable"
  | MamEvent_Answered result rotated =>
      struct_variant "Answered" [
        ("result", json_result encode_MamReply encode_MamFailure result);
        ("rotated", json_option redacted rotated)]
  | MamEvent_StateRead last_registration last_reminder ratio_guard =>
      struct_variant "StateRead" [
        ("last_registration", json_option json_time last_registration);
        ("last_reminder", json_option json_time last_reminder);
        ("ratio_guard", encode_SavedRatioGuard ratio_guard)]
  | MamEvent_StateReadFailed => unit_variant "StateReadFailed"
  | MamEvent_RegistrationAttemptSaved => unit_variant "RegistrationAttemptSaved"
  | MamEvent_RegistrationAttemptSaveFailed => unit_variant "RegistrationAttemptSaveFailed"
  | MamEvent_PurchaseChecked sale =>
      struct_variant "PurchaseChecked" [("sale", encode_Sale sale)]
  | MamEvent_RatioUseChecked => unit_variant "RatioUseChecked"
  | MamEvent_RatioGuardSaved => unit_variant "RatioGuardSaved"
  | MamEvent_RatioGuardSaveFailed => unit_variant "RatioGuardSaveFailed"
  | MamEvent_ReminderSaved => unit_variant "ReminderSaved"
  | MamEvent_ReminderSaveFailed => unit_variant "ReminderSaveFailed"
  end.

Definition encode_Event (v : Event) : option Value :=
  match v with
  | Event_Startup event => newtype_variant "Startup" (encode_StartupEvent event)
  | Event_MamPause event => newtype_variant "MamPause" (encode_MamPauseEvent event)
  | Event_Settings event => newtype_variant "Settings" (encode_SettingsEvent event)
  | Event_History event => newtype_variant "History" (encode_HistoryEvent event)
  | Event_TimerExpired name id =>
      struct_variant "TimerExpired" [("name", encode_TimerName name); ("id", json_number id)]
  | Event_PortForwarding event =>
      newtype_variant "PortForwarding" (encode_PortForwardingEvent event)
  | Event_Qbittorrent event => newtype_variant "Qbittorrent" (encode_QbittorrentEvent event)
  | Event_Registry event => newtype_variant "Registry" (encode_RegistryEvent event)
  | Event_Tunnel event => newtype_variant "Tunnel" (encode_TunnelEvent event)
  | Event_Notification event => newtype_variant "Notification" (encode_NotificationEvent event)
  | Event_Mam event => newtype_variant "Mam" (encode_MamEvent event)
  end.

Definition encode_TorrentCommand (v : TorrentCommand) : option Value :=
  match v with
  | TorrentCommand_Start hashes => newtype_variant "Start" (json_list json_text hashes)
  | TorrentCommand_SelectAllFiles hash => newtype_variant "SelectAllFiles" (json_text hash)
  | TorrentCommand_Remove hashes => newtype_variant "Remove" (json_list json_text hashes)
  | TorrentCommand_Stop hashes => newtype_variant "Stop" (json_list json_text hashes)
  | TorrentCommand_ForceStart hashes => newtype_variant "ForceStart" (json_list json_text hashes)
  | TorrentCommand_EndForceStart hashes =>
      newtype_variant "EndForceStart" (json_list json_text hashes)
  | TorrentCommand_Add mam hash =>
      struct_variant "Add" [("mam", json_number mam); ("hash", json_text hash)]
  end.

Definition encode_SwitchBlock (v : SwitchBlock) : option Value :=
  match v with
  | SwitchBlock_Until at_ => newtype_variant "Until" (json_time at_)
  | SwitchBlock_LastSwitchUnknown => unit_variant "LastSwitchUnknown"
  | SwitchBlock_NoOtherServer => unit_variant "NoOtherServer"
  end.

Definition encode_SettingName (v : SettingName) : option Value :=
  match v with
  | SettingName_MamRequests => unit_variant "MamRequests"
  | SettingName_HistoryLimit => unit_variant "HistoryLimit"
  | SettingName_ApiCookie => unit_variant "ApiCookie"
  | SettingName_NtfyTopic => unit_variant "NtfyTopic"
  | SettingName_PointsReserve => unit_variant "PointsReserve"
  end.

Definition encode_Urgency (v : Urgency) : option Value :=
  match v with
  | Urgency_Urgent => unit_variant "Urgent"
  | Urgency_Normal => unit_variant "Normal"
  end.

Definition encode_ClientWarning (v : ClientWarning) : option Value :=
  match v with
  | ClientWarning_Given => unit_variant "Given"
  | ClientWarning_NotGiven => unit_variant "NotGiven"
  end.

Definition encode_ClientStanding (v : ClientStanding) : option Value :=
  match v with
  | ClientStanding_Unknown => unit_variant "Unknown"
  | ClientStanding_NoneListed => unit_variant "NoneListed"
  | ClientStanding_Listed => unit_variant "Listed"
  | ClientStanding_NotListed => unit_variant "NotListed"
  | ClientStanding_Refused => unit_variant "Refused"
  | ClientStanding_NotUnderstood => unit_variant "NotUnderstood"
  end.

Definition encode_Hold (v : Hold) : option Value :=
  match v with
  | Hold_MamUnavailable => unit_variant "MamUnavailable"
  | Hold_SeedboxUnconfirmed => unit_variant "SeedboxUnconfirmed"
  | Hold_DownloadsRefused => unit_variant "DownloadsRefused"
  | Hold_ClientUnavailable => unit_variant "ClientUnavailable"
  | Hold_MamClientList standing =>
      newtype_variant "MamClientList" (encode_ClientStanding standing)
  | Hold_DownloadingLimit downloading limit =>
      struct_variant "DownloadingLimit" [("downloading", json_number downloading);
        ("limit", json_number limit)]
  | Hold_AccountUnknown => unit_variant "AccountUnknown"
  | Hold_RatioLow => unit_variant "RatioLow"
  | Hold_UnsatisfiedLimit count limit =>
      struct_variant "UnsatisfiedLimit" [("count", json_number count);
        ("limit", json_number limit)]
  | Hold_NoWedge => unit_variant "NoWedge"
  | Hold_RatioUsed => unit_variant "RatioUsed"
  | Hold_RatioGuardUnknown => unit_variant "RatioGuardUnknown"
  | Hold_NotBookmarked => unit_variant "NotBookmarked"
  end.

Definition encode_Purchase (v : Purchase) : option Value :=
  match v with
  | Purchase_Vip => unit_variant "Vip"
  end.

Definition encode_NotFreeOutcome (v : NotFreeOutcome) : option Value :=
  match v with
  | NotFreeOutcome_Stopped => unit_variant "Stopped"
  | NotFreeOutcome_FinishedFirst => unit_variant "FinishedFirst"
  end.

Definition encode_PortFinding (v : PortFinding) : option Value :=
  match v with
  | PortFinding_Matches port => newtype_variant "Matches" (json_number port)
  | PortFinding_Differs listening forwarded =>
      struct_variant "Differs" [("listening", json_option json_number listening);
        ("forwarded", json_number forwarded)]
  | PortFinding_NoForwardedPort => unit_variant "NoForwardedPort"
  end.

Definition encode_LeaseRenewal (v : LeaseRenewal) : option Value :=
  match v with
  | LeaseRenewal_Requested => unit_variant "Requested"
  | LeaseRenewal_NotRequested => unit_variant "NotRequested"
  end.

Definition encode_IpFinding (v : IpFinding) : option Value :=
  match v with
  | IpFinding_Matches ip => newtype_variant "Matches" (json_ip ip)
  | IpFinding_Differs mam tunnel =>
      struct_variant "Differs" [("mam", json_ip mam); ("tunnel", json_ip tunnel)]
  | IpFinding_Unknown => unit_variant "Unknown"
  end.

Definition encode_SeedboxConfirmation (v : SeedboxConfirmation) : option Value :=
  match v with
  | SeedboxConfirmation_Confirmed => unit_variant "Confirmed"
  | SeedboxConfirmation_Unconfirmed => unit_variant "Unconfirmed"
  end.

Definition encode_Findings (v : Findings) : option Value :=
  object [("listen_port", encode_PortFinding (findings_listen_port v));
          ("lease", encode_LeaseRenewal (findings_lease v));
          ("exit_ip", encode_IpFinding (findings_exit_ip v));
          ("seedbox", encode_SeedboxConfirmation (findings_seedbox v));
          ("interface", json_option json_text (findings_interface v))].

Definition encode_Notice (v : Notice) : option Value :=
  match v with
  | Notice_Started mode => struct_variant "Started" [("mode", encode_StartupMode mode)]
  | Notice_StartupFailed => unit_variant "StartupFailed"
  | Notice_VpnProtectionLost failures =>
      struct_variant "VpnProtectionLost" [("failures", json_number failures)]
  | Notice_VpnProtectionRestored exit_ip server =>
      struct_variant "VpnProtectionRestored" [("exit_ip", json_ip exit_ip);
        ("server", json_option json_text server)]
  | Notice_FailoverStarted server =>
      struct_variant "FailoverStarted" [("server", json_text server)]
  | Notice_FailoverSucceeded server =>
      struct_variant "FailoverSucceeded" [("server", json_text server)]
  | Notice_FailoverFailed server =>
      struct_variant "FailoverFailed" [("server", json_text server)]
  | Notice_FailoverBlocked reason =>
      struct_variant "FailoverBlocked" [("reason", encode_SwitchBlock reason)]
  | Notice_ForwardedPortLost => unit_variant "ForwardedPortLost"
  | Notice_ForwardedPortRestored port =>
      struct_variant "ForwardedPortRestored" [("port", json_number port)]
  | Notice_QbittorrentUnreachable reason =>
      struct_variant "QbittorrentUnreachable" [("reason", encode_QbittorrentFailure reason)]
  | Notice_QbittorrentReachable => unit_variant "QbittorrentReachable"
  | Notice_QbittorrentVersionNotAllowed version =>
      struct_variant "QbittorrentVersionNotAllowed" [("version", encode_ReportedVersion version)]
  | Notice_QbittorrentVersionAllowed version =>
      struct_variant "QbittorrentVersionAllowed" [("version", encode_ReportedVersion version)]
  | Notice_TorrentErrors count => struct_variant "TorrentErrors" [("count", json_number count)]
  | Notice_TorrentErrorsCleared => unit_variant "TorrentErrorsCleared"
  | Notice_FilesMissing count => struct_variant "FilesMissing" [("count", json_number count)]
  | Notice_FilesMissingCleared => unit_variant "FilesMissingCleared"
  | Notice_TorrentsMissing count =>
      struct_variant "TorrentsMissing" [("count", json_number count)]
  | Notice_TorrentsMissingCleared => unit_variant "TorrentsMissingCleared"
  | Notice_RegistryNotSaved => unit_variant "RegistryNotSaved"
  | Notice_RegistrySaved => unit_variant "RegistrySaved"
  | Notice_RegistryUnreadable => unit_variant "RegistryUnreadable"
  | Notice_SettingNotSaved setting =>
      struct_variant "SettingNotSaved" [("setting", encode_SettingName setting)]
  | Notice_HistoryUnavailable => unit_variant "HistoryUnavailable"
  | Notice_HistoryEntriesLost count =>
      struct_variant "HistoryEntriesLost" [("count", json_number count)]
  | Notice_Test => unit_variant "Test"
  | Notice_MamSessionRejected rejection =>
      struct_variant "MamSessionRejected" [("rejection", encode_SessionRejection rejection)]
  | Notice_MamSessionAccepted => unit_variant "MamSessionAccepted"
  | Notice_SeedboxNotRegistered => unit_variant "SeedboxNotRegistered"
  | Notice_SeedboxRegistered ip => struct_variant "SeedboxRegistered" [("ip", json_ip ip)]
  | Notice_MamIpUnknown failures =>
      struct_variant "MamIpUnknown" [("failures", json_number failures)]
  | Notice_MamIpKnown => unit_variant "MamIpKnown"
  | Notice_MamStateUnreadable => unit_variant "MamStateUnreadable"
  | Notice_RatioLow ratio urgency =>
      struct_variant "RatioLow" [("ratio", json_number ratio);
        ("urgency", encode_Urgency urgency)]
  | Notice_RatioRestored => unit_variant "RatioRestored"
  | Notice_RatioUsed counted => struct_variant "RatioUsed" [("counted", json_number counted)]
  | Notice_RatioUseChecked => unit_variant "RatioUseChecked"
  | Notice_UnsatisfiedNearLimit count limit =>
      struct_variant "UnsatisfiedNearLimit" [("count", json_number count);
        ("limit", json_number limit)]
  | Notice_UnsatisfiedBelowLimit => unit_variant "UnsatisfiedBelowLimit"
  | Notice_UnsatisfiedNotSeeding count =>
      struct_variant "UnsatisfiedNotSeeding" [("count", json_number count)]
  | Notice_UnsatisfiedSeeding => unit_variant "UnsatisfiedSeeding"
  | Notice_MamFlagged partial tracker_errors flagged =>
      struct_variant "MamFlagged" [("partial", encode_Partials partial);
        ("tracker_errors", json_number tracker_errors); ("flagged", json_number flagged)]
  | Notice_MamFlagsCleared => unit_variant "MamFlagsCleared"
  | Notice_MamMessages count client_warning =>
      struct_variant "MamMessages" [("count", json_number count);
        ("client_warning", encode_ClientWarning client_warning)]
  | Notice_DownloadsHeld hold => struct_variant "DownloadsHeld" [("hold", encode_Hold hold)]
  | Notice_DownloadsResumed => unit_variant "DownloadsResumed"
  | Notice_NoWedgesLeft => unit_variant "NoWedgesLeft"
  | Notice_PointsBelowReserve points reserve =>
      struct_variant "PointsBelowReserve" [("points", json_number points);
        ("reserve", json_number reserve)]
  | Notice_VipEnding until => struct_variant "VipEnding" [("until", json_time until)]
  | Notice_DownloadsRefused => unit_variant "DownloadsRefused"
  | Notice_SeedingBehind count => struct_variant "SeedingBehind" [("count", json_number count)]
  | Notice_SeedingOnTrack => unit_variant "SeedingOnTrack"
  | Notice_PurchaseMade purchase points =>
      struct_variant "PurchaseMade" [("purchase", encode_Purchase purchase);
        ("points", json_number points)]
  | Notice_PurchaseRefused purchase =>
      struct_variant "PurchaseRefused" [("purchase", encode_Purchase purchase)]
  | Notice_PurchaseUncertain purchase =>
      struct_variant "PurchaseUncertain" [("purchase", encode_Purchase purchase)]
  | Notice_WedgeNotSpent => unit_variant "WedgeNotSpent"
  | Notice_DownloadNotFree outcome =>
      struct_variant "DownloadNotFree" [("outcome", encode_NotFreeOutcome outcome)]
  | Notice_WedgedMidDownload => unit_variant "WedgedMidDownload"
  | Notice_PurchaseSettled purchase sale =>
      struct_variant "PurchaseSettled" [("purchase", encode_Purchase purchase);
        ("sale", encode_Sale sale)]
  | Notice_PurchaseNeedsChecking purchase =>
      struct_variant "PurchaseNeedsChecking" [("purchase", encode_Purchase purchase)]
  | Notice_MamClientNotListed standing =>
      struct_variant "MamClientNotListed" [("standing", encode_ClientStanding standing)]
  | Notice_MamClientListed => unit_variant "MamClientListed"
  | Notice_NotConnectable findings =>
      struct_variant "NotConnectable" [("findings", encode_Findings findings)]
  | Notice_ConnectableAgain => unit_variant "ConnectableAgain"
  | Notice_MamVisitReminder => unit_variant "MamVisitReminder"
  end.

Definition encode_Push (v : Push) : option Value :=
  object [("entry", json_option json_number (push_entry v));
          ("notice", encode_Notice (push_notice v))].

Definition encode_Reach (v : Reach) : option Value :=
  match v with
  | Reach_Push => unit_variant "Push"
  | Reach_Dashboard => unit_variant "Dashboard"
  end.

Definition encode_Logged (v : Logged) : option Value :=
  object [("id", json_number (logged_id v));
          ("at", json_time (logged_at v));
          ("notice", encode_Notice (logged_notice v));
          ("reach", encode_Reach (logged_reach v))].

Definition encode_ClientListing (v : ClientListing) : option Value :=
  match v with
  | ClientListing_Include => unit_variant "Include"
  | ClientListing_Omit => unit_variant "Omit"
  end.

Definition encode_Wedge (v : Wedge) : option Value :=
  match v with
  | Wedge_Spend => unit_variant "Spend"
  | Wedge_Keep => unit_variant "Keep"
  end.

Definition encode_MamRequest (v : MamRequest) : option Value :=
  match v with
  | MamRequest_LookUpIp => unit_variant "LookUpIp"
  | MamRequest_RegisterSeedbox => unit_variant "RegisterSeedbox"
  | MamRequest_LoadUserData clients =>
      struct_variant "LoadUserData" [("clients", encode_ClientListing clients)]
  | MamRequest_ListBookmarks start =>
      struct_variant "ListBookmarks" [("start", json_number start)]
  | MamRequest_FetchTorrent id wedge =>
      struct_variant "FetchTorrent" [("id", json_number id); ("wedge", encode_Wedge wedge)]
  | MamRequest_Buy purchase => newtype_variant "Buy" (encode_Purchase purchase)
  | MamRequest_WedgeHistory => unit_variant "WedgeHistory"
  | MamRequest_LookUpTorrent id => struct_variant "LookUpTorrent" [("id", json_number id)]
  end.

Definition encode_Action (v : Action) : option Value :=
  match v with
  | Action_OpenStorage mode => struct_variant "OpenStorage" [("mode", encode_StartupMode mode)]
  | Action_ReadMamRequestMode => unit_variant "ReadMamRequestMode"
  | Action_WriteMamRequestMode mode =>
      struct_variant "WriteMamRequestMode" [("mode", encode_MamRequestMode mode)]
  | Action_DeleteMamRequestMode => unit_variant "DeleteMamRequestMode"
  | Action_ReadSettings => unit_variant "ReadSettings"
  | Action_WriteHistoryLimit limit =>
      struct_variant "WriteHistoryLimit" [("limit", json_number limit)]
  | Action_WriteApiCookie cookie =>
      struct_variant "WriteApiCookie" [("cookie", json_option redacted cookie)]
  | Action_OpenHistory => unit_variant "OpenHistory"
  | Action_TrimHistory keep => struct_variant "TrimHistory" [("keep", json_number keep)]
  | Action_StartTimer name id deadline =>
      struct_variant "StartTimer" [("name", encode_TimerName name); ("id", json_number id);
        ("deadline", encode_Deadline deadline)]
  | Action_RequestPortMapping lifetime =>
      struct_variant "RequestPortMapping" [("lifetime", json_duration lifetime)]
  | Action_ConnectQbittorrent => unit_variant "ConnectQbittorrent"
  | Action_SyncQbittorrent position =>
      struct_variant "SyncQbittorrent" [("position", json_number position)]
  | Action_ReadQbittorrentPreferences => unit_variant "ReadQbittorrentPreferences"
  | Action_SetQbittorrentListenPort port =>
      struct_variant "SetQbittorrentListenPort" [("port", json_number port)]
  | Action_QbittorrentCommand command =>
      struct_variant "QbittorrentCommand" [("command", encode_TorrentCommand command)]
  | Action_ReadTorrentRegistry => unit_variant "ReadTorrentRegistry"
  | Action_SaveTorrents records =>
      struct_variant "SaveTorrents" [("records", json_list encode_TorrentRecord records)]
  | Action_CheckExitIp => unit_variant "CheckExitIp"
  | Action_ReadLastVpnSwitch => unit_variant "ReadLastVpnSwitch"
  | Action_SaveVpnSwitch switch =>
      struct_variant "SaveVpnSwitch" [("switch", encode_VpnSwitch switch)]
  | Action_SwitchVpnServer server =>
      struct_variant "SwitchVpnServer" [("server", json_text server)]
  | Action_WriteNtfyTopic topic =>
      struct_variant "WriteNtfyTopic" [("topic", json_option redacted topic)]
  | Action_SendNotification topic push =>
      struct_variant "SendNotification" [("topic", redacted topic); ("push", encode_Push push)]
  | Action_ReadNoticeLog => unit_variant "ReadNoticeLog"
  | Action_SaveNotice entry forget_through =>
      struct_variant "SaveNotice" [("entry", encode_Logged entry);
        ("forget_through", json_option json_number forget_through)]
  | Action_WritePointsReserve reserve =>
      struct_variant "WritePointsReserve" [("reserve", json_number reserve)]
  | Action_SetQbittorrentQueue queue =>
      struct_variant "SetQbittorrentQueue" [("queue", encode_QueuePreferences queue)]
  | Action_WriteTorrentLimits limits =>
      struct_variant "WriteTorrentLimits" [("limits", encode_TorrentLimits limits)]
  | Action_WriteRotatedApiCookie cookie =>
      struct_variant "WriteRotatedApiCookie" [("cookie", redacted cookie)]
  | Action_ReadMamState => unit_variant "ReadMamState"
  | Action_SaveRegistrationAttempt at_ =>
      struct_variant "SaveRegistrationAttempt" [("at", json_time at_)]
  | Action_SaveRatioGuard guard =>
      struct_variant "SaveRatioGuard" [("guard", encode_SavedRatioGuard guard)]
  | Action_SaveReminder at_ => struct_variant "SaveReminder" [("at", json_time at_)]
  | Action_MamRequest request cookie =>
      struct_variant "MamRequest" [("request", encode_MamRequest request);
        ("cookie", json_option redacted cookie)]
  end.
