(* ===== verification/Rows.v ===== *)
(** * Rows of the database

    How the values of the core become columns and are read back
    ([shell/storage.rs]): integers, times, the names of states, and the 21
    columns of a torrent row. SQLite's column values and the conversions of its
    driver are an interface, [Columns]. *)

From S2P Require Import Prelude Values Vocabulary MamApi Messages Timer Qbittorrent Registry.
From S2P Require Import Bytes Text.

(** ** Column values *)

(** A column value is null, an integer of 64 bits, or text (or a kind Windlass
    does not write); the driver refuses to read a value as another kind. *)
Class Columns (V : Type) := {
  null : V;
  of_integer : Z → V;
  of_text : string → V;
  is_null : V → bool;
  get_integer : V → option Z;
  get_text : V → option string;
}.
Class ColumnsOk (V : Type) `{Columns V} := {
  null_is_null : is_null null = true;
  integer_not_null n : is_null (of_integer n) = false;
  text_not_null s : is_null (of_text s) = false;
  get_of_integer n : i64_min ≤ n ≤ i64_max → get_integer (of_integer n) = Some n;
  get_of_text s : get_text (of_text s) = Some s;
  get_integer_range v n : get_integer v = Some n → i64_min ≤ n ≤ i64_max;
}.
#[global] Hint Mode Columns ! : typeclass_instances.

(** ** Integers and times *)

(** [i64::try_from(count).unwrap_or(i64::MAX)]. *)
Definition integer (count : Z) : Z := try_from_or_max i64_max count.

Definition UNIX_EPOCH : SystemTime := 0.

Definition seconds (time : SystemTime) : Z :=
  match wall_duration_since time UNIX_EPOCH with
  | Some since => integer (as_secs since)
  | None => 0
  end.

(** [u64::try_from] of an [i64], and [u32::try_from]. *)
Definition to_u64 (n : Z) : option Z := then_some (0 <=? n) n.
Definition to_u32 (n : Z) : option Z := then_some ((0 <=? n) && (n <=? u32_max)) n.
Definition to_u16 (n : Z) : option Z := then_some ((0 <=? n) && (n <=? u16_max)) n.

Definition time_from_seconds (s : Z) : option SystemTime :=
  s ← to_u64 s; checked_add UNIX_EPOCH (from_secs s).

(** [transpose] of a fallible conversion of an optional value. *)
Definition transpose {A B} (f : A → option B) (o : option A) : option (option B) :=
  match o with Some x => Some <$> f x | None => Some None end.

(** ** Names *)

Definition state_name (state : TorrentState) : string :=
  match state with
  | TorrentState_FetchingMetadata => "metaDL"
  | TorrentState_Downloading => "downloading"
  | TorrentState_DownloadStalled => "stalledDL"
  | TorrentState_DownloadQueued => "queuedDL"
  | TorrentState_Seeding => "uploading"
  | TorrentState_SeedStalled => "stalledUP"
  | TorrentState_SeedQueued => "queuedUP"
  | TorrentState_Stopped Completion_Complete => "stoppedUP"
  | TorrentState_Stopped Completion_Incomplete => "stoppedDL"
  | TorrentState_Checking => "checkingDL"
  | TorrentState_Moving => "moving"
  | TorrentState_MissingFiles => "missingFiles"
  | TorrentState_Error => "error"
  | TorrentState_Unknown => "unknown"
  end%string.

(** [torrent_state] of [shell/qbittorrent.rs], which also reads the names
    qBittorrent reports. *)
Definition torrent_state_of (state : string) : TorrentState :=
  let among := existsb (String.eqb state) in
  if among ["metaDL"; "forcedMetaDL"] then TorrentState_FetchingMetadata
  else if among ["allocating"; "downloading"; "forcedDL"] then TorrentState_Downloading
  else if among ["stalledDL"] then TorrentState_DownloadStalled
  else if among ["queuedDL"] then TorrentState_DownloadQueued
  else if among ["uploading"; "forcedUP"] then TorrentState_Seeding
  else if among ["stalledUP"] then TorrentState_SeedStalled
  else if among ["queuedUP"] then TorrentState_SeedQueued
  else if among ["pausedUP"; "stoppedUP"] then TorrentState_Stopped Completion_Complete
  else if among ["pausedDL"; "stoppedDL"] then TorrentState_Stopped Completion_Incomplete
  else if among ["checkingUP"; "checkingDL"; "checkingResumeData"] then TorrentState_Checking
  else if among ["moving"] then TorrentState_Moving
  else if among ["missingFiles"] then TorrentState_MissingFiles
  else if among ["error"] then TorrentState_Error
  else TorrentState_Unknown.

Definition origin_name (origin : Origin) : string :=
  match origin with
  | Origin_Bookmark => "bookmark"
  | Origin_Redownload => "redownload"
  | Origin_Adopted => "adopted"
  end%string.
Definition origin_of (name : string) : option Origin :=
  if String.eqb name "bookmark" then Some Origin_Bookmark
  else if String.eqb name "redownload" then Some Origin_Redownload
  else if String.eqb name "adopted" then Some Origin_Adopted
  else None.

Definition desired_name (desired : Desired) : string :=
  match desired with
  | Desired_Queued => "queued"
  | Desired_Snatched => "snatched"
  | Desired_Active => "active"
  | Desired_Held => "held"
  | Desired_Removed => "removed"
  end%string.
Definition desired_of (name : string) : option Desired :=
  if String.eqb name "queued" then Some Desired_Queued
  else if String.eqb name "snatched" then Some Desired_Snatched
  else if String.eqb name "active" then Some Desired_Active
  else if String.eqb name "held" then Some Desired_Held
  else if String.eqb name "removed" then Some Desired_Removed
  else None.

(** [try_new] of [TorrentName], [SavePath] and [ContentPath]: not empty. *)
Definition not_empty (s : string) : option string :=
  if String.eqb s "" then None else Some s.

(** ** Torrent rows *)

Section rows.
Context {V : Type} `{Columns V}.

(** [ToSql] of an optional value, and [FromSql]: null is [None]. *)
Definition of_option {A} (f : A → V) (o : option A) : V :=
  match o with Some x => f x | None => null end.
Definition optional {A} (get : V → option A) (v : V) : option (option A) :=
  if is_null v then Some None else Some <$> get v.
(** A [bool] is an integer that is not zero. *)
Definition of_bool (x : bool) : V := of_integer (if x then 1 else 0).
Definition get_bool (v : V) : option bool := (λ n, negb (n =? 0)) <$> get_integer v.

(** [row.get(column)]. *)
Definition column {A} (get : V → option A) (row : list V) (i : nat) : option A :=
  v ← row !! i; get v.

(** An optional text column, parsed into its type. *)
Definition text (row : list V) (i : nat) : option (option string) :=
  value ← column (optional get_text) row i; transpose not_empty value.

Definition count (row : list V) (i : nat) : option Z :=
  n ← column get_integer row i; to_u64 n.
Definition time (row : list V) (i : nat) : option (option SystemTime) :=
  s ← column (optional get_integer) row i; transpose time_from_seconds s.

Definition observation (row : list V) (last_seen : Z) : option Observation :=
  state ← column get_text row 8;
  progress ← count row 9;
  progress ← to_u16 progress;
  progress ← Progress_from_permille progress;
  name ← text row 7;
  size ← count row 10;
  total_size ← count row 11;
  downloaded ← count row 12;
  uploaded ← count row 13;
  ratio ← count row 14;
  seeding ← count row 15;
  added_at ← time row 16;
  completed_at ← time row 17;
  content_path ← text row 18;
  save_path ← text row 19;
  last_seen ← time_from_seconds last_seen;
  Some (mkObservation
    {| torrent_name := name; torrent_state := torrent_state_of state;
       torrent_progress := progress; torrent_size := size; torrent_total_size := total_size;
       torrent_downloaded := downloaded; torrent_uploaded := uploaded; torrent_ratio := ratio;
       torrent_seeding_time := from_secs seeding; torrent_added_at := added_at;
       torrent_completed_at := completed_at; torrent_content_path := content_path;
       torrent_save_path := save_path; torrent_force_start := ForceStart_NotForced |}
    last_seen).

Definition torrent_record (row : list V) : option TorrentRecord :=
  id ← column get_integer row 0;
  id ← to_u64 id;
  id ← RecordId_new id;
  mam ← column (optional get_integer) row 1;
  mam ← transpose (λ mam, to_u64 mam ≫= MamTorrentId_new) mam;
  hash ← column (optional get_text) row 2;
  hash ← transpose TorrentHash_parse hash;
  identity ← Identity_new mam hash;
  origin ← column get_text row 3;
  origin ← origin_of origin;
  desired ← column get_text row 4;
  desired ← desired_of desired;
  last_seen ← column (optional get_integer) row 20;
  observed ← transpose (observation row) last_seen;
  save_path ← text row 5;
  deletion ← column get_bool row 6;
  Some (mkTorrentRecord id identity origin desired save_path
    (if deletion : bool then ContentDeletion_Allowed else ContentDeletion_NotAllowed) observed).

(** The parameters of the insert of [save_torrents]. *)
Definition torrent_row (record : TorrentRecord) : list V :=
  let observed := record_observation record in
  let torrent := observation_torrent <$> observed in
  let count (f : Torrent → Z) := of_option (λ torrent, of_integer (integer (f torrent))) torrent in
  let time (f : Torrent → option SystemTime) :=
    of_option (λ at_, of_integer (seconds at_)) (torrent ≫= f) in
  let name (f : Torrent → option string) := of_option of_text (torrent ≫= f) in
  [ of_integer (integer (record_id record));
    of_option (λ mam, of_integer (integer mam)) (Identity_mam_id (record_identity record));
    of_option of_text (Identity_hash (record_identity record));
    of_text (origin_name (record_origin record));
    of_text (desired_name (record_desired record));
    of_option of_text (record_save_path record);
    of_bool (record_deletion record ==? ContentDeletion_Allowed);
    name torrent_name;
    of_option (λ torrent, of_text (state_name (torrent_state torrent))) torrent;
    of_option (λ torrent, of_integer (torrent_progress torrent)) torrent;
    count torrent_size;
    count torrent_total_size;
    count torrent_downloaded;
    count torrent_uploaded;
    count torrent_ratio;
    count (λ torrent, as_secs (torrent_seeding_time torrent));
    time torrent_added_at;
    time torrent_completed_at;
    name torrent_content_path;
    name torrent_save_path;
    of_option (λ observed, of_integer (seconds (observation_last_seen observed))) observed ].
End rows.

(** ** Valid rows, and what is kept of them *)

Definition Torrent_ok (t : Torrent) : Prop :=
  0 ≤ torrent_progress t ≤ 1000 ∧
  is_u64 (torrent_size t) ∧ is_u64 (torrent_total_size t) ∧ is_u64 (torrent_downloaded t) ∧
  is_u64 (torrent_uploaded t) ∧ is_u64 (torrent_ratio t) ∧
  0 ≤ torrent_seeding_time t ≤ DURATION_MAX ∧
  torrent_name t ≠ Some "" ∧ torrent_content_path t ≠ Some "" ∧ torrent_save_path t ≠ Some "".

Definition Identity_ok (i : Identity) : Prop :=
  (∀ mam, Identity_mam_id i = Some mam → 1 ≤ mam ≤ u64_max) ∧
  (∀ h, Identity_hash i = Some h → TorrentHash_parse h = Some h).

Definition TorrentRecord_ok (r : TorrentRecord) : Prop :=
  1 ≤ record_id r ≤ u64_max ∧ Identity_ok (record_identity r) ∧ record_save_path r ≠ Some "" ∧
  ∀ o, record_observation r = Some o → Torrent_ok (observation_torrent o).

(** Storage keeps whole seconds from 1970 on and integers of 63 bits, and not
    whether a torrent was forced to start. *)
Definition stored_time (at_ : SystemTime) : SystemTime := from_secs (seconds at_).

Definition stored_torrent (t : Torrent) : Torrent := {|
  torrent_name := torrent_name t;
  torrent_state := torrent_state t;
  torrent_progress := torrent_progress t;
  torrent_size := integer (torrent_size t);
  torrent_total_size := integer (torrent_total_size t);
  torrent_downloaded := integer (torrent_downloaded t);
  torrent_uploaded := integer (torrent_uploaded t);
  torrent_ratio := integer (torrent_ratio t);
  torrent_seeding_time := from_secs (integer (as_secs (torrent_seeding_time t)));
  torrent_added_at := stored_time <$> torrent_added_at t;
  torrent_completed_at := stored_time <$> torrent_completed_at t;
  torrent_content_path := torrent_content_path t;
  torrent_save_path := torrent_save_path t;
  torrent_force_start := ForceStart_NotForced;
|}.

Definition stored_identity (i : Identity) : Identity :=
  match i with
  | Identity_Mam mam => Identity_Mam (integer mam)
  | Identity_Client hash => Identity_Client hash
  | Identity_Linked mam hash => Identity_Linked (integer mam) hash
  end.

Definition stored_record (r : TorrentRecord) : TorrentRecord := {|
  record_id := integer (record_id r);
  record_identity := stored_identity (record_identity r);
  record_origin := record_origin r;
  record_desired := record_desired r;
  record_save_path := record_save_path r;
  record_deletion := record_deletion r;
  record_observation :=
    (λ o, mkObservation (stored_torrent (observation_torrent o))
            (stored_time (observation_last_seen o))) <$> record_observation r;
|}.

(** ** Conversions *)

Lemma integer_range n : 0 ≤ n → 0 ≤ integer n ≤ i64_max.
Proof. unfold integer, try_from_or_max, i64_max. lia. Qed.

Lemma integer_small n : n ≤ i64_max → integer n = n.
Proof. unfold integer, try_from_or_max. lia. Qed.

Lemma integer_idemp n : integer (integer n) = integer n.
Proof. unfold integer, try_from_or_max. lia. Qed.

Lemma as_secs_range d : 0 ≤ d → 0 ≤ as_secs d.
Proof. intros. apply Z.div_pos; [done|]. unfold NANOS_PER_SEC. lia. Qed.

Lemma as_secs_from_secs n : as_secs (from_secs n) = n.
Proof. unfold as_secs, from_secs. apply Z.div_mul. unfold NANOS_PER_SEC. lia. Qed.

Lemma seconds_range at_ : 0 ≤ seconds at_ ≤ i64_max.
Proof.
  unfold seconds, wall_duration_since, UNIX_EPOCH. case_match; [|unfold i64_max; lia].
  case_match; simplify_eq. reflect_bools. apply integer_range, as_secs_range. lia.
Qed.

Lemma seconds_from_secs n : 0 ≤ n ≤ i64_max → seconds (from_secs n) = n.
Proof.
  intros Hn. unfold seconds, wall_duration_since, UNIX_EPOCH.
  rewrite (proj2 (Z.leb_le _ _)) by (unfold from_secs, NANOS_PER_SEC; lia).
  rewrite Z.sub_0_r, as_secs_from_secs. apply integer_small. lia.
Qed.

Lemma seconds_stored at_ : seconds (stored_time at_) = seconds at_.
Proof. apply seconds_from_secs, seconds_range. Qed.

Lemma time_from_seconds_Some n : 0 ≤ n ≤ i64_max → time_from_seconds n = Some (from_secs n).
Proof.
  intros Hn. unfold time_from_seconds, to_u64, then_some. rewrite (proj2 (Z.leb_le _ _)) by lia.
  simpl. unfold UNIX_EPOCH. rewrite checked_add_fits; [f_equal; lia|].
  unfold from_secs, TIME_MAX, NANOS_PER_SEC, i64_max in *. lia.
Qed.

Lemma to_u64_Some n : 0 ≤ n → to_u64 n = Some n.
Proof. intros. apply then_some_Some. split; [by apply Z.leb_le|done]. Qed.

Lemma torrent_state_of_name s : torrent_state_of (state_name s) = s.
Proof. by destruct s as [| | | | | | |[]| | | | |]. Qed.
Lemma origin_of_name o : origin_of (origin_name o) = Some o.
Proof. by destruct o. Qed.
Lemma desired_of_name d : desired_of (desired_name d) = Some d.
Proof. by destruct d. Qed.

Lemma not_empty_Some s : Some s ≠ Some "" → not_empty s = Some s.
Proof. intros H. unfold not_empty. destruct (String.eqb_spec s ""); congruence. Qed.

Lemma transpose_not_empty o : o ≠ Some "" → transpose not_empty o = Some o.
Proof. destruct o as [s|]; [|done]. intros. simpl. by rewrite not_empty_Some. Qed.

Lemma transpose_Some {A B} (f : A → option B) (g : A → B) o :
  (∀ x, o = Some x → f x = Some (g x)) → transpose f o = Some (g <$> o).
Proof. destruct o as [x|]; [|done]. intros H. simpl. by rewrite H. Qed.

Lemma progress_conversions p :
  0 ≤ p ≤ 1000 → to_u16 p = Some p ∧ Progress_from_permille p = Some p.
Proof.
  intros Hp. unfold to_u16, then_some, Progress_from_permille, u16_max.
  by rewrite !(proj2 (Z.leb_le _ _)) by lia.
Qed.

Lemma non_zero_integer n : 1 ≤ n → non_zero u64_max (integer n) = Some (integer n).
Proof.
  intros Hn. unfold non_zero, integer, try_from_or_max, i64_max, u64_max.
  by rewrite (proj2 (Z.leb_le 1 _)), (proj2 (Z.leb_le (Z.min _ _) _)) by lia.
Qed.

Section codec.
Context {V : Type} `{ColumnsOk V}.

Lemma optional_integer {A} (f : A → Z) (o : option A) :
  (∀ x, i64_min ≤ f x ≤ i64_max) →
  optional get_integer (of_option (V := V) (λ x, of_integer (f x)) o) = Some (f <$> o).
Proof.
  intros Hf. destruct o as [x|]; unfold optional; simpl; [|by rewrite null_is_null].
  by rewrite integer_not_null, get_of_integer.
Qed.

Lemma optional_text (o : option string) : optional get_text (of_option (V := V) of_text o) = Some o.
Proof.
  destruct o as [x|]; unfold optional; simpl; [|by rewrite null_is_null].
  by rewrite text_not_null, get_of_text.
Qed.

Lemma get_of_bool x : get_bool (V := V) (of_bool x) = Some x.
Proof.
  unfold get_bool, of_bool. rewrite get_of_integer; [by destruct x|].
  unfold i64_min, i64_max. destruct x; lia.
Qed.

Lemma get_count n : 0 ≤ n → get_integer (V := V) (of_integer (integer n)) = Some (integer n).
Proof. intros. apply get_of_integer. pose proof (integer_range n). unfold i64_min. lia. Qed.

Lemma get_seconds at_ : get_integer (V := V) (of_integer (seconds at_)) = Some (seconds at_).
Proof. apply get_of_integer. pose proof (seconds_range at_). unfold i64_min. lia. Qed.

Lemma count_column (row : list V) i n :
  row !! i = Some (of_integer (integer n)) → 0 ≤ n → count row i = Some (integer n).
Proof.
  intros Hi Hn. unfold count, column. rewrite Hi. simpl. rewrite get_count by done. simpl.
  apply to_u64_Some, integer_range, Hn.
Qed.

Lemma time_column (row : list V) i (o : option SystemTime) :
  row !! i = Some (of_option (λ at_, of_integer (seconds at_)) o) →
  time row i = Some (stored_time <$> o).
Proof.
  intros Hi. unfold time, column. rewrite Hi. simpl. rewrite optional_integer.
  - simpl. destruct o as [at_|]; [|done]. simpl. by rewrite time_from_seconds_Some by apply seconds_range.
  - intros x. pose proof (seconds_range x). unfold i64_min. lia.
Qed.

Lemma text_column (row : list V) i o :
  row !! i = Some (of_option of_text o) → o ≠ Some "" → text row i = Some o.
Proof.
  intros Hi Ho. unfold text, column. rewrite Hi. simpl. rewrite optional_text. simpl.
  by apply transpose_not_empty.
Qed.

Lemma column_at {A} (get : V → option A) (row : list V) i v : row !! i = Some v → column get row i = get v.
Proof. intros Hi. unfold column. by rewrite Hi. Qed.

(** Each column of a saved observation, read back. *)
Lemma observation_row r o :
  TorrentRecord_ok r → record_observation r = Some o →
  observation (V := V) (torrent_row r) (seconds (observation_last_seen o)) =
    Some (mkObservation (stored_torrent (observation_torrent o))
            (stored_time (observation_last_seen o))).
Proof.
  intros (_ & _ & _ & Hok) Ho.
  destruct (Hok o Ho) as (Hp & Hsz & Hts & Hdl & Hul & Hra & Hse & Hn & Hcp & Hsp).
  unfold in_width in *. destruct o as [t seen]. simpl in *.
  set (row := torrent_row r).
  assert (column get_text row 8 = Some (state_name (torrent_state t))) as H8.
  { rewrite (column_at _ row 8 (of_text (state_name (torrent_state t)))); [apply get_of_text|].
    unfold row, torrent_row. by rewrite Ho. }
  assert (count row 9 = Some (torrent_progress t)) as H9.
  { rewrite <-(integer_small (torrent_progress t)) by (unfold i64_max; lia).
    apply count_column; [|lia]. unfold row, torrent_row. rewrite Ho. simpl.
    by rewrite integer_small by (unfold i64_max; lia). }
  assert (∀ i f, row !! i = Some (of_integer (integer (f t))) → 0 ≤ f t →
    count row i = Some (integer (f t))) as Hcount by (intros; by apply count_column).
  unfold observation. rewrite H8, H9. cbn [mbind option_bind].
  destruct (progress_conversions (torrent_progress t) Hp) as [-> Hpermille].
  cbn [mbind option_bind]. rewrite Hpermille. cbn [mbind option_bind].
  unfold row, torrent_row. rewrite Ho. simpl fmap. cbv zeta.
  rewrite (text_column _ 7 (torrent_name t)) by done. cbn [mbind option_bind].
  rewrite (count_column _ 10 (torrent_size t)), (count_column _ 11 (torrent_total_size t)),
    (count_column _ 12 (torrent_downloaded t)), (count_column _ 13 (torrent_uploaded t)),
    (count_column _ 14 (torrent_ratio t)), (count_column _ 15 (as_secs (torrent_seeding_time t)))
    by (done || lia || (apply as_secs_range; lia)). cbn [mbind option_bind].
  rewrite (time_column _ 16 (torrent_added_at t)), (time_column _ 17 (torrent_completed_at t)) by done.
  cbn [mbind option_bind].
  rewrite (text_column _ 18 (torrent_content_path t)), (text_column _ 19 (torrent_save_path t)) by done.
  cbn [mbind option_bind]. rewrite time_from_seconds_Some by apply seconds_range.
  cbn [mbind option_bind]. by rewrite torrent_state_of_name.
Qed.

Lemma torrent_record_row r :
  TorrentRecord_ok r → torrent_record (V := V) (torrent_row r) = Some (stored_record r).
Proof.
  intros Hok. pose proof Hok as (Hid & (Hmam & Hhash) & Hpath & _).
  unfold torrent_record. set (row := torrent_row r).
  rewrite (column_at _ row 0 (of_integer (integer (record_id r)))) by reflexivity.
  rewrite get_count by lia. cbn [mbind option_bind].
  pose proof (integer_range (record_id r)).
  rewrite to_u64_Some by lia. cbn [mbind option_bind].
  unfold RecordId_new. rewrite non_zero_integer by lia. cbn [mbind option_bind].
  rewrite (column_at _ row 1 (of_option (λ mam, of_integer (integer mam))
             (Identity_mam_id (record_identity r)))) by reflexivity.
  assert (optional get_integer (of_option (V := V) (λ mam, of_integer (integer mam))
    (Identity_mam_id (record_identity r))) = Some (integer <$> Identity_mam_id (record_identity r))) as ->.
  { destruct (Identity_mam_id _) as [mam|]; simpl; unfold optional; [|by rewrite null_is_null].
    destruct (Hmam mam eq_refl). by rewrite integer_not_null, get_count by lia. }
  cbn [mbind option_bind].
  assert (transpose (λ mam, to_u64 mam ≫= MamTorrentId_new)
    (integer <$> Identity_mam_id (record_identity r)) =
    Some (integer <$> Identity_mam_id (record_identity r))) as ->.
  { destruct (Identity_mam_id _) as [mam|]; [|done]. destruct (Hmam mam eq_refl). simpl.
    rewrite to_u64_Some by (apply integer_range; lia). simpl. unfold MamTorrentId_new.
    by rewrite non_zero_integer by lia. }
  cbn [mbind option_bind].
  rewrite (column_at _ row 2 (of_option of_text (Identity_hash (record_identity r)))) by reflexivity.
  rewrite optional_text. cbn [mbind option_bind].
  rewrite (transpose_Some _ id) by done. rewrite option_fmap_id. cbn [mbind option_bind].
  assert (Identity_new (integer <$> Identity_mam_id (record_identity r)) (Identity_hash (record_identity r))
    = Some (stored_identity (record_identity r))) as -> by by destruct (record_identity r).
  cbn [mbind option_bind].
  rewrite (column_at _ row 3 (of_text (origin_name (record_origin r)))), get_of_text by reflexivity.
  cbn [mbind option_bind]. rewrite origin_of_name. cbn [mbind option_bind].
  rewrite (column_at _ row 4 (of_text (desired_name (record_desired r)))), get_of_text by reflexivity.
  cbn [mbind option_bind]. rewrite desired_of_name. cbn [mbind option_bind].
  rewrite (column_at _ row 20 (of_option (λ o, of_integer (seconds (observation_last_seen o)))
             (record_observation r))) by reflexivity.
  rewrite optional_integer.
  2: { intros o. pose proof (seconds_range (observation_last_seen o)). unfold i64_min. lia. }
  cbn [mbind option_bind].
  assert (transpose (observation row) ((λ o, seconds (observation_last_seen o)) <$> record_observation r)
    = Some (record_observation (stored_record r))) as ->.
  { destruct (record_observation r) as [o|] eqn:Ho; unfold stored_record; simpl; rewrite Ho; [|done].
    simpl. unfold row. by rewrite (observation_row r o). }
  cbn [mbind option_bind].
  rewrite (text_column row 5 (record_save_path r)) by (reflexivity || done). cbn [mbind option_bind].
  rewrite (column_at _ row 6 (of_bool (record_deletion r ==? ContentDeletion_Allowed))) by reflexivity.
  rewrite get_of_bool. cbn [mbind option_bind]. unfold stored_record.
  by destruct (record_deletion r).
Qed.

Lemma column_integer_range (row : list V) i n :
  column get_integer row i = Some n → i64_min ≤ n ≤ i64_max.
Proof. unfold column. intros. bind_inv. eauto using get_integer_range. Qed.

Lemma optional_integer_range (row : list V) i o :
  column (optional get_integer) row i = Some o → ∀ n, o = Some n → i64_min ≤ n ≤ i64_max.
Proof.
  unfold column, optional. intros. bind_inv. case_match; [done|]. bind_inv. simplify_eq.
  eauto using get_integer_range.
Qed.

Lemma to_u64_inv n m : to_u64 n = Some m → m = n ∧ 0 ≤ n.
Proof. unfold to_u64. rewrite then_some_Some, Z.leb_le. naive_solver. Qed.

Lemma transpose_inv {A B} (f : A → option B) o o' :
  transpose f o = Some o' → ∀ y, o' = Some y → ∃ x, o = Some x ∧ f x = Some y.
Proof. destruct o as [x|]; simpl; [|naive_solver]. intros Hb y ->. bind_inv. simplify_eq. eauto. Qed.

Lemma count_inv (row : list V) i n : count row i = Some n → 0 ≤ n ≤ i64_max.
Proof.
  unfold count. intros. bind_inv.
  match goal with H : column _ _ _ = _ |- _ => apply column_integer_range in H end.
  match goal with H : to_u64 _ = _ |- _ => apply to_u64_inv in H as [-> ?] end. lia.
Qed.

Lemma text_inv (row : list V) i o : text row i = Some o → o ≠ Some "".
Proof.
  unfold text. intros Hb ->. bind_inv.
  match goal with H : transpose _ _ = _ |- _ =>
    destruct (transpose_inv _ _ _ H "" eq_refl) as (s & -> & Hs) end.
  unfold not_empty in Hs. destruct (String.eqb_spec s ""); congruence.
Qed.

Lemma stored_time_read n at_ :
  i64_min ≤ n ≤ i64_max → time_from_seconds n = Some at_ → stored_time at_ = at_.
Proof.
  intros Hn Ht. unfold time_from_seconds in Ht. bind_inv.
  match goal with H : to_u64 _ = _ |- _ => apply to_u64_inv in H as [-> ?] end.
  match goal with H : checked_add _ _ = _ |- _ => apply checked_add_Some in H as [-> _] end.
  unfold UNIX_EPOCH, stored_time. rewrite Z.add_0_l, seconds_from_secs; [done|lia].
Qed.

Lemma time_inv (row : list V) i o : time row i = Some o → stored_time <$> o = o.
Proof.
  unfold time. intros. bind_inv. destruct o as [at_|]; [|done].
  match goal with H : transpose _ _ = _ |- _ =>
    destruct (transpose_inv _ _ _ H at_ eq_refl) as (s & -> & Hs) end.
  match goal with H : column _ _ _ = _ |- _ =>
    pose proof (optional_integer_range _ _ _ H s eq_refl) end.
  simpl. f_equal. by eapply stored_time_read.
Qed.

Lemma observation_inv (row : list V) n o :
  i64_min ≤ n ≤ i64_max → observation row n = Some o →
  Torrent_ok (observation_torrent o) ∧
  mkObservation (stored_torrent (observation_torrent o)) (stored_time (observation_last_seen o)) = o.
Proof.
  intros Hn Ho. unfold observation in Ho. bind_inv.
  repeat match goal with
  | H : count _ _ = Some _ |- _ => apply count_inv in H
  | H : text _ _ = Some _ |- _ => apply text_inv in H
  | H : time _ _ = Some _ |- _ => apply time_inv in H
  | H : time_from_seconds _ = Some _ |- _ => apply stored_time_read in H; [|done]
  | H : to_u16 _ = Some _ |- _ => apply then_some_Some in H as [? <-]
  end.
  unfold Progress_from_permille in *. case_match; [|done]. simplify_eq. reflect_bools.
  split.
  - unfold Torrent_ok, in_width, i64_max, u64_max in *. simpl. split_and!; try done; try lia.
    + unfold from_secs, NANOS_PER_SEC. lia.
    + unfold from_secs, DURATION_MAX, u64_max, NANOS_PER_SEC. lia.
  - unfold stored_torrent. simpl. rewrite as_secs_from_secs, !integer_small by lia.
    repeat match goal with H : stored_time <$> _ = _ |- _ => rewrite H; clear H end.
    congruence.
Qed.

Lemma identity_inv (mam : option Z) (hash : option TorrentHash) i :
  (∀ m, mam = Some m → 1 ≤ m ≤ i64_max) → (∀ h, hash = Some h → TorrentHash_parse h = Some h) →
  Identity_new mam hash = Some i → Identity_ok i ∧ stored_identity i = i.
Proof.
  intros Hm Hh Hi. unfold i64_max in Hm.
  destruct mam as [m|], hash as [h|]; simplify_eq/=; unfold Identity_ok, u64_max; simpl;
    rewrite ?integer_small by (specialize (Hm m eq_refl); unfold i64_max; lia);
    split_and!; intros; simplify_eq; auto; specialize (Hm _ eq_refl); lia.
Qed.

Lemma mam_column_inv (row : list V) o o' :
  column (optional get_integer) row 1 = Some o →
  transpose (λ mam, to_u64 mam ≫= MamTorrentId_new) o = Some o' →
  ∀ m, o' = Some m → 1 ≤ m ≤ i64_max.
Proof.
  intros Hc Ht m Hm. destruct (transpose_inv _ _ _ Ht m Hm) as (n & -> & Hn). bind_inv.
  pose proof (optional_integer_range _ _ _ Hc n eq_refl).
  match goal with H : to_u64 _ = _ |- _ => apply to_u64_inv in H as [-> ?] end.
  unfold MamTorrentId_new, non_zero in *. case_match; simplify_eq. reflect_bools. lia.
Qed.

(** Whatever the columns hold, a row that is read is valid, and saving it again
    changes nothing. *)
Lemma torrent_record_inv (row : list V) r :
  torrent_record row = Some r → TorrentRecord_ok r ∧ stored_record r = r.
Proof.
  unfold torrent_record. intros Hr. bind_inv. simplify_eq.
  match goal with H : Identity_new _ _ = _ |- _ => apply identity_inv in H as [Hi Hi'] end.
  2: { eauto using mam_column_inv. }
  2: { intros h ->. match goal with H : transpose TorrentHash_parse _ = _ |- _ =>
         destruct (transpose_inv _ _ _ H h eq_refl) as (s & -> & Hs) end.
       by apply TorrentHash_parse_ok in Hs as [_ ?]. }
  match goal with H : column get_integer _ 0 = _ |- _ => apply column_integer_range in H as Hid end.
  match goal with H : text _ 5 = _ |- _ => apply text_inv in H as Hpath end.
  match goal with H : to_u64 _ = _ |- _ => apply to_u64_inv in H as [-> ?] end.
  unfold RecordId_new, non_zero in *. case_match; simplify_eq. reflect_bools.
  match goal with H : transpose (observation row) ?seen = Some ?o,
      Hs : column (optional get_integer) row 20 = Some ?seen |- _ =>
    assert (∀ ob, o = Some ob → Torrent_ok (observation_torrent ob) ∧
      mkObservation (stored_torrent (observation_torrent ob)) (stored_time (observation_last_seen ob)) = ob)
      as Hobs; [|clear H Hs; destruct o as [ob|]]
  end.
  { intros ob ->. match goal with H : transpose (observation row) _ = _ |- _ =>
      destruct (transpose_inv _ _ _ H ob eq_refl) as (n & -> & Hn) end.
    eapply observation_inv, Hn. eauto using optional_integer_range. }
  - destruct (Hobs ob eq_refl) as [Hok Heq].
    split; [split_and!; simpl; [lia|done..|by intros ? [= <-]]|].
    unfold stored_record. simpl. by rewrite integer_small, Hi', Heq by lia.
  - split; [split_and!; simpl; [lia|done..]|].
    unfold stored_record. simpl. by rewrite integer_small, Hi' by lia.
Qed.
End codec.

(** ** SQLite's values *)

Inductive SqliteValue :=
  | Null
  | IntegerValue (n : Z)
  | TextValue (s : string)
  | BlobValue (l : bytes).

#[global] Instance SqliteValue_eq_dec : EqDecision SqliteValue.
Proof. solve_decision. Defined.

#[global] Instance sqlite_columns : Columns SqliteValue := {|
  null := Null;
  of_integer := IntegerValue;
  of_text := TextValue;
  is_null v := match v with Null => true | _ => false end;
  get_integer v := match v with
                   | IntegerValue n => then_some ((i64_min <=? n) && (n <=? i64_max)) n
                   | _ => None
                   end;
  get_text v := match v with TextValue s => Some s | _ => None end;
|}.

#[global] Instance sqlite_columns_ok : ColumnsOk SqliteValue.
Proof.
  split; try done.
  - intros n Hn. simpl. by rewrite (proj2 (Z.leb_le i64_min _)), (proj2 (Z.leb_le _ i64_max)) by lia.
  - intros [|m| |] n; simpl; [done| |done..]. rewrite then_some_Some. intros [Hb <-].
    reflect_bools. lia.
Qed.

(** ** Properties *)

(** a row saved for a valid torrent record reads back as that record
    with what storage does not keep left out (times to the second and from 1970 on,
    integers beyond 63 bits, whether it was forced to start); what was read saves to
    the very same columns, so that nothing more is lost by saving it again. *)
Theorem torrent_rows_round_trip {V : Type} `{ColumnsOk V} (r : TorrentRecord) :
  TorrentRecord_ok r →
  torrent_record (V := V) (torrent_row r) = Some (stored_record r) ∧
  torrent_record (V := V) (torrent_row (stored_record r)) = Some (stored_record r).
Proof.
  intros Hok. pose proof (torrent_record_row (V := V) r Hok) as Hr. split; [exact Hr|].
  destruct (torrent_record_inv _ _ Hr) as [Hok' Hid].
  rewrite (torrent_record_row (stored_record r)) by done. by rewrite Hid.
Qed.

Definition sample_hash : TorrentHash := "0123456789abcdef0123456789abcdef01234567".
Definition sample_observation : Observation := {|
  observation_torrent := {|
    torrent_name := Some "A book"; torrent_state := TorrentState_Stopped Completion_Complete;
    torrent_progress := 1000; torrent_size := 10; torrent_total_size := u64_max;
    torrent_downloaded := 10; torrent_uploaded := 30; torrent_ratio := 3000;
    torrent_seeding_time := from_hours 1 + 5; torrent_added_at := Some (from_secs 1_700_000_000 + 7);
    torrent_completed_at := Some (-3); torrent_content_path := Some "/srv/books/A book";
    torrent_save_path := None; torrent_force_start := ForceStart_Forced |};
  observation_last_seen := from_secs 1_700_001_000;
|}%string.
Definition sample_saved : TorrentRecord := {|
  record_id := 3; record_identity := Identity_Linked 77 sample_hash;
  record_origin := Origin_Redownload; record_desired := Desired_Held;
  record_save_path := Some "/srv/books"%string; record_deletion := ContentDeletion_Allowed;
  record_observation := Some sample_observation;
|}.

Lemma sample_saved_ok : TorrentRecord_ok sample_saved.
Proof.
  unfold TorrentRecord_ok, Identity_ok. simpl. split_and!; [unfold u64_max; lia..| | |done|].
  - intros mam [= <-]. unfold u64_max. lia.
  - intros h [= <-]. vm_compute. reflexivity.
  - intros o [= <-]. unfold Torrent_ok, in_width, u64_max; simpl; split_and!; try done; try lia;
      apply Z.leb_le; vm_compute; reflexivity.
Qed.

Lemma torrent_rows_witness :
  torrent_record (V := SqliteValue) (torrent_row sample_saved) = Some (stored_record sample_saved) ∧
  record_desired (stored_record sample_saved) = Desired_Held.
Proof.
  split; [|reflexivity].
  apply (torrent_rows_round_trip (V := SqliteValue) sample_saved sample_saved_ok).
Defined.
