(* ===== verification/Schema.v ===== *)
(** * The schema of the database and its upgrades

    The statements that make the tables, version by version, and opening the
    storage: making it, or bringing what an older Windlass wrote up to date
    ([shell/storage.rs]). The statements are given their SQL meaning on tables of
    rows; a symbolic run of them, which only knows where a table's rows come from,
    is shown to describe what they do to any rows. *)

From S2P Require Import Prelude Values Vocabulary Bytes Text Rows.

(** ** Tables *)

(** What a table demands of its rows. *)
Inductive Constraint :=
  | NotNull (column : string)
  | Unique (column : string)
  | OneOf (column : string) (values : list string)
  | IsOne (column : string)
  | OneNotNull (column other : string).
#[global] Instance Constraint_eq_dec : EqDecision Constraint.
Proof. solve_decision. Defined.

(** The value a new column has in the rows there are. *)
Inductive Default :=
  | DefaultNull
  | DefaultZero.
#[global] Instance Default_eq_dec : EqDecision Default.
Proof. solve_decision. Defined.

(** A statement of a schema. [InsertSelect] without columns is [SELECT *]. *)
Inductive Statement :=
  | CreateTable (name : string) (columns : list string) (constraints : list Constraint)
  | AddColumn (table column : string) (default : Default) (constraints : list Constraint)
  | InsertSelect (into from : string) (columns : option (list string))
  | DropTable (name : string)
  | RenameTable (name to : string)
  | CreateIndex (table column : string).

Definition SCHEMA_VERSION : Z := 10.

Definition SCHEMA_V1 : list Statement :=
  [CreateTable "mam_configuration" ["singleton"; "request_mode"]
     [Unique "singleton"; IsOne "singleton"; NotNull "request_mode";
      OneOf "request_mode" ["paused"; "enabled"]]]%string.

Definition SCHEMA_V2 : list Statement :=
  [CreateTable "settings" ["singleton"; "history_limit"; "api_cookie"]
     [Unique "singleton"; IsOne "singleton"];
   CreateTable "history"
     ["id"; "occurred_at_ms"; "processed_at_ms"; "category"; "summary"; "event"; "actions"]
     [Unique "id"; NotNull "occurred_at_ms"; NotNull "processed_at_ms"; NotNull "category";
      NotNull "summary"; NotNull "event"; NotNull "actions"];
   CreateIndex "history" "processed_at_ms"]%string.

Definition SCHEMA_V3 : list Statement :=
  [AddColumn "history" "routine" DefaultZero [NotNull "routine"]]%string.

Definition TORRENT_COLUMNS : list string :=
  ["id"; "mam_id"; "hash"; "origin"; "desired"; "save_path"; "deletion_allowed"; "name"; "state";
   "progress_permille"; "size"; "total_size"; "downloaded"; "uploaded"; "ratio_thousandths";
   "seeding_seconds"; "added_at"; "completed_at"; "content_path"; "observed_save_path";
   "last_seen"]%string.

(** The registry table, which differs by version in the states it allows. *)
Definition torrent_constraints (desired : list string) : list Constraint :=
  [Unique "id"; Unique "hash"; NotNull "origin"; OneOf "origin" ["bookmark"; "redownload"; "adopted"];
   NotNull "desired"; OneOf "desired" desired; NotNull "deletion_allowed";
   OneNotNull "mam_id" "hash"]%string.

Definition SCHEMA_V4 : list Statement :=
  [CreateTable "torrents" TORRENT_COLUMNS (torrent_constraints ["queued"; "active"; "removed"]);
   CreateTable "vpn_state" ["singleton"; "last_switch_server"; "last_switch_at"]
     [Unique "singleton"; IsOne "singleton"; NotNull "last_switch_server";
      NotNull "last_switch_at"]]%string.

Definition SCHEMA_V5 : list Statement :=
  [AddColumn "settings" "ntfy_topic" DefaultNull []]%string.

Definition SCHEMA_V6 : list Statement :=
  [CreateTable "torrents_v6" TORRENT_COLUMNS
     (torrent_constraints ["queued"; "active"; "held"; "removed"]);
   InsertSelect "torrents_v6" "torrents" (Some TORRENT_COLUMNS);
   DropTable "torrents";
   RenameTable "torrents_v6" "torrents";
   CreateTable "torrent_files" ["mam_id"; "hash"; "file"]
     [Unique "mam_id"; NotNull "hash"; NotNull "file"];
   CreateTable "mam_state" ["singleton"; "last_registration_at"; "last_reminder_at"]
     [Unique "singleton"; IsOne "singleton"];
   AddColumn "settings" "points_reserve" DefaultNull []]%string.

Definition SCHEMA_V7 : list Statement :=
  [CreateTable "torrents_v7" TORRENT_COLUMNS
     (torrent_constraints ["queued"; "snatched"; "active"; "held"; "removed"]);
   InsertSelect "torrents_v7" "torrents" None;
   DropTable "torrents";
   RenameTable "torrents_v7" "torrents"]%string.

Definition SCHEMA_V8 : list Statement :=
  [CreateTable "notices" ["id"; "at"; "urgent"; "title"; "body"; "page"]
     [Unique "id"; NotNull "at"; NotNull "urgent"; NotNull "title"; NotNull "body";
      NotNull "page"]]%string.

Definition SCHEMA_V9 : list Statement :=
  [AddColumn "settings" "max_downloading" DefaultNull [];
   AddColumn "settings" "max_active" DefaultNull []]%string.

Definition SCHEMA_V10 : list Statement :=
  [AddColumn "mam_state" "downloaded_watched" DefaultNull [];
   AddColumn "mam_state" "ratio_used_at" DefaultNull [];
   AddColumn "mam_state" "ratio_used_downloaded" DefaultNull []]%string.

Definition UPGRADES : list (list Statement) :=
  [SCHEMA_V2; SCHEMA_V3; SCHEMA_V4; SCHEMA_V5; SCHEMA_V6; SCHEMA_V7; SCHEMA_V8; SCHEMA_V9;
   SCHEMA_V10].

(** ** What statements do *)

Record Shape := mkShape {
  shape_columns : list string;
  shape_constraints : list Constraint;
}.
#[global] Instance Shape_eq_dec : EqDecision Shape.
Proof. solve_decision. Defined.

Fixpoint index_of (column : string) (columns : list string) : option nat :=
  match columns with
  | [] => None
  | c :: columns => if String.eqb c column then Some 0%nat else S <$> index_of column columns
  end.

Section tables.
Context {V : Type} `{Columns V, EqDecision V}.

Record Table := mkTable {
  table_shape : Shape;
  table_rows : list (list V);
}.

Definition value_at (columns : list string) (column : string) (row : list V) : option V :=
  i ← index_of column columns; row !! i.

Definition holds_of (columns : list string) (rows : list (list V)) (c : Constraint) : bool :=
  let value column row := value_at columns column row in
  let not_null column row := is_some_and (value column row) (λ v, negb (is_null v)) in
  match c with
  | NotNull column => forallb (not_null column) rows
  | Unique column =>
      bool_decide (NoDup (List.filter (λ v, negb (is_null v)) (omap (value column) rows)))
  | OneOf column values =>
      forallb (λ row, is_some_and (value column row)
        (λ v, is_null v || is_some_and (get_text v) (λ s, existsb (String.eqb s) values))) rows
  | IsOne column =>
      forallb (λ row, is_some_and (value column row)
        (λ v, is_null v || (get_integer v ==? Some 1))) rows
  | OneNotNull column other => forallb (λ row, not_null column row || not_null other row) rows
  end.

(** Every row has a value for every column, and the constraints hold. *)
Definition table_ok (t : Table) : bool :=
  forallb (λ row, (length row =? length (shape_columns (table_shape t)))%nat) (table_rows t)
  && forallb (holds_of (shape_columns (table_shape t)) (table_rows t))
       (shape_constraints (table_shape t)).

Definition default_value (d : Default) : V :=
  match d with DefaultNull => null | DefaultZero => of_integer 0 end.

(** [SELECT] of columns, in their order. *)
Definition select (from : list string) (columns : list string) (row : list V) : option (list V) :=
  mapM (λ column, value_at from column row) columns.

(** A statement fails, and with it the transaction it is in, when a table or a
    column is missing or there already, or a constraint does not hold. *)
Definition execute_statement (db : gmap string Table) (st : Statement) : option (gmap string Table) :=
  match st with
  | CreateTable name columns constraints =>
      match db !! name with
      | Some _ => None
      | None => Some (<[name := mkTable (mkShape columns constraints) []]> db)
      end
  | AddColumn table column d constraints =>
      t ← db !! table;
      let shape := table_shape t in
      if bool_decide (column ∈ shape_columns shape) then None
      else
        let t := mkTable
          (mkShape (shape_columns shape ++ [column]) (shape_constraints shape ++ constraints))
          ((λ row, row ++ [default_value d]) <$> table_rows t) in
        if table_ok t then Some (<[table := t]> db) else None
  | InsertSelect into from columns =>
      t ← db !! into;
      f ← db !! from;
      rows ← mapM (select (shape_columns (table_shape f))
                     (default (shape_columns (table_shape f)) columns)) (table_rows f);
      let t := mkTable (table_shape t) (table_rows t ++ rows) in
      if table_ok t then Some (<[into := t]> db) else None
  | DropTable name => _ ← db !! name; Some (delete name db)
  | RenameTable name to =>
      t ← db !! name;
      match db !! to with
      | Some _ => None
      | None => Some (<[to := t]> (delete name db))
      end
  | CreateIndex table column =>
      t ← db !! table;
      if bool_decide (column ∈ shape_columns (table_shape t)) then Some db else None
  end.

Fixpoint execute_batch (db : gmap string Table) (batch : list Statement) : option (gmap string Table) :=
  match batch with
  | [] => Some db
  | st :: batch => db ← execute_statement db st; execute_batch db batch
  end.

(** ** Opening *)

(** The database file: its [user_version] and its tables. *)
Record Store := mkStore {
  user_version : Z;
  store_tables : gmap string Table;
}.

(** [open], where the disk does what it is asked; [None] is an error. *)
Definition open (file : option Store) (mode : StartupMode) : option Store :=
  match mode with
  | StartupMode_Initialise =>
      match file with
      | Some _ => None
      | None =>
          tables ← execute_batch ∅ (SCHEMA_V1 ++ concat UPGRADES);
          Some (mkStore SCHEMA_VERSION tables)
      end
  | StartupMode_Resume =>
      store ← file;
      configuration ← store_tables store !! "mam_configuration"%string;
      if negb (bool_decide ("request_mode"%string ∈ shape_columns (table_shape configuration)))
      then None
      else if SCHEMA_VERSION <? user_version store then None
      else
        let applied := Z.to_nat (Z.max (user_version store) 1 - 1) in
        tables ← execute_batch (store_tables store) (concat (skipn applied UPGRADES));
        Some (mkStore SCHEMA_VERSION tables)
  end.
End tables.
Arguments Table : clear implicits.
Arguments Store : clear implicits.

(** ** A symbolic run

    What is known of a table without its rows: its shape, the table of the
    original database its rows come from, if it has any, and the values that were
    appended to each. *)
Record Sym := mkSym {
  sym_shape : Shape;
  sym_source : option string;
  sym_pad : list Default;
}.

Definition constraint_columns (c : Constraint) : list string :=
  match c with
  | NotNull column | Unique column | OneOf column _ | IsOne column => [column]
  | OneNotNull column other => [column; other]
  end.

(** [c] follows from one of [cs]. *)
Definition implied (cs : list Constraint) (c : Constraint) : bool :=
  bool_decide (c ∈ cs) ||
  match c with
  | OneOf column values =>
      existsb (λ c', match c' with
        | OneOf column' values' =>
            String.eqb column' column && bool_decide (values' ⊆ values)
        | _ => false
        end) cs
  | _ => false
  end.

Definition sym_statement (s : gmap string Sym) (st : Statement) : option (gmap string Sym) :=
  match st with
  | CreateTable name columns constraints =>
      match s !! name with
      | Some _ => None
      | None => Some (<[name := mkSym (mkShape columns constraints) None []]> s)
      end
  | AddColumn table column d constraints =>
      y ← s !! table;
      let shape := sym_shape y in
      let columns := shape_columns shape in
      if bool_decide (column ∉ columns)
         && forallb (λ c, bool_decide (constraint_columns c ⊆ columns)) (shape_constraints shape)
         && forallb (λ c, (c ==? NotNull column) && (d ==? DefaultZero)) constraints
      then Some (<[table := mkSym (mkShape (columns ++ [column])
             (shape_constraints shape ++ constraints)) (sym_source y) (sym_pad y ++ [d])]> s)
      else None
  | InsertSelect into from columns =>
      y ← s !! into;
      f ← s !! from;
      if (sym_source y ==? None) && (sym_pad y ==? [])
         && (default (shape_columns (sym_shape f)) columns ==? shape_columns (sym_shape f))
         && (shape_columns (sym_shape y) ==? shape_columns (sym_shape f))
         && bool_decide (NoDup (shape_columns (sym_shape f)))
         && forallb (implied (shape_constraints (sym_shape f))) (shape_constraints (sym_shape y))
      then Some (<[into := mkSym (sym_shape y) (sym_source f) (sym_pad f)]> s)
      else None
  | DropTable name => _ ← s !! name; Some (delete name s)
  | RenameTable name to =>
      y ← s !! name;
      match s !! to with
      | Some _ => None
      | None => Some (<[to := y]> (delete name s))
      end
  | CreateIndex table column =>
      y ← s !! table;
      if bool_decide (column ∈ shape_columns (sym_shape y)) then Some s else None
  end.

Fixpoint sym_batch (s : gmap string Sym) (batch : list Statement) : option (gmap string Sym) :=
  match batch with
  | [] => Some s
  | st :: batch => s ← sym_statement s st; sym_batch s batch
  end.

Section simulation.
Context {V : Type} `{ColumnsOk V, EqDecision V}.
Implicit Types (db orig : gmap string (Table V)) (t : Table V) (row : list V).

Lemma index_of_Some column columns :
  column ∈ columns → ∃ i, index_of column columns = Some i ∧ (i < length columns)%nat.
Proof.
  induction columns as [|c columns IH]; [by intros ?%elem_of_nil|]. simpl.
  destruct (String.eqb_spec c column) as [|Hne]; [intros _; exists 0%nat; split; [done|lia]|].
  rewrite elem_of_cons. intros [|Hc]; [congruence|]. destruct (IH Hc) as (i & -> & Hlt).
  exists (S i). split; [done|lia].
Qed.

Lemma index_of_app column columns c i :
  index_of column columns = Some i → index_of column (columns ++ [c]) = Some i.
Proof.
  revert i. induction columns as [|d columns IH]; intros i; simpl; [done|].
  destruct (String.eqb _ _); [done|]. rewrite !fmap_Some. naive_solver.
Qed.

Lemma index_of_last column columns :
  column ∉ columns → index_of column (columns ++ [column]) = Some (length columns).
Proof.
  induction columns as [|d columns IH]; simpl; [by rewrite String.eqb_refl|].
  rewrite not_elem_of_cons. intros [Hd Hc]. destruct (String.eqb_spec d column); [congruence|].
  by rewrite IH.
Qed.

(** A column that was there has the value it had, and the new one the default. *)
Lemma value_at_app columns column c row v :
  column ∈ columns → length row = length columns →
  value_at (columns ++ [c]) column (row ++ [v]) = value_at columns column row.
Proof.
  intros (i & Hi & Hlt)%index_of_Some Hrow. unfold value_at.
  rewrite (index_of_app _ _ _ _ Hi), Hi. simpl. apply lookup_app_l. lia.
Qed.

Lemma value_at_last columns c row v :
  c ∉ columns → length row = length columns → value_at (columns ++ [c]) c (row ++ [v]) = Some v.
Proof.
  intros Hc Hrow. unfold value_at. rewrite index_of_last by done. simpl.
  rewrite <-Hrow. apply list_lookup_middle. lia.
Qed.

(** Selecting all columns is the row. *)
Lemma select_all columns row :
  NoDup columns → length row = length columns → select columns columns row = Some row.
Proof.
  intros Hnd Hrow. unfold select. apply mapM_Some, Forall2_same_length_lookup. split; [done|].
  intros i c v Hc Hv. unfold value_at.
  assert (index_of c columns = Some i) as ->; [|done].
  clear Hrow Hv row. revert i Hc. induction Hnd as [|d columns Hd Hnd IH]; intros i; [done|].
  destruct i as [|i]; simpl; [intros [= ->]; by rewrite String.eqb_refl|].
  intros Hc. destruct (String.eqb_spec d c) as [->|]; [by apply list_elem_of_lookup_2 in Hc|].
  by rewrite (IH i Hc).
Qed.

Definition rows_fit (shape : Shape) (rows : list (list V)) : Prop :=
  Forall (λ row, length row = length (shape_columns shape)) rows.

Lemma table_ok_iff t :
  table_ok t = true ↔ rows_fit (table_shape t) (table_rows t) ∧
    Forall (λ c, holds_of (shape_columns (table_shape t)) (table_rows t) c = true)
      (shape_constraints (table_shape t)).
Proof.
  unfold table_ok, rows_fit. rewrite andb_true_iff, !forallb_Forall_true.
  by setoid_rewrite Nat.eqb_eq.
Qed.

(** No rows satisfy every constraint. *)
Lemma holds_of_nil columns c : holds_of (V := V) columns [] c = true.
Proof. by destruct c. Qed.

Lemma forallb_ext {A B} (f : A → B) (p : B → bool) (q : A → bool) l :
  Forall (λ x, p (f x) = q x) l → forallb p (f <$> l) = forallb q l.
Proof. induction 1 as [|x l Hx _ IH]; [done|]. simpl. f_equal; [exact Hx|exact IH]. Qed.

Lemma omap_fmap_ext {A B C} (f : A → B) (g : B → option C) (h : A → option C) l :
  Forall (λ x, g (f x) = h x) l → omap g (f <$> l) = omap h l.
Proof.
  induction 1 as [|x l Hx _ IH]; [done|]. cbn. rewrite Hx.
  destruct (h x); [f_equal|]; exact IH.
Qed.

Lemma holds_of_app columns c v rows k :
  constraint_columns k ⊆ columns → Forall (λ row, length row = length columns) rows →
  holds_of (columns ++ [c]) ((λ row, row ++ [v]) <$> rows) k = holds_of columns rows k.
Proof.
  intros Hk Hrows.
  assert (∀ column, column ∈ columns → Forall (λ row,
    value_at (columns ++ [c]) column (row ++ [v]) = value_at columns column row) rows) as Hval.
  { intros column Hc. eapply List.Forall_impl; [|exact Hrows]. intros row Hr.
    by apply value_at_app. }
  destruct k as [column|column|column values|column|column other]; simpl in *;
    (assert (column ∈ columns) as Hc by set_solver); specialize (Hval column Hc) as Hcol.
  1,3,4: apply forallb_ext; eapply List.Forall_impl; [|exact Hcol]; intros row Hr; simpl in Hr; by rewrite Hr.
  - apply bool_decide_ext. by rewrite (omap_fmap_ext _ _ (value_at columns column)).
  - assert (other ∈ columns) as Ho by set_solver. specialize (Hval other Ho) as Hoth.
    apply forallb_ext. apply List.Forall_forall. intros row Hr.
    rewrite List.Forall_forall in Hcol, Hoth. by rewrite (Hcol row Hr), (Hoth row Hr).
Qed.

(** The rows a symbolic table stands for, and the tables. *)
Definition rows_from orig (y : Sym) : list (list V) :=
  match sym_source y with
  | None => []
  | Some o => (λ row, row ++ (default_value <$> sym_pad y)) <$> from_option table_rows [] (orig !! o)
  end.
Definition table_is orig (y : Sym) t : Prop :=
  table_shape t = sym_shape y ∧ table_ok t = true ∧ table_rows t = rows_from orig y.
Definition represents orig (s : gmap string Sym) db : Prop :=
  ∀ n, option_Forall2 (table_is orig) (s !! n) (db !! n).

Lemma represents_Some orig s db n y :
  represents orig s db → s !! n = Some y → ∃ t, db !! n = Some t ∧ table_is orig y t.
Proof. intros Hr Hy. specialize (Hr n). rewrite Hy in Hr. inversion Hr. eauto. Qed.
Lemma represents_None orig s db n : represents orig s db → s !! n = None → db !! n = None.
Proof. intros Hr Hy. specialize (Hr n). rewrite Hy in Hr. by inversion Hr. Qed.

Lemma represents_insert orig s db n y t :
  represents orig s db → table_is orig y t → represents orig (<[n := y]> s) (<[n := t]> db).
Proof.
  intros Hr Ht m. destruct (String.string_dec m n) as [->|Hne].
  - rewrite !lookup_insert_eq. by constructor.
  - rewrite !lookup_insert_ne by done. apply Hr.
Qed.
Lemma represents_delete orig s db n :
  represents orig s db → represents orig (delete n s) (delete n db).
Proof.
  intros Hr m. destruct (String.string_dec m n) as [->|Hne].
  - rewrite !lookup_delete_eq. constructor.
  - rewrite !lookup_delete_ne by done. apply Hr.
Qed.

(** A column appended to a table keeps what held, and a constraint that it is not
    null holds of zeros. *)
Lemma add_column_ok t column d constraints :
  table_ok t = true → column ∉ shape_columns (table_shape t) →
  Forall (λ c, constraint_columns c ⊆ shape_columns (table_shape t))
    (shape_constraints (table_shape t)) →
  Forall (λ c, c = NotNull column ∧ d = DefaultZero) constraints →
  table_ok (mkTable (mkShape (shape_columns (table_shape t) ++ [column])
      (shape_constraints (table_shape t) ++ constraints))
    ((λ row, row ++ [default_value d]) <$> table_rows t)) = true.
Proof.
  intros [Hfit Hcs]%table_ok_iff Hnew Hin Hadd. apply table_ok_iff. simpl. split.
  - unfold rows_fit in *. simpl. apply List.Forall_map. eapply List.Forall_impl; [|exact Hfit].
    intros row Hr. simpl in Hr. rewrite !length_app. simpl. lia.
  - apply Forall_app. split.
    + rewrite List.Forall_forall in Hin, Hcs |- *. intros c Hc. rewrite holds_of_app; auto.
    + eapply List.Forall_impl; [|exact Hadd]. intros c [-> ->]. simpl.
      apply forallb_Forall_true, List.Forall_map. eapply List.Forall_impl; [|exact Hfit].
      intros row Hr. simpl in Hr. rewrite value_at_last by done. simpl. by rewrite integer_not_null.
Qed.

Lemma implied_holds columns (rows : list (list V)) cs c :
  implied cs c = true → Forall (λ c, holds_of columns rows c = true) cs →
  holds_of columns rows c = true.
Proof.
  unfold implied. rewrite orb_true_iff, bool_decide_eq_true. intros [Hin|Hone] Hcs.
  - rewrite List.Forall_forall in Hcs. by apply Hcs, list_elem_of_In.
  - destruct c as [| |column values| |]; try done. apply existsb_exists in Hone as (c' & Hin & Hc').
    rewrite List.Forall_forall in Hcs. specialize (Hcs c' Hin).
    destruct c' as [| |column' values'| |]; try done.
    apply andb_true_iff in Hc' as [->%String.eqb_eq Hsub]. apply bool_decide_eq_true in Hsub.
    simpl in *. rewrite forallb_forall in *. intros row Hr. specialize (Hcs row Hr).
    destruct (value_at columns column row) as [v|]; simpl in *; [|done].
    destruct (is_null v); simpl in *; [done|]. destruct (get_text v) as [x|]; simpl in *; [|done].
    apply existsb_exists in Hcs as (w & Hw & ->%String.eqb_eq). apply existsb_exists.
    exists w. split; [|by apply String.eqb_eq].
    apply list_elem_of_In, Hsub, list_elem_of_In, Hw.
Qed.

Lemma implied_all columns (rows : list (list V)) cs cs' :
  Forall (λ c, implied cs c = true) cs' → Forall (λ c, holds_of columns rows c = true) cs →
  Forall (λ c, holds_of columns rows c = true) cs'.
Proof.
  intros Himp Hcs. rewrite List.Forall_forall in Himp |- *. intros c Hc.
  exact (implied_holds columns rows cs c (Himp c Hc) Hcs).
Qed.

Lemma select_rows columns (rows : list (list V)) :
  NoDup columns → Forall (λ row, length row = length columns) rows →
  mapM (select columns columns) rows = Some rows.
Proof.
  intros Hnd. induction 1 as [|row rows Hr _ IH]; simpl; [done|].
  rewrite select_all by done. simpl. by rewrite IH.
Qed.

(** A symbolic statement describes the statement. *)
Lemma sym_statement_sound orig s db st s' :
  represents orig s db → sym_statement s st = Some s' →
  ∃ db', execute_statement db st = Some db' ∧ represents orig s' db'.
Proof.
  intros Hr Hs. destruct st as [name columns cs|table column d cs|into from columns|name|name to|table column];
    simpl in *.
  - destruct (s !! name) eqn:Hn; simplify_eq. rewrite (represents_None _ _ _ _ Hr Hn).
    eexists. split; [reflexivity|]. apply represents_insert; [done|]. split_and!; [done| |done].
    apply table_ok_iff. split; [constructor|]. apply List.Forall_forall. intros. apply holds_of_nil.
  - destruct (s !! table) as [y|] eqn:Hn; simplify_eq/=.
    destruct (represents_Some _ _ _ _ _ Hr Hn) as (t & -> & Ht & Hok & Hrows). simpl.
    case_match eqn:Hb; simplify_eq. rewrite Ht. apply andb_true_iff in Hb as [Hb Hadd].
    apply andb_true_iff in Hb as [Hnew Hin]. apply bool_decide_eq_true in Hnew.
    rewrite forallb_Forall_true in Hin, Hadd. rewrite bool_decide_eq_false_2 by done.
    assert (table_ok (mkTable (mkShape (shape_columns (sym_shape y) ++ [column])
      (shape_constraints (sym_shape y) ++ cs)) ((λ row, row ++ [default_value d]) <$> table_rows t))
      = true) as Hok'.
    { rewrite <-Ht in *. apply add_column_ok; try done.
      - eapply List.Forall_impl; [|exact Hin]. by intros c ?%bool_decide_eq_true.
      - eapply List.Forall_impl; [|exact Hadd]. intros c Hc. simpl in Hc. by reflect_bools. }
    rewrite Hok'. eexists. split; [reflexivity|]. apply represents_insert; [done|].
    split_and!; [done..|]. simpl. rewrite Hrows. unfold rows_from. simpl.
    destruct (sym_source y) as [o|]; [|done]. rewrite <-list_fmap_compose. apply list_fmap_ext.
    intros i row _. simpl. by rewrite fmap_app, app_assoc.
  - destruct (s !! into) as [y|] eqn:Hn; simplify_eq/=.
    destruct (s !! from) as [f|] eqn:Hf; simplify_eq/=.
    destruct (represents_Some _ _ _ _ _ Hr Hn) as (t & -> & Ht & Hok & Hrows). simpl.
    destruct (represents_Some _ _ _ _ _ Hr Hf) as (u & -> & Hu & Huok & Hurows). simpl.
    case_match eqn:Hb; simplify_eq. reflect_bools.
    match goal with H : forallb _ _ = true |- _ => rename H into Himp end.
    apply forallb_Forall_true in Himp. apply table_ok_iff in Huok as [Hfit Hucs].
    rewrite Hu in *. unfold rows_fit in Hfit.
    match goal with H : default _ _ = _ |- _ => rewrite H end.
    rewrite select_rows by done. simpl.
    assert (table_rows t = []) as Hempty.
    { rewrite Hrows. unfold rows_from. by match goal with H : sym_source y = None |- _ => rewrite H end. }
    rewrite Hempty, Ht. simpl.
    match goal with |- context [if table_ok ?x then _ else _] => assert (table_ok x = true) as Hok' end.
    { apply table_ok_iff. simpl. unfold rows_fit.
      match goal with H : shape_columns (sym_shape y) = _ |- _ => rewrite H end.
      split; [done|]. by eapply implied_all. }
    rewrite Hok'. eexists. split; [reflexivity|]. apply represents_insert; [done|].
    by split_and!; [..|rewrite Hurows].
  - destruct (s !! name) as [y|] eqn:Hn; simplify_eq/=.
    destruct (represents_Some _ _ _ _ _ Hr Hn) as (t & -> & _). simpl.
    eexists. split; [reflexivity|]. by apply represents_delete.
  - destruct (s !! name) as [y|] eqn:Hn; simplify_eq/=.
    destruct (represents_Some _ _ _ _ _ Hr Hn) as (t & -> & Ht). simpl.
    destruct (s !! to) eqn:Hto; simplify_eq. rewrite (represents_None _ _ _ _ Hr Hto).
    eexists. split; [reflexivity|]. by apply represents_insert; [apply represents_delete|].
  - destruct (s !! table) as [y|] eqn:Hn; simplify_eq/=.
    destruct (represents_Some _ _ _ _ _ Hr Hn) as (t & -> & Hsh & _). simpl. rewrite Hsh.
    case_bool_decide; simplify_eq. by eexists.
Qed.

Lemma sym_batch_sound orig s db batch s' :
  represents orig s db → sym_batch s batch = Some s' →
  ∃ db', execute_batch db batch = Some db' ∧ represents orig s' db'.
Proof.
  revert s db. induction batch as [|st batch IH]; intros s db Hr; simpl; [intros [= <-]; eauto|].
  destruct (sym_statement s st) as [s1|] eqn:Hs; simpl; [|done]. intros Hb.
  destruct (sym_statement_sound _ _ _ _ _ Hr Hs) as (db1 & -> & Hr1). simpl. eauto.
Qed.
End simulation.

(** ** Versions *)

(** How many upgrades a database of this version has had, and its tables. *)
Definition applied (version : Z) : nat := Z.to_nat (Z.max version 1 - 1).
Definition sym_at (version : Z) : gmap string Sym :=
  default ∅ (sym_batch ∅ (SCHEMA_V1 ++ concat (firstn (applied version) UPGRADES))).
Definition shapes_at (version : Z) : gmap string Shape := sym_shape <$> sym_at version.

(** Tables as they are, to be upgraded. *)
Definition own (shapes : gmap string Shape) : gmap string Sym :=
  map_imap (λ n shape, Some (mkSym shape (Some n) [])) shapes.

(** The upgrade from a version, run symbolically: the tables have the current
    shapes, and each there was has its own rows; the table that marks a database
    as Windlass's is there. *)
Definition upgrade_checked (version : Z) : bool :=
  match sym_batch (own (shapes_at version)) (concat (skipn (applied version) UPGRADES)) with
  | Some s =>
      ((sym_shape <$> s) ==? shapes_at SCHEMA_VERSION)
      && forallb (λ '(n, _), (sym_source <$> s !! n) ==? Some (Some n))
           (map_to_list (shapes_at version))
      && is_some_and (shapes_at version !! "mam_configuration"%string)
           (λ shape, bool_decide ("request_mode"%string ∈ shape_columns shape))
  | None => false
  end.

Lemma upgrades_checked version : version ≤ SCHEMA_VERSION → upgrade_checked version = true.
Proof.
  intros Hv. assert (upgrade_checked version = upgrade_checked (Z.max version 1)) as ->.
  { unfold upgrade_checked, shapes_at, sym_at, applied. by rewrite (Z.max_l (Z.max version 1) 1) by lia. }
  assert (∃ n, (n < 10)%nat ∧ Z.max version 1 = Z.of_nat (S n)) as (n & Hn & ->).
  { exists (Z.to_nat (Z.max version 1 - 1)). unfold SCHEMA_VERSION in Hv. lia. }
  do 10 (destruct n as [|n]; [vm_compute; reflexivity|]). lia.
Qed.

Lemma initialise_checked :
  sym_batch ∅ (SCHEMA_V1 ++ concat UPGRADES) = Some (sym_at SCHEMA_VERSION).
Proof.
  assert (is_some (sym_batch ∅ (SCHEMA_V1 ++ concat UPGRADES)) = true) as H
    by (vm_compute; reflexivity).
  unfold sym_at. change (firstn (applied SCHEMA_VERSION) UPGRADES) with UPGRADES. revert H.
  generalize (sym_batch ∅ (SCHEMA_V1 ++ concat UPGRADES)). by intros [s|].
Qed.

#[local] Opaque shapes_at sym_at sym_batch.

Section versions.
Context {V : Type} `{ColumnsOk V, EqDecision V}.

(** A database as a version of Windlass writes it: its tables are that version's,
    with rows that satisfy their constraints. *)
Definition written_by (store : Store V) : Prop :=
  table_shape <$> store_tables store = shapes_at (user_version store) ∧
  map_Forall (λ _ t, table_ok t = true) (store_tables store).

Lemma own_represents (db : gmap string (Table V)) :
  map_Forall (λ _ t, table_ok t = true) db → represents db (own (table_shape <$> db)) db.
Proof.
  intros Hok n. unfold own. rewrite map_lookup_imap, lookup_fmap.
  destruct (db !! n) as [t|] eqn:Hn; simpl; constructor. split_and!; [done|by eapply Hok|].
  unfold rows_from. simpl. rewrite Hn. simpl. symmetry.
  rewrite <-(list_fmap_id (table_rows t)) at 2. apply list_fmap_ext. intros i row _. apply app_nil_r.
Qed.

Lemma represents_shapes (orig db : gmap string (Table V)) s :
  represents orig s db → table_shape <$> db = sym_shape <$> s.
Proof.
  intros Hr. apply map_eq. intros n. rewrite !lookup_fmap. specialize (Hr n).
  inversion Hr as [y t (Hsh & _) E1 E2|E1 E2]; simpl; [by rewrite Hsh|done].
Qed.

Lemma represents_ok (orig db : gmap string (Table V)) s :
  represents orig s db → map_Forall (λ _ t, table_ok t = true) db.
Proof.
  intros Hr n t Hn. specialize (Hr n). rewrite Hn in Hr. inversion Hr as [y ? (_ & Hok & _)|]. by subst.
Qed.

(** Where [rows] end up: each with the same values appended. *)
Definition extended (rows rows' : list (list V)) : Prop :=
  ∃ pad, rows' = (λ row, row ++ (default_value <$> pad)) <$> rows.

Lemma initialise_shapes :
  ∃ store, open (V := V) None StartupMode_Initialise = Some store ∧
    user_version store = SCHEMA_VERSION ∧ written_by store.
Proof.
  assert (sym_batch ∅ (SCHEMA_V1 ++ concat UPGRADES) = Some (sym_at SCHEMA_VERSION)) as Hsym
    by apply initialise_checked.
  assert (represents (V := V) ∅ ∅ ∅) as H0' by (intros n; rewrite !lookup_empty; constructor).
  destruct (sym_batch_sound _ _ _ _ _ H0' Hsym) as (db & Hdb & Hr).
  unfold open. rewrite Hdb. simpl. eexists. split; [reflexivity|]. split; [done|].
  split; cbn [store_tables user_version].
  - by apply represents_shapes in Hr.
  - by eapply represents_ok.
Qed.

Lemma resume_upgrades (store : Store V) :
  written_by store → user_version store ≤ SCHEMA_VERSION →
  ∃ store', open (Some store) StartupMode_Resume = Some store' ∧
    user_version store' = SCHEMA_VERSION ∧ written_by store' ∧
    ∀ n t, store_tables store !! n = Some t →
      ∃ t', store_tables store' !! n = Some t' ∧ extended (table_rows t) (table_rows t').
Proof.
  intros [Hsh Hok] Hv. pose proof (upgrades_checked _ Hv) as Hup. unfold upgrade_checked in Hup.
  destruct (sym_batch _ _) as [s|] eqn:Hs; [|done]. apply andb_true_iff in Hup as [Hup Hcfg].
  apply andb_true_iff in Hup as [Hfin Hsrc].
  apply bool_decide_eq_true in Hfin. rewrite <-Hsh in Hs, Hsrc, Hcfg.
  destruct (sym_batch_sound _ _ _ _ _ (own_represents _ Hok) Hs) as (db & Hdb & Hr).
  apply is_some_and_true in Hcfg as (cfg & Hcfg & Hcol). apply bool_decide_eq_true in Hcol.
  rewrite lookup_fmap in Hcfg. apply fmap_Some in Hcfg as (t0 & Hcfg & ->).
  unfold open. cbn [mbind option_bind]. rewrite Hcfg. cbn [mbind option_bind].
  rewrite bool_decide_eq_true_2 by done. simpl negb. cbv iota.
  rewrite (proj2 (Z.ltb_ge _ _)) by done. fold (applied (user_version store)). cbv zeta.
  rewrite Hdb. cbn [mbind option_bind]. eexists. split; [reflexivity|]. split; [done|]. split.
  - split; [|by eapply represents_ok]. cbn [store_tables user_version].
    by rewrite (represents_shapes _ _ _ Hr).
  - intros n t Hn. cbn [store_tables]. rewrite forallb_forall in Hsrc.
    assert (In (n, table_shape t) (map_to_list (table_shape <$> store_tables store))) as Hin.
    { apply list_elem_of_In, elem_of_map_to_list. by rewrite lookup_fmap, Hn. }
    specialize (Hsrc _ Hin). clear -Hsrc Hr Hn. simpl in Hsrc. apply bool_decide_eq_true in Hsrc.
    destruct (s !! n) as [y|] eqn:Hy; simplify_eq/=.
    destruct (represents_Some _ _ _ _ _ Hr Hy) as (t' & Ht' & _ & _ & Hrows).
    exists t'. split; [done|]. exists (sym_pad y). rewrite Hrows. unfold rows_from.
    rewrite Hsrc, Hn. done.
Qed.
End versions.

(** ** Properties *)

(** C29: a database that any version up to this one wrote, resumed, has exactly
    the tables, columns and constraints of one that is newly made, at the current
    version, with every table's rows kept and only default values appended to them; a
    database of a newer version is refused, and so is making one where a file is. *)
Theorem upgrade_equals_initialise {V : Type} `{ColumnsOk V, EqDecision V} (store : Store V) :
  written_by store →
  (user_version store ≤ SCHEMA_VERSION →
    ∃ store' fresh,
      open (Some store) StartupMode_Resume = Some store' ∧
      open (V := V) None StartupMode_Initialise = Some fresh ∧
      user_version store' = user_version fresh ∧
      table_shape <$> store_tables store' = table_shape <$> store_tables fresh ∧
      written_by store' ∧
      ∀ n t, store_tables store !! n = Some t →
        ∃ t', store_tables store' !! n = Some t' ∧ extended (table_rows t) (table_rows t')) ∧
  (SCHEMA_VERSION < user_version store → open (Some store) StartupMode_Resume = None) ∧
  open (Some store) StartupMode_Initialise = None.
Proof.
  intros Hw. split; [|split; [intros Hv|reflexivity]].
  - intros Hv. destruct (initialise_shapes (V := V)) as (fresh & Hfresh & Hfv & Hfw & _).
    destruct (resume_upgrades store Hw Hv) as (store' & Hs & Hv' & Hw' & Hrows).
    exists store', fresh. split; [exact Hs|]. split; [exact Hfresh|].
    split; [by rewrite Hv', Hfv|]. split; [|split; [exact Hw'|exact Hrows]].
    destruct Hw' as [Hsh _]. by rewrite Hsh, Hfw, Hv', Hfv.
  - unfold open. cbn [mbind option_bind]. destruct (store_tables store !! "mam_configuration"%string) as [t|]; [|reflexivity].
    cbn [mbind option_bind]. destruct (negb _); [reflexivity|].
    by rewrite (proj2 (Z.ltb_lt _ _) Hv).
Qed.

(** A database of version 4, with a preference and a torrent. *)
Definition sample_store : Store SqliteValue :=
  let tables := default ∅ (execute_batch ∅ (SCHEMA_V1 ++ concat (firstn 3 UPGRADES))) in
  let put n row tables := alter (λ t, mkTable (table_shape t) [row]) n tables in
  mkStore 4
    (put "mam_configuration" [IntegerValue 1; TextValue "enabled"]
      (put "torrents" (torrent_row {| record_id := 1; record_identity := Identity_Client sample_hash;
         record_origin := Origin_Adopted; record_desired := Desired_Active; record_save_path := None;
         record_deletion := ContentDeletion_NotAllowed; record_observation := None |}) tables))%string.

Lemma sample_store_written : written_by sample_store.
Proof.
  split.
  - apply (proj1 (bool_decide_eq_true (table_shape <$> store_tables sample_store
                                          = shapes_at (user_version sample_store)))).
    vm_compute. reflexivity.
  - apply map_Forall_to_list, List.Forall_forall. intros [n t] Ht.
    assert (forallb (λ p, table_ok p.2) (map_to_list (store_tables sample_store)) = true) as Hall
      by (vm_compute; reflexivity).
    rewrite forallb_forall in Hall. exact (Hall _ Ht).
Qed.

Lemma upgrade_witness :
  ∃ store', open (Some sample_store) StartupMode_Resume = Some store' ∧ user_version store' = 10.
Proof.
  destruct (upgrade_equals_initialise sample_store sample_store_written) as [Hup _].
  destruct Hup as (store' & fresh & H1 & H2 & H3 & _).
  - vm_compute. discriminate.
  - exists store'. split; [exact H1|]. rewrite H3.
    pose proof (initialise_shapes (V := SqliteValue)) as (fresh' & H4 & H5 & _).
    rewrite H2 in H4. injection H4 as <-. exact H5.
Defined.
