(* ===== verification/Storage.v ===== *)
(** * Storage

    The operations on the database ([shell/storage.rs]): what each reads or
    writes of the tables, and the event it answers with. The database is its
    tables as they are after [Schema.open]; the disk may fail any operation, which
    then leaves them as they were. The operations are shown to refine a memory of
    plain values. *)

From S2P Require Import Prelude Values Vocabulary MamApi Messages Timer Qbittorrent Registry.
From S2P Require Import Bytes Text Rows.

(** ** Tables *)

Record SettingsRow (V : Type) := mkSettingsRow {
  row_history_limit : V;
  row_api_cookie : V;
  row_ntfy_topic : V;
  row_points_reserve : V;
  row_max_downloading : V;
  row_max_active : V;
}.
Arguments mkSettingsRow {V}.
Arguments row_history_limit {V}. Arguments row_api_cookie {V}. Arguments row_ntfy_topic {V}.
Arguments row_points_reserve {V}. Arguments row_max_downloading {V}. Arguments row_max_active {V}.

Record MamStateRow (V : Type) := mkMamStateRow {
  row_last_registration : V;
  row_last_reminder : V;
  row_watched : V;
  row_used_at : V;
  row_used_downloaded : V;
}.
Arguments mkMamStateRow {V}.
Arguments row_last_registration {V}. Arguments row_last_reminder {V}. Arguments row_watched {V}.
Arguments row_used_at {V}. Arguments row_used_downloaded {V}.

Record NoticeRow (V : Type) := mkNoticeRow {
  row_at : V;
  row_urgent : V;
  row_title : V;
  row_body : V;
  row_page : V;
}.
Arguments mkNoticeRow {V}.
Arguments row_at {V}. Arguments row_urgent {V}. Arguments row_title {V}. Arguments row_body {V}.
Arguments row_page {V}.

(** The tables with a single row, as the row if it is there, and those whose
    integer primary key is a row's key. *)
Record Database (V : Type) := mkDatabase {
  db_mam_configuration : option V;
  db_settings : option (SettingsRow V);
  db_mam_state : option (MamStateRow V);
  db_vpn_state : option (V * V);
  db_torrents : gmap Z (list V);
  db_notices : gmap Z (NoticeRow V);
  db_torrent_files : gmap Z (V * bytes);
}.
Arguments mkDatabase {V}.
Arguments db_mam_configuration {V}. Arguments db_settings {V}. Arguments db_mam_state {V}.
Arguments db_vpn_state {V}. Arguments db_torrents {V}. Arguments db_notices {V}.
Arguments db_torrent_files {V}.

Definition empty_database {V} : Database V := mkDatabase None None None None ∅ ∅ ∅.

Inductive Operation :=
  | Operation_OpenStorage (mode : StartupMode)
  | Operation_ReadMamRequestMode
  | Operation_WriteMamRequestMode (mode : MamRequestMode)
  | Operation_DeleteMamRequestMode
  | Operation_ReadSettings
  | Operation_WriteHistoryLimit (limit : HistoryLimit)
  | Operation_WriteApiCookie (cookie : option ApiCookie)
  | Operation_WriteNtfyTopic (topic : option NtfyTopic)
  | Operation_ReadTorrentRegistry
  | Operation_SaveTorrents (records : list TorrentRecord)
  | Operation_ReadLastVpnSwitch
  | Operation_SaveVpnSwitch (switch : VpnSwitch)
  | Operation_WritePointsReserve (reserve : PointsReserve)
  | Operation_WriteTorrentLimits (limits : TorrentLimits)
  | Operation_WriteRotatedApiCookie (cookie : ApiCookie)
  | Operation_ReadMamState
  | Operation_SaveRegistrationAttempt (at_ : SystemTime)
  | Operation_SaveReminder (at_ : SystemTime)
  | Operation_SaveRatioGuard (guard : SavedRatioGuard)
  | Operation_ReadNoticeLog
  | Operation_SaveNotice (entry : Logged) (forget_through : option NoticeId).

(** The event an operation that fails answers with. *)
Definition failure (operation : Operation) : Event :=
  match operation with
  | Operation_OpenStorage _ => Event_Startup StartupEvent_StorageOpenFailed
  | Operation_ReadMamRequestMode => Event_MamPause MamPauseEvent_ReadFailed
  | Operation_WriteMamRequestMode _ => Event_MamPause MamPauseEvent_WriteFailed
  | Operation_DeleteMamRequestMode => Event_MamPause MamPauseEvent_DeleteFailed
  | Operation_ReadSettings => Event_Settings SettingsEvent_ReadFailed
  | Operation_WriteHistoryLimit _ => Event_Settings SettingsEvent_HistoryLimitWriteFailed
  | Operation_WriteApiCookie _ => Event_Settings SettingsEvent_ApiCookieWriteFailed
  | Operation_WriteNtfyTopic _ => Event_Settings SettingsEvent_NtfyTopicWriteFailed
  | Operation_ReadTorrentRegistry => Event_Registry RegistryEvent_ReadFailed
  | Operation_SaveTorrents _ => Event_Registry RegistryEvent_SaveFailed
  | Operation_ReadLastVpnSwitch => Event_Tunnel TunnelEvent_LastSwitchReadFailed
  | Operation_SaveVpnSwitch _ => Event_Tunnel TunnelEvent_SwitchSaveFailed
  | Operation_WritePointsReserve _ => Event_Settings SettingsEvent_PointsReserveWriteFailed
  | Operation_WriteTorrentLimits _ => Event_Settings SettingsEvent_TorrentLimitsWriteFailed
  | Operation_WriteRotatedApiCookie _ => Event_Settings SettingsEvent_RotatedApiCookieWriteFailed
  | Operation_ReadMamState => Event_Mam MamEvent_StateReadFailed
  | Operation_SaveRegistrationAttempt _ => Event_Mam MamEvent_RegistrationAttemptSaveFailed
  | Operation_SaveReminder _ => Event_Mam MamEvent_ReminderSaveFailed
  | Operation_SaveRatioGuard _ => Event_Mam MamEvent_RatioGuardSaveFailed
  | Operation_ReadNoticeLog => Event_Notification NotificationEvent_LogReadFailed
  | Operation_SaveNotice _ _ => Event_Notification NotificationEvent_SaveFailed
  end.

Definition mode_name (mode : MamRequestMode) : string :=
  match mode with
  | MamRequestMode_Paused => "paused"
  | MamRequestMode_Enabled => "enabled"
  end%string.
Definition mode_of (name : string) : option MamRequestMode :=
  if String.eqb name "paused" then Some MamRequestMode_Paused
  else if String.eqb name "enabled" then Some MamRequestMode_Enabled
  else None.

Definition ok {T E} (r : Result T E) : option T :=
  match r with Ok x => Some x | Err _ => None end.

(** The words a notice is logged with: its title, its body and the page that
    explains it. *)
Record Words := mkWords {
  words_title : string;
  words_body : string;
  words_page : string;
}.

Section storage.
Context {V : Type} `{Columns V, EqDecision V}.
(** [notify::message]. *)
Context (message : Notice → Words).
Implicit Types db : Database V.

(** ** The MAM preference *)

Definition read db : option Event :=
  stored ← transpose get_text (db_mam_configuration db);
  mode ← transpose mode_of stored;
  Some (Event_MamPause (MamPauseEvent_Read mode)).
Definition write db (mode : MamRequestMode) : Database V :=
  {| db with db_mam_configuration := Some (of_text (mode_name mode)) |}.
Definition delete_mode db : Database V := {| db with db_mam_configuration := None |}.

(** ** Settings *)

Definition null_settings : SettingsRow V := mkSettingsRow null null null null null null.

(** An insert that updates its columns of the row there is. *)
Definition upsert_settings db (update : SettingsRow V → SettingsRow V) : Database V :=
  {| db with db_settings := Some (update (default null_settings (db_settings db))) |}.

Definition torrent_limits (downloading active : Z) : option TorrentLimits :=
  downloading ← to_u32 downloading;
  downloading ← DownloadingLimit_try_new downloading;
  active ← to_u32 active;
  active ← ActiveLimit_try_new active;
  ok (TorrentLimits_new downloading active).

Definition read_settings db : option Event :=
  let row := default null_settings (db_settings db) in
  limit ← optional get_integer (row_history_limit row);
  cookie ← optional get_text (row_api_cookie row);
  topic ← optional get_text (row_ntfy_topic row);
  reserve ← optional get_integer (row_points_reserve row);
  downloading ← optional get_integer (row_max_downloading row);
  active ← optional get_integer (row_max_active row);
  history_limit ← transpose (λ limit, to_u32 limit ≫= HistoryLimit_try_new) limit;
  api_cookie ← transpose (λ cookie, ok (ApiCookie_parse cookie)) cookie;
  ntfy_topic ← transpose (λ topic, ok (NtfyTopic_parse topic)) topic;
  points_reserve ← transpose (λ reserve, to_u64 reserve ≫= PointsReserve_try_new) reserve;
  limits ← match downloading, active with
           | Some downloading, Some active => Some <$> torrent_limits downloading active
           | _, _ => Some None
           end;
  Some (Event_Settings
    (SettingsEvent_Read history_limit api_cookie ntfy_topic points_reserve limits)).

Definition write_history_limit db (limit : HistoryLimit) : Database V :=
  upsert_settings db (λ row, {| row with row_history_limit := of_integer limit |}).
Definition write_api_cookie db (cookie : option ApiCookie) : Database V :=
  upsert_settings db (λ row, {| row with row_api_cookie := of_option of_text cookie |}).
Definition write_ntfy_topic db (topic : option NtfyTopic) : Database V :=
  upsert_settings db (λ row, {| row with row_ntfy_topic := of_option of_text topic |}).
Definition write_points_reserve db (reserve : PointsReserve) : Database V :=
  upsert_settings db (λ row, {| row with row_points_reserve := of_integer (integer reserve) |}).
Definition write_torrent_limits db (limits : TorrentLimits) : Database V :=
  upsert_settings db (λ row,
    {| row with row_max_downloading := of_integer (limits_downloading limits);
                row_max_active := of_integer (limits_active limits) |}).

(** ** The MAM state *)

Definition null_mam_state : MamStateRow V := mkMamStateRow null null null null null.
Definition upsert_mam_state db (update : MamStateRow V → MamStateRow V) : Database V :=
  {| db with db_mam_state := Some (update (default null_mam_state (db_mam_state db))) |}.

Definition read_ratio_guard (watched used_at used_downloaded : option Z) : option SavedRatioGuard :=
  match watched, used_at, used_downloaded with
  | None, None, None => Some SavedRatioGuard_Unset
  | Some watched, None, None => SavedRatioGuard_Watching <$> to_u64 watched
  | Some before, Some at_, Some after =>
      before ← to_u64 before;
      after ← to_u64 after;
      at_ ← time_from_seconds at_;
      Some (SavedRatioGuard_Tripped (mkRatioUse before after at_))
  | _, _, _ => None
  end.

Definition read_mam_state db : option Event :=
  let row := default null_mam_state (db_mam_state db) in
  registration ← optional get_integer (row_last_registration row);
  reminder ← optional get_integer (row_last_reminder row);
  watched ← optional get_integer (row_watched row);
  used_at ← optional get_integer (row_used_at row);
  used_downloaded ← optional get_integer (row_used_downloaded row);
  guard ← read_ratio_guard watched used_at used_downloaded;
  registration ← transpose time_from_seconds registration;
  reminder ← transpose time_from_seconds reminder;
  Some (Event_Mam (MamEvent_StateRead registration reminder guard)).

Definition save_ratio_guard db (guard : SavedRatioGuard) : Database V :=
  let '(watched, used_at, used_downloaded) :=
    match guard with
    | SavedRatioGuard_Unset => (None, None, None)
    | SavedRatioGuard_Watching watched => (Some (integer watched), None, None)
    | SavedRatioGuard_Tripped used =>
        (Some (integer (use_before used)), Some (seconds (use_at used)),
         Some (integer (use_after used)))
    end in
  upsert_mam_state db (λ row,
    {| row with row_watched := of_option of_integer watched;
                row_used_at := of_option of_integer used_at;
                row_used_downloaded := of_option of_integer used_downloaded |}).
Definition save_registration_attempt db (at_ : SystemTime) : Database V :=
  upsert_mam_state db (λ row, {| row with row_last_registration := of_integer (seconds at_) |}).
Definition save_reminder db (at_ : SystemTime) : Database V :=
  upsert_mam_state db (λ row, {| row with row_last_reminder := of_integer (seconds at_) |}).

(** ** The VPN switch *)

Definition read_last_switch db : option Event :=
  stored ← transpose (λ row, server ← get_text row.1; at_ ← get_integer row.2; Some (server, at_))
             (db_vpn_state db);
  last_switch ← transpose (λ row, server ← VpnServer_try_new row.1;
                                  at_ ← time_from_seconds row.2;
                                  Some (mkVpnSwitch server at_)) stored;
  Some (Event_Tunnel (TunnelEvent_LastSwitchRead last_switch)).
Definition save_switch db (switch : VpnSwitch) : Database V :=
  {| db with db_vpn_state :=
       Some (of_text (switch_server switch), of_integer (seconds (switch_at switch))) |}.

(** ** The torrent registry *)

Definition read_registry db : option Event :=
  records ← mapM torrent_record (bt_values (db_torrents db));
  Some (Event_Registry (RegistryEvent_Read records)).

(** [INSERT OR REPLACE]: rows with the primary key or with the unique hash of the
    new one go; null is no hash. *)
Definition same_hash (row row' : list V) : bool :=
  is_some_and (row !! 2%nat) (λ v, negb (is_null v) && (row' !! 2%nat ==? Some v)).
Definition insert_or_replace (torrents : gmap Z (list V)) (id : Z) (row : list V)
    : gmap Z (list V) :=
  <[id := row]> (filter (λ p, same_hash row p.2 = false) torrents).

Definition save_torrents db (records : list TorrentRecord) : Database V :=
  {| db with db_torrents :=
       fold_left (λ torrents record,
           insert_or_replace torrents (integer (record_id record)) (torrent_row record))
         records (db_torrents db) |}.

(** ** The notifications log *)

Definition notice_id (id : Z) : option NoticeId := id ← to_u64 id; NoticeId_new id.

Definition read_notice_log db : option Event :=
  last ← transpose notice_id (max_list (bt_keys (db_notices db)));
  Some (Event_Notification (NotificationEvent_LogRead last)).

(** [None] where a notice has this id already. *)
Definition save_notice db (entry : Logged) (forget_through : option NoticeId)
    : option (Database V) :=
  let words := message (logged_notice entry) in
  let id := integer (logged_id entry) in
  let row := mkNoticeRow (of_integer (seconds (logged_at entry)))
    (of_bool (logged_reach entry ==? Reach_Push))
    (of_text (words_title words)) (of_text (words_body words)) (of_text (words_page words)) in
  match db_notices db !! id with
  | Some _ => None
  | None =>
      let notices := <[id := row]> (db_notices db) in
      let notices := match forget_through with
                     | Some through => filter (λ p, integer through < p.1) notices
                     | None => notices
                     end in
      Some {| db with db_notices := notices |}
  end.

(** A notice as the notifications page shows it. *)
Record StoredNotice := mkStoredNotice {
  stored_id : NoticeId;
  stored_at : SystemTime;
  stored_urgent : bool;
  stored_words : Words;
}.

Definition stored_notice (p : Z * NoticeRow V) : option StoredNotice :=
  at_ ← get_integer (row_at p.2);
  urgent ← get_bool (row_urgent p.2);
  title ← get_text (row_title p.2);
  body ← get_text (row_body p.2);
  page ← get_text (row_page p.2);
  id ← notice_id p.1;
  at_ ← time_from_seconds at_;
  Some (mkStoredNotice id at_ urgent (mkWords title body page)).

(** The newest notices, newest first. *)
Definition read_notices db (limit : Z) : option (list StoredNotice) :=
  mapM stored_notice (firstn (Z.to_nat limit) (reverse (bt_items (db_notices db)))).

(** ** Torrent files *)

Definition keep_torrent_file db (mam : MamTorrentId) (hash : TorrentHash) (file : bytes)
    : Database V :=
  {| db with db_torrent_files := <[integer mam := (of_text hash, file)]> (db_torrent_files db) |}.
Definition kept_torrent_file db (mam : MamTorrentId) : option bytes :=
  snd <$> db_torrent_files db !! integer mam.

(** ** [execute] *)

(** What the statements do, when the disk carries them out: the tables after,
    and the event; [None] is an error. *)
Definition perform (file : option (Database V)) (operation : Operation)
    : option (option (Database V) * Event) :=
  match operation, file with
  | Operation_OpenStorage StartupMode_Initialise, None =>
      Some (Some empty_database, Event_Startup StartupEvent_StorageOpened)
  | Operation_OpenStorage StartupMode_Resume, Some db =>
      Some (Some db, Event_Startup StartupEvent_StorageOpened)
  | Operation_OpenStorage _, _ => None
  | _, None => None
  | Operation_ReadMamRequestMode, Some db => event ← read db; Some (file, event)
  | Operation_WriteMamRequestMode mode, Some db =>
      Some (Some (write db mode), Event_MamPause MamPauseEvent_Written)
  | Operation_DeleteMamRequestMode, Some db =>
      Some (Some (delete_mode db), Event_MamPause MamPauseEvent_Deleted)
  | Operation_ReadSettings, Some db => event ← read_settings db; Some (file, event)
  | Operation_WriteHistoryLimit limit, Some db =>
      Some (Some (write_history_limit db limit), Event_Settings SettingsEvent_HistoryLimitWritten)
  | Operation_WriteApiCookie cookie, Some db =>
      Some (Some (write_api_cookie db cookie), Event_Settings SettingsEvent_ApiCookieWritten)
  | Operation_WriteNtfyTopic topic, Some db =>
      Some (Some (write_ntfy_topic db topic), Event_Settings SettingsEvent_NtfyTopicWritten)
  | Operation_ReadTorrentRegistry, Some db => event ← read_registry db; Some (file, event)
  | Operation_SaveTorrents records, Some db =>
      Some (Some (save_torrents db records), Event_Registry RegistryEvent_Saved)
  | Operation_ReadLastVpnSwitch, Some db => event ← read_last_switch db; Some (file, event)
  | Operation_SaveVpnSwitch switch, Some db =>
      Some (Some (save_switch db switch), Event_Tunnel TunnelEvent_SwitchSaved)
  | Operation_WritePointsReserve reserve, Some db =>
      Some (Some (write_points_reserve db reserve),
            Event_Settings SettingsEvent_PointsReserveWritten)
  | Operation_WriteTorrentLimits limits, Some db =>
      Some (Some (write_torrent_limits db limits),
            Event_Settings SettingsEvent_TorrentLimitsWritten)
  | Operation_WriteRotatedApiCookie cookie, Some db =>
      Some (Some (write_api_cookie db (Some cookie)),
            Event_Settings SettingsEvent_RotatedApiCookieWritten)
  | Operation_ReadMamState, Some db => event ← read_mam_state db; Some (file, event)
  | Operation_SaveRegistrationAttempt at_, Some db =>
      Some (Some (save_registration_attempt db at_), Event_Mam MamEvent_RegistrationAttemptSaved)
  | Operation_SaveReminder at_, Some db =>
      Some (Some (save_reminder db at_), Event_Mam MamEvent_ReminderSaved)
  | Operation_SaveRatioGuard guard, Some db =>
      Some (Some (save_ratio_guard db guard), Event_Mam MamEvent_RatioGuardSaved)
  | Operation_ReadNoticeLog, Some db => event ← read_notice_log db; Some (file, event)
  | Operation_SaveNotice entry forget_through, Some db =>
      db ← save_notice db entry forget_through;
      Some (Some db, Event_Notification NotificationEvent_Saved)
  end.

(** [works] is whether the disk carries the operation out. *)
Definition execute (works : bool) (file : option (Database V)) (operation : Operation)
    : option (Database V) * Result Event Event :=
  match then_some works tt ≫= (λ _, perform file operation) with
  | Some (file, event) => (file, Ok event)
  | None => (file, Err (failure operation))
  end.
End storage.
