(* ===== verification/StorageMemory.v ===== *)
(** * Storage refines a memory of plain values

    What the operations of [Storage] amount to for the core: a memory that keeps
    what was last written, to the precision storage has, and answers what it keeps.
    Every sequence of operations, with every pattern of disk failures, answers as
    the memory does. *)

From S2P Require Import Prelude Values Vocabulary MamApi Messages Timer Qbittorrent Registry.
From S2P Require Import Bytes Text Rows Storage.

(** ** The memory *)

Record Memory := mkMemory {
  mem_mode : option MamRequestMode;
  mem_history_limit : option HistoryLimit;
  mem_cookie : option ApiCookie;
  mem_topic : option NtfyTopic;
  mem_reserve : option PointsReserve;
  mem_limits : option TorrentLimits;
  mem_registration : option SystemTime;
  mem_reminder : option SystemTime;
  mem_guard : SavedRatioGuard;
  mem_switch : option VpnSwitch;
  mem_rows : gmap RecordId TorrentRecord;
  mem_notices : gmap NoticeId StoredNotice;
}.

Definition empty_memory : Memory :=
  mkMemory None None None None None None None None SavedRatioGuard_Unset None ∅ ∅.

Definition stored_guard (guard : SavedRatioGuard) : SavedRatioGuard :=
  match guard with
  | SavedRatioGuard_Unset => SavedRatioGuard_Unset
  | SavedRatioGuard_Watching watched => SavedRatioGuard_Watching (integer watched)
  | SavedRatioGuard_Tripped used =>
      SavedRatioGuard_Tripped (mkRatioUse (integer (use_before used)) (integer (use_after used))
                                 (stored_time (use_at used)))
  end.

(** A row takes the place of the one with its id and of any other with its hash. *)
Definition shares_hash (r r' : TorrentRecord) : bool :=
  is_some_and (Identity_hash (record_identity r))
    (λ h, Identity_hash (record_identity r') ==? Some h).
Definition replace_row (rows : gmap RecordId TorrentRecord) (r : TorrentRecord)
    : gmap RecordId TorrentRecord :=
  <[record_id r := stored_record r]> (filter (λ p, shares_hash r p.2 = false) rows).

Section memory.
Context (message : Notice → Words).

Definition stored_entry (entry : Logged) : StoredNotice :=
  mkStoredNotice (logged_id entry) (stored_time (logged_at entry))
    (logged_reach entry ==? Reach_Push) (message (logged_notice entry)).

(** What is kept after an operation. *)
Definition remember (m : Memory) (operation : Operation) : Memory :=
  match operation with
  | Operation_WriteMamRequestMode mode => {| m with mem_mode := Some mode |}
  | Operation_DeleteMamRequestMode => {| m with mem_mode := None |}
  | Operation_WriteHistoryLimit limit => {| m with mem_history_limit := Some limit |}
  | Operation_WriteApiCookie cookie => {| m with mem_cookie := cookie |}
  | Operation_WriteRotatedApiCookie cookie => {| m with mem_cookie := Some cookie |}
  | Operation_WriteNtfyTopic topic => {| m with mem_topic := topic |}
  | Operation_WritePointsReserve reserve => {| m with mem_reserve := Some reserve |}
  | Operation_WriteTorrentLimits limits => {| m with mem_limits := Some limits |}
  | Operation_SaveTorrents records => {| m with mem_rows := fold_left replace_row records (mem_rows m) |}
  | Operation_SaveVpnSwitch switch =>
      {| m with mem_switch :=
           Some (mkVpnSwitch (switch_server switch) (stored_time (switch_at switch))) |}
  | Operation_SaveRegistrationAttempt at_ => {| m with mem_registration := Some (stored_time at_) |}
  | Operation_SaveReminder at_ => {| m with mem_reminder := Some (stored_time at_) |}
  | Operation_SaveRatioGuard guard => {| m with mem_guard := stored_guard guard |}
  | Operation_SaveNotice entry forget_through =>
      let notices := <[logged_id entry := stored_entry entry]> (mem_notices m) in
      {| m with mem_notices :=
           match forget_through with
           | Some through => filter (λ p, through < p.1) notices
           | None => notices
           end |}
  | _ => m
  end.

(** What an operation answers, unless it cannot be done. *)
Definition answer (m : Memory) (operation : Operation) : option Event :=
  match operation with
  | Operation_OpenStorage StartupMode_Initialise => None
  | Operation_OpenStorage StartupMode_Resume => Some (Event_Startup StartupEvent_StorageOpened)
  | Operation_ReadMamRequestMode => Some (Event_MamPause (MamPauseEvent_Read (mem_mode m)))
  | Operation_WriteMamRequestMode _ => Some (Event_MamPause MamPauseEvent_Written)
  | Operation_DeleteMamRequestMode => Some (Event_MamPause MamPauseEvent_Deleted)
  | Operation_ReadSettings =>
      Some (Event_Settings (SettingsEvent_Read (mem_history_limit m) (mem_cookie m) (mem_topic m)
                              (mem_reserve m) (mem_limits m)))
  | Operation_WriteHistoryLimit _ => Some (Event_Settings SettingsEvent_HistoryLimitWritten)
  | Operation_WriteApiCookie _ => Some (Event_Settings SettingsEvent_ApiCookieWritten)
  | Operation_WriteNtfyTopic _ => Some (Event_Settings SettingsEvent_NtfyTopicWritten)
  | Operation_ReadTorrentRegistry =>
      Some (Event_Registry (RegistryEvent_Read (bt_values (mem_rows m))))
  | Operation_SaveTorrents _ => Some (Event_Registry RegistryEvent_Saved)
  | Operation_ReadLastVpnSwitch => Some (Event_Tunnel (TunnelEvent_LastSwitchRead (mem_switch m)))
  | Operation_SaveVpnSwitch _ => Some (Event_Tunnel TunnelEvent_SwitchSaved)
  | Operation_WritePointsReserve _ => Some (Event_Settings SettingsEvent_PointsReserveWritten)
  | Operation_WriteTorrentLimits _ => Some (Event_Settings SettingsEvent_TorrentLimitsWritten)
  | Operation_WriteRotatedApiCookie _ => Some (Event_Settings SettingsEvent_RotatedApiCookieWritten)
  | Operation_ReadMamState =>
      Some (Event_Mam (MamEvent_StateRead (mem_registration m) (mem_reminder m) (mem_guard m)))
  | Operation_SaveRegistrationAttempt _ => Some (Event_Mam MamEvent_RegistrationAttemptSaved)
  | Operation_SaveReminder _ => Some (Event_Mam MamEvent_ReminderSaved)
  | Operation_SaveRatioGuard _ => Some (Event_Mam MamEvent_RatioGuardSaved)
  | Operation_ReadNoticeLog =>
      Some (Event_Notification (NotificationEvent_LogRead (max_list (bt_keys (mem_notices m)))))
  | Operation_SaveNotice entry _ =>
      match mem_notices m !! logged_id entry with
      | Some _ => None
      | None => Some (Event_Notification NotificationEvent_Saved)
      end
  end.

Definition step_memory (m : Memory) (works : bool) (operation : Operation)
    : Memory * Result Event Event :=
  match then_some works tt ≫= (λ _, answer m operation) with
  | Some event => (remember m operation, Ok event)
  | None => (m, Err (failure operation))
  end.

(** ** Valid operations: the values the core's types allow *)

Definition limits_ok (l : TorrentLimits) : Prop :=
  DownloadingLimit_try_new (limits_downloading l) = Some (limits_downloading l) ∧
  ActiveLimit_try_new (limits_active l) = Some (limits_active l) ∧
  TorrentLimits_new (limits_downloading l) (limits_active l) = Ok l.

Definition guard_ok (guard : SavedRatioGuard) : Prop :=
  match guard with
  | SavedRatioGuard_Unset => True
  | SavedRatioGuard_Watching watched => is_u64 watched
  | SavedRatioGuard_Tripped used => is_u64 (use_before used) ∧ is_u64 (use_after used)
  end.

(** Identities beyond 63 bits would be cut to one. *)
Definition operation_ok (operation : Operation) : Prop :=
  match operation with
  | Operation_WriteHistoryLimit limit => HistoryLimit_try_new limit = Some limit
  | Operation_WriteApiCookie (Some cookie) | Operation_WriteRotatedApiCookie cookie =>
      ApiCookie_parse cookie = Ok cookie
  | Operation_WriteNtfyTopic (Some topic) => NtfyTopic_parse topic = Ok topic
  | Operation_WritePointsReserve reserve => PointsReserve_try_new reserve = Some reserve
  | Operation_WriteTorrentLimits limits => limits_ok limits
  | Operation_SaveTorrents records =>
      Forall (λ r, TorrentRecord_ok r ∧ record_id r ≤ i64_max) records
  | Operation_SaveVpnSwitch switch =>
      VpnServer_try_new (switch_server switch) = Some (switch_server switch)
  | Operation_SaveRatioGuard guard => guard_ok guard
  | Operation_SaveNotice entry forget_through =>
      1 ≤ logged_id entry ≤ i64_max ∧ ∀ through, forget_through = Some through → through ≤ i64_max
  | _ => True
  end.
End memory.

(** ** What the tables hold of a memory *)

#[local] Arguments HistoryLimit_try_new : simpl never.
#[local] Arguments PointsReserve_try_new : simpl never.
#[local] Arguments DownloadingLimit_try_new : simpl never.
#[local] Arguments ActiveLimit_try_new : simpl never.
#[local] Arguments TorrentLimits_new : simpl never.
#[local] Arguments VpnServer_try_new : simpl never.
#[local] Arguments torrent_row : simpl never.

Section remembers.
Context {V : Type} `{ColumnsOk V, EqDecision V}.
Context (message : Notice → Words).
Implicit Types (db : Database V) (m : Memory).

Definition settings_row m : SettingsRow V :=
  mkSettingsRow (of_option of_integer (mem_history_limit m)) (of_option of_text (mem_cookie m))
    (of_option of_text (mem_topic m)) (of_option of_integer (mem_reserve m))
    (of_option (λ l, of_integer (limits_downloading l)) (mem_limits m))
    (of_option (λ l, of_integer (limits_active l)) (mem_limits m)).

Definition guard_columns (guard : SavedRatioGuard) : option Z * option Z * option Z :=
  match guard with
  | SavedRatioGuard_Unset => (None, None, None)
  | SavedRatioGuard_Watching watched => (Some (integer watched), None, None)
  | SavedRatioGuard_Tripped used =>
      (Some (integer (use_before used)), Some (seconds (use_at used)), Some (integer (use_after used)))
  end.

Definition mam_state_row m : MamStateRow V :=
  let '(watched, used_at, used_downloaded) := guard_columns (mem_guard m) in
  mkMamStateRow (of_option (λ at_, of_integer (seconds at_)) (mem_registration m))
    (of_option (λ at_, of_integer (seconds at_)) (mem_reminder m))
    (of_option of_integer watched) (of_option of_integer used_at)
    (of_option of_integer used_downloaded).

Definition notice_row (n : StoredNotice) : NoticeRow V :=
  mkNoticeRow (of_integer (seconds (stored_at n))) (of_bool (stored_urgent n))
    (of_text (words_title (stored_words n))) (of_text (words_body (stored_words n)))
    (of_text (words_page (stored_words n))).

Record remembers m db : Prop := {
  rem_mode : db_mam_configuration db = (λ mode, of_text (mode_name mode)) <$> mem_mode m;
  rem_settings : default null_settings (db_settings db) = settings_row m;
  rem_mam : default null_mam_state (db_mam_state db) = mam_state_row m;
  rem_switch : db_vpn_state db =
    (λ s, (of_text (switch_server s), of_integer (seconds (switch_at s)))) <$> mem_switch m;
  rem_rows : db_torrents db = torrent_row <$> mem_rows m;
  rem_notices : db_notices db = notice_row <$> mem_notices m;
}.

(** A memory keeps valid values, as storage can hold them. *)
Record Memory_ok m : Prop := {
  ok_history : ∀ l, mem_history_limit m = Some l → HistoryLimit_try_new l = Some l;
  ok_cookie : ∀ c, mem_cookie m = Some c → ApiCookie_parse c = Ok c;
  ok_topic : ∀ c, mem_topic m = Some c → NtfyTopic_parse c = Ok c;
  ok_reserve : ∀ r, mem_reserve m = Some r → PointsReserve_try_new r = Some r;
  ok_limits : ∀ l, mem_limits m = Some l → limits_ok l;
  ok_registration : stored_time <$> mem_registration m = mem_registration m;
  ok_reminder : stored_time <$> mem_reminder m = mem_reminder m;
  ok_guard : guard_ok (mem_guard m) ∧ stored_guard (mem_guard m) = mem_guard m;
  ok_switch : ∀ s, mem_switch m = Some s →
    VpnServer_try_new (switch_server s) = Some (switch_server s) ∧ stored_time (switch_at s) = switch_at s;
  ok_rows : map_Forall (λ id r, record_id r = id ∧ TorrentRecord_ok r ∧ stored_record r = r) (mem_rows m);
  ok_notices : map_Forall (λ id n, stored_id n = id ∧ 1 ≤ id ≤ i64_max ∧
    stored_time (stored_at n) = stored_at n) (mem_notices m);
}.

Lemma empty_remembers : remembers empty_memory empty_database ∧ Memory_ok empty_memory.
Proof. split; split; try done; try (by rewrite ?fmap_empty); by intros ? ?; rewrite ?lookup_empty. Qed.

(** ** Reading *)

Lemma try_new_range lo hi n k :
  (if (lo <=? n) && (n <=? hi) then Some n else None) = Some k → k = n ∧ lo ≤ n ≤ hi.
Proof. case_match; intros; simplify_eq. by reflect_bools. Qed.

Lemma to_u32_Some n : is_u32 n → to_u32 n = Some n.
Proof.
  intros [? ?]. apply then_some_Some. split; [|done].
  apply andb_true_iff; split; by apply Z.leb_le.
Qed.

Lemma optional_of_integer (o : option Z) :
  (∀ n, o = Some n → i64_min ≤ n ≤ i64_max) →
  optional get_integer (of_option (V := V) of_integer o) = Some o.
Proof.
  intros Ho. destruct o as [n|]; unfold optional; simpl; [|by rewrite null_is_null].
  by rewrite integer_not_null, get_of_integer by auto.
Qed.

Lemma transpose_id {A} (f : A → option A) o :
  (∀ x, o = Some x → f x = Some x) → transpose f o = Some o.
Proof. intros Hf. rewrite (transpose_Some f id) by done. by rewrite option_fmap_id. Qed.

Lemma read_remembers m db :
  remembers m db → read db = Some (Event_MamPause (MamPauseEvent_Read (mem_mode m))).
Proof.
  intros Hr. unfold read. rewrite (rem_mode m db Hr). destruct (mem_mode m) as [mode|]; [|done].
  simpl. rewrite get_of_text. simpl. by destruct mode.
Qed.

Lemma torrent_limits_ok l :
  limits_ok l → torrent_limits (limits_downloading l) (limits_active l) = Some l.
Proof.
  intros (Hd & Ha & Hn). apply try_new_range in Hd as Hdr. apply try_new_range in Ha as Har.
  unfold torrent_limits. rewrite !to_u32_Some by (unfold in_width, u32_max; lia).
  cbn [mbind option_bind]. rewrite Hd. cbn [mbind option_bind].
  rewrite Ha. cbn [mbind option_bind]. by rewrite Hn.
Qed.

Lemma read_settings_remembers m db :
  remembers m db → Memory_ok m →
  read_settings db = Some (Event_Settings (SettingsEvent_Read (mem_history_limit m) (mem_cookie m)
    (mem_topic m) (mem_reserve m) (mem_limits m))).
Proof.
  intros Hr Hok. unfold read_settings. rewrite (rem_settings m db Hr). unfold settings_row. simpl.
  assert (∀ l, mem_history_limit m = Some l → 100 ≤ l ≤ 1000000) as Hl
    by (intros l Hl; by apply (ok_history m Hok), try_new_range in Hl as [_ ?]).
  assert (∀ l, mem_reserve m = Some l → 0 ≤ l ≤ 100000000) as Hp
    by (intros l Hp; by apply (ok_reserve m Hok), try_new_range in Hp as [_ ?]).
  assert (∀ l, mem_limits m = Some l →
    1 ≤ limits_downloading l ≤ 100 ∧ 1 ≤ limits_active l ≤ 1000) as Hli.
  { intros l (Hd & Ha & _)%(ok_limits m Hok).
    by apply try_new_range in Hd as [_ ?], Ha as [_ ?]. }
  rewrite (optional_of_integer (mem_history_limit m)) by (intros n Hn; specialize (Hl n Hn); unfold i64_min, i64_max; lia).
  rewrite !optional_text. simpl.
  rewrite (optional_of_integer (mem_reserve m)) by (intros n Hn; specialize (Hp n Hn); unfold i64_min, i64_max; lia).
  simpl.
  assert (∀ f, (∀ l, mem_limits m = Some l → 1 ≤ f l ≤ 1000) →
    optional get_integer (of_option (V := V) (λ l, of_integer (f l)) (mem_limits m))
      = Some (f <$> mem_limits m)) as Hopt.
  { intros f Hf. destruct (mem_limits m) as [l|]; unfold optional; simpl; [|by rewrite null_is_null].
    specialize (Hf l eq_refl). by rewrite integer_not_null, get_of_integer by (unfold i64_min, i64_max; lia). }
  rewrite Hopt by (intros l Hll; specialize (Hli l Hll); lia). simpl.
  rewrite Hopt by (intros l Hll; specialize (Hli l Hll); lia). simpl.
  rewrite (transpose_id _ (mem_history_limit m)).
  2: { intros l Hll. rewrite to_u32_Some by (specialize (Hl l Hll); unfold in_width, u32_max; lia).
       by apply (ok_history m Hok). }
  simpl. rewrite (transpose_id _ (mem_cookie m)) by (intros c Hc; by rewrite (ok_cookie m Hok c Hc)).
  simpl. rewrite (transpose_id _ (mem_topic m)) by (intros c Hc; by rewrite (ok_topic m Hok c Hc)).
  simpl. rewrite (transpose_id _ (mem_reserve m)).
  2: { intros l Hll. rewrite to_u64_Some by (specialize (Hp l Hll); lia). by apply (ok_reserve m Hok). }
  simpl. destruct (mem_limits m) as [l|] eqn:Em; simpl; [|done].
  by rewrite (torrent_limits_ok l (ok_limits m Hok l Em)).
Qed.

Lemma optional_seconds (o : option SystemTime) :
  optional get_integer (of_option (V := V) (λ at_, of_integer (seconds at_)) o) = Some (seconds <$> o).
Proof. apply optional_integer. intros x. pose proof (seconds_range x). unfold i64_min. lia. Qed.

Lemma stored_times o :
  stored_time <$> o = o → transpose time_from_seconds (seconds <$> o) = Some o.
Proof.
  destruct o as [at_|]; [|done]. simpl. intros [= Ho].
  rewrite time_from_seconds_Some by apply seconds_range. simpl. do 2 f_equal. exact Ho.
Qed.

Lemma guard_reads guard watched used_at used :
  guard_ok guard → stored_guard guard = guard → guard_columns guard = (watched, used_at, used) →
  optional get_integer (of_option (V := V) of_integer watched) = Some watched ∧
  optional get_integer (of_option (V := V) of_integer used_at) = Some used_at ∧
  optional get_integer (of_option (V := V) of_integer used) = Some used ∧
  read_ratio_guard watched used_at used = Some guard.
Proof.
  intros Hg Hs Hc.
  assert (∀ n, is_u64 n → i64_min ≤ integer n ≤ i64_max ∧ to_u64 (integer n) = Some (integer n)) as Hi.
  { intros n [Hn _]. apply integer_range in Hn. split; [unfold i64_min; lia|apply to_u64_Some; lia]. }
  destruct guard as [|w|[before after at_]]; simpl in *; injection Hc as <- <- <-.
  - split_and!; done || by apply optional_of_integer.
  - destruct (Hi _ Hg) as [Hr Hu]. injection Hs as Hs.
    split_and!; try (apply optional_of_integer; intros ? [= <-]; done). simpl. by rewrite Hu, Hs.
  - destruct Hg as [Hb Ha], (Hi _ Hb) as [Hr Hu], (Hi _ Ha) as [Hr' Hu']. injection Hs as Hs Hs' Ht.
    pose proof (seconds_range at_). unfold i64_min in *.
    split_and!; try (apply optional_of_integer; intros ? [= <-]; unfold i64_min; lia). simpl.
    rewrite Hu, Hu'. simpl. rewrite time_from_seconds_Some by done. simpl.
    do 3 f_equal; [done..|exact Ht].
Qed.

Lemma read_mam_state_remembers m db :
  remembers m db → Memory_ok m →
  read_mam_state db = Some (Event_Mam (MamEvent_StateRead (mem_registration m) (mem_reminder m)
    (mem_guard m))).
Proof.
  intros Hr Hok. unfold read_mam_state. rewrite (rem_mam m db Hr). unfold mam_state_row.
  destruct (ok_guard m Hok) as [Hg Hs].
  destruct (guard_columns (mem_guard m)) as [[watched used_at] used] eqn:Ec.
  destruct (guard_reads _ _ _ _ Hg Hs Ec) as (H1 & H2 & H3 & H4). simpl.
  rewrite !optional_seconds, H1. simpl. rewrite H2. simpl. rewrite H3. simpl. rewrite H4. simpl.
  rewrite (stored_times _ (ok_registration m Hok)). simpl.
  by rewrite (stored_times _ (ok_reminder m Hok)).
Qed.

Lemma read_last_switch_remembers m db :
  remembers m db → Memory_ok m →
  read_last_switch db = Some (Event_Tunnel (TunnelEvent_LastSwitchRead (mem_switch m))).
Proof.
  intros Hr Hok. unfold read_last_switch. rewrite (rem_switch m db Hr).
  destruct (mem_switch m) as [[server at_]|] eqn:Es; [|done].
  destruct (ok_switch m Hok _ Es) as [Hs Ht]. simpl in *.
  rewrite get_of_text. simpl. rewrite get_seconds. simpl. rewrite Hs. simpl.
  rewrite time_from_seconds_Some by apply seconds_range. simpl.
  change (from_secs (seconds at_)) with (stored_time at_). by rewrite Ht.
Qed.
End remembers.

(** ** Maps under their encodings *)

Section encoded.
Context {A B : Type} (f : A → B).

Lemma bt_items_fmap (m : gmap Z A) : bt_items (f <$> m) = prod_map id f <$> bt_items m.
Proof.
  apply (StronglySorted_unique_strong item_le).
  - intros [k x] [k' y]. rewrite !elem_of_bt_items, lookup_fmap. intros Hx Hy Hle Hge.
    unfold item_le in *. simpl in *. apply list_elem_of_fmap in Hy as ([k2 y2] & [= -> ->] & Hy).
    apply elem_of_bt_items in Hy. assert (k = k2) as -> by (unfold key_le, Z_key_order in *; simpl in *; lia).
    rewrite Hy in Hx. by simplify_eq/=.
  - apply bt_items_sorted.
  - pose proof (bt_items_sorted m) as Hs. induction Hs as [|p l Hs IH Hp]; simpl; constructor; [done|].
    apply List.Forall_map. eapply List.Forall_impl; [|exact Hp]. by intros.
  - rewrite bt_items_permutation, map_to_list_fmap. by rewrite <-bt_items_permutation.
Qed.

Lemma bt_keys_fmap (m : gmap Z A) : bt_keys (f <$> m) = bt_keys m.
Proof. unfold bt_keys. rewrite bt_items_fmap, <-list_fmap_compose. by apply list_fmap_ext. Qed.

Lemma bt_values_fmap (m : gmap Z A) : bt_values (f <$> m) = f <$> bt_values m.
Proof. unfold bt_values. rewrite bt_items_fmap, <-!list_fmap_compose. by apply list_fmap_ext. Qed.
End encoded.

(** ** Rows and notices *)

Section rows_and_notices.
Context {V : Type} `{ColumnsOk V, EqDecision V}.
Context (message : Notice → Words).
Implicit Types (db : Database V) (m : Memory).

Lemma of_text_inj (x y : string) : of_text (V := V) x = of_text y → x = y.
Proof. intros Ht. apply (f_equal get_text) in Ht. rewrite !get_of_text in Ht. by injection Ht. Qed.

Lemma same_hash_rows (r r' : TorrentRecord) :
  same_hash (V := V) (torrent_row r) (torrent_row r') = shares_hash r r'.
Proof.
  unfold same_hash, shares_hash, torrent_row. simpl.
  destruct (Identity_hash (record_identity r)) as [h|] eqn:Eh; simpl; [|by rewrite null_is_null].
  rewrite text_not_null. simpl. apply bool_decide_ext.
  destruct (Identity_hash (record_identity r')) as [h'|]; simpl.
  - split; [intros [= Ht]; f_equal; by apply of_text_inj|by intros [= ->]].
  - split; [|done]. intros [= Ht]. apply (f_equal is_null) in Ht.
    rewrite null_is_null, text_not_null in Ht. done.
Qed.

Lemma torrent_row_stored (r : TorrentRecord) :
  torrent_row (V := V) (stored_record r) = torrent_row r.
Proof.
  unfold torrent_row, stored_record. simpl. rewrite integer_idemp.
  destruct r as [id i origin desired path deletion [[t seen]|]]; simpl;
    rewrite ?as_secs_from_secs, ?integer_idemp, ?seconds_stored; simpl;
    (destruct i; simpl; rewrite ?integer_idemp); try done;
    destruct t as [? ? ? ? ? ? ? ? ? [?|] [?|] ? ? ?]; simpl; by rewrite ?seconds_stored.
Qed.

Lemma insert_rows (rows : gmap RecordId TorrentRecord) (r : TorrentRecord) :
  record_id r ≤ i64_max →
  insert_or_replace (V := V) (torrent_row <$> rows) (integer (record_id r)) (torrent_row r) =
    torrent_row <$> replace_row rows r.
Proof.
  intros Hid. unfold insert_or_replace, replace_row.
  rewrite fmap_insert, map_filter_fmap, integer_small, torrent_row_stored by done. do 2 f_equal.
  apply map_filter_ext. intros i x _. simpl. by rewrite same_hash_rows.
Qed.

Lemma save_rows (records : list TorrentRecord) (rows : gmap RecordId TorrentRecord) :
  Forall (λ r, TorrentRecord_ok r ∧ record_id r ≤ i64_max) records →
  fold_left (λ torrents record,
    insert_or_replace (V := V) torrents (integer (record_id record)) (torrent_row record))
    records (torrent_row <$> rows) = torrent_row <$> fold_left replace_row records rows.
Proof.
  intros Hall. revert rows. induction Hall as [|r records [_ Hid] _ IH]; intros rows; simpl; [done|].
  by rewrite insert_rows, IH.
Qed.

Lemma stored_record_ok r :
  TorrentRecord_ok r → TorrentRecord_ok (stored_record r) ∧ stored_record (stored_record r) = stored_record r.
Proof. intros Hr. eapply torrent_record_inv, (torrent_record_row (V := V)), Hr. Qed.

Definition rows_ok (rows : gmap RecordId TorrentRecord) : Prop :=
  map_Forall (λ id r, record_id r = id ∧ TorrentRecord_ok r ∧ stored_record r = r) rows.

Lemma save_rows_ok records rows :
  Forall (λ r, TorrentRecord_ok r ∧ record_id r ≤ i64_max) records →
  rows_ok rows → rows_ok (fold_left replace_row records rows).
Proof.
  intros Hall. revert rows. induction Hall as [|r records [Hr Hid] _ IH]; intros rows Hok; [done|].
  apply IH. apply map_Forall_insert_2.
  - split; [by apply integer_small|]. by apply stored_record_ok.
  - intros id row Hrow. apply map_lookup_filter_Some in Hrow as [Hrow _]. by apply Hok.
Qed.

Lemma read_registry_remembers m db :
  remembers m db → Memory_ok m →
  read_registry db = Some (Event_Registry (RegistryEvent_Read (bt_values (mem_rows m)))).
Proof.
  intros Hr Hok. unfold read_registry. rewrite (rem_rows m db Hr), bt_values_fmap.
  assert (mapM torrent_record (torrent_row (V := V) <$> bt_values (mem_rows m))
    = Some (bt_values (mem_rows m))) as ->; [|done].
  apply mapM_Some, Forall2_fmap_l, Forall_Forall2_diag, List.Forall_forall.
  intros r Hin%list_elem_of_In. apply elem_of_bt_values in Hin as [id Hin].
  destruct (ok_rows m Hok id r Hin) as (_ & Hrok & Hst). simpl.
  by rewrite torrent_record_row, Hst by done.
Qed.

(** ** The log *)

Lemma notice_id_ok id : 1 ≤ id ≤ i64_max → notice_id id = Some id.
Proof.
  intros Hid. unfold notice_id. rewrite to_u64_Some by lia. simpl. unfold NoticeId_new, non_zero.
  by rewrite (proj2 (Z.leb_le 1 _)), (proj2 (Z.leb_le _ u64_max)) by (unfold i64_max, u64_max in *; lia).
Qed.

Lemma max_list_in l x : max_list l = Some x → x ∈ l.
Proof.
  revert x. induction l as [|y l IH]; intros x; simpl; [done|].
  destruct (max_list l) as [z|]; simpl; intros [= <-]; [|by left].
  destruct (Z.max_spec y z) as [[_ ->]|[_ ->]]; [right; by apply IH|by left].
Qed.

Lemma read_notice_log_remembers m db :
  remembers m db → Memory_ok m →
  read_notice_log db =
    Some (Event_Notification (NotificationEvent_LogRead (max_list (bt_keys (mem_notices m))))).
Proof.
  intros Hr Hok. unfold read_notice_log. rewrite (rem_notices m db Hr), bt_keys_fmap.
  rewrite transpose_id; [done|]. intros id Hid%max_list_in.
  unfold bt_keys in Hid. apply list_elem_of_fmap in Hid as ([k n] & -> & Hin).
  apply elem_of_bt_items in Hin. apply notice_id_ok. by destruct (ok_notices m Hok k n Hin) as (_ & ? & _).
Qed.

(** The notifications page shows the newest notices of the memory. *)
Lemma read_notices_remembers m db limit :
  remembers m db → Memory_ok m →
  read_notices db limit = Some (firstn (Z.to_nat limit) (reverse (bt_values (mem_notices m)))).
Proof.
  intros Hr Hok. unfold read_notices. rewrite (rem_notices m db Hr), bt_items_fmap.
  unfold bt_values. rewrite <-fmap_reverse, <-!fmap_take, <-fmap_reverse, <-fmap_take.
  apply mapM_Some, Forall2_fmap, Forall_Forall2_diag, List.Forall_forall.
  intros [id n] Hin%list_elem_of_In. apply elem_of_take in Hin as (i & Hi & _).
  apply list_elem_of_lookup_2, elem_of_reverse, elem_of_bt_items in Hi as Hin.
  destruct (ok_notices m Hok id n Hin) as (Hid & Hb & Ht). unfold stored_notice. simpl.
  rewrite get_seconds. simpl. rewrite get_of_bool. simpl. rewrite !get_of_text. simpl.
  rewrite notice_id_ok by done. simpl. rewrite time_from_seconds_Some by apply seconds_range. simpl.
  destruct n as [nid at_ urgent [title body page]]. simpl in *. subst. do 2 f_equal. exact Ht.
Qed.
End rows_and_notices.

(** ** Every operation *)

Section refinement.
Context {V : Type} `{ColumnsOk V, EqDecision V}.
Context (message : Notice → Words).
Implicit Types (db : Database V) (m : Memory).

(** Updating columns of a table's row, and the fields they hold. *)
Lemma upsert_settings_remembers m m' db (update : SettingsRow V → SettingsRow V) :
  remembers m db → update (settings_row m) = settings_row m' →
  mem_mode m' = mem_mode m → mam_state_row (V := V) m' = mam_state_row m →
  mem_switch m' = mem_switch m → mem_rows m' = mem_rows m → mem_notices m' = mem_notices m →
  remembers m' (upsert_settings db update).
Proof.
  intros [Hm Hs Ha Hw Hr Hn] Hu E1 E2 E3 E4 E5. split; simpl; rewrite ?E1, ?E2, ?E3, ?E4, ?E5; try done.
  by rewrite Hs.
Qed.

Lemma upsert_mam_remembers m m' db (update : MamStateRow V → MamStateRow V) :
  remembers m db → update (mam_state_row m) = mam_state_row m' →
  mem_mode m' = mem_mode m → settings_row (V := V) m' = settings_row m →
  mem_switch m' = mem_switch m → mem_rows m' = mem_rows m → mem_notices m' = mem_notices m →
  remembers m' (upsert_mam_state db update).
Proof.
  intros [Hm Hs Ha Hw Hr Hn] Hu E1 E2 E3 E4 E5. split; simpl; rewrite ?E1, ?E2, ?E3, ?E4, ?E5; try done.
  by rewrite Ha.
Qed.

(** Changing one part of a valid memory. *)
Ltac memory_ok Hok :=
  let Ho := fresh in pose proof Hok as Ho;
  destruct Ho; split; simpl; try done; try (intros ? [= <-]; done).

Lemma stored_guard_ok guard :
  guard_ok guard → guard_ok (stored_guard guard) ∧ stored_guard (stored_guard guard) = stored_guard guard.
Proof.
  assert (∀ n, is_u64 n → is_u64 (integer n)) as Hi.
  { intros n [Hn _]. pose proof (integer_range n Hn). unfold in_width, i64_max, u64_max in *. lia. }
  destruct guard as [|w|[before after at_]]; simpl; intros Hg; [done|..].
  - rewrite integer_idemp. auto.
  - rewrite !integer_idemp. unfold stored_time. rewrite seconds_from_secs by apply seconds_range.
    destruct Hg. auto.
Qed.

Lemma stored_time_idemp at_ : stored_time (stored_time at_) = stored_time at_.
Proof. unfold stored_time. by rewrite seconds_from_secs by apply seconds_range. Qed.

Lemma save_ratio_guard_remembers m db guard :
  remembers m db → guard_ok guard →
  remembers (remember message m (Operation_SaveRatioGuard guard)) (save_ratio_guard db guard).
Proof.
  intros Hr Hg. unfold save_ratio_guard. fold (guard_columns guard).
  assert (guard_columns (stored_guard guard) = guard_columns guard) as Hc.
  { destruct guard as [|w|[before after at_]]; simpl; [done|..]; rewrite ?integer_idemp; [done|].
    unfold stored_time. by rewrite seconds_from_secs by apply seconds_range. }
  destruct (guard_columns guard) as [[w u] d] eqn:Ec.
  apply (upsert_mam_remembers m); try done. unfold mam_state_row. simpl.
  destruct (guard_columns (mem_guard m)) as [[w' u'] d']. by rewrite Hc.
Qed.

Lemma save_notice_remembers m db entry forget_through :
  remembers m db → operation_ok (Operation_SaveNotice entry forget_through) →
  mem_notices m !! logged_id entry = None →
  ∃ db', save_notice message db entry forget_through = Some db' ∧
    remembers (remember message m (Operation_SaveNotice entry forget_through)) db'.
Proof.
  intros Hr [Hid Hf] Hnew. unfold save_notice.
  rewrite integer_small, (rem_notices m db Hr), lookup_fmap, Hnew by lia. simpl.
  eexists. split; [reflexivity|]. pose proof Hr as [Hm Hs Ha Hw Ht Hn]. split; simpl; try done.
  assert (<[logged_id entry := mkNoticeRow (of_integer (seconds (logged_at entry)))
      (of_bool (logged_reach entry ==? Reach_Push))
      (of_text (words_title (message (logged_notice entry))))
      (of_text (words_body (message (logged_notice entry))))
      (of_text (words_page (message (logged_notice entry))))]> (notice_row (V := V) <$> mem_notices m)
    = notice_row <$> <[logged_id entry := stored_entry message entry]> (mem_notices m)) as ->.
  { rewrite fmap_insert. f_equal. unfold notice_row, stored_entry. simpl. by rewrite seconds_stored. }
  destruct forget_through as [through|]; [|done]. rewrite map_filter_fmap. f_equal.
  rewrite integer_small by by apply Hf. apply map_filter_ext. by intros.
Qed.

Lemma remember_ok m operation :
  Memory_ok m → operation_ok operation → Memory_ok (remember message m operation).
Proof.
  intros Hok Hop.
  destruct operation as [| |mode| | |limit|cookie|topic| |records| |switch|reserve|limits|cookie|
    |at_|at_|guard| |entry through]; simpl in Hop; try exact Hok.
  all: memory_ok Hok.
  - intros c ->. exact Hop.
  - intros c ->. exact Hop.
  - by apply (save_rows_ok (V := V)).
  - intros s [= <-]. simpl. split; [done|apply stored_time_idemp].
  - f_equal. apply stored_time_idemp.
  - f_equal. apply stored_time_idemp.
  - by apply stored_guard_ok.
  - destruct Hop as [Hid Hf].
    assert (map_Forall (λ id n, stored_id n = id ∧ 1 ≤ id ≤ i64_max ∧ stored_time (stored_at n) = stored_at n)
      (<[logged_id entry := stored_entry message entry]> (mem_notices m))) as Hall.
    { apply map_Forall_insert_2; [|by apply ok_notices]. simpl. auto using stored_time_idemp. }
    destruct through; [|done]. intros id n [Hn _]%map_lookup_filter_Some. by apply Hall.
Qed.

(** A change of one table. *)
Lemma remembers_mode m db o :
  remembers m db →
  remembers {| m with mem_mode := o |}
    {| db with db_mam_configuration := (λ mode, of_text (mode_name mode)) <$> o |}.
Proof. by intros [Hm Hs Ha Hw Hr Hn]. Qed.
Lemma remembers_switch m db switch :
  remembers m db →
  remembers (remember message m (Operation_SaveVpnSwitch switch)) (save_switch db switch).
Proof. intros [Hm Hs Ha Hw Hr Hn]. split; simpl; try done. by rewrite seconds_stored. Qed.
Lemma remembers_rows m db records :
  remembers m db → Forall (λ r, TorrentRecord_ok r ∧ record_id r ≤ i64_max) records →
  remembers (remember message m (Operation_SaveTorrents records)) (save_torrents db records).
Proof.
  intros [Hm Hs Ha Hw Hr Hn] Hall. split; simpl; try done. rewrite Hr. by apply save_rows.
Qed.

(** The columns of the settings and of the MAM state. *)
Lemma remembers_column m db operation db' :
  remembers m db → operation_ok operation →
  match operation with
  | Operation_WriteHistoryLimit limit => db' = write_history_limit db limit
  | Operation_WriteApiCookie cookie => db' = write_api_cookie db cookie
  | Operation_WriteRotatedApiCookie cookie => db' = write_api_cookie db (Some cookie)
  | Operation_WriteNtfyTopic topic => db' = write_ntfy_topic db topic
  | Operation_WritePointsReserve reserve => db' = write_points_reserve db reserve
  | Operation_WriteTorrentLimits limits => db' = write_torrent_limits db limits
  | Operation_SaveRegistrationAttempt at_ => db' = save_registration_attempt db at_
  | Operation_SaveReminder at_ => db' = save_reminder db at_
  | _ => False
  end → remembers (remember message m operation) db'.
Proof.
  intros Hr Hop. destruct operation; intros Hdb; try done; subst db';
    try (by apply (upsert_settings_remembers m)).
  - apply (upsert_settings_remembers m); try done. unfold settings_row. simpl.
    apply try_new_range in Hop as [_ Hb]. by rewrite integer_small by (unfold i64_max; lia).
  - apply (upsert_mam_remembers m); try done. unfold mam_state_row. simpl.
    destruct (guard_columns (mem_guard m)) as [[w u] d]. simpl. by rewrite seconds_stored.
  - apply (upsert_mam_remembers m); try done. unfold mam_state_row. simpl.
    destruct (guard_columns (mem_guard m)) as [[w u] d]. simpl. by rewrite seconds_stored.
Qed.

Lemma perform_remembers m db operation :
  remembers m db → Memory_ok m → operation_ok operation →
  match answer m operation with
  | Some event => ∃ db', perform message (Some db) operation = Some (Some db', event) ∧
                    remembers (remember message m operation) db'
  | None => perform message (Some db) operation = None
  end.
Proof.
  intros Hr Hok Hop.
  destruct operation as [[]| |mode| | |limit|cookie|topic| |records| |switch|reserve|limits|cookie|
    |at_|at_|guard| |entry through]; simpl answer; simpl perform; try done.
  all: try (rewrite (read_remembers m db Hr) || rewrite (read_settings_remembers m db Hr Hok)
    || rewrite (read_registry_remembers m db Hr Hok) || rewrite (read_last_switch_remembers m db Hr Hok)
    || rewrite (read_mam_state_remembers m db Hr Hok) || rewrite (read_notice_log_remembers m db Hr Hok)).
  all: try (by exists db).
  all: try (eexists; split; [reflexivity|]; by apply (remembers_column m db)).
  - eexists. split; [reflexivity|]. by apply (remembers_mode m db (Some mode)).
  - eexists. split; [reflexivity|]. by apply (remembers_mode m db None).
  - eexists. split; [reflexivity|]. by apply remembers_rows.
  - eexists. split; [reflexivity|]. by apply remembers_switch.
  - eexists. split; [reflexivity|]. by apply save_ratio_guard_remembers.
  - destruct (mem_notices m !! logged_id entry) eqn:En.
    + unfold save_notice. destruct Hop as [Hid _].
      by rewrite integer_small, (rem_notices m db Hr), lookup_fmap, En by lia.
    + destruct (save_notice_remembers m db entry through Hr Hop En) as (db' & -> & Hr'). by exists db'.
Qed.

Lemma step_refines m db works operation :
  remembers m db → Memory_ok m → operation_ok operation →
  ∃ db', execute message works (Some db) operation
      = (Some db', (step_memory message m works operation).2) ∧
    remembers (step_memory message m works operation).1 db' ∧
    Memory_ok (step_memory message m works operation).1.
Proof.
  intros Hr Hok Hop. destruct works; [|by exists db]. unfold execute, step_memory. simpl.
  pose proof (perform_remembers m db operation Hr Hok Hop) as Hp.
  destruct (answer m operation) as [event|]; simpl.
  - destruct Hp as (db' & -> & Hr'). exists db'. split_and!; [done..|by apply remember_ok].
  - rewrite Hp. by exists db.
Qed.

(** ** Runs *)

(** A run of operations, each with whether the disk carries it out: the file
    after it and the answers. *)
Fixpoint run_storage (file : option (Database V)) (operations : list (bool * Operation))
    : option (Database V) * list (Result Event Event) :=
  match operations with
  | [] => (file, [])
  | (works, operation) :: operations =>
      let '(file, result) := execute message works file operation in
      let '(file, results) := run_storage file operations in
      (file, result :: results)
  end.
Fixpoint run_memory m (operations : list (bool * Operation)) : Memory * list (Result Event Event) :=
  match operations with
  | [] => (m, [])
  | (works, operation) :: operations =>
      let '(m, result) := step_memory message m works operation in
      let '(m, results) := run_memory m operations in
      (m, result :: results)
  end.

Lemma run_refines m db operations :
  remembers m db → Memory_ok m → Forall (λ p, operation_ok p.2) operations →
  ∃ db', run_storage (Some db) operations = (Some db', (run_memory m operations).2) ∧
    remembers (run_memory m operations).1 db' ∧ Memory_ok (run_memory m operations).1.
Proof.
  intros Hr Hok Hall. revert m db Hr Hok.
  induction Hall as [|[works operation] operations Hop _ IH]; intros m db Hr Hok; [by exists db|].
  simpl in *. destruct (step_refines m db works operation Hr Hok Hop) as (db1 & -> & Hr1 & Hok1).
  destruct (step_memory message m works operation) as [m1 r1]. simpl in *.
  destruct (IH m1 db1 Hr1 Hok1) as (db' & -> & Hr' & Hok').
  destruct (run_memory m1 operations) as [m' rs]. simpl in *. by exists db'.
Qed.
End refinement.

(** ** Reading tables in any state *)

(** What an event promises of the values it carries. *)
Definition event_valid (event : Event) : Prop :=
  match event with
  | Event_Settings (SettingsEvent_Read limit cookie topic reserve limits) =>
      (∀ l, limit = Some l → 100 ≤ l ≤ 1_000_000) ∧ (∀ c, cookie = Some c → ApiCookie_ok c) ∧
      (∀ c, topic = Some c → name_ok c) ∧ (∀ r, reserve = Some r → 0 ≤ r ≤ 100_000_000) ∧
      (∀ l, limits = Some l → 1 ≤ limits_downloading l ≤ limits_active l ∧ limits_active l ≤ 1_000)
  | Event_Registry (RegistryEvent_Read records) => Forall TorrentRecord_ok records
  | Event_Tunnel (TunnelEvent_LastSwitchRead last) => ∀ s, last = Some s → name_ok (switch_server s)
  | Event_Mam (MamEvent_StateRead _ _ guard) => guard_ok guard
  | Event_Notification (NotificationEvent_LogRead last) => ∀ id, last = Some id → 1 ≤ id ≤ u64_max
  | _ => True
  end.

Section damaged.
Context {V : Type} `{ColumnsOk V, EqDecision V}.
Context (message : Notice → Words).
Implicit Types (db : Database V).

Lemma torrent_limits_valid d a l :
  torrent_limits d a = Some l → 1 ≤ limits_downloading l ≤ limits_active l ∧ limits_active l ≤ 1_000.
Proof.
  unfold torrent_limits, to_u32. intros Hl. bind_inv.
  repeat match goal with H : then_some _ _ = Some _ |- _ => apply then_some_Some in H as [_ <-] end.
  repeat match goal with H : DownloadingLimit_try_new _ = _ |- _ => apply try_new_range in H as [-> ?]
         | H : ActiveLimit_try_new _ = _ |- _ => apply try_new_range in H as [-> ?] end.
  unfold TorrentLimits_new in *. case_match; simplify_eq/=. reflect_bools. lia.
Qed.

Lemma read_settings_valid db event : read_settings db = Some event → event_valid event.
Proof.
  unfold read_settings. intros He. bind_inv. simpl. split_and!; intros y ->;
    repeat match goal with H : transpose _ _ = Some (Some _) |- _ =>
      destruct (transpose_inv _ _ _ H _ eq_refl) as (? & -> & ?); clear H end.
  - bind_inv. by match goal with H : HistoryLimit_try_new _ = _ |- _ => apply try_new_range in H as [-> ?] end.
  - destruct (ApiCookie_parse _) eqn:Hc; simplify_eq/=. by apply ApiCookie_parse_ok in Hc as [? _].
  - destruct (NtfyTopic_parse _) eqn:Hc; simplify_eq/=. by apply NtfyTopic_parse_ok in Hc as [? _].
  - bind_inv. by match goal with H : PointsReserve_try_new _ = _ |- _ => apply try_new_range in H as [-> ?] end.
  - repeat case_match; simplify_eq. bind_inv. simplify_eq. by eapply torrent_limits_valid.
Qed.

Lemma read_registry_valid db event : read_registry db = Some event → event_valid event.
Proof.
  unfold read_registry. intros He. bind_inv. simpl.
  match goal with H : mapM _ _ = _ |- _ => apply mapM_Some_1 in H as Hall; clear H end.
  induction Hall as [|row r rows rs Hr _ IH]; constructor; [by eapply torrent_record_inv|exact IH].
Qed.

Lemma read_last_switch_valid db event : read_last_switch db = Some event → event_valid event.
Proof.
  unfold read_last_switch. intros He. bind_inv. simpl. intros s ->.
  match goal with H : transpose _ _ = Some (Some s) |- _ =>
    destruct (transpose_inv _ _ _ H s eq_refl) as ([server at_] & -> & Hs); clear H end.
  bind_inv. simpl in *.
  by match goal with H : VpnServer_try_new _ = _ |- _ => apply VpnServer_try_new_ok in H as [-> ?] end.
Qed.

Lemma optional_range (v : V) o :
  optional get_integer v = Some o → ∀ n, o = Some n → i64_min ≤ n ≤ i64_max.
Proof.
  unfold optional. intros Ho n ->. case_match; [done|]. bind_inv. simplify_eq.
  eauto using get_integer_range.
Qed.

Lemma read_mam_state_valid db event : read_mam_state db = Some event → event_valid event.
Proof.
  unfold read_mam_state. intros He. bind_inv. simpl.
  assert (∀ n k, to_u64 n = Some k → (∀ i, Some n = Some i → i64_min ≤ i ≤ i64_max) → is_u64 k) as Hu.
  { intros n k [-> Hn]%to_u64_inv Hm. specialize (Hm n eq_refl).
    unfold in_width, i64_max, u64_max in *. lia. }
  repeat match goal with H : optional get_integer _ = Some _ |- _ =>
    let Hr := fresh "Hr" in pose proof (optional_range _ _ H) as Hr; clear H end.
  unfold read_ratio_guard in *. repeat case_match; simplify_eq; bind_inv; simplify_eq/=; try done.
  - split; eapply Hu; eassumption.
  - eapply Hu; eassumption.
Qed.

Lemma read_notice_log_valid db event : read_notice_log db = Some event → event_valid event.
Proof.
  unfold read_notice_log. intros He. bind_inv. simpl. intros id ->.
  match goal with H : transpose _ _ = Some (Some id) |- _ =>
    destruct (transpose_inv _ _ _ H id eq_refl) as (n & Hn & Hid); clear H end.
  unfold notice_id in Hid. bind_inv. unfold NoticeId_new, non_zero in *. case_match; simplify_eq.
  by reflect_bools.
Qed.

Lemma perform_valid (file : option (Database V)) operation file' event :
  perform message file operation = Some (file', event) → event_valid event.
Proof.
  intros Hp. destruct operation as [[]| |mode| | |limit|cookie|topic| |records| |switch|reserve|limits|cookie|
    |at_|at_|guard| |entry through], file as [db|]; simpl in Hp; simplify_eq; try done; bind_inv;
    simplify_eq; try done;
    eauto using read_settings_valid, read_registry_valid, read_last_switch_valid,
      read_mam_state_valid, read_notice_log_valid.
  unfold read in *. by bind_inv.
Qed.
End damaged.

(** ** Properties *)

(** C28: storage is a memory of what was last written. From a database just
    made, any sequence of reads and writes of valid values, any of which the disk may
    fail, gets the answers of a memory that keeps the values written, to the second
    and to 63 bits: every value written is read back until it is written again, the
    writes of one column leave the others alone, rows come back in the order of their
    identities, and a failed operation changes nothing and says that it failed; and the
    notifications page shows the memory's newest notices. *)
Theorem storage_refines_memory {V : Type} `{ColumnsOk V, EqDecision V} message operations :
  Forall (λ p, operation_ok p.2) operations →
  ∃ db : Database V,
    run_storage message None ((true, Operation_OpenStorage StartupMode_Initialise) :: operations)
      = (Some db, Ok (Event_Startup StartupEvent_StorageOpened)
                    :: (run_memory message empty_memory operations).2) ∧
    ∀ limit, read_notices db limit = Some (firstn (Z.to_nat limit)
      (reverse (bt_values (mem_notices (run_memory message empty_memory operations).1)))).
Proof.
  intros Hall. destruct (empty_remembers (V := V)) as [Hr Hok].
  destruct (run_refines message _ _ _ Hr Hok Hall) as (db & Hrun & Hr' & Hok').
  exists db. split.
  - simpl. unfold execute. simpl. by rewrite Hrun.
  - intros limit. by apply read_notices_remembers.
Qed.

(** A preference, a registry with one row saved twice, a failed write, and what
    the reads then answer. *)
Definition sample_operations : list (bool * Operation) :=
  [(true, Operation_WriteMamRequestMode MamRequestMode_Enabled);
   (true, Operation_SaveTorrents [sample_saved]);
   (true, Operation_SaveTorrents [sample_saved]);
   (false, Operation_WriteMamRequestMode MamRequestMode_Paused);
   (true, Operation_SaveReminder (from_secs 5 + 3));
   (true, Operation_ReadMamRequestMode);
   (true, Operation_ReadTorrentRegistry);
   (true, Operation_ReadMamState)].
Definition no_words (n : Notice) : Words := mkWords "" "" "".

Lemma sample_operations_ok : Forall (λ p, operation_ok p.2) sample_operations.
Proof.
  assert (operation_ok (Operation_SaveTorrents [sample_saved])) as Hs.
  { constructor; [|constructor]. split; [apply sample_saved_ok|]. unfold i64_max. simpl. lia. }
  unfold sample_operations. repeat (apply List.Forall_cons; [first [exact Hs|exact I]|]). constructor.
Qed.

Lemma storage_refines_memory_witness :
  ∃ db : Database SqliteValue,
    run_storage no_words None
        ((true, Operation_OpenStorage StartupMode_Initialise) :: sample_operations)
      = (Some db,
         [Ok (Event_Startup StartupEvent_StorageOpened);
          Ok (Event_MamPause MamPauseEvent_Written);
          Ok (Event_Registry RegistryEvent_Saved);
          Ok (Event_Registry RegistryEvent_Saved);
          Err (Event_MamPause MamPauseEvent_WriteFailed);
          Ok (Event_Mam MamEvent_ReminderSaved);
          Ok (Event_MamPause (MamPauseEvent_Read (Some MamRequestMode_Enabled)));
          Ok (Event_Registry (RegistryEvent_Read [stored_record sample_saved]));
          Ok (Event_Mam (MamEvent_StateRead None (Some (from_secs 5)) SavedRatioGuard_Unset))]).
Proof.
  destruct (storage_refines_memory (V := SqliteValue) no_words sample_operations sample_operations_ok)
    as (db & H & _).
  exists db. rewrite H. vm_compute. reflexivity.
Defined.

(** whatever a database holds, however it came about, what an operation
    answers is either an event whose values are all valid, or the operation's own
    failure, which leaves the database as it was; there is no third outcome, and an
    operation the disk does not carry out always fails. *)
Theorem storage_answers_are_valid {V : Type} `{ColumnsOk V, EqDecision V} message works
    (file : option (Database V)) operation :
  match execute message works file operation with
  | (_, Ok event) => event_valid event ∧ works = true
  | (file', Err event) => event = failure operation ∧ file' = file
  end.
Proof.
  unfold execute. destruct works; simpl; [|done].
  destruct (perform message file operation) as [[file' event]|] eqn:Hp; [|done].
  split; [by eapply perform_valid|done].
Qed.

(** Settings with a cookie that is no cookie. *)
Definition damaged_database : Database SqliteValue :=
  {| empty_database with
     db_settings := Some {| null_settings with row_api_cookie := TextValue "two words" |} |}%string.

Lemma storage_answers_witness :
  execute no_words true (Some damaged_database) Operation_ReadSettings
    = (Some damaged_database, Err (failure Operation_ReadSettings)) ∧
  failure Operation_ReadSettings = failure Operation_ReadSettings ∧
  Some damaged_database = Some damaged_database.
Proof.
  pose proof (storage_answers_are_valid no_words true (Some damaged_database) Operation_ReadSettings) as H.
  assert (execute no_words true (Some damaged_database) Operation_ReadSettings
    = (Some damaged_database, Err (failure Operation_ReadSettings))) as E by (vm_compute; reflexivity).
  rewrite E in H. split; [exact E|exact H].
Defined.
