(* ===== verification/QbittorrentClient.v ===== *)
(** * The qBittorrent client

    The translation between the web UI's API and the core's events
    ([shell/qbittorrent.rs]). A request is a finite dialogue with the web UI: what is
    asked, and what follows each answer. JSON, URLs and MIME types are the libraries';
    the texts, numbers and times in them are read as the code reads them. *)

From S2P Require Import Prelude Values Vocabulary MamApi Messages.
From S2P Require Import Bytes Floats Text Rows.

(** ** Dialogues *)

Inductive WebRequest :=
  | WebRequest_Get (path : string)
  | WebRequest_Form (path : string) (form : list (string * string))
  | WebRequest_File (path part file_name mime : string) (file : bytes).

(** [NoResponse] is any failure to send a request or to receive the answer's head; an
    answer's body may still not be readable. *)
Inductive Response :=
  | NoResponse
  | Answer (status : HttpStatus) (body : option string).

Inductive Dialogue (A : Type) :=
  | Return (x : A)
  | Ask (request : WebRequest) (next : Response → Dialogue A).
Arguments Return {A}.
Arguments Ask {A}.

Fixpoint and_then {A B} (d : Dialogue A) (k : A → Dialogue B) : Dialogue B :=
  match d with
  | Return x => k x
  | Ask request next => Ask request (λ response, and_then (next response) k)
  end.

Abbreviation Outcome T := (Result T QbittorrentFailure) (only parsing).

(** An asynchronous function that returns an [Outcome]; its bind is the [?] operator. *)
Definition Attempt (A : Type) : Type := Dialogue (Outcome A).
#[global] Instance Attempt_ret : MRet Attempt := λ A x, Return (Ok x).
#[global] Instance Attempt_bind : MBind Attempt := λ A B k d,
  and_then d (λ outcome, match outcome with Ok x => k x | Err e => Return (Err e) end).
Definition of_outcome {A} (o : Outcome A) : Attempt A := Return o.
Definition fail {A} (reason : QbittorrentFailure) : Attempt A := Return (Err reason).
Definition ok_or_malformed {A} (o : option A) : Outcome A :=
  match o with Some x => Ok x | None => Err QbittorrentFailure_Malformed end.

(** A web UI as a state machine, and a dialogue conducted with it. *)
Fixpoint conduct {S A} (serve : S → WebRequest → S * Response) (s : S) (d : Dialogue A) : S * A :=
  match d with
  | Return x => (s, x)
  | Ask request next => let '(s, response) := serve s request in conduct serve s (next response)
  end.

(** ** Numbers *)

Definition Progress_from_fraction (fraction : f64) : option Progress :=
  then_some (SFleb f64_zero fraction && SFleb fraction f64_one)
    (round_to u16_max (f64_mul fraction f64_thousand)).
Definition Ratio_from_float (ratio : f64) : option Ratio :=
  then_some (f64_is_finite ratio && SFleb f64_zero ratio)
    (round_to u64_max (f64_mul ratio f64_thousand)).

(** [NetworkInterface::try_new] *)
Definition NetworkInterface_try_new (interface : string) : option string :=
  let interface := t (trim (b interface)) in
  if String.eqb interface "" then None else Some interface.

(** ** What the web UI answers *)

Record RawPreferences := mkRawPreferences {
  raw_listen_port : option Z;
  raw_current_network_interface : option string;
  raw_queueing_enabled : option bool;
  raw_max_active_downloads : option Z;
  raw_max_active_torrents : option Z;
  raw_max_active_uploads : option Z;
  raw_dont_count_slow_torrents : option bool;
}.

Record RawSync (J : Type) := mkRawSync {
  raw_rid : Z;
  raw_full_update : bool;
  raw_torrents : list (string * J);
  raw_torrents_removed : list string;
}.
Arguments mkRawSync {J}.
Arguments raw_rid {J}. Arguments raw_full_update {J}. Arguments raw_torrents {J}.
Arguments raw_torrents_removed {J}.

Record RawTorrent := mkRawTorrent {
  raw_name : option string;
  raw_state : option string;
  raw_progress : option f64;
  raw_size : option Z;
  raw_total_size : option Z;
  raw_completed : option Z;
  raw_uploaded : option Z;
  raw_ratio : option f64;
  raw_seeding_time : option Z;
  raw_added_on : option Z;
  raw_completion_on : option Z;
  raw_content_path : option string;
  raw_save_path : option string;
  raw_force_start : option bool;
}.

(** A value of a JSON object the client writes. *)
Inductive Scalar :=
  | Scalar_Int (n : Z)
  | Scalar_Bool (x : bool).

(** The libraries: [serde_json], with the deserialisation derived for the raw types,
    [reqwest]'s URLs and its MIME types. *)
Record Library := mkLibrary {
  Json : Type;
  read_preferences : string → option RawPreferences;
  read_sync : string → option (RawSync Json);
  read_torrent : Json → option RawTorrent;
  read_array : string → option (list Json);
  write_object : list (string * Scalar) → string;
  joins : string → bool;
  is_mime : string → bool;
}.

Definition transpose_ok {A B} (f : A → Outcome B) (o : option A) : Outcome (option B) :=
  match o with
  | None => Ok None
  | Some x => match f x with Ok y => Ok (Some y) | Err e => Err e end
  end.

(** The [?] operator where nothing is asked. *)
Definition try_ok {A B} (r : Outcome A) (k : A → Outcome B) : Outcome B :=
  match r with Ok x => k x | Err e => Err e end.

(** [collect] into an [Outcome]: the first failure is the outcome. *)
Fixpoint collect {A B} (f : A → Outcome B) (l : list A) : Outcome (list B) :=
  match l with
  | [] => Ok []
  | x :: l => try_ok (f x) (λ y, try_ok (collect f l) (λ ys, Ok (y :: ys)))
  end.

(** ** Preferences *)

(** qBittorrent reports -1 for no limit. *)
Definition raw_limit (limit : Z) : Outcome QueueLimit :=
  if limit =? -1 then Ok QueueLimit_Unlimited
  else ok_or_malformed (QueueLimit_At <$> to_u32 limit).
Definition queue_limit (limit : QueueLimit) : Z :=
  match limit with QueueLimit_Unlimited => -1 | QueueLimit_At count => count end.

Definition queue (self : RawPreferences) : Outcome (option QueuePreferences) :=
  match raw_queueing_enabled self, raw_max_active_downloads self, raw_max_active_torrents self,
        raw_max_active_uploads self, raw_dont_count_slow_torrents self with
  | None, None, None, None, None => Ok None
  | Some queueing, Some downloading, Some active, Some seeding, Some slow =>
      try_ok (raw_limit downloading) (λ downloading,
      try_ok (raw_limit active) (λ active,
      try_ok (raw_limit seeding) (λ seeding,
        Ok (Some (mkQueuePreferences (if queueing then Queueing_On else Queueing_Off)
                    downloading active seeding
                    (if slow then IdleTorrents_NotCounted else IdleTorrents_Counted))))))
  | _, _, _, _, _ => Err QbittorrentFailure_Malformed
  end.

Definition into_preferences (self : RawPreferences) : Outcome QbittorrentPreferences :=
  try_ok (queue self) (λ queue,
  let interface :=
    match raw_current_network_interface self with
    | Some interface => if String.eqb interface "" then None else Some interface
    | None => None
    end in
  try_ok (transpose_ok (λ i, ok_or_malformed (NetworkInterface_try_new i)) interface) (λ interface,
    Ok (mkQbittorrentPreferences (raw_listen_port self ≫= Port_new) interface queue))).

(** The preferences [set_queue] writes. *)
Definition queue_object (queue : QueuePreferences) : list (string * Scalar) :=
  [("queueing_enabled", Scalar_Bool (queue_queueing queue ==? Queueing_On));
   ("max_active_downloads", Scalar_Int (queue_limit (queue_max_downloading queue)));
   ("max_active_torrents", Scalar_Int (queue_limit (queue_max_active queue)));
   ("max_active_uploads", Scalar_Int (queue_limit (queue_max_seeding queue)));
   ("dont_count_slow_torrents", Scalar_Bool (queue_idle queue ==? IdleTorrents_NotCounted))]%string.

(** ** Torrents *)

(** Times are 0, -1, or 2^32 - 1, when not known. *)
Definition reported_time (seconds : Z) : Outcome (option SystemTime) :=
  if (seconds =? -1) || (seconds =? 0) || (seconds =? u32_max) then Ok None
  else ok_or_malformed (Some <$> time_from_seconds seconds).

Definition torrent_update (raw : RawTorrent) : Outcome TorrentUpdate :=
  try_ok (transpose_ok (λ name, ok_or_malformed (Some <$> not_empty name)) (raw_name raw)) (λ name,
  try_ok (transpose_ok (λ x, ok_or_malformed (Progress_from_fraction x)) (raw_progress raw)) (λ progress,
  try_ok (transpose_ok (λ x, ok_or_malformed (Ratio_from_float x)) (raw_ratio raw)) (λ ratio,
  try_ok (transpose_ok reported_time (raw_added_on raw)) (λ added_at,
  try_ok (transpose_ok reported_time (raw_completion_on raw)) (λ completed_at,
    Ok {| update_name := name;
          update_state := torrent_state_of <$> raw_state raw;
          update_progress := progress;
          update_size := raw_size raw;
          update_total_size := raw_total_size raw;
          update_downloaded := raw_completed raw;
          update_uploaded := raw_uploaded raw;
          update_ratio := ratio;
          update_seeding_time := from_secs <$> raw_seeding_time raw;
          update_added_at := added_at;
          update_completed_at := completed_at;
          update_content_path := not_empty <$> raw_content_path raw;
          update_save_path := not_empty <$> raw_save_path raw;
          update_force_start :=
            (λ forced : bool, if forced then ForceStart_Forced else ForceStart_NotForced)
              <$> raw_force_start raw |}))))).

Definition hash_or_malformed (hash : string) : Outcome TorrentHash :=
  ok_or_malformed (TorrentHash_parse hash).

(** ** Requests *)

Inductive Request :=
  | Request_Connect
  | Request_Sync (position : SyncPosition)
  | Request_ReadPreferences
  | Request_SetListenPort (port : Port)
  | Request_SetQueue (queue : QueuePreferences)
  | Request_Command (command : TorrentCommand).

Definition failed (self : Request) (reason : QbittorrentFailure) : QbittorrentEvent :=
  match self with
  | Request_Connect => QbittorrentEvent_ConnectFailed reason
  | Request_Sync _ => QbittorrentEvent_SyncFailed reason
  | Request_ReadPreferences => QbittorrentEvent_PreferencesReadFailed reason
  | Request_SetListenPort _ => QbittorrentEvent_ListenPortSetFailed reason
  | Request_SetQueue _ => QbittorrentEvent_QueueSetFailed reason
  | Request_Command _ => QbittorrentEvent_CommandFailed reason
  end.

Definition join_hashes (hashes : list TorrentHash) : string := String.concat "|" hashes.
Definition show (n : Z) : string := t (print_Z n).

Definition is_success (status : HttpStatus) : bool := (200 <=? status) && (status <=? 299).

Definition checked (response : Response) : Attempt (option string) :=
  match response with
  | NoResponse => fail QbittorrentFailure_Unreachable
  | Answer status body =>
      if is_success status then mret body else fail (QbittorrentFailure_Rejected status)
  end.

Section client.
Context (lib : Library).
(** The torrent files kept by the storage. *)
Context (kept : MamTorrentId → option bytes).

(** [RawSync::into_update], with the deserialisation of each torrent's fields. *)
Definition into_update (raw : RawSync (Json lib)) : Outcome SyncUpdate :=
  try_ok (collect (λ p, try_ok (hash_or_malformed p.1) (λ hash,
                        try_ok (ok_or_malformed (read_torrent lib p.2)) (λ raw,
                        try_ok (torrent_update raw) (λ update, Ok (hash, update)))))
            (raw_torrents raw)) (λ torrents,
  try_ok (collect hash_or_malformed (raw_torrents_removed raw)) (λ removed,
    Ok (mkSyncUpdate (raw_rid raw)
          (if raw_full_update raw then SyncScope_Full else SyncScope_Changes) torrents removed))).

(** A request to a URL under the base, and its body if the status is a success. *)
Definition send (path : string) (request : WebRequest) : Attempt (option string) :=
  if joins lib path then Ask request checked else fail QbittorrentFailure_Malformed.

Definition get (path : string) : Attempt (option string) := send path (WebRequest_Get path).
Definition get_text (path : string) : Attempt string :=
  body ← get path; of_outcome (ok_or_malformed body).
Definition json {T} (read : string → option T) (path : string) : Attempt T :=
  body ← get_text path; of_outcome (ok_or_malformed (read body)).
Definition post (path : string) (form : list (string * string)) : Attempt unit :=
  _ ← send path (WebRequest_Form path form); mret ().

Definition preferences : Attempt QbittorrentPreferences :=
  raw ← json (read_preferences lib) "api/v2/app/preferences";
  of_outcome (into_preferences raw).

Definition connect : Attempt QbittorrentEvent :=
  version ← get_text "api/v2/app/version";
  version ← of_outcome (ok_or_malformed (ReportedVersion_parse version));
  preferences ← preferences;
  mret (QbittorrentEvent_Connected version preferences).

Definition sync (position : SyncPosition) : Attempt SyncUpdate :=
  raw ← json (read_sync lib) ("api/v2/sync/maindata?rid=" +:+ show position);
  of_outcome (into_update raw).

Definition set_listen_port (port : Port) : Attempt unit :=
  post "api/v2/app/setPreferences"
    [("json", write_object lib [("listen_port", Scalar_Int port)])]%string.

Definition set_queue (queue : QueuePreferences) : Attempt unit :=
  post "api/v2/app/setPreferences" [("json", write_object lib (queue_object queue))]%string.

Definition add (mam : MamTorrentId) : Attempt unit :=
  file ← of_outcome (ok_or_malformed (kept mam));
  if is_mime lib "application/x-bittorrent" then
    _ ← send "api/v2/torrents/add"
      (WebRequest_File "api/v2/torrents/add" "torrents" (show mam +:+ ".torrent")
         "application/x-bittorrent" file);
    mret ()
  else fail QbittorrentFailure_Malformed.

(** The ids of the files of an array, [(0..files.len())]. *)
Definition file_ids {J} (files : list J) : string :=
  String.concat "|" (map (λ id, show (Z.of_nat id)) (seq 0 (length files))).

Definition command (command : TorrentCommand) : Attempt unit :=
  match command with
  | TorrentCommand_Start started =>
      post "api/v2/torrents/start" [("hashes", join_hashes started)]
  | TorrentCommand_Stop stopped =>
      post "api/v2/torrents/stop" [("hashes", join_hashes stopped)]
  | TorrentCommand_ForceStart forced =>
      post "api/v2/torrents/setForceStart" [("hashes", join_hashes forced); ("value", "true")]
  | TorrentCommand_EndForceStart released =>
      post "api/v2/torrents/setForceStart" [("hashes", join_hashes released); ("value", "false")]
  | TorrentCommand_Add mam _ => add mam
  | TorrentCommand_Remove removed =>
      post "api/v2/torrents/delete" [("hashes", join_hashes removed); ("deleteFiles", "true")]
  | TorrentCommand_SelectAllFiles hash =>
      files ← json (read_array lib) ("api/v2/torrents/files?hash=" +:+ hash);
      post "api/v2/torrents/filePrio"
        [("hash", hash); ("id", file_ids files); ("priority", "1")]
  end%string.

Definition perform (request : Request) : Attempt QbittorrentEvent :=
  match request with
  | Request_Connect => connect
  | Request_Sync position => update ← sync position; mret (QbittorrentEvent_Synced update)
  | Request_ReadPreferences => p ← preferences; mret (QbittorrentEvent_PreferencesRead p)
  | Request_SetListenPort port =>
      _ ← set_listen_port port; mret QbittorrentEvent_ListenPortSet
  | Request_SetQueue queue => _ ← set_queue queue; mret QbittorrentEvent_QueueSet
  | Request_Command c => _ ← command c; mret QbittorrentEvent_CommandDone
  end.

(** Without a configured web UI every request fails. *)
Definition execute (client : bool) (request : Request) : Dialogue QbittorrentEvent :=
  and_then (if client then perform request else fail QbittorrentFailure_Unreachable)
    (λ outcome, Return match outcome with Ok event => event | Err reason => failed request reason end).
End client.

(** ** Reading back what was set *)

Definition field (raw : RawPreferences) (name : string) : option Scalar :=
  (if String.eqb name "listen_port" then Scalar_Int <$> raw_listen_port raw
   else if String.eqb name "queueing_enabled" then Scalar_Bool <$> raw_queueing_enabled raw
   else if String.eqb name "max_active_downloads" then Scalar_Int <$> raw_max_active_downloads raw
   else if String.eqb name "max_active_torrents" then Scalar_Int <$> raw_max_active_torrents raw
   else if String.eqb name "max_active_uploads" then Scalar_Int <$> raw_max_active_uploads raw
   else if String.eqb name "dont_count_slow_torrents"
        then Scalar_Bool <$> raw_dont_count_slow_torrents raw
   else None)%string.

(** The fields of an object are those of the preferences. *)
Definition shows (raw : RawPreferences) (object : list (string * Scalar)) : Prop :=
  Forall (λ p, field raw p.1 = Some p.2) object.

(** What the web UI documents: it keeps the fields of an object it accepted, reports
    its preferences whole, and its network interface is empty or a name. *)
Definition keeps_preferences {S} (lib : Library) (serve : S → WebRequest → S * Response) : Prop :=
  ∀ s object s' status body,
    serve s (WebRequest_Form "api/v2/app/setPreferences" [("json"%string, write_object lib object)])
      = (s', Answer status body) →
    is_success status = true →
    ∃ status' body' s'' raw,
      serve s' (WebRequest_Get "api/v2/app/preferences") = (s'', Answer status' (Some body')) ∧
      is_success status' = true ∧ read_preferences lib body' = Some raw ∧ shows raw object ∧
      (∀ i, raw_current_network_interface raw = Some i →
        i = ""%string ∨ is_some (NetworkInterface_try_new i) = true).

Definition limit_ok (limit : QueueLimit) : Prop :=
  match limit with QueueLimit_Unlimited => True | QueueLimit_At count => is_u32 count end.
Definition queue_ok (queue : QueuePreferences) : Prop :=
  limit_ok (queue_max_downloading queue) ∧ limit_ok (queue_max_active queue) ∧
  limit_ok (queue_max_seeding queue).

Lemma raw_queue_limit limit : limit_ok limit → raw_limit (queue_limit limit) = Ok limit.
Proof.
  destruct limit as [|n]; simpl; [done|]. unfold in_width. intros Hn. unfold raw_limit.
  destruct (Z.eqb_spec n (-1)); [lia|]. unfold to_u32.
  destruct (Z.leb_spec 0 n), (Z.leb_spec n u32_max); try lia. done.
Qed.

Lemma conduct_and_then {S A B} (serve : S → WebRequest → S * Response) s
    (d : Dialogue A) (k : A → Dialogue B) :
  conduct serve s (and_then d k) =
    let '(s, x) := conduct serve s d in conduct serve s (k x).
Proof.
  revert s. induction d as [x|request next IH]; intros s; simpl; [done|].
  destruct (serve s request) as [s1 response]. apply IH.
Qed.

(** What a request for the preferences comes to after an object was accepted. *)
Lemma read_after_set {S} lib kept (serve : S → WebRequest → S * Response) s object s' :
  keeps_preferences lib serve → joins lib "api/v2/app/preferences" = true →
  conduct serve s (post lib "api/v2/app/setPreferences"
                     [("json"%string, write_object lib object)]) = (s', Ok ()) →
  ∃ s'' raw,
    conduct serve s' (execute lib kept true Request_ReadPreferences) =
      (s'', match into_preferences raw with
            | Ok p => QbittorrentEvent_PreferencesRead p
            | Err e => QbittorrentEvent_PreferencesReadFailed e
            end) ∧ shows raw object ∧
    (∀ i, raw_current_network_interface raw = Some i →
        i = ""%string ∨ is_some (NetworkInterface_try_new i) = true).
Proof.
  intros Hkeeps Hjoins. unfold post, send. destruct (joins lib "api/v2/app/setPreferences");
    [|unfold fail; simpl; by intros [=]].
  simpl. destruct (serve s _) as [s1 response] eqn:Es. destruct response as [|status body]; simpl;
    [by intros [=]|]. destruct (is_success status) eqn:Hst; simpl; [|by intros [=]].
  intros [= <-]. edestruct Hkeeps as (status' & body' & s'' & raw & Hget & Hst' & Hraw & Hshows & Hi);
    [exact Es|done|].
  exists s'', raw. split; [|done].
  unfold execute, perform, preferences, json, get_text, get, send. rewrite Hjoins. simpl.
  rewrite Hget. simpl. rewrite Hst'. simpl. rewrite Hraw. simpl.
  by destruct (into_preferences raw).
Qed.

Lemma interface_reads raw :
  (∀ i, raw_current_network_interface raw = Some i →
        i = ""%string ∨ is_some (NetworkInterface_try_new i) = true) →
  ∀ q, queue raw = Ok q → ∃ p, into_preferences raw = Ok p ∧ preferences_queue p = q.
Proof.
  intros Hi q Hq. unfold into_preferences. rewrite Hq. simpl.
  destruct (raw_current_network_interface raw) as [i|]; simpl; [|by eexists].
  destruct (String.eqb_spec i "") as [->|Hne]; simpl; [by eexists|].
  destruct (Hi i eq_refl) as [->|Hsome]; [done|].
  destruct (NetworkInterface_try_new i); [|done]. simpl. by eexists.
Qed.

Lemma shown_queue raw q :
  queue_ok q → shows raw (queue_object q) → queue raw = Ok (Some q).
Proof.
  intros (Hd & Ha & Hs) Hshows. unfold shows, queue_object in Hshows.
  apply Forall_cons_1 in Hshows as [H1 [H2 [H3 [H4 [H5 _]%Forall_cons_1]%Forall_cons_1]%Forall_cons_1]%Forall_cons_1].
  cbn in H1, H2, H3, H4, H5.
  unfold queue. destruct (raw_queueing_enabled raw), (raw_max_active_downloads raw),
    (raw_max_active_torrents raw), (raw_max_active_uploads raw), (raw_dont_count_slow_torrents raw);
    try done. simplify_eq/=.
  rewrite !raw_queue_limit by done. simpl. by destruct q as [[] ? ? ? []].
Qed.

Lemma set_succeeds {S} lib kept (serve : S → WebRequest → S * Response) s s' request d event :
  perform lib kept request = (_ ← d; mret event) →
  (∀ reason, failed request reason ≠ event) →
  conduct serve s (execute lib kept true request) = (s', event) →
  conduct serve s d = (s', Ok ()).
Proof.
  intros Hd Hne. unfold execute. rewrite Hd. unfold mbind, Attempt_bind.
  rewrite !conduct_and_then. destruct (conduct serve s d) as [s1 [[]|e]]; simpl.
  - by intros [= ->].
  - intros [= _ He]. by apply Hne in He.
Qed.

(** ** Properties *)

(** with a web UI that keeps the preferences it accepts, queue settings or a
    listening port whose setting is reported done are what the next reading reports. *)
Theorem preferences_are_read_back {S} lib kept (serve : S → WebRequest → S * Response) s s' :
  keeps_preferences lib serve → joins lib "api/v2/app/preferences" = true →
  let reading := conduct serve s' (execute lib kept true Request_ReadPreferences) in
  (∀ q, queue_ok q →
     conduct serve s (execute lib kept true (Request_SetQueue q)) = (s', QbittorrentEvent_QueueSet) →
     ∃ p, reading.2 = QbittorrentEvent_PreferencesRead p ∧ preferences_queue p = Some q) ∧
  (∀ port, 1 ≤ port ≤ u16_max →
     conduct serve s (execute lib kept true (Request_SetListenPort port))
       = (s', QbittorrentEvent_ListenPortSet) →
     ∀ p, reading.2 = QbittorrentEvent_PreferencesRead p → preferences_listen_port p = Some port).
Proof.
  intros Hkeeps Hjoins reading. split.
  - intros q Hq Hset. apply (set_succeeds _ _ _ _ _ _ (set_queue lib q)) in Hset; [|done|done].
    destruct (read_after_set lib kept serve s _ s' Hkeeps Hjoins Hset) as (s'' & raw & Hread & Hshows & Hi).
    unfold reading. rewrite Hread. apply (shown_queue _ q Hq) in Hshows.
    destruct (interface_reads raw Hi _ Hshows) as (p & -> & Hp). by exists p.
  - intros port Hport Hset p.
    apply (set_succeeds _ _ _ _ _ _ (set_listen_port lib port)) in Hset; [|done|done].
    destruct (read_after_set lib kept serve s _ s' Hkeeps Hjoins Hset) as (s'' & raw & Hread & Hshows & _).
    unfold reading. rewrite Hread. apply Forall_cons_1 in Hshows as [Hshown _].
    cbn in Hshown. unfold into_preferences. destruct (raw_listen_port raw) as [n|]; simplify_eq/=.
    destruct (queue raw) as [q|]; simpl; [|done]. destruct (transpose_ok _ _); simpl; [|done].
    intros [= <-]. simpl. unfold Port_new, non_zero.
    destruct (Z.leb_spec 1 port), (Z.leb_spec port u16_max); try lia. done.
Qed.

(** A web UI that accepts one queue and one port, and keeps which it was given. *)
Definition sample_queue : QueuePreferences :=
  mkQueuePreferences Queueing_On (QueueLimit_At 5) (QueueLimit_At 50) QueueLimit_Unlimited
    IdleTorrents_NotCounted.
Definition sample_port_object : list (string * Scalar) := [("listen_port"%string, Scalar_Int 51820)].
#[global] Instance Scalar_eq_dec : EqDecision Scalar.
Proof. solve_decision. Defined.

Definition sample_raw (with_queue with_port : bool) : RawPreferences :=
  mkRawPreferences (then_some with_port 51820) (Some "wg0"%string)
    (Some with_queue) (Some (if with_queue then 5 else 3)) (Some (if with_queue then 50 else 5))
    (Some (-1)) (Some with_queue).
Definition sample_library : Library := {|
  Json := unit;
  read_preferences := λ body,
    if String.eqb body "neither" then Some (sample_raw false false)
    else if String.eqb body "queue" then Some (sample_raw true false)
    else if String.eqb body "port" then Some (sample_raw false true)
    else if String.eqb body "both" then Some (sample_raw true true) else None;
  read_sync := λ _, None; read_torrent := λ _, None; read_array := λ _, None;
  write_object := λ object,
    (if object ==? queue_object sample_queue then "set queue"
     else if object ==? sample_port_object then "set port" else "set other")%string;
  joins := λ _, true; is_mime := λ _, true;
|}.
Definition sample_web_ui (s : bool * bool) (request : WebRequest) : (bool * bool) * Response :=
  match request with
  | WebRequest_Form _ [(_, json)] =>
      if String.eqb json "set queue" then ((true, s.2), Answer 200 None)
      else if String.eqb json "set port" then ((s.1, true), Answer 200 None)
      else (s, Answer 400 None)
  | WebRequest_Get _ =>
      (s, Answer 200 (Some match s with
                           | (false, false) => "neither" | (true, false) => "queue"
                           | (false, true) => "port" | (true, true) => "both"
                           end%string))
  | _ => (s, Answer 404 None)
  end.

Lemma sample_web_ui_keeps : keeps_preferences sample_library sample_web_ui.
Proof.
  intros [q p] object s' status body. unfold sample_library, sample_web_ui.
  cbn [write_object read_preferences].
  destruct (object ==? queue_object sample_queue) eqn:Eq; [|destruct (object ==? sample_port_object) eqn:Ep];
    reflect_bools; subst; simpl; intros [= <- <- <-]; [| |done]; intros _.
  - exists 200. destruct p; eexists _, _, _;
      (split_and!; [reflexivity|reflexivity|reflexivity|repeat constructor|]);
      intros i [= <-]; right; vm_compute; reflexivity.
  - exists 200. destruct q; eexists _, _, _;
      (split_and!; [reflexivity|reflexivity|reflexivity|repeat constructor|]);
      intros i [= <-]; right; vm_compute; reflexivity.
Qed.

Lemma preferences_are_read_back_witness :
  let s := (false, true) in let s' := (true, true) in
  let kept := λ _ : Z, @None bytes in
  let set := conduct sample_web_ui s
               (execute sample_library kept true (Request_SetQueue sample_queue)) in
  let reading := conduct sample_web_ui s'
                   (execute sample_library kept true Request_ReadPreferences) in
  (keeps_preferences sample_library sample_web_ui ∧ set = (s', QbittorrentEvent_QueueSet)) ∧
  ∃ p, reading.2 = QbittorrentEvent_PreferencesRead p ∧ preferences_queue p = Some sample_queue.
Proof.
  intros s s' kept set reading.
  assert (Hset : set = (s', QbittorrentEvent_QueueSet)) by (vm_compute; reflexivity).
  split; [split; [exact sample_web_ui_keeps|exact Hset]|].
  pose proof (preferences_are_read_back sample_library kept sample_web_ui s s'
    sample_web_ui_keeps eq_refl) as [Hqueue _].
  apply Hqueue; [|exact Hset]. repeat split; vm_compute; discriminate.
Defined.
