(* ===== verification/HistoryWriter.v ===== *)
(** * The history writer

    The one writer of the stored history ([shell/history.rs]): it takes the runner's
    commands in order, holds entries until the core opens the storage, and reports
    the entries it could not record. What an entry is written with
    ([shell/describe.rs]) is its category and whether it is routine; the words of its
    summary and its JSON are the interface [Format], which [Recorded] fills; the disk and
    the clock are parameters. *)

From S2P Require Import Prelude Values Vocabulary MamApi Messages.

(** ** The event queue

    What the runner's queue holds ([shell/ingress.rs], [shell/mod.rs]): events from
    producers and timers, the completions of workers, and the request to shut down. *)
Module Ingress.

Record WorkerCompletion := mkWorkerCompletion {
  completion_event : TimedEvent;
  completion_storage_error : option string;
}.

(** A worker that panicked: [tokio::task::JoinError]. *)
Inductive JoinError := JoinError_Panicked.

Inductive Input :=
  | Input_Event (event : TimedEvent)
  | Input_Completed (result : Result WorkerCompletion JoinError)
  | Input_Shutdown.

Inductive IngressState :=
  | IngressState_Open
  | IngressState_Closing.
#[global] Instance IngressState_eq_dec : EqDecision IngressState.
Proof. solve_decision. Defined.

(** The completions among inputs; each ends the work of one tracked action. *)
Definition is_completion (input : Input) : bool :=
  match input with Input_Completed _ => true | _ => false end.
Definition completions (inputs : list Input) : nat :=
  length (List.filter is_completion inputs).

Lemma completions_app l k : completions (l ++ k) = (completions l + completions k)%nat.
Proof. unfold completions. by rewrite List.filter_app, length_app. Qed.
Lemma completions_cons i l :
  completions (i :: l) = ((if is_completion i then 1 else 0) + completions l)%nat.
Proof. unfold completions. simpl. by destruct (is_completion i). Qed.

End Ingress.
Import Ingress.

(** Entries held in memory until the core opens history storage at startup. *)
Definition BUFFER_LIMIT : Z := 1_000.

(** ** Data *)

Record HistoryEntry := mkHistoryEntry {
  entry_occurred_at : SystemTime;
  entry_processed_at : SystemTime;
  entry_event : Event;
  entry_actions : list Action;
}.

Inductive Command :=
  | Command_Record (entry : HistoryEntry)
  | Command_Open
  | Command_Trim (keep : EntryCount).

Inductive Store :=
  | Store_Buffering
  | Store_Open
  | Store_Unavailable.
#[global] Instance Store_eq_dec : EqDecision Store.
Proof. solve_decision. Defined.

Definition Store_connected (self : Store) : bool := self ==? Store_Open.

Record Lost := mkLost {
  lost_count : Z;
  lost_from : SystemTime;
  lost_until : SystemTime;
}.

(** A recorded action: its description and structured data. *)
Record ActionRecord (J : Type) := mkActionRecord {
  action_summary : string;
  action_detail : J;
}.
Arguments mkActionRecord {J}.
Arguments action_summary {J}. Arguments action_detail {J}.

(** A row of the [history] table, but for its id. *)
Record HistoryColumns := mkHistoryColumns {
  column_occurred_at_ms : Z;
  column_processed_at_ms : Z;
  column_category : string;
  column_summary : string;
  column_event : string;
  column_actions : string;
  column_routine : bool;
}.

(** The table in the order of its ids, and the largest id there ever was, which
    [AUTOINCREMENT] keeps. *)
Record HistoryTable := mkHistoryTable {
  table_rows : list (Z * HistoryColumns);
  table_sequence : Z;
}.

(** ** What an entry is written with *)

Definition MILLIS : Z := 1_000_000.
Definition millis (time : SystemTime) : Z :=
  match wall_duration_since time 0 with
  | None => 0
  | Some since => let since := since / MILLIS in if since <=? i64_max then since else i64_max
  end.

(** [describe::category] *)
Definition category (event : Event) : string :=
  (match event with
  | Event_Startup _ => "startup"
  | Event_MamPause _ | Event_Mam _ | Event_TimerExpired TimerName_Mam _ => "mam"
  | Event_Settings _ => "settings"
  | Event_History _ => "history"
  | Event_PortForwarding _ | Event_Tunnel _
  | Event_TimerExpired (TimerName_PortLease | TimerName_TunnelCheck) _ => "vpn"
  | Event_Qbittorrent _ | Event_TimerExpired TimerName_QbittorrentPoll _ => "qbittorrent"
  | Event_Registry _ => "torrents"
  | Event_Notification _
  | Event_TimerExpired (TimerName_NotificationGrace | TimerName_NotificationRetry) _ =>
      "notifications"
  end)%string.

(** [describe::is_routine] *)
Definition is_routine (event : Event) : bool :=
  match event with
  | Event_TimerExpired _ _
  | Event_PortForwarding (PortForwardingEvent_Mapped _ _ _)
  | Event_Qbittorrent (QbittorrentEvent_PreferencesRead _)
  | Event_Registry RegistryEvent_Saved
  | Event_Notification NotificationEvent_Saved
  | Event_Tunnel (TunnelEvent_ExitIpObserved _)
  | Event_Mam MamEvent_ReminderSaved
  | Event_Mam (MamEvent_Answered (Ok (MamReply_Ip _ | MamReply_UserData _ | MamReply_Bookmarks _)) _)
      => true
  | Event_Qbittorrent (QbittorrentEvent_Synced update) =>
      (sync_scope update ==? SyncScope_Changes)
        && is_empty (sync_torrents update) && is_empty (sync_removed update)
  | _ => false
  end.

(** [serde_json]'s conversions and the words of [shell/describe.rs]. *)
Record Format := mkFormat {
  Json : Type;
  action_value : Action → option Json;
  records_text : list (ActionRecord Json) → option string;
  event_text : Event → option string;
  describe_action : Action → string;
  describe_event : Event → string;
}.

(** How the disk's operations go, in the order they are tried, what their failures
    say, and the clock when results are reported. *)
Record Disk := mkDisk {
  disk_works : nat → bool;
  disk_says : nat → string;
  disk_clock : nat → ClockReading;
}.

(** ** The writer's state *)

Record Writer := mkWriter {
  store : Store;
  buffer : list HistoryEntry;
  lost : option Lost;
  table : HistoryTable;
  (** How many times the disk was used. *)
  uses : nat;
  (** The inputs sent to the runner. *)
  results : list Input;
}.

Definition start (table : HistoryTable) : Writer := mkWriter Store_Buffering [] None table 0 [].

Definition lose (lost : option Lost) (processed_at : SystemTime) : option Lost :=
  match lost with
  | Some lost =>
      Some {| lost with lost_count := wrapping_add u64_max (lost_count lost) 1;
                        lost_until := processed_at |}
  | None => Some (mkLost 1 processed_at processed_at)
  end.

(** The row [insert] writes for an entry; [None] where it has no JSON. *)
Definition columns_of (format : Format) (entry : HistoryEntry) : option HistoryColumns :=
  actions ← mapM (λ action, detail ← action_value format action;
                            Some (mkActionRecord (describe_action format action) detail))
              (entry_actions entry);
  event ← event_text format (entry_event entry);
  actions ← records_text format actions;
  Some (mkHistoryColumns (millis (entry_occurred_at entry)) (millis (entry_processed_at entry))
          (category (entry_event entry)) (describe_event format (entry_event entry))
          event actions (is_routine (entry_event entry))).

(** [AUTOINCREMENT]: ids ascend, and there is none after the largest integer. *)
Definition append (self : HistoryTable) (columns : HistoryColumns) : option HistoryTable :=
  if table_sequence self <? i64_max then
    let id := table_sequence self + 1 in
    Some (mkHistoryTable (table_rows self ++ [(id, columns)]) id)
  else None.

(** [DELETE FROM history WHERE id <=] the id at offset [keep] from the newest, which
    is null where there is none. *)
Definition delete_oldest (self : HistoryTable) (keep : Z) : HistoryTable :=
  match reverse (table_rows self) !! Z.to_nat keep with
  | Some row => {| self with table_rows := filter (λ r, row.1 < r.1) (table_rows self) |}
  | None => self
  end.

Definition count (self : HistoryTable) : EntryCount := Z.of_nat (length (table_rows self)).

Section writer.
Context (format : Format) (disk : Disk).

(** One use of the disk: whether it works. *)
Definition try_disk (self : Writer) : bool * Writer :=
  (disk_works disk (uses self), {| self with uses := S (uses self) |}).

Definition report (self : Writer) (input : Input) : Writer :=
  {| self with results := results self ++ [input] |}.

Definition complete (self : Writer) (event : HistoryEvent) (storage_error : option string)
    : Writer :=
  report self (Input_Completed (Ok (mkWorkerCompletion
    (mkTimedEvent (disk_clock disk (uses self)) (Event_History event)) storage_error))).

(** Whether the entry is in the table. *)
Definition insert (self : Writer) (entry : HistoryEntry) : bool * Writer :=
  match columns_of format entry with
  | None => (false, self)
  | Some columns =>
      let '(works, self) := try_disk self in
      match then_some works tt ≫= (λ _, append (table self) columns) with
      | Some table => (true, {| self with table := table |})
      | None => (false, self)
      end
  end.

Definition record (self : Writer) (entry : HistoryEntry) : Writer :=
  let '(inserted, self) := insert self entry in
  if inserted then
    match lost self with
    | Some gap =>
        report {| self with lost := None |}
          (Input_Event (mkTimedEvent (disk_clock disk (uses self))
            (Event_History (HistoryEvent_EntriesLost (lost_count gap) (lost_from gap)
                              (lost_until gap)))))
    | None => self
    end
  else {| self with lost := lose (lost self) (entry_processed_at entry) |}.

(** [Command::Open]; the last use of the disk is the count. *)
Definition open (self : Writer) : Writer :=
  let '(opened, self) := try_disk self in
  let '(opened, self) :=
    if opened then try_disk (fold_left record (buffer self) {| self with buffer := [] |})
    else (false, self) in
  if opened then
    complete {| self with store := Store_Open |}
      (HistoryEvent_Opened (count (table self))) None
  else
    complete {| self with store := Store_Unavailable |}
      HistoryEvent_OpenFailed (Some (disk_says disk (uses self))).

(** [Command::Trim]: the rows are gone even where the count after fails. *)
Definition trim (self : Writer) (keep : EntryCount) : Writer :=
  if Store_connected (store self) then
    let '(deleted, self) := if keep <=? i64_max then try_disk self else (false, self) in
    let '(trimmed, self) :=
      if deleted then try_disk {| self with table := delete_oldest (table self) keep |}
      else (false, self) in
    if trimmed then complete self (HistoryEvent_Trimmed (count (table self))) None
    else complete self HistoryEvent_TrimFailed (Some (disk_says disk (uses self)))
  else complete self HistoryEvent_TrimFailed (Some "history storage is not open"%string).

Definition handle (self : Writer) (command : Command) : Writer :=
  match command with
  | Command_Record entry =>
      if Store_connected (store self) then record self entry
      else if (store self ==? Store_Buffering) && (Z.of_nat (length (buffer self)) <? BUFFER_LIMIT)
      then {| self with buffer := buffer self ++ [entry] |}
      else {| self with lost := lose (lost self) (entry_processed_at entry) |}
  | Command_Open => open self
  | Command_Trim keep => trim self keep
  end.

(** The worker, until its sender is dropped. *)
Definition run (self : Writer) (commands : list Command) : Writer :=
  fold_left handle commands self.
End writer.

(** ** What becomes of the entries *)

Definition recorded (commands : list Command) : list HistoryEntry :=
  omap (λ c, match c with Command_Record entry => Some entry | _ => None end) commands.

(** The gaps reported to the core, and the one that is not yet. *)
Definition reported (inputs : list Input) : list Lost :=
  omap (λ input, match input with
                 | Input_Event (mkTimedEvent _ (Event_History (HistoryEvent_EntriesLost n f u))) =>
                     Some (mkLost n f u)
                 | _ => None
                 end) inputs.
Definition gaps (self : Writer) : list Lost := reported (results self) ++ option_list (lost self).

(** A gap counts these entries, in the order they were lost. *)
Definition accounts (gap : Lost) (entries : list HistoryEntry) : Prop :=
  lost_count gap = Z.of_nat (length entries) ∧
  list.head (entry_processed_at <$> entries) = Some (lost_from gap) ∧
  list.last (entry_processed_at <$> entries) = Some (lost_until gap).

Definition numbered (self : HistoryTable) : Prop :=
  StronglySorted (λ r s, r.1 < s.1) (table_rows self) ∧
  Forall (λ r, r.1 ≤ table_sequence self) (table_rows self) ∧ table_sequence self ≤ i64_max.

(** Of the entries handled, those in [waiting] are held, and each of the others was
    either written after the rows of [before], in order, or is in one of the gaps. *)
Definition ledger (format : Format) (before : HistoryTable) (entries waiting : list HistoryEntry)
    (self : Writer) : Prop :=
  ∃ written columns missing,
    (written ++ waiting) `sublist_of` entries ∧
    entries ≡ₚ written ++ waiting ++ concat missing ∧
    Forall2 (λ entry c, columns_of format entry = Some c) written columns ∧
    (table_rows (table self)).*2 `suffix_of` (table_rows before).*2 ++ columns ∧
    Forall2 accounts (gaps self) missing ∧
    numbered (table self).

(** ** Tables *)

Lemma append_Some t c t' : append t c = Some t' →
  table_sequence t < i64_max ∧ t' = mkHistoryTable (table_rows t ++ [(table_sequence t + 1, c)])
                                     (table_sequence t + 1).
Proof. unfold append. repeat case_match; intros; simplify_eq; reflect_bools; done. Qed.

Lemma append_numbered t c t' : numbered t → append t c = Some t' → numbered t'.
Proof.
  intros (Hs & Hb & Hm) (? & ->)%append_Some. unfold numbered. simpl. split_and!; [| |lia].
  - apply StronglySorted_app. split_and!; [|done|by repeat constructor].
    intros r s Hr ->%list_elem_of_singleton. apply list_elem_of_In in Hr.
    rewrite List.Forall_forall in Hb. apply Hb in Hr. simpl. lia.
  - apply Forall_app. split; [|by repeat constructor].
    eapply List.Forall_impl; [|exact Hb]. simpl. lia.
Qed.

(** A trim keeps exactly the newest [keep] rows. *)
Lemma delete_oldest_rows t keep : numbered t →
  table_rows (delete_oldest t keep) =
    drop (length (table_rows t) - Z.to_nat keep)%nat (table_rows t).
Proof.
  intros (Hs & _). unfold delete_oldest.
  destruct (reverse (table_rows t) !! Z.to_nat keep) as [row|] eqn:E; simpl.
  - rewrite reverse_lookup_Some in E. destruct E as [E Hl].
    replace (length (table_rows t) - Z.to_nat keep)%nat
      with (S (length (table_rows t) - S (Z.to_nat keep)))%nat by lia.
    revert E. generalize (length (table_rows t) - S (Z.to_nat keep))%nat as n. clear Hl.
    induction Hs as [|r rows Hs IH Hr]; intros n E; [done|].
    destruct n as [|n]; simpl in E |- *; rewrite filter_cons_False.
    + injection E as ->. by apply filter_all.
    + injection E as ->. lia.
    + by apply IH.
    + eapply Forall_lookup_1 in E; [|exact Hr]. simpl in E. lia.
  - rewrite lookup_ge_None in E. rewrite length_reverse in E.
    replace (_ - _)%nat with 0%nat by lia. done.
Qed.

Lemma delete_oldest_numbered t keep : numbered t → numbered (delete_oldest t keep).
Proof.
  intros Hn. unfold delete_oldest. case_match; [|done]. destruct Hn as (Hs & Hb & Hm).
  unfold numbered. simpl. split_and!; [by apply StronglySorted_kept|by apply Forall_kept|done].
Qed.

(** ** Steps of the ledger *)

Section ledger.
Context (format : Format) (disk : Disk) (before : HistoryTable) (entries : list HistoryEntry).
Context (Hfew : Z.of_nat (length entries) ≤ u64_max).
Implicit Types (w : Writer) (e : HistoryEntry).
Local Abbreviation ledger_of := (ledger format before entries).

Lemma reported_app l k : reported (l ++ k) = reported l ++ reported k.
Proof. unfold reported. apply omap_app. Qed.

Lemma accounts_one e : accounts (mkLost 1 (entry_processed_at e) (entry_processed_at e)) [e].
Proof. done. Qed.

Lemma accounts_more gap es e :
  accounts gap es → Z.of_nat (length es) < u64_max →
  accounts {| gap with lost_count := wrapping_add u64_max (lost_count gap) 1;
                       lost_until := entry_processed_at e |} (es ++ [e]).
Proof.
  intros (Hn & Hf & Hu) Hl. unfold accounts. simpl. split_and!.
  - rewrite length_app, Hn. simpl. rewrite wrapping_add_small; lia.
  - rewrite fmap_app. destruct es; [done|]. by simpl in *.
  - rewrite fmap_app. simpl. by rewrite last_snoc.
Qed.

(** A ledger is of the table and the gaps alone. *)
Lemma same_ledger waiting w w' :
  table w' = table w → gaps w' = gaps w → ledger_of waiting w → ledger_of waiting w'.
Proof. unfold ledger. by intros -> ->. Qed.

(** An entry that waited and is lost. *)
Lemma lose_ledger w e held rest :
  ledger_of (held ++ e :: rest) w →
  ledger_of (held ++ rest) {| w with lost := lose (lost w) (entry_processed_at e) |}.
Proof.
  intros (written & columns & missing & Hs & Hp & Hc & Hr & Hg & Hn).
  unfold gaps in Hg. destruct (lost w) as [gap|] eqn:E; simpl in Hg.
  - apply Forall2_app_inv_l in Hg as (old & [|es []] & Hold & Hgap & ->);
      inversion Hgap as [|? ? ? ? Hes Hnil]; [|inversion Hnil]. subst.
    exists written, columns, (old ++ [es ++ [e]]). rewrite concat_app in *. simpl in *.
    split_and!; [| |done|done| |done].
    + etrans; [|exact Hs]. apply sublist_app; [done|]. apply sublist_app; [done|]. by constructor.
    + rewrite Hp. rewrite !app_nil_r. solve_Permutation.
    + unfold gaps. simpl. apply Forall2_app; [done|]. constructor; [|constructor].
      apply accounts_more; [done|]. apply Permutation_length in Hp.
      repeat progress (rewrite ?length_app in Hp; simpl in Hp). lia.
  - rewrite app_nil_r in Hg.
    exists written, columns, (missing ++ [[e]]). rewrite concat_app. simpl.
    split_and!; [| |done|done| |done].
    + etrans; [|exact Hs]. apply sublist_app; [done|]. apply sublist_app; [done|]. by constructor.
    + rewrite Hp. solve_Permutation.
    + unfold gaps. simpl. apply Forall2_app; [done|]. constructor; [apply accounts_one|constructor].
Qed.

Lemma append_ledger w e rest c t :
  columns_of format e = Some c → append (table w) c = Some t →
  ledger_of (e :: rest) w → ledger_of rest {| w with table := t |}.
Proof.
  intros Hc Ht (written & columns & missing & Hs & Hp & Hcs & Hr & Hg & Hn).
  exists (written ++ [e]), (columns ++ [c]), missing. rewrite <-!app_assoc.
  split_and!; [done|done|by apply Forall2_app; [|repeat constructor]| |done|by eapply append_numbered].
  apply append_Some in Ht as (_ & ->). simpl. rewrite fmap_app, app_assoc.
  by apply suffix_app.
Qed.

Lemma insert_cases w e :
  (∃ c t n, columns_of format e = Some c ∧ append (table w) c = Some t ∧
     insert format disk w e = (true, {| w with uses := n; table := t |})) ∨
  ∃ n, insert format disk w e = (false, {| w with uses := n |}).
Proof.
  unfold insert. destruct (columns_of format e) as [c|] eqn:Hc;
    [|right; exists (uses w); by destruct w].
  unfold try_disk. destruct (disk_works disk (uses w)); simpl; [|by right; eexists].
  destruct (append (table w) c) as [t|] eqn:Ht; [|by right; eexists].
  left. by eexists _, _, _.
Qed.

Lemma record_ledger w e rest :
  ledger_of (e :: rest) w → ledger_of rest (record format disk w e).
Proof.
  intros Hl. unfold record.
  destruct (insert_cases w e) as [(c & t & n & Hc & Ht & ->)|(n & ->)].
  - eapply append_ledger in Hl; [|done..]. simpl.
    destruct (lost w) as [gap|] eqn:E; (eapply same_ledger; [..|exact Hl]); [done| |done|done].
    unfold gaps. simpl. rewrite reported_app, app_nil_r. by destruct gap.
  - apply (lose_ledger _ _ []) in Hl. by eapply same_ledger in Hl.
Qed.

Lemma record_all_ledger waiting w :
  ledger_of waiting w → ledger_of [] (fold_left (record format disk) waiting w).
Proof.
  revert w. induction waiting as [|e rest IH]; intros w Hl; simpl; [done|].
  by apply IH, record_ledger.
Qed.

Lemma complete_ledger waiting w event error :
  ledger_of waiting w → ledger_of waiting (complete disk w event error).
Proof.
  apply same_ledger; [done|]. unfold gaps. simpl. rewrite reported_app. simpl.
  by rewrite app_nil_r.
Qed.

Lemma trim_ledger waiting w keep :
  ledger_of waiting w → ledger_of waiting {| w with table := delete_oldest (table w) keep |}.
Proof.
  intros (written & columns & missing & Hs & Hp & Hc & Hr & Hg & Hn).
  exists written, columns, missing.
  split_and!; [done|done|done| |done|by apply delete_oldest_numbered].
  simpl. etrans; [|exact Hr]. rewrite delete_oldest_rows by done.
  eexists. rewrite fmap_drop. symmetry. apply take_drop.
Qed.
End ledger.

(** ** The run *)

Section run.
Context (format : Format) (disk : Disk).

Lemma ledger_more before entries waiting e w :
  ledger format before entries waiting w →
  ledger format before (entries ++ [e]) (waiting ++ [e]) w.
Proof.
  intros (written & columns & missing & Hs & Hp & Hrest).
  exists written, columns, missing. split_and!; [| |apply Hrest..].
  - rewrite app_assoc. by apply sublist_app.
  - rewrite Hp. solve_Permutation.
Qed.

Lemma record_frame w e :
  buffer (record format disk w e) = buffer w ∧ store (record format disk w e) = store w.
Proof.
  unfold record. destruct (insert_cases format disk w e) as [(c & t & n & _ & _ & ->)|(n & ->)].
  - simpl. by destruct (lost w).
  - done.
Qed.

Lemma record_all_frame waiting w :
  buffer (fold_left (record format disk) waiting w) = buffer w ∧
  store (fold_left (record format disk) waiting w) = store w.
Proof.
  revert w. induction waiting as [|e rest IH]; intros w; simpl; [done|].
  destruct (IH (record format disk w e)) as [-> ->]. apply record_frame.
Qed.

Definition settled (self : Writer) : Prop := store self = Store_Open → buffer self = [].

Lemma open_ledger before entries w :
  Z.of_nat (length entries) ≤ u64_max →
  ledger format before entries (buffer w) w →
  ledger format before entries (buffer (open format disk w)) (open format disk w) ∧
  settled (open format disk w).
Proof.
  intros Hfew Hl. unfold open, try_disk. destruct (disk_works disk (uses w)); simpl.
  - set (w1 := {| store := store w; buffer := [] |}).
    pose proof (record_all_ledger format disk before entries Hfew (buffer w) w1) as Hr.
    pose proof (record_all_frame (buffer w) w1) as [Hb _].
    specialize (Hr ltac:(by eapply same_ledger; [..|exact Hl])).
    set (w2 := fold_left _ _ w1) in *. change (buffer w1) with (@nil HistoryEntry) in Hb.
    destruct (disk_works disk (uses w2)); (split; [|intros _; exact Hb || done]); simpl;
      rewrite Hb; apply complete_ledger; by eapply same_ledger; [..|exact Hr].
  - split; [|done]. apply complete_ledger. by eapply same_ledger; [..|exact Hl].
Qed.

Lemma trim_whole_ledger before entries waiting w keep :
  ledger format before entries waiting w → ledger format before entries waiting (trim disk w keep).
Proof.
  intros Hl. unfold trim, try_disk.
  repeat (case_match; simplify_eq/=); apply complete_ledger;
    try (by eapply same_ledger; [..|exact Hl]);
    (eapply same_ledger; [..|apply trim_ledger, Hl]; done).
Qed.

Lemma trim_frame w keep : buffer (trim disk w keep) = buffer w ∧ store (trim disk w keep) = store w.
Proof. unfold trim, try_disk. by repeat (case_match; simplify_eq/=). Qed.

Lemma handle_ledger before entries command w :
  Z.of_nat (length (entries ++ recorded [command])) ≤ u64_max → settled w →
  ledger format before entries (buffer w) w →
  ledger format before (entries ++ recorded [command]) (buffer (handle format disk w command))
    (handle format disk w command) ∧ settled (handle format disk w command).
Proof.
  intros Hfew Hset Hl. destruct command as [e| |keep]; simpl in *;
    rewrite ?app_nil_r in *; [|by apply open_ledger|].
  - apply (ledger_more _ _ _ e) in Hl. unfold Store_connected.
    assert (Hlose : ledger format before (entries ++ [e]) (buffer w)
                      {| w with lost := lose (lost w) (entry_processed_at e) |}).
    { rewrite <-(app_nil_r (buffer w)). by apply lose_ledger. }
    destruct (store w) eqn:E; simpl; [case_match| |]; simpl.
    + split; [by eapply same_ledger; [..|exact Hl]|]. by intros [=].
    + split; [done|]. by intros [=].
    + rewrite (Hset E) in *. destruct (record_frame w e) as [-> Hst]. rewrite (Hset E).
      split; [by apply record_ledger|]. intros _. destruct (record_frame w e) as [-> _]. by apply Hset.
    + split; [done|]. by intros [=].
  - destruct (trim_frame w keep) as [-> Hst]. split; [by apply trim_whole_ledger|].
    unfold settled. destruct (trim_frame w keep) as [-> ->]. done.
Qed.

Lemma run_snoc w commands command :
  run format disk w (commands ++ [command]) = handle format disk (run format disk w commands) command.
Proof. apply fold_left_app. Qed.

Lemma recorded_app l k : recorded (l ++ k) = recorded l ++ recorded k.
Proof. apply omap_app. Qed.

Lemma run_ledger before commands :
  numbered before → Z.of_nat (length (recorded commands)) ≤ u64_max →
  ledger format before (recorded commands) (buffer (run format disk (start before) commands))
    (run format disk (start before) commands) ∧ settled (run format disk (start before) commands).
Proof.
  intros Hn. induction commands as [|c commands IH] using rev_ind; intros Hfew.
  - split; [|done]. exists [], [], []. simpl. split_and!; try done. by rewrite app_nil_r.
  - rewrite run_snoc, recorded_app in *. apply handle_ledger; [done| |];
      apply IH; rewrite length_app in Hfew; lia.
Qed.
End run.

(** A disk and a format for examples: uses of the disk for which [fails] holds fail. *)
Definition sample_disk (fails : nat → bool) : Disk :=
  mkDisk (λ n, negb (fails n)) (λ _, "disk I/O error"%string)
    (λ n, mkClockReading (from_secs (Z.of_nat n)) (from_secs (Z.of_nat n))).
Definition sample_format : Format :=
  mkFormat unit (λ _, Some ()) (λ _, Some "[]"%string) (λ _, Some "{}"%string)
    (λ _, "action"%string) (λ _, "event"%string).
Definition sample_entry (seconds : Z) : HistoryEntry :=
  mkHistoryEntry (from_secs seconds) (from_secs seconds)
    (Event_TimerExpired TimerName_Mam seconds) [].

(** ** Properties *)

(** C10: every entry the writer was given, whatever the disk did, is accounted for
    exactly once: it was written after the rows there were, in processing order, it is
    held until the storage opens, or a gap counts it, with the times of the first and
    the last entry lost. The rows ascend by id, and only the oldest ever go. *)
Theorem every_entry_is_accounted_for format disk before commands :
  numbered before → Z.of_nat (length (recorded commands)) ≤ u64_max →
  let final := run format disk (start before) commands in
  ∃ written columns missing,
    (written ++ buffer final) `sublist_of` recorded commands ∧
    recorded commands ≡ₚ written ++ buffer final ++ concat missing ∧
    Forall2 (λ entry c, columns_of format entry = Some c) written columns ∧
    (table_rows (table final)).*2 `suffix_of` (table_rows before).*2 ++ columns ∧
    Forall2 accounts (gaps final) missing ∧
    numbered (table final).
Proof. intros Hn Hfew. by apply (run_ledger format disk before commands). Qed.

(** Three entries wait, the second of them cannot be written, and a trim follows. *)
Lemma every_entry_is_accounted_for_witness :
  let commands := [Command_Record (sample_entry 1); Command_Record (sample_entry 2);
                   Command_Record (sample_entry 3); Command_Open; Command_Trim 1] in
  let final := run sample_format (sample_disk (λ n, bool_decide (n = 2%nat)))
                 (start (mkHistoryTable [] 0)) commands in
  (numbered (mkHistoryTable [] 0) ∧ Z.of_nat (length (recorded commands)) ≤ u64_max) ∧
  length (table_rows (table final)) = 1%nat ∧
  ∃ written columns missing,
    (written ++ buffer final) `sublist_of` recorded commands ∧
    recorded commands ≡ₚ written ++ buffer final ++ concat missing ∧
    Forall2 (λ entry c, columns_of sample_format entry = Some c) written columns ∧
    (table_rows (table final)).*2 `suffix_of` [] ++ columns ∧
    Forall2 accounts (gaps final) missing ∧
    numbered (table final).
Proof.
  intros commands final.
  assert (Hn : numbered (mkHistoryTable [] 0)) by (repeat constructor; done).
  assert (Hfew : Z.of_nat (length (recorded commands)) ≤ u64_max) by (vm_compute; discriminate).
  split; [by split|]. split; [vm_compute; reflexivity|].
  exact (every_entry_is_accounted_for sample_format _ _ commands Hn Hfew).
Defined.

(** ** Answers *)

(** The commands that are answered with a completion. *)
Definition is_tracked (command : Command) : bool :=
  match command with Command_Record _ => false | _ => true end.

Section answers.
Context (format : Format) (disk : Disk).

Definition quiet (inputs : list Input) : Prop := Forall (λ i, is_completion i = false) inputs.

Lemma quiet_completions l : quiet l → completions l = 0%nat.
Proof. induction 1 as [|i l Hi _ IH]; [done|]. by rewrite completions_cons, Hi, IH. Qed.

Lemma record_reports w e :
  ∃ reports, results (record format disk w e) = results w ++ reports ∧ quiet reports.
Proof.
  unfold record. destruct (insert_cases format disk w e) as [(c & t & n & _ & _ & ->)|(n & ->)].
  - simpl. destruct (lost w); simpl.
    + eexists. split; [reflexivity|by repeat constructor].
    + exists []. split; [by rewrite app_nil_r|constructor].
  - exists []. split; [by rewrite app_nil_r|constructor].
Qed.

Lemma record_all_reports waiting w :
  ∃ reports, results (fold_left (record format disk) waiting w) = results w ++ reports ∧ quiet reports.
Proof.
  revert w. induction waiting as [|e rest IH]; intros w; simpl.
  - exists []. split; [by rewrite app_nil_r|constructor].
  - destruct (IH (record format disk w e)) as (r1 & -> & H1).
    destruct (record_reports w e) as (r2 & -> & H2).
    exists (r2 ++ r1). rewrite app_assoc. split; [done|by apply Forall_app].
Qed.

(** What the completion of a command says. *)
Definition completes (command : Command) (event : Event) : Prop :=
  match command with
  | Command_Record _ => False
  | Command_Open =>
      event = Event_History HistoryEvent_OpenFailed ∨
      ∃ n, event = Event_History (HistoryEvent_Opened n)
  | Command_Trim _ =>
      event = Event_History HistoryEvent_TrimFailed ∨
      ∃ n, event = Event_History (HistoryEvent_Trimmed n)
  end.

(** A command to open or to trim is answered last, after reports of lost entries. *)
Lemma handle_tracked w command :
  is_tracked command = true →
  ∃ reports at_ event error,
    results (handle format disk w command) =
      results w ++ reports ++ [Input_Completed (Ok (mkWorkerCompletion (mkTimedEvent at_ event) error))] ∧
    quiet reports ∧ completes command event.
Proof.
  destruct command as [e| |keep]; simpl; [done|intros _..].
  - unfold open, try_disk. destruct (disk_works disk (uses w)); simpl.
    + match goal with |- context [fold_left _ _ ?w1] =>
        destruct (record_all_reports (buffer w) w1) as (reports & Hr & Hq) end.
      case_match; simpl; rewrite Hr; simpl; rewrite <-app_assoc; exists reports; eexists _, _, _;
        (split_and!; [reflexivity|done|eauto]).
    + exists []. eexists _, _, _. split_and!; [reflexivity|constructor|eauto].
  - exists []. unfold trim, try_disk.
    repeat (case_match; simplify_eq/=); eexists _, _, _; (split_and!; [reflexivity|constructor|eauto]).
Qed.

(** A command to open or to trim is completed once, and no other command is. *)
Lemma handle_completions w command :
  completions (results (handle format disk w command)) =
    (completions (results w) + if is_tracked command then 1 else 0)%nat.
Proof.
  destruct (is_tracked command) eqn:E.
  - destruct (handle_tracked w command E) as (reports & at_ & event & error & -> & Hq & _).
    rewrite !completions_app, (quiet_completions reports) by done. done.
  - destruct command as [e| |]; try done. simpl.
    repeat case_match; simpl; try lia.
    destruct (record_reports w e) as (reports & -> & Hq).
    rewrite completions_app, (quiet_completions reports) by done. done.
Qed.
End answers.
