(* ===== verification/HistoryCount.v ===== *)
(** * The core's count of the history

    The core and the history writer together: the core's turns record an entry each
    and ask for the storage to be opened and trimmed, the writer takes the commands in
    order and reports to the core, and both go at their own pace. While the disk works
    the core's count is the number of rows. *)

From S2P Require Import Prelude Values Vocabulary MamApi Messages History HistoryWriter.
Import Ingress.

(** ** The two sides *)

Record Joint := mkJoint {
  core_side : HistoryState;
  steps : Step;
  writer_side : Writer;
  commands : list Command;
}.

(** The core handles an event of another part, with which startup may ask to open the
    storage; it handles the writer's next report; or the writer takes a command. The
    limit is the one in the settings at the turn. *)
Inductive Move :=
  | Move_Turn (entry : HistoryEntry) (opening : bool) (limit : option HistoryLimit)
  | Move_Deliver (entry : HistoryEntry) (limit : option HistoryLimit)
  | Move_Write.

Definition command_of (action : Action) : option Command :=
  match action with
  | Action_OpenHistory => Some Command_Open
  | Action_TrimHistory keep => Some (Command_Trim keep)
  | _ => None
  end.

(** A turn of the core as far as history goes: the step is counted, the event handled,
    the entry counted; then the entry is recorded and the actions are dispatched. *)
Definition turn (self : Joint) (entry : HistoryEntry) (limit : option HistoryLimit)
    (react : HistoryState → Step → HistoryState * list Action) : Joint :=
  let step := Step_next (steps self) in
  let '(core, opened) := react (core_side self) step in
  let '(core, trimmed) := after_step core step limit in
  {| self with core_side := core; steps := step;
               commands := commands self ++ Command_Record entry ::
                             omap command_of (opened ++ trimmed) |}.

Definition input_event (input : Input) : option Event :=
  match input with
  | Input_Event event | Input_Completed (Ok (mkWorkerCompletion event _)) =>
      Some (timed_event event)
  | _ => None
  end.

(** Storage opens once, so its history is opened only while it is closed. *)
Definition open_once (opening : bool) (self : HistoryState) (step : Step)
    : HistoryState * list Action :=
  if opening && (self ==? HistoryState_Closed) then History.open self step else (self, []).

Definition take_report (input : Input) (self : HistoryState) (step : Step)
    : HistoryState * list Action :=
  match input_event input with
  | Some (Event_History event) => (History.handle self step event, [])
  | _ => (self, [])
  end.

Definition move (format : Format) (disk : Disk) (self : Joint) (m : Move) : Joint :=
  match m with
  | Move_Turn entry opening limit => turn self entry limit (open_once opening)
  | Move_Deliver entry limit =>
      match results (writer_side self) with
      | [] => self
      | input :: rest =>
          let writer := writer_side self in
          let writer := {| writer with results := rest |} in
          turn {| self with writer_side := writer |} entry limit (take_report input)
      end
  | Move_Write =>
      match commands self with
      | [] => self
      | command :: rest =>
          {| self with writer_side := HistoryWriter.handle format disk (writer_side self) command;
                       commands := rest |}
      end
  end.

Definition moves (format : Format) (disk : Disk) (self : Joint) (l : list Move) : Joint :=
  fold_left (move format disk) l self.

Definition begin_joint (before : HistoryTable) : Joint :=
  mkJoint HistoryState_Closed Step_ZERO (start before) [].

Definition limit_ok (limit : option HistoryLimit) : Prop :=
  ∀ l, limit = Some l → 100 ≤ l ≤ 1_000_000.
Definition move_ok (m : Move) : Prop :=
  match m with
  | Move_Turn _ _ limit | Move_Deliver _ limit => limit_ok limit
  | Move_Write => True
  end.

(** ** The writer while the disk works *)

Definition untracked (l : list Command) : Prop := Forall (λ c, is_tracked c = false) l.
Definition gap_report (input : Input) : Prop :=
  ∃ at_ n from until, input =
    Input_Event (mkTimedEvent at_ (Event_History (HistoryEvent_EntriesLost n from until))).

Section works.
Context (format : Format) (disk : Disk).
Context (Hdisk : ∀ n, disk_works disk n = true).
Context (Hformat : ∀ e, is_some (columns_of format e) = true).

Lemma record_works w e :
  table_sequence (table w) < i64_max →
  ∃ n c gaps,
    record format disk w e =
      mkWriter (store w) (buffer w) None
        (mkHistoryTable (table_rows (table w) ++ [(table_sequence (table w) + 1, c)])
           (table_sequence (table w) + 1)) n (results w ++ gaps) ∧
    Forall gap_report gaps ∧ (lost w = None → gaps = []).
Proof.
  intros Hs. unfold record, insert. specialize (Hformat e).
  destruct (columns_of format e) as [c|]; [|done].
  unfold try_disk. rewrite Hdisk. unfold append. simpl.
  destruct (Z.ltb_spec (table_sequence (table w)) i64_max); [|lia]. simpl.
  exists (S (uses w)), c. destruct (lost w) as [gap|] eqn:E; simpl.
  - eexists [_]. split_and!; [done| |done]. constructor; [|constructor]. by eexists _, _, _, _.
  - exists []. rewrite app_nil_r. by split_and!.
Qed.

Lemma record_all_works waiting w :
  table_sequence (table w) + Z.of_nat (length waiting) ≤ i64_max →
  ∃ n rows gaps,
    let k := length waiting in
    fold_left (record format disk) waiting w =
      mkWriter (store w) (buffer w) (match waiting with [] => lost w | _ => None end)
        (mkHistoryTable (table_rows (table w) ++ rows) (table_sequence (table w) + Z.of_nat k))
        n (results w ++ gaps) ∧
    length rows = k ∧ Forall gap_report gaps.
Proof.
  revert w. induction waiting as [|e rest IH]; intros w Hs; simpl.
  - exists (uses w), [], []. rewrite !app_nil_r, Z.add_0_r. destruct w as [? ? ? []]. by split_and!.
  - simpl length in Hs.
    destruct (record_works w e ltac:(lia)) as (n & c & gaps & -> & Hgaps & _).
    match goal with |- context [fold_left _ rest ?w1] => specialize (IH w1) end.
    destruct (IH ltac:(simpl; lia)) as (n' & rows & gaps' & -> & Hl & Hgaps').
    simpl. eexists n', (_ :: rows), (gaps ++ gaps').
    rewrite <-!app_assoc. simpl. split_and!; [|lia|by apply Forall_app].
    f_equal; [by destruct rest|f_equal; lia].
Qed.

(** The writer with [n] entries on their way to it, and room for [bound] ids. *)
Definition fits (bound : Z) (w : Writer) (n : nat) : Prop :=
  count (table w) ≤ table_sequence (table w) ∧
  table_sequence (table w) + Z.of_nat (length (buffer w) + n) ≤ bound ∧
  match store w with
  | Store_Buffering => lost w ≠ None → buffer w ≠ []
  | Store_Open => buffer w = [] ∧ lost w = None
  | Store_Unavailable => False
  end.

Lemma hold_entry bound w e n :
  fits bound w (S n) → store w = Store_Buffering →
  let w' := HistoryWriter.handle format disk w (Command_Record e) in
  fits bound w' n ∧ store w' = Store_Buffering ∧ table w' = table w ∧ results w' = results w.
Proof.
  intros (Hc & Hb & Hs) E. simpl. unfold Store_connected. rewrite E in *. simpl.
  case_match eqn:Hfull; simpl; (split; [unfold fits; simpl|done]).
  - rewrite length_app. simpl. split_and!; [done|lia|]. intros _ Hn. by apply (f_equal length) in Hn; rewrite length_app in Hn; simpl in Hn; lia.
  - split_and!; [done|lia|]. intros _ Hn. rewrite Hn in Hfull. done.
Qed.

Lemma write_entry bound w e n :
  bound ≤ i64_max → fits bound w (S n) → store w = Store_Open →
  let w' := HistoryWriter.handle format disk w (Command_Record e) in
  fits bound w' n ∧ store w' = Store_Open ∧ count (table w') = count (table w) + 1 ∧
  results w' = results w.
Proof.
  intros Hi (Hc & Hb & Hs) E. simpl. unfold Store_connected. rewrite E in *. simpl.
  destruct Hs as [Hbuf Hlost]. rewrite Hbuf in Hb. simpl in Hb.
  destruct (record_works w e ltac:(lia)) as (m & c & gaps & -> & _ & Hg).
  rewrite (Hg Hlost), app_nil_r. unfold fits, count in *. simpl.
  rewrite E, Hbuf, length_app. simpl. split_and!; [lia|lia|done|done|done|lia|done].
Qed.

Lemma open_store bound w n :
  bound ≤ i64_max → fits bound w n → store w = Store_Buffering →
  let w' := HistoryWriter.handle format disk w Command_Open in
  fits bound w' n ∧ store w' = Store_Open ∧
  ∃ gaps i, results w' = results w ++ gaps ++ [i] ∧ Forall gap_report gaps ∧
    input_event i = Some (Event_History (HistoryEvent_Opened (count (table w')))).
Proof.
  intros Hi (Hc & Hb & Hs) E. simpl. unfold HistoryWriter.open, try_disk. rewrite Hdisk. simpl.
  match goal with |- context [fold_left _ _ ?w1] =>
    destruct (record_all_works (buffer w) w1 ltac:(simpl; lia)) as (m & rows & gaps & -> & Hl & Hg)
  end.
  simpl. rewrite Hdisk. simpl. unfold fits, count in *. simpl.
  rewrite E in Hs. rewrite length_app, Hl. split_and!; [lia|lia|done| |done|].
  - destruct (buffer w); [|done]. destruct (lost w); [|done]. by destruct Hs.
  - exists gaps. eexists. rewrite <-app_assoc. by split_and!.
Qed.

Lemma trim_store bound w n keep :
  keep ≤ i64_max → fits bound w n → store w = Store_Open →
  let w' := HistoryWriter.handle format disk w (Command_Trim keep) in
  fits bound w' n ∧ store w' = Store_Open ∧
  ∃ i, results w' = results w ++ [i] ∧
    input_event i = Some (Event_History (HistoryEvent_Trimmed (count (table w')))).
Proof.
  intros Hk (Hc & Hb & Hs) E. simpl. unfold HistoryWriter.trim, Store_connected, try_disk.
  rewrite E in *. simpl. destruct (Z.leb_spec keep i64_max); [|lia].
  rewrite Hdisk. simpl. rewrite Hdisk. simpl.
  assert (Hshort : count (delete_oldest (table w) keep) ≤ count (table w) ∧
                   table_sequence (delete_oldest (table w) keep) = table_sequence (table w)).
  { unfold count, delete_oldest. case_match; simpl; [|lia].
    split; [|done]. apply inj_le, length_filter. }
  destruct Hshort as [Hle Hseq]. split_and!; [|done|].
  - unfold fits. simpl. split_and!; [lia|lia|apply Hs..].
  - by eexists.
Qed.
End works.

(** ** Agreement *)

(** Where the two sides are together: with [rows] stored and [step] steps counted,
    what the core holds, the writer's state, the commands and the reports under way. *)
Inductive phase (rows : Z) (step : Step) :
    HistoryState → Store → list Command → list Input → Prop :=
  | phase_closed l : untracked l →
      phase rows step HistoryState_Closed Store_Buffering l []
  | phase_asked r l k : untracked l → untracked k → Z.of_nat (length k) = step - r →
      phase rows step (HistoryState_Opening r) Store_Buffering (l ++ Command_Open :: k) []
  | phase_opened r l c gaps i : untracked l → Forall gap_report gaps →
      input_event i = Some (Event_History (HistoryEvent_Opened c)) →
      r ≤ step → 0 ≤ c → rows + Z.of_nat (length l) = c + (step - r) →
      phase rows step (HistoryState_Opening r) Store_Open l (gaps ++ [i])
  | phase_idle l : untracked l →
      phase rows step (HistoryState_Open (rows + Z.of_nat (length l)) Trim_Idle) Store_Open l []
  | phase_trimming retained r l keep k : untracked l → untracked k →
      keep ≤ i64_max → Z.of_nat (length k) = step - r →
      phase rows step (HistoryState_Open retained (Trim_Pending r)) Store_Open
        (l ++ Command_Trim keep :: k) []
  | phase_trimmed retained r l c i : untracked l →
      input_event i = Some (Event_History (HistoryEvent_Trimmed c)) →
      r ≤ step → 0 ≤ c → rows + Z.of_nat (length l) = c + (step - r) →
      phase rows step (HistoryState_Open retained (Trim_Pending r)) Store_Open l [i].

Lemma untracked_more l e : untracked l → untracked (l ++ [Command_Record e]).
Proof. intros. apply Forall_app. by repeat constructor. Qed.

(** A step counts its entry, asks for a trim or not, and the entry is on its way. *)
Lemma phase_step rows step h st l res e limit :
  limit_ok limit → 0 ≤ rows → rows + Z.of_nat (length l) < u64_max →
  phase rows step h st l res →
  let '(h', trimmed) := after_step h (step + 1) limit in
  phase rows (step + 1) h' st (l ++ Command_Record e :: omap command_of trimmed) res.
Proof.
  intros Hlimit Hr Hroom Hp. destruct Hp as [l Hl|r l k Hl Hk Hn|r l c gaps i Hl Hg Hi Hs Hc Hn|
    l Hl|retained r l keep k Hl Hk Hkeep Hn|retained r l c i Hl Hi Hs Hc Hn]; simpl.
  - constructor. by apply untracked_more.
  - rewrite <-app_assoc. simpl. constructor; [done|by apply untracked_more|].
    rewrite length_app. simpl. lia.
  - eapply phase_opened; [by apply untracked_more|done..|lia|done|].
    rewrite length_app. simpl. lia.
  - assert (Hplus : EntryCount_plus (rows + Z.of_nat (length l)) 1 =
                    rows + Z.of_nat (length (l ++ [Command_Record e]))).
    { unfold EntryCount_plus, saturating_add. rewrite length_app. simpl. lia. }
    rewrite Hplus. destruct limit as [limit|]; simpl;
      [destruct (HistoryLimit_is_exceeded_by _ _)|]; simpl; try by constructor; apply untracked_more.
    replace (l ++ [Command_Record e; Command_Trim (HistoryLimit_trim_target limit)])
      with ((l ++ [Command_Record e]) ++ [Command_Trim (HistoryLimit_trim_target limit)])
      by by rewrite <-app_assoc.
    apply phase_trimming; [by apply untracked_more|by constructor| |simpl; lia].
    specialize (Hlimit _ eq_refl). unfold HistoryLimit_trim_target, i64_max.
    apply Z.div_le_upper_bound; lia.
  - destruct limit; simpl; rewrite <-app_assoc; simpl;
      (constructor; [done|by apply untracked_more|done|rewrite length_app; simpl; lia]).
  - destruct limit; simpl;
      (eapply phase_trimmed; [by apply untracked_more|done|lia|done|rewrite length_app; simpl; lia]).
Qed.

(** The core takes a report. *)
Lemma phase_report rows step h st l i res :
  0 ≤ rows → rows + Z.of_nat (length l) < u64_max → 0 ≤ step → step + 1 < u64_max →
  phase rows step h st l (i :: res) →
  ∃ h', take_report i h (step + 1) = (h', []) ∧ phase rows step h' st l res.
Proof.
  intros Hr Hroom H0 Hstep Hp. inversion Hp as [| |r l' c gaps j Hl Hg Hj Hs Hc Hn| | |
    retained r l' c j Hl Hj Hs Hc Hn]; subst.
  - destruct gaps as [|gap gaps]; simplify_eq/=.
    + unfold take_report. rewrite Hj. eexists. split; [reflexivity|].
      unfold History.handle, EntryCount_plus, saturating_add, Step_strictly_after, saturating_sub.
      replace (Z.min _ _) with (rows + Z.of_nat (length l)) by lia. by constructor.
    + inversion Hg as [|? ? (at_ & n & from & until & ->) Hg']. subst.
      eexists. split; [reflexivity|]. by eapply phase_opened.
  - unfold take_report. rewrite Hj. eexists. split; [reflexivity|].
    unfold History.handle, EntryCount_plus, saturating_add, Step_strictly_after, saturating_sub.
    replace (Z.min _ _) with (rows + Z.of_nat (length l)) by lia. by constructor.
Qed.

Lemma recorded_untracked l : untracked l → length (recorded l) = length l.
Proof. induction 1 as [|[] l Hc _ IH]; [done| |done|done]. simpl. by rewrite IH. Qed.

Lemma phase_length rows step h st l res :
  phase rows step h st l res → (length l ≤ S (length (recorded l)))%nat.
Proof.
  destruct 1; rewrite ?recorded_app, ?length_app; simpl;
    rewrite ?recorded_untracked by done; lia.
Qed.

Lemma untracked_cons c l : untracked (c :: l) → (∃ e, c = Command_Record e) ∧ untracked l.
Proof. intros [Hc Hl]%Forall_cons_1. destruct c; try done. eauto. Qed.

Section write.
Context (format : Format) (disk : Disk).
Context (Hdisk : ∀ n, disk_works disk n = true).
Context (Hformat : ∀ e, is_some (columns_of format e) = true).

(** The writer takes a command. *)
Lemma phase_write bound w step h st c l m res :
  bound ≤ i64_max → fits bound w (length (recorded (c :: l))) →
  store w = st → results w = res → m = c :: l → 
  phase (count (table w)) step h st m res →
  let w' := HistoryWriter.handle format disk w c in
  fits bound w' (length (recorded l)) ∧
  phase (count (table w')) step h (store w') l (results w').
Proof.
  intros Hb Hf Est Eres Em Hp. cbv zeta.
  assert (H0 : 0 ≤ count (table w)) by (unfold count; lia).
  destruct Hp as [l0 Hl|r l0 k Hl Hk Hn|r l0 n gaps i Hl Hg Hi Hs Hc Hn|
    l0 Hl|retained r l0 keep k Hl Hk Hkeep Hn|retained r l0 n i Hl Hi Hs Hc Hn]; subst.
  - apply untracked_cons in Hl as [[e ->] Hl].
    destruct (hold_entry format disk bound w e (length (recorded l))) as (? & -> & -> & ->); [done..|].
    split; [done|]. rewrite Eres. by constructor.
  - destruct l0 as [|c0 l0]; simplify_eq Em.
    + intros <- <-. destruct (open_store format disk Hdisk Hformat bound w (length (recorded k)))
        as (Hf' & -> & gaps & i & -> & Hg & Hi); [done..|].
      split; [done|]. rewrite Eres, app_nil_l.
      eapply phase_opened; [done..|lia|unfold count; lia|lia].
    + intros <- <-. apply untracked_cons in Hl as [[e ->] Hl].
      destruct (hold_entry format disk bound w e (length (recorded (l0 ++ Command_Open :: k))))
        as (? & -> & -> & ->); [done..|].
      split; [done|]. rewrite Eres. by constructor.
  - apply untracked_cons in Hl as [[e ->] Hl].
    destruct (write_entry format disk Hdisk Hformat bound w e (length (recorded l)))
      as (? & -> & -> & ->); [done..|].
    split; [done|]. rewrite Eres. simpl in Hn. eapply phase_opened; [done..|lia].
  - apply untracked_cons in Hl as [[e ->] Hl].
    destruct (write_entry format disk Hdisk Hformat bound w e (length (recorded l)))
      as (? & -> & Hrows & ->); [done..|].
    split; [done|]. rewrite Eres.
    replace (_ + _) with (count (table w) + 1 + Z.of_nat (length l)) by (simpl; lia).
    rewrite <-Hrows. by constructor.
  - destruct l0 as [|c0 l0]; simplify_eq Em.
    + intros <- <-. destruct (trim_store format disk Hdisk bound w (length (recorded k)) keep)
        as (Hf' & -> & i & -> & Hi); [done..|].
      split; [done|]. rewrite Eres, app_nil_l.
      eapply phase_trimmed; [done..|lia|unfold count; lia|lia].
    + intros <- <-. apply untracked_cons in Hl as [[e ->] Hl].
      destruct (write_entry format disk Hdisk Hformat bound w e
                  (length (recorded (l0 ++ Command_Trim keep :: k)))) as (? & -> & _ & ->); [done..|].
      split; [done|]. rewrite Eres. by constructor.
  - apply untracked_cons in Hl as [[e ->] Hl].
    destruct (write_entry format disk Hdisk Hformat bound w e (length (recorded l)))
      as (? & -> & -> & ->); [done..|].
    split; [done|]. rewrite Eres. simpl in Hn. eapply phase_trimmed; [done..|lia].
Qed.
End write.

(** ** The joint run *)

Section joint.
Context (format : Format) (disk : Disk).
Context (Hdisk : ∀ n, disk_works disk n = true).
Context (Hformat : ∀ e, is_some (columns_of format e) = true).
Context (first : Z) (Hfirst : 0 ≤ first).

Definition agrees (s : Joint) : Prop :=
  0 ≤ steps s ∧
  fits (first + steps s) (writer_side s) (length (recorded (commands s))) ∧
  phase (count (table (writer_side s))) (steps s) (core_side s) (store (writer_side s))
    (commands s) (results (writer_side s)).

Lemma fits_more bound w n : fits bound w n → fits (bound + 1) w (S n).
Proof. intros (? & ? & ?). split_and!; [done|lia|done]. Qed.

Lemma recorded_step l e acts :
  length (recorded (l ++ Command_Record e :: omap command_of acts)) = S (length (recorded l)).
Proof.
  rewrite recorded_app, length_app. simpl.
  assert (recorded (omap command_of acts) = []) as ->; [|simpl; lia].
  induction acts as [|[] acts IH]; simpl; done.
Qed.

(** A turn whose reaction leaves the parts together, asking for nothing. *)
Lemma turn_agrees s entry limit react h :
  limit_ok limit → 0 ≤ steps s →
  fits (first + steps s) (writer_side s) (length (recorded (commands s))) →
  first + (steps s + 1) ≤ i64_max →
  react (core_side s) (steps s + 1) = (h, []) →
  phase (count (table (writer_side s))) (steps s) h (store (writer_side s))
    (commands s) (results (writer_side s)) →
  agrees (turn s entry limit react) ∧ steps (turn s entry limit react) = steps s + 1.
Proof.
  intros Hlimit H0 Hf Hroom Hreact Hp. pose proof (phase_length _ _ _ _ _ _ Hp) as Hlen.
  destruct Hf as (Hc & Hseq & Hst). unfold turn, Step_next.
  rewrite wrapping_add_small by (unfold u64_max, i64_max in *; lia). rewrite Hreact.
  pose proof (phase_step (count (table (writer_side s))) (steps s) h (store (writer_side s))
    (commands s) (results (writer_side s)) entry limit Hlimit ltac:(unfold count; lia)
    ltac:(unfold count, u64_max, i64_max in *; lia) Hp) as Hnext.
  destruct (after_step h (steps s + 1) limit) as [h' trimmed]. split; [|done].
  split_and!; simpl; [lia| |exact Hnext].
  rewrite recorded_step, Z.add_assoc. by apply fits_more.
Qed.

Lemma opening_agrees s entry limit :
  agrees s → first + (steps s + 1) ≤ i64_max → core_side s = HistoryState_Closed →
  agrees (turn s entry limit (open_once true)) ∧
  steps (turn s entry limit (open_once true)) = steps s + 1.
Proof.
  intros (H0 & Hf & Hp) Hroom E. unfold turn, Step_next.
  rewrite wrapping_add_small by (unfold u64_max, i64_max in *; lia). rewrite E in *. simpl.
  split; [|done]. unfold agrees. simpl.
  inversion Hp as [l Hl| | | | |]; subst. split_and!; [lia| |].
  - change [Command_Record entry; Command_Open]
      with (Command_Record entry :: omap command_of [Action_OpenHistory]). rewrite recorded_step.
    rewrite Z.add_assoc. by apply fits_more.
  - replace (commands s ++ [Command_Record entry; Command_Open])
      with ((commands s ++ [Command_Record entry]) ++ [Command_Open]) by by rewrite <-app_assoc.
    apply phase_asked; [by apply untracked_more|by constructor|simpl; lia].
Qed.

Lemma move_agrees s m :
  move_ok m → agrees s → first + (steps s + 1) ≤ i64_max →
  agrees (move format disk s m) ∧ steps (move format disk s m) ≤ steps s + 1.
Proof.
  intros Hm Hs Hroom. pose proof Hs as (H0 & Hf & Hp).
  destruct m as [entry opening limit|entry limit|]; simpl.
  - destruct (open_once opening (core_side s) (steps s + 1)) as [h acts] eqn:E.
    unfold open_once in E. destruct (opening && (core_side s ==? HistoryState_Closed)) eqn:Eo.
    + apply andb_prop in Eo as [-> Hclosed]. reflect_bools.
      destruct (opening_agrees s entry limit) as [? ->]; [done..|]. split; [done|lia].
    + simplify_eq. destruct (turn_agrees s entry limit (open_once opening) (core_side s))
        as [? ->]; [done|done|done|done| |done|split; [done|lia]].
      unfold open_once. by rewrite Eo.
  - destruct (results (writer_side s)) as [|i res] eqn:Er; [split; [done|lia]|].
    pose proof (phase_length _ _ _ _ _ _ Hp) as Hlen.
    assert (Hroom' : count (table (writer_side s)) + Z.of_nat (length (commands s)) < u64_max).
    { destruct Hf as (? & ? & ?). unfold count, u64_max, i64_max in *. lia. }
    destruct (phase_report (count (table (writer_side s))) (steps s) (core_side s)
      (store (writer_side s)) (commands s) i res) as (h & Hreport & Hnext);
      [unfold count; lia|done|done|unfold u64_max, i64_max in *; lia|done|].
    match goal with |- agrees (turn ?s' _ _ _) ∧ _ =>
      destruct (turn_agrees s' entry limit (take_report i) h) as [? ->] end;
      [done|done|exact Hf|done|done|done|split; [done|simpl; lia]].
  - destruct (commands s) as [|c l] eqn:Ec; [split; [done|lia]|].
    destruct (phase_write format disk Hdisk Hformat (first + steps s) (writer_side s) (steps s)
      (core_side s) _ c l _ _ ltac:(lia) Hf eq_refl eq_refl eq_refl Hp) as [Hf' Hp'].
    split; [by split_and!|simpl; lia].
Qed.

Lemma moves_agree s l :
  Forall move_ok l → agrees s → first + (steps s + Z.of_nat (length l)) ≤ i64_max →
  agrees (moves format disk s l).
Proof.
  intros Hl. revert s. induction Hl as [|m l Hm Hl IH]; intros s Hs Hroom; simpl; [done|].
  simpl length in Hroom. destruct (move_agrees s m) as [? ?]; [done|done|lia|].
  apply IH; [done|lia].
Qed.
End joint.

(** ** Properties *)

Lemma sample_format_works e : is_some (columns_of sample_format e) = true.
Proof.
  unfold columns_of. destruct e as [o p ev actions]. simpl.
  destruct (mapM _ actions) eqn:E; [done|]. exfalso. revert E.
  induction actions as [|a actions IH]; simpl; [done|].
  destruct (mapM _ actions); [done|]. by intros; apply IH.
Qed.

Definition sample_moves : list Move := [
  Move_Turn (sample_entry 1) false None;
  Move_Turn (sample_entry 2) true None;
  Move_Write; Move_Write; Move_Write;
  Move_Deliver (sample_entry 3) (Some 100);
  Move_Write;
  Move_Deliver (sample_entry 4) (Some 100);
  Move_Write].

(** C11: while the disk works, whatever the order in which the core and the writer take
    their turns, and however the limit changes, the core's count of the history is the
    number of rows in the table and of entries on their way to it, whenever no trim is
    outstanding. *)
Theorem count_is_exact format disk before l retained :
  (∀ n, disk_works disk n = true) → (∀ e, is_some (columns_of format e) = true) →
  count before ≤ table_sequence before →
  table_sequence before + Z.of_nat (length l) ≤ i64_max → Forall move_ok l →
  let s := moves format disk (begin_joint before) l in
  core_side s = HistoryState_Open retained Trim_Idle →
  retained = count (table (writer_side s)) + Z.of_nat (length (commands s)).
Proof.
  intros Hdisk Hformat Hids Hroom Hl s Hcore.
  assert (Hs : agrees (table_sequence before) s).
  { apply moves_agree; try done; [unfold count in *; lia|].
    split_and!; simpl; [done| |apply phase_closed; constructor].
    split_and!; simpl; unfold Step_ZERO; [done|lia|done]. }
  destruct Hs as (_ & _ & Hp). rewrite Hcore in Hp. by inversion Hp.
Qed.


(** Two entries wait until the storage opens; two turns later the core counts three
    rows. *)
Lemma count_is_exact_witness :
  let disk := sample_disk (λ _, false) in
  let before := mkHistoryTable [] 0 in
  let s := moves sample_format disk (begin_joint before) sample_moves in
  (core_side s = HistoryState_Open 3 Trim_Idle ∧ Forall move_ok sample_moves) ∧
  3 = count (table (writer_side s)) + Z.of_nat (length (commands s)).
Proof.
  intros disk before s.
  assert (Hcore : core_side s = HistoryState_Open 3 Trim_Idle) by (vm_compute; reflexivity).
  assert (Hl : Forall move_ok sample_moves).
  { repeat apply Forall_cons_2; try exact I; try apply Forall_nil_2; intros limit [=]; lia. }
  split; [by split|].
  refine (count_is_exact sample_format disk before sample_moves 3 _ sample_format_works _ _ Hl Hcore);
    [done|vm_compute; discriminate..].
Defined.

(** An entry lost before the storage was counted is not in that count, and is
    subtracted from it again when the gap is reported: with one failed insert the core
    counts two rows of the three there are. *)
Lemma lost_entry_is_subtracted_again :
  let disk := sample_disk (λ n, bool_decide (n = 2%nat)) in
  let s := moves sample_format disk (begin_joint (mkHistoryTable [] 0)) sample_moves in
  core_side s = HistoryState_Open 2 Trim_Idle ∧ commands s = [] ∧
  results (writer_side s) = [] ∧ count (table (writer_side s)) = 3.
Proof. split_and!; vm_compute; reflexivity. Qed.
