(* ===== verification/HistoryPages.v ===== *)
(** * Pages of the history

    Reading the stored history a page at a time, newest first ([read_page] of
    [shell/history.rs]): the conditions of a query, the page before or after an entry,
    and whether there are newer and older entries. *)

From S2P Require Import Prelude Values Vocabulary MamApi Messages HistoryWriter.
Import Ingress.

(** How many entries one history page shows. *)
Definition PAGE_SIZE : nat := 50.

(** A position in history, newest first. *)
Inductive Page :=
  | Page_Newest
  | Page_Before (id : Z)
  | Page_After (id : Z).

(** Which history entries to show. *)
Record HistoryQuery := mkHistoryQuery {
  query_category : option string;
  query_routine : bool;
  query_from : option SystemTime;
  query_until : option SystemTime;
  query_page : Page;
}.

Record HistoryRow (J : Type) := mkHistoryRow {
  row_id : Z;
  row_occurred_at : SystemTime;
  row_processed_at : SystemTime;
  row_category : string;
  row_summary : string;
  row_event : string;
  row_actions : list (ActionRecord J);
}.
Arguments mkHistoryRow {J}.
Arguments row_id {J}. Arguments row_occurred_at {J}. Arguments row_processed_at {J}.
Arguments row_category {J}. Arguments row_summary {J}. Arguments row_event {J}.
Arguments row_actions {J}.

Record HistoryPage (J : Type) := mkHistoryPage {
  page_rows : list (HistoryRow J);
  has_newer : bool;
  has_older : bool;
}.
Arguments mkHistoryPage {J}.
Arguments page_rows {J}. Arguments has_newer {J}. Arguments has_older {J}.

Definition time_from_millis (millis : Z) : SystemTime :=
  (if 0 <=? millis then millis else 0) * MILLIS.

(** The conditions of a query, but for its page. *)
Definition meets (query : HistoryQuery) (row : Z * HistoryColumns) : bool :=
  (query_routine query || negb (column_routine row.2))
  && is_none_or (query_category query) (λ category, String.eqb (column_category row.2) category)
  && is_none_or (query_from query) (λ from, millis from <=? column_processed_at_ms row.2)
  && is_none_or (query_until query) (λ until, column_processed_at_ms row.2 <=? millis until).

(** [SELECT ... WHERE the conditions and extra ORDER BY id]: ascending. *)
Definition select (table : HistoryTable) (query : HistoryQuery) (extra : Z → bool)
    : list (Z * HistoryColumns) :=
  filter (λ row, meets query row && extra row.1 = true) (table_rows table).
(** [SELECT EXISTS] *)
Definition exists_row (table : HistoryTable) (query : HistoryQuery) (extra : Z → bool) : bool :=
  negb (is_empty (select table query extra)).

(** The rows of the page, newest first: the limit takes the nearest ones. *)
Definition page_of (table : HistoryTable) (query : HistoryQuery) : list (Z * HistoryColumns) :=
  match query_page query with
  | Page_Newest => take PAGE_SIZE (reverse (select table query (λ _, true)))
  | Page_Before id => take PAGE_SIZE (reverse (select table query (λ i, i <? id)))
  | Page_After id => reverse (take PAGE_SIZE (select table query (λ i, id <? i)))
  end.

Section pages.
Context {J : Type}.
(** [serde_json]'s reading of the recorded actions. *)
Context (read_actions : string → option (list (ActionRecord J))).

Definition history_row (row : Z * HistoryColumns) : option (HistoryRow J) :=
  actions ← read_actions (column_actions row.2);
  Some (mkHistoryRow row.1 (time_from_millis (column_occurred_at_ms row.2))
          (time_from_millis (column_processed_at_ms row.2))
          (column_category row.2) (column_summary row.2) (column_event row.2) actions).

(** Read one page of history matching the query; [None] is an error. *)
Definition read_page (table : HistoryTable) (query : HistoryQuery) : option (HistoryPage J) :=
  rows ← mapM history_row (page_of table query);
  let '(has_newer, has_older) :=
    match list.head rows, list.last rows with
    | Some newest, Some oldest =>
        (exists_row table query (λ i, row_id newest <? i),
         exists_row table query (λ i, i <? row_id oldest))
    | _, _ => (false, false)
    end in
  Some (mkHistoryPage rows has_newer has_older).

(** ** Turning pages *)

Definition at_page (query : HistoryQuery) (page : Page) : HistoryQuery :=
  {| query with query_page := page |}.

(** From a page on, the page before its oldest entry for as long as there are older
    ones. *)
Fixpoint turn_pages (fuel : nat) (table : HistoryTable) (query : HistoryQuery)
    : option (list (HistoryPage J)) :=
  match fuel with
  | O => None
  | S fuel =>
      page ← read_page table query;
      match list.last (page_rows page) with
      | Some oldest =>
          if has_older page then
            pages ← turn_pages fuel table (at_page query (Page_Before (row_id oldest)));
            Some (page :: pages)
          else Some [page]
      | None => Some [page]
      end
  end.
End pages.

(** ** The selection around an entry *)

Definition selected (table : HistoryTable) (query : HistoryQuery) : list (Z * HistoryColumns) :=
  select table query (λ _, true).

Lemma select_filter table query extra :
  select table query extra = filter (λ row, extra row.1 = true) (selected table query).
Proof.
  unfold selected, select. rewrite list_filter_filter. apply list_filter_iff. intros row.
  rewrite !andb_true_iff. naive_solver.
Qed.

Lemma selected_sorted table query :
  numbered table → StronglySorted (λ r s, r.1 < s.1) (selected table query).
Proof. intros (Hs & _). by apply StronglySorted_kept. Qed.

Lemma selected_page table query page : selected table (at_page query page) = selected table query.
Proof. done. Qed.

Section around.
Context (table : HistoryTable) (query : HistoryQuery) (Htable : numbered table).

Lemma filter_none {A} (P : A → Prop) `{∀ x, Decision (P x)} l : Forall (λ x, ¬ P x) l → filter P l = [].
Proof. induction 1; [done|]. by rewrite filter_cons_False. Qed.

(** The entries older and newer than one of those selected. *)
Lemma select_around older row newer :
  selected table query = older ++ row :: newer →
  select table query (λ i, i <? row.1) = older ∧ select table query (λ i, row.1 <? i) = newer.
Proof.
  intros E. pose proof (selected_sorted table query Htable) as Hs. rewrite E in Hs.
  apply StronglySorted_app in Hs as (Hcross & Ho & Hn).
  apply StronglySorted_inv in Hn as [_ Hn].
  assert (Hold : Forall (λ r, r.1 < row.1) older).
  { apply List.Forall_forall. intros r Hr. apply Hcross; [by apply list_elem_of_In|left]. }
  rewrite !select_filter, E. rewrite !list.filter_app.
  rewrite !filter_cons_False by (intros ?; reflect_bools; lia). split.
  - rewrite filter_all, filter_none, app_nil_r; [done|..].
    + eapply List.Forall_impl; [|exact Hn]. intros r Hr Hlt. simpl in *. reflect_bools. lia.
    + eapply List.Forall_impl; [|exact Hold]. intros r Hr. simpl in *. by apply Z.ltb_lt.
  - rewrite filter_none, (filter_all _ newer); [done|..].
    + eapply List.Forall_impl; [|exact Hn]. intros r Hr. simpl in *. by apply Z.ltb_lt.
    + eapply List.Forall_impl; [|exact Hold]. intros r Hr Hlt. simpl in *. reflect_bools. lia.
Qed.

Lemma page_before older row newer :
  selected table query = older ++ row :: newer →
  page_of table (at_page query (Page_Before row.1)) = take PAGE_SIZE (reverse older).
Proof.
  intros E. unfold page_of. simpl.
  change (select table (at_page query (Page_Before row.1))) with (select table query).
  by destruct (select_around _ _ _ E) as [-> _].
Qed.

Lemma page_after older row newer :
  selected table query = older ++ row :: newer →
  page_of table (at_page query (Page_After row.1)) = reverse (take PAGE_SIZE newer).
Proof.
  intros E. unfold page_of. simpl.
  change (select table (at_page query (Page_After row.1))) with (select table query).
  by destruct (select_around _ _ _ E) as [_ ->].
Qed.

Lemma older_exist older row newer page :
  selected table query = older ++ row :: newer →
  exists_row table (at_page query page) (λ i, i <? row.1) = negb (is_empty older).
Proof.
  intros E. unfold exists_row.
  change (select table (at_page query page)) with (select table query).
  by destruct (select_around _ _ _ E) as [-> _].
Qed.
End around.

(** ** The whole history *)

Section turning.
Context {J : Type} (read_actions : string → option (list (ActionRecord J))).
Context (table : HistoryTable) (query : HistoryQuery) (Htable : numbered table).
Local Abbreviation shown := (Forall2 (λ row r, history_row read_actions row = Some r)).
Local Abbreviation read := (read_page read_actions table).

Lemma shown_id row r : history_row read_actions row = Some r → row_id r = row.1.
Proof. unfold history_row. intros Hr. bind_inv. done. Qed.

Lemma shown_last l rows r :
  shown l rows → list.last rows = Some r → ∃ row, list.last l = Some row ∧ row_id r = row.1.
Proof.
  intros Hs Hl. rewrite last_lookup in Hl. pose proof (Forall2_length Hs) as Hlen.
  destruct (Forall2_lookup_r _ _ _ _ _ Hs Hl) as (row & Hrow & Hr).
  exists row. rewrite last_lookup, Hlen. split; [done|by apply shown_id].
Qed.

Lemma read_shown page l rows :
  page_of table (at_page query page) = l → shown l rows →
  ∃ newer, read (at_page query page) =
    Some (mkHistoryPage rows newer
      match list.last rows with
      | Some oldest => exists_row table (at_page query page) (λ i, i <? row_id oldest)
      | None => false
      end).
Proof.
  intros <- Hs%mapM_Some. unfold read_page. rewrite Hs. cbn.
  destruct rows as [|r rows]; [by eexists|]. cbn [list.head hd_error].
  destruct (list.last (r :: rows)) as [o|] eqn:E; [by eexists|].
  by apply last_None in E.
Qed.

(** Turning forward from a page gives the page it was reached from. *)
Definition linked (pages : list (HistoryPage J)) : Prop :=
  ∀ i p p', pages !! i = Some p → pages !! S i = Some p' →
    ∃ newest back, list.head (page_rows p') = Some newest ∧
      read (at_page query (Page_After (row_id newest))) = Some back ∧ page_rows back = page_rows p.

(** The page before a full page [late], which follows the entries [early]. *)
Lemma forward_page early n late rest rows p' :
  selected table query = (early ++ [n]) ++ late ++ rest → length late = PAGE_SIZE →
  shown (reverse late) rows →
  shown (take PAGE_SIZE (reverse (early ++ [n]))) (page_rows p') →
  ∃ newest back, list.head (page_rows p') = Some newest ∧
    read (at_page query (Page_After (row_id newest))) = Some back ∧ page_rows back = rows.
Proof.
  intros E Hlen Hrows Hp'. rewrite reverse_snoc in Hp'. cbn in Hp'.
  inversion Hp' as [|? newest ? rest' Hn _ Hnil]. subst. exists newest. rewrite (shown_id _ _ Hn).
  assert (E' : selected table query = early ++ n :: (late ++ rest))
    by (rewrite E, <-app_assoc; reflexivity).
  pose proof (page_after table query Htable _ _ _ E') as Hpage.
  rewrite take_app_length' in Hpage by done.
  destruct (read_shown _ _ _ Hpage Hrows) as [newer ->]. by eexists.
Qed.

(** More rows than a page shows: the newest of them, and those before. *)
Lemma split_page (older : list (Z * HistoryColumns)) :
  (PAGE_SIZE < length older)%nat →
  ∃ early n o late, older = (early ++ [n]) ++ o :: late ∧ length (o :: late) = PAGE_SIZE.
Proof.
  intros Hmany. set (k := (length older - PAGE_SIZE)%nat).
  assert (Hk : (0 < k < length older)%nat) by (unfold k, PAGE_SIZE in *; lia).
  rewrite <-(take_drop k older).
  assert (Hlate : length (drop k older) = PAGE_SIZE) by (rewrite length_drop; unfold k; lia).
  assert (Hearly : length (take k older) = k) by (rewrite length_take; lia).
  destruct (drop k older) as [|o late]; [done|].
  destruct (take k older) as [|n early _] using rev_ind; [simpl in Hearly; lia|].
  by exists early, n, o, late.
Qed.

Lemma turn_from fuel : ∀ older rest page rows,
  selected table query = older ++ rest →
  page_of table (at_page query page) = take PAGE_SIZE (reverse older) →
  shown (reverse older) rows → (length older < fuel)%nat →
  ∃ p pages, turn_pages read_actions fuel table (at_page query page) = Some (p :: pages) ∧
    shown (take PAGE_SIZE (reverse older)) (page_rows p) ∧
    concat (page_rows <$> p :: pages) = rows ∧
    Forall (λ p, (length (page_rows p) ≤ PAGE_SIZE)%nat) (p :: pages) ∧ linked (p :: pages).
Proof.
  induction fuel as [|fuel IH]; intros older rest page rows E Hpage Hrows Hfuel; [lia|].
  destruct (decide (length older ≤ PAGE_SIZE)%nat) as [Hfew|Hmany].
  - rewrite take_ge in * by (rewrite length_reverse; lia).
    destruct (read_shown _ _ _ Hpage Hrows) as [newer Hread].
    simpl. rewrite Hread. cbn.
    set (p := mkHistoryPage rows newer _).
    assert (Hlast : has_older p = false).
    { unfold p. cbn. destruct (list.last rows) as [oldest|] eqn:El; [|done].
      destruct (shown_last _ _ _ Hrows El) as (row & Hrow & ->).
      destruct older as [|row' older]; [done|].
      rewrite reverse_cons, last_snoc in Hrow. injection Hrow as ->.
      by rewrite (older_exist table query Htable [] row (older ++ rest)). }
    exists p, []. split_and!.
    + destruct (list.last rows); [|done]. cbn in Hlast |- *. by rewrite Hlast.
    + done.
    + unfold p. cbn. apply app_nil_r.
    + constructor; [|constructor]. cbn. apply Forall2_length in Hrows.
      rewrite length_reverse in Hrows. lia.
    + intros i q q' _ Hq'. by destruct i.
  - destruct (split_page older) as (early & n & o & late & -> & Hlate); [lia|].
    rewrite reverse_app in *. rewrite take_app_length' in * by (by rewrite length_reverse).
    apply Forall2_app_inv_l in Hrows as (rows_late & rows_early & Hl & He & ->).
    destruct (read_shown _ _ _ Hpage Hl) as [newer Hread].
    assert (Eo : selected table query = (early ++ [n]) ++ o :: (late ++ rest))
      by (rewrite E, <-app_assoc; reflexivity).
    assert (Holdest : ∃ oldest, list.last rows_late = Some oldest ∧ row_id oldest = o.1).
    { rewrite reverse_cons in Hl. apply Forall2_app_inv_l in Hl as (l1 & l2 & _ & H2 & ->).
      inversion H2 as [|? oldest ? ? Ho Hnil]. inversion Hnil. subst.
      exists oldest. rewrite last_snoc. split; [done|by apply shown_id in Ho]. }
    destruct Holdest as (oldest & Hlast & Hid). rewrite Hlast, Hid in Hread.
    rewrite (older_exist table query Htable _ _ _ _ Eo) in Hread.
    assert (is_empty (early ++ [n]) = false) as Hsome by (by destruct early). rewrite Hsome in Hread.
    destruct (IH (early ++ [n]) (o :: late ++ rest) (Page_Before o.1) rows_early)
      as (p' & pages & Hturn & Hp' & Hconcat & Hsizes & Hlinked);
      [done|by eapply page_before|done|rewrite !length_app in *; simpl in *; lia|].
    eexists (mkHistoryPage rows_late newer true), (p' :: pages). split_and!.
    + simpl. rewrite Hread. cbn. rewrite Hlast, Hid.
      change (at_page (at_page query page) (Page_Before o.1)) with (at_page query (Page_Before o.1)).
      by rewrite Hturn.
    + done.
    + cbn in Hconcat |- *. by rewrite Hconcat.
    + constructor; [|done]. cbn. apply Forall2_length in Hl. rewrite length_reverse in Hl. lia.
    + intros [|i] q q' Hq Hq'; [|by eapply Hlinked].
      simplify_eq/=. eapply (forward_page early n (o :: late) rest); [done|done|done|exact Hp'].
Qed.
End turning.

(** ** Properties *)

(** C12: from the newest page, turning to older pages for as long as there are some
    shows every entry of the query exactly once, newest first, at most fifty on a page,
    and turning forward from a page gives the one it was reached from; it ends after
    at most as many pages as there are entries, and one more. *)
Theorem pages_show_the_history {J} (read_actions : string → option (list (ActionRecord J)))
    table query rows :
  numbered table →
  Forall2 (λ row r, history_row read_actions row = Some r) (reverse (selected table query)) rows →
  ∃ pages,
    turn_pages read_actions (S (length (selected table query))) table (at_page query Page_Newest)
      = Some pages ∧
    concat (page_rows <$> pages) = rows ∧
    Forall (λ p, (length (page_rows p) ≤ PAGE_SIZE)%nat) pages ∧
    linked read_actions table query pages.
Proof.
  intros Htable Hrows.
  destruct (turn_from read_actions table query Htable (S (length (selected table query)))
    (selected table query) [] Page_Newest rows) as (p & pages & Hturn & _ & Hrest);
    [by rewrite app_nil_r|done|done|lia|]. by exists (p :: pages).
Qed.

(** Sixty entries are shown on two pages. *)
Definition sample_table : HistoryTable :=
  mkHistoryTable
    (map (λ n, (Z.of_nat n, mkHistoryColumns 0 (Z.of_nat n) "mam" "" "" "" false)%string) (seq 1 60)) 60.
Definition sample_query : HistoryQuery := mkHistoryQuery (Some "mam"%string) false None None Page_Newest.
Definition no_actions (text : string) : option (list (ActionRecord unit)) := Some [].

Lemma seq_sorted (f : nat → HistoryColumns) k m :
  StronglySorted (λ r s : Z * HistoryColumns, r.1 < s.1) (map (λ n, (Z.of_nat n, f n)) (seq k m)).
Proof.
  revert k. induction m as [|m IH]; intros k; simpl; constructor; [apply IH|].
  apply List.Forall_forall. intros r Hr. apply in_map_iff in Hr as (n & <- & Hn).
  apply in_seq in Hn. simpl. lia.
Qed.

Lemma sample_table_numbered : numbered sample_table.
Proof.
  split_and!; [apply seq_sorted| |done].
  apply List.Forall_forall. intros r Hr. apply in_map_iff in Hr as (n & <- & Hn).
  apply in_seq in Hn. simpl. lia.
Qed.

Lemma pages_show_the_history_witness :
  ∃ rows,
    (numbered sample_table ∧
     Forall2 (λ row r, history_row no_actions row = Some r)
       (reverse (selected sample_table sample_query)) rows) ∧
    length rows = 60%nat ∧
    ∃ pages,
      turn_pages no_actions (S (length (selected sample_table sample_query))) sample_table
        (at_page sample_query Page_Newest) = Some pages ∧
      concat (page_rows <$> pages) = rows ∧
      Forall (λ p, (length (page_rows p) ≤ PAGE_SIZE)%nat) pages ∧
      linked no_actions sample_table sample_query pages.
Proof.
  destruct (mapM (history_row no_actions) (reverse (selected sample_table sample_query)))
    as [rows|] eqn:E; [|vm_compute in E; discriminate E].
  apply mapM_Some in E. exists rows.
  split; [split; [exact sample_table_numbered|exact E]|]. split.
  - apply Forall2_length in E. rewrite <-E. vm_compute. reflexivity.
  - exact (pages_show_the_history no_actions sample_table sample_query rows sample_table_numbered E).
Defined.
