(* ===== verification/Recorded.v ===== *)
(** * What the history keeps

    The row the history keeps of an entry, with the words and the JSON of its event and
    actions ([insert] of [shell/history.rs]), and what reading the row back shows. The
    JSON text is [serde_json]'s part. *)

From S2P Require Import Prelude Values Vocabulary MamApi Messages.
From S2P Require Import HistoryWriter HistoryPages.
Import Ingress.
From S2P Require Import Bytes Floats Json.
From S2P Require Import Describe.
From S2P Require NoticeWords.
From S2P Require Import Encode.

(** ** [serde] for [ActionRecord] *)

Definition action_record_fields : list string := ["summary"; "detail"]%string.

Definition encode_action_record (record : ActionRecord Value) : Value :=
  Value_Object (zip action_record_fields
    [Value_String (action_summary record); action_detail record]).

Definition read_action_record : Reader (ActionRecord Value) := λ v,
  fields ← struct action_record_fields v;
  match fields with
  | [summary; detail] =>
      summary ← required read_string summary;
      detail ← required read_value detail;
      Some (mkActionRecord summary detail)
  | _ => None
  end.

Section recorded.
Context `{!Rfc3339}.
(** [serde_json]'s text of a document, and its reading of one. *)
Context (json_text : Value → string) (json_parse : string → option Value).

(** The JSON value of an action: an object holds its keys in ascending order. *)
Definition action_json (action : Action) : option Value := to_value <$> encode_Action action.

Definition history_format : Format := {|
  HistoryWriter.Json := Value;
  action_value := action_json;
  records_text := λ records, Some (json_text (Value_Array (map encode_action_record records)));
  event_text := λ event, json_text <$> encode_Event event;
  describe_action := NoticeWords.action;
  describe_event := Describe.event;
|}.

(** The recorded actions, as [read_page] reads them. *)
Definition read_actions (stored : string) : option (list (ActionRecord Value)) :=
  v ← json_parse stored; read_list read_action_record v.
End recorded.

(** ** Secrets *)

(** The API cookie and the ntfy topic, wherever an event or an action holds one. *)
Definition hide_event (event : Event) : Event :=
  match event with
  | Event_Settings (SettingsEvent_Read limit cookie topic reserve limits) =>
      Event_Settings (SettingsEvent_Read limit (const EmptyString <$> cookie)
        (const EmptyString <$> topic) reserve limits)
  | Event_Settings (SettingsEvent_SetApiCookie _) =>
      Event_Settings (SettingsEvent_SetApiCookie EmptyString)
  | Event_Settings (SettingsEvent_SetNtfyTopic _) =>
      Event_Settings (SettingsEvent_SetNtfyTopic EmptyString)
  | Event_Mam (MamEvent_Answered result rotated) =>
      Event_Mam (MamEvent_Answered result (const EmptyString <$> rotated))
  | event => event
  end.

Definition hide_action (action : Action) : Action :=
  match action with
  | Action_WriteApiCookie cookie => Action_WriteApiCookie (const EmptyString <$> cookie)
  | Action_WriteNtfyTopic topic => Action_WriteNtfyTopic (const EmptyString <$> topic)
  | Action_SendNotification _ push => Action_SendNotification EmptyString push
  | Action_WriteRotatedApiCookie _ => Action_WriteRotatedApiCookie EmptyString
  | Action_MamRequest request cookie => Action_MamRequest request (const EmptyString <$> cookie)
  | action => action
  end.

(** Two entries that differ in secrets alone. *)
Definition hide_entry (entry : HistoryEntry) : HistoryEntry :=
  {| entry with entry_event := hide_event (entry_event entry);
                entry_actions := map hide_action (entry_actions entry) |}.

Section secrets.
Context `{!Rfc3339} (json_text : Value → string).
Local Abbreviation format := (history_format json_text).

Lemma json_option_redacted o : json_option redacted (const EmptyString <$> o) = json_option redacted o.
Proof. by destruct o. Qed.

Lemma hidden_event_recorded event :
  Describe.event (hide_event event) = Describe.event event ∧
  encode_Event (hide_event event) = encode_Event event ∧
  category (hide_event event) = category event ∧
  is_routine (hide_event event) = is_routine event.
Proof.
  destruct event as [| |[]| | | | | | | |[|? rotated| | | | | | | | | |]]; split_and!; try done;
    repeat match goal with o : option ApiCookie |- _ => destruct o end; done.
Qed.

Lemma hidden_action_recorded action :
  NoticeWords.action (hide_action action) = NoticeWords.action action ∧
  encode_Action (hide_action action) = encode_Action action.
Proof.
  destruct action; split; try done;
    repeat match goal with o : option ApiCookie |- _ => destruct o end; done.
Qed.

Lemma hidden_entry_recorded entry :
  columns_of format (hide_entry entry) = columns_of format entry.
Proof.
  destruct entry as [occurred processed event actions]. unfold columns_of, hide_entry. simpl.
  destruct (hidden_event_recorded event) as (-> & -> & -> & ->).
  assert (∀ l, mapM (λ action, detail ← action_json action;
                     Some (mkActionRecord (NoticeWords.action action) detail)) (map hide_action l)
               = mapM (λ action, detail ← action_json action;
                     Some (mkActionRecord (NoticeWords.action action) detail)) l) as ->; [|done].
  induction l as [|a l IH]; [done|]. cbn [mapM map]. rewrite IH.
  destruct (hidden_action_recorded a) as [-> He]. unfold action_json. by rewrite He.
Qed.
End secrets.

(** ** Reading a row back *)

Section read_back.
Context `{!Rfc3339} (json_text : Value → string) (json_parse : string → option Value).
Hypothesis parse_text : ∀ v, json_parse (json_text v) = Some v.
Local Abbreviation format := (history_format json_text).

Lemma read_action_record_encode summary v :
  read_action_record (encode_action_record (mkActionRecord summary (to_value v)))
  = Some (mkActionRecord summary (to_value v)).
Proof.
  transitivity (Some (mkActionRecord summary (to_value (to_value v)))); [reflexivity|].
  by rewrite to_value_to_value.
Qed.

(** What an action is recorded as. *)
Definition recorded_as (action : Action) (record : ActionRecord Value) : Prop :=
  action_summary record = NoticeWords.action action ∧
  action_json action = Some (action_detail record).

Lemma recorded_actions actions records :
  mapM (λ action, detail ← action_json action;
                  Some (mkActionRecord (NoticeWords.action action) detail)) actions = Some records →
  Forall2 recorded_as actions records.
Proof.
  intros Hm%mapM_Some. eapply Forall2_impl; [|exact Hm]. intros action record Hr.
  apply bind_Some in Hr as (detail & Hd & [= <-]). by split.
Qed.

Lemma read_actions_back actions records :
  Forall2 recorded_as actions records →
  read_actions json_parse (json_text (Value_Array (map encode_action_record records))) = Some records.
Proof.
  intros Hr. unfold read_actions. rewrite parse_text. cbn.
  apply mapM_Some, Forall2_fmap_l, Forall_Forall2_diag.
  induction Hr as [|action [summary detail] ? ? [_ Hd]]; constructor; [|done].
  cbn in Hd. unfold action_json in Hd. apply fmap_Some in Hd as (v & _ & Hd). cbn in Hd.
  rewrite Hd. apply read_action_record_encode.
Qed.
End read_back.

Lemma time_from_millis_millis time :
  0 ≤ time → time / MILLIS ≤ i64_max → time_from_millis (millis time) = time - time mod MILLIS.
Proof.
  intros H0 Hmax. unfold time_from_millis, millis, wall_duration_since.
  unfold MILLIS in *. assert (0 ≤ time / 1000000) by (apply Z.div_pos; lia).
  rewrite (proj2 (Z.leb_le 0 time)), Z.sub_0_r by lia.
  rewrite (proj2 (Z.leb_le (time / 1000000) _)), (proj2 (Z.leb_le 0 _)) by lia.
  pose proof (Z.div_mod time 1000000). lia.
Qed.

(** ** Properties *)

(** C19: the history holds no secret: entries that differ only in API cookies and
    notification topics, those of the event and those of its actions, are kept as the
    same row, in every column, its words and its JSON. *)
Theorem history_holds_no_secret `{!Rfc3339} json_text entry entry' :
  hide_entry entry = hide_entry entry' →
  columns_of (history_format json_text) entry = columns_of (history_format json_text) entry'.
Proof. intros Heq. by rewrite <-(hidden_entry_recorded _ entry), Heq, hidden_entry_recorded. Qed.

#[local] Instance sample_rfc3339 : Rfc3339 := λ _, Some "2027-01-15T08:00:01Z"%string.

(** A new cookie is submitted, saved and used: the rows of two different cookies. *)
Definition cookie_entry (cookie : ApiCookie) : HistoryEntry :=
  mkHistoryEntry (from_secs 1_800_000_001) (from_secs 1_800_000_002)
    (Event_Settings (SettingsEvent_SetApiCookie cookie))
    [Action_WriteApiCookie (Some cookie); Action_MamRequest MamRequest_RegisterSeedbox (Some cookie)].

Lemma history_holds_no_secret_witness :
  hide_entry (cookie_entry "one") = hide_entry (cookie_entry "two") ∧
  is_some (columns_of (history_format (λ _, "{}"%string)) (cookie_entry "one")) = true ∧
  columns_of (history_format (λ _, "{}"%string)) (cookie_entry "one")
  = columns_of (history_format (λ _, "{}"%string)) (cookie_entry "two").
Proof.
  split; [reflexivity|]. split; [vm_compute; reflexivity|].
  apply (history_holds_no_secret (λ _, "{}"%string) (cookie_entry "one") (cookie_entry "two")).
  reflexivity.
Defined.

(** C20: a row reads back as it was recorded: the category and the words of the event,
    its JSON, the words and the JSON of every action in order, and the entry's times to
    the millisecond. *)
Theorem recorded_entries_read_back `{!Rfc3339} json_text json_parse entry columns id :
  (∀ v, json_parse (json_text v) = Some v) →
  columns_of (history_format json_text) entry = Some columns →
  0 ≤ entry_occurred_at entry → entry_occurred_at entry / MILLIS ≤ i64_max →
  0 ≤ entry_processed_at entry → entry_processed_at entry / MILLIS ≤ i64_max →
  ∃ event records,
    encode_Event (entry_event entry) = Some event ∧
    Forall2 recorded_as (entry_actions entry) records ∧
    history_row (read_actions json_parse) (id, columns) =
      Some (mkHistoryRow id
        (entry_occurred_at entry - entry_occurred_at entry mod MILLIS)
        (entry_processed_at entry - entry_processed_at entry mod MILLIS)
        (category (entry_event entry)) (Describe.event (entry_event entry))
        (json_text event) records).
Proof.
  intros Hparse Hc Ho Ho' Hp Hp'. unfold columns_of in Hc.
  apply bind_Some in Hc as (records & Hr & Hc). apply bind_Some in Hc as (text & He & [= <-]).
  apply recorded_actions in Hr. apply fmap_Some in He as (event & He & ->).
  exists event, records. split; [done|]. split; [done|]. unfold history_row. cbn [snd column_actions].
  rewrite (read_actions_back json_text json_parse Hparse _ _ Hr). cbn.
  by rewrite !time_from_millis_millis.
Qed.

(** *** A text of documents for the example: the bits of a tree's number *)

Definition leaf : Type := bool + string + (Z + Z + (bool + bool + unit + bool * positive * Z)).

Definition number_leaf (n : Number) : Z + Z + (bool + bool + unit + bool * positive * Z) :=
  match n with
  | Number_PosInt n => inl (inl n)
  | Number_NegInt n => inl (inr n)
  | Number_Float (S754_zero s) => inr (inl (inl (inl s)))
  | Number_Float (S754_infinity s) => inr (inl (inl (inr s)))
  | Number_Float S754_nan => inr (inl (inr ()))
  | Number_Float (S754_finite s m e) => inr (inr (s, m, e))
  end.
Definition leaf_number (n : Z + Z + (bool + bool + unit + bool * positive * Z)) : Number :=
  match n with
  | inl (inl n) => Number_PosInt n
  | inl (inr n) => Number_NegInt n
  | inr (inl (inl (inl s))) => Number_Float (S754_zero s)
  | inr (inl (inl (inr s))) => Number_Float (S754_infinity s)
  | inr (inl (inr _)) => Number_Float S754_nan
  | inr (inr (s, m, e)) => Number_Float (S754_finite s m e)
  end.

Fixpoint tree (v : Value) : gen_tree leaf :=
  match v with
  | Value_Null => GenNode 0 []
  | Value_Bool x => GenLeaf (inl (inl x))
  | Value_Number n => GenLeaf (inr (number_leaf n))
  | Value_String s => GenLeaf (inl (inr s))
  | Value_Array values => GenNode 1 (map tree values)
  | Value_Object fields =>
      GenNode 2 (map (λ f, GenNode 3 [GenLeaf (inl (inr f.1)); tree f.2]) fields)
  end.
Fixpoint untree (t : gen_tree leaf) : Value :=
  match t with
  | GenLeaf (inl (inl x)) => Value_Bool x
  | GenLeaf (inl (inr s)) => Value_String s
  | GenLeaf (inr n) => Value_Number (leaf_number n)
  | GenNode 1 values => Value_Array (map untree values)
  | GenNode 2 fields =>
      Value_Object (map (λ f, match f with
                              | GenNode _ [GenLeaf (inl (inr name)); v] => (name, untree v)
                              | _ => (EmptyString, Value_Null)
                              end) fields)
  | _ => Value_Null
  end.

Lemma untree_tree v : untree (tree v) = v.
Proof.
  induction v as [| |n| |values IH|fields IH] using value_ind; try done; simpl; f_equal.
  - by destruct n as [| |[]].
  - rewrite map_map. rewrite <-(map_id values) at 2. apply map_ext_in.
    by rewrite List.Forall_forall in IH.
  - rewrite map_map. rewrite <-(map_id fields) at 2. apply map_ext_in. intros [k v] Hv. simpl.
    f_equal. rewrite List.Forall_forall in IH. exact (IH _ Hv).
Qed.

Fixpoint bits (p : positive) : string :=
  match p with
  | xH => EmptyString
  | xO p => String "0" (bits p)
  | xI p => String "1" (bits p)
  end.
Fixpoint unbits (s : string) : positive :=
  match s with
  | EmptyString => xH
  | String c s => if c ==? "1"%char then xI (unbits s) else xO (unbits s)
  end.
Lemma unbits_bits p : unbits (bits p) = p.
Proof. induction p; simpl; by f_equal. Qed.

Definition sample_text (v : Value) : string := bits (countable.encode (tree v)).
Definition sample_parse (s : string) : option Value := untree <$> countable.decode (unbits s).
Lemma sample_parse_text v : sample_parse (sample_text v) = Some v.
Proof.
  unfold sample_parse, sample_text. rewrite unbits_bits, countable.decode_encode. simpl.
  by rewrite untree_tree.
Qed.

Definition sample_columns : HistoryColumns :=
  default (mkHistoryColumns 0 0 "" "" "" "" false)
    (columns_of (history_format sample_text) (cookie_entry "one")).

Lemma recorded_entries_read_back_witness :
  columns_of (history_format sample_text) (cookie_entry "one") = Some sample_columns ∧
  ∃ event records,
    encode_Event (entry_event (cookie_entry "one")) = Some event ∧
    Forall2 recorded_as (entry_actions (cookie_entry "one")) records ∧
    history_row (read_actions sample_parse) (7, sample_columns) =
      Some (mkHistoryRow 7 (from_secs 1_800_000_001) (from_secs 1_800_000_002) "settings"
        "API cookie replaced from the dashboard (value not recorded)" (sample_text event) records).
Proof.
  assert (Hc : columns_of (history_format sample_text) (cookie_entry "one") = Some sample_columns)
    by (vm_compute; reflexivity).
  split; [exact Hc|].
  exact (recorded_entries_read_back sample_text sample_parse (cookie_entry "one") sample_columns 7
    sample_parse_text Hc ltac:(vm_compute; discriminate) ltac:(vm_compute; discriminate)
    ltac:(vm_compute; discriminate) ltac:(vm_compute; discriminate)).
Defined.
