(* ===== verification/Dashboard.v ===== *)
(** * The dashboard

    The routes, the checks before them and the form commands of [shell/web/mod.rs]. A
    handler validates a request, sends at most one event to the core and answers with a
    page, a redirect or a status. What axum decodes of a request (its headers as text,
    the pairs of its query and of its form) is the request here; a response names its
    page, and [Pages] renders it. *)

From S2P Require Import Prelude Values Vocabulary MamApi Messages.
From S2P Require Import HistoryPages.
From S2P Require Import Bytes Text Address.
From S2P Require Describe.

(** ** Which requests the dashboard takes

    The checks of [shell/web/guard.rs]: the [Host] header against DNS rebinding, and
    [Origin] and [Sec-Fetch-Site] against forms of other websites. *)
Module Guard.

(** [str::split_once] and [str::rsplit_once] at an ASCII character. *)
Definition split_once (c : ascii) (l : bytes) : option (bytes * bytes) :=
  at_ ← find_byte c l; Some (firstn at_ l, skipn (S at_) l).
Definition rsplit_once (c : ascii) (l : bytes) : option (bytes * bytes) :=
  '(after, before) ← split_once c (reverse l); Some (reverse before, reverse after).

(** [str::eq_ignore_ascii_case]. *)
Definition eq_ignore_ascii_case (x y : bytes) : bool :=
  map to_ascii_lowercase x ==? map to_ascii_lowercase y.

(** The host name of a [Host] header, without its port. *)
Definition host_name (host : bytes) : bytes :=
  match strip_prefix (b "[") host with
  | Some bracketed =>
      match split_once "]"%char bracketed with Some (name, _) => name | None => host end
  | None =>
      match rsplit_once ":"%char host with
      | Some (name, port) =>
          if negb (existsb (λ c, c ==? ":"%char) name) && negb (is_empty port) && forallb is_digit port
          then name else host
      | None => host
      end
  end.

Definition host_allowed (host : option bytes) (allowed : list bytes) : bool :=
  is_some_and host (λ host,
    existsb (λ allowed, eq_ignore_ascii_case allowed (host_name host)) allowed).

Definition same_origin (host : bytes) (origin fetch_site : option bytes) : bool :=
  if is_some_and fetch_site (λ site, negb ((site ==? b "same-origin") || (site ==? b "none"))) then false
  else is_none_or origin (λ origin,
    is_some_and (opt_or (strip_prefix (b "http://") origin) (strip_prefix (b "https://") origin))
      (λ authority, eq_ignore_ascii_case authority host)).

Example guard_hosts :
  map (λ h, host_allowed (Some (b h)) [b "192.168.1.20"; b "::1"; b "windlass.example.ts.net"])
    ["192.168.1.20:8740"; "192.168.1.20"; "[::1]:8740"; "[::1]"; "Windlass.Example.ts.net:8740";
     "::1"; "evil.example"; "192.168.1.20:x"; "[::1"; ""]%string
  = [true; true; true; true; true; true; false; false; false; false].
Proof. vm_compute. reflexivity. Qed.

End Guard.
Import Guard.

(** ** Requests and responses *)

Inductive Method :=
  | Method_Get
  | Method_Head
  | Method_Post
  | Method_Other.
#[global] Instance Method_eq_dec : EqDecision Method.
Proof. solve_decision. Defined.

Abbreviation Pairs := (list (string * string)) (only parsing).

Record Request := mkRequest {
  request_method : Method;
  request_path : string;
  (** Every header, in order, with its value if that is text. *)
  request_headers : list (string * option string);
  request_query : Pairs;
  (** [None] when the body is no form. *)
  request_form : option Pairs;
}.

(** Which page is showing. *)
Inductive Location :=
  | Location_Status
  | Location_Notifications
  | Location_History
  | Location_Settings.
#[global] Instance Location_eq_dec : EqDecision Location.
Proof. solve_decision. Defined.

Definition Location_path (self : Location) : string :=
  match self with
  | Location_Status => "/"
  | Location_Notifications => "/notifications"
  | Location_History => "/history"
  | Location_Settings => "/settings"
  end.

Definition Location_from_path (path : string) : Location :=
  default Location_Status
    (named [("/notifications", Location_Notifications); ("/history", Location_History);
            ("/settings", Location_Settings)]%string path).

(** Submitted values that were not accepted, and why. *)
Record SettingsForm := mkSettingsForm {
  form_history_limit : option string;
  form_history_limit_error : option string;
  form_api_cookie : option string;
  form_api_cookie_error : option string;
  form_ntfy_topic : option string;
  form_ntfy_topic_error : option string;
  form_points_reserve : option string;
  form_points_reserve_error : option string;
  form_max_downloading : option string;
  form_max_active : option string;
  form_torrent_limits_error : option string;
}.
Definition SettingsForm_default : SettingsForm :=
  mkSettingsForm None None None None None None None None None None None.

Inductive Body :=
  | Body_Empty
  | Body_Text (text : string)
  | Body_Stylesheet
  | Body_Script
  | Body_Status
  | Body_Notifications
  | Body_History (query : HistoryQuery)
  | Body_Settings (form : SettingsForm)
  | Body_Message (title text : string)
  | Body_Live (location : Location).

Record Response := mkResponse {
  response_status : Z;
  response_headers : list (string * string);
  response_body : Body;
}.

Definition page (body : Body) : Response := mkResponse 200 [] body.
Definition status (code : Z) : Response := mkResponse code [] Body_Empty.
Definition redirect (path : string) : Response :=
  mkResponse 303 [("location", path)%string] Body_Empty.

(** The event a handler sends, if the core's queue takes it, and its response. *)
Record Reply := mkReply {
  reply_event : option Event;
  reply_response : Response;
}.
Definition answer (response : Response) : Reply := mkReply None response.

(** ** What the NixOS module configures *)

Record Deployment := mkDeployment {
  deployment_listen : list SocketAddr;
  deployment_allowed_hosts : list string;
  deployment_database : string;
  deployment_ntfy_server : string;
  deployment_ntfy_relay : option SocketAddr;
  deployment_dashboard_url : option string;
}.
Definition accepted_hosts (self : Deployment) : list bytes :=
  map (λ address, print_ip (socket_ip address)) (deployment_listen self) ++ map b (deployment_allowed_hosts self).

(** ** Fields of a form or a query *)

(** A field that must be there, once, and one that may be. *)
Definition given_field (pairs : Pairs) (name : string) : option (option string) :=
  match List.filter (λ p, String.eqb p.1 name) pairs with
  | [] => Some None
  | [p] => Some (Some p.2)
  | _ => None
  end.
Definition required_field (pairs : Pairs) (name : string) : option string :=
  o ← given_field pairs name; o.
Definition number_field (pairs : Pairs) (name : string) : option (option Z) :=
  o ← given_field pairs name;
  match o with Some text => Some <$> parse_i64 (b text) | None => Some None end.

Section handlers.
(** Whether the queue still takes events. *)
Context (open : bool).

(** [App::send]; [accepted] is the response once the event is in the queue. *)
Definition send (event : Event) (accepted : Response) : Reply :=
  if open then mkReply (Some event) accepted
  else answer (mkResponse 503 []
    (Body_Message "Windlass is shutting down" "The request was not accepted.")).

(** A form that cannot be read as the handler's structure. *)
Definition with_form {T} (request : Request) (read : Pairs → option T) (handler : T → Reply) : Reply :=
  match request_form request with
  | None => answer (status 415)
  | Some pairs => match read pairs with Some form => handler form | None => answer (status 422) end
  end.

Definition back (next : option string) : Response :=
  redirect (Location_path (Location_from_path (default "/"%string next))).

Definition set_mam_mode (mode : MamRequestMode) (next : option string) : Reply :=
  send (Event_MamPause (MamPauseEvent_Set mode)) (back next).
Definition pause (request : Request) : Reply :=
  with_form request (λ form, given_field form "next") (set_mam_mode MamRequestMode_Paused).
Definition resume (request : Request) : Reply :=
  with_form request (λ form, given_field form "next") (set_mam_mode MamRequestMode_Enabled).

Definition rejected (form : SettingsForm) : Reply := answer (mkResponse 422 [] (Body_Settings form)).
Definition send_setting (event : SettingsEvent) : Reply :=
  send (Event_Settings event) (back (Some (Location_path Location_Settings))).

(** [text.trim().replace([',', '_', ' '], "")]. *)
Definition without_separators (text : string) : bytes :=
  List.filter (λ c, negb (existsb (Z.eqb (u8 c)) [44; 95; 32])) (trim (b text)).

Definition set_history_limit (request : Request) : Reply :=
  with_form request (λ form, required_field form "limit") (λ text,
    match parse_unsigned u32_max (without_separators text) ≫= HistoryLimit_try_new with
    | Some limit => send_setting (SettingsEvent_SetHistoryLimit limit)
    | None => rejected {|
        form_history_limit := Some text;
        form_history_limit_error := Some
          "Enter a whole number from 100 to 1000000. The saved limit is still in use."%string;
        form_api_cookie := None; form_api_cookie_error := None;
        form_ntfy_topic := None; form_ntfy_topic_error := None;
        form_points_reserve := None; form_points_reserve_error := None;
        form_max_downloading := None; form_max_active := None;
        form_torrent_limits_error := None |}
    end).

Definition set_points_reserve (request : Request) : Reply :=
  with_form request (λ form, required_field form "reserve") (λ text,
    match parse_unsigned u64_max (without_separators text) ≫= PointsReserve_try_new with
    | Some reserve => send_setting (SettingsEvent_SetPointsReserve reserve)
    | None => rejected {|
        form_points_reserve := Some text;
        form_points_reserve_error := Some
          "Enter a whole number of points up to 100000000. The saved reserve is still in use."%string;
        form_history_limit := None; form_history_limit_error := None;
        form_api_cookie := None; form_api_cookie_error := None;
        form_ntfy_topic := None; form_ntfy_topic_error := None;
        form_max_downloading := None; form_max_active := None;
        form_torrent_limits_error := None |}
    end).

Definition FewerActiveThanDownloading_fmt : string :=
  "Downloading torrents are active too, so allow at least as many active.".

Definition submitted_limits (downloading active : string) : Result TorrentLimits string :=
  let number := λ value, parse_unsigned u32_max (trim (b value)) in
  match opt_zip (number downloading ≫= DownloadingLimit_try_new) (number active ≫= ActiveLimit_try_new) with
  | Some (downloading, active) =>
      match TorrentLimits_new downloading active with
      | Ok limits => Ok limits
      | Err _ => Err FewerActiveThanDownloading_fmt
      end
  | None => Err "Enter whole numbers: 1 to 100 downloading, 1 to 1000 active."%string
  end.

Definition set_torrent_limits (request : Request) : Reply :=
  with_form request
    (λ form, downloading ← required_field form "downloading"; active ← required_field form "active";
             Some (downloading, active))
    (λ '(downloading, active),
      match submitted_limits downloading active with
      | Ok limits => send_setting (SettingsEvent_SetTorrentLimits limits)
      | Err error => rejected {|
          form_max_downloading := Some downloading;
          form_max_active := Some active;
          form_torrent_limits_error := Some (error +:+ " The saved limits are still in use.")%string;
          form_history_limit := None; form_history_limit_error := None;
          form_api_cookie := None; form_api_cookie_error := None;
          form_ntfy_topic := None; form_ntfy_topic_error := None;
          form_points_reserve := None; form_points_reserve_error := None |}
      end).

Definition InvalidApiCookie_fmt (self : InvalidApiCookie) : string :=
  match self with
  | InvalidApiCookie_Empty => "Enter the mam_id value."
  | InvalidApiCookie_InvalidCharacter =>
      "The value contains spaces or characters that cannot appear in a cookie."
  end.
Definition InvalidNtfyTopic_fmt (self : InvalidNtfyTopic) : string :=
  match self with
  | InvalidNtfyTopic_Empty => "Enter a topic name."
  | InvalidNtfyTopic_Invalid => "Use up to 64 letters, digits, hyphens, and underscores."
  end.

Definition set_api_cookie (request : Request) : Reply :=
  with_form request (λ form, required_field form "cookie") (λ text,
    match ApiCookie_parse text with
    | Ok cookie => send_setting (SettingsEvent_SetApiCookie cookie)
    | Err error => rejected {|
        form_api_cookie := Some text;
        form_api_cookie_error := Some (InvalidApiCookie_fmt error);
        form_history_limit := None; form_history_limit_error := None;
        form_ntfy_topic := None; form_ntfy_topic_error := None;
        form_points_reserve := None; form_points_reserve_error := None;
        form_max_downloading := None; form_max_active := None;
        form_torrent_limits_error := None |}
    end).
Definition clear_api_cookie (_ : Request) : Reply := send_setting SettingsEvent_ClearApiCookie.

Definition set_ntfy_topic (request : Request) : Reply :=
  with_form request (λ form, required_field form "topic") (λ text,
    match NtfyTopic_parse text with
    | Ok topic => send_setting (SettingsEvent_SetNtfyTopic topic)
    | Err error => rejected {|
        form_ntfy_topic := Some text;
        form_ntfy_topic_error := Some (InvalidNtfyTopic_fmt error);
        form_history_limit := None; form_history_limit_error := None;
        form_api_cookie := None; form_api_cookie_error := None;
        form_points_reserve := None; form_points_reserve_error := None;
        form_max_downloading := None; form_max_active := None;
        form_torrent_limits_error := None |}
    end).
Definition clear_ntfy_topic (_ : Request) : Reply := send_setting SettingsEvent_ClearNtfyTopic.

Definition send_test_notification (_ : Request) : Reply :=
  send (Event_Notification NotificationEvent_SendTest) (back (Some (Location_path Location_Settings))).

Definition purchase_checked (request : Request) : Reply :=
  with_form request (λ form, required_field form "made") (λ made,
    match named [("yes", Sale_Made); ("no", Sale_NotMade)]%string made with
    | Some sale => send (Event_Mam (MamEvent_PurchaseChecked sale))
                     (back (Some (Location_path Location_Status)))
    | None => answer (status 422)
    end).
Definition ratio_checked (_ : Request) : Reply :=
  send (Event_Mam MamEvent_RatioUseChecked) (back (Some (Location_path Location_Status))).

Definition redownload (request : Request) : Reply :=
  with_form request (λ form, text ← required_field form "record"; parse_unsigned u64_max (b text))
    (λ record,
      match RecordId_new record with
      | Some record => send (Event_Registry (RegistryEvent_Redownload record))
                         (back (Some (Location_path Location_Status)))
      | None => answer (status 422)
      end).

(** ** Pages *)

(** A time in the format of a [datetime-local] value, and one of RFC 3339. *)
Context (parse_local parse_exact : bytes → option SystemTime).

Definition present (value : option string) : option bytes :=
  opt_filter (λ value, negb (is_empty value)) ((λ value, trim (b value)) <$> value).

Definition filter_time (exact local : option string) : option SystemTime :=
  match present local with
  | Some local => parse_local local
  | None => present exact ≫= parse_exact
  end.

Record HistoryParameters := mkHistoryParameters {
  parameter_kind : option string;
  parameter_from : option string;
  parameter_to : option string;
  parameter_from_local : option string;
  parameter_to_local : option string;
  parameter_before : option Z;
  parameter_after : option Z;
  parameter_routine : option string;
}.
Definition HistoryParameters_read (pairs : Pairs) : option HistoryParameters :=
  kind ← given_field pairs "kind";
  from ← given_field pairs "from";
  to ← given_field pairs "to";
  from_local ← given_field pairs "from_local";
  to_local ← given_field pairs "to_local";
  before ← number_field pairs "before";
  after ← number_field pairs "after";
  routine ← given_field pairs "routine";
  Some (mkHistoryParameters kind from to from_local to_local before after routine).

Definition history_query (parameters : HistoryParameters) : HistoryQuery := {|
  query_category :=
    List.find (λ value, bool_decide (parameter_kind parameters = Some value)) (Describe.CATEGORIES.*1);
  query_from := filter_time (parameter_from parameters) (parameter_from_local parameters);
  query_until := filter_time (parameter_to parameters) (parameter_to_local parameters);
  query_routine := is_some (parameter_routine parameters);
  query_page :=
    match parameter_before parameters, parameter_after parameters with
    | Some before, _ => Page_Before before
    | None, Some after => Page_After after
    | None, None => Page_Newest
    end;
|}.

Definition history_page (request : Request) : Reply :=
  match HistoryParameters_read (request_query request) with
  | Some parameters => answer (page (Body_History (history_query parameters)))
  | None => answer (status 400)
  end.

Definition live (request : Request) : Reply :=
  match given_field (request_query request) "page" with
  | Some asked => answer (page (Body_Live (Location_from_path (default "/"%string asked))))
  | None => answer (status 400)
  end.

(** The pages that need nothing of the request. *)
Definition status_page (_ : Request) : Reply := answer (page Body_Status).
Definition notifications_page (_ : Request) : Reply := answer (page Body_Notifications).
Definition settings_page (_ : Request) : Reply := answer (page (Body_Settings SettingsForm_default)).
Definition stylesheet (_ : Request) : Reply :=
  answer (mkResponse 200 [("content-type", "text/css; charset=utf-8")%string] Body_Stylesheet).
Definition script (_ : Request) : Reply :=
  answer (mkResponse 200 [("content-type", "text/javascript; charset=utf-8")%string] Body_Script).

(** ** Routes *)

Definition get_routes : list (string * (Request → Reply)) :=
  [("/", status_page);
   ("/notifications", notifications_page);
   ("/history", history_page);
   ("/settings", settings_page);
   ("/live", live);
   ("/static/app.css", stylesheet);
   ("/static/app.js", script);
   ("/favicon.ico", λ _, answer (status 204))]%string.

Definition post_routes : list (string * (Request → Reply)) :=
  [("/mam/pause", pause);
   ("/mam/resume", resume);
   ("/settings/history-limit", set_history_limit);
   ("/settings/api-cookie", set_api_cookie);
   ("/settings/api-cookie/clear", clear_api_cookie);
   ("/settings/ntfy-topic", set_ntfy_topic);
   ("/settings/ntfy-topic/clear", clear_ntfy_topic);
   ("/settings/points-reserve", set_points_reserve);
   ("/settings/torrent-limits", set_torrent_limits);
   ("/notifications/test", send_test_notification);
   ("/torrents/redownload", redownload);
   ("/mam/purchase/checked", purchase_checked);
   ("/mam/ratio/checked", ratio_checked)]%string.

(** The handler of the path, if the method is one of its. *)
Definition routed (request : Request) : Reply :=
  let path := request_path request in
  match named get_routes path, named post_routes path with
  | Some handler, _ =>
      if (request_method request ==? Method_Get) || (request_method request ==? Method_Head)
      then handler request else answer (status 405)
  | None, Some handler =>
      if request_method request ==? Method_Post then handler request else answer (status 405)
  | None, None => answer (status 404)
  end.

(** ** The checks before the routes *)

(** [HeaderMap::get]: the first value, if it is text. *)
Definition header_text (request : Request) (name : string) : option bytes :=
  match List.find (λ h, String.eqb h.1 name) (request_headers request) with
  | Some (_, value) => b <$> value
  | None => None
  end.

(** [HeaderMap::insert]. *)
Definition insert_header (header : string * string) (headers : list (string * string))
    : list (string * string) :=
  header :: List.filter (λ h, negb (String.eqb h.1 header.1)) headers.

Definition SECURITY_HEADERS : list (string * string) :=
  [("content-security-policy",
    "default-src 'self'; frame-ancestors 'none'; form-action 'self'; base-uri 'none'");
   ("x-content-type-options", "nosniff");
   ("referrer-policy", "same-origin")]%string.

Definition secured (response : Response) : Response :=
  let headers := fold_left (λ headers h, insert_header h headers) SECURITY_HEADERS
                   (response_headers response) in
  let headers := if existsb (λ h, String.eqb h.1 "cache-control") headers then headers
                 else (("cache-control", "no-store")%string :: headers) in
  mkResponse (response_status response) headers (response_body response).

Definition protect (deployment : Deployment) (request : Request) : Reply :=
  let host := header_text request "host" in
  if negb (host_allowed host (accepted_hosts deployment))
  then answer (mkResponse 421 [] (Body_Text "Unexpected host name."))
  else
    let changes_state := negb ((request_method request ==? Method_Get)
                               || (request_method request ==? Method_Head)) in
    if changes_state
       && negb (same_origin (default [] host) (header_text request "origin")
                  (header_text request "sec-fetch-site"))
    then answer (mkResponse 403 [] (Body_Text "Cross-site request refused."))
    else
      let reply := routed request in
      mkReply (reply_event reply) (secured (reply_response reply)).
End handlers.

(** ** What a request may do *)

(** The commands the owner has, with the values they may carry. *)
Definition owners_command (event : Event) : Prop :=
  match event with
  | Event_MamPause (MamPauseEvent_Set _) => True
  | Event_Settings (SettingsEvent_SetHistoryLimit limit) => 100 ≤ limit ≤ 1_000_000
  | Event_Settings (SettingsEvent_SetPointsReserve reserve) => 0 ≤ reserve ≤ 100_000_000
  | Event_Settings (SettingsEvent_SetTorrentLimits limits) =>
      1 ≤ limits_downloading limits ≤ 100 ∧ 1 ≤ limits_active limits ≤ 1_000 ∧
      limits_downloading limits ≤ limits_active limits
  | Event_Settings (SettingsEvent_SetApiCookie cookie) => ApiCookie_ok cookie
  | Event_Settings (SettingsEvent_SetNtfyTopic topic) => name_ok topic
  | Event_Settings (SettingsEvent_ClearApiCookie | SettingsEvent_ClearNtfyTopic) => True
  | Event_Notification NotificationEvent_SendTest => True
  | Event_Mam (MamEvent_PurchaseChecked _ | MamEvent_RatioUseChecked) => True
  | Event_Registry (RegistryEvent_Redownload id) => 1 ≤ id ≤ u64_max
  | _ => False
  end.

(** The event is the owner's command, and the answer leads to a page of the dashboard. *)
Definition obedient (open : bool) (reply : Reply) : Prop :=
  ∀ event, reply_event reply = Some event →
    open = true ∧ owners_command event ∧
    ∃ location, reply_response reply = redirect (Location_path location).

Lemma answer_obedient open response : obedient open (answer response).
Proof. by intros event. Qed.

Lemma send_obedient open event location :
  owners_command event → obedient open (send open event (redirect (Location_path location))).
Proof. intros He. unfold send. destruct open; [|apply answer_obedient]. intros e [= <-]. eauto. Qed.

Lemma with_form_obedient {T} open request (read : Pairs → option T) handler :
  (∀ pairs form, read pairs = Some form → obedient open (handler form)) →
  obedient open (with_form request read handler).
Proof.
  intros Hh. unfold with_form. destruct (request_form request) as [pairs|]; [|apply answer_obedient].
  destruct (read pairs) eqn:E; [by eapply Hh|apply answer_obedient].
Qed.

Lemma submitted_limits_ok downloading active limits :
  submitted_limits downloading active = Ok limits →
  owners_command (Event_Settings (SettingsEvent_SetTorrentLimits limits)).
Proof.
  unfold submitted_limits, opt_zip. cbv zeta.
  destruct (_ ≫= DownloadingLimit_try_new) as [d|] eqn:Ed; [|done].
  destruct (_ ≫= ActiveLimit_try_new) as [a|] eqn:Ea; [|done].
  apply bind_Some in Ed as (x & _ & Ed), Ea as (y & _ & Ea).
  unfold DownloadingLimit_try_new, ActiveLimit_try_new, TorrentLimits_new in *.
  destruct ((1 <=? x) && _) eqn:Ex; [|done]. destruct ((1 <=? y) && _) eqn:Ey; [|done]. simplify_eq.
  destruct (a <? d) eqn:El; [done|]. intros [= <-]. reflect_bools. simpl. lia.
Qed.

Lemma post_routes_obedient open path handler request :
  named (post_routes open) path = Some handler → obedient open (handler request).
Proof.
  intros H. apply find_map_Some in H as ([p h] & Hin & H). apply then_some_Some in H as [_ <-].
  unfold post_routes in Hin. rewrite !elem_of_cons, elem_of_nil in Hin.
  repeat (destruct Hin as [[= -> ->]|Hin]); [..|done]; simpl.
  - apply with_form_obedient. intros. by apply send_obedient.
  - apply with_form_obedient. intros. by apply send_obedient.
  - apply with_form_obedient. intros pairs text _.
    destruct (_ ≫= HistoryLimit_try_new) as [n|] eqn:E; [|apply answer_obedient].
    apply (send_obedient _ _ Location_Settings). apply bind_Some in E as (k & _ & E).
    unfold HistoryLimit_try_new in E. case_match; simplify_eq. reflect_bools. simpl. lia.
  - apply with_form_obedient. intros pairs text _.
    destruct (ApiCookie_parse text) as [c|] eqn:E; [|apply answer_obedient].
    apply (send_obedient _ _ Location_Settings). by apply ApiCookie_parse_ok in E as [? _].
  - by apply (send_obedient _ _ Location_Settings).
  - apply with_form_obedient. intros pairs text _.
    destruct (NtfyTopic_parse text) as [c|] eqn:E; [|apply answer_obedient].
    apply (send_obedient _ _ Location_Settings). by apply NtfyTopic_parse_ok in E as [? _].
  - by apply (send_obedient _ _ Location_Settings).
  - apply with_form_obedient. intros pairs text _.
    destruct (_ ≫= PointsReserve_try_new) as [n|] eqn:E; [|apply answer_obedient].
    apply (send_obedient _ _ Location_Settings). apply bind_Some in E as (k & _ & E).
    unfold PointsReserve_try_new in E. case_match; simplify_eq. reflect_bools. simpl. lia.
  - apply with_form_obedient. intros pairs [downloading active] _.
    destruct (submitted_limits _ _) as [limits|] eqn:E; [|apply answer_obedient].
    apply (send_obedient _ _ Location_Settings). by eapply submitted_limits_ok.
  - by apply (send_obedient _ _ Location_Settings).
  - apply with_form_obedient. intros pairs id _.
    destruct (RecordId_new id) as [k|] eqn:E; [|apply answer_obedient].
    apply (send_obedient _ _ Location_Status). unfold RecordId_new, non_zero in E.
    case_match; simplify_eq. reflect_bools. simpl. lia.
  - apply with_form_obedient. intros pairs made _. destruct (named _ made); [|apply answer_obedient].
    by apply (send_obedient _ _ Location_Status).
  - by apply (send_obedient _ _ Location_Status).
Qed.

Lemma get_routes_silent parse_local parse_exact path handler request :
  named (get_routes parse_local parse_exact) path = Some handler → reply_event (handler request) = None.
Proof.
  intros H. apply find_map_Some in H as ([p h] & Hin & H). apply then_some_Some in H as [_ <-].
  unfold get_routes in Hin. rewrite !elem_of_cons, elem_of_nil in Hin.
  repeat (destruct Hin as [[= -> ->]|Hin]); [..|done]; try done; simpl.
  - unfold history_page. by destruct (HistoryParameters_read _).
  - unfold live. by destruct (given_field _ _).
Qed.

Lemma routed_commands open parse_local parse_exact request event :
  let reply := routed open parse_local parse_exact request in
  reply_event reply = Some event → request_method request = Method_Post ∧ obedient open reply.
Proof.
  unfold routed. cbv zeta. destruct (named (get_routes _ _) _) as [handler|] eqn:Eg.
  - destruct (_ || _); [|done]. by rewrite (get_routes_silent _ _ _ _ _ Eg).
  - destruct (named (post_routes _) _) as [handler|] eqn:Ep; [|done].
    case_bool_decide; [|done]. intros _. split; [done|]. by eapply post_routes_obedient.
Qed.

(** Names the same host, whatever the case of its letters. *)
Definition same_name (x y : bytes) : Prop := map to_ascii_lowercase x = map to_ascii_lowercase y.

Lemma host_allowed_name host allowed :
  host_allowed host allowed = true → ∃ h name, host = Some h ∧ name ∈ allowed ∧ same_name name (host_name h).
Proof.
  unfold host_allowed. intros (h & -> & Hh)%is_some_and_true.
  apply existsb_exists in Hh as (name & Hin & Hn). unfold eq_ignore_ascii_case in Hn. reflect_bools.
  exists h, name. split_and!; [done|by apply list_elem_of_In|done].
Qed.

Lemma same_origin_names host origin site :
  same_origin host origin site = true →
  (∀ s, site = Some s → s = b "same-origin" ∨ s = b "none") ∧
  (∀ o, origin = Some o → ∃ authority, (o = b "http://" ++ authority ∨ o = b "https://" ++ authority) ∧
     same_name authority host).
Proof.
  unfold same_origin. destruct (is_some_and site _) eqn:Es; [done|]. intros Ho. split.
  - intros s ->. unfold is_some_and in Es. apply negb_false_iff, orb_true_iff in Es.
    destruct Es; reflect_bools; auto.
  - intros o ->. unfold is_none_or in Ho. apply is_some_and_true in Ho as (authority & Ha & Hh).
    unfold eq_ignore_ascii_case in Hh. reflect_bools. exists authority. split; [|done].
    unfold opt_or in Ha. destruct (strip_prefix (b "http://") o) eqn:E.
    + simplify_eq. left. by apply strip_prefix_Some.
    + right. by apply strip_prefix_Some.
Qed.

Lemma secured_headers response h :
  h ∈ SECURITY_HEADERS → h ∈ response_headers (secured response).
Proof.
  intros Hh. unfold secured, SECURITY_HEADERS. cbn [fold_left response_headers].
  set (hs := insert_header _ (insert_header _ (insert_header _ _))).
  assert (h ∈ hs) as Hin.
  { unfold SECURITY_HEADERS in Hh. rewrite !elem_of_cons, elem_of_nil in Hh. unfold hs, insert_header.
    rewrite !elem_of_cons. simpl.
    destruct Hh as [->|[->|[->|[]]]]; [right; right|right; left|by left]; left; done. }
  destruct (existsb _ _); [done|]. by right.
Qed.

(** C17: the core is sent something only by a request that comes from the dashboard
    itself: a [POST] to one of the configured host names or addresses, whose [Origin] and
    [Sec-Fetch-Site], when there, are those of the same site; what is sent is one of the
    owner's commands with a value it may have, and the browser is led to a page of the
    dashboard and nowhere else. Every other request changes nothing, and every page is
    answered with the headers that keep other sites out. *)
Theorem only_the_dashboard_commands open parse_local parse_exact deployment request :
  let reply := protect open parse_local parse_exact deployment request in
  (∀ event, reply_event reply = Some event →
     open = true ∧ owners_command event ∧ request_method request = Method_Post ∧
     (∃ location, ("location"%string, Location_path location) ∈ response_headers (reply_response reply)) ∧
     ∃ host name, header_text request "host" = Some host ∧
       name ∈ accepted_hosts deployment ∧ same_name name (host_name host) ∧
       (∀ site, header_text request "sec-fetch-site" = Some site →
          site = b "same-origin" ∨ site = b "none") ∧
       (∀ origin, header_text request "origin" = Some origin → ∃ authority,
          (origin = b "http://" ++ authority ∨ origin = b "https://" ++ authority) ∧
          same_name authority host)) ∧
  (response_status (reply_response reply) ∉ [403; 421] →
     ∀ h, h ∈ SECURITY_HEADERS → h ∈ response_headers (reply_response reply)).
Proof.
  unfold protect. cbv zeta. destruct (host_allowed _ _) eqn:Eh; simpl.
  2: { split; [done|]. intros Hs. destruct Hs. right. by left. }
  apply host_allowed_name in Eh as (host & name & Eh & Hname & Hsame). rewrite Eh. simpl.
  destruct (_ && _) eqn:Ec; simpl.
  { split; [done|]. intros Hs. destruct Hs. by left. }
  split; [|intros _ h; apply secured_headers]. intros event He.
  destruct (routed_commands open parse_local parse_exact request event He) as [Hp Hob].
  destruct (Hob event He) as (Hopen & Hcmd & location & Hr). rewrite Hp in Ec. simpl in Ec.
  apply negb_false_iff, same_origin_names in Ec as [Hsite Horigin].
  split_and!; [done..| |].
  - exists location. rewrite Hr. unfold secured. simpl. do 4 right. by left.
  - exists host, name. by split_and!.
Qed.

(** ** What is submitted is what is set *)

Lemma print_nat_plain n : 0 ≤ n → trim (print_nat n) = print_nat n.
Proof.
  intros Hn. apply trim_graphic. eapply List.Forall_impl; [apply digit_graphic|by apply print_nat_digits].
Qed.

Lemma digit_no_separator : ∀ c, is_digit c = true → negb (existsb (Z.eqb (u8 c)) [44; 95; 32]) = true.
Proof. each_byte. Qed.

Lemma without_separators_print n : 0 ≤ n → without_separators (t (print_nat n)) = print_nat n.
Proof.
  intros Hn. unfold without_separators. rewrite b_t, print_nat_plain by done.
  apply List.forallb_filter_id. apply forallb_Forall_true.
  eapply List.Forall_impl; [apply digit_no_separator|by apply print_nat_digits].
Qed.

Lemma with_form_event {T} request (read : Pairs → option T) handler pairs form :
  request_form request = Some pairs → read pairs = Some form →
  with_form request read handler = handler form.
Proof. intros Hf Hr. unfold with_form. by rewrite Hf, Hr. Qed.

Lemma ApiCookie_parse_same c : ApiCookie_ok c → ApiCookie_parse c = Ok c.
Proof.
  unfold ApiCookie_ok, ApiCookie_parse. cbv zeta. intros [Hne Hc]. rewrite trim_graphic.
  - rewrite nonempty_match by done. rewrite (proj2 (forallb_Forall_true _ _)); [by rewrite t_b|].
    eapply List.Forall_impl; [|exact Hc]. intros d (-> & Hd). rewrite !(proj2 (Z.eqb_neq _ _)) by tauto. done.
  - eapply List.Forall_impl; [|exact Hc]. by intros d [? _].
Qed.

Lemma NtfyTopic_parse_same c : name_ok c → NtfyTopic_parse c = Ok c.
Proof.
  unfold name_ok, NtfyTopic_parse. cbv zeta. intros [Hl Hc]. rewrite trim_graphic.
  - rewrite nonempty_match by (destruct (b c); [simpl in Hl; lia|done]).
    rewrite (proj2 (Z.ltb_ge _ _)) by lia. rewrite (proj2 (forallb_Forall_true _ _)) by done.
    by rewrite t_b.
  - eapply List.Forall_impl; [apply name_byte_graphic|done].
Qed.

(** A form submitted to a path, by a browser that shows the dashboard. *)
Definition submits (request : Request) (path : string) (pairs : Pairs) : Prop :=
  request_method request = Method_Post ∧ request_path request = path ∧ request_form request = Some pairs.

Definition number_text (n : Z) : string := t (print_nat n).


(** ** A form of the dashboard, and the same from elsewhere *)

Definition sample_deployment : Deployment :=
  mkDeployment [mkSocketAddr (IpAddr_V4 3232235796) 8740 0] ["windlass.example.ts.net"]
    "/var/lib/windlass/windlass.db" "https://ntfy.sh/" None None.
Definition sample_request (origin : string) : Request :=
  mkRequest Method_Post "/settings/history-limit"
    [("host", Some "Windlass.example.ts.net:8740"); ("origin", Some origin)]%string []
    (Some [("limit", " 20,000 ")]%string).
Definition sample_reply (origin : string) : Reply :=
  protect true (λ _, None) (λ _, None) sample_deployment (sample_request origin).

Lemma only_the_dashboard_commands_witness :
  owners_command (Event_Settings (SettingsEvent_SetHistoryLimit 20_000)) ∧
  reply_event (sample_reply "https://evil.example") = None.
Proof.
  split; [|vm_compute; reflexivity].
  assert (reply_event (sample_reply "http://windlass.example.ts.net:8740")
            = Some (Event_Settings (SettingsEvent_SetHistoryLimit 20_000))) as H by (vm_compute; reflexivity).
  exact (proj1 (proj2 (proj1 (only_the_dashboard_commands _ _ _ _ _) _ H))).
Defined.

