(* ===== verification/Jobs.v ===== *)
(** * Jobs

    What the shell does for each action of the core ([Shell::dispatch] of
    [shell/mod.rs]): a job, and the event it answers with. The clients of the tunnel
    check ([shell/tunnel.rs]) and of ntfy ([shell/notify.rs]) are here; the NAT-PMP
    client, the qBittorrent client, the MAM client and the storage have files of their
    own. What happens outside while a job runs is a parameter. *)

From S2P Require Import Prelude Values Vocabulary MamApi Messages.
From S2P Require Import Bytes Text Address.
From S2P Require Import Describe.
From S2P Require Import NoticeWords.
From S2P Require Import HistoryWriter.
Import Ingress.
From S2P Require Import Rows Storage.
From S2P Require Import NatPmp.
From S2P Require Import QbittorrentClient.
From S2P Require MamClient.

(** ** Jobs and actions *)

Inductive TunnelRequest :=
  | TunnelRequest_CheckExitIp
  | TunnelRequest_Switch (server : VpnServer).

Inductive Job :=
  | Job_MapPorts (lifetime : Duration)
  | Job_Qbittorrent (request : QbittorrentClient.Request)
  | Job_Tunnel (request : TunnelRequest)
  | Job_Notify (topic : NtfyTopic) (push : Push)
  | Job_Mam (request : MamRequest) (cookie : option ApiCookie)
  | Job_Store (operation : Operation).

(** What an action becomes: a command to the history writer, a timer, or a job. *)
Inductive Task :=
  | Task_History (command : Command)
  | Task_Timer (name : TimerName) (id : TimerId) (deadline : Deadline)
  | Task_Job (job : Job).

(** [Shell::dispatch] *)
Definition task_of (action : Action) : Task :=
  match action with
  | Action_OpenHistory => Task_History Command_Open
  | Action_TrimHistory keep => Task_History (Command_Trim keep)
  | Action_StartTimer name id deadline => Task_Timer name id deadline
  | Action_RequestPortMapping lifetime => Task_Job (Job_MapPorts lifetime)
  | Action_ConnectQbittorrent => Task_Job (Job_Qbittorrent Request_Connect)
  | Action_SyncQbittorrent position => Task_Job (Job_Qbittorrent (Request_Sync position))
  | Action_ReadQbittorrentPreferences => Task_Job (Job_Qbittorrent Request_ReadPreferences)
  | Action_SetQbittorrentListenPort port => Task_Job (Job_Qbittorrent (Request_SetListenPort port))
  | Action_SetQbittorrentQueue queue => Task_Job (Job_Qbittorrent (Request_SetQueue queue))
  | Action_QbittorrentCommand command => Task_Job (Job_Qbittorrent (Request_Command command))
  | Action_CheckExitIp => Task_Job (Job_Tunnel TunnelRequest_CheckExitIp)
  | Action_SwitchVpnServer server => Task_Job (Job_Tunnel (TunnelRequest_Switch server))
  | Action_SendNotification topic push => Task_Job (Job_Notify topic push)
  | Action_MamRequest request cookie => Task_Job (Job_Mam request cookie)
  | Action_ReadNoticeLog => Task_Job (Job_Store Operation_ReadNoticeLog)
  | Action_SaveNotice entry forget_through =>
      Task_Job (Job_Store (Operation_SaveNotice entry forget_through))
  | Action_WritePointsReserve reserve => Task_Job (Job_Store (Operation_WritePointsReserve reserve))
  | Action_WriteTorrentLimits limits => Task_Job (Job_Store (Operation_WriteTorrentLimits limits))
  | Action_WriteRotatedApiCookie cookie =>
      Task_Job (Job_Store (Operation_WriteRotatedApiCookie cookie))
  | Action_ReadMamState => Task_Job (Job_Store Operation_ReadMamState)
  | Action_SaveRegistrationAttempt at_ =>
      Task_Job (Job_Store (Operation_SaveRegistrationAttempt at_))
  | Action_SaveReminder at_ => Task_Job (Job_Store (Operation_SaveReminder at_))
  | Action_SaveRatioGuard guard => Task_Job (Job_Store (Operation_SaveRatioGuard guard))
  | Action_WriteNtfyTopic topic => Task_Job (Job_Store (Operation_WriteNtfyTopic topic))
  | Action_ReadLastVpnSwitch => Task_Job (Job_Store Operation_ReadLastVpnSwitch)
  | Action_SaveVpnSwitch switch => Task_Job (Job_Store (Operation_SaveVpnSwitch switch))
  | Action_ReadTorrentRegistry => Task_Job (Job_Store Operation_ReadTorrentRegistry)
  | Action_SaveTorrents records => Task_Job (Job_Store (Operation_SaveTorrents records))
  | Action_OpenStorage mode => Task_Job (Job_Store (Operation_OpenStorage mode))
  | Action_ReadMamRequestMode => Task_Job (Job_Store Operation_ReadMamRequestMode)
  | Action_WriteMamRequestMode mode => Task_Job (Job_Store (Operation_WriteMamRequestMode mode))
  | Action_DeleteMamRequestMode => Task_Job (Job_Store Operation_DeleteMamRequestMode)
  | Action_ReadSettings => Task_Job (Job_Store Operation_ReadSettings)
  | Action_WriteHistoryLimit limit => Task_Job (Job_Store (Operation_WriteHistoryLimit limit))
  | Action_WriteApiCookie cookie => Task_Job (Job_Store (Operation_WriteApiCookie cookie))
  end.

(** ** The tunnel's client *)

Definition exit_ip (response : Response) : Result IpAddr ExitIpFailure :=
  match response with
  | NoResponse => Err ExitIpFailure_Unreachable
  | Answer status body =>
      if is_success status then
        match parse_ip (Text.trim (b (default ""%string body))) with
        | Some ip => Ok ip
        | None => Err ExitIpFailure_Malformed
        end
      else Err (ExitIpFailure_Rejected status)
  end.

(** With the answer of the configured service, or without one. *)
Definition check (client : option Response) : TunnelEvent :=
  match match client with Some r => exit_ip r | None => Err ExitIpFailure_Unreachable end with
  | Ok ip => TunnelEvent_ExitIpObserved ip
  | Err reason => TunnelEvent_ExitIpCheckFailed reason
  end.

(** The unit starter's status is whether it succeeded, if it ran at all. *)
Definition switch (client : option (option bool)) : TunnelEvent :=
  match client with
  | None => TunnelEvent_SwitchFailed
  | Some status =>
      if default false status then TunnelEvent_Switched else TunnelEvent_SwitchFailed
  end.

Definition unit_name (server : VpnServer) : string :=
  ("windlass-wireguard@" +:+ server +:+ ".service")%string.

(** ** ntfy's client *)

(** [deliver]: [serve] is the server. *)
Definition deliver `{!Rfc3339} (urls : UrlLibrary) (channel : Channel) (topic : NtfyTopic)
    (push : Push) (serve : PushRequest → Response) : Result unit DeliveryFailure :=
  match push_request urls channel topic push with
  | None => Err DeliveryFailure_Unreachable
  | Some request =>
      match serve request with
      | NoResponse => Err DeliveryFailure_Unreachable
      | Answer status _ =>
          if is_success status then Ok () else Err (DeliveryFailure_Rejected status)
      end
  end.

Definition send `{!Rfc3339} (urls : UrlLibrary) (channel : Channel) (topic : NtfyTopic)
    (push : Push) (serve : PushRequest → Response) : NotificationEvent :=
  match deliver urls channel topic push serve with
  | Ok _ => NotificationEvent_Delivered
  | Err reason => NotificationEvent_DeliveryFailed reason
  end.

(** What the notifications log keeps of [notify::message]. *)
Definition notice_words `{!Rfc3339} (notice : Notice) : Words :=
  let message := message notice in
  mkWords (message_title message) (message_body message) (message_page message).

(** ** Integrations *)

(** How the tunnel is checked and which servers it may switch between. *)
Record TunnelChecks := mkTunnelChecks {
  exit_ip_service : string;
  check_servers : list VpnServer;
  check_current : option VpnServer;
  unit_starter : string;
}.

Record Integrations := mkIntegrations {
  with_qbittorrent : option string;
  with_nat_pmp_gateway : option SocketAddr;
  with_tunnel : option TunnelChecks;
  with_ntfy_server : option string;
  with_ntfy_relay : option SocketAddr;
  with_dashboard_url : option string;
  with_mam : option MamClient.MamHosts;
}.

Definition enable_events (self : Integrations) : list Event :=
  option_list (const (Event_PortForwarding PortForwardingEvent_Enable) <$> with_nat_pmp_gateway self)
  ++ option_list (const (Event_Qbittorrent QbittorrentEvent_Enable) <$> with_qbittorrent self)
  ++ option_list ((λ tunnel, Event_Tunnel (TunnelEvent_Enable (check_servers tunnel)
                                            (check_current tunnel))) <$> with_tunnel self)
  ++ option_list (const (Event_Mam MamEvent_Enable) <$> with_mam self).

(** Where notices are published: the hosted server unless another is configured. *)
Definition ntfy_channel (urls : UrlLibrary) (self : Integrations) : Channel :=
  Channel_new urls (opt_or (with_ntfy_server self) (url_parse urls NTFY_SH)) (with_ntfy_relay self)
    (with_dashboard_url self).

(** ** Running a job *)

(** What happens outside while a job runs. *)
Record Outside := mkOutside {
  socket_bound : bool;
  udp_attempt : bytes → nat → Duration → NatPmp.Attempt;
  tcp_attempt : bytes → nat → Duration → NatPmp.Attempt;
  web_ui_answer : nat → WebRequest → Response;
  service_answer : Response;
  starter_status : option bool;
  ntfy_answer : PushRequest → Response;
  mam_answer : MamClient.HttpRequest → option MamClient.HttpAnswer;
  disk_carries_out : bool;
  disk_error : string;
  clock : ClockReading;
}.

Section jobs.
Context {V : Type} `{Columns V, EqDecision V}.
Context `{!Rfc3339} (urls : UrlLibrary) (lib : Library) (mam_lib : MamClient.MamLibrary).
Context (integrations : Integrations).

(** [keep]: a fetched torrent file is kept for qBittorrent; one that cannot be kept
    makes the fetch fail. *)
Definition keep (works : bool) (file : option (Database V)) (request : MamRequest)
    (answer : MamClient.MamAnswer) : option (Database V) * Result MamReply MamFailure :=
  match request, MamClient.answer_result answer, MamClient.answer_file answer with
  | MamRequest_FetchTorrent id _, Ok (MamReply_Fetched fetched), Some torrent =>
      match (if works then file else None) with
      | Some db => (Some (keep_torrent_file db id (fetched_hash fetched) torrent), MamClient.answer_result answer)
      | None => (file, Err MamFailure_NotKept)
      end
  | _, _, _ => (file, MamClient.answer_result answer)
  end.

(** [execute] of the storage, as the shell completes it. *)
Definition store (outside : Outside) (file : option (Database V)) (operation : Operation)
    : option (Database V) * Event * option string :=
  match Storage.execute notice_words (disk_carries_out outside) file operation with
  | (file, Ok event) => (file, event, None)
  | (file, Err event) => (file, event, Some (disk_error outside))
  end.

(** The tables after a job, the event it answers with and the storage error if there
    was one. *)
Definition work (outside : Outside) (file : option (Database V)) (job : Job)
    : option (Database V) * Event * option string :=
  match job with
  | Job_MapPorts lifetime =>
      (file, Event_PortForwarding (map_ports (is_some (with_nat_pmp_gateway integrations))
               (socket_bound outside) (udp_attempt outside) (tcp_attempt outside) lifetime), None)
  | Job_Qbittorrent request =>
      let kept := λ mam, if disk_carries_out outside
                         then file ≫= (λ db, kept_torrent_file db mam) else None in
      (file, Event_Qbittorrent
         (conduct (λ n request, (S n, web_ui_answer outside n request)) 0%nat
            (QbittorrentClient.execute lib kept (is_some (with_qbittorrent integrations)) request)).2,
       None)
  | Job_Tunnel TunnelRequest_CheckExitIp =>
      (file, Event_Tunnel (check (const (service_answer outside) <$> with_tunnel integrations)), None)
  | Job_Tunnel (TunnelRequest_Switch _) =>
      (file, Event_Tunnel (switch (const (starter_status outside) <$> with_tunnel integrations)), None)
  | Job_Notify topic push =>
      (file, Event_Notification (send urls (ntfy_channel urls integrations) topic push
                                   (ntfy_answer outside)), None)
  | Job_Mam request cookie =>
      let answer := MamClient.perform mam_lib (with_mam integrations ≫= MamClient.Client_new mam_lib)
                      request cookie (mam_answer outside) in
      let '(file, result) := keep (disk_carries_out outside) file request answer in
      (file, Event_Mam (MamEvent_Answered result (MamClient.answer_rotated answer)), None)
  | Job_Store operation => store outside file operation
  end.
End jobs.

(** ** The answers of an action

    Which events the core may be given for each action: the success and the failure
    of what was asked, and nothing else. *)
Definition answers (action : Action) (event : Event) : bool :=
  match action, event with
  | Action_OpenStorage _, Event_Startup (StartupEvent_StorageOpened | StartupEvent_StorageOpenFailed)
  | Action_ReadMamRequestMode, Event_MamPause (MamPauseEvent_Read _ | MamPauseEvent_ReadFailed)
  | Action_WriteMamRequestMode _, Event_MamPause (MamPauseEvent_Written | MamPauseEvent_WriteFailed)
  | Action_DeleteMamRequestMode, Event_MamPause (MamPauseEvent_Deleted | MamPauseEvent_DeleteFailed)
  | Action_ReadSettings, Event_Settings (SettingsEvent_Read _ _ _ _ _ | SettingsEvent_ReadFailed)
  | Action_WriteHistoryLimit _, Event_Settings
      (SettingsEvent_HistoryLimitWritten | SettingsEvent_HistoryLimitWriteFailed)
  | Action_WriteApiCookie _, Event_Settings
      (SettingsEvent_ApiCookieWritten | SettingsEvent_ApiCookieWriteFailed)
  | Action_WriteNtfyTopic _, Event_Settings
      (SettingsEvent_NtfyTopicWritten | SettingsEvent_NtfyTopicWriteFailed)
  | Action_WritePointsReserve _, Event_Settings
      (SettingsEvent_PointsReserveWritten | SettingsEvent_PointsReserveWriteFailed)
  | Action_WriteTorrentLimits _, Event_Settings
      (SettingsEvent_TorrentLimitsWritten | SettingsEvent_TorrentLimitsWriteFailed)
  | Action_WriteRotatedApiCookie _, Event_Settings
      (SettingsEvent_RotatedApiCookieWritten | SettingsEvent_RotatedApiCookieWriteFailed)
  | Action_OpenHistory, Event_History (HistoryEvent_Opened _ | HistoryEvent_OpenFailed)
  | Action_TrimHistory _, Event_History (HistoryEvent_Trimmed _ | HistoryEvent_TrimFailed)
  | Action_RequestPortMapping _, Event_PortForwarding
      (PortForwardingEvent_Mapped _ _ _ | PortForwardingEvent_MappingFailed _)
  | Action_ConnectQbittorrent, Event_Qbittorrent
      (QbittorrentEvent_Connected _ _ | QbittorrentEvent_ConnectFailed _)
  | Action_SyncQbittorrent _, Event_Qbittorrent
      (QbittorrentEvent_Synced _ | QbittorrentEvent_SyncFailed _)
  | Action_ReadQbittorrentPreferences, Event_Qbittorrent
      (QbittorrentEvent_PreferencesRead _ | QbittorrentEvent_PreferencesReadFailed _)
  | Action_SetQbittorrentListenPort _, Event_Qbittorrent
      (QbittorrentEvent_ListenPortSet | QbittorrentEvent_ListenPortSetFailed _)
  | Action_SetQbittorrentQueue _, Event_Qbittorrent
      (QbittorrentEvent_QueueSet | QbittorrentEvent_QueueSetFailed _)
  | Action_QbittorrentCommand _, Event_Qbittorrent
      (QbittorrentEvent_CommandDone | QbittorrentEvent_CommandFailed _)
  | Action_ReadTorrentRegistry, Event_Registry (RegistryEvent_Read _ | RegistryEvent_ReadFailed)
  | Action_SaveTorrents _, Event_Registry (RegistryEvent_Saved | RegistryEvent_SaveFailed)
  | Action_CheckExitIp, Event_Tunnel
      (TunnelEvent_ExitIpObserved _ | TunnelEvent_ExitIpCheckFailed _)
  | Action_ReadLastVpnSwitch, Event_Tunnel
      (TunnelEvent_LastSwitchRead _ | TunnelEvent_LastSwitchReadFailed)
  | Action_SaveVpnSwitch _, Event_Tunnel (TunnelEvent_SwitchSaved | TunnelEvent_SwitchSaveFailed)
  | Action_SwitchVpnServer _, Event_Tunnel (TunnelEvent_Switched | TunnelEvent_SwitchFailed)
  | Action_SendNotification _ _, Event_Notification
      (NotificationEvent_Delivered | NotificationEvent_DeliveryFailed _)
  | Action_ReadNoticeLog, Event_Notification
      (NotificationEvent_LogRead _ | NotificationEvent_LogReadFailed)
  | Action_SaveNotice _ _, Event_Notification
      (NotificationEvent_Saved | NotificationEvent_SaveFailed)
  | Action_ReadMamState, Event_Mam (MamEvent_StateRead _ _ _ | MamEvent_StateReadFailed)
  | Action_SaveRegistrationAttempt _, Event_Mam
      (MamEvent_RegistrationAttemptSaved | MamEvent_RegistrationAttemptSaveFailed)
  | Action_SaveRatioGuard _, Event_Mam
      (MamEvent_RatioGuardSaved | MamEvent_RatioGuardSaveFailed)
  | Action_SaveReminder _, Event_Mam (MamEvent_ReminderSaved | MamEvent_ReminderSaveFailed)
  | Action_MamRequest _ _, Event_Mam (MamEvent_Answered _ _) => true
  | _, _ => false
  end.

Lemma execute_cases {V} `{Columns V, EqDecision V} message works file op :
  (∃ file' event, Storage.perform (V := V) message file op = Some (file', event) ∧
     Storage.execute message works file op = (file', Ok event)) ∨
  Storage.execute message works file op = (file, Err (failure op)).
Proof.
  unfold Storage.execute. destruct works; simpl; [|by right].
  destruct (Storage.perform message file op) as [[file' event]|]; [left; eauto|by right].
Qed.

Lemma store_event {V} `{Columns V, EqDecision V, !Rfc3339} outside file op :
  let event := (store (V := V) outside file op).1.2 in
  event = failure op ∨ ∃ file', Storage.perform notice_words file op = Some (file', event).
Proof.
  simpl. unfold store. destruct (execute_cases notice_words (disk_carries_out outside) file op)
    as [(file' & event & Hp & ->)| ->]; simpl; eauto.
Qed.

(** What the storage performs answers the action that asks for it. *)
Lemma perform_answers {V} `{Columns V, EqDecision V} message file action op file' event :
  task_of action = Task_Job (Job_Store op) →
  Storage.perform (V := V) message file op = Some (file', event) →
  answers action event = true.
Proof.
  intros Ht Hp. destruct file as [db|]; destruct op as [[]| | | | | | | | | | | | | | | | | | | |];
    simpl in Hp; try discriminate Hp;
    unfold read, read_settings, read_registry, read_last_switch, read_mam_state, read_notice_log in Hp;
    bind_inv; try discriminate; destruct action; try discriminate Ht; try reflexivity.
Qed.

Lemma failure_answers action op :
  task_of action = Task_Job (Job_Store op) → answers action (failure op) = true.
Proof. destruct action; try discriminate; intros [= <-]; reflexivity. Qed.

(** What an attempt returns when it succeeds, whatever it is answered. *)
Definition returns {A} (P : A → Prop) (d : QbittorrentClient.Attempt A) : Prop :=
  ∀ S (serve : S → WebRequest → S * Response) s,
    match (conduct serve s d).2 with Ok x => P x | Err _ => True end.

Lemma returns_ret {A} (P : A → Prop) (x : A) : P x → returns P (mret x).
Proof. by intros HP S serve s. Qed.
Lemma returns_bind {A B} (P : B → Prop) (d : QbittorrentClient.Attempt A) k :
  (∀ x, returns P (k x)) → returns P (d ≫= k).
Proof.
  intros Hk S serve s. unfold mbind, Attempt_bind. rewrite conduct_and_then.
  destruct (conduct serve s d) as [s' [x|e]]; simpl; [apply Hk|done].
Qed.

(** What a successful request returns answers the action that asks for it. *)
Lemma perform_returns lib kept action request :
  task_of action = Task_Job (Job_Qbittorrent request) →
  returns (λ event, answers action (Event_Qbittorrent event) = true)
    (QbittorrentClient.perform lib kept request).
Proof.
  intros Ht. destruct action; try discriminate Ht; injection Ht as <-;
    unfold QbittorrentClient.perform, connect;
    repeat (apply returns_bind; intros); by apply returns_ret.
Qed.

Lemma client_answers {S} lib kept client (serve : S → WebRequest → S * Response) s action request :
  task_of action = Task_Job (Job_Qbittorrent request) →
  answers action (Event_Qbittorrent
    (conduct serve s (QbittorrentClient.execute lib kept client request)).2) = true.
Proof.
  intros Ht. unfold QbittorrentClient.execute. rewrite conduct_and_then.
  assert (Hfailed : ∀ reason, answers action (Event_Qbittorrent (failed request reason)) = true)
    by (destruct action; try discriminate Ht; by injection Ht as <-).
  destruct client; [|apply Hfailed].
  pose proof (perform_returns lib kept action request Ht S serve s) as Hp.
  destruct (conduct _ _ _) as [s' [event|e]]; simpl in *; [done|apply Hfailed].
Qed.

Lemma map_ports_answers lifetime gateway bound udp tcp :
  answers (Action_RequestPortMapping lifetime)
    (Event_PortForwarding (map_ports gateway bound udp tcp lifetime)) = true.
Proof. by destruct (map_ports_event gateway bound udp tcp lifetime) as [[? ->]|(? & ? & ? & -> & _)]. Qed.

(** ** Properties *)

(** C13: whatever the disk, the network, the web UI, the gateway and MAM do, an action
    is answered by the event of its success or of its failure: a job's event, or the
    history writer's one completion, after any report of lost entries. *)
Theorem every_action_is_answered {V} `{Columns V, EqDecision V, !Rfc3339} urls lib mam_lib integrations format action :
  match task_of action with
  | Task_Job job => ∀ outside file,
      answers action (work (V := V) urls lib mam_lib integrations outside file job).1.2 = true
  | Task_History command => ∀ disk w,
      ∃ reports at_ event error,
        results (HistoryWriter.handle format disk w command) =
          results w ++ reports ++ [Input_Completed (Ok (mkWorkerCompletion (mkTimedEvent at_ event) error))] ∧
        Forall (λ i, is_completion i = false) reports ∧ answers action event = true
  | Task_Timer _ _ _ => True
  end.
Proof.
  destruct (task_of action) as [command| |job] eqn:Ht; [|done|].
  - intros disk w. destruct (handle_tracked format disk w command)
      as (reports & at_ & event & error & -> & Hq & Hc);
      [by destruct action; try discriminate Ht; injection Ht as <-|].
    exists reports, at_, event, error. split_and!; [done|done|].
    destruct action; try discriminate Ht; injection Ht as <-; by destruct Hc as [->|[n ->]].
  - intros outside file. destruct job as [lifetime|request|[|server]|topic push|request cookie|op];
      simpl.
    + destruct action; try discriminate Ht. injection Ht as ->. apply map_ports_answers.
    + by apply client_answers.
    + destruct action; try discriminate Ht. unfold check. by destruct (with_tunnel _); simpl; [destruct (exit_ip _)|].
    + destruct action; try discriminate Ht. unfold switch.
      by destruct (with_tunnel _); simpl; [destruct (default _ _)|].
    + destruct action; try discriminate Ht. unfold send. by destruct (deliver _ _ _ _ _).
    + destruct action; try discriminate Ht. by destruct (keep _ _ _ _).
    + destruct (store_event outside file op) as [->|[file' Hp]];
        [by apply failure_answers|by eapply perform_answers].
Qed.
