(* ===== verification/CommandLine.v ===== *)
(** * The command line

    What [main.rs] makes of the program's arguments: the mode, the database and, for
    [serve], the options, or what is wrong with them; and the first events of the program
    that serves ([serve] of [shell/web/mod.rs]). URLs, and the file that names the VPN
    server last connected to, are parameters; binding the listeners is left out. *)

From S2P Require Import Prelude Values Vocabulary MamApi Messages.
From S2P Require Import HistoryWriter Jobs.
From S2P Require Import Bytes Text Address.
From S2P Require MamClient.
From S2P Require Dashboard.
From S2P Require NoticeWords.

(** [OsString]: text, or bytes that are none. *)
Inductive OsString :=
  | OsString_Text (text : string)
  | OsString_Other (raw : bytes).
Definition to_str (self : OsString) : option string :=
  match self with OsString_Text text => Some text | OsString_Other _ => None end.

(** [MainResult]: an error is the detail that is printed above the usage. *)
Abbreviation MainResult T := (Result T string) (only parsing).
Definition try_main {A B} (r : MainResult A) (k : A → MainResult B) : MainResult B :=
  match r with Ok x => k x | Err e => Err e end.
Definition ok_or {A} (o : option A) (detail : string) : MainResult A :=
  match o with Some x => Ok x | None => Err detail end.

Definition startup_mode (argument : option OsString) : MainResult StartupMode :=
  ok_or (text ← argument ≫= to_str;
         named [("initialise", StartupMode_Initialise); ("resume", StartupMode_Resume)]%string text)
    "expected initialise or resume".

(** [nat_pmp_gateway]: NAT-PMP's port 5351 unless another is given. *)
Definition nat_pmp_gateway (value : string) : MainResult SocketAddr :=
  ok_or (opt_or (whole read_socket_addr_v4 (b value))
                ((λ bits, mkSocketAddr (IpAddr_V4 bits) 5351 0) <$> whole read_ipv4_addr (b value)))
    "invalid NAT-PMP gateway address".

(** The options of [serve] as they are taken one by one. *)
Record Options := mkOptions {
  option_listen : list SocketAddr;
  option_allowed_hosts : list string;
  option_qbittorrent : option string;
  option_nat_pmp_gateway : option SocketAddr;
  option_exit_ip_service : option string;
  option_servers : list VpnServer;
  option_current_file : option string;
  option_ntfy_server : option string;
  option_ntfy_relay : option SocketAddr;
  option_dashboard_url : option string;
  option_mam_site : option string;
  option_mam_tracker : option string;
}.
Definition Options_default : Options :=
  mkOptions [] [] None None None [] None None None None None None.

(** What [windlass serve] runs. *)
Record Serve := mkServe {
  serve_database : OsString;
  serve_mode : StartupMode;
  serve_listen : list SocketAddr;
  serve_allowed_hosts : list string;
  serve_integrations : Integrations;
}.

Section command_line.
(** [Url::from_str], and [std::fs::read_to_string]. *)
Context (parse_url : string → option string) (read_file : string → option string).

(** [parsed] of a URL and of a socket address. *)
Definition parsed_url (value detail : string) : MainResult string := ok_or (parse_url value) detail.
Definition parsed_addr (value detail : string) : MainResult SocketAddr :=
  ok_or (parse_socket_addr (b value)) detail.

(** One option with its value. *)
Definition take_option (self : Options) (name : option string) (value : string) : MainResult Options :=
  let asked (option : string) := bool_decide (name = Some option) in
  if asked "--listen" then
    try_main (parsed_addr value "invalid listen address") (λ addr, Ok {| self with option_listen := option_listen self ++ [addr] |})
  else if asked "--allowed-host" then Ok {| self with option_allowed_hosts := option_allowed_hosts self ++ [value] |}
  else if asked "--qbittorrent" then
    try_main (parsed_url value "invalid qBittorrent WebUI URL") (λ url, Ok {| self with option_qbittorrent := Some url |})
  else if asked "--nat-pmp-gateway" then
    try_main (nat_pmp_gateway value) (λ addr, Ok {| self with option_nat_pmp_gateway := Some addr |})
  else if asked "--exit-ip-service" then
    try_main (parsed_url value "invalid exit-IP service URL") (λ url, Ok {| self with option_exit_ip_service := Some url |})
  else if asked "--vpn-server" then
    try_main (ok_or (VpnServer_try_new value) "invalid VPN server name") (λ server, Ok {| self with option_servers := option_servers self ++ [server] |})
  else if asked "--vpn-current-file" then Ok {| self with option_current_file := Some value |}
  else if asked "--ntfy-server" then
    try_main (parsed_url value "invalid ntfy server URL") (λ url, Ok {| self with option_ntfy_server := Some url |})
  else if asked "--ntfy-relay" then
    try_main (parsed_addr value "invalid ntfy relay address") (λ addr, Ok {| self with option_ntfy_relay := Some addr |})
  else if asked "--dashboard-url" then
    try_main (parsed_url value "invalid dashboard URL") (λ url, Ok {| self with option_dashboard_url := Some url |})
  else if asked "--mam-site" then
    try_main (parsed_url value "invalid MAM site URL") (λ url, Ok {| self with option_mam_site := Some url |})
  else if asked "--mam-tracker" then
    try_main (parsed_url value "invalid MAM tracker URL") (λ url, Ok {| self with option_mam_tracker := Some url |})
  else Err "unknown option"%string.

(** The options two by two; the value is taken before the option is looked at. *)
Fixpoint take_options (self : Options) (arguments : list OsString) : MainResult Options :=
  match arguments with
  | [] => Ok self
  | name :: rest =>
      match rest with
      | OsString_Text value :: rest =>
          try_main (take_option self (to_str name) value) (λ self, take_options self rest)
      | _ => Err "missing option value"%string
      end
  end.

(** [current_server]: absent or unreadable means unknown. *)
Definition current_server (path : string) : option VpnServer :=
  name ← read_file path; VpnServer_try_new (t (trim (b name))).

Definition mam_hosts (options : Options) : MainResult (option MamClient.MamHosts) :=
  match option_mam_site options, option_mam_tracker options with
  | Some site, Some tracker => Ok (Some (MamClient.mkMamHosts site tracker))
  | None, None => Ok None
  | _, _ => Err "--mam-site and --mam-tracker go together"%string
  end.

Definition tunnel_checks (options : Options) : MainResult (option TunnelChecks) :=
  match option_exit_ip_service options with
  | Some service => Ok (Some {|
      exit_ip_service := service;
      check_servers := option_servers options;
      check_current := option_current_file options ≫= current_server;
      unit_starter := "systemctl" |})
  | None =>
      if is_empty (option_servers options) && is_none (option_current_file options) then Ok None
      else Err "VPN servers need --exit-ip-service"%string
  end.

(** [serve]: up to binding the listeners. *)
Definition serve (arguments : list OsString) : MainResult Serve :=
  try_main (startup_mode (list.head arguments)) (λ mode,
  try_main (ok_or (list.head (tail arguments)) "missing database path") (λ database,
  try_main (take_options Options_default (tail (tail arguments))) (λ options,
  try_main (mam_hosts options) (λ mam,
  try_main (tunnel_checks options) (λ tunnel,
    if is_empty (option_listen options) then Err "at least one --listen address is required"%string
    else Ok {|
      serve_database := database;
      serve_mode := mode;
      serve_listen := option_listen options;
      serve_allowed_hosts := option_allowed_hosts options;
      serve_integrations := {|
        with_qbittorrent := option_qbittorrent options;
        with_nat_pmp_gateway := option_nat_pmp_gateway options;
        with_tunnel := tunnel;
        with_ntfy_server := option_ntfy_server options;
        with_ntfy_relay := option_ntfy_relay options;
        with_dashboard_url := option_dashboard_url options;
        with_mam := mam |} |}))))).

(** [main]: the dashboard, or the console on a database. *)
Inductive Program :=
  | Program_Serve (options : Serve)
  | Program_Console (database : OsString) (mode : StartupMode).

Definition is_serve (argument : OsString) : bool :=
  match to_str argument with Some text => String.eqb text "serve" | None => false end.

Definition main (arguments : list OsString) : MainResult Program :=
  if is_some_and (list.head arguments) is_serve
  then try_main (serve (tail arguments)) (λ options, Ok (Program_Serve options))
  else
    try_main (startup_mode (list.head arguments)) (λ mode,
    try_main (ok_or (list.head (tail arguments)) "missing database path") (λ database,
      if is_empty (tail (tail arguments)) then Ok (Program_Console database mode)
      else Err "unexpected extra argument"%string)).
End command_line.

(** The first events of the program that serves. *)
Definition first_events (options : Serve) : list Event :=
  Event_Startup (StartupEvent_Start (serve_mode options)) :: enable_events (serve_integrations options).

(** A path, displayed: what is no text in it is replaced. *)
Definition OsString_display (self : OsString) : string :=
  match self with OsString_Text text => text | OsString_Other raw => t (from_utf8_lossy raw) end.

(** What the dashboard shows of how the program was started; [bound] are the addresses of
    the listeners. *)
Definition deployment_of (options : Serve) (bound : list SocketAddr) : Dashboard.Deployment :=
  let integrations := serve_integrations options in {|
  Dashboard.deployment_listen := bound;
  Dashboard.deployment_allowed_hosts := serve_allowed_hosts options;
  Dashboard.deployment_database := OsString_display (serve_database options);
  Dashboard.deployment_ntfy_server := default NoticeWords.NTFY_SH (with_ntfy_server integrations);
  Dashboard.deployment_ntfy_relay := with_ntfy_relay integrations;
  Dashboard.deployment_dashboard_url := with_dashboard_url integrations;
|}.

(** ** What an accepted command line starts *)

(** The options of a command line with their values. *)
Fixpoint named_options (arguments : list OsString) : list (option string * string) :=
  match arguments with
  | name :: OsString_Text value :: rest => (to_str name, value) :: named_options rest
  | _ => []
  end.

Definition gives (option : string) (options : list (Datatypes.option string * string)) : bool :=
  existsb (λ o, bool_decide (o.1 = Some option)) options.
Definition values_of (option : string) (options : list (Datatypes.option string * string)) : list string :=
  map snd (List.filter (λ o, bool_decide (o.1 = Some option)) options).

(** The options taken so far, beside the command line they were taken from. *)
Definition taken (before after : Options) (given : list (option string * string)) : Prop :=
  option_servers after = option_servers before ++ values_of "--vpn-server" given ∧
  option_allowed_hosts after = option_allowed_hosts before ++ values_of "--allowed-host" given ∧
  length (option_listen after) = (length (option_listen before) + length (values_of "--listen" given))%nat ∧
  is_some (option_qbittorrent after) = is_some (option_qbittorrent before) || gives "--qbittorrent" given ∧
  is_some (option_nat_pmp_gateway after)
    = is_some (option_nat_pmp_gateway before) || gives "--nat-pmp-gateway" given ∧
  is_some (option_exit_ip_service after)
    = is_some (option_exit_ip_service before) || gives "--exit-ip-service" given ∧
  is_some (option_current_file after)
    = is_some (option_current_file before) || gives "--vpn-current-file" given ∧
  is_some (option_mam_site after) = is_some (option_mam_site before) || gives "--mam-site" given ∧
  is_some (option_mam_tracker after) = is_some (option_mam_tracker before) || gives "--mam-tracker" given.

Lemma try_main_Ok {A B} (r : MainResult A) (k : A → MainResult B) y :
  try_main r k = Ok y → ∃ x, r = Ok x ∧ k x = Ok y.
Proof. destruct r; [eauto|done]. Qed.

Lemma ok_or_Ok {A} (o : option A) detail x : ok_or o detail = Ok x → o = Some x.
Proof. destruct o; [by intros [= ->]|done]. Qed.

Lemma take_option_taken parse_url self name value self' :
  take_option parse_url self name value = Ok self' → taken self self' [(name, value)].
Proof.
  unfold take_option. cbv zeta. intros H.
  repeat (let E := fresh in
    match type of H with
    | context [if bool_decide (name = Some ?o) then _ else _] =>
        destruct (bool_decide (name = Some o)) eqn:E; [apply bool_decide_eq_true in E; subst name|]
    end);
  try (apply try_main_Ok in H as (x & Hx & H)); try discriminate H; injection H as <-;
  unfold taken, gives, values_of; simpl;
  try (apply ok_or_Ok in Hx; unfold VpnServer_try_new in Hx; apply then_some_Some in Hx as [_ <-]);
  rewrite ?app_nil_r, ?length_app, ?orb_false_r, ?orb_true_r, ?Nat.add_0_r; by split_and!.
Qed.

Lemma taken_app self self' self'' x y :
  taken self self' x → taken self' self'' y → taken self self'' (x ++ y).
Proof.
  unfold taken, values_of, gives. intros (?&?&?&?&?&?&?&?&?) (?&?&?&?&?&?&?&?&?).
  rewrite !existsb_app, !List.filter_app, !map_app, !length_app.
  repeat match goal with H : _ = _ |- _ => rewrite H; clear H end.
  rewrite <-!(assoc_L (++)), !orb_assoc. split_and!; done || lia.
Qed.

Lemma taken_none self : taken self self [].
Proof. unfold taken, values_of, gives. simpl. rewrite !app_nil_r, !orb_false_r. split_and!; done || lia. Qed.

Lemma take_options_taken parse_url self arguments self' :
  take_options parse_url self arguments = Ok self' → taken self self' (named_options arguments).
Proof.
  remember (length arguments) as n eqn:Hn. revert arguments self Hn.
  induction n as [n IH] using lt_wf_ind. intros [|name [|[value|raw] rest]] self Hn H; try discriminate H.
  - injection H as <-. apply taken_none.
  - cbn in H. apply try_main_Ok in H as (mid & Hm & H). change (named_options _) with
      ([(to_str name, value)] ++ named_options rest).
    eapply taken_app; [by eapply take_option_taken|]. eapply (IH (length rest)); [simpl in Hn; lia|done|done].
Qed.

(** Only valid names are taken as servers. *)
Lemma take_options_servers parse_url self arguments self' :
  Forall name_ok (option_servers self) → take_options parse_url self arguments = Ok self' →
  Forall name_ok (option_servers self').
Proof.
  remember (length arguments) as n eqn:Hn. revert arguments self Hn.
  induction n as [n IH] using lt_wf_ind. intros [|name [|[value|raw] rest]] self Hn Hs H; try discriminate H.
  - by injection H as <-.
  - cbn in H. apply try_main_Ok in H as (mid & Hm & H). simpl in Hn.
    apply (IH (length rest) ltac:(lia) rest mid eq_refl); [|done]. clear IH H.
    unfold take_option in Hm. cbv zeta in Hm.
    repeat match type of Hm with
    | context [if ?c then _ else _] => destruct c
    end; try (apply try_main_Ok in Hm as (x & Hx & Hm)); try discriminate Hm; injection Hm as <-; try done.
    simpl. apply Forall_app. split; [done|]. constructor; [|done]. apply ok_or_Ok in Hx.
    by apply VpnServer_try_new_ok in Hx as [_ ?].
Qed.

(** a command line that [serve] accepts starts exactly what it names: the program is
    given an address to listen on; MAM is enabled if and only if both of its hosts are
    named, port forwarding with a gateway, qBittorrent with its URL, and the tunnel's
    checks with their service, over the servers named, in their order, all with valid
    names; servers without the service, or one MAM host without the other, are refused.
    The first event is the start in the mode asked for. *)
Theorem accepted_command_lines parse_url read_file arguments options :
  serve parse_url read_file arguments = Ok options →
  let given := named_options (tail (tail arguments)) in
  let when (option : string) (event : Event) := if gives option given then [event] else [] in
  serve_listen options ≠ [] ∧
  serve_allowed_hosts options = values_of "--allowed-host" given ∧
  startup_mode (list.head arguments) = Ok (serve_mode options) ∧
  gives "--mam-site" given = gives "--mam-tracker" given ∧
  (gives "--exit-ip-service" given = false →
     values_of "--vpn-server" given = [] ∧ gives "--vpn-current-file" given = false) ∧
  Forall name_ok (values_of "--vpn-server" given) ∧
  ∃ current, first_events options =
    [Event_Startup (StartupEvent_Start (serve_mode options))]
    ++ when "--nat-pmp-gateway"%string (Event_PortForwarding PortForwardingEvent_Enable)
    ++ when "--qbittorrent"%string (Event_Qbittorrent QbittorrentEvent_Enable)
    ++ when "--exit-ip-service"%string
         (Event_Tunnel (TunnelEvent_Enable (values_of "--vpn-server" given) current))
    ++ when "--mam-site"%string (Event_Mam MamEvent_Enable).
Proof.
  unfold serve. intros H. apply try_main_Ok in H as (mode & Hmode & H).
  apply try_main_Ok in H as (database & _ & H). apply try_main_Ok in H as (o & Ho & H).
  apply try_main_Ok in H as (mam & Hmam & H). apply try_main_Ok in H as (tunnel & Htunnel & H).
  destruct (is_empty (option_listen o)) eqn:El; [done|]. injection H as <-. cbv zeta.
  pose proof (take_options_servers _ Options_default _ _ (List.Forall_nil _) Ho) as Hvalid.
  apply take_options_taken in Ho as (Hs & Hh & Hl & Hq & Hg & He & Hc & Hsite & Htracker).
  simpl in *. rewrite <-Hs, <-Hh, <-Hq, <-Hg, <-He, <-Hc, <-Hsite, <-Htracker. unfold first_events. simpl.
  split_and!; try done.
  - by destruct (option_listen o).
  - unfold mam_hosts in Hmam. by destruct (option_mam_site o), (option_mam_tracker o).
  - unfold tunnel_checks in Htunnel. intros Hnone. destruct (option_exit_ip_service o); [done|].
    destruct (_ && _) eqn:E; [|done]. apply andb_true_iff in E as [Ea Eb].
    destruct (option_servers o); [|done]. split; [done|]. unfold is_none in Eb. by apply negb_true_iff in Eb.
  - exists (option_current_file o ≫= current_server read_file). unfold enable_events. simpl.
    unfold tunnel_checks in Htunnel. unfold mam_hosts in Hmam.
    assert (mam = None ↔ option_mam_site o = None) as Hm
      by (destruct (option_mam_site o), (option_mam_tracker o); by simplify_eq).
    f_equal. destruct (option_nat_pmp_gateway o), (option_qbittorrent o); simpl;
      repeat f_equal; destruct (option_exit_ip_service o); simplify_eq; simpl; repeat f_equal;
      try (destruct (_ && _); simplify_eq; simpl);
      destruct mam, (option_mam_site o); simpl; naive_solver.
Qed.

Definition sample_arguments : list OsString :=
  map OsString_Text ["resume"; "/var/lib/windlass.sqlite"; "--listen"; "127.0.0.1:8740";
    "--exit-ip-service"; "https://ip.example/"; "--vpn-server"; "nl_1"; "--vpn-server"; "se-2";
    "--vpn-current-file"; "/run/current"; "--nat-pmp-gateway"; "10.2.0.1"]%string.

Lemma accepted_command_lines_witness :
  ∃ options, serve Some (λ _, Some " nl_1 "%string) sample_arguments = Ok options ∧
    startup_mode (list.head sample_arguments) = Ok (serve_mode options) ∧
    first_events options =
      [Event_Startup (StartupEvent_Start StartupMode_Resume);
       Event_PortForwarding PortForwardingEvent_Enable;
       Event_Tunnel (TunnelEvent_Enable ["nl_1"; "se-2"]%string (Some "nl_1"%string))].
Proof.
  destruct (serve Some (λ _, Some " nl_1 "%string) sample_arguments) as [options|] eqn:E;
    [|vm_compute in E; discriminate E].
  exists options. split; [reflexivity|]. split.
  - exact (proj1 (proj2 (proj2 (accepted_command_lines _ _ _ _ E)))).
  - vm_compute in E. injection E as <-. reflexivity.
Defined.

(** ** The inspection console

    The commands of [shell/console.rs], and the loop that sends the ones that are events
    and shows the core's state; the output is the latest status there is to write. *)
Module Console.

Definition HELP : string :=
  "Commands: pause, enable, forget, status, quit" +:+ String "010" EmptyString.

Inductive Command :=
  | Command_Event (event : Event)
  | Command_Status
  | Command_Help
  | Command_Quit.

(** [read_command]; the end of the input is [None]. *)
Definition read_command (line : option string) : Command :=
  match line with
  | None => Command_Quit
  | Some line =>
      default Command_Help
        (named [("pause", Command_Event (Event_MamPause (MamPauseEvent_Set MamRequestMode_Paused)));
                ("enable", Command_Event (Event_MamPause (MamPauseEvent_Set MamRequestMode_Enabled)));
                ("forget", Command_Event (Event_MamPause MamPauseEvent_Delete));
                ("status", Command_Status); ("quit", Command_Quit)]%string
           (t (trim (b line))))
  end.

(** What the loop takes next: a line of the input (or its end), or a new observation. *)
Inductive Turn (O : Type) :=
  | Turn_Line (line : option string)
  | Turn_Changed (observation : O).
Arguments Turn_Line {O}.
Arguments Turn_Changed {O}.

(** The loop's state: what it sent, the latest status, the observation it is of, and
    whether it has ended. *)
Record Driver (O : Type) := mkDriver {
  driver_sent : list Event;
  driver_status : string;
  driver_observation : O;
  driver_done : bool;
}.
Arguments mkDriver {O}.
Arguments driver_sent {O}. Arguments driver_status {O}. Arguments driver_observation {O}.
Arguments driver_done {O}.

Section drive.
Context {O : Type} (render : O → string).

Definition drive_start (mode : StartupMode) (observation : O) : Driver O :=
  mkDriver [Event_Startup (StartupEvent_Start mode)] (render observation) observation false.

Definition drive_turn (self : Driver O) (turn : Turn O) : Driver O :=
  if driver_done self then self else
  match turn with
  | Turn_Changed observation =>
      mkDriver (driver_sent self) (render observation) observation false
  | Turn_Line line =>
      match read_command line with
      | Command_Quit => mkDriver (driver_sent self) (driver_status self) (driver_observation self) true
      | Command_Event event =>
          mkDriver (driver_sent self ++ [event]) (driver_status self) (driver_observation self) false
      | Command_Status =>
          mkDriver (driver_sent self) (render (driver_observation self)) (driver_observation self) false
      | Command_Help =>
          mkDriver (driver_sent self) (HELP +:+ render (driver_observation self))
            (driver_observation self) false
      end
  end.
Definition drive (mode : StartupMode) (observation : O) (turns : list (Turn O)) : Driver O :=
  fold_left drive_turn turns (drive_start mode observation).
End drive.

(** The console starts the program and sends nothing but what it was told about MAM
    requests, whatever is typed. *)
Lemma console_commands {O} (render : O → string) mode observation turns event :
  event ∈ driver_sent (drive render mode observation turns) →
  event = Event_Startup (StartupEvent_Start mode) ∨
  (∃ what, event = Event_MamPause (MamPauseEvent_Set what)) ∨ event = Event_MamPause MamPauseEvent_Delete.
Proof.
  unfold drive.
  assert (∀ self, (∀ e, e ∈ driver_sent self → e = Event_Startup (StartupEvent_Start mode) ∨
      (∃ what, e = Event_MamPause (MamPauseEvent_Set what)) ∨ e = Event_MamPause MamPauseEvent_Delete) →
    ∀ e, e ∈ driver_sent (fold_left (drive_turn render) turns self) → e = Event_Startup (StartupEvent_Start mode) ∨
      (∃ what, e = Event_MamPause (MamPauseEvent_Set what)) ∨ e = Event_MamPause MamPauseEvent_Delete) as H.
  { induction turns as [|turn turns IH]; intros self Hs; [done|]. simpl. apply IH. clear IH.
    intros e. unfold drive_turn. destruct (driver_done self); [by apply Hs|].
    destruct turn as [line|o]; [|by apply Hs].
    destruct (read_command line) as [c| | |] eqn:E; try by apply Hs. simpl.
    rewrite elem_of_app, list_elem_of_singleton. intros [He| ->]; [by apply Hs|].
    unfold read_command in E. destruct line as [line|]; [|done].
    destruct (named _ _) as [cmd|] eqn:En; [|done]. simpl in E. subst cmd.
    apply find_map_Some in En as ([w cmd] & Hin & Hw). apply then_some_Some in Hw as [_ Hw].
    simpl in Hw. subst cmd. rewrite !elem_of_cons, elem_of_nil in Hin. naive_solver. }
  apply H. intros e [->|[]%not_elem_of_nil]%elem_of_cons. by left.
Qed.

End Console.
