(* ===== verification/RegistryStorage.v ===== *)
(** * The registry and its table

    The rows in memory beside the table of the database, across saves, failed
    saves and restarts: no row is lost, and a row that is neither waiting to be
    saved nor being saved is stored as it is in memory. *)

From S2P Require Import Prelude Values Vocabulary MamApi Messages Timer Qbittorrent Registry.

#[local] Arguments save : simpl never.

(** ** Rows as they are stored *)

(** What of a row is durable: all but the last observation, whose counters are
    saved only now and then. *)
Definition durable (r : TorrentRecord) :=
  (record_id r, record_identity r, record_origin r, record_desired r, record_save_path r,
   record_deletion r).

(** Each row is kept under its own id. *)
Definition rows_keyed (r : Records) : Prop :=
  ∀ id e, rec_entries r !! id = Some e → record_id (entry_record e) = id.

(** A change of the rows: rows are kept, and one whose durable part is new or
    differs is marked unsaved. *)
Record tracks (r r' : Records) : Prop := {
  tr_saving : rec_saving r' = rec_saving r;
  tr_unsaved : rec_unsaved r ⊆ rec_unsaved r';
  tr_rows : ∀ id, is_Some (rec_entries r !! id) → is_Some (rec_entries r' !! id);
  tr_keyed : rows_keyed r → rows_keyed r';
  tr_same : ∀ id e', rec_entries r' !! id = Some e' → id ∉ rec_unsaved r' →
    ∃ e, rec_entries r !! id = Some e ∧ durable (entry_record e) = durable (entry_record e');
}.

#[export] Instance tracks_preorder : PreOrder tracks.
Proof.
  split.
  - intros r. split; eauto.
  - intros r1 r2 r3 [S1 U1 R1 K1 T1] [S2 U2 R2 K2 T2].
    split; [congruence|set_solver|eauto|eauto|].
    intros id e3 He3 Hu. destruct (T2 id e3 He3 Hu) as (e2 & He2 & Hd).
    destruct (T1 id e2 He2) as (e1 & He1 & Hd'); [set_solver|]. exists e1. split; congruence.
Qed.

(** Changes that leave rows and marks alone, and those that mark what they
    change. *)
Lemma tracks_frame r r' :
  rec_entries r' = rec_entries r → rec_unsaved r' = rec_unsaved r → rec_saving r' = rec_saving r →
  tracks r r'.
Proof. intros He Hu Hs. split; unfold rows_keyed; rewrite ?He, ?Hu, ?Hs; eauto. Qed.

Lemma tracks_marked r r' id :
  rec_saving r' = rec_saving r → rec_unsaved r' = {[id]} ∪ rec_unsaved r →
  (∀ i, i ≠ id → rec_entries r' !! i = rec_entries r !! i) →
  (is_Some (rec_entries r !! id) → is_Some (rec_entries r' !! id)) →
  (rows_keyed r → ∀ e, rec_entries r' !! id = Some e → record_id (entry_record e) = id) →
  tracks r r'.
Proof.
  intros Hs Hu Ho Hid Hk. split; [done|rewrite Hu; set_solver|..].
  - intros i Hi. destruct (Z.eq_dec i id) as [->|Hne]; [by apply Hid|]. by rewrite Ho.
  - intros Hr i e He. destruct (Z.eq_dec i id) as [->|Hne]; [by apply Hk|].
    rewrite Ho in He by done. by apply Hr.
  - intros i e' He' Hi. rewrite Hu in Hi. rewrite Ho in He' by set_solver. eauto.
Qed.

Lemma set_desired_tracks r id d : tracks r (set_desired r id d).
Proof.
  apply (tracks_marked _ _ id); try done; simpl.
  - intros i Hi. by rewrite lookup_alter_ne.
  - intros [e He]. rewrite lookup_alter_eq, He. by eexists.
  - intros Hk e. rewrite lookup_alter_eq, fmap_Some. intros (e0 & He & ->).
    exact (Hk id e0 He).
Qed.

Lemma adopt_fresh r hash t :
  let '(r', id) := adopt r hash t in
  rec_saving r' = rec_saving r ∧ rec_unsaved r' = rec_unsaved r ∧ id = rec_next_id r
  ∧ (∀ i, i ≠ id → rec_entries r' !! i = rec_entries r !! i)
  ∧ (∃ e, rec_entries r' !! id = Some e ∧ record_observation (entry_record e) = None
       ∧ record_id (entry_record e) = id).
Proof.
  simpl. split_and!; try done.
  - intros i Hi. by rewrite lookup_insert_ne.
  - eexists. by rewrite lookup_insert_eq.
Qed.

Lemma Entry_observe_durable e now o :
  durable (entry_record (Entry_observe e now o).1) = durable (entry_record e).
Proof. unfold Entry_observe. by repeat (case_match; simplify_eq/=). Qed.
Lemma Entry_observe_first e now o :
  record_observation (entry_record e) = None → (Entry_observe e now o).2 = true.
Proof. unfold Entry_observe. by intros ->. Qed.

(** Recording an observation of a row, and marking it when it is due. *)
Lemma observed_tracks r id e now o :
  rec_entries r !! id = Some e →
  let '(e', save_now) := Entry_observe e now o in
  let r' := {| r with rec_entries := <[id := e']> (rec_entries r) |} in
  tracks r (if save_now : bool then {| r' with rec_unsaved := {[id]} ∪ rec_unsaved r' |} else r').
Proof.
  intros He. pose proof (Entry_observe_durable e now o) as Hd.
  destruct (Entry_observe e now o) as [e' save_now]. simpl in Hd. cbv zeta.
  destruct save_now.
  - apply (tracks_marked _ _ id); try done; simpl.
    + intros i Hi. by rewrite lookup_insert_ne.
    + intros _. rewrite lookup_insert_eq. by eexists.
    + intros Hk e0. rewrite lookup_insert_eq. intros [= <-]. rewrite <-(Hk id e He).
      by injection Hd.
  - split; simpl; [done|done|..].
    + intros i [e0 Hi]. rewrite lookup_insert_is_Some'. right. by eexists.
    + intros Hk i e0. simpl. rewrite lookup_insert_Some. intros [[<- <-]|[_ Hi]]; [|by apply Hk].
      rewrite <-(Hk id e He). by injection Hd.
    + intros i e0. rewrite lookup_insert_Some. intros [[<- <-]|[_ Hi]] _; eauto.
Qed.

(** One torrent of an update: a row just adopted is marked, since it has no
    observation yet. *)
Lemma observe_torrent_tracks now r item : tracks r (observe_torrent now r item).
Proof.
  unfold observe_torrent. destruct item as [hash t].
  match goal with |- context [let '(_, _) := ?x in _] => set (found := x) end.
  assert (∀ r2 : Records, tracks r r2 → tracks r (
    if is_some_and (rec_entries r2 !! found.2) (λ e,
      (record_desired (entry_record e) ==? Desired_Held) && is_some (torrent_completed_at t))
    then set_desired r2 found.2 Desired_Active else r2)) as Hlast.
  { intros r2 H. case_match; [|done]. etrans; [done|]. apply set_desired_tracks. }
  destruct (rec_by_hash r !! hash) as [known|]; unfold found in *; clear found.
  - simpl in Hlast. cbv zeta. apply Hlast. destruct (rec_entries r !! known) as [e|] eqn:He; [|done].
    pose proof (observed_tracks r known e (monotonic now) (mkObservation t (wall now)) He) as Ht.
    by destruct (Entry_observe _ _ _) as [e' []].
  - pose proof (adopt_fresh r hash t) as Ha. destruct (adopt r hash t) as [r1 id].
    destruct Ha as (Hs & Hu & -> & Ho & e & He & Hobs & Hid). simpl in Hlast. cbv zeta.
    apply Hlast. rewrite He.
    pose proof (Entry_observe_first e (monotonic now) (mkObservation t (wall now)) Hobs) as Hf.
    pose proof (Entry_observe_durable e (monotonic now) (mkObservation t (wall now))) as Hd.
    destruct (Entry_observe _ _ _) as [e' save_now]. simpl in Hf, Hd. subst save_now.
    apply (tracks_marked _ _ (rec_next_id r)); simpl; [done|by rewrite Hu|..].
    + intros i Hi. by rewrite lookup_insert_ne, Ho.
    + intros _. rewrite lookup_insert_eq. by eexists.
    + intros _ e0. rewrite lookup_insert_eq. intros [= <-]. rewrite <-Hid. by injection Hd.
Qed.

Lemma fold_tracks {A} (f : Records → A → Records) l r :
  (∀ r x, tracks r (f r x)) → tracks r (fold_left f l r).
Proof.
  intros Hf. revert r. induction l as [|x l IH]; intros r; [done|].
  simpl. etrans; [apply Hf|apply IH].
Qed.

Lemma bookmark_one_tracks r b : tracks r (bookmark_one r b).
Proof.
  unfold bookmark_one. destruct b as [mam desired]. case_match; [done|].
  apply (tracks_marked _ _ (rec_next_id r)); simpl; [done|done|..].
  - intros i Hi. by rewrite lookup_insert_ne.
  - intros _. rewrite lookup_insert_eq. by eexists.
  - intros _ e. rewrite lookup_insert_eq. by intros [= <-].
Qed.

Lemma link_tracks r id mam hash : tracks r (link r id mam hash).
Proof.
  unfold link.
  match goal with |- context [let '(_, _) := ?x in _] => assert (tracks r x.1) as H1 end.
  { destruct (rec_by_hash r !! hash) as [existing|]; [|done]. case_match; [|done].
    etrans; [apply (set_desired_tracks _ id Desired_Removed)|by apply tracks_frame]. }
  match goal with |- context [let '(_, _) := ?x in _] => destruct x as [r1 target] end.
  simpl in H1. etrans; [exact H1|]. cbv zeta.
  apply (tracks_marked _ _ target); simpl; try done.
  - intros i Hi. by rewrite !lookup_alter_ne.
  - intros [e He]. rewrite !lookup_alter_eq, He. by eexists.
  - intros Hk e. rewrite !lookup_alter_eq. destruct (rec_entries r1 !! target) as [e0|] eqn:He; [|done].
    intros [= <-]. exact (Hk _ _ He).
Qed.

(** ** Operations *)

(** The changes the program makes to loaded rows, each followed by a save. *)
Inductive Op :=
  | Op_Observe (session : Session)
  | Op_Bookmarked (bookmarks : list (MamTorrentId * Desired))
  | Op_Redownload (id : RecordId)
  | Op_Fetched (mam : MamTorrentId) (hash : TorrentHash)
  | Op_Snatched (mam : MamTorrentId)
  | Op_Resume (hash : TorrentHash)
  | Op_Hold (hash : TorrentHash).

Definition apply_op (r : Records) (now : ClockReading) (op : Op) : Records * list Action :=
  match op with
  | Op_Observe session => Records_observe r now session
  | Op_Bookmarked bookmarks => bookmarked r (monotonic now) bookmarks
  | Op_Redownload id => redownload r (monotonic now) id
  | Op_Fetched mam hash => fetched r (monotonic now) mam hash
  | Op_Snatched mam => snatched r (monotonic now) mam
  | Op_Resume hash => resume r (monotonic now) hash
  | Op_Hold hash => hold r (monotonic now) hash
  end.

(** Every operation is a tracked change and then a save, or nothing. *)
Lemma apply_op_spec r now op :
  ∃ r1, tracks r r1
    ∧ (apply_op r now op = save r1 (monotonic now) ∨ apply_op r now op = (r1, [])).
Proof.
  destruct op; simpl.
  - eexists. split; [|by left]. apply fold_tracks. intros. apply observe_torrent_tracks.
  - eexists. split; [|by left]. apply fold_tracks. intros. apply bookmark_one_tracks.
  - unfold redownload. destruct (opt_filter _ _) as [e|] eqn:E;
      [|exists r; split; [done|by right]].
    eexists. split; [|by left]. apply opt_filter_Some in E as [E _].
    apply (tracks_marked _ _ id); simpl; try done.
    + intros i Hi. by rewrite lookup_insert_ne.
    + intros _. rewrite lookup_insert_eq. by eexists.
    + intros Hk e0. rewrite lookup_insert_eq. intros [= <-]. exact (Hk _ _ E).
  - eexists. split; [|by left]. destruct (rec_by_mam r !! mam); [apply link_tracks|done].
  - eexists. split; [|by left]. destruct (opt_filter _ _); [apply set_desired_tracks|done].
  - eexists. split; [|by left]. destruct (opt_filter _ _); [apply set_desired_tracks|done].
  - eexists. split; [|by left]. destruct (rec_by_hash r !! hash); [apply set_desired_tracks|done].
Qed.

(** ** Saving *)

Lemma save_spec r now :
  let '(r', acts) := save r now in
  (acts = [] ∧ r' = r ∧ (is_Some (rec_saving r) ∨ rec_unsaved r = ∅))
  ∨ ∃ batch, acts = [Action_SaveTorrents batch] ∧ rec_saving r = None ∧ rec_unsaved r ≠ ∅
      ∧ rec_saving r' = Some (rec_unsaved r) ∧ rec_unsaved r' = ∅
      ∧ (∀ row, row ∈ batch ↔ ∃ id e, id ∈ rec_unsaved r ∧ rec_entries r !! id = Some e
           ∧ entry_record e = row)
      ∧ ∀ id, (λ e, entry_record e) <$> rec_entries r' !! id
          = (λ e, entry_record e) <$> rec_entries r !! id.
Proof.
  unfold save. destruct (is_some (rec_saving r)) eqn:Es; simpl.
  { left. split_and!; [done..|]. left. by destruct (rec_saving r); [eexists|]. }
  destruct (rec_unsaved r ==? ∅) eqn:Eu; reflect_bools; [left; auto|].
  right. eexists. split; [reflexivity|]. simpl. split_and!; try done.
  - by destruct (rec_saving r).
  - intros row. rewrite list_elem_of_fmap. split.
    + intros (e & -> & ([id e'] & -> & [Hid Hin]%list_elem_of_filter)%list_elem_of_fmap).
      apply elem_of_bt_items in Hin. simpl in *. eauto.
    + intros (id & e & Hid & He & <-). exists e. split; [done|]. apply list_elem_of_fmap.
      exists (id, e). split; [done|]. apply list_elem_of_filter. split; [done|].
      by apply elem_of_bt_items.
  - intros id. rewrite map_lookup_imap. destruct (rec_entries r !! id); [|done]. simpl.
    by case_bool_decide.
Qed.

(** ** The rows and the database, across restarts

    The loaded rows beside the table of the database, keyed by the rows' ids, and
    the batch of the save in progress. A save writes its batch in one transaction;
    a failed save, or one a restart cut off before it committed, writes nothing.
    After a restart the rows are read back in the order of their ids. *)
Record World := mkWorld {
  world_records : Records;
  world_table : gmap RecordId TorrentRecord;
  world_batch : list TorrentRecord;
}.

Inductive Input :=
  | Input_Op (now : ClockReading) (op : Op)
  | Input_Saved (now : Instant)
  | Input_SaveFailed (now : Instant)
  | Input_Restart (committed : bool).

Definition batch_of (acts : list Action) (batch : list TorrentRecord) : list TorrentRecord :=
  fold_left (λ batch a, match a with Action_SaveTorrents rows => rows | _ => batch end) acts batch.

(** Insert or replace the rows of a batch. *)
Definition commit (table : gmap RecordId TorrentRecord) (batch : list TorrentRecord)
    : gmap RecordId TorrentRecord :=
  fold_left (λ table row, <[record_id row := row]> table) batch table.

Definition event (r : Records) (now : Instant) (ev : RegistryEvent) : Records * list Action :=
  match Registry.handle (Registry_Loaded r) now ev with
  | (Registry_Loaded r', acts) => (r', acts)
  | (_, acts) => (r, acts)
  end.

Definition world_step (w : World) (i : Input) : World :=
  let r := world_records w in
  match i with
  | Input_Op now op =>
      let '(r', acts) := apply_op r now op in
      mkWorld r' (world_table w) (batch_of acts (world_batch w))
  | Input_Saved now =>
      let '(r', acts) := event r now RegistryEvent_Saved in
      mkWorld r' (if is_some (rec_saving r) then commit (world_table w) (world_batch w)
                  else world_table w) (batch_of acts (world_batch w))
  | Input_SaveFailed now =>
      let '(r', acts) := event r now RegistryEvent_SaveFailed in
      mkWorld r' (world_table w) (batch_of acts (world_batch w))
  | Input_Restart committed =>
      let table := if committed && is_some (rec_saving r)
                   then commit (world_table w) (world_batch w) else world_table w in
      mkWorld (Records_new (bt_values table)) table []
  end.

Definition world_start (table : gmap RecordId TorrentRecord) : World :=
  mkWorld (Records_new (bt_values table)) table [].
Definition world_run (w : World) (inputs : list Input) : World := fold_left world_step inputs w.

(** A table stores each row under its own id. *)
Definition keyed (table : gmap RecordId TorrentRecord) : Prop :=
  ∀ id row, table !! id = Some row → record_id row = id.

(** What storage will hold of a row if the save in progress succeeds. *)
Definition stored (w : World) (id : RecordId) : option TorrentRecord :=
  (if is_some (rec_saving (world_records w)) then commit (world_table w) (world_batch w)
   else world_table w) !! id.

(** ** The table after a commit *)

Lemma commit_app table a b : commit table (a ++ b) = commit (commit table a) b.
Proof. apply fold_left_app. Qed.

Lemma commit_other table batch id :
  (∀ row, row ∈ batch → record_id row ≠ id) → commit table batch !! id = table !! id.
Proof.
  induction batch as [|row batch IH] using rev_ind; intros Hne; [done|].
  rewrite commit_app. simpl. rewrite lookup_insert_ne.
  - apply IH. intros row' Hin. apply Hne. rewrite elem_of_app. by left.
  - apply Hne. rewrite elem_of_app, list_elem_of_singleton. by right.
Qed.

Lemma commit_Some table batch id row :
  commit table batch !! id = Some row →
  table !! id = Some row ∨ row ∈ batch ∧ record_id row = id.
Proof.
  revert row. induction batch as [|row' batch IH] using rev_ind; intros row; [by left|].
  rewrite commit_app. simpl. rewrite lookup_insert_Some, elem_of_app, list_elem_of_singleton.
  intros [[<- <-]|[_ H]]; [by auto|]. destruct (IH row H) as [|[]]; auto.
Qed.

Lemma commit_in table batch row :
  row ∈ batch →
  ∃ row', commit table batch !! record_id row = Some row' ∧ row' ∈ batch
    ∧ record_id row' = record_id row.
Proof.
  induction batch as [|last batch IH] using rev_ind; [by intros ?%elem_of_nil|].
  rewrite commit_app. simpl. intros Hin.
  destruct (Z.eq_dec (record_id last) (record_id row)) as [Heq|Hne].
  - exists last. rewrite Heq, lookup_insert_eq, elem_of_app, list_elem_of_singleton. auto.
  - rewrite elem_of_app, list_elem_of_singleton in Hin.
    destruct Hin as [Hin| ->]; [|done]. destruct (IH Hin) as (row' & Hr & Hb & Hid).
    exists row'. rewrite lookup_insert_ne, elem_of_app by done. auto.
Qed.

Lemma commit_keyed table batch : keyed table → keyed (commit table batch).
Proof. intros Hk id row [H|[_ H]]%commit_Some; [by apply Hk|done]. Qed.

Lemma commit_keeps table batch id : is_Some (table !! id) → is_Some (commit table batch !! id).
Proof.
  intros H. induction batch as [|row batch IH] using rev_ind; [done|].
  rewrite commit_app. simpl. rewrite lookup_insert_is_Some'. by right.
Qed.

Lemma records_new_entries table id e :
  keyed table → rec_entries (Records_new (bt_values table)) !! id = Some e →
  table !! id = Some (entry_record e) ∧ e = Entry_new (entry_record e).
Proof.
  simpl. intros Hk H%bt_collect_Some. apply list_elem_of_fmap in H as (row & [= -> ->] & Hin).
  apply elem_of_bt_values in Hin as [id' Hin]. simpl. by rewrite (Hk _ _ Hin).
Qed.

Lemma records_new_is_Some table id :
  keyed table → is_Some (table !! id) → is_Some (rec_entries (Records_new (bt_values table)) !! id).
Proof.
  simpl. intros Hk [row Hr]. apply bt_collect_is_Some. rewrite <-list_fmap_compose.
  apply list_elem_of_fmap. exists row. split; [by rewrite <-(Hk _ _ Hr)|].
  apply elem_of_bt_values. eauto.
Qed.

(** ** The invariant *)

(** The batch of a save in progress holds rows of the ids being saved. *)
Definition batch_ok (w : World) : Prop :=
  match rec_saving (world_records w) with
  | Some ids => ∀ row, row ∈ world_batch w → record_id row ∈ ids
  | None => True
  end.

Record world_inv (w : World) : Prop := {
  wi_keyed : keyed (world_table w);
  wi_rows : rows_keyed (world_records w);
  wi_batch : batch_ok w;
  wi_known : ∀ id, is_Some (stored w id) → is_Some (rec_entries (world_records w) !! id);
  wi_stored : ∀ id e, rec_entries (world_records w) !! id = Some e →
    id ∉ rec_unsaved (world_records w) →
    ∃ row, stored w id = Some row ∧ durable row = durable (entry_record e);
}.

Lemma stored_from_table w id : is_Some (world_table w !! id) → is_Some (stored w id).
Proof. unfold stored. case_match; [apply commit_keeps|done]. Qed.

(** A row outside the save in progress is stored already. *)
Lemma stored_settled w id :
  batch_ok w → (∀ ids, rec_saving (world_records w) = Some ids → id ∉ ids) →
  stored w id = world_table w !! id.
Proof.
  unfold stored, batch_ok. intros Hb Hid. destruct (rec_saving _) as [ids|]; simpl; [|done].
  apply commit_other. intros row Hin <-. by apply (Hid ids), Hb.
Qed.

Lemma start_inv table : keyed table → world_inv (world_start table).
Proof.
  intros Hk. split; simpl; try done.
  - intros id e [H _]%records_new_entries; [|done]. by apply Hk.
  - intros id H. by apply (records_new_is_Some table).
  - intros id e [H _]%records_new_entries _; [|done]. eauto.
Qed.

(** A tracked change keeps the invariant; so does the save after it. *)
Lemma tracks_inv w r :
  world_inv w → tracks (world_records w) r → world_inv {| w with world_records := r |}.
Proof.
  intros [K R B N S] [Ts Tu Tr Tk Td].
  assert (∀ id, stored {| w with world_records := r |} id = stored w id) as Hst
    by (intros id; unfold stored; simpl; by rewrite Ts).
  split; simpl; auto.
  - unfold batch_ok in *. simpl. by rewrite Ts.
  - intros id. rewrite Hst. eauto.
  - intros id e He Hu. rewrite Hst. destruct (Td id e He Hu) as (e0 & He0 & <-). apply S; [done|set_solver].
Qed.

Lemma save_inv w now :
  world_inv w →
  let '(r, acts) := save (world_records w) now in
  world_inv (mkWorld r (world_table w) (batch_of acts (world_batch w))).
Proof.
  intros [K R B N S]. pose proof (save_spec (world_records w) now) as Hs.
  destruct (save _ _) as [r acts].
  destruct Hs as [(-> & -> & _)|(batch & -> & Hno & _ & Hsv & Hu & Hb & He)]; [by destruct w; split|].
  assert (∀ id e, rec_entries r !! id = Some e →
    ∃ e0, rec_entries (world_records w) !! id = Some e0 ∧ entry_record e = entry_record e0) as Hback.
  { intros id e Hr. specialize (He id). rewrite Hr in He. simpl in He. symmetry in He.
    apply fmap_Some in He as (e0 & ? & ?). eauto. }
  assert (∀ row, row ∈ batch → record_id row ∈ rec_unsaved (world_records w)) as Hids.
  { intros row (id & e & Hid & Hr & <-)%Hb. by rewrite (R id e Hr). }
  assert (rows_keyed r) as Hk'.
  { intros id e (e0 & H0 & ->)%Hback. by apply R. }
  assert (∀ id, stored (mkWorld r (world_table w) batch) id = commit (world_table w) batch !! id) as Hst
    by (intros id; unfold stored; simpl; by rewrite Hsv).
  split; simpl; try done.
  - unfold batch_ok. simpl. by rewrite Hsv.
  - intros id. rewrite Hst. intros [row [Ht|[Hin <-]]%commit_Some].
    + specialize (He id). destruct (N id) as [e Hr]; [by apply stored_from_table; rewrite Ht|].
      rewrite Hr in He. simpl in He. apply fmap_Some in He as (e1 & -> & _). by eexists.
    + apply Hb in Hin as (id & e & _ & Hr & <-). rewrite (R id e Hr). specialize (He id).
      rewrite Hr in He. simpl in He. apply fmap_Some in He as (e1 & -> & _). by eexists.
  - intros id e Hr _. rewrite Hst. destruct (Hback id e Hr) as (e0 & H0 & ->).
    destruct (base.decide (id ∈ rec_unsaved (world_records w))) as [Hin|Hout].
    + assert (entry_record e0 ∈ batch) as Hin' by (apply Hb; eauto 6).
      destruct (commit_in (world_table w) batch _ Hin') as (row & Hc & Hin2 & Heq).
      rewrite (R _ _ H0) in Hc, Heq. exists row. split; [done|].
      apply Hb in Hin2 as (id' & e' & _ & He' & <-). rewrite (R _ _ He') in Heq. subst id'.
      by simplify_eq.
    + rewrite commit_other.
      * destruct (S id e0 H0 Hout) as (row & Hrow & Hd). exists row. split; [|done].
        rewrite <-Hrow. unfold stored. by rewrite Hno.
      * intros row Hin <-. apply Hout, Hids, Hin.
Qed.

(** Nothing being saved: what is stored is the table. *)
Lemma saved_inv r table batch :
  world_inv (mkWorld r table batch) → is_Some (rec_saving r) →
  world_inv (mkWorld {| r with rec_saving := None; rec_last_save := LastSave_Saved |}
               (commit table batch) batch).
Proof.
  intros [K R B N S] [ids Hs]. unfold stored, batch_ok in *. simpl in *. rewrite Hs in *.
  split; simpl; try done. by apply commit_keyed.
Qed.

Lemma save_failed_inv r table batch saving :
  world_inv (mkWorld r table batch) → rec_saving r = Some saving →
  world_inv (mkWorld {| r with rec_unsaved := rec_unsaved r ∪ saving; rec_saving := None;
                               rec_last_save := LastSave_Failed |} table batch).
Proof.
  intros [K R B N S] Hs. pose proof (stored_settled _ : ∀ id, batch_ok (mkWorld r table batch) → _) as Hst.
  split; simpl; try done.
  - intros id H. apply N, stored_from_table, H.
  - intros id e He Hid. apply not_elem_of_union in Hid as [Hu Hsv].
    destruct (S id e He Hu) as (row & Hrow & Hd). exists row. split; [|done].
    rewrite <-Hrow. symmetry. apply Hst; [done|]. simpl. rewrite Hs. by intros ? [= <-].
Qed.

Lemma world_step_keeps_inv w i : world_inv w → world_inv (world_step w i).
Proof.
  intros Hw. destruct w as [r table batch], i as [now op|now|now|committed]; simpl.
  - destruct (apply_op_spec r now op) as (r1 & Ht & [->| ->]).
    + pose proof (save_inv _ (monotonic now) (tracks_inv _ _ Hw Ht)) as H. simpl in H.
      by destruct (save r1 _) as [r2 acts].
    + exact (tracks_inv _ _ Hw Ht).
  - unfold event. simpl. destruct (rec_saving r) as [ids|] eqn:Es; simpl; [|exact Hw].
    pose proof (save_inv _ now (saved_inv r table batch Hw ltac:(by rewrite Es))) as H. simpl in H.
    by destruct (save _ now) as [r2 acts].
  - unfold event. simpl. destruct (rec_saving r) as [ids|] eqn:Es; [|exact Hw].
    by apply save_failed_inv.
  - apply start_inv. destruct (committed && _); [apply commit_keyed|]; apply Hw.
Qed.

Lemma world_run_keeps_inv w inputs : world_inv w → world_inv (world_run w inputs).
Proof.
  revert w. induction inputs as [|i inputs IH]; intros w Hw; [done|].
  apply IH, world_step_keeps_inv, Hw.
Qed.

(** The table never loses a row. *)
Lemma world_step_table w i id :
  is_Some (world_table w !! id) → is_Some (world_table (world_step w i) !! id).
Proof.
  intros H. destruct w as [r table batch], i as [now op|now|now|committed]; simpl in *.
  - by destruct (apply_op r now op).
  - destruct (event _ _ _). simpl. case_match; [by apply commit_keeps|done].
  - by destruct (event _ _ _).
  - case_match; [by apply commit_keeps|done].
Qed.

Lemma world_run_table w inputs id :
  is_Some (world_table w !! id) → is_Some (world_table (world_run w inputs) !! id).
Proof.
  revert w. induction inputs as [|i inputs IH]; intros w Hw; [done|].
  apply IH, world_step_table, Hw.
Qed.


(** After a save nothing is left that is not being saved. *)
Lemma save_clears r now :
  rec_saving r = None → rec_unsaved (save r now).1 = ∅.
Proof.
  intros Hs. pose proof (save_spec r now) as H. destruct (save r now) as [r' acts].
  destruct H as [(_ & -> & [[? ?]|?])|(? & _ & _ & _ & _ & ? & _)]; simpl; congruence.
Qed.
Lemma save_busy_or_clear r now :
  is_Some (rec_saving (save r now).1) ∨ rec_unsaved (save r now).1 = ∅.
Proof.
  pose proof (save_spec r now) as H. destruct (save r now) as [r' acts].
  destruct H as [(_ & -> & [?|?])|(? & _ & _ & _ & Hs & _)]; simpl; auto.
Qed.

Lemma world_saved w now :
  is_Some (rec_saving (world_records w)) ∨ rec_unsaved (world_records w) = ∅ →
  let w' := world_step w (Input_Saved now) in
  rec_unsaved (world_records w') = ∅
  ∧ (rec_unsaved (world_records w) = ∅ → rec_saving (world_records w') = None).
Proof.
  destruct w as [r table batch]. unfold world_step, event. simpl.
  destruct (rec_saving r) as [ids|] eqn:Es; simpl.
  - intros _.
    match goal with |- context [save ?x ?y] =>
      pose proof (save_clears x y eq_refl) as Hc; pose proof (save_spec x y) as Hs;
      destruct (save x y) as [r2 acts] end.
    simpl. split; [done|]. intros Hu. destruct Hs as [(_ & -> & _)|(? & _ & _ & Hne & _)]; [done|].
    by destruct Hne.
  - by intros [[? ?]|?].
Qed.

(** Two saves settle everything: once qBittorrent's torrents have been
    observed, two successful saves later nothing is unsaved or being saved, and
    every row in memory is in the database with its durable part, even if
    earlier saves failed or rows changed while a save was in progress. *)
Theorem registry_settles_after_two_saves table inputs now session now1 now2 :
  keyed table →
  let w := world_run (world_start table)
             (inputs ++ [Input_Op now (Op_Observe session); Input_Saved now1; Input_Saved now2]) in
  rec_unsaved (world_records w) = ∅ ∧ rec_saving (world_records w) = None
  ∧ ∀ id e, rec_entries (world_records w) !! id = Some e →
      ∃ row, world_table w !! id = Some row ∧ durable row = durable (entry_record e).
Proof.
  intros Hk w. pose proof (world_run_keeps_inv _ (inputs ++ [Input_Op now (Op_Observe session);
    Input_Saved now1; Input_Saved now2]) (start_inv table Hk)) as Hw. fold w in Hw.
  assert (rec_unsaved (world_records w) = ∅ ∧ rec_saving (world_records w) = None) as [Hu Hs].
  { unfold w, world_run. rewrite fold_left_app.
    set (w0 := fold_left world_step inputs (world_start table)).
    cbn [fold_left].
    assert (is_Some (rec_saving (world_records (world_step w0 (Input_Op now (Op_Observe session)))))
      ∨ rec_unsaved (world_records (world_step w0 (Input_Op now (Op_Observe session)))) = ∅) as H0.
    { unfold world_step, apply_op, Records_observe.
      match goal with |- context [save ?x ?y] =>
        pose proof (save_busy_or_clear x y) as Hc; destruct (save x y) as [r2 acts] end. done. }
    destruct (world_saved _ now1 H0) as [H1 _].
    destruct (world_saved _ now2 (or_intror H1)) as [H2 H3]. auto. }
  split_and!; [done|done|]. intros id e He.
  destruct (wi_stored _ Hw id e He) as (row & Hrow & Hd); [rewrite Hu; set_solver|].
  exists row. split; [|done]. rewrite <-Hrow. unfold stored. by rewrite Hs.
Qed.

(** *** Witnesses *)

Definition sample_row (id : RecordId) (identity : Identity) (desired : Desired) : TorrentRecord := {|
  record_id := id;
  record_identity := identity;
  record_origin := Origin_Bookmark;
  record_desired := desired;
  record_save_path := None;
  record_deletion := ContentDeletion_NotAllowed;
  record_observation := None |}.

Definition sample_table : gmap RecordId TorrentRecord :=
  <[1 := sample_row 1 (Identity_Linked 7 "aa") Desired_Active]>
    {[2 := sample_row 2 (Identity_Mam 8) Desired_Queued]}.

Lemma sample_table_keyed : keyed sample_table.
Proof.
  intros id row. unfold sample_table. rewrite lookup_insert_Some, lookup_singleton_Some.
  by intros [[<- <-]|[_ [<- <-]]].
Qed.

Definition sample_session : Session := {|
  session_version := ReportedVersion_Unrecognised "5";
  session_approval := MamApproval_Allowed;
  session_preferences := mkQbittorrentPreferences None None None;
  session_torrents := {["cc"%string := Torrent_default]};
  session_activity := Activity_Syncing;
  session_position := 0;
  session_listing := Listing_Received;
  session_polls_since_preferences := 0 |}.

Definition reading_at (s : Z) : ClockReading := mkClockReading (from_secs s) (from_secs s).

(** A bookmark joins, its save fails, the row is fetched and the program restarts
    in the middle of the save. *)
Definition sample_inputs : list Input := [
  Input_Op (reading_at 1) (Op_Bookmarked [(9, Desired_Queued)]);
  Input_SaveFailed (from_secs 2);
  Input_Op (reading_at 3) (Op_Fetched 8 "bb");
  Input_Restart true;
  Input_Op (reading_at 4) (Op_Fetched 9 "bb")].


Lemma registry_settles_witness :
  rec_saving (world_records (world_run (world_start sample_table)
    (sample_inputs ++ [Input_Op (reading_at 5) (Op_Observe sample_session);
       Input_Saved (from_secs 6); Input_Saved (from_secs 7)]))) = None
  ∧ durable <$> world_table (world_run (world_start sample_table)
      (sample_inputs ++ [Input_Op (reading_at 5) (Op_Observe sample_session);
         Input_Saved (from_secs 6); Input_Saved (from_secs 7)])) !! 4
    = Some (4, Identity_Client "cc", Origin_Adopted, Desired_Active, None,
            ContentDeletion_NotAllowed).
Proof.
  destruct (registry_settles_after_two_saves sample_table sample_inputs (reading_at 5)
    sample_session (from_secs 6) (from_secs 7) sample_table_keyed) as (_ & Hs & _).
  split; [exact Hs|by vm_compute].
Defined.
