(* ===== verification/RegistryIndex.v ===== *)
(** * The indexes of the registry

    Rows are found by hash and by MAM ID through two indexes beside them. The
    indexes stay sound through every change of the registry, so two rows never
    share a hash and no row is out of reach of its hash or its MAM ID. *)

From S2P Require Import Prelude Values Vocabulary MamApi Messages Timer Qbittorrent Registry.
From S2P Require Import RegistryStorage.

#[local] Arguments save : simpl never.

(** ** Changes of the registry *)

(** Storage keeps rows under distinct ids with distinct hashes. *)
Record rows_distinct (rows : list TorrentRecord) : Prop := {
  rd_ids : ∀ a b, a ∈ rows → b ∈ rows → record_id a = record_id b → a = b;
  rd_hashes : ∀ a b h, a ∈ rows → b ∈ rows →
    Identity_hash (record_identity a) = Some h → Identity_hash (record_identity b) = Some h →
    record_id a = record_id b;
}.

Definition registry_event_ok (ev : RegistryEvent) : Prop :=
  match ev with RegistryEvent_Read rows => rows_distinct rows | _ => True end.

(** What changes a registry: its reading, its events, the operations on its rows,
    and the note of the last command. *)
Inductive moves : Registry → Registry → Prop :=
  | moves_start reg : moves reg Registry_Reading
  | moves_event reg now ev : registry_event_ok ev → moves reg (Registry.handle reg now ev).1
  | moves_op r now op : moves (Registry_Loaded r) (Registry_Loaded (apply_op r now op).1)
  | moves_command r last : moves (Registry_Loaded r) (Registry_Loaded {| r with rec_last_command := last |}).

(** ** The indexes *)

Record indexed (r : Records) : Prop := {
  ix_keyed : rows_keyed r;
  ix_hash : ∀ id e h, rec_entries r !! id = Some e →
    Identity_hash (record_identity (entry_record e)) = Some h → rec_by_hash r !! h = Some id;
  ix_mam : ∀ id e mam, rec_entries r !! id = Some e →
    Identity_mam_id (record_identity (entry_record e)) = Some mam → is_Some (rec_by_mam r !! mam);
  ix_hash_row : ∀ h id, rec_by_hash r !! h = Some id → is_Some (rec_entries r !! id);
  ix_mam_row : ∀ mam id, rec_by_mam r !! mam = Some id → is_Some (rec_entries r !! id);
}.

Definition registry_ok (reg : Registry) : Prop :=
  match reg with Registry_Loaded r => indexed r | _ => True end.

(** A change of rows that keeps their identities and both indexes. *)
Lemma indexed_same r r' :
  rec_by_hash r' = rec_by_hash r → rec_by_mam r' = rec_by_mam r →
  (∀ id, (λ e, (record_id (entry_record e), record_identity (entry_record e))) <$> rec_entries r' !! id
       = (λ e, (record_id (entry_record e), record_identity (entry_record e))) <$> rec_entries r !! id) →
  indexed r → indexed r'.
Proof.
  intros Hh Hm He [K H M HR MR].
  assert (∀ id e', rec_entries r' !! id = Some e' → ∃ e, rec_entries r !! id = Some e
    ∧ record_id (entry_record e') = record_id (entry_record e)
    ∧ record_identity (entry_record e') = record_identity (entry_record e)) as Hback.
  { intros id e' He'. specialize (He id). rewrite He' in He. simpl in He. symmetry in He.
    apply fmap_Some in He as (e & Hr & [= -> ->]). eauto. }
  assert (∀ id, is_Some (rec_entries r !! id) → is_Some (rec_entries r' !! id)) as Hforth.
  { intros id [e Hr]. specialize (He id). rewrite Hr in He. simpl in He.
    apply fmap_Some in He as (e' & -> & _). by eexists. }
  split; rewrite ?Hh, ?Hm.
  - intros id e' (e & Hr & -> & _)%Hback. by apply K.
  - intros id e' h (e & Hr & _ & ->)%Hback. by apply (H id e).
  - intros id e' mam (e & Hr & _ & ->)%Hback. by apply (M id e).
  - intros h id Hi. by apply Hforth, (HR h).
  - intros mam id Hi. by apply Hforth, (MR mam).
Qed.

(** A row put under [id], with its hash and its MAM ID indexed to it. *)
Lemma indexed_put r r' id e :
  rec_entries r' = <[id := e]> (rec_entries r) →
  record_id (entry_record e) = id →
  (∀ h, Identity_hash (record_identity (entry_record e)) = Some h → rec_by_hash r' !! h = Some id) →
  (∀ mam, Identity_mam_id (record_identity (entry_record e)) = Some mam →
     is_Some (rec_by_mam r' !! mam)) →
  (∀ h i, rec_by_hash r' !! h = Some i → i = id ∨ rec_by_hash r !! h = Some i) →
  (∀ mam i, rec_by_mam r' !! mam = Some i → i = id ∨ is_Some (rec_entries r !! i)) →
  (∀ h i, rec_by_hash r !! h = Some i → i ≠ id → rec_by_hash r' !! h = Some i) →
  (∀ mam, is_Some (rec_by_mam r !! mam) → is_Some (rec_by_mam r' !! mam)) →
  indexed r → indexed r'.
Proof.
  intros He Hid Hh Hm Hbh Hbm Hkh Hkm [K H M HR MR]. split; unfold rows_keyed; rewrite He.
  - intros i e'. rewrite lookup_insert_Some. intros [[<- <-]|[_ Hr]]; [done|by apply K].
  - intros i e' h. rewrite lookup_insert_Some. intros [[<- <-]|[Hne Hr]] Hi; [by apply Hh|].
    apply Hkh; [by apply (H i e')|done].
  - intros i e' mam. rewrite lookup_insert_Some. intros [[<- <-]|[_ Hr]] Hi; [by apply Hm|].
    by apply Hkm, (M i e').
  - intros h i Hi. rewrite lookup_insert_is_Some'. destruct (Hbh h i Hi) as [->|Hr]; [by left|].
    right. by apply (HR h).
  - intros mam i Hi. rewrite lookup_insert_is_Some'. destruct (Hbm mam i Hi) as [->|Hr]; auto.
Qed.

Lemma set_desired_indexed r id d : indexed r → indexed (set_desired r id d).
Proof.
  apply indexed_same; [done..|]. intros i. simpl. destruct (Z.eq_dec i id) as [->|Hne].
  - rewrite lookup_alter_eq. by destruct (rec_entries r !! id).
  - by rewrite lookup_alter_ne.
Qed.

Lemma save_indexed r now : indexed r → indexed (save r now).1.
Proof.
  apply indexed_same; unfold save; (destruct (_ || _); [done|]); simpl; try done.
  intros id. rewrite map_lookup_imap. destruct (rec_entries r !! id); [|done]. simpl.
  by case_bool_decide.
Qed.

Lemma adopt_indexed r hash t :
  rec_by_hash r !! hash = None → indexed r → indexed (adopt r hash t).1.
Proof.
  intros Hn Hr. pose proof Hr as [K H M HR MR]. unfold adopt.
  eapply (indexed_put r); [reflexivity| | | | | | | |exact Hr]; simpl; try done.
  - intros h [= <-]. by rewrite lookup_insert_eq.
  - intros h i. rewrite lookup_insert_Some. intros [[_ <-]|[_ Hi]]; auto.
  - intros mam i Hi. right. by apply (MR mam).
  - intros h i Hi Hne. rewrite lookup_insert_ne; [done|]. intros <-. congruence.
Qed.

Lemma observed_indexed r id e now o :
  rec_entries r !! id = Some e →
  indexed r → indexed {| r with rec_entries := <[id := (Entry_observe e now o).1]> (rec_entries r) |}.
Proof.
  intros He. apply indexed_same; [done..|]. intros i. simpl.
  pose proof (Entry_observe_durable e now o) as Hd.
  destruct (Z.eq_dec i id) as [->|Hne]; [|by rewrite lookup_insert_ne].
  rewrite lookup_insert_eq, He. simpl. injection Hd as -> -> _ _ _ _. done.
Qed.

Lemma marked_indexed r u : indexed r → indexed {| r with rec_unsaved := u |}.
Proof. by apply indexed_same. Qed.

Lemma observe_torrent_indexed now r item : indexed r → indexed (observe_torrent now r item).
Proof.
  intros Hr. unfold observe_torrent. destruct item as [hash t].
  match goal with |- context [let '(_, _) := ?x in _] => assert (indexed x.1) as H1;
    [|destruct x as [r1 id]; simpl in H1] end.
  { destruct (rec_by_hash r !! hash) eqn:E; [done|]. by apply adopt_indexed. }
  assert (∀ r2 : Records, indexed r2 → indexed (
    if is_some_and (rec_entries r2 !! id) (λ e,
      (record_desired (entry_record e) ==? Desired_Held) && is_some (torrent_completed_at t))
    then set_desired r2 id Desired_Active else r2)) as Hlast.
  { intros r2 H2. case_match; [by apply set_desired_indexed|done]. }
  cbv zeta. apply Hlast. destruct (rec_entries r1 !! id) as [e|] eqn:He; [|done].
  pose proof (observed_indexed r1 id e (monotonic now) (mkObservation t (wall now)) He H1) as H2.
  destruct (Entry_observe _ _ _) as [e' []]; [|exact H2]. exact (marked_indexed _ _ H2).
Qed.

Lemma fold_indexed {A} (f : Records → A → Records) l r :
  (∀ r x, indexed r → indexed (f r x)) → indexed r → indexed (fold_left f l r).
Proof.
  intros Hf. revert r. induction l as [|x l IH]; intros r Hr; [done|]. apply IH, Hf, Hr.
Qed.

Lemma bookmark_one_indexed r b : indexed r → indexed (bookmark_one r b).
Proof.
  intros Hr. pose proof Hr as [K H M HR MR]. unfold bookmark_one. destruct b as [mam d].
  case_match; [done|].
  eapply (indexed_put r); [reflexivity| | | | | | | |exact Hr]; cbn -[insert lookup]; try done.
  - intros m [= <-]. rewrite lookup_insert_eq. by eexists.
  - by right.
  - intros m i. rewrite lookup_insert_Some. intros [[_ <-]|[_ Hi]]; [by left|right].
    by apply (MR m).
  - intros m Hm. rewrite lookup_insert_is_Some'. by right.
Qed.

Lemma alter_present {A} (f : A → A) (m : gmap RecordId A) id x :
  m !! id = Some x → alter f id m = <[id := f x]> m.
Proof.
  intros Hx. apply map_eq. intros i. destruct (Z.eq_dec i id) as [->|Hne].
  - by rewrite lookup_alter_eq, lookup_insert_eq, Hx.
  - by rewrite lookup_alter_ne, lookup_insert_ne.
Qed.

Lemma link_indexed r id mam hash :
  is_Some (rec_entries r !! id) → is_Some (rec_by_mam r !! mam) → indexed r →
  indexed (link r id mam hash).
Proof.
  intros Hid Hmam Hr. unfold link.
  match goal with |- context [let '(_, _) := ?x in _] =>
    assert (indexed x.1 ∧ is_Some (rec_entries x.1 !! x.2) ∧ is_Some (rec_by_mam x.1 !! mam)
      ∧ ∀ i, rec_by_hash x.1 !! hash = Some i → i = x.2) as (H1 & [e1 He1] & Hm1 & Hh1);
    [|destruct x as [r1 target]] end.
  { pose proof Hr as [K H M HR MR].
    destruct (rec_by_hash r !! hash) as [existing|] eqn:Eh; [case_bool_decide as Hx; simpl|].
    - split_and!; [done..|]. intros i Hi. congruence.
    - pose proof (set_desired_indexed r id Desired_Removed Hr) as Hs.
      assert (is_Some (rec_entries (set_desired r id Desired_Removed) !! existing)) as Hex.
      { simpl. rewrite lookup_alter_ne by done. by apply (HR hash). }
      split_and!.
      + destruct Hs as [K' H' M' HR' MR']. split; [exact K'|exact H'| |exact HR'|].
        * intros i e m Hi Hm. cbn -[insert lookup alter]. rewrite lookup_insert_is_Some'. right. by apply (M' i e m).
        * intros m i. cbn -[insert lookup alter]. rewrite lookup_insert_Some.
          intros [[_ <-]|[_ Hi]]; [exact Hex|by apply (MR' m)].
      + exact Hex.
      + cbn -[insert lookup alter]. rewrite lookup_insert_eq. by eexists.
      + simpl. intros i Hi. congruence.
    - split_and!; [done..|]. simpl. congruence. }
  cbn [fst snd] in *. eapply (indexed_put r1 _ target).
  - cbn -[insert lookup alter]. rewrite (alter_present _ _ _ _ He1).
    erewrite alter_present by (by rewrite lookup_insert_eq). by rewrite insert_insert_eq.
  - simpl. by apply (ix_keyed _ H1).
  - intros h. cbn -[insert lookup alter]. intros [= <-]. by rewrite lookup_insert_eq.
  - intros m. cbn -[insert lookup alter]. by intros [= <-].
  - intros h i. cbn -[insert lookup alter]. rewrite lookup_insert_Some. intros [[_ <-]|[_ Hi]]; auto.
  - intros m i Hi. right. by apply (ix_mam_row _ H1 m).
  - intros h i Hi Hne. cbn -[insert lookup alter]. rewrite lookup_insert_ne; [done|].
    intros <-. by destruct Hne; apply Hh1.
  - done.
  - exact H1.
Qed.

Lemma apply_op_indexed r now op : indexed r → indexed (apply_op r now op).1.
Proof.
  intros Hr. destruct op; simpl.
  - apply save_indexed, fold_indexed; [|done]. intros. by apply observe_torrent_indexed.
  - apply save_indexed, fold_indexed; [|done]. intros. by apply bookmark_one_indexed.
  - unfold redownload. destruct (opt_filter _ _) as [e|] eqn:E; [|done].
    apply opt_filter_Some in E as [E _]. apply save_indexed. revert Hr. apply indexed_same; [done..|].
    intros i. cbn -[insert lookup]. destruct (Z.eq_dec i id) as [->|Hne].
    + by rewrite lookup_insert_eq, E.
    + by rewrite lookup_insert_ne.
  - apply save_indexed. destruct (rec_by_mam r !! mam) as [id|] eqn:E; [|done].
    apply link_indexed; [by apply (ix_mam_row _ Hr mam)|by eexists|done].
  - apply save_indexed. destruct (opt_filter _ _); [by apply set_desired_indexed|done].
  - apply save_indexed. destruct (opt_filter _ _); [by apply set_desired_indexed|done].
  - apply save_indexed. destruct (rec_by_hash r !! hash); [by apply set_desired_indexed|done].
Qed.

Lemma records_new_indexed rows : rows_distinct rows → indexed (Records_new rows).
Proof.
  intros [Hid Hh].
  assert (∀ id e, rec_entries (Records_new rows) !! id = Some e →
    entry_record e ∈ rows ∧ record_id (entry_record e) = id) as Hrow.
  { intros id e H%bt_collect_Some. by apply list_elem_of_fmap in H as (row & [= -> ->] & Hin). }
  assert (∀ row, row ∈ rows → is_Some (rec_entries (Records_new rows) !! record_id row)) as Hex.
  { intros row Hin. apply bt_collect_is_Some. rewrite <-list_fmap_compose.
    apply list_elem_of_fmap. by exists row. }
  assert (∀ h id, rec_by_hash (Records_new rows) !! h = Some id → ∃ row, row ∈ rows
    ∧ Identity_hash (record_identity row) = Some h ∧ record_id row = id) as Hix.
  { intros h id H%bt_collect_Some. apply list_elem_of_omap in H as (row & Hin & Hf).
    apply fmap_Some in Hf as (h' & Hh' & [= -> ->]). eauto. }
  split.
  - intros id e He. by apply Hrow.
  - intros id e h He Hi. destruct (Hrow id e He) as [Hin Hk].
    assert (is_Some (rec_by_hash (Records_new rows) !! h)) as [i Hsome].
    { apply bt_collect_is_Some. apply list_elem_of_fmap. exists (h, id). split; [done|].
      apply list_elem_of_omap. exists (entry_record e). split; [done|]. by rewrite Hi, Hk. }
    destruct (Hix h i Hsome) as (row & Hin' & Hi' & <-). rewrite Hsome. f_equal.
    rewrite <-Hk. by apply (Hh _ _ h).
  - intros id e mam He Hi. destruct (Hrow id e He) as [Hin Hk].
    apply bt_collect_is_Some. apply list_elem_of_fmap. exists (mam, id). split; [done|].
    apply list_elem_of_omap. exists (entry_record e). split; [|by rewrite Hi, Hk].
    rewrite elem_of_app, !list_elem_of_filter. destruct (base.decide (record_desired (entry_record e) = Desired_Removed)); auto.
  - intros h id (row & Hin & _ & <-)%Hix. by apply Hex.
  - intros mam id H%bt_collect_Some. apply list_elem_of_omap in H as (row & Hin & Hf).
    apply fmap_Some in Hf as (m' & Hm' & [= -> ->]). apply Hex.
    by apply elem_of_app in Hin as [[_ Hin]%list_elem_of_filter|[_ Hin]%list_elem_of_filter].
Qed.

Lemma registry_handle_ok reg now ev :
  registry_event_ok ev → registry_ok reg → registry_ok (Registry.handle reg now ev).1.
Proof.
  intros Hev Hreg. destruct reg as [| | |r], ev as [id|rows| | |]; try done; simpl in *.
  - by apply records_new_indexed.
  - pose proof (apply_op_indexed r (mkClockReading now 0) (Op_Redownload id) Hreg) as Hs.
    simpl in Hs. by destruct (redownload r now id).
  - destruct (rec_saving r); [|done]. simpl.
    match goal with |- context [save ?x ?y] => pose proof (save_indexed x y) as Hs;
      destruct (save x y) as [r' acts] end. simpl in *. apply Hs. revert Hreg. by apply indexed_same.
  - destruct (rec_saving r); [|done]. simpl. revert Hreg. by apply indexed_same.
Qed.

Lemma moves_ok reg reg' : moves reg reg' → registry_ok reg → registry_ok reg'.
Proof.
  intros Hm Hreg. destruct Hm as [reg|reg now ev Hev|r now op|r last]; simpl in *.
  - done.
  - by apply registry_handle_ok.
  - by apply apply_op_indexed.
  - revert Hreg. by apply indexed_same.
Qed.

Lemma all_moves_ok reg reg' : rtc moves reg reg' → registry_ok reg → registry_ok reg'.
Proof. induction 1 as [|a b d Hm _ IH]; [done|]. intros Ha. by apply IH, (moves_ok a). Qed.
