(* ===== verification/Budget.v ===== *)
(** * The request budget

    The token bucket every request to MAM draws from: ten tokens, one restored
    every three seconds, starting full ([core/mam/budget.rs]). *)

From S2P Require Import Prelude.

Abbreviation Tokens := Z (only parsing).

Definition REQUEST_BURST : Tokens := 10.
Definition REQUEST_REFILL : Duration := from_secs 3.

Definition Tokens_NONE : Tokens := 0.
Definition Tokens_less_one (t : Tokens) : option Tokens := checked_sub t 1.
(** These tokens and this many restored, up to a full bucket. *)
Definition Tokens_restoring (t restored : Z) : Tokens :=
  Z.min (saturating_add u32_max t restored) REQUEST_BURST.

Record Budget := mkBudget {
  budget_tokens : Tokens;
  budget_refilled_at : option Instant;
}.
#[global] Instance Budget_eq_dec : EqDecision Budget.
Proof. solve_decision. Defined.

(** A full bucket. *)
Definition new : Budget := mkBudget REQUEST_BURST None.

(** The tokens after restoring those due by [now], and when the last was
    restored; a full bucket has no restoring in progress. *)
Definition refilled (self : Budget) (now : Instant) : Tokens * option Instant :=
  match budget_refilled_at self with
  | None => (budget_tokens self, None)
  | Some refilled_at =>
      let elapsed := duration_since now refilled_at in
      let restored := try_from_or_max u32_max (as_secs elapsed / as_secs REQUEST_REFILL) in
      let tokens := Tokens_restoring (budget_tokens self) restored in
      if tokens ==? REQUEST_BURST then (tokens, None)
      else
        let advanced := duration_saturating_mul REQUEST_REFILL restored in
        (tokens, checked_add refilled_at advanced)
  end.

(** Take a token, if one is available. *)
Definition take (self : Budget) (now : Instant) : Budget * bool :=
  let '(tokens, refilled_at) := refilled self now in
  match Tokens_less_one tokens with
  | None => (self, false)
  | Some tokens => (mkBudget tokens (Some (default now refilled_at)), true)
  end.

(** When the next token becomes available, if none is now. *)
Definition next_token (self : Budget) (now : Instant) : option Instant :=
  match refilled self now with
  | (tokens, Some refilled_at) =>
      if tokens ==? Tokens_NONE then checked_add refilled_at REQUEST_REFILL else None
  | (_, None) => None
  end.

(** ** The bucket as a level of credit

    The bucket's state at a time is a credit of up to ten refills, which grows
    with time and which one request lowers by exactly one refill. *)

Definition CAPACITY : Duration := REQUEST_BURST * REQUEST_REFILL.

Definition level (b : Budget) (t : Instant) : Duration :=
  match budget_refilled_at b with
  | None => CAPACITY
  | Some r => Z.min CAPACITY (budget_tokens b * REQUEST_REFILL + (t - r))
  end.

(** A bucket at time [t]: full without restoring, or restoring since before [t]. *)
Definition budget_ok (b : Budget) (t : Instant) : Prop :=
  0 ≤ budget_tokens b ≤ REQUEST_BURST ∧ t ≤ TIME_MAX
  ∧ match budget_refilled_at b with
    | None => budget_tokens b = REQUEST_BURST
    | Some r => budget_tokens b < REQUEST_BURST ∧ r ≤ t
    end.

(** The whole refills in an elapsed time, as the code counts them. *)
Lemma restored_refills e :
  0 ≤ e → as_secs e / as_secs REQUEST_REFILL = e / REQUEST_REFILL.
Proof.
  intros. unfold as_secs, REQUEST_REFILL, from_secs.
  rewrite Z.div_mul by (unfold NANOS_PER_SEC; lia).
  by rewrite Z.div_div, (Z.mul_comm NANOS_PER_SEC) by (unfold NANOS_PER_SEC; lia).
Qed.

Lemma refill_bounds e :
  e / REQUEST_REFILL * REQUEST_REFILL ≤ e < e / REQUEST_REFILL * REQUEST_REFILL + REQUEST_REFILL.
Proof.
  assert (0 < REQUEST_REFILL) by (vm_compute; reflexivity).
  pose proof (Z.div_mod e REQUEST_REFILL). pose proof (Z.mod_pos_bound e REQUEST_REFILL). lia.
Qed.

(** Restoring keeps the level, and leaves as many tokens as the level holds
    refills. *)
Lemma refilled_level b t :
  budget_ok b t →
  ∃ tokens r, refilled b t = (tokens, r)
    ∧ level (mkBudget tokens r) t = level b t
    ∧ budget_ok (mkBudget tokens r) t
    ∧ tokens * REQUEST_REFILL ≤ level b t < tokens * REQUEST_REFILL + REQUEST_REFILL.
Proof.
  destruct b as [tokens [r|]]; unfold budget_ok, level, refilled; simpl; intros (Htok & Ht & Hr).
  2: { eexists _, _. split; [reflexivity|]. subst tokens. simpl.
       repeat split; unfold CAPACITY, REQUEST_REFILL, from_secs, NANOS_PER_SEC, REQUEST_BURST; lia. }
  assert (duration_since t r = t - r) as -> by (unfold duration_since; lia).
  rewrite restored_refills by lia. pose proof (refill_bounds (t - r)) as Hb.
  set (k := (t - r) / REQUEST_REFILL) in *.
  assert (0 ≤ k) as Hk by (unfold k; apply Z.div_pos; [lia|vm_compute; reflexivity]).
  assert (REQUEST_REFILL = 3000000000) as HR by reflexivity.
  assert (REQUEST_BURST = 10) as HB by reflexivity.
  assert (CAPACITY = 30000000000) as HC by reflexivity.
  unfold Tokens_restoring, saturating_add, try_from_or_max.
  rewrite HR, HB, HC in *.
  assert (u32_max = 4294967295) as HU by reflexivity. rewrite HU.
  case_bool_decide as Hfull.
  - eexists _, _. split; [reflexivity|]. simpl. lia.
  - assert (k < 10) as Hk10 by lia.
    rewrite (Z.min_l k) in * by lia. rewrite (Z.min_l (tokens + k) 4294967295) in * by lia.
    unfold duration_saturating_mul.
    assert (DURATION_MAX = 18446744073709551615999999999) as -> by reflexivity.
    rewrite (Z.min_l (3000000000 * k)) by lia.
    rewrite checked_add_fits by lia.
    eexists _, _. split; [reflexivity|]. simpl. lia.
Qed.

(** [take] succeeds exactly when the level holds a refill, and lowers it by one. *)
Lemma take_level b t :
  budget_ok b t →
  ∃ b' ok, take b t = (b', ok)
    ∧ ok = (REQUEST_REFILL <=? level b t)
    ∧ budget_ok b' t
    ∧ level b' t = level b t - (if ok then REQUEST_REFILL else 0).
Proof.
  intros Hok. destruct (refilled_level b t Hok) as (tokens & r & Href & Hlev & Hok' & Hlo & Hhi).
  unfold take. rewrite Href. unfold Tokens_less_one, checked_sub.
  assert (REQUEST_REFILL = 3000000000) as HR by reflexivity.
  destruct Hok' as (Ht & Htm & Hr); simpl in *. rewrite HR in *.
  destruct (1 <=? tokens) eqn:E; reflect_bools; eexists _, _; (split; [reflexivity|]).
  - split; [symmetry; apply Z.leb_le; lia|].
    revert Hlev Hlo Hhi. generalize (level b t) as L. intros L Hlev Hlo Hhi.
    unfold level, budget_ok in *; simpl in *.
    assert (CAPACITY = 30000000000) as HC by reflexivity.
    assert (REQUEST_BURST = 10) as HB by reflexivity.
    rewrite HR, HC, HB in *. destruct r as [r|]; simpl in *; lia.
  - split; [symmetry; apply Z.leb_gt; lia|]. split; [done|]. lia.
Qed.

(** Time only adds to the level. *)
Lemma level_grows b t u :
  t ≤ u → level b t ≤ level b u ≤ level b t + (u - t).
Proof. unfold level. destruct (budget_refilled_at b); lia. Qed.

Lemma budget_ok_later b t u : budget_ok b t → t ≤ u ≤ TIME_MAX → budget_ok b u.
Proof. unfold budget_ok. destruct (budget_refilled_at b); intuition lia. Qed.

Lemma level_bounds b t : budget_ok b t → 0 ≤ level b t ≤ CAPACITY.
Proof.
  unfold budget_ok, level. assert (0 < REQUEST_REFILL) by (vm_compute; reflexivity).
  assert (0 < CAPACITY) by (vm_compute; reflexivity).
  destruct (budget_refilled_at b); intros; destruct_and?; nia.
Qed.

Lemma new_ok t : t ≤ TIME_MAX → budget_ok new t.
Proof. unfold budget_ok, new; simpl. unfold REQUEST_BURST. intuition lia. Qed.
#[export] Hint Resolve new_ok budget_ok_later : windlass.

(** ** The request rate *)

(** Attempts at these times, and how many were granted. *)
Fixpoint take_all (b : Budget) (times : list Instant) : Budget * Z :=
  match times with
  | [] => (b, 0)
  | t :: times =>
      let '(b, granted) := take b t in
      let '(b, n) := take_all b times in
      (b, n + if granted then 1 else 0)
  end.

Lemma take_all_level b t times :
  budget_ok b t → ascending t times →
  ∃ b' n, take_all b times = (b', n) ∧ budget_ok b' (last_time t times)
    ∧ level b' (last_time t times) + n * REQUEST_REFILL
      ≤ level b t + (last_time t times - t).
Proof.
  revert b t. induction times as [|u times IH]; intros b t Hok; simpl.
  { intros _. eexists _, _. split; [reflexivity|]. unfold last_time; simpl. split; [done|]. lia. }
  intros [Htu Hasc]. destruct (take_level b u) as (b1 & ok & Htake & _ & Hok1 & Hlev1).
  { eapply budget_ok_later; eauto. }
  rewrite Htake. destruct (IH b1 u Hok1 Hasc) as (b2 & n & -> & Hok2 & Hlev2).
  change (last_time t (u :: times)) with (last_time u times).
  eexists _, _. split; [reflexivity|]. split; [done|].
  pose proof (level_grows b t u). destruct ok; lia.
Qed.

(** In any window of time the bucket grants at most ten requests and one
    more for every three seconds the window lasts, whatever the attempts and
    whatever was granted before. *)
Theorem budget_window b t times n b' :
  budget_ok b t → ascending t times →
  take_all b times = (b', n) →
  n * REQUEST_REFILL ≤ REQUEST_BURST * REQUEST_REFILL + (last_time t times - t).
Proof.
  intros Hok Hasc Hrun. destruct (take_all_level b t times Hok Hasc) as (? & ? & Hrun' & Hok' & Hle).
  rewrite Hrun in Hrun'. simplify_eq.
  pose proof (level_bounds _ _ Hok). pose proof (level_bounds _ _ Hok').
  fold CAPACITY. lia.
Qed.

Lemma budget_window_witness :
  (take_all new (replicate 12 0)).2 * REQUEST_REFILL
    ≤ REQUEST_BURST * REQUEST_REFILL + (last_time 0 (replicate 12 0) - 0).
Proof.
  apply (budget_window new 0 (replicate 12 0) 10 (take_all new (replicate 12 0)).1).
  - apply new_ok. vm_compute. discriminate.
  - vm_compute. repeat split; discriminate.
  - vm_compute. reflexivity.
Defined.

(** The wake the bucket asks for is exact: while no token is left,
    [next_token] names the first moment from which a request is granted, and it
    asks for no wake when one is granted now. *)
Theorem next_token_exact b now :
  budget_ok b now → now + REQUEST_REFILL ≤ TIME_MAX →
  match next_token b now with
  | Some t => now < t ∧ ∀ u, now ≤ u ≤ TIME_MAX → (take b u).2 = true ↔ t ≤ u
  | None => (take b now).2 = true
  end.
Proof.
  intros Hok Hfit.
  destruct (refilled_level b now Hok) as (tokens & r & Href & Hlev & Hok' & Hlo & Hhi).
  assert (REQUEST_REFILL = 3000000000) as HR by reflexivity.
  assert (CAPACITY = 30000000000) as HC by reflexivity.
  assert (REQUEST_BURST = 10) as HB by reflexivity.
  destruct (take_level b now Hok) as (b1 & ok & Htake & Hiff & _).
  unfold next_token. rewrite Href.
  destruct Hok' as (Ht & _ & Hr); simpl in *.
  assert (tokens ≠ 0 → (take b now).2 = true) as Hnow.
  { intros. rewrite Htake. simpl. subst ok. apply Z.leb_le. rewrite HR in *. lia. }
  destruct r as [r|]; [|apply Hnow; rewrite HB in *; lia].
  unfold Tokens_NONE. case_bool_decide as Hz; [|by apply Hnow].
  rewrite checked_add_fits by lia. split.
  - unfold level in Hlev at 1; simpl in Hlev. rewrite HR, HC in *. lia.
  - intros u Hu. destruct (take_level b u) as (b2 & ok2 & -> & -> & _).
    { eapply budget_ok_later; eauto. }
    simpl. rewrite Z.leb_le. pose proof (level_grows b now u).
    unfold level in Hlev at 1; simpl in Hlev.
    assert (level b u = Z.min CAPACITY (level b now + (u - now))) as ->.
    { unfold level in *. destruct (budget_refilled_at b); rewrite HR, HC in *; lia. }
    rewrite HR, HC in *. lia.
Qed.

Lemma next_token_exact_witness :
  let b := (take_all new (replicate 10 0)).1 in
  next_token b 1 = Some REQUEST_REFILL
  ∧ (1 < REQUEST_REFILL ∧ ∀ u, 1 ≤ u ≤ TIME_MAX → (take b u).2 = true ↔ REQUEST_REFILL ≤ u).
Proof.
  split; [vm_compute; reflexivity|].
  apply (next_token_exact (take_all new (replicate 10 0)).1 1).
  - vm_compute. repeat split; discriminate.
  - vm_compute. discriminate.
Defined.
