(* ===== verification/Network.v ===== *)
(** * The API session, the IP MAM sees, and the seedbox registration

    [core/mam/network.rs]: what MAM last said of the cookie, the lookups of the
    IP it sees, and the dynamic seedbox registration with its hourly spacing. *)

From S2P Require Import Prelude Values Vocabulary MamApi Messages.

Definition OBSERVE_EVERY : Duration := from_mins 5.
Definition LOOKUP_SPACING : Duration := from_mins 1.
Definition REGISTRATION_SPACING : Duration := from_hours 1.

(** ** The session *)

Inductive Session :=
  | Session_Unverified
  | Session_Verified (at_ : SystemTime)
  | Session_Rejected (rejection : SessionRejection) (seen : option (IpAddr * Asn))
      (at_ : SystemTime).
#[global] Instance Session_eq_dec : EqDecision Session.
Proof. solve_decision. Defined.

(** Whether requests that need the cookie must wait. *)
Definition Session_blocks (self : Session) (observed : option IpObservation) : bool :=
  match self with
  | Session_Rejected rejection seen _ =>
      let now := (λ o, (observed_ip o, observed_asn o)) <$> observed in
      match rejection with
      | SessionRejection_AsnMismatch =>
          is_none_or now (λ n, is_some_and seen (λ s, s.2 ==? n.2))
      | SessionRejection_IpMismatch =>
          is_none_or now (λ n, is_some_and seen (λ s, s.1 ==? n.1))
      | SessionRejection_InvalidCookie | SessionRejection_NotAllowed | SessionRejection_Other =>
          true
      end
  | _ => false
  end.

(** ** The IP MAM sees *)

Inductive IpStanding :=
  | IpStanding_Current
  | IpStanding_Unconfirmed.
#[global] Instance IpStanding_eq_dec : EqDecision IpStanding.
Proof. solve_decision. Defined.

Record Observed := mkObserved {
  obs_observation : IpObservation;
  obs_at : SystemTime;
  obs_standing : IpStanding;
}.
#[global] Instance Observed_eq_dec : EqDecision Observed.
Proof. solve_decision. Defined.

Record Network := mkNetwork {
  net_observed : option Observed;
  net_next_lookup : option Instant;
  net_failures : FailureCount;
  net_last_failure : option MamFailure;
  net_last_sent : option Instant;
}.
#[global] Instance Network_eq_dec : EqDecision Network.
Proof. solve_decision. Defined.

Definition Network_new : Network := mkNetwork None None FailureCount_NONE None None.

(** The current observation, if it still describes the connection. *)
Definition current (self : Network) : option IpObservation :=
  obs_observation <$> opt_filter (λ o, obs_standing o ==? IpStanding_Current) (net_observed self).

(** Whether a lookup is wanted now and MAM's spacing allows it. *)
Definition due (self : Network) (now : Instant) : bool :=
  is_none_or (net_next_lookup self) (λ next, next <=? now)
  && is_none_or (net_last_sent self) (λ sent, LOOKUP_SPACING <=? duration_since now sent).

(** When the next lookup may be sent; now when absent. *)
Definition next_due (self : Network) : option Instant :=
  let spaced := net_last_sent self ≫= (λ sent, checked_add sent LOOKUP_SPACING) in
  match net_next_lookup self, spaced with
  | Some next, Some spaced => Some (Z.max next spaced)
  | next, spaced => opt_or next spaced
  end.

Definition sent (self : Network) (now : Instant) : Network :=
  {| self with net_last_sent := Some now |}.

Definition observed (self : Network) (now : Instant) (wall : SystemTime)
    (observation : IpObservation) : Network :=
  {| self with
     net_observed := Some (mkObserved observation wall IpStanding_Current);
     net_failures := FailureCount_NONE;
     net_last_failure := None;
     net_next_lookup := checked_add now OBSERVE_EVERY |}.

Definition Network_failed (self : Network) (now : Instant) (failure : MamFailure) : Network :=
  let wait := match failure with
              | MamFailure_TooSoon (Some after) => Z.max OBSERVE_EVERY after
              | _ => OBSERVE_EVERY
              end in
  {| self with
     net_failures := FailureCount_after_another (net_failures self);
     net_last_failure := Some failure;
     net_next_lookup := checked_add now wait |}.

(** The connection may have changed: observe again as soon as allowed. *)
Definition Network_unconfirm (self : Network) : Network :=
  {| self with
     net_observed := (λ o, {| o with obs_standing := IpStanding_Unconfirmed |})
                       <$> net_observed self;
     net_next_lookup := None |}.

(** ** The seedbox registration *)

Inductive LastAttempt :=
  | LastAttempt_Unread
  | LastAttempt_Reading
  | LastAttempt_Known (at_ : option SystemTime)
  | LastAttempt_ReadFailed.
#[global] Instance LastAttempt_eq_dec : EqDecision LastAttempt.
Proof. solve_decision. Defined.

Inductive RegistrationFailure :=
  | RegistrationFailure_Mam (failure : MamFailure)
  | RegistrationFailure_NotSaved.
#[global] Instance RegistrationFailure_eq_dec : EqDecision RegistrationFailure.
Proof. solve_decision. Defined.

Inductive SeedboxStatus :=
  | SeedboxStatus_Unconfirmed
  | SeedboxStatus_Confirmed (ip : IpAddr) (at_ : SystemTime)
  | SeedboxStatus_Failed (failure : RegistrationFailure) (at_ : SystemTime).
#[global] Instance SeedboxStatus_eq_dec : EqDecision SeedboxStatus.
Proof. solve_decision. Defined.

Inductive RegistrationAllowance :=
  | RegistrationAllowance_Now
  | RegistrationAllowance_After (at_ : SystemTime)
  | RegistrationAllowance_Unknown.
#[global] Instance RegistrationAllowance_eq_dec : EqDecision RegistrationAllowance.
Proof. solve_decision. Defined.

Record Seedbox := mkSeedbox {
  seedbox_last_attempt : LastAttempt;
  seedbox_status : SeedboxStatus;
  seedbox_not_before : option SystemTime;
}.
#[global] Instance Seedbox_eq_dec : EqDecision Seedbox.
Proof. solve_decision. Defined.

Definition Seedbox_new : Seedbox := mkSeedbox LastAttempt_Unread SeedboxStatus_Unconfirmed None.

(** When the next attempt may be sent, as of [now]. *)
Definition allowance (self : Seedbox) (now : SystemTime) : RegistrationAllowance :=
  match seedbox_last_attempt self with
  | LastAttempt_Known last =>
      let spaced := last ≫= (λ last, checked_add last REGISTRATION_SPACING) in
      match opt_max spaced (seedbox_not_before self) with
      | Some allowed =>
          if now <? allowed then RegistrationAllowance_After allowed
          else RegistrationAllowance_Now
      | None => RegistrationAllowance_Now
      end
  | _ => RegistrationAllowance_Unknown
  end.

(** Whether MAM confirmed this IP as the seedbox. *)
Definition confirms (self : Seedbox) (observed : option IpObservation) : SeedboxConfirmation :=
  match seedbox_status self, observed with
  | SeedboxStatus_Confirmed ip _, Some observed =>
      if ip ==? observed_ip observed then SeedboxConfirmation_Confirmed
      else SeedboxConfirmation_Unconfirmed
  | _, _ => SeedboxConfirmation_Unconfirmed
  end.

(** MAM answered that the registration is not allowed. *)
Definition registration_refused (status : SeedboxStatus) : bool :=
  match status with
  | SeedboxStatus_Failed
      (RegistrationFailure_Mam (MamFailure_Session SessionRejection_NotAllowed)) _ => true
  | _ => false
  end.

(** Whether a registration should be sent now for the observed IP. *)
Definition wanted (self : Seedbox) (now : SystemTime) (observed : option IpObservation) : bool :=
  is_some observed
  && (confirms self observed ==? SeedboxConfirmation_Unconfirmed)
  && negb (registration_refused (seedbox_status self))
  && (allowance self now ==? RegistrationAllowance_Now).

Definition saved (self : Seedbox) (at_ : SystemTime) : Seedbox :=
  {| self with seedbox_last_attempt := LastAttempt_Known (Some at_) |}.
Definition save_failed (self : Seedbox) (now : SystemTime) : Seedbox :=
  {| self with seedbox_status := SeedboxStatus_Failed RegistrationFailure_NotSaved now |}.
Definition confirmed (self : Seedbox) (ip : IpAddr) (now : SystemTime) : Seedbox :=
  {| self with seedbox_status := SeedboxStatus_Confirmed ip now; seedbox_not_before := None |}.
Definition Seedbox_failed (self : Seedbox) (failure : MamFailure) (now : SystemTime) : Seedbox :=
  {| self with
     seedbox_not_before := match failure with
                           | MamFailure_TooSoon (Some after) => checked_add now after
                           | _ => seedbox_not_before self
                           end;
     seedbox_status := SeedboxStatus_Failed (RegistrationFailure_Mam failure) now |}.
(** A pause, lost protection or a new cookie needs fresh confirmation. *)
Definition Seedbox_unconfirm (self : Seedbox) : Seedbox :=
  {| self with seedbox_status := SeedboxStatus_Unconfirmed |}.
