(* ===== verification/Account.v ===== *)
(** * The MAM account and spending

    Readings of the account, the invariants read from them, and bonus point
    spending ([core/mam/account.rs]). *)

From S2P Require Import Prelude Values Vocabulary MamApi Messages.

Definition ACCOUNT_READ_EVERY : Duration := from_mins 15.
Definition ACCOUNT_READ_WHILE_DOWNLOADING : Duration := from_mins 5.
Definition CLIENT_STATS_EVERY : Duration := from_mins 30.
Definition ACCOUNT_FRESH_FOR : Duration := from_mins 5.
Definition UNSATISFIED_RESERVE : UnsatisfiedCount := 2.
Definition RATIO_FLOOR : Ratio := 2000.
Definition RATIO_URGENT : Ratio := 1100.
Definition VIP_RENEW_WITHIN : Duration := from_hours (14 * 24).
Definition VIP_WARN_WITHIN : Duration := from_hours (7 * 24).
Definition VIP_FILL : Duration := from_hours (90 * 24).
Definition VIP_PRICE_PER_WEEK : Points := 1250.
Definition REFUSAL_BACKOFF : Duration := from_hours 6.
Definition EARLY_READ_SPACING : Duration := from_mins 1.
Definition WEEK : Duration := from_hours (7 * 24).

(** ** Data *)

Record Reading := mkReading {
  reading_data : UserData;
  reading_at : SystemTime;
  reading_taken : Instant;
}.
#[global] Instance Reading_eq_dec : EqDecision Reading.
Proof. solve_decision. Defined.

Record ClientList := mkClientList {
  list_clients : list ListedClient;
  list_at : SystemTime;
}.
#[global] Instance ClientList_eq_dec : EqDecision ClientList.
Proof. solve_decision. Defined.

Definition ClientStanding_admits (s : ClientStanding) : bool :=
  match s with ClientStanding_Listed | ClientStanding_NoneListed => true | _ => false end.

Inductive SettledBy :=
  | SettledBy_Reading
  | SettledBy_Owner.
#[global] Instance SettledBy_eq_dec : EqDecision SettledBy.
Proof. solve_decision. Defined.

Inductive PurchaseOutcome :=
  | PurchaseOutcome_Made (points : Points)
  | PurchaseOutcome_Refused (message : option string)
  | PurchaseOutcome_Uncertain
  | PurchaseOutcome_Settled (sale : Sale) (by_ : SettledBy)
  | PurchaseOutcome_Unresolved.
#[global] Instance PurchaseOutcome_eq_dec : EqDecision PurchaseOutcome.
Proof. solve_decision. Defined.

(** What a purchase can change, as the reading before it showed. *)
Record Before := mkBefore {
  before_points : Points;
  before_vip_until : option SystemTime;
}.
#[global] Instance Before_eq_dec : EqDecision Before.
Proof. solve_decision. Defined.

(** VIP time bought at once, in hundredths of a week. *)
Abbreviation VipWeeks := Z (only parsing).

Record PurchaseRecord := mkPurchaseRecord {
  purchase_purchase : Purchase;
  purchase_at : SystemTime;
  purchase_outcome : option PurchaseOutcome;
  purchase_sent : Instant;
  purchase_before : option Before;
  purchase_vip_weeks : option VipWeeks;
}.
#[global] Instance PurchaseRecord_eq_dec : EqDecision PurchaseRecord.
Proof. solve_decision. Defined.

Inductive ReadPace :=
  | ReadPace_Routine
  | ReadPace_Downloading.
#[global] Instance ReadPace_eq_dec : EqDecision ReadPace.
Proof. solve_decision. Defined.

Record Account := mkAccount {
  account_reading : option Reading;
  account_next_read : option Instant;
  account_failures : FailureCount;
  account_last_failure : option MamFailure;
  account_last_purchase : option PurchaseRecord;
  account_vip_price_per_week : Points;
  account_client_list : option ClientList;
  account_client_stats_read : option Instant;
  account_last_request : option Instant;
  account_pace : ReadPace;
  account_refused : option Instant;
}.
#[global] Instance Account_eq_dec : EqDecision Account.
Proof. solve_decision. Defined.

Definition new : Account := {|
  account_reading := None;
  account_next_read := None;
  account_failures := FailureCount_NONE;
  account_last_failure := None;
  account_last_purchase := None;
  account_vip_price_per_week := VIP_PRICE_PER_WEEK;
  account_client_list := None;
  account_client_stats_read := None;
  account_last_request := None;
  account_pace := ReadPace_Routine;
  account_refused := None;
|}.

(** What else MAM reports about the torrents. *)
Record Attention := mkAttention {
  attention_partial : Partials;
  attention_tracker_errors : TorrentCount;
  attention_flagged : TorrentCount;
}.
#[global] Instance Attention_eq_dec : EqDecision Attention.
Proof. solve_decision. Defined.

Definition Attention_any (a : Attention) : bool :=
  (attention_partial a ==? Partials_Seen)
  || negb (TorrentCount_is_zero (attention_tracker_errors a))
  || negb (TorrentCount_is_zero (attention_flagged a)).

(** ** Readings *)

Definition data (self : Account) : option UserData := reading_data <$> account_reading self.

(** The latest reading's data, if it is recent and taken after [since]. *)
Definition fresh (self : Account) (now : Instant) (since : option Instant) : option UserData :=
  reading_data <$> opt_filter (λ reading,
    (duration_since now (reading_taken reading) <=? ACCOUNT_FRESH_FOR)
    && is_none_or since (λ since, since <? reading_taken reading)) (account_reading self).

(** When the next routine reading is due; now when absent. *)
Definition routine_due (self : Account) : option Instant :=
  let downloading :=
    match account_pace self with
    | ReadPace_Downloading =>
        account_reading self ≫= (λ reading,
          checked_add (reading_taken reading) ACCOUNT_READ_WHILE_DOWNLOADING)
    | ReadPace_Routine => None
    end in
  (λ next, match downloading with Some d => Z.min next d | None => next end)
    <$> account_next_read self.

(** The reading to request now: routinely, or early when a decision needs one. *)
Definition wanted (self : Account) (now : Instant) (early : bool) : option ClientListing :=
  if is_some (account_last_failure self)
     && is_some_and (account_next_read self) (λ retry_at, now <? retry_at) then None
  else
    let routine := is_none_or (routine_due self) (λ next, next <=? now) in
    let early := early && is_none_or (account_last_request self)
                   (λ last, EARLY_READ_SPACING <=? duration_since now last) in
    then_some (routine || early)
      (if is_none_or (account_client_stats_read self)
            (λ read, CLIENT_STATS_EVERY <=? duration_since now read)
       then ClientListing_Include else ClientListing_Omit).

Definition requested (self : Account) (now : Instant) : Account :=
  {| self with account_last_request := Some now |}.

(** When a routine reading or an early one may next be requested. *)
Definition next_due (self : Account) (early : bool) : option Instant :=
  if is_some (account_last_failure self) then account_next_read self
  else
    let early := if early then account_last_request self
                                 ≫= (λ last, checked_add last EARLY_READ_SPACING)
                 else None in
    match routine_due self, early with
    | Some next, Some early => Some (Z.min next early)
    | next, early => opt_or next early
    end.

Definition pace (self : Account) (p : ReadPace) : Account := {| self with account_pace := p |}.

(** Settle an uncertain purchase from the reading after it. *)
Definition settle (self : Account) (after : UserData)
    : Account * option (Purchase * PurchaseOutcome) :=
  match opt_filter (λ r, purchase_outcome r ==? Some PurchaseOutcome_Uncertain)
          (account_last_purchase self) with
  | None => (self, None)
  | Some record =>
      let made := purchase_before record ≫= (λ before,
        match purchase_purchase record with
        | Purchase_Vip =>
            match opt_lt (before_vip_until before) (data_vip_until after),
                  data_points after <? before_points before with
            | true, _ => Some Sale_Made
            | false, false => Some Sale_NotMade
            | false, true => None
            end
        end) in
      let outcome := match made with
                     | Some sale => PurchaseOutcome_Settled sale SettledBy_Reading
                     | None => PurchaseOutcome_Unresolved
                     end in
      ({| self with account_last_purchase :=
          Some {| record with purchase_outcome := Some outcome |} |},
       Some (purchase_purchase record, outcome))
  end.

(** Store a reading; whether it settled an uncertain purchase, and how. *)
Definition read (self : Account) (now : Instant) (wall : SystemTime) (data : UserData)
    : Account * option (Purchase * PurchaseOutcome) :=
  let '(self, settled) := settle self data in
  let self :=
    match data_clients data with
    | Some clients => {| self with account_client_stats_read := Some now;
                                   account_client_list := Some (mkClientList clients wall) |}
    | None => self
    end in
  ({| self with
      account_reading := Some (mkReading data wall now);
      account_failures := FailureCount_NONE;
      account_last_failure := None;
      account_next_read := checked_add now ACCOUNT_READ_EVERY |}, settled).

(** The owner checked an unresolved purchase on MAM. *)
Definition checked (self : Account) (sale : Sale) : Account * option Purchase :=
  match opt_filter (λ r, purchase_outcome r ==? Some PurchaseOutcome_Unresolved)
          (account_last_purchase self) with
  | None => (self, None)
  | Some record =>
      ({| self with account_last_purchase :=
          Some {| record with purchase_outcome :=
                  Some (PurchaseOutcome_Settled sale SettledBy_Owner) |} |},
       Some (purchase_purchase record))
  end.

Definition purchase_uncertain (self : Account) : bool :=
  is_some_and (account_last_purchase self)
    (λ r, purchase_outcome r ==? Some PurchaseOutcome_Uncertain).
Definition unresolved_purchase (self : Account) : option Purchase :=
  purchase_purchase <$>
    opt_filter (λ r, purchase_outcome r ==? Some PurchaseOutcome_Unresolved)
      (account_last_purchase self).

Definition failed (self : Account) (now : Instant) (failure : MamFailure) : Account :=
  let wait := match failure with
              | MamFailure_TooSoon (Some after) => Z.max ACCOUNT_FRESH_FOR after
              | _ => ACCOUNT_FRESH_FOR
              end in
  {| self with
     account_failures := FailureCount_after_another (account_failures self);
     account_last_failure := Some failure;
     account_next_read := checked_add now wait |}.

(** ** What a reading shows *)

(** The entries MAM lists for the running qBittorrent version. *)
Definition running_client (self : Account) (running : ClientVersion) : list ListedClient :=
  filter (λ client, client_qbittorrent client = Some running)
    (from_option list_clients [] (account_client_list self)).

(** What MAM's client list says about the running qBittorrent. *)
Definition client_standing (self : Account) (running : option ClientVersion) : ClientStanding :=
  match account_client_list self, running with
  | Some list, Some running =>
      let ours := running_client self running in
      if existsb (λ client, client_refusal client ==? ClientRefusal_Refused) ours
      then ClientStanding_Refused
      else if negb (bool_decide (ours = [])) then ClientStanding_Listed
      else if bool_decide (list_clients list = []) then ClientStanding_NoneListed
      else if forallb (λ client, is_none (client_qbittorrent client)) (list_clients list)
      then ClientStanding_NotUnderstood
      else ClientStanding_NotListed
  | _, _ => ClientStanding_Unknown
  end.

Definition ratio (self : Account) : option Ratio := data self ≫= UserData_ratio.

(** Whether the ratio is below the floor, and whether urgently. *)
Definition ratio_low (self : Account) : option (Ratio * Urgency) :=
  (λ r, (r, if r <? RATIO_URGENT then Urgency_Urgent else Urgency_Normal))
    <$> opt_filter (λ r, r <? RATIO_FLOOR) (ratio self).

(** The unsatisfied count and limit, once 80% of the limit is reached. *)
Definition unsatisfied_near_limit (self : Account)
    : option (UnsatisfiedCount * UnsatisfiedLimit) :=
  data ← data self; summary ← data_summary data;
  let count := summary_unsatisfied summary in
  let limit := summary_unsatisfied_limit summary in
  then_some (UnsatisfiedLimit_nearly_reached_by limit count) (count, limit).

(** Unsatisfied torrents MAM sees not seeding. *)
Definition not_seeding_unsatisfied (self : Account) : option TorrentCount :=
  data ← data self; summary ← data_summary data;
  Some (TorrentCount_plus (summary_unsatisfied_not_seeding summary)
          (summary_hit_and_run_not_seeding summary)).

(** What else MAM flags. *)
Definition attention (self : Account) : option Attention :=
  data ← data self; summary ← data_summary data;
  Some {| attention_partial := summary_partial summary;
          attention_tracker_errors := summary_tracker_errors summary;
          attention_flagged :=
            fold_left TorrentCount_plus
              (red_count <$> filter (λ c, red_kind c = RedKind_Other) (summary_red summary)) 0 |}.

(** When VIP ends, if within the warning period. *)
Definition vip_ending (self : Account) (now : SystemTime) : option SystemTime :=
  data ← data self; until ← data_vip_until data;
  let warned := is_some_and (checked_add now VIP_WARN_WITHIN) (λ warn, until <=? warn) in
  then_some ((now <? until) && warned) until.

(** ** Spending *)

(** What these weeks cost at this weekly price, rounded up. *)
Definition VipWeeks_cost (w : VipWeeks) (per_week : Points) : Points :=
  (saturating_mul u64_max w per_week + 99) / 100.

(** The weekly price that spending this on these weeks shows. *)
Definition VipWeeks_price_per_week (w : VipWeeks) (spent : Points) : Points :=
  Points_times spent 100 / Z.max w 1.

(** The VIP time a renewal now buys, when it is due. *)
Definition vip_weeks (data : UserData) (now : SystemTime) : option VipWeeks :=
  let remaining := default 0 (data_vip_until data ≫= (λ until, wall_duration_since until now)) in
  if VIP_RENEW_WITHIN <=? remaining then None
  else
    let bought := as_secs (duration_saturating_sub VIP_FILL remaining) in
    Some (Z.max (saturating_mul u64_max bought 100 / as_secs WEEK) 100).

(** The expected price of renewing VIP now, when it is due for renewal. *)
Definition vip_cost (self : Account) (data : UserData) (now : SystemTime) : option Points :=
  weeks ← vip_weeks data now; Some (VipWeeks_cost weeks (account_vip_price_per_week self)).

(** The outcome of the last purchase is not settled yet. *)
Definition purchase_waiting (r : PurchaseRecord) : bool :=
  match purchase_outcome r with
  | None | Some PurchaseOutcome_Uncertain | Some PurchaseOutcome_Unresolved => true
  | _ => false
  end.

(** The purchase the spending policy wants now, if any. *)
Definition wanted_purchase (self : Account) (now : Instant) (wall : SystemTime)
    (reserve : Points) : option Purchase :=
  let since := purchase_sent <$> account_last_purchase self in
  let waiting := is_some_and (account_last_purchase self) purchase_waiting in
  data ← opt_filter (λ _, negb waiting) (fresh self now since);
  let affordable cost := Points_plus reserve cost <=? data_points data in
  let backed_off := is_some_and (account_refused self)
                      (λ at_, duration_since now at_ <? REFUSAL_BACKOFF) in
  cost ← vip_cost self data wall;
  then_some (affordable cost && negb backed_off) Purchase_Vip.

Definition buying (self : Account) (purchase : Purchase) (now : Instant) (wall : SystemTime)
    : Account :=
  {| self with account_last_purchase := Some {|
       purchase_purchase := purchase;
       purchase_at := wall;
       purchase_outcome := None;
       purchase_sent := now;
       purchase_before := (λ d, mkBefore (data_points d) (data_vip_until d)) <$> data self;
       purchase_vip_weeks := data self ≫= (λ d, vip_weeks d wall) |} |}.

Definition bought (self : Account) (purchase : Purchase) (now : Instant) (wall : SystemTime)
    (outcome : PurchaseOutcome) : Account :=
  let record := default (mkPurchaseRecord purchase wall None now None None)
                  (account_last_purchase self) in
  let price :=
    match outcome, purchase_purchase record, purchase_before record, purchase_vip_weeks record with
    | PurchaseOutcome_Made after, Purchase_Vip, Some before, Some weeks =>
        let price := VipWeeks_price_per_week weeks (Points_less (before_points before) after) in
        if 0 <? price then price else account_vip_price_per_week self
    | _, _, _, _ => account_vip_price_per_week self
    end in
  {| self with
     account_vip_price_per_week := price;
     account_refused := match outcome with
                        | PurchaseOutcome_Refused _ => Some now
                        | _ => account_refused self
                        end;
     account_last_purchase := Some {| record with purchase_outcome := Some outcome |} |}.
