(* ===== verification/Acquisition.v ===== *)
(** * Bookmark acquisition

    Bookmarks become downloads, each admitted only when every account rule
    allows it; the watch over running downloads ([core/mam/acquisition.rs]). *)

From S2P Require Import Prelude Values Vocabulary MamApi Messages Timer Qbittorrent Registry.
From S2P Require Import RatioGuard Account.

Definition BOOKMARKS_EVERY : Duration := from_mins 15.
Definition MAX_BOOKMARK_PAGES : Z := 10.
Definition RECENT_ADMISSION : Duration := from_hours 1.
Definition LOOKUP_FRESH_FOR : Duration := from_mins 5.
Definition WATCH_FRESH_FOR : Duration := from_mins 20.
Definition HISTORY_FRESH_FOR : Duration := from_mins 5.
Definition WEDGE_RECORDED_AFTER : Duration := from_mins 1.
Definition RETRY_AFTER : Duration := from_mins 5.
Definition PAGE_SIZE : Z := 100.

(** ** What admission depends on ([core/mam/mod.rs]) *)

Inductive RequestGate :=
  | RequestGate_Open
  | RequestGate_Closed.
#[global] Instance RequestGate_eq_dec : EqDecision RequestGate.
Proof. solve_decision. Defined.

Inductive ClientReadiness :=
  | ClientReadiness_Ready
  | ClientReadiness_NotReady.
#[global] Instance ClientReadiness_eq_dec : EqDecision ClientReadiness.
Proof. solve_decision. Defined.

(** ** Listing bookmarks *)

Record Listed := mkListed {
  listed_at : SystemTime;
  listed_taken : Instant;
  listed_found : BookmarkCount;
  listed_bookmarks : list Bookmark;
}.
#[global] Instance Listed_eq_dec : EqDecision Listed.
Proof. solve_decision. Defined.

Record Bookmarks := mkBookmarks {
  bookmarks_latest : option Listed;
  bookmarks_next : option Instant;
  bookmarks_failures : FailureCount;
  bookmarks_last_failure : option MamFailure;
  bookmarks_listing : option (list Bookmark);
}.
#[global] Instance Bookmarks_eq_dec : EqDecision Bookmarks.
Proof. solve_decision. Defined.

(** The page to request now: the next of a listing in progress, or the first of
    a due listing. *)
Definition Bookmarks_wanted (self : Bookmarks) (now : Instant) : option BookmarkCount :=
  match bookmarks_listing self with
  | None => then_some (is_none_or (bookmarks_next self) (λ next, next <=? now)) 0
  | Some listing => BookmarkCount_of (length listing)
  end.

Definition Bookmarks_next_due (self : Bookmarks) : option Instant :=
  if is_some (bookmarks_listing self) then None else bookmarks_next self.

(** Add a page; the complete list once the last page arrived. *)
Definition Bookmarks_page (self : Bookmarks) (now : Instant) (wall : SystemTime)
    (page : BookmarkPage) : Bookmarks * option Listed :=
  let empty := bool_decide (page_bookmarks page = []) in
  let listing := default [] (bookmarks_listing self) ++ page_bookmarks page in
  let done := empty
              || BookmarkCount_is_reached_by (page_found page) (length listing)
              || (MAX_BOOKMARK_PAGES * PAGE_SIZE <=? Z.of_nat (length listing)) in
  if negb done then ({| self with bookmarks_listing := Some listing |}, None)
  else
    let latest := mkListed wall now (page_found page) listing in
    (mkBookmarks (Some latest) (checked_add now BOOKMARKS_EVERY) FailureCount_NONE None None,
     Some latest).

Definition Bookmarks_failed (self : Bookmarks) (now : Instant) (failure : MamFailure)
    : Bookmarks :=
  let wait := match failure with
              | MamFailure_TooSoon (Some after) => Z.max RETRY_AFTER after
              | _ => RETRY_AFTER
              end in
  {| self with
     bookmarks_listing := None;
     bookmarks_failures := FailureCount_after_another (bookmarks_failures self);
     bookmarks_last_failure := Some failure;
     bookmarks_next := checked_add now wait |}.

(** The latest listing of this torrent. *)
Definition Bookmarks_find (self : Bookmarks) (id : MamTorrentId) : option Bookmark :=
  latest ← bookmarks_latest self;
  List.find (λ bookmark, bookmark_id bookmark ==? id) (listed_bookmarks latest).

(** ** Acquisition *)

Record Lookup := mkLookup {
  lookup_listing : option Bookmark;
  lookup_at : Instant;
}.
#[global] Instance Lookup_eq_dec : EqDecision Lookup.
Proof. solve_decision. Defined.

Record WedgeHistory := mkWedgeHistory {
  history_wedged : gset MamTorrentId;
  history_at : Instant;
}.
#[global] Instance WedgeHistory_eq_dec : EqDecision WedgeHistory.
Proof. solve_decision. Defined.

Inductive WedgeAccounting :=
  | WedgeAccounting_Complete
  | WedgeAccounting_Missing.
#[global] Instance WedgeAccounting_eq_dec : EqDecision WedgeAccounting.
Proof. solve_decision. Defined.

Inductive MamListing :=
  | MamListing_Listed
  | MamListing_Unlisted.
#[global] Instance MamListing_eq_dec : EqDecision MamListing.
Proof. solve_decision. Defined.

Inductive DownloadWatch :=
  | DownloadWatch_Wedged
  | DownloadWatch_FreeForNow
  | DownloadWatch_NeedLookup
  | DownloadWatch_NeedHistory
  | DownloadWatch_NotFree (wedges : WedgeAccounting) (listing : MamListing).
#[global] Instance DownloadWatch_eq_dec : EqDecision DownloadWatch.
Proof. solve_decision. Defined.

Inductive Next :=
  | Next_Idle
  | Next_Fetch (id : MamTorrentId) (wedge : Wedge)
  | Next_LookUp (id : MamTorrentId)
  | Next_NeedHistory
  | Next_NeedReading
  | Next_Hold (hold : Hold).
#[global] Instance Next_eq_dec : EqDecision Next.
Proof. solve_decision. Defined.

Record Facts := mkFacts {
  facts_now : Instant;
  facts_wall : SystemTime;
  facts_gate : RequestGate;
  facts_seedbox : SeedboxConfirmation;
  facts_readiness : ClientReadiness;
  facts_client : ClientStanding;
  facts_recent : UnsatisfiedCount;
  facts_downloading : TorrentCount;
  facts_downloading_limit : DownloadingLimit;
  facts_ratio_guard : RatioGuard;
  facts_account : Account;
}.

Record Acquisition := mkAcquisition {
  acq_bookmarks : Bookmarks;
  acq_refused : option SystemTime;
  acq_hold : option Hold;
  acq_fetching : option (MamTorrentId * Wedge);
  acq_last_admission : option Instant;
  acq_lookups : gmap MamTorrentId Lookup;
  acq_history : option WedgeHistory;
  acq_wedge_attempts : gmap MamTorrentId Instant;
  acq_watched : list (Download * DownloadWatch);
  acq_reported : gset MamTorrentId;
  acq_newly_fetched : gset MamTorrentId;
  acq_reapproved : gmap MamTorrentId IpAddr;
  acq_lookup_failed : option Instant;
  acq_history_failed : option Instant;
}.
#[global] Instance Acquisition_eq_dec : EqDecision Acquisition.
Proof. solve_decision. Defined.

Definition new : Acquisition := {|
  acq_bookmarks := mkBookmarks None None FailureCount_NONE None None;
  acq_refused := None;
  acq_hold := None;
  acq_fetching := None;
  acq_last_admission := None;
  acq_lookups := ∅;
  acq_history := None;
  acq_wedge_attempts := ∅;
  acq_watched := [];
  acq_reported := ∅;
  acq_newly_fetched := ∅;
  acq_reapproved := ∅;
  acq_lookup_failed := None;
  acq_history_failed := None;
|}.

(** Whether qBittorrent added the download within the last hour, or will add it. *)
Definition recent (download : Download) (wall : SystemTime) : bool :=
  is_none_or (download_added_at download) (λ at_,
    is_none_or (wall_duration_since wall at_) (λ age, age <? RECENT_ADMISSION)).

(** Whether downloading costs the owner no ratio without a wedge, now and until
    the next check. *)
Definition free_for_owner (listing : Bookmark) (data : UserData) (now : SystemTime) : bool :=
  let until := add_or_same now WATCH_FRESH_FOR in
  let account_vip := UserData_is_vip data until in
  let torrent_vip := VipTorrent_at (bookmark_vip listing) until in
  (bookmark_freeleech listing ==? Freeleech_ForEveryone)
  || (bookmark_personal listing ==? PersonalFreeleech_ThroughWedge)
  || ((bookmark_personal listing ==? PersonalFreeleech_ThroughVip) && account_vip)
  || (torrent_vip && account_vip).

(** The torrent as MAM reported it most recently, by the bookmark listing or a
    lookup by its ID, and when; of two reports at the same time the listing. *)
Definition latest (self : Acquisition) (id : MamTorrentId) : option (option Bookmark * Instant) :=
  let looked_up := (λ l, (lookup_listing l, lookup_at l)) <$> acq_lookups self !! id in
  let listed := (latest ← bookmarks_latest (acq_bookmarks self);
                 bookmark ← List.find (λ b, bookmark_id b ==? id) (listed_bookmarks latest);
                 Some (Some bookmark, listed_taken latest)) in
  match looked_up, listed with
  | Some a, Some b => if a.2 <=? b.2 then Some b else Some a
  | Some a, None => Some a
  | None, b => b
  end.

(** The same, if no longer ago than [within]. *)
Definition current (self : Acquisition) (id : MamTorrentId) (now : Instant) (within : Duration)
    : option (option Bookmark * Instant) :=
  opt_filter (λ p, duration_since now p.2 <=? within) (latest self id).

(** When MAM has recorded the wedge of this torrent's last wedged download. *)
Definition wedge_recorded (self : Acquisition) (id : MamTorrentId) : option Instant :=
  acq_wedge_attempts self !! id ≫= (λ attempt, checked_add attempt WEDGE_RECORDED_AFTER).

(** The bonus history, if read recently enough and long enough after the last
    wedged download of this torrent to show its wedge. *)
Definition history_settles (self : Acquisition) (id : MamTorrentId) (now : Instant)
    : option WedgeHistory :=
  opt_filter (λ history,
    (duration_since now (history_at history) <=? HISTORY_FRESH_FOR)
    && is_none_or (wedge_recorded self id) (λ recorded, recorded <=? history_at history))
    (acq_history self).

(** Whether a lookup or the bonus history may be asked for now. *)
Definition may_ask (failed : option Instant) (now : Instant) : bool :=
  is_none_or failed (λ failed, RETRY_AFTER <=? duration_since now failed).
Definition may_ask_history (self : Acquisition) (id : MamTorrentId) (now : Instant) : bool :=
  may_ask (acq_history_failed self) now
  && is_none_or (wedge_recorded self id) (λ recorded, recorded <=? now).
Definition ask (allowed : bool) (next : Next) : Next := if allowed then next else Next_Idle.

(** The first queued torrent that is still bookmarked and listed. *)
Definition candidate (self : Acquisition) (queued : list MamTorrentId) : option Bookmark :=
  find_map (λ id,
    let gone := is_some_and (acq_lookups self !! id) (λ l, is_none (lookup_listing l)) in
    opt_filter (λ _, negb gone) (Bookmarks_find (acq_bookmarks self) id)) queued.

(** [Acquisition::next]: decide for the first queued torrent that is still
    bookmarked and listed. *)
Definition next (self : Acquisition) (queued : list MamTorrentId) (facts : Facts) : Next :=
  match candidate self queued with
  | None => if bool_decide (queued = []) then Next_Idle else Next_Hold Hold_NotBookmarked
  | Some bookmark =>
  if facts_gate facts ==? RequestGate_Closed then Next_Hold Hold_MamUnavailable else
  if facts_seedbox facts ==? SeedboxConfirmation_Unconfirmed
  then Next_Hold Hold_SeedboxUnconfirmed else
  if is_some (acq_refused self) then Next_Hold Hold_DownloadsRefused else
  match facts_ratio_guard facts with
  | RatioGuard_Tripped _ => Next_Hold Hold_RatioUsed
  | RatioGuard_Reading | RatioGuard_ReadFailed => Next_Hold Hold_RatioGuardUnknown
  | RatioGuard_Watching _ =>
  if facts_readiness facts ==? ClientReadiness_NotReady then Next_Hold Hold_ClientUnavailable else
  if DownloadingLimit_is_reached_by (facts_downloading_limit facts) (facts_downloading facts)
  then Next_Hold (Hold_DownloadingLimit (facts_downloading facts) (facts_downloading_limit facts))
  else
  match fresh (facts_account facts) (facts_now facts) (acq_last_admission self) with
  | None => Next_NeedReading
  | Some data =>
  if negb (ClientStanding_admits (facts_client facts))
  then Next_Hold (Hold_MamClientList (facts_client facts)) else
  if is_some (ratio_low (facts_account facts)) then Next_Hold Hold_RatioLow else
  match data_summary data with
  | None => Next_Hold Hold_AccountUnknown
  | Some summary =>
  let count := UnsatisfiedCount_plus (summary_unsatisfied summary) (facts_recent facts) in
  let limit := summary_unsatisfied_limit summary in
  if negb (UnsatisfiedLimit_admits_one_more limit count UNSATISFIED_RESERVE)
  then Next_Hold (Hold_UnsatisfiedLimit count limit) else
  let id := bookmark_id bookmark in
  match current self id (facts_now facts) LOOKUP_FRESH_FOR with
  | Some (Some listing, _) =>
      if free_for_owner listing data (facts_wall facts) then Next_Fetch id Wedge_Keep else
      match history_settles self id (facts_now facts) with
      | None => ask (may_ask_history self id (facts_now facts)) Next_NeedHistory
      | Some history =>
          let wedge := if bool_decide (id ∈ history_wedged history) then Wedge_Keep
                       else Wedge_Spend in
          if (wedge ==? Wedge_Spend) && WedgeCount_is_zero (data_wedges data)
          then Next_Hold Hold_NoWedge
          else Next_Fetch id wedge
      end
  | _ => ask (may_ask (acq_lookup_failed self) (facts_now facts)) (Next_LookUp id)
  end end end end end.

Definition fetching (self : Acquisition) (now : Instant) (id : MamTorrentId) (wedge : Wedge)
    (admitted : bool) : Acquisition :=
  {| self with
     acq_fetching := Some (id, wedge);
     acq_wedge_attempts := if wedge ==? Wedge_Spend then <[id := now]> (acq_wedge_attempts self)
                           else acq_wedge_attempts self;
     acq_last_admission := if admitted then Some now else acq_last_admission self |}.

(** [Acquisition::watch]: what Windlass knows about a running download it added. *)
Definition watch (self : Acquisition) (download : Download) (data : option UserData)
    (now : Instant) (wall : SystemTime) : DownloadWatch :=
  let history := acq_history self in
  if is_some_and history (λ h, bool_decide (download_mam download ∈ history_wedged h))
  then DownloadWatch_Wedged else
  match wedge_recorded self (download_mam download) with
  | Some recorded =>
      if is_some_and history (λ h, recorded <=? history_at h)
      then DownloadWatch_NotFree WedgeAccounting_Missing MamListing_Listed
      else DownloadWatch_NeedHistory
  | None =>
      match current self (download_mam download) now WATCH_FRESH_FOR with
      | None => DownloadWatch_NeedLookup
      | Some (listing, seen) =>
          let free := is_some_and (opt_zip listing data) (λ p, free_for_owner p.1 p.2 wall) in
          if free then DownloadWatch_FreeForNow
          else if is_some_and history (λ h, seen <=? history_at h) then
            DownloadWatch_NotFree WedgeAccounting_Complete
              (if is_some listing then MamListing_Listed else MamListing_Unlisted)
          else DownloadWatch_NeedHistory
      end
  end.

(** [Acquisition::watch_all]: each running download, unfinished or added within
    the last hour. *)
Definition watch_all (self : Acquisition) (downloads : list Download) (data : option UserData)
    (now : Instant) (wall : SystemTime) : list (Download * DownloadWatch) :=
  (λ download, (download, watch self download data now wall)) <$>
    filter (λ download, (download_completion download ==? Completion_Incomplete)
                        || recent download wall) downloads.

(** What the watch of one download wants. *)
Definition watch_wants (self : Acquisition) (account : Account) (now : Instant)
    (w : Download * DownloadWatch) : Next :=
  let '(download, watch) := w in
  match watch with
  | DownloadWatch_NeedLookup =>
      if may_ask (acq_lookup_failed self) now then Next_LookUp (download_mam download)
      else Next_Idle
  | DownloadWatch_NeedHistory =>
      if may_ask_history self (download_mam download) now then Next_NeedHistory else Next_Idle
  | DownloadWatch_NotFree WedgeAccounting_Complete MamListing_Listed =>
      if download_completion download ==? Completion_Incomplete then
        match fresh account now None with
        | Some data => if negb (WedgeCount_is_zero (data_wedges data))
                       then Next_Fetch (download_mam download) Wedge_Spend else Next_Idle
        | None => Next_NeedReading
        end
      else Next_Idle
  | _ => Next_Idle
  end.

(** [Acquisition::watch_next]: the first request a watch wants, if any. *)
Definition watch_next (self : Acquisition) (account : Account) (now : Instant) : Next :=
  default Next_Idle (find_map (λ w,
    let next := watch_wants self account now w in
    if next !=? Next_Idle then Some next else None) (acq_watched self)).

(** [Acquisition::next_due] *)
Definition next_due (self : Acquisition) : option Instant :=
  let free_until :=
    min_list (omap (λ w, p ← latest self (download_mam w.1); checked_add p.2 WATCH_FRESH_FOR)
      (filter (λ w, w.2 = DownloadWatch_FreeForNow) (acq_watched self))) in
  let retry (failed : option Instant) := failed ≫= (λ failed, checked_add failed RETRY_AFTER) in
  let recorded :=
    min_list (filter (λ recorded, is_none_or (acq_history self) (λ h, history_at h <? recorded))
      (omap (wedge_recorded self) (bt_keys (acq_wedge_attempts self)))) in
  min_list (omap id [free_until; recorded; retry (acq_lookup_failed self);
                     retry (acq_history_failed self)]).

Definition looked_up (self : Acquisition) (now : Instant) (id : MamTorrentId)
    (listing : option Bookmark) : Acquisition :=
  {| self with acq_lookup_failed := None;
               acq_lookups := <[id := mkLookup listing now]> (acq_lookups self) |}.
Definition lookup_failed (self : Acquisition) (now : Instant) : Acquisition :=
  {| self with acq_lookup_failed := Some now |}.
Definition history_read (self : Acquisition) (now : Instant) (spent : list WedgeSpent)
    : Acquisition :=
  {| self with acq_history_failed := None;
               acq_history := Some (mkWedgeHistory (list_to_set (spent_torrent <$> spent)) now) |}.
Definition history_failed (self : Acquisition) (now : Instant) : Acquisition :=
  {| self with acq_history_failed := Some now |}.
