(* ===== verification/Connectability.v ===== *)
(** * Keeping qBittorrent connectable

    When MAM reports the client not connectable, what Windlass checks and
    repairs, and the reading that shows whether it worked
    ([core/mam/connectability.rs]). *)

From S2P Require Import Prelude Values Vocabulary MamApi Messages.

Definition REPAIR_SETTLES_AFTER : Duration := from_mins 30.

Record Connection := mkConnection {
  conn_listen_port : option Port;
  conn_forwarded_port : option Port;
  conn_tunnel_ip : option IpAddr;
  conn_interface : option string;
}.
#[global] Instance Connection_eq_dec : EqDecision Connection.
Proof. solve_decision. Defined.

(** [Findings::check] *)
Definition Findings_check (connection : Connection) (mam_ip : option IpAddr)
    (seedbox : SeedboxConfirmation) : Findings := {|
  findings_listen_port :=
    match conn_listen_port connection, conn_forwarded_port connection with
    | _, None => PortFinding_NoForwardedPort
    | listening, Some forwarded =>
        if listening ==? Some forwarded then PortFinding_Matches forwarded
        else PortFinding_Differs listening forwarded
    end;
  findings_lease := if is_some (conn_forwarded_port connection) then LeaseRenewal_Requested
                    else LeaseRenewal_NotRequested;
  findings_exit_ip :=
    match mam_ip, conn_tunnel_ip connection with
    | Some mam, Some tunnel =>
        if mam ==? tunnel then IpFinding_Matches mam else IpFinding_Differs mam tunnel
    | _, _ => IpFinding_Unknown
    end;
  findings_seedbox := seedbox;
  findings_interface := conn_interface connection;
|}.

Inductive Connectability :=
  | Connectability_Fine
  | Connectability_Repaired (at_ : Instant) (wall : SystemTime) (findings : Findings)
  | Connectability_Unresolved (repaired : SystemTime) (findings : Findings).
#[global] Instance Connectability_eq_dec : EqDecision Connectability.
Proof. solve_decision. Defined.

(** Follow the latest reading: when it was taken and whether MAM could not reach
    qBittorrent. Whether a repair is wanted now. *)
Definition follow (self : Connectability) (reading : option (Instant * bool))
    : Connectability * bool :=
  match reading with
  | None => (self, false)
  | Some (taken, unreachable) =>
      match self with
      | Connectability_Fine => (self, unreachable)
      | Connectability_Repaired at_ wall findings =>
          let settled := is_some_and (checked_add at_ REPAIR_SETTLES_AFTER)
                           (λ settled, settled <=? taken) in
          (if settled then
             if unreachable then Connectability_Unresolved wall findings else Connectability_Fine
           else self, false)
      | Connectability_Unresolved _ _ =>
          (if negb unreachable then Connectability_Fine else self, false)
      end
  end.

Definition repaired (self : Connectability) (now : Instant) (wall : SystemTime)
    (findings : Findings) : Connectability :=
  Connectability_Repaired now wall findings.
