(* ===== verification/Mam.v ===== *)
(** * Windlass's work with MAM

    One request outstanding at a time, chosen each step when MAM requests are
    not paused, VPN protection is available and the token bucket allows it
    ([core/mam/mod.rs]). *)

From S2P Require Import Prelude Values Vocabulary MamApi Messages Timer MamPause Qbittorrent.
From S2P Require Import Registry Budget RatioGuard Network Account Acquisition Connectability.

Definition REMINDER_EVERY : Duration := from_hours (7 * 24).

(** ** Data *)

(** One connection to MAM, a wrapping [u64]. *)
Abbreviation ConnectionEpoch := Z (only parsing).
Definition ConnectionEpoch_FIRST : ConnectionEpoch := 0.
Definition ConnectionEpoch_next (e : ConnectionEpoch) : ConnectionEpoch := wrapping_add u64_max e 1.

Inductive Outstanding :=
  | Outstanding_SavingRegistration (at_ : SystemTime) (cookie : ApiCookie) (epoch : ConnectionEpoch)
  | Outstanding_Request (request : MamRequest) (sent : Instant) (epoch : ConnectionEpoch).
#[global] Instance Outstanding_eq_dec : EqDecision Outstanding.
Proof. solve_decision. Defined.

Inductive LastReminder :=
  | LastReminder_Unread
  | LastReminder_Reading
  | LastReminder_Known (at_ : option SystemTime)
  | LastReminder_ReadFailed.
#[global] Instance LastReminder_eq_dec : EqDecision LastReminder.
Proof. solve_decision. Defined.

Inductive MamHosts :=
  | MamHosts_Configured
  | MamHosts_NotConfigured.
#[global] Instance MamHosts_eq_dec : EqDecision MamHosts.
Proof. solve_decision. Defined.

Inductive TunnelProtection :=
  | TunnelProtection_Protected
  | TunnelProtection_Unprotected.
#[global] Instance TunnelProtection_eq_dec : EqDecision TunnelProtection.
Proof. solve_decision. Defined.

(** The core state that MAM work depends on. *)
Record Context := mkContext {
  ctx_requests : MamRequestsStatus;
  ctx_protection : TunnelProtection;
  ctx_cookie : option ApiCookie;
  ctx_requested_cookie : option ApiCookie;
  ctx_reserve : option Points;
  ctx_readiness : ClientReadiness;
  ctx_client_version : option ClientVersion;
  ctx_connection : Connection;
  ctx_downloading_limit : DownloadingLimit;
  ctx_registry : Registry;
}.

Record Mam := mkMam {
  mam_hosts : MamHosts;
  mam_gate : RequestGate;
  mam_session : Network.Session;
  mam_network : Network;
  mam_seedbox : Seedbox;
  mam_account : Account;
  mam_acquisition : Acquisition;
  mam_budget : Budget;
  mam_outstanding : option Outstanding;
  mam_last_reminder : LastReminder;
  mam_client : ClientStanding;
  mam_ratio_guard : RatioGuard;
  mam_connectability : Connectability;
  mam_lease : LeaseRenewal;
  mam_cookie_in_use : option ApiCookie;
  mam_issued_cookie : option ApiCookie;
  mam_confirmed_download_ip : option IpAddr;
  mam_epoch : ConnectionEpoch;
  mam_wake : option (TimerId * Instant);
  mam_notices : list Notice;
}.

Inductive Wanted :=
  | Wanted_Register
  | Wanted_Request (request : MamRequest).
#[global] Instance Wanted_eq_dec : EqDecision Wanted.
Proof. solve_decision. Defined.

Definition new : Mam := {|
  mam_hosts := MamHosts_NotConfigured;
  mam_gate := RequestGate_Closed;
  mam_session := Session_Unverified;
  mam_network := Network_new;
  mam_seedbox := Seedbox_new;
  mam_account := Account.new;
  mam_acquisition := Acquisition.new;
  mam_budget := Budget.new;
  mam_outstanding := None;
  mam_last_reminder := LastReminder_Unread;
  mam_client := ClientStanding_Unknown;
  mam_ratio_guard := RatioGuard_Reading;
  mam_connectability := Connectability_Fine;
  mam_lease := LeaseRenewal_NotRequested;
  mam_cookie_in_use := None;
  mam_issued_cookie := None;
  mam_confirmed_download_ip := None;
  mam_epoch := ConnectionEpoch_FIRST;
  mam_wake := None;
  mam_notices := [];
|}.

(** ** Small operations *)

Definition push_notice (self : Mam) (notice : Notice) : Mam :=
  {| self with mam_notices := mam_notices self ++ [notice] |}.

Definition with_acquisition (self : Mam) (acquisition : Acquisition) : Mam :=
  {| self with mam_acquisition := acquisition |}.

Definition start_reading (self : Mam) : Mam * list Action :=
  let seedbox := mam_seedbox self in
  ({| self with
      mam_seedbox := {| seedbox with seedbox_last_attempt := LastAttempt_Reading |};
      mam_last_reminder := LastReminder_Reading;
      mam_ratio_guard := RatioGuard_Reading |}, [Action_ReadMamState]).

(** Notices decided since they were last taken. *)
Definition take_notices (self : Mam) : Mam * list Notice :=
  ({| self with mam_notices := [] |}, mam_notices self).

(** The VPN moved to another server: the IP MAM sees may have changed. *)
Definition vpn_switched (self : Mam) : Mam :=
  {| self with mam_network := Network_unconfirm (mam_network self);
               mam_confirmed_download_ip := None |}.

Definition timer_expired (self : Mam) (id : TimerId) : Mam :=
  if is_some_and (mam_wake self) (λ w, w.1 ==? id) then {| self with mam_wake := None |} else self.

(** Whether a new forwarded-port lease is wanted, once. *)
Definition take_lease_renewal (self : Mam) : Mam * LeaseRenewal :=
  ({| self with mam_lease := LeaseRenewal_NotRequested |}, mam_lease self).

(** Whether MAM has cleared this incomplete download to begin transferring. *)
Definition permits_download (self : Mam) (id : MamTorrentId) : bool :=
  match Network.current (mam_network self) with
  | None => false
  | Some observed =>
      (mam_gate self ==? RequestGate_Open)
      && permits_downloads (mam_ratio_guard self)
      && match mam_session self with Session_Verified _ => true | _ => false end
      && ((mam_confirmed_download_ip self ==? Some (observed_ip observed))
          || (acq_reapproved (mam_acquisition self) !! id ==? Some (observed_ip observed)))
      && (bool_decide (id ∈ acq_newly_fetched (mam_acquisition self))
          || existsb (λ w,
               (download_mam w.1 ==? id)
               && match w.2 with
                  | DownloadWatch_Wedged | DownloadWatch_FreeForNow => true
                  | _ => false
                  end) (acq_watched (mam_acquisition self)))
  end.

(** ** The watch over running downloads *)

(** The notice one watched download calls for, if any. *)
Definition watch_notice (no_wedges : bool) (download : Download) (watch : DownloadWatch)
    : option Notice :=
  match watch with
  | DownloadWatch_Wedged | DownloadWatch_FreeForNow => None
  | DownloadWatch_NotFree WedgeAccounting_Missing _ => Some Notice_WedgeNotSpent
  | DownloadWatch_NotFree WedgeAccounting_Complete listing =>
      if download_completion download ==? Completion_Complete
      then Some (Notice_DownloadNotFree NotFreeOutcome_FinishedFirst)
      else if (listing ==? MamListing_Unlisted) || no_wedges
      then Some (Notice_DownloadNotFree NotFreeOutcome_Stopped)
      else None
  | DownloadWatch_NeedLookup | DownloadWatch_NeedHistory => None
  end.

(** One download of [follow_downloads]. *)
Definition follow_download (now : ClockReading) (no_wedges tripped : bool)
    (st : Mam * Records * list Action) (w : Download * DownloadWatch)
    : Mam * Records * list Action :=
  let '(self, records, actions) := st in
  let '(download, watch) := w in
  let '(self, records, actions) :=
    match watch with
    | DownloadWatch_Wedged | DownloadWatch_FreeForNow =>
        let '(self, records, actions) :=
          if (download_desired download ==? Desired_Held)
             && permits_downloads (mam_ratio_guard self) then
            let '(records, more) := resume records (monotonic now) (download_hash download) in
            let acq := mam_acquisition self in
            let acq :=
              match Network.current (mam_network self) with
              | Some observed =>
                  {| acq with acq_reapproved :=
                     <[download_mam download := observed_ip observed]> (acq_reapproved acq) |}
              | None => acq
              end in
            (with_acquisition self acq, records, actions ++ more)
          else (self, records, actions) in
        let acq := mam_acquisition self in
        (with_acquisition self
           {| acq with acq_reported := acq_reported acq ∖ {[download_mam download]} |},
         records, actions)
    | _ => (self, records, actions)
    end in
  let notice := watch_notice no_wedges download watch in
  let '(records, actions) :=
    if (tripped || is_some notice) && Download_is_downloading download then
      let '(records, more) := hold records (monotonic now) (download_hash download) in
      (records, actions ++ more)
    else (records, actions) in
  match notice with
  | Some notice =>
      let acq := mam_acquisition self in
      if bool_decide (download_mam download ∈ acq_reported acq) then (self, records, actions)
      else
        let self := with_acquisition self
                      {| acq with acq_reported := {[download_mam download]} ∪ acq_reported acq |} in
        (push_notice self notice, records, actions)
  | None => (self, records, actions)
  end.

(** [Mam::follow_downloads] *)
Definition follow_downloads (self : Mam) (now : ClockReading) (registry : Registry)
    : Mam * Registry * list Action :=
  match registry with
  | Registry_Loaded records =>
      let watched := watch_all (mam_acquisition self) (downloads records)
                       (Account.data (mam_account self)) (monotonic now) (wall now) in
      let no_wedges := is_some_and (Account.data (mam_account self))
                         (λ data, WedgeCount_is_zero (data_wedges data)) in
      let tripped := match mam_ratio_guard self with RatioGuard_Tripped _ => true | _ => false end in
      let '(self, records, actions) :=
        fold_left (follow_download now no_wedges tripped) watched (self, records, []) in
      let acq := mam_acquisition self in
      (with_acquisition self {| acq with acq_watched := watched |},
       Registry_Loaded records, actions)
  | _ => (self, registry, [])
  end.

(** [Mam::watch_downloads]: note what Windlass knows about each running download;
    how many qBittorrent added in the last hour, or will add. *)
Definition watch_downloads (self : Mam) (now : ClockReading) (records : option Records)
    : Mam * UnsatisfiedCount :=
  let acq := mam_acquisition self in
  match records with
  | None => (with_acquisition self {| acq with acq_watched := [] |}, 0)
  | Some records =>
      let acq :=
        {| acq with acq_newly_fetched :=
           filter (λ id, is_some_and (find_mam records id) (λ record,
             (record_desired record ==? Desired_Active) && is_none (record_observation record)))
             (acq_newly_fetched acq) |} in
      let acq :=
        {| acq with acq_watched :=
           watch_all acq (downloads records) (Account.data (mam_account self))
             (monotonic now) (wall now) |} in
      (with_acquisition self acq,
       try_from_or_max u32_max (Z.of_nat (length
         (filter (λ download, recent download (wall now)) (downloads records)))))
  end.

(** ** Answers *)

(** [Mam::follow_session]: a refusal stops requests that need the cookie; a
    success proves it. *)
Definition follow_session (self : Mam) (now : SystemTime) (request : MamRequest)
    (result : Result MamReply MamFailure) : Mam :=
  match result with
  | Err (MamFailure_Session rejection) =>
      if (rejection ==? SessionRejection_NotAllowed) && (request ==? MamRequest_RegisterSeedbox)
      then self
      else {| self with mam_session := Session_Rejected rejection
                ((λ o, (observed_ip o, observed_asn o)) <$> Network.current (mam_network self))
                now |}
  | Ok _ => {| self with mam_session := Session_Verified now |}
  | Err _ => self
  end.

(** [Mam::purchased]: a purchase's outcome is recorded whenever it arrives. *)
Definition purchased (self : Mam) (now : Instant) (wall : SystemTime) (purchase : Purchase)
    (result : Result MamReply MamFailure) : Mam :=
  let '(self, outcome) :=
    match result with
    | Ok (MamReply_Purchased points) =>
        (push_notice self (Notice_PurchaseMade purchase points), PurchaseOutcome_Made points)
    | Err failure =>
        if MamFailure_uncertain failure then
          (push_notice self (Notice_PurchaseUncertain purchase), PurchaseOutcome_Uncertain)
        else
          match failure with
          | MamFailure_Refused message =>
              (push_notice self (Notice_PurchaseRefused purchase), PurchaseOutcome_Refused message)
          | _ => (self, PurchaseOutcome_Refused None)
          end
    | Ok _ => (self, PurchaseOutcome_Refused None)
    end in
  {| self with mam_account := bought (mam_account self) purchase now wall outcome |}.

(** Whether the row for this MAM torrent waits for a free slot. *)
Definition is_queued (records : Records) (id : MamTorrentId) : bool :=
  is_some_and (find_mam records id) (λ record, record_desired record ==? Desired_Queued).

(** [Mam::fetched]: a fetched torrent is recorded whenever it arrives. *)
Definition fetched (self : Mam) (now : ClockReading) (id : MamTorrentId) (wedge : Wedge)
    (result : Result MamReply MamFailure) (registry : Registry) : Mam * Registry * list Action :=
  let acq := mam_acquisition self in
  let self := with_acquisition self {| acq with acq_fetching := None |} in
  let acq := mam_acquisition self in
  match result with
  | Ok (MamReply_Fetched fetched) =>
      match opt_filter (λ records, is_queued records id) (Registry.loaded registry) with
      | Some records =>
          let '(records, actions) :=
            Registry.fetched records (monotonic now) id (fetched_hash fetched) in
          (with_acquisition self
             {| acq with acq_newly_fetched := {[id]} ∪ acq_newly_fetched acq |},
           Registry_Loaded records, actions)
      | None =>
          let self := if wedge ==? Wedge_Spend then push_notice self Notice_WedgedMidDownload
                      else self in
          follow_downloads self now registry
      end
  | Err (MamFailure_Refused _) =>
      (with_acquisition self {| acq with acq_refused := Some (wall now) |}, registry, [])
  | _ => (self, registry, [])
  end.

(** Bookmarks the listing shows snatched before, in [Mam::listed]. *)
Definition mark_snatched (now : Instant) (st : Records * list Action) (bookmark : Bookmark)
    : Records * list Action :=
  let '(records, actions) := st in
  let '(records, more) := snatched records now (bookmark_id bookmark) in
  (records, actions ++ more).

(** [Mam::listed]: record new bookmarks once the listing is complete. *)
Definition listed (self : Mam) (now : ClockReading) (page : BookmarkPage) (registry : Registry)
    : Mam * Registry * list Action :=
  let acq := mam_acquisition self in
  let '(bookmarks, listed) := Bookmarks_page (acq_bookmarks acq) (monotonic now) (wall now) page in
  let self := with_acquisition self {| acq with acq_bookmarks := bookmarks |} in
  match listed, registry with
  | Some listed, Registry_Loaded records =>
      let '(records, actions) :=
        fold_left (mark_snatched (monotonic now))
          (filter (λ b, bookmark_snatched b = Snatched_Before) (listed_bookmarks listed))
          (records, []) in
      let new :=
        (λ b, (bookmark_id b, match bookmark_snatched b with
                              | Snatched_Before => Desired_Snatched
                              | Snatched_Never => Desired_Queued
                              end))
        <$> filter (λ b, negb (knows records (bookmark_id b))) (listed_bookmarks listed) in
      let '(records, more) := bookmarked records (monotonic now) new in
      let '(self, registry, last) := follow_downloads self now (Registry_Loaded records) in
      (self, registry, actions ++ more ++ last)
  | _, _ => (self, registry, [])
  end.

(** [Mam::answered] *)
Definition answered (self : Mam) (now : ClockReading) (request : MamRequest)
    (result : Result MamReply MamFailure) (current : bool) (registry : Registry)
    : Mam * Registry * list Action :=
  let self := if current && MamRequest_needs_cookie request
              then follow_session self (wall now) request result else self in
  let ignored := (self, registry, []) in
  match request, result with
  | MamRequest_LookUpIp, Ok (MamReply_Ip observation) =>
      if current then
        ({| self with mam_network :=
            observed (mam_network self) (monotonic now) (wall now) observation |}, registry, [])
      else ignored
  | MamRequest_LookUpIp, Err failure =>
      if current then
        ({| self with mam_network := Network_failed (mam_network self) (monotonic now) failure |},
         registry, [])
      else ignored
  | MamRequest_RegisterSeedbox, Ok (MamReply_Registered _ ip) =>
      if current then
        ({| self with mam_seedbox := confirmed (mam_seedbox self) ip (wall now);
                      mam_confirmed_download_ip := Some ip |}, registry, [])
      else ignored
  | MamRequest_RegisterSeedbox, Err failure =>
      if current then
        ({| self with mam_seedbox := Seedbox_failed (mam_seedbox self) failure (wall now) |},
         registry, [])
      else ignored
  | MamRequest_LoadUserData _, Ok (MamReply_UserData data) =>
      if current then
        let '(account, settled) := Account.read (mam_account self) (monotonic now) (wall now) data in
        let self := {| self with mam_account := account |} in
        let self := match settled with
                    | Some (purchase, PurchaseOutcome_Settled sale _) =>
                        push_notice self (Notice_PurchaseSettled purchase sale)
                    | _ => self
                    end in
        let '(guard, seen) :=
          RatioGuard.observe (mam_ratio_guard self) (data_downloaded data) (wall now) in
        let self := {| self with mam_ratio_guard := guard |} in
        let '(self, actions) :=
          match seen with
          | Seen_Unchanged => (self, [])
          | Seen_Rebased guard => (self, [Action_SaveRatioGuard guard])
          | Seen_Tripped used =>
              (push_notice self (Notice_RatioUsed (RatioUse_counted used)),
               [Action_SaveRatioGuard (SavedRatioGuard_Tripped used)])
          end in
        let '(self, registry, more) := follow_downloads self now registry in
        (self, registry, actions ++ more)
      else ignored
  | MamRequest_WedgeHistory, Ok (MamReply_WedgeHistory spent) =>
      if current then
        follow_downloads
          (with_acquisition self (history_read (mam_acquisition self) (monotonic now) spent))
          now registry
      else ignored
  | MamRequest_WedgeHistory, Err _ =>
      if current then
        (with_acquisition self (history_failed (mam_acquisition self) (monotonic now)), registry, [])
      else ignored
  | MamRequest_LookUpTorrent id, Ok (MamReply_Torrent listing) =>
      if current then
        let snatched_before :=
          is_some_and listing (λ l, bookmark_snatched l ==? Snatched_Before) in
        let self := with_acquisition self
                      (looked_up (mam_acquisition self) (monotonic now) id listing) in
        let '(registry, actions) :=
          match registry with
          | Registry_Loaded records =>
              if snatched_before then
                let '(records, actions) := snatched records (monotonic now) id in
                (Registry_Loaded records, actions)
              else (registry, [])
          | _ => (registry, [])
          end in
        let '(self, registry, more) := follow_downloads self now registry in
        (self, registry, actions ++ more)
      else ignored
  | MamRequest_LookUpTorrent _, Err _ =>
      if current then
        (with_acquisition self (lookup_failed (mam_acquisition self) (monotonic now)), registry, [])
      else ignored
  | MamRequest_LoadUserData _, Err failure =>
      if current then
        ({| self with mam_account := Account.failed (mam_account self) (monotonic now) failure |},
         registry, [])
      else ignored
  | MamRequest_Buy purchase, result =>
      (purchased self (monotonic now) (wall now) purchase result, registry, [])
  | MamRequest_FetchTorrent id wedge, result => fetched self now id wedge result registry
  | MamRequest_ListBookmarks _, Ok (MamReply_Bookmarks page) =>
      if current then listed self now page registry else ignored
  | MamRequest_ListBookmarks _, Err failure =>
      if current then
        let acq := mam_acquisition self in
        (with_acquisition self
           {| acq with acq_bookmarks :=
              Bookmarks_failed (acq_bookmarks acq) (monotonic now) failure |}, registry, [])
      else ignored
  | _, _ => ignored
  end.

(** [Mam::handle]: a new cookie MAM issued, for settings to save, comes back
    separately. *)
Definition handle (self : Mam) (now : ClockReading) (event : MamEvent) (registry : Registry)
    : Mam * Registry * (list Action * option ApiCookie) :=
  match event with
  | MamEvent_Enable =>
      ({| self with mam_hosts := MamHosts_Configured;
                    mam_network := sent (mam_network self) (monotonic now) |},
       registry, ([], None))
  | MamEvent_StateRead last_registration last_reminder ratio_guard =>
      let seedbox := mam_seedbox self in
      ({| self with
          mam_seedbox :=
            {| seedbox with seedbox_last_attempt := LastAttempt_Known last_registration |};
          mam_last_reminder := LastReminder_Known last_reminder;
          mam_ratio_guard := restored ratio_guard |}, registry, ([], None))
  | MamEvent_StateReadFailed =>
      let seedbox := mam_seedbox self in
      ({| self with
          mam_seedbox := {| seedbox with seedbox_last_attempt := LastAttempt_ReadFailed |};
          mam_last_reminder := LastReminder_ReadFailed;
          mam_ratio_guard := RatioGuard_ReadFailed |}, registry, ([], None))
  | MamEvent_RatioUseChecked =>
      let latest := data_downloaded <$> Account.data (mam_account self) in
      match RatioGuard.checked (mam_ratio_guard self) latest with
      | (_, None) => (self, registry, ([], None))
      | (ratio_guard, Some guard) =>
          let self := push_notice {| self with mam_ratio_guard := ratio_guard |}
                        Notice_RatioUseChecked in
          let '(self, registry, more) := follow_downloads self now registry in
          (self, registry, (Action_SaveRatioGuard guard :: more, None))
      end
  | MamEvent_RegistrationAttemptSaved =>
      match mam_outstanding self with
      | Some (Outstanding_SavingRegistration at_ cookie epoch) =>
          let self := {| self with mam_outstanding := None;
                                   mam_seedbox := saved (mam_seedbox self) at_ |} in
          if epoch !=? mam_epoch self then (self, registry, ([], None))
          else
            ({| self with mam_outstanding :=
                Some (Outstanding_Request MamRequest_RegisterSeedbox (monotonic now) epoch) |},
             registry, ([Action_MamRequest MamRequest_RegisterSeedbox (Some cookie)], None))
      | _ => (self, registry, ([], None))
      end
  | MamEvent_RegistrationAttemptSaveFailed =>
      match mam_outstanding self with
      | Some (Outstanding_SavingRegistration _ _ _) =>
          ({| self with mam_outstanding := None;
                        mam_seedbox := Network.save_failed (mam_seedbox self) (wall now) |},
           registry, ([], None))
      | _ => (self, registry, ([], None))
      end
  | MamEvent_ReminderSaved | MamEvent_ReminderSaveFailed
  | MamEvent_RatioGuardSaved | MamEvent_RatioGuardSaveFailed => (self, registry, ([], None))
  | MamEvent_PurchaseChecked sale =>
      match Account.checked (mam_account self) sale with
      | (account, Some purchase) =>
          (push_notice {| self with mam_account := account |}
             (Notice_PurchaseSettled purchase sale), registry, ([], None))
      | (_, None) => (self, registry, ([], None))
      end
  | MamEvent_Answered result rotated =>
      match mam_outstanding self with
      | Some (Outstanding_Request request _ epoch) =>
          let self := {| self with mam_outstanding := None |} in
          let current := epoch ==? mam_epoch self in
          let '(self, registry, actions) := answered self now request result current registry in
          let rotated :=
            opt_filter (λ _, current && MamRequest_needs_cookie request) rotated in
          let self := match rotated with
                      | Some cookie => {| self with mam_issued_cookie := Some cookie |}
                      | None => self
                      end in
          (self, registry, (actions, rotated))
      | _ => (self, registry, ([], None))
      end
  end.

(** ** Choosing the next request *)

(** [Mam::disconnect]: the session and registration need confirming again. *)
Definition disconnect (self : Mam) : Mam :=
  let acq := mam_acquisition self in
  {| self with
     mam_epoch := ConnectionEpoch_next (mam_epoch self);
     mam_session := Session_Unverified;
     mam_network := Network_unconfirm (mam_network self);
     mam_seedbox := Seedbox_unconfirm (mam_seedbox self);
     mam_confirmed_download_ip := None;
     mam_acquisition := {| acq with acq_newly_fetched := ∅; acq_reapproved := ∅ |} |}.

(** [Mam::follow_gate]: open or close the request gate; closing it disconnects. *)
Definition follow_gate (self : Mam) (context : Context) : Mam * RequestGate :=
  let gate :=
    if (mam_hosts self ==? MamHosts_Configured)
       && (ctx_requests context ==? MamRequestsStatus_Running)
       && (ctx_protection context ==? TunnelProtection_Protected)
    then RequestGate_Open else RequestGate_Closed in
  let self := if (mam_gate self ==? RequestGate_Open) && (gate ==? RequestGate_Closed)
              then disconnect self else self in
  ({| self with mam_gate := gate |}, gate).

(** [Mam::follow_cookie]: a cookie the owner supplied replaces the session; one
    MAM issued continues it. *)
Definition follow_cookie (self : Mam) (context : Context) : Mam :=
  let requested := ctx_requested_cookie context in
  if (requested !=? mam_cookie_in_use self) && (requested !=? mam_issued_cookie self) then
    let acq := mam_acquisition self in
    {| self with
       mam_cookie_in_use := requested;
       mam_issued_cookie := None;
       mam_epoch := ConnectionEpoch_next (mam_epoch self);
       mam_session := Session_Unverified;
       mam_seedbox := Seedbox_unconfirm (mam_seedbox self);
       mam_confirmed_download_ip := None;
       mam_acquisition :=
         {| acq with acq_refused := None; acq_newly_fetched := ∅; acq_reapproved := ∅ |} |}
  else if is_some (ctx_cookie context) && (ctx_cookie context ==? mam_issued_cookie self) then
    {| self with mam_cookie_in_use := mam_issued_cookie self; mam_issued_cookie := None |}
  else self.

(** [Mam::remind] *)
Definition remind (self : Mam) (now : ClockReading) : Mam * list Action :=
  let start_or_due :=
    match mam_last_reminder self with
    | LastReminder_Known None | LastReminder_ReadFailed => Some (true, false)
    | LastReminder_Known (Some last) =>
        Some (false, is_some_and (checked_add last REMINDER_EVERY) (λ due, due <=? wall now))
    | LastReminder_Unread | LastReminder_Reading => None
    end in
  match start_or_due with
  | None => (self, [])
  | Some (start, due) =>
      if negb due && negb start then (self, [])
      else
        let self := if due then push_notice self Notice_MamVisitReminder else self in
        ({| self with mam_last_reminder := LastReminder_Known (Some (wall now)) |},
         [Action_SaveReminder (wall now)])
  end.

(** Whether the latest reading says MAM cannot reach qBittorrent. *)
Definition unreachable (self : Mam) (running : option ClientVersion) : bool :=
  let summary := is_some_and (data ← Account.data (mam_account self); data_summary data)
                   (λ s, summary_connectable s ==? Connectable_No) in
  let client := is_some_and running (λ running,
    existsb (λ c, client_connectable c ==? Some Connectable_No)
      (running_client (mam_account self) running)) in
  summary || client.

(** [Mam::follow_connectability] *)
Definition follow_connectability (self : Mam) (now : ClockReading) (context : Context) : Mam :=
  let reading := (λ r, (reading_taken r, unreachable self (ctx_client_version context)))
                   <$> account_reading (mam_account self) in
  let '(connectability, repair) := follow (mam_connectability self) reading in
  let self := {| self with mam_connectability := connectability |} in
  if negb repair then self
  else
    let observed := Network.current (mam_network self) in
    let findings := Findings_check (ctx_connection context) (observed_ip <$> observed)
                      (confirms (mam_seedbox self) observed) in
    {| self with
       mam_lease := findings_lease findings;
       mam_connectability := repaired (mam_connectability self) (monotonic now) (wall now) findings;
       mam_network := Network_unconfirm (mam_network self);
       mam_seedbox := Seedbox_unconfirm (mam_seedbox self) |}.

Definition acquisition_request (next : Next) : option MamRequest :=
  match next with
  | Next_Fetch id wedge => Some (MamRequest_FetchTorrent id wedge)
  | Next_LookUp id => Some (MamRequest_LookUpTorrent id)
  | Next_NeedHistory => Some MamRequest_WedgeHistory
  | Next_Idle | Next_NeedReading | Next_Hold _ => None
  end.

Definition is_lookup (next : Next) : bool :=
  match next with Next_LookUp _ => true | _ => false end.

(** The closure [single] of [Mam::wanted]: a single lookup waits for a due
    listing. *)
Definition single (listing : option BookmarkCount) (next : Next) : option MamRequest :=
  if is_lookup next && is_some listing then None else acquisition_request next.

(** [Mam::wanted]: the most urgent request wanted now. *)
Definition wanted (self : Mam) (now : ClockReading) (cookie : bool) (reserve : option Points)
    (watching next : Next) (early : bool) : option Wanted :=
  if due (mam_network self) (monotonic now) then Some (Wanted_Request MamRequest_LookUpIp) else
  let observed := Network.current (mam_network self) in
  if negb cookie || is_none observed then None else
  if Network.wanted (mam_seedbox self) (wall now) observed then Some Wanted_Register else
  match Account.wanted (mam_account self) (monotonic now) early with
  | Some clients => Some (Wanted_Request (MamRequest_LoadUserData clients))
  | None =>
  let listing := Bookmarks_wanted (acq_bookmarks (mam_acquisition self)) (monotonic now) in
  match (if is_lookup watching then listing else None) with
  | Some start => Some (Wanted_Request (MamRequest_ListBookmarks start))
  | None =>
  match single listing watching with
  | Some request => Some (Wanted_Request request)
  | None =>
  match reserve ≫= wanted_purchase (mam_account self) (monotonic now) (wall now) with
  | Some purchase => Some (Wanted_Request (MamRequest_Buy purchase))
  | None =>
  match single listing next with
  | Some request => Some (Wanted_Request request)
  | None => (λ start, Wanted_Request (MamRequest_ListBookmarks start)) <$> listing
  end end end end end.

(** What sending a request notes, in [Mam::decide]. *)
Definition note_sent (self : Mam) (now : ClockReading) (records : option Records)
    (request : MamRequest) : Mam :=
  match request with
  | MamRequest_LookUpIp => {| self with mam_network := sent (mam_network self) (monotonic now) |}
  | MamRequest_LoadUserData _ =>
      {| self with mam_account := requested (mam_account self) (monotonic now) |}
  | MamRequest_Buy purchase =>
      {| self with mam_account := buying (mam_account self) purchase (monotonic now) (wall now) |}
  | MamRequest_FetchTorrent id wedge =>
      let admitted := is_some_and records (λ records, is_queued records id) in
      with_acquisition self (fetching (mam_acquisition self) (monotonic now) id wedge admitted)
  | _ => self
  end.

(** Send the wanted request if the budget allows it, in [Mam::decide]. *)
Definition send (self : Mam) (now : ClockReading) (cookie : option ApiCookie)
    (records : option Records) (work : option Wanted) : Mam * list Action :=
  match work, cookie with
  | Some Wanted_Register, Some cookie =>
      let '(budget, taken) := take (mam_budget self) (monotonic now) in
      if taken then
        ({| self with
            mam_budget := budget;
            mam_outstanding :=
              Some (Outstanding_SavingRegistration (wall now) cookie (mam_epoch self)) |},
         [Action_SaveRegistrationAttempt (wall now)])
      else (self, [])
  | Some (Wanted_Request request), _ =>
      let '(budget, taken) := take (mam_budget self) (monotonic now) in
      if taken then
        let self := note_sent {| self with mam_budget := budget |} now records request in
        ({| self with mam_outstanding :=
            Some (Outstanding_Request request (monotonic now) (mam_epoch self)) |},
         [Action_MamRequest request
            (opt_filter (λ _, MamRequest_needs_cookie request) cookie)])
      else (self, [])
  | _, _ => (self, [])
  end.

(** [Mam::schedule_wake]: wake the core when the earliest wanted work becomes
    due. *)
Definition schedule_wake (self : Mam) (now : ClockReading) (early : bool) (timers : Timers)
    : Mam * Timers * list Action :=
  let to_monotonic (at_ : SystemTime) :=
    checked_add (monotonic now) (default 0 (wall_duration_since at_ (wall now))) in
  let reminder := match mam_last_reminder self with
                  | LastReminder_Known (Some last) =>
                      checked_add last REMINDER_EVERY ≫= to_monotonic
                  | _ => None
                  end in
  let registration := match allowance (mam_seedbox self) (wall now) with
                      | RegistrationAllowance_After at_ => to_monotonic at_
                      | _ => None
                      end in
  let waiting := (mam_gate self ==? RequestGate_Open) && is_none (mam_outstanding self) in
  let work := filter (λ _, waiting) (omap id [
    Network.next_due (mam_network self);
    registration;
    Account.next_due (mam_account self) early;
    Bookmarks_next_due (acq_bookmarks (mam_acquisition self));
    Acquisition.next_due (mam_acquisition self);
    next_token (mam_budget self) (monotonic now)]) in
  match min_list (filter (λ due, monotonic now < due) (option_list reminder ++ work)) with
  | None => (self, timers, [])
  | Some due =>
      if is_some_and (mam_wake self) (λ w, w.2 ==? due) then (self, timers, [])
      else
        let '(timers, (id, deadline)) :=
          schedule timers (monotonic now) (duration_since due (monotonic now)) in
        ({| self with mam_wake := Some (id, due) |}, timers,
         [Action_StartTimer TimerName_Mam id deadline])
  end.

(** The facts admission is decided on, in [Mam::decide]. *)
Definition decide_facts (self : Mam) (now : ClockReading) (context : Context)
    (gate : RequestGate) (cookie : option ApiCookie) (observed : option IpObservation)
    (recent : UnsatisfiedCount) (downloading : TorrentCount) : Facts := {|
  facts_now := monotonic now;
  facts_wall := wall now;
  facts_gate := if is_some cookie then gate else RequestGate_Closed;
  facts_seedbox := confirms (mam_seedbox self) observed;
  facts_readiness := ctx_readiness context;
  facts_client := mam_client self;
  facts_recent := recent;
  facts_downloading := downloading;
  facts_downloading_limit := ctx_downloading_limit context;
  facts_ratio_guard := mam_ratio_guard self;
  facts_account := mam_account self;
|}.

(** What [Mam::decide] has worked out before it sends: the state, the gate, the
    cookie it may use, the rows, and the requests the watch over running downloads
    and admission want. *)
Record Prepared := mkPrepared {
  prep_mam : Mam;
  prep_gate : RequestGate;
  prep_cookie : option ApiCookie;
  prep_records : option Records;
  prep_facts : Facts;
  prep_watching : Next;
  prep_next : Next;
  prep_early : bool;
  prep_reminded : list Action;
}.

(** [Mam::decide] up to the choice of the request. *)
Definition prepare (self : Mam) (now : ClockReading) (context : Context) : Prepared :=
  let '(self, reminded) := remind self now in
  let '(self, gate) := follow_gate self context in
  let self := follow_cookie self context in
  let observed := Network.current (mam_network self) in
  let cookie := opt_filter (λ _, negb (Session_blocks (mam_session self) observed))
                  (ctx_cookie context) in
  let self := {| self with mam_client :=
                 client_standing (mam_account self) (ctx_client_version context) |} in
  let self := follow_connectability self now context in
  let records := Registry.loaded (ctx_registry context) in
  let '(self, recent) := watch_downloads self now records in
  let downloading := match records with
                     | Some records => TorrentCount_counting
                         (filter Download_is_downloading (downloads records))
                     | None => 0
                     end in
  let self := {| self with mam_account := pace (mam_account self)
                 (if TorrentCount_is_zero downloading then ReadPace_Routine
                  else ReadPace_Downloading) |} in
  let facts := decide_facts self now context gate cookie observed recent downloading in
  let next := match records with
              | Some records => Acquisition.next (mam_acquisition self) (queued records) facts
              | None => Next_Idle
              end in
  let watching := watch_next (mam_acquisition self) (mam_account self) (monotonic now) in
  let hold := match next with
              | Next_Hold hold => Some hold
              | Next_NeedReading => if is_none (account_reading (mam_account self))
                                    then Some Hold_AccountUnknown else None
              | _ => None
              end in
  let acq := mam_acquisition self in
  let self := with_acquisition self {| acq with acq_hold := hold |} in
  let early := (next ==? Next_NeedReading) || (watching ==? Next_NeedReading)
               || purchase_uncertain (mam_account self) in
  mkPrepared self gate cookie records facts watching next early reminded.

(** [Mam::decide]: choose and send the next request, if one is wanted and
    allowed. *)
Definition decide (self : Mam) (now : ClockReading) (context : Context) (timers : Timers)
    : Mam * Timers * list Action :=
  let p := prepare self now context in
  let self := prep_mam p in
  let '(self, sent) :=
    if (prep_gate p ==? RequestGate_Open) && is_none (mam_outstanding self) then
      send self now (prep_cookie p) (prep_records p)
        (wanted self now (is_some (prep_cookie p)) (ctx_reserve context)
           (prep_watching p) (prep_next p) (prep_early p))
    else (self, []) in
  let '(self, timers, woken) := schedule_wake self now (prep_early p) timers in
  (self, timers, prep_reminded p ++ sent ++ woken).
