(* ===== verification/MamProofs.v ===== *)
(** * Properties of the work with MAM

    What each operation of [Mam] leaves alone, which actions it asks for, and
    the properties of the requests it sends. *)

From S2P Require Import Prelude Values Vocabulary MamApi Messages Timer MamPause Qbittorrent.
From S2P Require Import Registry Budget RatioGuard Network Account Acquisition Connectability.
From S2P Require Import Mam.

#[local] Arguments follow_downloads : simpl never.
#[local] Arguments Registry.fetched : simpl never.
#[local] Arguments snatched : simpl never.
#[local] Arguments bookmarked : simpl never.

(** ** Actions that reach MAM *)

(** An action that draws a token: a request, or the save that precedes a
    registration. *)
Definition speaks_to_mam (a : Action) : bool :=
  match a with
  | Action_MamRequest _ _ | Action_SaveRegistrationAttempt _ => true
  | _ => false
  end.

Definition mam_actions (actions : list Action) : list Action := List.filter speaks_to_mam actions.

Lemma elem_of_mam_actions a actions :
  a ∈ mam_actions actions ↔ a ∈ actions ∧ speaks_to_mam a = true.
Proof. unfold mam_actions. rewrite !list_elem_of_In. apply List.filter_In. Qed.

Definition commands_torrents (a : Action) : bool :=
  match a with Action_QbittorrentCommand _ => true | _ => false end.

(** The actions whose safety is at stake: what reaches MAM, and the commands
    that change qBittorrent's torrents. *)
Definition guarded (actions : list Action) : list Action :=
  List.filter (λ a, speaks_to_mam a || commands_torrents a) actions.

Lemma guarded_app a b : guarded (a ++ b) = guarded a ++ guarded b.
Proof. apply List.filter_app. Qed.

Lemma elem_of_guarded a actions :
  a ∈ guarded actions ↔ a ∈ actions ∧ speaks_to_mam a || commands_torrents a = true.
Proof. unfold guarded. rewrite !list_elem_of_In. apply List.filter_In. Qed.

Lemma mam_actions_app a b : mam_actions (a ++ b) = mam_actions a ++ mam_actions b.
Proof. apply List.filter_app. Qed.

Lemma mam_actions_guarded actions : mam_actions (guarded actions) = mam_actions actions.
Proof.
  unfold mam_actions, guarded. induction actions as [|a l IH]; [done|]. simpl.
  destruct (speaks_to_mam a) eqn:E; simpl; [by rewrite E, IH|].
  destruct (commands_torrents a); simpl; by rewrite ?E, IH.
Qed.

(** ** What saving rows asks for *)

Lemma save_quiet r now r' acts : save r now = (r', acts) → guarded acts = [].
Proof. unfold save. case_match; intros; simplify_eq; done. Qed.

Lemma resume_quiet r now h : guarded (resume r now h).2 = [].
Proof. unfold resume. destruct (save _ _) eqn:E. by apply save_quiet in E. Qed.
Lemma hold_quiet r now h : guarded (hold r now h).2 = [].
Proof. unfold hold. destruct (save _ _) eqn:E. by apply save_quiet in E. Qed.
Lemma snatched_quiet r now m : guarded (snatched r now m).2 = [].
Proof. unfold snatched. destruct (save _ _) eqn:E. by apply save_quiet in E. Qed.
Lemma bookmarked_quiet r now l : guarded (bookmarked r now l).2 = [].
Proof. unfold bookmarked. destruct (save _ _) eqn:E. by apply save_quiet in E. Qed.
Lemma fetched_quiet r now m h : guarded (Registry.fetched r now m h).2 = [].
Proof. unfold Registry.fetched. destruct (save _ _) eqn:E. by apply save_quiet in E. Qed.
#[export] Hint Rewrite resume_quiet hold_quiet snatched_quiet bookmarked_quiet fetched_quiet
  guarded_app : windlass_rw.

(** ** The link to MAM

    The part of the state that decides whether and how a request is sent. *)
Definition mam_link (m : Mam) :=
  (mam_hosts m, mam_gate m, mam_outstanding m, mam_budget m, mam_epoch m,
   net_last_sent (mam_network m), seedbox_last_attempt (mam_seedbox m)).

Lemma follow_download_quiet now nw tr m r acts w m' r' acts' :
  follow_download now nw tr (m, r, acts) w = (m', r', acts') →
  mam_link m' = mam_link m ∧ guarded acts' = guarded acts.
Proof.
  unfold follow_download, with_acquisition, push_notice. intros H.
  pose proof (resume_quiet r (monotonic now) (download_hash w.1)) as Hres.
  assert (∀ r, guarded (hold r (monotonic now) (download_hash w.1)).2 = []) as Hhold.
  { intros. apply hold_quiet. }
  destruct w as [d wt]; simpl in *.
  destruct (resume r _ _) as [r1 a1] eqn:E1; simpl in Hres.
  repeat (case_match; simplify_eq/=);
    repeat match goal with
    | E : hold ?r ?n ?h = _ |- _ => pose proof (Hhold r) as ?Hq; rewrite E in Hq; clear E; simpl in Hq
    end; rewrite ?guarded_app; split; try done; try congruence;
    repeat match goal with E : guarded _ = [] |- _ => rewrite E; clear E end;
    by rewrite ?app_nil_r.
Qed.

Lemma follow_download_fold_quiet now nw tr ws m r acts m' r' acts' :
  fold_left (follow_download now nw tr) ws (m, r, acts) = (m', r', acts') →
  mam_link m' = mam_link m ∧ guarded acts' = guarded acts.
Proof.
  revert m r acts. induction ws as [|w ws IH]; intros m r acts; cbn [fold_left].
  { intros. by simplify_eq. }
  destruct (follow_download now nw tr (m, r, acts) w) as [[m1 r1] acts1] eqn:E.
  intros [-> ->]%IH. by eapply follow_download_quiet.
Qed.

Lemma follow_downloads_quiet m now reg m' reg' acts :
  follow_downloads m now reg = (m', reg', acts) →
  mam_link m' = mam_link m ∧ guarded acts = [].
Proof.
  unfold follow_downloads. destruct reg as [| | |r]; intros; simplify_eq; [done..|].
  case_match eqn:Hf. case_match. simplify_eq.
  by apply follow_download_fold_quiet in Hf as [<- ->].
Qed.

Lemma follow_session_quiet m now req res : mam_link (follow_session m now req res) = mam_link m.
Proof. unfold follow_session. by repeat case_match. Qed.

Lemma purchased_quiet m now w p res : mam_link (purchased m now w p res) = mam_link m.
Proof. unfold purchased, push_notice. by repeat (case_match; simplify_eq/=). Qed.

Lemma mam_fetched_quiet m now id wedge res reg m' reg' acts :
  fetched m now id wedge res reg = (m', reg', acts) →
  mam_link m' = mam_link m ∧ guarded acts = [].
Proof.
  unfold fetched. destruct res as [[| | | |f| | |]|[]]; intros H; simplify_eq; try done.
  destruct (opt_filter _ _) as [r|].
  - pose proof (fetched_quiet r (monotonic now) id (fetched_hash f)) as Hq.
    by destruct (Registry.fetched _ _ _ _); simplify_eq/=.
  - apply follow_downloads_quiet in H as [-> ->]. by case_match.
Qed.

Lemma mark_snatched_quiet now bs r acts r' acts' :
  fold_left (mark_snatched now) bs (r, acts) = (r', acts') →
  guarded acts' = guarded acts.
Proof.
  revert r acts. induction bs as [|b bs IH]; intros r acts; simpl; [by intros; simplify_eq|].
  pose proof (snatched_quiet r now (bookmark_id b)) as Hq.
  destruct (snatched r now _) as [r1 more]; simpl in Hq. intros ->%IH.
  by rewrite guarded_app, Hq, app_nil_r.
Qed.

Lemma listed_quiet m now page reg m' reg' acts :
  listed m now page reg = (m', reg', acts) →
  mam_link m' = mam_link m ∧ guarded acts = [].
Proof.
  unfold listed. destruct (Bookmarks_page _ _ _ _) as [bs [l|]]; [|by intros; simplify_eq].
  destruct reg as [| | |r]; intros H; simplify_eq; [done..|].
  destruct (fold_left _ _ _) as [r1 a1] eqn:E1. apply mark_snatched_quiet in E1.
  destruct (bookmarked r1 _ _) as [r2 a2] eqn:E2.
  destruct (follow_downloads _ _ _) as [[m3 reg3] a3] eqn:E3. simplify_eq.
  apply follow_downloads_quiet in E3 as [-> Ha3]. split; [done|].
  rewrite !guarded_app, E1, Ha3.
  eapply (f_equal (λ p, guarded p.2)) in E2. rewrite bookmarked_quiet in E2.
  simpl in E2. by rewrite <-E2.
Qed.

Lemma answered_quiet m now req res cur reg m' reg' acts :
  answered m now req res cur reg = (m', reg', acts) →
  mam_link m' = mam_link m ∧ guarded acts = [].
Proof.
  unfold answered. set (m0 := if _ && _ then _ else m).
  assert (mam_link m0 = mam_link m) as Hm0.
  { unfold m0. case_match; [apply follow_session_quiet|done]. }
  rewrite <-Hm0. clearbody m0. clear Hm0. intros H.
  destruct req as [| |cl|st|id wedge|p| |id], res as [rep|f]; try destruct rep; simplify_eq;
    try destruct cur; simplify_eq; try done;
    try (by apply mam_fetched_quiet in H); try (by apply listed_quiet in H);
    try (by split; [apply purchased_quiet|]).
  - destruct (Account.read _ _ _ _) as [acc settled].
    destruct (RatioGuard.observe _ _ _) as [guard seen].
    unfold push_notice in H.
    destruct settled as [[? []]|], seen;
      destruct (follow_downloads _ _ _) as [[m3 reg3] a3] eqn:E3; simplify_eq/=;
      by apply follow_downloads_quiet in E3 as [-> ->].
  - by apply follow_downloads_quiet in H as [-> ->].
  - match type of H with (let '(registry, actions) := ?e in _) = _ =>
      destruct e as [reg1 a1] eqn:E1 end.
    assert (guarded a1 = []) as Ha1.
    { destruct reg as [| | |r]; simplify_eq/=; [done..|].
      pose proof (snatched_quiet r (monotonic now) id) as Hq.
      by destruct (is_some_and _ _), (snatched r _ _); simplify_eq/=. }
    destruct (follow_downloads _ _ _) as [[m3 reg3] a3] eqn:E3. simplify_eq.
    apply follow_downloads_quiet in E3 as [-> Ha]. by rewrite guarded_app, Ha1, Ha.
Qed.

(** ** The connection, abstractly

    The state of the link as an automaton of its own: what an event does to it,
    and what a decision may do. [Mam.handle] and [Mam.decide] refine it. *)

Record Link := mkLink {
  link_hosts : MamHosts;
  link_gate : RequestGate;
  link_outstanding : option Outstanding;
  link_budget : Budget;
  link_epoch : ConnectionEpoch;
  link_last_sent : option Instant;
}.

Definition link (m : Mam) : Link :=
  mkLink (mam_hosts m) (mam_gate m) (mam_outstanding m) (mam_budget m) (mam_epoch m)
    (net_last_sent (mam_network m)).

Lemma link_eq m m' : mam_link m = mam_link m' → link m = link m'.
Proof. unfold mam_link, link. by intros [= -> -> -> -> -> -> _]. Qed.

(** What an event does. *)
Definition link_handle (l : Link) (now : Instant) (event : MamEvent) : Link * list Action :=
  match event, link_outstanding l with
  | MamEvent_Enable, _ =>
      ({| l with link_hosts := MamHosts_Configured; link_last_sent := Some now |}, [])
  | MamEvent_RegistrationAttemptSaved, Some (Outstanding_SavingRegistration _ cookie epoch) =>
      if epoch ==? link_epoch l then
        ({| l with link_outstanding :=
            Some (Outstanding_Request MamRequest_RegisterSeedbox now epoch) |},
         [Action_MamRequest MamRequest_RegisterSeedbox (Some cookie)])
      else ({| l with link_outstanding := None |}, [])
  | MamEvent_RegistrationAttemptSaveFailed, Some (Outstanding_SavingRegistration _ _ _)
  | MamEvent_Answered _ _, Some (Outstanding_Request _ _ _) =>
      ({| l with link_outstanding := None |}, [])
  | _, _ => (l, [])
  end.

(** Either nothing is sent and at most the outstanding work is forgotten, or the
    saved registration is sent on its own connection. *)
Lemma link_handle_cases l now ev l' acts :
  link_handle l now ev = (l', acts) →
  (acts = [] ∧ link_gate l' = link_gate l ∧ link_epoch l' = link_epoch l
   ∧ link_budget l' = link_budget l
   ∧ (link_outstanding l' = link_outstanding l ∨ link_outstanding l' = None)
   ∧ (link_last_sent l' = link_last_sent l ∨ ev = MamEvent_Enable ∧ link_last_sent l' = Some now)
   ∧ (link_hosts l' = link_hosts l ∨ link_hosts l' = MamHosts_Configured))
  ∨ ∃ at_ cookie,
      ev = MamEvent_RegistrationAttemptSaved
      ∧ link_outstanding l = Some (Outstanding_SavingRegistration at_ cookie (link_epoch l))
      ∧ l' = {| l with link_outstanding :=
                Some (Outstanding_Request MamRequest_RegisterSeedbox now (link_epoch l)) |}
      ∧ acts = [Action_MamRequest MamRequest_RegisterSeedbox (Some cookie)].
Proof.
  unfold link_handle. intros H.
  destruct ev, (link_outstanding l) as [[at_ c ep|req sent ep]|] eqn:Eo; simplify_eq/=;
    try (left; repeat (split; [by auto|]); by auto);
    (case_bool_decide; simplify_eq/=; [right; by eexists _, _|left; repeat (split; [by auto|]); by auto]).
Qed.

Lemma handle_link m now ev reg m' reg' acts rotated :
  handle m now ev reg = (m', reg', (acts, rotated)) →
  (link m', guarded acts) = link_handle (link m) (monotonic now) ev.
Proof.
  unfold handle, link_handle. destruct ev as [|res rot|lr lrem rg| | | |sale| | | | |]; intros H;
    simplify_eq; try done.
  - destruct (mam_outstanding m) as [[|req sent ep]|] eqn:Eo; simplify_eq/=; rewrite ?Eo; [done| |done].
    destruct (answered _ _ _ _ _ _) as [[m1 reg1] a1] eqn:Ea. simplify_eq.
    apply answered_quiet in Ea as [Hl%link_eq ->].
    transitivity (link m1, @nil Action); [by destruct (opt_filter _ rot)|by rewrite Hl].
  - destruct (mam_outstanding m) as [[at_ c ep|]|] eqn:Eo; simplify_eq/=; rewrite ?Eo; [|done..].
    by repeat (case_bool_decide; simplify_eq/=).
  - destruct (mam_outstanding m) as [[at_ c ep|]|] eqn:Eo; simplify_eq/=; by rewrite ?Eo.
  - destruct (Account.checked _ _) as [acc [p|]]; by simplify_eq.
  - destruct (RatioGuard.checked _ _) as [g [sg|]]; [|by simplify_eq].
    destruct (follow_downloads _ _ _) as [[m1 reg1] a1] eqn:Ea. simplify_eq.
    apply follow_downloads_quiet in Ea as [->%link_eq Ha].
    change (guarded (Action_SaveRatioGuard sg :: a1)) with (guarded a1). by rewrite Ha.
Qed.

(** A decision: the gate follows the context, closing it or changing the cookie
    starts a new connection, and at most one action is sent, only through an
    open gate, with nothing outstanding and against a token. *)
Definition gate_of (hosts : MamHosts) (context : Context) : RequestGate :=
  if (hosts ==? MamHosts_Configured)
     && (ctx_requests context ==? MamRequestsStatus_Running)
     && (ctx_protection context ==? TunnelProtection_Protected)
  then RequestGate_Open else RequestGate_Closed.

(** The link after the gate and the cookie were followed: [moved] tells whether
    the cookie changed. *)
Definition link_prepare (l : Link) (context : Context) (moved : bool) : Link :=
  let gate := gate_of (link_hosts l) context in
  let closing := (link_gate l ==? RequestGate_Open) && (gate ==? RequestGate_Closed) in
  let epoch := if closing then ConnectionEpoch_next (link_epoch l) else link_epoch l in
  {| l with link_gate := gate;
            link_epoch := if moved then ConnectionEpoch_next epoch else epoch |}.

(** Sending what is wanted. *)
Definition link_send (l : Link) (now : ClockReading) (cookie : option ApiCookie)
    (work : option Wanted) : Link * list Action :=
  let '(budget, taken) := take (link_budget l) (monotonic now) in
  if negb (link_gate l ==? RequestGate_Open) || is_some (link_outstanding l) || negb taken
  then (l, [])
  else
    match work, cookie with
    | Some Wanted_Register, Some cookie =>
        ({| l with link_budget := budget;
                   link_outstanding :=
                     Some (Outstanding_SavingRegistration (wall now) cookie (link_epoch l)) |},
         [Action_SaveRegistrationAttempt (wall now)])
    | Some (Wanted_Request request), _ =>
        ({| l with link_budget := budget;
                   link_outstanding :=
                     Some (Outstanding_Request request (monotonic now) (link_epoch l));
                   link_last_sent := if request ==? MamRequest_LookUpIp then Some (monotonic now)
                                     else link_last_sent l |},
         [Action_MamRequest request (opt_filter (λ _, MamRequest_needs_cookie request) cookie)])
    | _, _ => (l, [])
    end.

Lemma remind_quiet m now m' acts :
  remind m now = (m', acts) → link m' = link m ∧ guarded acts = [].
Proof. unfold remind, push_notice. intros. by repeat (case_match; simplify_eq/=). Qed.

Lemma follow_gate_link m ctx m' gate :
  follow_gate m ctx = (m', gate) →
  link m' = link_prepare (link m) ctx false ∧ gate = link_gate (link m').
Proof.
  unfold follow_gate, link_prepare, gate_of, link, disconnect. intros; simplify_eq/=.
  by destruct (_ && _ && _), (mam_gate m).
Qed.

Lemma follow_cookie_link m ctx :
  ∃ moved : bool, link (follow_cookie m ctx) =
    let l := link m in
    {| l with link_epoch := if moved then ConnectionEpoch_next (link_epoch l) else link_epoch l |}.
Proof.
  unfold follow_cookie, link. case_match; [by exists true|]. exists false. by case_match.
Qed.

Lemma follow_connectability_quiet m now ctx : link (follow_connectability m now ctx) = link m.
Proof. unfold follow_connectability. by repeat (case_match; simplify_eq/=). Qed.

Lemma watch_downloads_quiet m now rs : link (watch_downloads m now rs).1 = link m.
Proof. unfold watch_downloads. by destruct rs. Qed.

Lemma schedule_wake_quiet m now early timers m' timers' acts :
  schedule_wake m now early timers = (m', timers', acts) →
  link m' = link m ∧ guarded acts = [].
Proof.
  unfold schedule_wake. intros H. case_match; simplify_eq; [|done].
  case_match; simplify_eq; [done|]. unfold schedule in *. by simplify_eq.
Qed.

Lemma prepare_link m now ctx :
  ∃ moved, link (prep_mam (prepare m now ctx)) = link_prepare (link m) ctx moved
    ∧ prep_gate (prepare m now ctx) = gate_of (mam_hosts m) ctx
    ∧ guarded (prep_reminded (prepare m now ctx)) = [].
Proof.
  unfold prepare. destruct (remind m now) as [m1 reminded] eqn:Er.
  apply remind_quiet in Er as [Hl1 Ha1].
  destruct (follow_gate m1 ctx) as [m2 gate] eqn:Eg. apply follow_gate_link in Eg as [Hl2 ->].
  destruct (follow_cookie_link m2 ctx) as [moved Hl3]. set (m3 := follow_cookie m2 ctx) in *.
  set (m4 := {| m3 with mam_client := _ |}).
  pose proof (follow_connectability_quiet m4 now ctx) as Hl5.
  set (m5 := follow_connectability m4 now ctx) in *.
  pose proof (watch_downloads_quiet m5 now (Registry.loaded (ctx_registry ctx))) as Hl6.
  destruct (watch_downloads m5 now _) as [m6 recent]; simpl in Hl6. simpl.
  exists moved. split; [|split; [|done]].
  - etrans; [exact Hl6|]. rewrite Hl5. change (link m4) with (link m3). rewrite Hl3, Hl2, Hl1.
    by destruct moved.
  - transitivity (link_gate (link m2)); [done|]. by rewrite Hl2, Hl1.
Qed.

Lemma send_link m now cookie rs work m' acts :
  mam_gate m = RequestGate_Open → mam_outstanding m = None →
  send m now cookie rs work = (m', acts) →
  (link m', guarded acts) = link_send (link m) now cookie work.
Proof.
  intros Hg Ho. unfold send, link_send. simpl. rewrite Hg, Ho. simpl.
  destruct (take (mam_budget m) (monotonic now)) as [b taken] eqn:Et. simpl.
  destruct work as [[|req]|]; simpl.
  - destruct cookie as [c|]; [|by intros; simplify_eq; destruct taken].
    destruct taken; by intros; simplify_eq.
  - destruct taken; intros; simplify_eq; [|done]. destruct req; unfold link; simpl; by rewrite ?Hg.
  - intros; simplify_eq. by destruct taken.
Qed.

(** The decision refines the abstract one. *)
Lemma decide_link m now ctx timers m' timers' acts :
  decide m now ctx timers = (m', timers', acts) →
  let p := prepare m now ctx in
  ∃ moved, link (prep_mam p) = link_prepare (link m) ctx moved
    ∧ (link m', guarded acts) =
      link_send (link_prepare (link m) ctx moved) now (prep_cookie p)
        (wanted (prep_mam p) now (is_some (prep_cookie p)) (ctx_reserve ctx)
           (prep_watching p) (prep_next p) (prep_early p)).
Proof.
  intros H p. unfold decide in H. fold p in H.
  destruct (prepare_link m now ctx) as (moved & Hl & Hgate & Hr). fold p in Hl, Hgate, Hr.
  exists moved. split; [done|].
  match type of H with (let '(_, _) := ?e in _) = _ => destruct e as [m2 sent] eqn:Es end.
  destruct (schedule_wake _ _ _ _) as [[m3 timers3] woken] eqn:Ew. simplify_eq.
  apply schedule_wake_quiet in Ew as [-> Hw].
  rewrite !guarded_app, Hr, Hw, app_nil_r. simpl.
  assert (prep_gate p = mam_gate (prep_mam p)) as Hpg.
  { change (mam_gate (prep_mam p)) with (link_gate (link (prep_mam p))). by rewrite Hl, Hgate. }
  rewrite <-Hl. destruct (mam_gate (prep_mam p)) eqn:Eg; rewrite Hpg in Es; simpl in Es.
  - destruct (mam_outstanding (prep_mam p)) eqn:Eo; simpl in Es.
    + simplify_eq. unfold link_send; simpl. rewrite Eo. simpl.
      destruct (take _ _). rewrite orb_true_r. done.
    + by eapply send_link.
  - simplify_eq. unfold link_send; simpl. rewrite Eg. by destruct (take _ _).
Qed.

(** ** Why a request is sent *)

(** What must hold of the state for a request to be wanted. *)
Definition request_reason (m : Mam) (now : ClockReading) (reserve : option Points)
    (watching next : Next) (early : bool) (request : MamRequest) : Prop :=
  match request with
  | MamRequest_LookUpIp => due (mam_network m) (monotonic now) = true
  | MamRequest_RegisterSeedbox => False
  | MamRequest_LoadUserData clients =>
      Account.wanted (mam_account m) (monotonic now) early = Some clients
  | MamRequest_ListBookmarks start =>
      Bookmarks_wanted (acq_bookmarks (mam_acquisition m)) (monotonic now) = Some start
  | MamRequest_FetchTorrent id wedge => watching = Next_Fetch id wedge ∨ next = Next_Fetch id wedge
  | MamRequest_Buy purchase =>
      ∃ points, reserve = Some points
        ∧ wanted_purchase (mam_account m) (monotonic now) (wall now) points = Some purchase
  | MamRequest_WedgeHistory => watching = Next_NeedHistory ∨ next = Next_NeedHistory
  | MamRequest_LookUpTorrent id => watching = Next_LookUp id ∨ next = Next_LookUp id
  end.

Lemma single_reason listing nx request :
  single listing nx = Some request →
  match request with
  | MamRequest_FetchTorrent id wedge => nx = Next_Fetch id wedge
  | MamRequest_WedgeHistory => nx = Next_NeedHistory
  | MamRequest_LookUpTorrent id => nx = Next_LookUp id
  | _ => False
  end.
Proof. unfold single. by destruct nx; simpl; intros; repeat (case_match; simplify_eq/=). Qed.

Lemma wanted_request_reason m now cookie reserve watching nx early request :
  wanted m now cookie reserve watching nx early = Some (Wanted_Request request) →
  request_reason m now reserve watching nx early request
  ∧ (request = MamRequest_LookUpIp
     ∨ cookie = true ∧ is_Some (Network.current (mam_network m))
       ∧ Network.wanted (mam_seedbox m) (wall now) (Network.current (mam_network m)) = false).
Proof.
  unfold wanted. intros H.
  destruct (due _ _) eqn:Ed; [simplify_eq; auto|].
  destruct (negb cookie || _) eqn:Ec; [done|]. apply orb_false_iff in Ec as [Hc Ho].
  apply negb_false_iff in Hc. subst cookie.
  assert (is_Some (Network.current (mam_network m))) as Hcur.
  { destruct (Network.current _); [by eexists|done]. }
  destruct (Network.wanted _ _ _); [done|].
  split; [|by right].
  destruct (Account.wanted _ _ _) eqn:Ea; [by simplify_eq|].
  destruct (if is_lookup watching then _ else _) as [start|] eqn:El.
  { simplify_eq. simpl. by destruct (is_lookup watching). }
  destruct (single _ watching) eqn:Ew.
  { simplify_eq. apply single_reason in Ew. destruct request; simpl; auto; done. }
  destruct (reserve ≫= _) as [p|] eqn:Ep.
  { simplify_eq. apply bind_Some in Ep as (r & -> & Hp). simpl. eauto. }
  destruct (single _ nx) eqn:En.
  { simplify_eq. apply single_reason in En. destruct request; simpl; auto; done. }
  destruct (Bookmarks_wanted _ _) eqn:Eb; by simplify_eq/=.
Qed.

(** A registration attempt is saved only when it is wanted. *)
Lemma wanted_register m now cookie reserve watching nx early :
  wanted m now cookie reserve watching nx early = Some Wanted_Register →
  cookie = true
  ∧ Network.wanted (mam_seedbox m) (wall now) (Network.current (mam_network m)) = true.
Proof.
  unfold wanted. intros H. destruct (due _ _); [done|].
  destruct (negb cookie || _) eqn:Ec; [done|]. apply orb_false_iff in Ec as [Hc _].
  apply negb_false_iff in Hc. split; [done|]. destruct (Network.wanted _ _ _); [done|].
  repeat (case_match; simplify_eq/=); destruct (Bookmarks_wanted _ _); by simplify_eq/=.
Qed.

(** What [prepare] leaves of the account, beside the reading pace, of the ratio
    guard, and of the last registration attempt. *)
Definition mam_ledger (m : Mam) :=
  (mam_account m, mam_ratio_guard m, seedbox_last_attempt (mam_seedbox m),
   seedbox_not_before (mam_seedbox m)).

Lemma remind_ledger m now : mam_ledger (remind m now).1 = mam_ledger m.
Proof. unfold remind, push_notice. by repeat (case_match; simplify_eq/=). Qed.
Lemma follow_gate_ledger m ctx : mam_ledger (follow_gate m ctx).1 = mam_ledger m.
Proof. unfold follow_gate, disconnect. by repeat (case_match; simplify_eq/=). Qed.
Lemma follow_cookie_ledger m ctx : mam_ledger (follow_cookie m ctx) = mam_ledger m.
Proof. unfold follow_cookie. by repeat (case_match; simplify_eq/=). Qed.
Lemma follow_connectability_ledger m now ctx :
  mam_ledger (follow_connectability m now ctx) = mam_ledger m.
Proof. unfold follow_connectability. by repeat (case_match; simplify_eq/=). Qed.
Lemma watch_downloads_ledger m now rs : mam_ledger (watch_downloads m now rs).1 = mam_ledger m.
Proof. unfold watch_downloads. by destruct rs. Qed.

(** The facts admission is decided on are those of the state that sends. *)
Lemma prepare_spec m now ctx :
  let p := prepare m now ctx in
  ∃ pace_ observed recent downloading,
    mam_ledger (prep_mam p) =
      (pace (mam_account m) pace_, mam_ratio_guard m, seedbox_last_attempt (mam_seedbox m),
       seedbox_not_before (mam_seedbox m))
    ∧ prep_records p = Registry.loaded (ctx_registry ctx)
    ∧ prep_facts p = decide_facts (prep_mam p) now ctx (prep_gate p) (prep_cookie p) observed
                       recent downloading
    ∧ prep_next p = match prep_records p with
                    | Some records => Acquisition.next (mam_acquisition (prep_mam p))
                                        (queued records) (prep_facts p)
                    | None => Next_Idle
                    end
    ∧ prep_watching p = watch_next (mam_acquisition (prep_mam p)) (mam_account (prep_mam p))
                          (monotonic now)
    ∧ (∀ k, prep_cookie p = Some k → ctx_cookie ctx = Some k).
Proof.
  intros p. unfold p, prepare.
  pose proof (remind_ledger m now) as H1. destruct (remind m now) as [m1 a1]. simpl in H1.
  pose proof (follow_gate_ledger m1 ctx) as H2. destruct (follow_gate m1 ctx) as [m2 g].
  simpl in H2. pose proof (follow_cookie_ledger m2 ctx) as H3.
  set (m3 := follow_cookie m2 ctx) in *. set (m4 := {| m3 with mam_client := _ |}).
  pose proof (follow_connectability_ledger m4 now ctx) as H5.
  set (m5 := follow_connectability m4 now ctx) in *.
  pose proof (watch_downloads_ledger m5 now (Registry.loaded (ctx_registry ctx))) as H6.
  destruct (watch_downloads m5 now _) as [m6 recent]. simpl in H6.
  eexists _, (Network.current (mam_network m3)), recent, _.
  split; [|split; [reflexivity|split; [reflexivity|split; [|split; [reflexivity|]]]]].
  - simpl. assert (mam_ledger m6 = mam_ledger m) as Hl.
    { rewrite H6, H5. change (mam_ledger m4) with (mam_ledger m3). congruence. }
    injection Hl as <- <- <- <-. reflexivity.
  - simpl. by destruct (Registry.loaded _).
  - simpl. intros k. by intros [? _]%opt_filter_Some.
Qed.
