(* ===== verification/Registration.v ===== *)
(** * The spacing of seedbox registrations

    MAM allows one registration per rolling hour. The attempts Windlass makes are
    an hour apart whatever happens between them, restarts and failed saves
    included. *)

From S2P Require Import Prelude Spacing Values Vocabulary MamApi Messages Timer MamPause Qbittorrent.
From S2P Require Import Registry Budget RatioGuard Network Account Acquisition Connectability.
From S2P Require Import Mam MamProofs.

#[local] Arguments Mam.decide : simpl never.
#[local] Arguments Mam.handle : simpl never.

(** ** What changes the last attempt *)

Lemma mam_link_attempt m m' :
  mam_link m = mam_link m' →
  seedbox_last_attempt (mam_seedbox m) = seedbox_last_attempt (mam_seedbox m').
Proof. by intros [= _ _ _ _ _ _ ?]. Qed.

Definition attempt_after (m : Mam) (ev : MamEvent) : LastAttempt :=
  match ev, mam_outstanding m with
  | MamEvent_StateRead last _ _, _ => LastAttempt_Known last
  | MamEvent_StateReadFailed, _ => LastAttempt_ReadFailed
  | MamEvent_RegistrationAttemptSaved, Some (Outstanding_SavingRegistration at_ _ _) =>
      LastAttempt_Known (Some at_)
  | _, _ => seedbox_last_attempt (mam_seedbox m)
  end.

Lemma handle_attempt m now ev reg m' reg' acts rotated :
  handle m now ev reg = (m', reg', (acts, rotated)) →
  seedbox_last_attempt (mam_seedbox m') = attempt_after m ev.
Proof.
  unfold handle, attempt_after. destruct ev as [|res rot|lr lrem rg| | | |sale| | | | |];
    intros H; simplify_eq/=; try done.
  - destruct (mam_outstanding m) as [[|req sent ep]|] eqn:Eo; simplify_eq/=; [done| |done].
    destruct (answered _ _ _ _ _ _) as [[m1 reg1] a1] eqn:Ea. simplify_eq.
    apply answered_quiet in Ea as [Hl%mam_link_attempt _]. simpl in Hl. rewrite <-Hl.
    by destruct (opt_filter _ rot).
  - destruct (mam_outstanding m) as [[at_ c ep|]|]; simplify_eq/=; try done.
    by case_bool_decide; simplify_eq/=.
  - destruct (mam_outstanding m) as [[at_ c ep|]|]; by simplify_eq/=.
  - destruct (Account.checked _ _) as [acc [p|]]; by simplify_eq.
  - destruct (RatioGuard.checked _ _) as [g [sg|]]; [|by simplify_eq].
    destruct (follow_downloads _ _ _) as [[m1 reg1] a1] eqn:Ea. simplify_eq.
    by apply follow_downloads_quiet in Ea as [->%mam_link_attempt _].
Qed.

Lemma schedule_wake_seedbox m now early timers :
  mam_seedbox (schedule_wake m now early timers).1.1 = mam_seedbox m.
Proof.
  unfold schedule_wake. destruct (min_list _) as [due|]; [|done].
  destruct (is_some_and _ _); [done|]. by destruct (schedule _ _ _) as [? []].
Qed.

Lemma send_seedbox m now k rs w : mam_seedbox (send m now k rs w).1 = mam_seedbox m.
Proof.
  unfold send. destruct (take (mam_budget m) (monotonic now)) as [b []], w as [[|req]|], k;
    try done; by destruct req.
Qed.

(** A decision leaves the last attempt alone, and starts a registration only
    when the spacing from it allows one now. *)
Lemma decide_attempt m now ctx timers m' timers' acts :
  decide m now ctx timers = (m', timers', acts) →
  seedbox_last_attempt (mam_seedbox m') = seedbox_last_attempt (mam_seedbox m)
  ∧ (mam_outstanding m' = mam_outstanding m
     ∨ (∃ request sent epoch, mam_outstanding m' = Some (Outstanding_Request request sent epoch))
     ∨ (∃ k epoch, mam_outstanding m' = Some (Outstanding_SavingRegistration (wall now) k epoch)
        ∧ allowance (mam_seedbox m) (wall now) = RegistrationAllowance_Now)).
Proof.
  intros H. pose proof H as Hd. apply decide_link in Hd as (moved & _ & Hd).
  destruct (prepare_spec m now ctx) as (pc & ob & rc & dl & Hled & _).
  set (p := prepare m now ctx) in *. injection Hled as _ _ Hat Hnb. split.
  - unfold decide in H. fold p in H.
    match type of H with (let '(_, _) := ?e in _) = _ =>
      assert (mam_seedbox e.1 = mam_seedbox (prep_mam p)) as Hs;
      [destruct (_ && _); [apply send_seedbox|done]|destruct e as [m2 sent]; simpl in Hs] end.
    pose proof (schedule_wake_seedbox m2 now (prep_early p) timers) as Hw.
    destruct (schedule_wake _ _ _ _) as [[m3 t3] woken]. simplify_eq/=. congruence.
  - apply (f_equal fst) in Hd. cbn [fst] in Hd.
    change (mam_outstanding m') with (link_outstanding (link m')). rewrite Hd. clear Hd H.
    unfold link_send. destruct (take _ _) as [b taken].
    destruct (negb _ || _ || _); [by left|].
    match goal with |- context [match ?w with Some _ => _ | None => _ end] =>
      destruct w as [[|req]|] eqn:Ew end.
    + destruct (prep_cookie p) as [k|]; [|by left]. right; right. simpl. eexists _, _.
      split; [reflexivity|]. apply wanted_register in Ew as [_ Hw].
      unfold Network.wanted in Hw. reflect_bools.
      match goal with Ha : allowance _ _ = _ |- _ => rewrite <-Ha end.
      unfold allowance. by rewrite Hat, Hnb.
    + right; left. destruct (prep_cookie p); simpl; eauto.
    + by left; destruct (prep_cookie p).
Qed.

(** ** The attempts and the database, across restarts

    MAM work beside the attempt storage holds and the attempts whose request was
    sent, newest first, above the one storage held at the start. Storage answers
    the read with what it holds; a restart may lose the save in progress or come
    just after it was committed. *)
Record World := mkWorld {
  world_mam : Mam;
  world_disk : option SystemTime;
  world_sent : list SystemTime;
}.

Inductive Input :=
  | Input_StartReading
  | Input_Event (now : ClockReading) (event : MamEvent) (registry : Registry)
  | Input_Decide (now : ClockReading) (context : Context) (timers : Timers)
  | Input_VpnSwitched
  | Input_TimerExpired (id : TimerId)
  | Input_Restart (committed : bool).

Definition saving_attempt (m : Mam) : option SystemTime :=
  match mam_outstanding m with
  | Some (Outstanding_SavingRegistration at_ _ _) => Some at_
  | _ => None
  end.

(** Storage answers the read with what it holds. *)
Definition from_storage (disk : option SystemTime) (ev : MamEvent) : MamEvent :=
  match ev with
  | MamEvent_StateRead _ last_reminder guard => MamEvent_StateRead disk last_reminder guard
  | _ => ev
  end.

Definition registers (acts : list Action) : bool :=
  existsb (λ a, match a with Action_MamRequest MamRequest_RegisterSeedbox _ => true | _ => false end)
    acts.

Definition world_step (w : World) (input : Input) : World :=
  let m := world_mam w in
  match input with
  | Input_StartReading => {| w with world_mam := (start_reading m).1 |}
  | Input_VpnSwitched => {| w with world_mam := vpn_switched m |}
  | Input_TimerExpired id => {| w with world_mam := timer_expired m id |}
  | Input_Decide now context timers => {| w with world_mam := (decide m now context timers).1.1 |}
  | Input_Event now ev registry =>
      let '(m', _, (acts, _)) := handle m now (from_storage (world_disk w) ev) registry in
      match ev, saving_attempt m with
      | MamEvent_RegistrationAttemptSaved, Some at_ =>
          mkWorld m' (Some at_) (if registers acts then at_ :: world_sent w else world_sent w)
      | _, _ => {| w with world_mam := m' |}
      end
  | Input_Restart committed =>
      {| w with world_mam := Mam.new;
                world_disk := if committed then opt_or (saving_attempt m) (world_disk w)
                              else world_disk w |}
  end.

Definition world_start (disk : option SystemTime) : World :=
  mkWorld Mam.new disk (option_list disk).
Definition world_run (w : World) (inputs : list Input) : World := fold_left world_step inputs w.

(** The clock is far enough from its end to add an hour. *)
Definition input_ok (i : Input) : Prop :=
  match i with Input_Decide now _ _ => clock_ok REGISTRATION_SPACING (wall now) | _ => True end.

(** What memory knows of the last attempt. *)
Definition known_attempt (m : Mam) : option (option SystemTime) :=
  match seedbox_last_attempt (mam_seedbox m) with
  | LastAttempt_Known known => Some known
  | _ => None
  end.

Definition attempts (w : World) : Ledger :=
  mkLedger (world_disk w) (known_attempt (world_mam w)) (saving_attempt (world_mam w)) (world_sent w).

Lemma allowance_now_follows s now :
  clock_ok REGISTRATION_SPACING now → allowance s now = RegistrationAllowance_Now →
  ∃ known, seedbox_last_attempt s = LastAttempt_Known known
    ∧ ((∀ d, known = Some d → clock_ok REGISTRATION_SPACING d) →
       follows REGISTRATION_SPACING known now).
Proof.
  unfold allowance, clock_ok. intros Hnow H. destruct (seedbox_last_attempt s) as [| |known|]; try done.
  exists known. split; [done|]. intros Hk. destruct known as [d|]; [|done]. simpl in *.
  specialize (Hk d eq_refl). rewrite checked_add_fits in H by done.
  destruct (seedbox_not_before s); simpl in H; case_match; reflect_bools; try done; lia.
Qed.

(** An event ends the save of an attempt or leaves it alone. *)
Lemma handle_saving m now ev reg m' reg' acts rotated :
  handle m now ev reg = (m', reg', (acts, rotated)) →
  saving_attempt m' = saving_attempt m ∨ saving_attempt m' = None.
Proof.
  intros Hl%handle_link. unfold saving_attempt.
  change (mam_outstanding m') with (link_outstanding (link m')).
  change (mam_outstanding m) with (link_outstanding (link m)).
  symmetry in Hl. apply link_handle_cases in Hl
    as [(_ & _ & _ & _ & [->| ->] & _)|(? & ? & _ & _ & -> & _)]; auto.
Qed.

(** The answer of the save ends it. *)
Lemma handle_saved m now reg m' reg' acts rotated at_ :
  handle m now MamEvent_RegistrationAttemptSaved reg = (m', reg', (acts, rotated)) →
  saving_attempt m = Some at_ →
  saving_attempt m' = None ∧ known_attempt m' = Some (Some at_).
Proof.
  intros H Ha. split.
  - apply handle_link in H. apply (f_equal fst) in H. unfold saving_attempt in *.
    change (mam_outstanding m') with (link_outstanding (link m')). simpl in H. rewrite H.
    unfold link_handle. simpl. destruct (mam_outstanding m) as [[]|]; simplify_eq/=.
    by case_bool_decide.
  - apply handle_attempt in H. unfold known_attempt, attempt_after, saving_attempt in *.
    rewrite H. by destruct (mam_outstanding m) as [[]|]; simplify_eq/=.
Qed.

(** Any other event lets memory learn what storage holds, or nothing. *)
Lemma handle_known m now ev reg m' reg' acts rotated disk :
  handle m now (from_storage disk ev) reg = (m', reg', (acts, rotated)) →
  (ev = MamEvent_RegistrationAttemptSaved → saving_attempt m = None) →
  known_attempt m' = known_attempt m ∨ known_attempt m' = Some disk ∨ known_attempt m' = None.
Proof.
  intros H%handle_attempt Hsv. unfold known_attempt. rewrite H. unfold attempt_after, saving_attempt in *.
  destruct ev; simpl; auto.
  destruct (mam_outstanding m) as [[]|]; auto. by specialize (Hsv eq_refl).
Qed.

(** Every input is none, one or two steps of the ledger. *)
Lemma decide_simulated m disk sent now ctx timers :
  clock_ok REGISTRATION_SPACING (wall now) →
  rtc (ledger_step REGISTRATION_SPACING) (attempts (mkWorld m disk sent))
    (attempts (mkWorld (decide m now ctx timers).1.1 disk sent)).
Proof.
  intros Hin. destruct (decide m now ctx timers) as [[m' timers'] acts] eqn:Ed.
  apply decide_attempt in Ed as [Hat Hout]. unfold attempts, known_attempt, saving_attempt. simpl.
  rewrite Hat. destruct Hout as [->|[(request & t & epoch & ->)|(k & epoch & -> & Hall)]].
  - reflexivity.
  - apply rtc_once, ledger_drop.
  - destruct (allowance_now_follows _ _ Hin Hall) as (known & -> & Hf). by apply rtc_once, ledger_attempt.
Qed.

Lemma event_simulated m disk sent now ev reg :
  rtc (ledger_step REGISTRATION_SPACING) (attempts (mkWorld m disk sent))
    (attempts (world_step (mkWorld m disk sent) (Input_Event now ev reg))).
Proof.
  simpl. destruct (handle m now _ reg) as [[m' reg'] [acts rotated]] eqn:Eh.
  assert ((ev = MamEvent_RegistrationAttemptSaved ∧ is_Some (saving_attempt m))
    ∨ ¬ (ev = MamEvent_RegistrationAttemptSaved ∧ is_Some (saving_attempt m)))
    as [[-> [t Ht]]|Hno].
  { destruct ev; try (by right; intros [? _]).
    destruct (saving_attempt m); [left; eauto|right; by intros [_ [? ?]]]. }
  - simpl in Eh. destruct (handle_saved _ _ _ _ _ _ _ t Eh Ht) as [Hs Hk]. rewrite Ht.
    unfold attempts. simpl. rewrite Ht, Hs, Hk. apply rtc_once.
    case_match; [apply ledger_start|apply ledger_give_up].
  - assert (match ev, saving_attempt m with
      | MamEvent_RegistrationAttemptSaved, Some at_ =>
          mkWorld m' (Some at_) (if registers acts then at_ :: sent else sent)
      | _, _ => mkWorld m' disk sent end = mkWorld m' disk sent) as ->.
    { destruct ev; try done. destruct (saving_attempt m); [|done]. destruct Hno. eauto. }
    unfold attempts. simpl. pose proof (handle_saving _ _ _ _ _ _ _ _ Eh) as Hs.
    apply handle_known in Eh; [|intros ->; destruct (saving_attempt m); [destruct Hno; eauto|done]].
    etrans.
    + instantiate (1 := mkLedger disk (known_attempt m) (saving_attempt m') sent).
      destruct Hs as [->| ->]; [reflexivity|apply rtc_once, ledger_drop].
    + destruct Eh as [->|[->| ->]]; [reflexivity|apply rtc_once, ledger_read|
        apply rtc_once, ledger_forget].
Qed.

Lemma attempts_simulated w input :
  input_ok input →
  rtc (ledger_step REGISTRATION_SPACING) (attempts w) (attempts (world_step w input)).
Proof.
  destruct w as [m disk sent], input as [|now ev reg|now ctx timers| |id|committed]; intros Hin.
  - apply rtc_once, ledger_forget.
  - apply event_simulated.
  - by apply decide_simulated.
  - reflexivity.
  - simpl. unfold timer_expired. by case_match.
  - unfold attempts. simpl. destruct committed; [|apply rtc_once, ledger_restart].
    destruct (saving_attempt m) as [t|]; apply rtc_once;
      [apply ledger_restart_committed|apply ledger_restart].
Qed.


(** A run: a registration after startup, a restart that finds its attempt
    committed, and the next registration once an hour has passed. *)
Definition sample_context : Context := {|
  ctx_requests := MamRequestsStatus_Running;
  ctx_protection := TunnelProtection_Protected;
  ctx_cookie := Some "cookie"%string;
  ctx_requested_cookie := Some "cookie"%string;
  ctx_reserve := None;
  ctx_readiness := ClientReadiness_NotReady;
  ctx_client_version := None;
  ctx_connection := mkConnection None None None None;
  ctx_downloading_limit := DownloadingLimit_default;
  ctx_registry := Registry_Unread |}.

Definition sample_clock (s : Z) : ClockReading :=
  mkClockReading (from_secs s) (from_secs (1_800_000_000 + s)).

Definition sample_inputs (start : Z) : list Input :=
  let event s ev := Input_Event (sample_clock (start + s)) ev Registry_Unread in
  let decide s := Input_Decide (sample_clock (start + s)) sample_context (mkTimers 0) in
  [Input_StartReading;
   event 0 (MamEvent_StateRead None None SavedRatioGuard_Unset);
   event 0 MamEvent_Enable;
   decide 61;
   event 62 (MamEvent_Answered (Ok (MamReply_Ip (mkIpObservation (IpAddr_V4 1) 7 None))) None);
   decide 62;
   event 63 MamEvent_RegistrationAttemptSaved].

