(* ===== verification/Notifications.v ===== *)
(** * Notifications

    What the owner is told and when: lasting conditions with a grace period,
    one-off notices, the log they are kept in, and pushes delivered one at a
    time with retries ([core/notifications.rs]). *)

From S2P Require Import Prelude Values Vocabulary MamApi Messages Timer MamPause Settings.
From S2P Require Import PortForwarding Tunnel Qbittorrent Registry RatioGuard Network Account.
From S2P Require Import Acquisition Connectability Mam.

Definition SEEDING_DEADLINE_WARNING : Duration := from_hours (20 * 24).
Definition OUTBOX_LIMIT : nat := 50.
Definition LOG_KEPT : Z := 1_000.
Definition RETRY_FIRST : Duration := from_secs 30.
Definition RETRY_MAX : Duration := from_mins 10.

(** ** Data *)

Inductive NoticeLog :=
  | NoticeLog_Waiting (waiting : list (SystemTime * Notice))
  | NoticeLog_Ready (next : NoticeId)
  | NoticeLog_Unavailable.

Inductive Condition :=
  | Condition_VpnProtection
  | Condition_FailoverBlocked
  | Condition_ForwardedPort
  | Condition_QbittorrentReachable
  | Condition_QbittorrentVersion
  | Condition_TorrentErrors
  | Condition_FilesMissing
  | Condition_TorrentsMissing
  | Condition_RegistrySave
  | Condition_MamSession
  | Condition_SeedboxRegistration
  | Condition_MamIp
  | Condition_Ratio
  | Condition_UnsatisfiedLimit
  | Condition_UnsatisfiedNotSeeding
  | Condition_MamFlags
  | Condition_MamMessages
  | Condition_DownloadsHeld
  | Condition_Wedges
  | Condition_PointsReserve
  | Condition_VipEnding
  | Condition_DownloadsRefused
  | Condition_SeedingBehind
  | Condition_MamClient
  | Condition_Connectable
  | Condition_PurchaseUnresolved.
#[global] Instance Condition_eq_dec : EqDecision Condition.
Proof. solve_decision. Defined.

(** The conditions in the order they are declared, which is their order as keys. *)
Definition Condition_all : list Condition := [
  Condition_VpnProtection; Condition_FailoverBlocked; Condition_ForwardedPort;
  Condition_QbittorrentReachable; Condition_QbittorrentVersion; Condition_TorrentErrors;
  Condition_FilesMissing; Condition_TorrentsMissing; Condition_RegistrySave;
  Condition_MamSession; Condition_SeedboxRegistration; Condition_MamIp; Condition_Ratio;
  Condition_UnsatisfiedLimit; Condition_UnsatisfiedNotSeeding; Condition_MamFlags;
  Condition_MamMessages; Condition_DownloadsHeld; Condition_Wedges; Condition_PointsReserve;
  Condition_VipEnding; Condition_DownloadsRefused; Condition_SeedingBehind;
  Condition_MamClient; Condition_Connectable; Condition_PurchaseUnresolved].

Definition Condition_index (c : Condition) : nat :=
  match list_find (λ c', c' = c) Condition_all with Some (i, _) => i | None => 0%nat end.

Lemma Condition_all_index c : Condition_all !! Condition_index c = Some c.
Proof. by destruct c. Qed.

#[global] Instance Condition_countable : Countable Condition.
Proof.
  apply (inj_countable Condition_index (λ i, Condition_all !! i)). apply Condition_all_index.
Defined.
#[global] Instance Condition_key_order : KeyOrder Condition :=
  λ a b, (Condition_index a ≤ Condition_index b)%nat.
#[global] Instance Condition_key_order_ok : KeyOrderOk Condition.
Proof.
  split; unfold key_le, Condition_key_order.
  - intros a b. apply _.
  - split; [split|].
    + intros a. lia.
    + intros a b c. lia.
    + intros a b ??. assert (Condition_index a = Condition_index b) as He by lia.
      apply (f_equal (λ i, Condition_all !! i)) in He.
      rewrite !Condition_all_index in He. by simplify_eq.
  - intros a b. lia.
Defined.

(** How long the condition must hold before the owner is told. *)
Definition Condition_grace (c : Condition) : Duration :=
  match c with
  | Condition_VpnProtection | Condition_FailoverBlocked | Condition_QbittorrentVersion
  | Condition_MamSession | Condition_SeedboxRegistration | Condition_Ratio
  | Condition_UnsatisfiedLimit | Condition_MamFlags | Condition_MamMessages
  | Condition_Wedges | Condition_PointsReserve | Condition_VipEnding
  | Condition_DownloadsRefused | Condition_SeedingBehind | Condition_MamClient
  | Condition_Connectable | Condition_PurchaseUnresolved => 0
  | Condition_MamIp => from_mins 15
  | Condition_UnsatisfiedNotSeeding | Condition_DownloadsHeld => from_mins 30
  | Condition_RegistrySave => from_mins 2
  | Condition_ForwardedPort | Condition_QbittorrentReachable | Condition_TorrentErrors =>
      from_mins 5
  | Condition_FilesMissing | Condition_TorrentsMissing => from_mins 10
  end.

Inductive Status :=
  | Status_Active (notice : Notice)
  | Status_Clear (notice : option Notice)
  | Status_Unchanged.

Inductive Phase :=
  | Phase_Pending (since : Instant)
  | Phase_Raised.
#[global] Instance Phase_eq_dec : EqDecision Phase.
Proof. solve_decision. Defined.

Inductive Delivery :=
  | Delivery_Idle
  | Delivery_Sending (push : Push)
  | Delivery_Retrying (push : Push) (timer : TimerId).

Record Outcome := mkOutcome {
  outcome_at : SystemTime;
  outcome_result : Result unit DeliveryFailure;
}.

Record Notifications := mkNotifications {
  not_conditions : gmap Condition Phase;
  not_log : NoticeLog;
  not_outbox : list Push;
  not_delivery : Delivery;
  not_last_outcome : option Outcome;
  not_dropped : PushCount;
  not_failures : FailureCount;
  not_grace_timer : option (TimerId * Instant);
  not_mode : option StartupMode;
}.

Inductive Startup :=
  | Startup_Starting
  | Startup_Ready
  | Startup_Failed.
#[global] Instance Startup_eq_dec : EqDecision Startup.
Proof. solve_decision. Defined.

(** The parts of core state that one-off notices compare across a step. *)
Record Glance := mkGlance {
  glance_failover : option Failover;
  glance_current : option VpnServer;
  glance_startup : Startup;
}.

Definition Glance_of (tunnel : Tunnel) (startup : Startup) : Glance :=
  mkGlance (tunnel_watch tunnel ≫= watch_failover) (Tunnel.current tunnel) startup.

(** The core state that lasting conditions are read from. *)
Record Facts := mkFacts {
  facts_tunnel : Tunnel;
  facts_port_forwarding : PortForwarding;
  facts_qbittorrent : Qbittorrent;
  facts_registry : Registry;
  facts_mam : Mam;
  facts_reserve : option Points;
}.

(** [Notice::reach]: whether the notice is pushed, or only kept on the
    dashboard. *)
Definition reach (n : Notice) : Reach :=
  match n with
  | Notice_Started _ | Notice_VpnProtectionRestored _ _ | Notice_FailoverStarted _
  | Notice_FailoverSucceeded _ | Notice_ForwardedPortRestored _ | Notice_QbittorrentReachable
  | Notice_QbittorrentVersionAllowed _ | Notice_TorrentErrorsCleared | Notice_FilesMissingCleared
  | Notice_TorrentsMissingCleared | Notice_RegistrySaved | Notice_MamSessionAccepted
  | Notice_SeedboxRegistered _ | Notice_MamIpKnown | Notice_RatioRestored | Notice_RatioUseChecked
  | Notice_UnsatisfiedBelowLimit | Notice_UnsatisfiedSeeding | Notice_MamFlagsCleared
  | Notice_DownloadsResumed | Notice_SeedingOnTrack | Notice_PurchaseMade _ _
  | Notice_WedgedMidDownload | Notice_PurchaseSettled _ _ | Notice_MamClientListed
  | Notice_ConnectableAgain => Reach_Dashboard
  | Notice_StartupFailed | Notice_VpnProtectionLost _ | Notice_FailoverFailed _
  | Notice_FailoverBlocked _ | Notice_ForwardedPortLost | Notice_QbittorrentUnreachable _
  | Notice_QbittorrentVersionNotAllowed _ | Notice_TorrentErrors _ | Notice_FilesMissing _
  | Notice_TorrentsMissing _ | Notice_RegistryNotSaved | Notice_RegistryUnreadable
  | Notice_SettingNotSaved _ | Notice_HistoryUnavailable | Notice_HistoryEntriesLost _
  | Notice_Test | Notice_MamSessionRejected _ | Notice_SeedboxNotRegistered
  | Notice_MamIpUnknown _ | Notice_MamStateUnreadable | Notice_RatioLow _ _ | Notice_RatioUsed _
  | Notice_UnsatisfiedNearLimit _ _ | Notice_UnsatisfiedNotSeeding _ | Notice_MamFlagged _ _ _
  | Notice_MamMessages _ _ | Notice_DownloadsHeld _ | Notice_NoWedgesLeft
  | Notice_PointsBelowReserve _ _ | Notice_VipEnding _ | Notice_DownloadsRefused
  | Notice_SeedingBehind _ | Notice_PurchaseRefused _ | Notice_PurchaseUncertain _
  | Notice_WedgeNotSpent | Notice_DownloadNotFree _ | Notice_PurchaseNeedsChecking _
  | Notice_MamClientNotListed _ | Notice_NotConnectable _ | Notice_MamVisitReminder => Reach_Push
  end.

Definition new : Notifications := {|
  not_conditions := ∅;
  not_log := NoticeLog_Waiting [];
  not_outbox := [];
  not_delivery := Delivery_Idle;
  not_last_outcome := None;
  not_dropped := 0;
  not_failures := FailureCount_NONE;
  not_grace_timer := None;
  not_mode := None;
|}.

(** ** One-off notices *)

(** [Notifications::reported]: notices for what an event reports. *)
Definition reported (self : Notifications) (event : Event) : Notifications * list Notice :=
  match event with
  | Event_Startup (StartupEvent_Start mode) => ({| self with not_mode := Some mode |}, [])
  | Event_MamPause (MamPauseEvent_WriteFailed | MamPauseEvent_DeleteFailed) =>
      (self, [Notice_SettingNotSaved SettingName_MamRequests])
  | Event_Settings SettingsEvent_HistoryLimitWriteFailed =>
      (self, [Notice_SettingNotSaved SettingName_HistoryLimit])
  | Event_Settings SettingsEvent_ApiCookieWriteFailed =>
      (self, [Notice_SettingNotSaved SettingName_ApiCookie])
  | Event_Settings SettingsEvent_NtfyTopicWriteFailed =>
      (self, [Notice_SettingNotSaved SettingName_NtfyTopic])
  | Event_Settings SettingsEvent_PointsReserveWriteFailed =>
      (self, [Notice_SettingNotSaved SettingName_PointsReserve])
  | Event_Mam MamEvent_StateReadFailed => (self, [Notice_MamStateUnreadable])
  | Event_History HistoryEvent_OpenFailed => (self, [Notice_HistoryUnavailable])
  | Event_History (HistoryEvent_EntriesLost count _ _) => (self, [Notice_HistoryEntriesLost count])
  | Event_Registry RegistryEvent_ReadFailed => (self, [Notice_RegistryUnreadable])
  | Event_Notification NotificationEvent_SendTest => (self, [Notice_Test])
  | _ => (self, [])
  end.

(** [Notifications::changed]: notices for what changed in this step. *)
Definition changed (self : Notifications) (before after : Glance) : list Notice :=
  let startup :=
    match glance_startup before, glance_startup after with
    | (Startup_Starting | Startup_Failed), Startup_Ready =>
        option_list (Notice_Started <$> not_mode self)
    | (Startup_Starting | Startup_Ready), Startup_Failed => [Notice_StartupFailed]
    | _, _ => []
    end in
  let started :=
    match glance_failover before, glance_failover after with
    | None, Some (Failover_Saving switch) => [Notice_FailoverStarted (switch_server switch)]
    | _, _ => []
    end in
  let ended :=
    match glance_failover before, glance_failover after with
    | Some (Failover_Saving switch), None => Some (switch_server switch)
    | Some (Failover_Switching server), None => Some server
    | _, _ => None
    end in
  startup ++ started ++
  match ended with
  | Some server =>
      [if glance_current after ==? Some server then Notice_FailoverSucceeded server
       else Notice_FailoverFailed server]
  | None => []
  end.

(** ** Recording and delivering *)

Definition enqueue (self : Notifications) (push : Push) : Notifications :=
  let self := if bool_decide (OUTBOX_LIMIT ≤ length (not_outbox self))%nat
              then {| self with not_outbox := tail (not_outbox self);
                                not_dropped := PushCount_plus_one (not_dropped self) |}
              else self in
  {| self with not_outbox := not_outbox self ++ [push] |}.

(** [Notifications::record]: give a notice its place in the log, and queue it
    for pushing if urgent. *)
Definition record (self : Notifications) (at_ : SystemTime) (notice : Notice)
    : Notifications * option Action :=
  let file self entry :=
    let self := match reach notice with
                | Reach_Push => enqueue self (mkPush entry notice)
                | Reach_Dashboard => self
                end in
    (self, (λ id, Action_SaveNotice (mkLogged id at_ notice (reach notice))
                    (checked_sub id LOG_KEPT ≫= NoticeId_new)) <$> entry) in
  match not_log self with
  | NoticeLog_Waiting waiting =>
      ({| self with not_log := NoticeLog_Waiting (waiting ++ [(at_, notice)]) |}, None)
  | NoticeLog_Ready next =>
      file {| self with not_log := NoticeLog_Ready (NoticeId_following next) |} (Some next)
  | NoticeLog_Unavailable => file self None
  end.

(** Record each notice in turn: [filter_map(|..| self.record(..)).collect()]. *)
Fixpoint record_all (self : Notifications) (notices : list (SystemTime * Notice))
    : Notifications * list Action :=
  match notices with
  | [] => (self, [])
  | (at_, notice) :: notices =>
      let '(self, action) := record self at_ notice in
      let '(self, actions) := record_all self notices in
      (self, option_list action ++ actions)
  end.

Definition start_reading : list Action := [Action_ReadNoticeLog].

(** Storage cannot be used: waiting notices are pushed without an entry. *)
Definition log_unavailable (self : Notifications) : Notifications :=
  let waiting := match not_log self with NoticeLog_Waiting waiting => waiting | _ => [] end in
  (record_all {| self with not_log := NoticeLog_Unavailable |} waiting).1.

(** [2_u32.saturating_pow(exp)] *)
Definition saturating_pow2 (exp : Z) : Z := Z.min (2 ^ exp) u32_max.

(** The wait before the next attempt, by the failures in a row. *)
Definition retry_after (failures : FailureCount) : Duration :=
  Z.min (duration_saturating_mul RETRY_FIRST (saturating_pow2 (saturating_sub failures 1)))
    RETRY_MAX.

(** [Notifications::handle] *)
Definition handle (self : Notifications) (now : ClockReading) (event : NotificationEvent)
    (timers : Timers) : Notifications * Timers * list Action :=
  match event with
  | NotificationEvent_LogRead last =>
      match not_log self with
      | NoticeLog_Waiting waiting =>
          let self := {| self with not_log := NoticeLog_Ready
                           (match last with
                            | Some last => NoticeId_following last
                            | None => NoticeId_FIRST
                            end) |} in
          let '(self, actions) := record_all self waiting in
          (self, timers, actions)
      | _ => (self, timers, [])
      end
  | NotificationEvent_LogReadFailed => (log_unavailable self, timers, [])
  | NotificationEvent_Delivered =>
      match not_delivery self with
      | Delivery_Sending _ =>
          ({| self with not_delivery := Delivery_Idle;
                        not_failures := FailureCount_NONE;
                        not_last_outcome := Some (mkOutcome (wall now) (Ok tt)) |}, timers, [])
      | _ => (self, timers, [])
      end
  | NotificationEvent_DeliveryFailed reason =>
      match not_delivery self with
      | Delivery_Sending push =>
          let self := {| self with
                         not_failures := FailureCount_after_another (not_failures self);
                         not_last_outcome := Some (mkOutcome (wall now) (Err reason)) |} in
          let '(timers, (timer, deadline)) :=
            schedule timers (monotonic now) (retry_after (not_failures self)) in
          ({| self with not_delivery := Delivery_Retrying push timer |}, timers,
           [Action_StartTimer TimerName_NotificationRetry timer deadline])
      | _ => (self, timers, [])
      end
  | NotificationEvent_SendTest | NotificationEvent_Saved | NotificationEvent_SaveFailed =>
      (self, timers, [])
  end.

(** [Notifications::timer_expired]: a failed delivery whose retry is due is sent
    again. *)
Definition timer_expired (self : Notifications) (id : TimerId) : Notifications :=
  let self := if is_some_and (not_grace_timer self) (λ t, t.1 ==? id)
              then {| self with not_grace_timer := None |} else self in
  match not_delivery self with
  | Delivery_Retrying push timer =>
      if timer ==? id
      then {| self with not_outbox := push :: not_outbox self; not_delivery := Delivery_Idle |}
      else self
  | _ => self
  end.

(** [Notifications::track]: follow a condition; the notice to give, if any. *)
Definition track (self : Notifications) (now : Instant) (condition : Condition) (status : Status)
    : Notifications * option Notice :=
  let phase p := {| self with not_conditions := <[condition := p]> (not_conditions self) |} in
  let cleared := {| self with not_conditions := delete condition (not_conditions self) |} in
  match not_conditions self !! condition, status with
  | None, Status_Active notice =>
      if Condition_grace condition =? 0 then (phase Phase_Raised, Some notice)
      else (phase (Phase_Pending now), None)
  | Some (Phase_Pending since), Status_Active notice =>
      if Condition_grace condition <=? duration_since now since
      then (phase Phase_Raised, Some notice) else (self, None)
  | Some (Phase_Pending _), Status_Clear _ => (cleared, None)
  | Some Phase_Raised, Status_Clear notice => (cleared, notice)
  | _, _ => (self, None)
  end.

(** [Notifications::schedule_grace]: wake the core when the earliest pending
    condition's grace ends. *)
Definition schedule_grace (self : Notifications) (now : Instant) (timers : Timers)
    : Notifications * Timers * list Action :=
  let due := min_list (omap (λ item,
      match item.2 with
      | Phase_Pending since => checked_add since (Condition_grace item.1)
      | Phase_Raised => None
      end) (bt_items (not_conditions self))) in
  match due with
  | None => (self, timers, [])
  | Some due =>
      if is_some_and (not_grace_timer self) (λ t, t.2 ==? due) then (self, timers, [])
      else
        let '(timers, (id, deadline)) := schedule timers now (duration_since due now) in
        ({| self with not_grace_timer := Some (id, due) |}, timers,
         [Action_StartTimer TimerName_NotificationGrace id deadline])
  end.

(** The topic pushes go to: [None] when settings are not read yet, [Some None]
    when there is none. *)
Definition send_topic (settings : SettingsState) : option (option NtfyTopic) :=
  match settings with
  | SettingsState_Unread | SettingsState_Reading => None
  | SettingsState_ReadFailed => Some None
  | SettingsState_Loaded settings => Some (setting_saved (settings_ntfy_topic settings))
  end.

(** [Notifications::send]: push the oldest waiting notice once settings name a
    topic; without one, pushes are discarded. *)
Definition send (self : Notifications) (settings : SettingsState) : Notifications * list Action :=
  match send_topic settings with
  | None => (self, [])
  | Some None =>
      ({| self with not_outbox := [];
                    not_delivery := match not_delivery self with
                                    | Delivery_Retrying _ _ => Delivery_Idle
                                    | delivery => delivery
                                    end |}, [])
  | Some (Some topic) =>
      match not_delivery self, not_outbox self with
      | Delivery_Idle, push :: outbox =>
          ({| self with not_outbox := outbox; not_delivery := Delivery_Sending push |},
           [Action_SendNotification topic push])
      | _, _ => (self, [])
      end
  end.

(** ** Lasting conditions *)

(** VPN protection, which clears only on a successful check, and blocked
    failover. *)
Definition vpn (now : SystemTime) (tunnel : Tunnel) : Status * Status :=
  match tunnel_watch tunnel with
  | None => (Status_Clear None, Status_Clear None)
  | Some watch =>
      let failing := FAILURES_BEFORE_SWITCH <=? watch_failures watch in
      let protection :=
        if failing then Status_Active (Notice_VpnProtectionLost (watch_failures watch))
        else match watch_protection watch with
             | Protection_Available exit_ip _ =>
                 Status_Clear (Some (Notice_VpnProtectionRestored exit_ip (watch_current watch)))
             | Protection_Unknown | Protection_Unavailable _ => Status_Unchanged
             end in
      let reason :=
        match switch_allowance tunnel now with
        | SwitchAllowance_Now => None
        | SwitchAllowance_After at_ => Some (SwitchBlock_Until at_)
        | SwitchAllowance_Unknown => Some SwitchBlock_LastSwitchUnknown
        | SwitchAllowance_NoAlternative => Some SwitchBlock_NoOtherServer
        end in
      let blocked :=
        match reason with
        | Some reason =>
            if failing && is_none (watch_failover watch)
            then Status_Active (Notice_FailoverBlocked reason) else Status_Clear None
        | None => Status_Clear None
        end in
      (protection, blocked)
  end.

(** A switch drops the lease on purpose, so a missing port then changes nothing. *)
Definition forwarded_port (forwarding : PortForwarding) (tunnel : Tunnel) : Status :=
  let switching := is_some_and (tunnel_watch tunnel) (λ w, is_some (watch_failover w)) in
  match forwarding with
  | PortForwarding_Disabled => Status_Clear None
  | PortForwarding_Enabled e =>
      match pf_lease e with
      | Some lease => Status_Clear (Some (Notice_ForwardedPortRestored (lease_tcp lease)))
      | None => if switching then Status_Unchanged else Status_Active Notice_ForwardedPortLost
      end
  end.

(** Active torrents completed 20 or more days ago with less than the seeding
    target seeded. *)
Definition seeding_behind (now : SystemTime) (registry : Registry) : option TorrentCount :=
  r ← Registry.loaded registry;
  Some (TorrentCount_counting
    (filter (λ o,
        (torrent_seeding_time (observation_torrent o) <? SEEDING_TARGET)
        && is_some_and (torrent_completed_at (observation_torrent o)) (λ completed,
             is_some_and (wall_duration_since now completed)
               (λ since, SEEDING_DEADLINE_WARNING <=? since)))
      (omap record_observation
        (filter (λ record, record_desired record = Desired_Active) (records r))))).

(** The closure [read] of [mam]. *)
Definition read_status (mam : Mam) (active cleared : option Notice) : Status :=
  match Account.data (mam_account mam), active with
  | None, _ => Status_Unchanged
  | Some _, Some notice => Status_Active notice
  | Some _, None => Status_Clear cleared
  end.

(** The account's lasting conditions, as MAM reports them. *)
Definition mam (now : SystemTime) (mam : Mam) (reserve : option Points)
    : list (Condition * Status) :=
  let account := mam_account mam in
  let hold := acq_hold (mam_acquisition mam) in
  [ (Condition_MamSession,
      match mam_session mam with
      | Session_Rejected rejection _ _ => Status_Active (Notice_MamSessionRejected rejection)
      | Session_Verified _ => Status_Clear (Some Notice_MamSessionAccepted)
      | Session_Unverified => Status_Unchanged
      end);
    (Condition_SeedboxRegistration,
      match seedbox_status (mam_seedbox mam) with
      | SeedboxStatus_Failed (RegistrationFailure_Mam (MamFailure_TooSoon _)) _
      | SeedboxStatus_Unconfirmed => Status_Unchanged
      | SeedboxStatus_Failed _ _ => Status_Active Notice_SeedboxNotRegistered
      | SeedboxStatus_Confirmed ip _ => Status_Clear (Some (Notice_SeedboxRegistered ip))
      end);
    (Condition_MamIp,
      if FailureCount_any (net_failures (mam_network mam))
      then Status_Active (Notice_MamIpUnknown (net_failures (mam_network mam)))
      else if is_some (Network.current (mam_network mam)) then Status_Clear (Some Notice_MamIpKnown)
      else Status_Unchanged);
    (Condition_Ratio,
      read_status mam ((λ p, Notice_RatioLow p.1 p.2) <$> ratio_low account)
        (Some Notice_RatioRestored));
    (Condition_UnsatisfiedLimit,
      read_status mam ((λ p, Notice_UnsatisfiedNearLimit p.1 p.2) <$> unsatisfied_near_limit account)
        (Some Notice_UnsatisfiedBelowLimit));
    (Condition_UnsatisfiedNotSeeding,
      read_status mam
        (Notice_UnsatisfiedNotSeeding
           <$> opt_filter (λ count, negb (TorrentCount_is_zero count))
                 (not_seeding_unsatisfied account))
        (Some Notice_UnsatisfiedSeeding));
    (Condition_MamFlags,
      read_status mam
        ((λ a, Notice_MamFlagged (attention_partial a) (attention_tracker_errors a)
                 (attention_flagged a))
           <$> opt_filter Attention_any (attention account))
        (Some Notice_MamFlagsCleared));
    (Condition_MamMessages,
      read_status mam
        ((λ notices, Notice_MamMessages (MamNotices_total notices)
            (if NoticeCount_is_zero (notices_about_to_drop_client notices)
             then ClientWarning_NotGiven else ClientWarning_Given))
           <$> opt_filter (λ notices, negb (NoticeCount_is_zero (MamNotices_total notices)))
                 (Account.data account ≫= data_notices))
        None);
    (Condition_DownloadsHeld,
      match hold with
      | Some Hold_MamUnavailable => Status_Unchanged
      | Some hold => Status_Active (Notice_DownloadsHeld hold)
      | None => Status_Clear (Some Notice_DownloadsResumed)
      end);
    (Condition_Wedges,
      if hold ==? Some Hold_NoWedge then Status_Active Notice_NoWedgesLeft else Status_Clear None);
    (Condition_PointsReserve,
      read_status mam
        ((λ p, Notice_PointsBelowReserve (data_points p.1) p.2)
           <$> opt_filter (λ p, data_points p.1 <? p.2) (opt_zip (Account.data account) reserve))
        None);
    (Condition_VipEnding,
      read_status mam (Notice_VipEnding <$> vip_ending account now) None);
    (Condition_MamClient,
      match mam_client mam with
      | ClientStanding_Unknown | ClientStanding_NoneListed => Status_Unchanged
      | ClientStanding_Listed => Status_Clear (Some Notice_MamClientListed)
      | standing => Status_Active (Notice_MamClientNotListed standing)
      end);
    (Condition_PurchaseUnresolved,
      match unresolved_purchase account with
      | Some purchase => Status_Active (Notice_PurchaseNeedsChecking purchase)
      | None => Status_Clear None
      end);
    (Condition_Connectable,
      match mam_connectability mam with
      | Connectability_Fine => Status_Clear (Some Notice_ConnectableAgain)
      | Connectability_Repaired _ _ _ => Status_Unchanged
      | Connectability_Unresolved _ findings => Status_Active (Notice_NotConnectable findings)
      end);
    (Condition_DownloadsRefused,
      if is_some (acq_refused (mam_acquisition mam)) then Status_Active Notice_DownloadsRefused
      else Status_Clear None) ].

(** The closure [counted] of [assess]. *)
Definition counted (count : option TorrentCount) (raised : TorrentCount → Notice)
    (cleared : Notice) : Status :=
  match count with
  | Some count => if TorrentCount_is_zero count then Status_Clear (Some cleared)
                  else Status_Active (raised count)
  | None => Status_Unchanged
  end.

(** Read every lasting condition from core state. *)
Definition assess (now : SystemTime) (facts : Facts) : list (Condition * Status) :=
  let session := match facts_qbittorrent facts with
                 | Qbittorrent_Connected session => Some session
                 | _ => None
                 end in
  let listed := opt_filter Qbittorrent.listed session in
  let count state :=
    (λ session, TorrentCount_counting
       (filter (λ torrent, torrent_state torrent = state) (bt_values (session_torrents session))))
    <$> listed in
  let missing :=
    r ← Registry.loaded (facts_registry facts);
    (λ session, TorrentCount_counting
       (filter (λ hash, session_torrents session !! hash = None)
         (omap (λ record, Identity_hash (record_identity record))
           (filter (λ record, record_desired record = Desired_Active) (records r)))))
    <$> listed in
  let '(vpn, blocked) := vpn now (facts_tunnel facts) in
  [ (Condition_VpnProtection, vpn);
    (Condition_FailoverBlocked, blocked);
    (Condition_ForwardedPort,
      forwarded_port (facts_port_forwarding facts) (facts_tunnel facts));
    (Condition_QbittorrentReachable,
      match facts_qbittorrent facts with
      | Qbittorrent_Disabled => Status_Clear None
      | Qbittorrent_Connecting => Status_Unchanged
      | Qbittorrent_Unreachable reason _ => Status_Active (Notice_QbittorrentUnreachable reason)
      | Qbittorrent_Connected _ => Status_Clear (Some Notice_QbittorrentReachable)
      end);
    (Condition_QbittorrentVersion,
      match session with
      | None => Status_Unchanged
      | Some session =>
          if session_approval session ==? MamApproval_NotAllowed
          then Status_Active (Notice_QbittorrentVersionNotAllowed (session_version session))
          else Status_Clear (Some (Notice_QbittorrentVersionAllowed (session_version session)))
      end);
    (Condition_TorrentErrors,
      counted (count TorrentState_Error) Notice_TorrentErrors Notice_TorrentErrorsCleared);
    (Condition_FilesMissing,
      counted (count TorrentState_MissingFiles) Notice_FilesMissing Notice_FilesMissingCleared);
    (Condition_TorrentsMissing,
      counted missing Notice_TorrentsMissing Notice_TorrentsMissingCleared);
    (Condition_RegistrySave,
      match Registry.loaded (facts_registry facts) with
      | Some records => if Registry.save_failed records then Status_Active Notice_RegistryNotSaved
                        else Status_Clear (Some Notice_RegistrySaved)
      | None => Status_Unchanged
      end);
    (Condition_SeedingBehind,
      counted (seeding_behind now (facts_registry facts)) Notice_SeedingBehind
        Notice_SeedingOnTrack) ]
  ++ mam now (facts_mam facts) (facts_reserve facts).

(** The tracking loop of [after_step]. *)
Fixpoint track_all (self : Notifications) (now : Instant) (assessed : list (Condition * Status))
    : Notifications * list Notice :=
  match assessed with
  | [] => (self, [])
  | (condition, status) :: assessed =>
      let '(self, notice) := track self now condition status in
      let '(self, notices) := track_all self now assessed in
      (self, option_list notice ++ notices)
  end.

(** [Notifications::after_step]: track lasting conditions, queue notices, and
    start the next delivery. *)
Definition after_step (self : Notifications) (now : ClockReading) (happened : list Notice)
    (facts : Facts) (settings : SettingsState) (timers : Timers)
    : Notifications * Timers * list Action :=
  let '(self, notices) := track_all self (monotonic now) (assess (wall now) facts) in
  let '(self, saves) := record_all self ((wall now,.) <$> (notices ++ happened)) in
  let '(self, timers, grace) := schedule_grace self (monotonic now) timers in
  let '(self, sends) := send self settings in
  (self, timers, saves ++ grace ++ sends).
