(* ===== verification/Core.v ===== *)
(** * The core

    The whole step: one event handled by its component, then the decisions that
    follow every event ([core/machine.rs]). *)

From S2P Require Import Prelude Values Vocabulary MamApi Messages Timer MamPause Startup.
From S2P Require Import Settings History PortForwarding Tunnel Qbittorrent Registry Budget.
From S2P Require Import RatioGuard Network Account Acquisition Connectability Mam Notifications.

(** ** Data *)

Record Core := mkCore {
  core_state : State;
  core_settings : SettingsState;
  core_history : HistoryState;
  core_port_forwarding : PortForwarding;
  core_qbittorrent : Qbittorrent;
  core_registry : Registry;
  core_tunnel : Tunnel;
  core_mam : Mam;
  core_notifications : Notifications;
  core_timers : Timers;
  core_step : Step;
}.

Definition new : Core := {|
  core_state := State_NotStarted;
  core_settings := SettingsState_Unread;
  core_history := HistoryState_Closed;
  core_port_forwarding := PortForwarding_Disabled;
  core_qbittorrent := Qbittorrent_Disabled;
  core_registry := Registry_Unread;
  core_tunnel := Tunnel.new;
  core_mam := Mam.new;
  core_notifications := Notifications.new;
  core_timers := Timer.new;
  core_step := Step_ZERO;
|}.

(** ** Parts of the step *)

(** [Core::glance] *)
Definition glance (self : Core) : Glance :=
  Glance_of (core_tunnel self)
    (match core_state self with
     | State_Failed => Startup_Failed
     | State_Ready _ => Startup_Ready
     | _ => Startup_Starting
     end).

(** [Core::handle_startup]: once storage opens, every stored part is read. *)
Definition handle_startup (self : Core) (now : ClockReading) (event : StartupEvent)
    : Core * list Action :=
  let opening := match core_state self with State_OpeningStorage _ => true | _ => false end in
  let '(state, actions) := Startup.handle (core_state self) now event in
  let self := {| self with core_state := state |} in
  let '(self, actions) :=
    match opening, state with
    | true, State_ReadingMamPreference _ =>
        let '(settings, a1) := Settings.start_reading (core_settings self) in
        let '(history, a2) := open (core_history self) (core_step self) in
        let '(registry, a3) := Registry.start_reading (core_registry self) in
        let '(tunnel, a4) := Tunnel.start_reading (core_tunnel self) in
        let '(mam, a5) := Mam.start_reading (core_mam self) in
        ({| self with core_settings := settings; core_history := history;
                      core_registry := registry; core_tunnel := tunnel; core_mam := mam |},
         actions ++ a1 ++ a2 ++ a3 ++ a4 ++ a5 ++ Notifications.start_reading)
    | _, _ => (self, actions)
    end in
  match state with
  | State_Failed =>
      ({| self with core_notifications := log_unavailable (core_notifications self) |}, actions)
  | _ => (self, actions)
  end.

(** [Core::handle_mam]: a new cookie MAM issued is saved through settings. *)
Definition handle_mam (self : Core) (now : ClockReading) (event : MamEvent) : Core * list Action :=
  let '(mam, registry, (actions, rotated)) :=
    Mam.handle (core_mam self) now event (core_registry self) in
  let self := {| self with core_mam := mam; core_registry := registry |} in
  match rotated with
  | Some cookie =>
      let '(settings, more) := rotate (core_settings self) cookie in
      ({| self with core_settings := settings |}, actions ++ more)
  | None => (self, actions)
  end.

Definition core_session (self : Core) : option Qbittorrent.Session :=
  match core_qbittorrent self with
  | Qbittorrent_Connected session => Some session
  | _ => None
  end.

(** The exit IP of the latest successful check, while protection is available. *)
Definition protected_exit (self : Core) : option IpAddr :=
  watch ← tunnel_watch (core_tunnel self);
  match watch_protection watch with
  | Protection_Available exit_ip _ => Some exit_ip
  | _ => None
  end.

(** The context of [Core::decide_mam]. *)
Definition mam_context (self : Core) : Context := {|
  ctx_requests := mam_requests (core_state self);
  ctx_protection := if is_some (protected_exit self) then TunnelProtection_Protected
                    else TunnelProtection_Unprotected;
  ctx_cookie := Settings.loaded (core_settings self) ≫= usable_api_cookie;
  ctx_requested_cookie :=
    Settings.loaded (core_settings self) ≫= (λ s, setting_requested (settings_api_cookie s));
  ctx_reserve := points_reserve (core_settings self);
  ctx_readiness :=
    match core_session self with
    | Some session =>
        if Qbittorrent.listed session && (session_approval session !=? MamApproval_NotAllowed)
        then ClientReadiness_Ready else ClientReadiness_NotReady
    | None => ClientReadiness_NotReady
    end;
  ctx_client_version :=
    core_session self ≫= (λ s, ReportedVersion_release (session_version s));
  ctx_connection := {|
    conn_listen_port :=
      core_session self ≫= (λ s, preferences_listen_port (session_preferences s));
    conn_forwarded_port := PortForwarding.forwarded_port (core_port_forwarding self);
    conn_tunnel_ip := protected_exit self;
    conn_interface := core_session self ≫= (λ s, preferences_interface (session_preferences s)) |};
  ctx_downloading_limit :=
    limits_downloading (default TorrentLimits_default (torrent_limits (core_settings self)));
  ctx_registry := core_registry self;
|}.

(** [Core::decide_mam] *)
Definition decide_mam (self : Core) (now : ClockReading) : Core * list Action :=
  let '(mam, timers, actions) :=
    Mam.decide (core_mam self) now (mam_context self) (core_timers self) in
  ({| self with core_mam := mam; core_timers := timers |}, actions).

(** [Core::decide_qbittorrent] *)
Definition decide_qbittorrent (self : Core) (now : ClockReading) : Core * list Action :=
  let wanted := mkWanted (PortForwarding.forwarded_port (core_port_forwarding self))
                  (QueuePreferences_for_limits <$> torrent_limits (core_settings self)) in
  let '(qbittorrent, timers, registry, actions) :=
    Qbittorrent.decide (core_qbittorrent self) now (core_timers self) wanted (core_registry self)
      (λ registry session,
         Registry.command registry (monotonic now) session (permits_download (core_mam self))) in
  let '(qbittorrent, more) := follow_preferences qbittorrent wanted in
  ({| self with core_qbittorrent := qbittorrent; core_timers := timers;
                core_registry := registry |}, actions ++ more).

(** The event's own handler, the [match] of [Core::handle]. *)
Definition handle_event (self : Core) (now : ClockReading) (event : Event)
    : option (Core * list Action) :=
  match event with
  | Event_Startup event => Some (handle_startup self now event)
  | Event_MamPause event =>
      let '(state, actions) := MamPause.handle (core_state self) now event in
      Some ({| self with core_state := state |}, actions)
  | Event_Settings event =>
      let '(settings, actions) := Settings.handle (core_settings self) event in
      Some ({| self with core_settings := settings |}, actions)
  | Event_History event =>
      Some ({| self with core_history :=
               History.handle (core_history self) (core_step self) event |}, [])
  | Event_TimerExpired name id =>
      match name with
      | TimerName_PortLease =>
          let '(pf, actions) := PortForwarding.timer_expired (core_port_forwarding self) id in
          Some ({| self with core_port_forwarding := pf |}, actions)
      | TimerName_QbittorrentPoll =>
          let '(q, actions) := Qbittorrent.timer_expired (core_qbittorrent self) id in
          Some ({| self with core_qbittorrent := q |}, actions)
      | TimerName_TunnelCheck =>
          let '(tunnel, actions) := Tunnel.timer_expired (core_tunnel self) now id in
          Some ({| self with core_tunnel := tunnel |}, actions)
      | TimerName_NotificationGrace | TimerName_NotificationRetry =>
          Some ({| self with core_notifications :=
                   Notifications.timer_expired (core_notifications self) id |}, [])
      | TimerName_Mam =>
          Some ({| self with core_mam := Mam.timer_expired (core_mam self) id |}, [])
      end
  | Event_PortForwarding event =>
      '(pf, timers, actions) ←
        PortForwarding.handle (core_port_forwarding self) now event (core_timers self);
      let self := {| self with core_port_forwarding := pf; core_timers := timers |} in
      match event with
      | PortForwardingEvent_MappingFailed _ =>
          let '(tunnel, more) := suspect (core_tunnel self) now in
          Some ({| self with core_tunnel := tunnel |}, actions ++ more)
      | _ => Some (self, actions)
      end
  | Event_Qbittorrent event =>
      let '(q, timers, actions) :=
        Qbittorrent.handle (core_qbittorrent self) now event (core_timers self) in
      Some ({| self with core_qbittorrent := q; core_timers := timers |}, actions)
  | Event_Registry event =>
      let '(registry, actions) := Registry.handle (core_registry self) (monotonic now) event in
      Some ({| self with core_registry := registry |}, actions)
  | Event_Tunnel event =>
      let previous := Tunnel.current (core_tunnel self) in
      let '(tunnel, timers, actions) :=
        Tunnel.handle (core_tunnel self) now event (core_timers self) in
      let self := {| self with core_tunnel := tunnel; core_timers := timers |} in
      if (event ==? TunnelEvent_Switched) && (Tunnel.current tunnel !=? previous) then
        let '(pf, more) := renew (core_port_forwarding self) in
        Some ({| self with core_port_forwarding := pf; core_mam := vpn_switched (core_mam self) |},
              actions ++ more)
      else Some (self, actions)
  | Event_Notification event =>
      let '(notifications, timers, actions) :=
        Notifications.handle (core_notifications self) now event (core_timers self) in
      Some ({| self with core_notifications := notifications; core_timers := timers |}, actions)
  | Event_Mam event => Some (handle_mam self now event)
  end.

(** A lease that ran out is forgotten, and a fresh qBittorrent update recorded,
    after every event in [Core::handle]. *)
Definition observe_step (self : Core) (now : ClockReading) : Core * list Action :=
  let self := {| self with core_port_forwarding :=
                 expire (core_port_forwarding self) (monotonic now) |} in
  match deciding (core_qbittorrent self) with
  | Some (session, DecidingAfter_Sync) =>
      let '(registry, actions) := Registry.observe (core_registry self) now session in
      ({| self with core_registry := registry |}, actions)
  | _ => (self, [])
  end.

(** What follows every event in [Core::handle], up to the notices. *)
Definition settle_step (self : Core) (now : ClockReading) : Core * list Action :=
  let '(self, observed) := observe_step self now in
  let '(self, requested) := decide_mam self now in
  let '(mam, lease) := take_lease_renewal (core_mam self) in
  let self := {| self with core_mam := mam |} in
  let '(self, renewed) :=
    match lease with
    | LeaseRenewal_Requested =>
        let '(pf, actions) := renew (core_port_forwarding self) in
        ({| self with core_port_forwarding := pf |}, actions)
    | LeaseRenewal_NotRequested => (self, [])
    end in
  let '(self, commanded) := decide_qbittorrent self now in
  let '(history, trimmed) :=
    History.after_step (core_history self) (core_step self) (history_limit (core_settings self)) in
  ({| self with core_history := history |},
   observed ++ requested ++ renewed ++ commanded ++ trimmed).

(** The notices of the step in [Core::handle]: those reported, those the
    comparison with [before] shows, and those MAM work decided. *)
Definition notify_step (self : Core) (now : ClockReading) (before : Glance) (notices : list Notice)
    : Core * list Action :=
  let notices := notices ++ changed (core_notifications self) before (glance self) in
  let '(mam, more) := take_notices (core_mam self) in
  let self := {| self with core_mam := mam |} in
  let facts := Notifications.mkFacts (core_tunnel self) (core_port_forwarding self)
                 (core_qbittorrent self) (core_registry self) (core_mam self)
                 (points_reserve (core_settings self)) in
  let '(notifications, timers, actions) :=
    Notifications.after_step (core_notifications self) now (notices ++ more) facts
      (core_settings self) (core_timers self) in
  ({| self with core_notifications := notifications; core_timers := timers |}, actions).

(** The start of [Core::handle]: count the step, and take what the event
    reports. *)
Definition begin_step (self : Core) (event : Event) : Core * list Notice :=
  let self := {| self with core_step := Step_next (core_step self) |} in
  let '(notifications, notices) := reported (core_notifications self) event in
  ({| self with core_notifications := notifications |}, notices).

(** [Core::handle]: one input, and the effects for the shell to execute; [None]
    is the panic of [PortForwarding::handle]. *)
Definition handle (self : Core) (occurred_at : ClockReading) (event : Event)
    : option (Core * list Action) :=
  let '(self, notices) := begin_step self event in
  let before := glance self in
  '(self, handled) ← handle_event self occurred_at event;
  let '(self, settled) := settle_step self occurred_at in
  let '(self, notified) := notify_step self occurred_at before notices in
  Some (self, handled ++ settled ++ notified).

(** A run of the core over timed events, with every action in order beside the
    time of the step that asked for it. *)
Fixpoint run (self : Core) (events : list TimedEvent)
    : option (Core * list (ClockReading * Action)) :=
  match events with
  | [] => Some (self, [])
  | e :: events =>
      '(self, actions) ← handle self (occurred_at e) (timed_event e);
      '(self, more) ← run self events;
      Some (self, ((occurred_at e,.) <$> actions) ++ more)
  end.

(** The cores a program run can reach: from [new], over fewer events than would
    wrap a 64-bit counter of two per event. *)
Definition reachable (self : Core) : Prop :=
  ∃ events actions, run new events = Some (self, actions)
    ∧ 2 * (Z.of_nat (length events) + 1) ≤ u64_max.
