(* ===== verification/Shell.v ===== *)
(** * The shell and the runner

    The event queue, the jobs under way and the history writer around the core
    ([shell/mod.rs], [shell/ingress.rs], [runner.rs]): the runner takes events from the
    queue, has the core handle them, and dispatches what the core asks for, while
    producers, timers, jobs and the history writer go at their own pace. *)

From S2P Require Import Prelude Values Vocabulary MamApi Messages.
From S2P Require Import Describe.
From S2P Require Import NoticeWords.
From S2P Require Import HistoryWriter Rows Storage QbittorrentClient Jobs Core.
Import Ingress.

Definition EVENT_QUEUE_CAPACITY : Z := 64.

(** ** State *)

Definition timer_number (name : TimerName) : nat :=
  match name with
  | TimerName_QbittorrentPoll => 0
  | TimerName_PortLease => 1
  | TimerName_TunnelCheck => 2
  | TimerName_NotificationGrace => 3
  | TimerName_NotificationRetry => 4
  | TimerName_Mam => 5
  end.
Definition timer_of (n : nat) : TimerName :=
  match n with
  | 0 => TimerName_QbittorrentPoll
  | 1 => TimerName_PortLease
  | 2 => TimerName_TunnelCheck
  | 3 => TimerName_NotificationGrace
  | 4 => TimerName_NotificationRetry
  | _ => TimerName_Mam
  end%nat.
#[global] Instance TimerName_countable : Countable TimerName.
Proof. refine (inj_countable' timer_number timer_of _). by intros []. Defined.

Record Shell (V : Type) := mkShell {
  ingress_state : IngressState;
  queue : list Input;
  active_workers : Z;
  latest_storage_error : option string;
  (** What is under way: jobs, completions waiting for room in the queue, timers, the
      commands sent to the history writer, and the writer with its results. *)
  running : list Job;
  finished : list Input;
  timers : gmap TimerName (TimerId * Deadline);
  commands : list Command;
  writer : Writer;
  (** The tables on the disk, but for the history. *)
  database : option (Database V);
}.
Arguments mkShell {V}.
Arguments ingress_state {V}. Arguments queue {V}. Arguments active_workers {V}.
Arguments latest_storage_error {V}. Arguments running {V}. Arguments finished {V}.
Arguments timers {V}. Arguments commands {V}. Arguments writer {V}. Arguments database {V}.

(** What [Shell::next_event] comes to; [Next_Waiting] awaits the next input. *)
Inductive Next :=
  | Next_Event (event : TimedEvent)
  | Next_End
  | Next_Error (error : JoinError)
  | Next_Waiting.

Record Runner (V : Type) := mkRunner {
  core : Core;
  shell : Shell V;
}.
Arguments mkRunner {V}.
Arguments core {V}. Arguments shell {V}.

(** What happens around the runner. *)
Inductive Happening :=
  | Happening_Send (event : TimedEvent)
  | Happening_Shutdown
  | Happening_Expire (name : TimerName) (clock : ClockReading)
  | Happening_Finish (i : nat) (outside : Outside)
  | Happening_Deliver (i : nat)
  | Happening_Write
  | Happening_Report.

Definition room {V} (self : Shell V) : bool :=
  Z.of_nat (length (queue self)) <? EVENT_QUEUE_CAPACITY.
Definition enqueue {V} (self : Shell V) (input : Input) : Shell V :=
  {| self with queue := queue self ++ [input] |}.

Section shell.
Context {V : Type} `{Columns V, EqDecision V}.
Context `{!Rfc3339} (urls : UrlLibrary) (lib : Library) (mam_lib : MamClient.MamLibrary).
Context (integrations : Integrations).
Context (format : Format) (disk : Disk).
Implicit Types self : Shell V.

Definition new_shell (file : option (Database V)) (before : HistoryTable) : Shell V :=
  mkShell IngressState_Open [] 0 None [] [] ∅ [] (start before) file.

(** ** The runner's side *)

(** The loop of [next_event] over the inputs in the queue. *)
Fixpoint receive self (inputs : list Input) : Shell V * Next :=
  let self := {| self with queue := inputs |} in
  if (ingress_state self ==? IngressState_Closing) && (active_workers self =? 0) && is_empty inputs
  then (self, Next_End)
  else match inputs with
  | [] => (self, Next_Waiting)
  | Input_Event event :: rest => ({| self with queue := rest |}, Next_Event event)
  | Input_Completed result :: rest =>
      let self := {| self with queue := rest; active_workers := active_workers self - 1 |} in
      match result with
      | Err error => (self, Next_Error error)
      | Ok completion =>
          let self :=
            match completion_storage_error completion with
            | Some error => {| self with latest_storage_error := Some error |}
            | None => self
            end in
          (self, Next_Event (completion_event completion))
      end
  | Input_Shutdown :: rest =>
      receive {| self with ingress_state := IngressState_Closing |} rest
  end.

Definition next_event self : Shell V * Next := receive self (queue self).

Definition record_entry self (entry : HistoryEntry) : Shell V :=
  {| self with commands := commands self ++ [Command_Record entry] |}.

(** [dispatch]: a new timer replaces the one of its name. *)
Definition dispatch self (action : Action) : Shell V :=
  match task_of action with
  | Task_History command =>
      {| self with active_workers := active_workers self + 1;
                   commands := commands self ++ [command] |}
  | Task_Timer name id deadline =>
      {| self with timers := <[name := (id, deadline)]> (timers self) |}
  | Task_Job job =>
      {| self with active_workers := active_workers self + 1; running := running self ++ [job] |}
  end.

(** One round of [Runner::run]; [None] is a panic of the core. *)
Definition turn (runner : Runner V) (processed_at : SystemTime) : option (Runner V * Next) :=
  let '(shell, next) := next_event (shell runner) in
  match next with
  | Next_Event event =>
      '(core, actions) ← Core.handle (core runner) (occurred_at event) (timed_event event);
      let entry := mkHistoryEntry (wall (occurred_at event)) processed_at (timed_event event) actions in
      let shell := fold_left dispatch actions (record_entry shell entry) in
      Some (mkRunner core shell, next)
  | _ => Some (mkRunner (core runner) shell, next)
  end.

(** ** The other side *)

(** [EventSender::send_timed]; nothing is sent once shutdown was requested. *)
Definition send_timed self (event : TimedEvent) : option (Shell V) :=
  if room self && (ingress_state self ==? IngressState_Open)
  then Some (enqueue self (Input_Event event)) else None.

(** [EventSender::shutdown] *)
Definition shutdown self : option (Shell V) :=
  if room self then
    Some (enqueue {| self with ingress_state := IngressState_Closing |} Input_Shutdown)
  else None.

(** A timer whose deadline passed sends its expiry. *)
Definition expire self (name : TimerName) (clock : ClockReading) : option (Shell V) :=
  '(id, deadline) ← timers self !! name;
  if room self && (deadline_at deadline <=? monotonic clock)
  then Some (enqueue {| self with timers := delete name (timers self) |}
               (Input_Event (mkTimedEvent clock (Event_TimerExpired name id))))
  else None.

Definition remove_nth {A} (i : nat) (l : list A) : list A := take i l ++ drop (S i) l.

(** A job ends: its completion waits for room. *)
Definition finish self (i : nat) (outside : Outside) : option (Shell V) :=
  job ← running self !! i;
  let '(database, event, error) := work urls lib mam_lib integrations outside (database self) job in
  let completion := mkWorkerCompletion (mkTimedEvent (clock outside) event) error in
  Some {| self with running := remove_nth i (running self); database := database;
                    finished := finished self ++ [Input_Completed (Ok completion)] |}.

Definition deliver self (i : nat) : option (Shell V) :=
  input ← finished self !! i;
  if room self then Some (enqueue {| self with finished := remove_nth i (finished self) |} input)
  else None.

(** The history writer takes a command when it has sent the results of the last. *)
Definition write self : option (Shell V) :=
  match commands self, results (writer self) with
  | command :: rest, [] =>
      Some {| self with commands := rest;
                        writer := HistoryWriter.handle format disk (writer self) command |}
  | _, _ => None
  end.

Definition report_result self : option (Shell V) :=
  match results (writer self) with
  | input :: rest =>
      let w := writer self in
      if room self then Some (enqueue {| self with writer := {| w with results := rest |} |} input)
      else None
  | [] => None
  end.

Definition happen self (h : Happening) : option (Shell V) :=
  match h with
  | Happening_Send event => send_timed self event
  | Happening_Shutdown => shutdown self
  | Happening_Expire name clock => expire self name clock
  | Happening_Finish i outside => finish self i outside
  | Happening_Deliver i => deliver self i
  | Happening_Write => write self
  | Happening_Report => report_result self
  end.

(** [Shell::finish]: timers stop, and the writer takes every command that was sent. *)
Definition finish_shell self : Shell V :=
  {| self with timers := ∅; commands := [];
               writer := HistoryWriter.run format disk (writer self) (commands self) |}.

(** The states a run can reach: the runner takes a turn, which is not its last, or
    something happens. *)
Inductive reached (file : option (Database V)) (before : HistoryTable) : Runner V → Prop :=
  | reached_start : reached file before (mkRunner Core.new (new_shell file before))
  | reached_turn runner processed_at runner' event :
      reached file before runner →
      turn runner processed_at = Some (runner', Next_Event event) →
      reached file before runner'
  | reached_happening runner h shell' :
      reached file before runner → happen (shell runner) h = Some shell' →
      reached file before (mkRunner (core runner) shell').
End shell.

(** ** Work accounted for *)

Definition tracked (l : list Command) : nat := length (List.filter is_tracked l).

(** The work whose completion the runner has not taken. *)
Definition outstanding {V} (self : Shell V) : nat :=
  (length (running self) + length (finished self) + completions (queue self)
   + tracked (commands self) + completions (results (writer self)))%nat.

Definition came_back (input : Input) : Prop :=
  match input with Input_Completed (Ok _) => True | _ => False end.
Definition no_panic (input : Input) : Prop :=
  match input with Input_Completed (Err _) => False | _ => True end.

Definition accounted {V} (self : Shell V) : Prop :=
  active_workers self = Z.of_nat (outstanding self) ∧
  Forall came_back (finished self) ∧ Forall no_panic (queue self) ∧
  Forall no_panic (results (writer self)).

Lemma tracked_app l k : tracked (l ++ k) = (tracked l + tracked k)%nat.
Proof. unfold tracked. by rewrite List.filter_app, length_app. Qed.

Lemma quiet_no_panic l : quiet l → Forall no_panic l.
Proof. apply List.Forall_impl. by intros [|[]|]. Qed.

Lemma remove_nth_length {A} i (l : list A) x :
  l !! i = Some x → length l = S (length (remove_nth i l)).
Proof.
  intros Hi. pose proof (lookup_lt_Some _ _ _ Hi). unfold remove_nth.
  rewrite length_app, length_take, length_drop. lia.
Qed.
Lemma remove_nth_Forall {A} (P : A → Prop) i l : Forall P l → Forall P (remove_nth i l).
Proof. intros. apply Forall_app. split; [by apply Forall_take|by apply Forall_drop]. Qed.

Section accounts.
Context {V : Type} `{Columns V, EqDecision V}.
Context `{!Rfc3339} (urls : UrlLibrary) (lib : Library) (mam_lib : MamClient.MamLibrary).
Context (integrations : Integrations).
Context (format : Format) (disk : Disk).
Implicit Types self : Shell V.

Ltac account :=
  unfold accounted, outstanding in *; simpl in *;
  rewrite ?completions_app, ?completions_cons, ?tracked_app, ?length_app, ?Forall_app; simpl;
  change (completions []) with 0%nat;
  split_and!; try done; try by repeat constructor; try lia.

Lemma record_accounted self entry : accounted self → accounted (record_entry self entry).
Proof. intros (Ha & Hf & Hq & Hw). account. unfold tracked at 2. simpl. lia. Qed.

Lemma dispatch_accounted self action : accounted self → accounted (dispatch self action).
Proof.
  intros (Ha & Hf & Hq & Hw). unfold dispatch.
  destruct (task_of action) as [command|name id deadline|job] eqn:E; account.
  assert (tracked [command] = 1%nat) as ->
    by (destruct action; try discriminate E; by injection E as <-). lia.
Qed.

Lemma dispatch_all_accounted self actions :
  accounted self → accounted (fold_left dispatch actions self).
Proof.
  revert self. induction actions as [|a actions IH]; intros self Hself; simpl; [done|].
  by apply IH, dispatch_accounted.
Qed.

Lemma handle_no_panic w command :
  Forall no_panic (results w) → Forall no_panic (results (HistoryWriter.handle format disk w command)).
Proof.
  intros Hw. destruct (is_tracked command) eqn:E.
  - destruct (handle_tracked format disk w command E) as (reports & at_ & event & error & -> & Hq & _).
    rewrite !Forall_app. split_and!; [done|by apply quiet_no_panic|by repeat constructor].
  - destruct command as [e| |]; try done. simpl. repeat case_match; simpl; try done.
    destruct (record_reports format disk w e) as (reports & -> & Hq).
    rewrite Forall_app. split; [done|by apply quiet_no_panic].
Qed.

(** Whatever happens, the work under way stays accounted for. *)
Lemma happen_accounted self h self' :
  accounted self → happen urls lib mam_lib integrations format disk self h = Some self' →
  accounted self'.
Proof.
  intros (Ha & Hf & Hq & Hw) Hh. destruct h as [event| |name clock|i outside|i| |]; simpl in Hh.
  - unfold send_timed in Hh. case_match; simplify_eq. account.
  - unfold shutdown in Hh. case_match; simplify_eq. account.
  - unfold expire in Hh. bind_inv. destruct x as [id deadline]. case_match; simplify_eq.
    account.
  - unfold finish in Hh. destruct (running self !! i) as [job|] eqn:Hi; [|done]. cbn in Hh.
    destruct (work _ _ _ _ _ _ _) as [[file event] error]. simplify_eq.
    pose proof (remove_nth_length _ _ _ Hi). account.
  - unfold deliver in Hh. destruct (finished self !! i) as [x|] eqn:Hi; [|done]. cbn in Hh.
    case_match; simplify_eq. pose proof (remove_nth_length _ _ _ Hi).
    assert (Hx : came_back x) by (by eapply Forall_lookup_1 in Hi).
    destruct x as [|[]|]; try done. account. by apply remove_nth_Forall.
  - unfold write in Hh. destruct (commands self) as [|command rest] eqn:Ec; [done|].
    destruct (results (writer self)) eqn:Er; simplify_eq.
    pose proof (handle_completions format disk (writer self) command) as Hc.
    pose proof (handle_no_panic (writer self) command ltac:(by rewrite Er)) as Hn.
    set (w := HistoryWriter.handle format disk (writer self) command) in *. clearbody w.
    unfold outstanding, tracked in Ha. rewrite Er in Hc, Ha. rewrite Ec in Ha. account.
    unfold tracked in *. simpl in *. change (completions []) with 0%nat in Ha.
    destruct (is_tracked command); simpl in *; lia.
  - unfold report_result in Hh. destruct (results (writer self)) as [|input rest] eqn:Er; [done|].
    case_match; simplify_eq. unfold outstanding in Ha. rewrite Er, completions_cons in Ha.
    apply Forall_cons_1 in Hw as [Hi Hw]. account.
Qed.

(** The runner takes what [receive] gives it; only the queue's inputs are consumed. *)
Lemma receive_accounted self inputs self' next :
  accounted {| self with queue := inputs |} → receive self inputs = (self', next) →
  accounted self' ∧ (∀ error, next ≠ Next_Error error) ∧
  (next = Next_End → queue self' = [] ∧ active_workers self' = 0) ∧
  (next = Next_Waiting → queue self' = [] ∧
     (ingress_state self' = IngressState_Closing → active_workers self' ≠ 0)).
Proof.
  revert self. induction inputs as [|input rest IH]; intros self Hself; simpl.
  - destruct (_ && _) eqn:E; intros [= <- <-]; (split; [exact Hself|]); split_and!; try done.
    + intros _. simpl. reflect_bools. split; [done|lia].
    + intros _. split; [done|]. simpl. intros Hc Hz. rewrite Hc, Hz in E. done.
  - rewrite andb_false_r. destruct input as [event|[completion|error]|].
    + intros [= <- <-]. split_and!; try done.
      destruct Hself as (Ha & Hf & Hq & Hw). unfold outstanding in Ha. simpl in *.
      rewrite completions_cons in Ha. apply Forall_cons_1 in Hq as [_ Hq]. account.
    + intros [= <- <-]. split_and!; try done.
      destruct Hself as (Ha & Hf & Hq & Hw). unfold outstanding in Ha. simpl in *.
      rewrite completions_cons in Ha. apply Forall_cons_1 in Hq as [_ Hq].
      destruct (completion_storage_error completion); account.
    + destruct Hself as (_ & _ & Hq & _). simpl in Hq. by apply Forall_cons_1 in Hq as [[] _].
    + intros Hr. eapply IH in Hr; [exact Hr|].
      destruct Hself as (Ha & Hf & Hq & Hw). unfold outstanding in Ha. simpl in *.
      rewrite completions_cons in Ha. apply Forall_cons_1 in Hq as [_ Hq]. account.
Qed.

Lemma next_event_accounted self self' next :
  accounted self → next_event self = (self', next) →
  accounted self' ∧ (∀ error, next ≠ Next_Error error) ∧
  (next = Next_End → queue self' = [] ∧ active_workers self' = 0) ∧
  (next = Next_Waiting → queue self' = [] ∧
     (ingress_state self' = IngressState_Closing → active_workers self' ≠ 0)).
Proof. intros Hself. apply receive_accounted. by destruct self. Qed.

Lemma reached_accounted (file : option (Database V)) before runner :
  reached urls lib mam_lib integrations format disk file before runner → accounted (shell runner).
Proof.
  induction 1 as [|runner at_ runner' event Hr IH Ht|runner h shell' Hr IH Hh].
  - by split_and!; simpl; try constructor.
  - unfold turn in Ht. destruct (next_event (shell runner)) as [s next] eqn:En.
    destruct (next_event_accounted _ _ _ IH En) as [Hs _].
    destruct next; simplify_eq. bind_inv. destruct x as [c actions]. simplify_eq/=.
    by apply dispatch_all_accounted, record_accounted.
  - by eapply happen_accounted.
Qed.

(** What work under way does, apart from producers and timers. *)
Definition is_work (h : Happening) : bool :=
  match h with
  | Happening_Finish _ _ | Happening_Deliver _ | Happening_Write | Happening_Report => true
  | _ => false
  end.

Lemma work_goes_on self (outside : Outside) :
  accounted self → queue self = [] → active_workers self ≠ 0 →
  ∃ h self', is_work h = true ∧ happen urls lib mam_lib integrations format disk self h = Some self'.
Proof.
  intros (Ha & Hf & Hq & Hw) Hempty Hactive.
  assert (Hroom : room self = true) by (unfold room; by rewrite Hempty).
  destruct (running self) as [|job jobs] eqn:Er.
  2: { exists (Happening_Finish 0 outside). simpl. unfold finish. rewrite Er. cbn.
       destruct (work _ _ _ _ _ _ _) as [[file event] error]. eauto. }
  destruct (finished self) as [|input inputs] eqn:Ef.
  2: { exists (Happening_Deliver 0). simpl. unfold deliver. rewrite Ef. cbn. rewrite Hroom. eauto. }
  destruct (results (writer self)) as [|input inputs] eqn:Ew.
  2: { exists Happening_Report. simpl. unfold report_result. rewrite Ew, Hroom. eauto. }
  exists Happening_Write. simpl. unfold write. rewrite Ew.
  destruct (commands self) as [|command rest] eqn:Ec; [|eauto].
  unfold outstanding in Ha. rewrite Er, Ef, Ew, Ec, Hempty in Ha. done.
Qed.
End accounts.

(** ** Properties *)

(** C9: in every run the runner never loses a worker, and its count of them is the
    work under way; the event stream ends only when no job, no completion, no command
    with an answer and no input is left; and until then, once shutdown was requested,
    whenever the runner waits there is work that can go on, so it never waits for
    nothing. *)
Theorem shutdown_waits_for_all_work {V} `{Columns V, EqDecision V, !Rfc3339} urls lib mam_lib integrations format
    disk (file : option (Database V)) before runner processed_at runner' next
    (outside : Outside) :
  reached urls lib mam_lib integrations format disk file before runner →
  turn runner processed_at = Some (runner', next) →
  let s := shell runner' in
  (∀ error, next ≠ Next_Error error) ∧
  active_workers s = Z.of_nat (outstanding s) ∧
  (next = Next_End →
     running s = [] ∧ finished s = [] ∧ queue s = [] ∧ tracked (commands s) = 0%nat ∧
     completions (results (writer s)) = 0%nat) ∧
  (next = Next_Waiting → ingress_state s = IngressState_Closing →
     ∃ h s', is_work h = true ∧ happen urls lib mam_lib integrations format disk s h = Some s').
Proof.
  intros Hr Ht s. apply reached_accounted in Hr. unfold turn in Ht.
  destruct (next_event (shell runner)) as [s1 n] eqn:En.
  destruct (next_event_accounted _ _ _ Hr En) as (Hs & Herror & Hend & Hwait).
  assert (Hkept : accounted s ∧ next = n ∧ ((∃ e, n = Next_Event e) ∨ s = s1)).
  { unfold s. destruct n; simplify_eq/=; [|by eauto..].
    bind_inv. destruct x as [c actions]. simplify_eq/=. split_and!; [|done|eauto].
    by apply dispatch_all_accounted, record_accounted. }
  destruct Hkept as (Hkept & -> & Hsame). split_and!; [done|apply Hkept|..].
  - intros ->. destruct Hsame as [[]| ->]; [done|]. destruct Hend as [Hq Hz]; [done|].
    destruct Hs as (Ha & _). rewrite Hz in Ha. unfold outstanding in Ha. rewrite Hq in Ha.
    change (completions []) with 0%nat in Ha.
    split_and!; [by apply length_zero_iff_nil; lia|by apply length_zero_iff_nil; lia|done|lia|lia].
  - intros -> Hclosing.
    destruct Hsame as [[]|Heq]; [done|]. rewrite Heq in *. destruct Hwait as [Hq Hactive]; [done|].
    apply work_goes_on; [done|done|done|by apply Hactive].
Qed.

(** ** A run *)

Definition sample_outside : Outside := {|
  socket_bound := false;
  udp_attempt := λ _ _ _, NatPmp.mkAttempt false None;
  tcp_attempt := λ _ _ _, NatPmp.mkAttempt false None;
  web_ui_answer := λ _ _, NoResponse; service_answer := NoResponse; starter_status := None;
  ntfy_answer := λ _, NoResponse;
  mam_answer := λ _, None;
  disk_carries_out := true; disk_error := "disk I/O error";
  clock := mkClockReading (from_secs 2) (from_secs 1_800_000_002);
|}%string.
Definition no_integrations : Integrations := mkIntegrations None None None None None None None.
Definition sample_mam_library : MamClient.MamLibrary :=
  MamClient.mkMamLibrary (λ _, None) (λ _, None) (λ host path, Some (host +:+ path)%string) (λ x, x).
Definition sample_urls : UrlLibrary := mkUrlLibrary Some (λ base path, Some (base +:+ path)%string) (λ _, None).
#[local] Instance sample_rfc3339 : Rfc3339 := λ _, Some "2027-01-15T08:00:01Z"%string.

(** A new instance starts, and is shut down before the database is made. *)
Definition sample_start : TimedEvent :=
  mkTimedEvent (mkClockReading (from_secs 1) (from_secs 1_800_000_001))
    (Event_Startup (StartupEvent_Start StartupMode_Initialise)).

Definition drive (runner : option (Runner SqliteValue)) (h : option Happening)
    : option (Runner SqliteValue) :=
  runner ← runner;
  match h with
  | Some h => mkRunner (core runner) <$>
      happen sample_urls sample_library sample_mam_library no_integrations sample_format (sample_disk (λ _, false))
        (shell runner) h
  | None => '(runner, next) ← turn runner (from_secs 1_800_000_001);
            match next with Next_Event _ => Some runner | _ => None end
  end.
Definition sample_happenings : list (option Happening) :=
  [Some (Happening_Send sample_start); None; Some Happening_Shutdown].
Definition sample_beginning : Runner SqliteValue :=
  mkRunner Core.new (new_shell None (mkHistoryTable [] 0)).

Local Abbreviation sample_reached :=
  (reached sample_urls sample_library sample_mam_library no_integrations sample_format (sample_disk (λ _, false))
     (None : option (Database SqliteValue)) (mkHistoryTable [] 0)).

Lemma drive_reached runner h runner' :
  sample_reached runner → drive (Some runner) h = Some runner' → sample_reached runner'.
Proof.
  intros Hr Hd. unfold drive in Hd. cbn in Hd. destruct h as [h|].
  - apply fmap_Some in Hd as (shell' & Hh & ->). by eapply reached_happening.
  - destruct (turn runner _) as [[r next]|] eqn:E; [|done]. cbn in Hd.
    destruct next; simplify_eq. by eapply reached_turn.
Qed.

Lemma drives_reached hs runner runner' :
  sample_reached runner → fold_left drive hs (Some runner) = Some runner' → sample_reached runner'.
Proof.
  revert runner. induction hs as [|h hs IH]; intros runner Hr Hd; cbn [fold_left] in Hd;
    [by simplify_eq|].
  destruct (drive (Some runner) h) as [r|] eqn:E.
  - eapply IH; [by eapply drive_reached|exact Hd].
  - exfalso. revert Hd. clear. by induction hs.
Qed.

(** Whether a runner waits while it shuts down. *)
Definition waits (runner : option (Runner SqliteValue)) : bool :=
  match runner with
  | Some runner =>
      match turn runner 0 with
      | Some (runner', Next_Waiting) =>
          ingress_state (shell runner') ==? IngressState_Closing
      | _ => false
      end
  | None => false
  end.
Lemma sample_waits : waits (fold_left drive sample_happenings (Some sample_beginning)) = true.
Proof. vm_compute. reflexivity. Qed.

Lemma waits_shape o : waits o = true →
  ∃ runner runner', o = Some runner ∧ turn runner 0 = Some (runner', Next_Waiting) ∧
    ingress_state (shell runner') = IngressState_Closing.
Proof.
  destruct o as [runner|]; simpl; [|done].
  destruct (turn runner 0) as [[runner' []]|] eqn:Et; try done.
  intros Hw%bool_decide_eq_true. by exists runner, runner'.
Qed.

Lemma sample_runner_reached :
  ∃ runner runner', sample_reached runner ∧ turn runner 0 = Some (runner', Next_Waiting) ∧
    ingress_state (shell runner') = IngressState_Closing.
Proof.
  destruct (waits_shape _ sample_waits) as (runner & runner' & Er & Et & Hc).
  exists runner, runner'. split; [|split; [exact Et|exact Hc]].
  exact (drives_reached sample_happenings sample_beginning runner (reached_start _ _ _ _ _ _ _ _) Er).
Qed.

(** The runner waits for the job that makes the database, which can end. *)
Lemma shutdown_waits_for_all_work_witness :
  ∃ runner runner', sample_reached runner ∧
    turn runner 0 = Some (runner', Next_Waiting) ∧
    ingress_state (shell runner') = IngressState_Closing ∧
    ∃ h s', is_work h = true ∧
      happen sample_urls sample_library sample_mam_library no_integrations sample_format
        (sample_disk (λ _, false)) (shell runner') h = Some s'.
Proof.
  destruct sample_runner_reached as (runner & runner' & Hreached & Et & Hc).
  destruct (shutdown_waits_for_all_work _ _ _ _ _ _ _ _ runner 0 runner' Next_Waiting sample_outside
    Hreached Et) as (_ & _ & _ & Hgo).
  exists runner, runner'. split; [exact Hreached|]. split; [exact Et|]. split; [exact Hc|].
  exact (Hgo eq_refl Hc).
Defined.
