(* ===== verification/CoreProofs.v ===== *)
(** * Properties of the core

    What a step of the whole core does to each component, and the guarantees
    that hold across them in every run. *)

From S2P Require Import Prelude Values Vocabulary MamApi Messages Timer MamPause Startup.
From S2P Require Import Settings History PortForwarding Tunnel Qbittorrent Registry Budget.
From S2P Require Import RatioGuard Network Account Acquisition Connectability Mam MamProofs.
From S2P Require Import Notifications Core.

#[local] Arguments Mam.decide : simpl never.
#[local] Arguments Mam.handle : simpl never.
#[local] Arguments mam_context : simpl never.

(** ** Only MAM work speaks to MAM *)

Ltac quiet := intros; repeat (case_match; simplify_eq/=); try done.

Lemma preference_update_quiet p u : guarded (preference_update p u).2 = [].
Proof. unfold preference_update. quiet; by destruct u as [[]|]. Qed.

Lemma update_mam_preference_quiet s u : guarded (update_mam_preference s u).2 = [].
Proof.
  destruct s as [| | |p|]; try done. pose proof (preference_update_quiet p u) as Hq.
  simpl. by destruct (preference_update p u).
Qed.

Lemma complete_quiet s r : guarded (complete s r).2 = [].
Proof.
  destruct s as [| | |p|]; try done. simpl.
  assert (guarded (preference_complete p r).2 = []) as Hq.
  { unfold preference_complete. repeat (case_match; try done); apply preference_update_quiet. }
  by destruct (preference_complete p r).
Qed.

Lemma pause_quiet s now ev : guarded (MamPause.handle s now ev).2 = [].
Proof.
  destruct ev; simpl; try apply update_mam_preference_quiet; try apply complete_quiet;
    destruct s as [| |[u|]| |]; try done.
  apply (update_mam_preference_quiet (State_Ready _) u).
Qed.

Lemma startup_quiet s now ev : guarded (Startup.handle s now ev).2 = [].
Proof. unfold Startup.handle. quiet. Qed.

Lemma change_quiet st f :
  (∀ s, guarded (option_list (f s).2) = []) → guarded (change st f).2 = [].
Proof.
  intros Hf. unfold change. destruct st as [| |s|]; try done.
  specialize (Hf s). by destruct (f s).
Qed.

Lemma settings_quiet st ev : guarded (Settings.handle st ev).2 = [].
Proof.
  destruct ev; simpl; try (by destruct st);
    apply change_quiet; intros s;
    unfold on_history_limit, on_api_cookie, on_ntfy_topic, on_points_reserve, on_torrent_limits;
    by match goal with |- context [let '(_, _) := ?e in _] => destruct e as [? []] end.
Qed.

Lemma rotate_quiet st c : guarded (rotate st c).2 = [].
Proof.
  apply change_quiet. intros s.
  by match goal with |- context [let '(_, _) := ?e in _] => destruct e as [? [[]|]] end.
Qed.

Lemma pf_handle_quiet pf now ev timers pf' timers' acts :
  PortForwarding.handle pf now ev timers = Some (pf', timers', acts) → guarded acts = [].
Proof.
  unfold PortForwarding.handle, PortForwarding.wait, schedule. intros H.
  destruct pf, ev; simplify_eq; try done; repeat (case_match; simplify_eq/=; try done).
  destruct (duration_mul _ _); by simplify_eq/=.
Qed.

Lemma pf_timer_quiet pf id : guarded (PortForwarding.timer_expired pf id).2 = [].
Proof. unfold PortForwarding.timer_expired. quiet. Qed.
Lemma renew_quiet pf : guarded (renew pf).2 = [].
Proof. unfold renew. quiet. Qed.

Lemma tunnel_handle_quiet t now ev timers : guarded (Tunnel.handle t now ev timers).2 = [].
Proof.
  unfold Tunnel.handle, Tunnel.wait, schedule, fail_over, check_now.
  destruct (tunnel_watch t), ev; quiet.
Qed.
Lemma tunnel_timer_quiet t now id : guarded (Tunnel.timer_expired t now id).2 = [].
Proof. unfold Tunnel.timer_expired, check_now. quiet. Qed.
Lemma suspect_quiet t now : guarded (suspect t now).2 = [].
Proof. unfold suspect, check_now. quiet. Qed.

Lemma qbittorrent_handle_quiet q now ev timers :
  guarded (Qbittorrent.handle q now ev timers).2 = [].
Proof.
  unfold Qbittorrent.handle, failed, Qbittorrent.wait, schedule. destruct q, ev; quiet.
Qed.
Lemma qbittorrent_timer_quiet q id : guarded (Qbittorrent.timer_expired q id).2 = [].
Proof. unfold Qbittorrent.timer_expired. quiet. Qed.

Lemma set_preferences_quiet s w s' acts :
  set_preferences s w = (s', Some acts) → guarded acts = [].
Proof. unfold set_preferences. quiet. Qed.

(** What the rest of the program sees of a session: all but the request
    outstanding. *)
Definition session_view (s : Qbittorrent.Session) :=
  (session_version s, session_approval s, session_preferences s, session_torrents s,
   session_listing s).
Definition qbittorrent_view (q : Qbittorrent) :=
  match q with Qbittorrent_Connected s => Some (session_view s) | _ => None end.

#[local] Arguments session_view : simpl never.

Lemma set_preferences_view s w : session_view (set_preferences s w).1 = session_view s.
Proof. unfold set_preferences. quiet. Qed.
Lemma set_preferences_none s w s' : set_preferences s w = (s', None) → s' = s.
Proof. unfold set_preferences. quiet. Qed.

(** A decision keeps the session in view, calls the closure only after an
    update, and asks for the command the closure gave. *)
Lemma qbittorrent_decide_spec {C} q now timers w (x : C) f q' timers' x' acts :
  Qbittorrent.decide q now timers w x f = (q', timers', x', acts) →
  qbittorrent_view q' = qbittorrent_view q
  ∧ (guarded acts = [] ∧ (x' = x ∨ ∃ s, x' = (f x s).1)
     ∨ ∃ s cmd, deciding q = Some (s, DecidingAfter_Sync) ∧ f x s = (x', Some cmd)
         ∧ guarded acts = [Action_QbittorrentCommand cmd]).
Proof.
  unfold Qbittorrent.decide, Qbittorrent.wait, schedule. intros.
  destruct (deciding q) as [[s after]|] eqn:Ed; [|by simplify_eq; eauto].
  assert (qbittorrent_view q = Some (session_view s)) as ->.
  { destruct q as [| | |s0]; try done. simpl in Ed. by destruct (session_activity s0); simplify_eq. }
  pose proof (set_preferences_view s w) as Hv.
  destruct (set_preferences s w) as [s1 [a|]] eqn:Es; simplify_eq.
  - simpl in Hv. split; [unfold qbittorrent_view, session_view; congruence|]. left. split; [|by left].
    by eapply set_preferences_quiet.
  - apply set_preferences_none in Es as ->. destruct after; simplify_eq/=; [|by auto].
    destruct (f x s) as [x1 [cmd|]] eqn:Ef; simplify_eq/=.
    + split; [done|]. right. eauto.
    + assert (x1 = (f x s).1) as -> by (by rewrite Ef).
      case_match; simplify_eq/=; split; try done; left; eauto.
Qed.

Lemma follow_preferences_view q w : qbittorrent_view (follow_preferences q w).1 = qbittorrent_view q.
Proof.
  unfold follow_preferences. destruct q as [| | |s]; try done. destruct (session_activity s); try done.
  pose proof (set_preferences_view s w). destruct (set_preferences s w) as [s1 a]; simpl in *.
  congruence.
Qed.
Lemma follow_preferences_quiet q w : guarded (follow_preferences q w).2 = [].
Proof.
  unfold follow_preferences. destruct q as [| | |s]; try done. destruct (session_activity s); try done.
  destruct (set_preferences s w) as [s1 [a|]] eqn:Es; [|done]. by eapply set_preferences_quiet.
Qed.

Lemma registry_handle_quiet r now ev : guarded (Registry.handle r now ev).2 = [].
Proof.
  unfold Registry.handle. destruct r as [| | |r], ev; try done.
  - unfold redownload. destruct (opt_filter _ _); [|done].
    destruct (save _ _) eqn:E. by apply save_quiet in E.
  - destruct (is_some _); [|done]. destruct (save _ _) eqn:E. by apply save_quiet in E.
  - by destruct (rec_saving r).
Qed.
Lemma registry_observe_quiet r now s : guarded (Registry.observe r now s).2 = [].
Proof.
  unfold Registry.observe, Records_observe. destruct r as [| | |r]; try done. case_match; [|done].
  destruct (save _ _) eqn:E. by apply save_quiet in E.
Qed.

(** What commands do not change of the registry: its rows. *)
Definition records_rows (r : Records) := (rec_entries r, rec_by_hash r, rec_by_mam r).
Definition registry_rows (r : Registry) := records_rows <$> Registry.loaded r.

Lemma registry_command_rows r now s f : registry_rows (Registry.command r now s f).1 = registry_rows r.
Proof.
  unfold Registry.command, Records_command. destruct r as [| | |r]; try done.
  destruct (Qbittorrent.listed s); [|done]. destruct (reconcile r s f); [|done]. by destruct (is_some_and _ _).
Qed.

(** A command is what reconciliation wants of a listed session. *)
Lemma registry_command_spec r now s f r' cmd :
  Registry.command r now s f = (r', Some cmd) →
  Qbittorrent.listed s = true ∧ ∃ rs, Registry.loaded r = Some rs ∧ reconcile rs s f = Some cmd.
Proof.
  unfold Registry.command, Records_command. destruct r as [| | |r]; try done.
  destruct (Qbittorrent.listed s) eqn:El; [|done]. destruct (reconcile r s f) eqn:Er; [|done].
  destruct (is_some_and _ _); [done|]. intros; simplify_eq. eauto.
Qed.

Lemma history_quiet h step limit : guarded (History.after_step h step limit).2 = [].
Proof. unfold History.after_step. quiet. Qed.

Lemma record_quiet n at_ notice : guarded (option_list (record n at_ notice).2) = [].
Proof. unfold record. quiet. Qed.
Lemma record_all_quiet n l : guarded (record_all n l).2 = [].
Proof.
  revert n. induction l as [|[at_ notice] l IH]; intros n; [done|]. simpl.
  pose proof (record_quiet n at_ notice) as Hq. destruct (record n at_ notice) as [n1 a1].
  specialize (IH n1). destruct (record_all n1 l) as [n2 a2]. simpl in *.
  by rewrite guarded_app, Hq, IH.
Qed.
Lemma notifications_handle_quiet n now ev timers :
  guarded (Notifications.handle n now ev timers).2 = [].
Proof.
  destruct ev as [| |r|last| | |]; simpl; try done; [by destruct (not_delivery n)..|].
  destruct (not_log n) as [waiting| |]; try done.
  match goal with |- context [record_all ?n ?l] => pose proof (record_all_quiet n l) as Hq end.
  by destruct (record_all _ _).
Qed.
Lemma notifications_after_step_quiet n now happened facts st timers :
  guarded (Notifications.after_step n now happened facts st timers).2 = [].
Proof.
  unfold Notifications.after_step. destruct (track_all _ _ _) as [n1 notices].
  pose proof (record_all_quiet n1 ((wall now,.) <$> (notices ++ happened))) as Hq.
  destruct (record_all _ _) as [n2 saves]. simpl in Hq.
  assert (guarded (schedule_grace n2 (monotonic now) timers).2 = []) as Hg.
  { unfold schedule_grace, schedule. quiet. }
  destruct (schedule_grace _ _ _) as [[n3 timers3] grace]. simpl in Hg.
  assert (guarded (Notifications.send n3 st).2 = []) as Hs.
  { unfold Notifications.send. quiet. }
  destruct (Notifications.send _ _) as [n4 sends]. simpl in *.
  by rewrite !guarded_app, Hq, Hg, Hs.
Qed.

(** ** The step, taken apart *)

(** The core that handles the event. *)
Definition begun (c : Core) (ev : Event) : Core := (begin_step c ev).1.

Lemma begun_frame c ev :
  core_state (begun c ev) = core_state c
  ∧ core_settings (begun c ev) = core_settings c
  ∧ core_tunnel (begun c ev) = core_tunnel c
  ∧ core_mam (begun c ev) = core_mam c
  ∧ core_registry (begun c ev) = core_registry c
  ∧ core_qbittorrent (begun c ev) = core_qbittorrent c
  ∧ core_port_forwarding (begun c ev) = core_port_forwarding c
  ∧ core_timers (begun c ev) = core_timers c.
Proof. unfold begun, begin_step. by destruct (reported _ _). Qed.

(** The step's parts: the event's handler, the observation, the decision of MAM
    work and that of qBittorrent, and what of the result they determine. *)
Record step_parts (c : Core) (now : ClockReading) (ev : Event) (c' : Core) (acts : list Action)
    (c0 c1 : Core) (a0 : list Action) (m : Mam) (t : Timers) (a2 : list Action)
    (command : option TorrentCommand) : Prop :=
  mkStepParts {
    sp_event : handle_event (begun c ev) now ev = Some (c0, a0);
    sp_observe : (observe_step c0 now).1 = c1;
    sp_decide : Mam.decide (core_mam c1) now (mam_context c1) (core_timers c1) = (m, t, a2);
    sp_state : core_state c' = core_state c0;
    sp_settings : core_settings c' = core_settings c0;
    sp_tunnel : core_tunnel c' = core_tunnel c0;
    sp_mam : core_mam c' = {| m with mam_lease := LeaseRenewal_NotRequested; mam_notices := [] |};
    sp_rows : registry_rows (core_registry c') = registry_rows (core_registry c1);
    sp_view : qbittorrent_view (core_qbittorrent c') = qbittorrent_view (core_qbittorrent c1);
    sp_command : ∀ cmd, command = Some cmd →
      ∃ s rs, deciding (core_qbittorrent c1) = Some (s, DecidingAfter_Sync) ∧ Qbittorrent.listed s = true
        ∧ Registry.loaded (core_registry c1) = Some rs
        ∧ reconcile rs s (permits_download (core_mam c')) = Some cmd;
    sp_actions : guarded acts =
      guarded a0 ++ guarded a2 ++ option_list (Action_QbittorrentCommand <$> command);
  }.

Lemma observe_step_frame c now :
  core_state (observe_step c now).1 = core_state c
  ∧ core_settings (observe_step c now).1 = core_settings c
  ∧ core_tunnel (observe_step c now).1 = core_tunnel c
  ∧ core_mam (observe_step c now).1 = core_mam c
  ∧ core_qbittorrent (observe_step c now).1 = core_qbittorrent c
  ∧ core_timers (observe_step c now).1 = core_timers c
  ∧ guarded (observe_step c now).2 = [].
Proof.
  unfold observe_step; simpl.
  destruct (deciding (core_qbittorrent c)) as [[s []]|]; try done.
  pose proof (registry_observe_quiet (core_registry c) now s) as Hq.
  by destruct (Registry.observe _ _ _).
Qed.

Lemma decide_qbittorrent_frame c now c' acts :
  decide_qbittorrent c now = (c', acts) →
  core_state c' = core_state c ∧ core_settings c' = core_settings c
  ∧ core_tunnel c' = core_tunnel c ∧ core_mam c' = core_mam c
  ∧ core_port_forwarding c' = core_port_forwarding c
  ∧ registry_rows (core_registry c') = registry_rows (core_registry c)
  ∧ qbittorrent_view (core_qbittorrent c') = qbittorrent_view (core_qbittorrent c).
Proof.
  unfold decide_qbittorrent. destruct (Qbittorrent.decide _ _ _ _ _ _) as [[[q t] r] a] eqn:Eq.
  apply qbittorrent_decide_spec in Eq as [Hv Hr].
  match goal with |- context [follow_preferences q ?w] =>
    pose proof (follow_preferences_view q w) as Hf; destruct (follow_preferences q w) end.
  intros; simplify_eq/=. split_and!; try done; [|congruence].
  destruct Hr as [[_ [->|[s ->]]]|(s & cmd & _ & Hr & _)]; [done|apply registry_command_rows|].
  rewrite <-(registry_command_rows (core_registry c) (monotonic now) s
    (permits_download (core_mam c))). by rewrite Hr.
Qed.

Lemma decide_qbittorrent_command c now c' acts :
  decide_qbittorrent c now = (c', acts) →
  ∃ command, guarded acts = option_list (Action_QbittorrentCommand <$> command)
    ∧ ∀ cmd, command = Some cmd →
      ∃ s rs, deciding (core_qbittorrent c) = Some (s, DecidingAfter_Sync) ∧ Qbittorrent.listed s = true
        ∧ Registry.loaded (core_registry c) = Some rs
        ∧ reconcile rs s (permits_download (core_mam c)) = Some cmd.
Proof.
  unfold decide_qbittorrent. destruct (Qbittorrent.decide _ _ _ _ _ _) as [[[q t] r] a] eqn:Eq.
  apply qbittorrent_decide_spec in Eq as [_ Hr].
  match goal with |- context [follow_preferences q ?w] =>
    pose proof (follow_preferences_quiet q w) as Hf; destruct (follow_preferences q w) end.
  intros; simplify_eq/=. rewrite guarded_app, Hf, app_nil_r.
  destruct Hr as [[-> _]|(s & cmd & Hd & Hr & ->)]; [by exists None|]. exists (Some cmd).
  split; [done|]. intros ? [= <-]. apply registry_command_spec in Hr as (? & rs & ? & ?). eauto 6.
Qed.

Lemma notify_step_frame c now before notices c' acts :
  notify_step c now before notices = (c', acts) →
  core_state c' = core_state c ∧ core_settings c' = core_settings c
  ∧ core_tunnel c' = core_tunnel c ∧ core_mam c' = (take_notices (core_mam c)).1
  ∧ core_registry c' = core_registry c ∧ core_qbittorrent c' = core_qbittorrent c
  ∧ core_port_forwarding c' = core_port_forwarding c
  ∧ guarded acts = [].
Proof.
  unfold notify_step. simpl.
  match goal with |- context [Notifications.after_step ?n ?now ?h ?f ?s ?t] =>
    pose proof (notifications_after_step_quiet n now h f s t) as Hq;
    destruct (Notifications.after_step n now h f s t) as [[n1 t1] a1] end.
  intros; by simplify_eq/=.
Qed.

(** What of MAM work decides whether a download is permitted. *)
Lemma permits_download_frame m lease notices :
  permits_download {| m with mam_lease := lease; mam_notices := notices |} = permits_download m.
Proof. done. Qed.

Lemma handle_parts c now ev c' acts :
  handle c now ev = Some (c', acts) →
  ∃ c0 c1 a0 m t a2 command, step_parts c now ev c' acts c0 c1 a0 m t a2 command.
Proof.
  unfold handle. pose proof (eq_refl : begun c ev = (begin_step c ev).1) as Hb.
  destruct (begin_step c ev) as [cb notices]. simpl in Hb. subst cb.
  destruct (handle_event (begun c ev) now ev) as [[c0 a0]|] eqn:Eh; [|done]. simpl.
  destruct (settle_step c0 now) as [c2 settled] eqn:Es.
  destruct (notify_step c2 now _ notices) as [c3 notified] eqn:En. intros; simplify_eq.
  apply notify_step_frame in En as (Hst & Hse & Htu & Hma & Hre & Hqb & _ & Hqn).
  unfold settle_step in Es. pose proof (observe_step_frame c0 now) as Ho.
  destruct (observe_step c0 now) as [c1 observed] eqn:Eo. simpl in Ho.
  destruct Ho as (Ho1 & Ho2 & Ho3 & Ho4 & _ & _ & Hqo).
  unfold decide_mam in Es. destruct (Mam.decide _ _ _ _) as [[m t] a2] eqn:Ed. simpl in Es.
  match type of Es with (let '(_, _) := ?e in _) = _ => destruct e as [c4 renewed] eqn:Er end.
  assert (core_state c4 = core_state c1 ∧ core_settings c4 = core_settings c1
    ∧ core_tunnel c4 = core_tunnel c1
    ∧ core_mam c4 = {| m with mam_lease := LeaseRenewal_NotRequested |}
    ∧ core_registry c4 = core_registry c1 ∧ core_qbittorrent c4 = core_qbittorrent c1
    ∧ guarded renewed = []) as (Hr1 & Hr2 & Hr3 & Hr4 & Hr5 & Hr6 & Hqr).
  { destruct (mam_lease m); simplify_eq/=; [|done].
    pose proof (renew_quiet (core_port_forwarding c1)). by destruct (renew _); simplify_eq/=. }
  destruct (decide_qbittorrent c4 now) as [c5 commanded] eqn:Eq.
  pose proof Eq as (command & Hqc & Hcmd)%decide_qbittorrent_command.
  apply decide_qbittorrent_frame in Eq as (Hc1 & Hc2 & Hc3 & Hc4 & _ & Hc5 & Hc6).
  match type of Es with context [History.after_step ?h ?s ?l] =>
    pose proof (history_quiet h s l) as Hqh; destruct (History.after_step h s l) as [h1 a5] end.
  simplify_eq/=. exists c0, c1, a0, m, t, a2, command.
  assert (core_mam c' = {| m with mam_lease := LeaseRenewal_NotRequested; mam_notices := [] |}) as Hm'.
  { by rewrite Hma, Hc4, Hr4. }
  split.
  - done.
  - by rewrite Eo.
  - done.
  - by rewrite Hst, Hc1, Hr1.
  - by rewrite Hse, Hc2, Hr2.
  - by rewrite Htu, Hc3, Hr3.
  - done.
  - by rewrite Hre, Hc5, Hr5.
  - by rewrite Hqb, Hc6, Hr6.
  - intros cmd Hc. rewrite Hm', permits_download_frame. destruct (Hcmd cmd Hc) as (s & rs & H).
    rewrite Hr4, Hr5, Hr6 in H. by exists s, rs.
  - rewrite !guarded_app, Hqo, Hqr, Hqc, Hqh, Hqn. by rewrite !app_nil_r.
Qed.

(** The rows a step's commands leave are those of its decision. *)
Lemma final_rows r r' :
  registry_rows r' = registry_rows r →
  match Registry.loaded r', Registry.loaded r with
  | Some rows', Some rows => records_rows rows' = records_rows rows
  | None, None => True
  | _, _ => False
  end.
Proof.
  unfold registry_rows. destruct (Registry.loaded r'), (Registry.loaded r); simpl; try done.
  congruence.
Qed.

(** ** The link to MAM across a step *)

(** What an event of any component does to the link. *)
Definition link_event (l : Link) (now : Instant) (ev : Event) : Link * list Action :=
  match ev with
  | Event_Mam ev => link_handle l now ev
  | _ => (l, [])
  end.

Lemma handle_event_link c now ev c0 a0 :
  handle_event c now ev = Some (c0, a0) →
  (link (core_mam c0), guarded a0) = link_event (link (core_mam c)) (monotonic now) ev
  ∧ (∀ e, ev = Event_Mam e → core_state c0 = core_state c ∧ core_tunnel c0 = core_tunnel c).
Proof.
  destruct ev as [e|e|e|e|name id|e|e|e|e|e|e]; simpl; intros H.
  - split; [|done]. unfold handle_startup in H.
    pose proof (startup_quiet (core_state c) now e) as Hq.
    destruct (Startup.handle _ _ _) as [st a]. simpl in *.
    match type of H with Some (let '(_, _) := ?x in _) = _ =>
      assert (link (core_mam x.1) = link (core_mam c) ∧ guarded x.2 = []) as [Hl Ha] end.
    { destruct (core_state c), st; simpl; rewrite ?guarded_app, ?Hq; done. }
    match type of H with Some (let '(_, _) := ?x in _) = _ => destruct x as [c1 a1] end.
    cbn [fst snd] in Hl, Ha. by destruct st; injection H as <- <-; cbn; rewrite Hl, Ha.
  - split; [|done]. pose proof (pause_quiet (core_state c) now e).
    destruct (MamPause.handle _ _ _); simplify_eq/=; congruence.
  - split; [|done]. pose proof (settings_quiet (core_settings c) e).
    destruct (Settings.handle _ _); simplify_eq/=; congruence.
  - split; [|done]. by simplify_eq.
  - split; [|done]. destruct name.
    + pose proof (qbittorrent_timer_quiet (core_qbittorrent c) id).
      destruct (Qbittorrent.timer_expired _ _); simplify_eq/=; congruence.
    + pose proof (pf_timer_quiet (core_port_forwarding c) id).
      destruct (PortForwarding.timer_expired _ _); simplify_eq/=; congruence.
    + pose proof (tunnel_timer_quiet (core_tunnel c) now id).
      destruct (Tunnel.timer_expired _ _ _); simplify_eq/=; congruence.
    + by simplify_eq.
    + by simplify_eq.
    + simplify_eq/=. unfold Mam.timer_expired. by case_match.
  - split; [|done]. destruct (PortForwarding.handle _ _ _ _) as [[[pf t] a]|] eqn:E; [|done].
    apply pf_handle_quiet in E. simpl in H.
    destruct e; simplify_eq/=; try by rewrite E.
    pose proof (suspect_quiet (core_tunnel c) now) as Hq. destruct (suspect _ _).
    simplify_eq/=. by rewrite guarded_app, E, Hq.
  - split; [|done]. pose proof (qbittorrent_handle_quiet (core_qbittorrent c) now e (core_timers c)).
    destruct (Qbittorrent.handle _ _ _ _) as [[? ?] ?]; simplify_eq/=; congruence.
  - split; [|done]. pose proof (registry_handle_quiet (core_registry c) (monotonic now) e).
    destruct (Registry.handle _ _ _); simplify_eq/=; congruence.
  - split; [|done]. pose proof (tunnel_handle_quiet (core_tunnel c) now e (core_timers c)) as Hq.
    destruct (Tunnel.handle _ _ _ _) as [[t ts] a]; simpl in Hq. case_match; simplify_eq/=; [|congruence].
    pose proof (renew_quiet (core_port_forwarding c)) as Hr. destruct (renew _). simplify_eq/=.
    by rewrite guarded_app, Hq, Hr.
  - split; [|done].
    pose proof (notifications_handle_quiet (core_notifications c) now e (core_timers c)).
    destruct (Notifications.handle _ _ _ _) as [[? ?] ?]; simplify_eq/=; congruence.
  - unfold handle_mam in H. destruct (Mam.handle _ _ _ _) as [[m r] [a rot]] eqn:Em.
    apply handle_link in Em. rewrite <-Em. destruct rot as [k|]; simplify_eq/=; [|done].
    pose proof (rotate_quiet (core_settings c) k) as Hq. destruct (rotate _ _). simplify_eq/=.
    by rewrite guarded_app, Hq, app_nil_r.
Qed.

(** A step of the core refines a step of the link: the event, the gate and the
    cookie, then at most one request. *)
Definition link_step (l : Link) (now : ClockReading) (ev : Event) (ctx : Context) (moved : bool)
    (cookie : option ApiCookie) (work : option Wanted) : Link * list Action :=
  let '(l, a0) := link_event l (monotonic now) ev in
  let '(l, a2) := link_send (link_prepare l ctx moved) now cookie work in
  (l, a0 ++ a2).

(** Nothing but requests and their saves passes along the link. *)
Lemma link_event_actions l now ev : mam_actions (link_event l now ev).2 = (link_event l now ev).2.
Proof.
  destruct ev; try done. simpl. destruct (link_handle l now event) as [l1 b1] eqn:E1.
  by apply link_handle_cases in E1 as [(-> & _)|(? & ? & _ & _ & _ & ->)].
Qed.
Lemma link_send_actions l now cookie work :
  mam_actions (link_send l now cookie work).2 = (link_send l now cookie work).2.
Proof.
  unfold link_send. destruct (take _ _) as [b taken]. destruct (negb _ || _ || _); [done|].
  by destruct work as [[|req]|], cookie.
Qed.

Lemma parts_mam_actions c now ev c' acts c0 c1 a0 m t a2 command :
  step_parts c now ev c' acts c0 c1 a0 m t a2 command →
  mam_actions acts = guarded a0 ++ guarded a2.
Proof.
  intros [Hev _ Hdec _ _ _ _ _ _ _ Hac]. rewrite <-mam_actions_guarded, Hac, !mam_actions_app.
  apply handle_event_link in Hev as [Hl _]. apply (f_equal snd) in Hl. simpl in Hl.
  apply decide_link in Hdec as (moved & _ & Hd). apply (f_equal snd) in Hd. simpl in Hd.
  rewrite Hl, Hd, link_event_actions, link_send_actions.
  replace (mam_actions (option_list _)) with (@nil Action); [by rewrite app_nil_r|].
  by destruct command.
Qed.

(** What of the context the gate depends on. *)
Lemma gate_of_core hosts c c' :
  core_state c = core_state c' → core_tunnel c = core_tunnel c' →
  gate_of hosts (mam_context c) = gate_of hosts (mam_context c').
Proof. unfold gate_of, mam_context, protected_exit. simpl. by intros -> ->. Qed.

Lemma handle_link_step c now ev c' acts c0 c1 a0 m t a2 command :
  step_parts c now ev c' acts c0 c1 a0 m t a2 command →
  let p := prepare (core_mam c1) now (mam_context c1) in
  ∃ moved, link_step (link (core_mam c)) now ev (mam_context c1) moved (prep_cookie p)
      (wanted (prep_mam p) now (is_some (prep_cookie p)) (ctx_reserve (mam_context c1))
           (prep_watching p) (prep_next p) (prep_early p))
    = (link (core_mam c'), mam_actions acts).
Proof.
  intros Hp p. pose proof (parts_mam_actions _ _ _ _ _ _ _ _ _ _ _ _ Hp) as Hac.
  destruct Hp as [Hev Hobs Hdec _ _ _ Hma _ _ _ _].
  apply handle_event_link in Hev as [Hl _].
  destruct (begun_frame c ev) as (_ & _ & _ & Hm & _). rewrite Hm in Hl.
  apply decide_link in Hdec as (moved & _ & Hd). fold p in Hd.
  destruct (observe_step_frame c0 now) as (_ & _ & _ & Hm1 & _). rewrite Hobs in Hm1.
  exists moved. unfold link_step. rewrite <-Hl.
  rewrite Hm1 in Hd. rewrite <-Hd, Hac, Hma. done.
Qed.
