(* ===== verification/RegistryMoves.v ===== *)
(** * How the core changes the registry

    Every step of the core changes the rows by the registry's own operations
    only, so what holds of the operations holds of every run: the indexes stay
    sound and rows never share a hash. *)

From S2P Require Import Prelude Values Vocabulary MamApi Messages Timer MamPause Startup.
From S2P Require Import Settings History PortForwarding Tunnel Qbittorrent Registry RegistryStorage.
From S2P Require Import RegistryIndex Budget RatioGuard Network Account Acquisition Connectability.
From S2P Require Import Mam MamProofs Notifications Core CoreProofs.

#[local] Arguments Mam.decide : simpl never.
#[local] Arguments mam_context : simpl never.
#[local] Arguments follow_downloads : simpl never.

(** The rows of [r] become those of [r'] by the registry's operations. *)
Definition rows_move (r r' : Records) : Prop := rtc moves (Registry_Loaded r) (Registry_Loaded r').
#[local] Instance rows_move_preorder : PreOrder rows_move.
Proof. unfold rows_move. split; [intros r; reflexivity|intros a b d Hab Hbd; by etrans]. Qed.

(** ** The operations the core uses *)

Lemma op_moves r now op : rows_move r (apply_op r now op).1.
Proof. apply rtc_once, moves_op. Qed.

Lemma hold_moves r now h : rows_move r (hold r now h).1.
Proof. exact (op_moves r (mkClockReading now 0) (Op_Hold h)). Qed.
Lemma resume_moves r now h : rows_move r (resume r now h).1.
Proof. exact (op_moves r (mkClockReading now 0) (Op_Resume h)). Qed.
Lemma snatched_moves r now mam : rows_move r (snatched r now mam).1.
Proof. exact (op_moves r (mkClockReading now 0) (Op_Snatched mam)). Qed.
Lemma bookmarked_moves r now l : rows_move r (bookmarked r now l).1.
Proof. exact (op_moves r (mkClockReading now 0) (Op_Bookmarked l)). Qed.
Lemma fetched_moves r now mam h : rows_move r (Registry.fetched r now mam h).1.
Proof. exact (op_moves r (mkClockReading now 0) (Op_Fetched mam h)). Qed.

Lemma observe_moves reg now s : rtc moves reg (Registry.observe reg now s).1.
Proof.
  unfold Registry.observe. destruct reg as [| | |r]; try reflexivity.
  destruct (Qbittorrent.listed s); [|reflexivity].
  pose proof (op_moves r now (Op_Observe s)) as Hm. simpl in Hm. by destruct (Records_observe r now s).
Qed.

Lemma command_moves reg now s permits : rtc moves reg (Registry.command reg now s permits).1.
Proof.
  unfold Registry.command. destruct reg as [| | |r]; try reflexivity.
  destruct (Qbittorrent.listed s); [|reflexivity].
  unfold Records_command. destruct (reconcile r s permits) as [c|]; [|reflexivity].
  destruct (is_some_and _ _); [reflexivity|]. apply rtc_once, moves_command.
Qed.

(** ** MAM work *)

(** What following the watched downloads leaves alone, beside the rows. *)
Definition mam_guard (m : Mam) := (mam_ratio_guard m, mam_account m).

Lemma follow_download_moves now nw tr m r acts w m' r' acts' :
  follow_download now nw tr (m, r, acts) w = (m', r', acts') →
  mam_guard m' = mam_guard m ∧ rows_move r r'.
Proof.
  unfold follow_download. destruct w as [d wt]. intros H.
  match type of H with (let '(_, _) := ?e in _) = _ =>
    assert (mam_guard e.1.1 = mam_guard m ∧ rows_move r e.1.2) as [Hg1 Hm1];
      [|destruct e as [[m1 r1] a1]; simpl in Hg1, Hm1] end.
  { assert (rows_move r r) as Hr by reflexivity.
    pose proof (resume_moves r (monotonic now) (download_hash d)) as Hres.
    destruct (resume r _ _) as [rr ra]. by destruct wt as [| | | |wa listing]; try done; destruct (_ && _). }
  match type of H with (let '(_, _) := ?e in _) = _ =>
    assert (rows_move r1 e.1) as Hm2; [|destruct e as [r2 a2]; simpl in Hm2] end.
  { destruct (_ && _); [|reflexivity]. pose proof (hold_moves r1 (monotonic now) (download_hash d)) as Hh.
    by destruct (hold r1 _ _). }
  assert (mam_guard m' = mam_guard m1 ∧ r' = r2) as [-> ->].
  { destruct (watch_notice _ _ _); [|by simplify_eq]. by case_match; simplify_eq. }
  split; [done|]. etrans; [exact Hm1|exact Hm2].
Qed.

Lemma follow_download_fold_moves now nw tr ws m r acts m' r' acts' :
  fold_left (follow_download now nw tr) ws (m, r, acts) = (m', r', acts') →
  mam_guard m' = mam_guard m ∧ rows_move r r'.
Proof.
  revert m r acts. induction ws as [|w ws IH]; intros m r acts; cbn [fold_left].
  { intros. by simplify_eq. }
  destruct (follow_download now nw tr (m, r, acts) w) as [[m1 r1] acts1] eqn:E.
  apply follow_download_moves in E as [<- Hm1]. intros [-> Hm2]%IH.
  split; [done|]. etrans; [exact Hm1|exact Hm2].
Qed.

Lemma follow_downloads_moves m now reg m' reg' acts :
  follow_downloads m now reg = (m', reg', acts) →
  mam_guard m' = mam_guard m ∧ rtc moves reg reg'.
Proof.
  unfold follow_downloads. destruct reg as [| | |r]; intros; simplify_eq; try done.
  case_match eqn:Hf. case_match. simplify_eq.
  by apply follow_download_fold_moves in Hf as [<- Hm].
Qed.

Lemma mam_fetched_moves m now id wedge res reg m' reg' acts :
  Mam.fetched m now id wedge res reg = (m', reg', acts) →
  mam_guard m' = mam_guard m ∧ rtc moves reg reg'.
Proof.
  unfold Mam.fetched. destruct res as [[| | | |f| | |]|[]]; intros H; simplify_eq; try done.
  destruct (opt_filter _ _) as [r|] eqn:Er.
  - apply opt_filter_Some in Er as [Er _]. destruct reg as [| | |r0]; simplify_eq/=.
    pose proof (fetched_moves r (monotonic now) id (fetched_hash f)) as Hm.
    destruct (Registry.fetched _ _ _ _); simplify_eq/=. by split.
  - apply follow_downloads_moves in H as [-> Hm]. split; [by case_match|done].
Qed.

Lemma mark_snatched_moves now bs r acts r' acts' :
  fold_left (mark_snatched now) bs (r, acts) = (r', acts') → rows_move r r'.
Proof.
  revert r acts. induction bs as [|b bs IH]; intros r acts; simpl; [intros; by simplify_eq|].
  pose proof (snatched_moves r now (bookmark_id b)) as Hm.
  destruct (snatched r now _) as [r1 more]; simpl in Hm. intros H%IH. etrans; [exact Hm|exact H].
Qed.

Lemma listed_moves m now page reg m' reg' acts :
  Mam.listed m now page reg = (m', reg', acts) →
  mam_guard m' = mam_guard m ∧ rtc moves reg reg'.
Proof.
  unfold Mam.listed. destruct (Bookmarks_page _ _ _ _) as [bs [l|]]; [|by intros; simplify_eq].
  destruct reg as [| | |r]; intros H; simplify_eq; try done.
  destruct (fold_left _ _ _) as [r1 a1] eqn:E1. apply mark_snatched_moves in E1.
  match type of H with context [bookmarked ?x ?y ?z] => pose proof (bookmarked_moves x y z) as E2;
    destruct (bookmarked x y z) as [r2 a2] end.
  destruct (follow_downloads _ _ _) as [[m3 reg3] a3] eqn:E3. simplify_eq.
  apply follow_downloads_moves in E3 as [-> Hm]. split; [done|].
  etrans; [exact E1|]. etrans; [exact E2|exact Hm].
Qed.

Lemma purchased_guard m now w p res : mam_ratio_guard (purchased m now w p res) = mam_ratio_guard m.
Proof. unfold purchased, push_notice. by repeat (case_match; simplify_eq/=). Qed.

(** The guard after an answer: moved by a reading of the account only. *)
Definition guard_answered (m : Mam) (now : ClockReading) (req : MamRequest)
    (res : Result MamReply MamFailure) (current : bool) : RatioGuard :=
  match req, res with
  | MamRequest_LoadUserData _, Ok (MamReply_UserData data) =>
      if current then (RatioGuard.observe (mam_ratio_guard m) (data_downloaded data) (wall now)).1
      else mam_ratio_guard m
  | _, _ => mam_ratio_guard m
  end.

Lemma answered_moves m now req res cur reg m' reg' acts :
  answered m now req res cur reg = (m', reg', acts) →
  mam_ratio_guard m' = guard_answered m now req res cur ∧ rtc moves reg reg'.
Proof.
  unfold answered. set (m0 := if _ && _ then _ else m).
  assert (mam_ratio_guard m0 = mam_ratio_guard m) as Hm0.
  { unfold m0. case_match; [|done]. unfold follow_session. by repeat case_match. }
  assert (guard_answered m now req res cur = guard_answered m0 now req res cur) as ->
    by (unfold guard_answered; by rewrite Hm0).
  clearbody m0. clear Hm0. intros H.
  destruct req as [| |cl|st|id wedge|p| |id], res as [rep|f]; try destruct rep; simplify_eq;
    try destruct cur; simplify_eq; try (by split);
    try (by apply mam_fetched_moves in H as [[= -> _] Hm]; split);
    try (by apply listed_moves in H as [[= -> _] Hm]; split);
    try (by split; [apply purchased_guard|]).
  - destruct (Account.read _ _ _ _) as [acc settled]. unfold guard_answered.
    match type of H with context [RatioGuard.observe (mam_ratio_guard ?x)] =>
      assert (mam_ratio_guard x = mam_ratio_guard m0) as Hg by (by destruct settled as [[? []]|]) end.
    rewrite Hg in H. destruct (RatioGuard.observe _ _ _) as [guard seen]. clear Hg.
    unfold push_notice in H. destruct settled as [[? []]|], seen;
      destruct (follow_downloads _ _ _) as [[m3 reg3] a3] eqn:E3; simplify_eq/=;
      by apply follow_downloads_moves in E3 as [[= -> _] Hm].
  - by apply follow_downloads_moves in H as [[= -> _] Hm].
  - match type of H with (let '(registry, actions) := ?e in _) = _ =>
      assert (rtc moves reg e.1) as H1; [|destruct e as [reg1 a1]; simpl in H1] end.
    { destruct reg as [| | |r]; try reflexivity.
      pose proof (snatched_moves r (monotonic now) id) as Hm.
      destruct (is_some_and _ _); [|reflexivity]. by destruct (snatched r _ _). }
    destruct (follow_downloads _ _ _) as [[m3 reg3] a3] eqn:E3. simplify_eq.
    apply follow_downloads_moves in E3 as [[= -> _] Hm]. split; [done|]. etrans; [exact H1|exact Hm].
Qed.

(** The guard after an event. *)
Definition guard_after (m : Mam) (now : ClockReading) (ev : MamEvent) : RatioGuard :=
  match ev with
  | MamEvent_StateRead _ _ saved => restored saved
  | MamEvent_StateReadFailed => RatioGuard_ReadFailed
  | MamEvent_RatioUseChecked =>
      (RatioGuard.checked (mam_ratio_guard m) (data_downloaded <$> Account.data (mam_account m))).1
  | MamEvent_Answered result _ =>
      match mam_outstanding m with
      | Some (Outstanding_Request request _ epoch) =>
          guard_answered m now request result (epoch ==? mam_epoch m)
      | _ => mam_ratio_guard m
      end
  | _ => mam_ratio_guard m
  end.

Lemma handle_moves m now ev reg m' reg' acts rotated :
  Mam.handle m now ev reg = (m', reg', (acts, rotated)) →
  mam_ratio_guard m' = guard_after m now ev ∧ rtc moves reg reg'.
Proof.
  unfold Mam.handle, guard_after. destruct ev as [|res rot|lr lrem rg| | | |sale| | | | |];
    intros H; simplify_eq/=; try (by split).
  - destruct (mam_outstanding m) as [[|req sent_ ep]|]; simplify_eq/=; try (by split).
    destruct (answered _ _ _ _ _ _) as [[m1 reg1] a1] eqn:Ea. simplify_eq.
    apply answered_moves in Ea as [Hg Hm]. split; [|done].
    destruct (opt_filter _ rot); simpl; rewrite Hg; unfold guard_answered; by destruct req, res as [[]|].
  - destruct (mam_outstanding m) as [[at_ c ep|]|]; simplify_eq/=; try (by split).
    by case_bool_decide; simplify_eq/=.
  - destruct (mam_outstanding m) as [[at_ c ep|]|]; by simplify_eq/=.
  - destruct (Account.checked _ _) as [acc [p|]]; by simplify_eq.
  - destruct (RatioGuard.checked _ _) as [g [sg|]] eqn:Ec.
    + destruct (follow_downloads _ _ _) as [[m1 reg1] a1] eqn:Ea. simplify_eq.
      by apply follow_downloads_moves in Ea as [[= -> _] Hm].
    + simplify_eq. split; [|done]. unfold RatioGuard.checked in Ec.
      by destruct (mam_ratio_guard m'); simplify_eq.
Qed.

(** A decision leaves the guard alone. *)
Lemma prepare_guard m now ctx : mam_ratio_guard (prep_mam (prepare m now ctx)) = mam_ratio_guard m.
Proof.
  unfold prepare.
  assert (mam_ratio_guard (remind m now).1 = mam_ratio_guard m) as H1.
  { unfold remind. by repeat (case_match; simplify_eq/=). }
  destruct (remind m now) as [m1 a1]. simpl in H1. rewrite <-H1. clear H1 m.
  assert (mam_ratio_guard (follow_gate m1 ctx).1 = mam_ratio_guard m1) as H2.
  { unfold follow_gate. by repeat case_match. }
  destruct (follow_gate m1 ctx) as [m2 g]. simpl in H2. rewrite <-H2. clear H2.
  assert (mam_ratio_guard (follow_cookie m2 ctx) = mam_ratio_guard m2) as H3.
  { unfold follow_cookie. by repeat case_match. }
  rewrite <-H3. generalize (follow_cookie m2 ctx). clear H3. intros m3. cbv zeta.
  match goal with |- context [follow_connectability ?x now ctx] =>
    assert (mam_ratio_guard (follow_connectability x now ctx) = mam_ratio_guard x) as H4;
    [unfold follow_connectability; by destruct (follow _ _) as [? []]|
     generalize dependent (follow_connectability x now ctx)] end.
  intros m5 H5. simpl in H5. rewrite <-H5.
  match goal with |- context [watch_downloads m5 now ?x] =>
    assert (mam_ratio_guard (watch_downloads m5 now x).1 = mam_ratio_guard m5) as H6;
    [by destruct x|destruct (watch_downloads m5 now x) as [m6 recent_]] end.
  exact H6.
Qed.

Lemma decide_guard m now ctx timers :
  mam_ratio_guard (Mam.decide m now ctx timers).1.1 = mam_ratio_guard m.
Proof.
  rewrite <-(prepare_guard m now ctx). unfold Mam.decide. set (p := prepare m now ctx).
  match goal with |- context [let '(_, _) := ?e in _] =>
    assert (mam_ratio_guard e.1 = mam_ratio_guard (prep_mam p)) as H1;
      [|destruct e as [m1 a1]; simpl in H1] end.
  { destruct (_ && _); [|done]. unfold Mam.send.
    destruct (take _ _) as [b []], (wanted _ _ _ _ _ _ _) as [[|req]|], (prep_cookie p);
      try done; by destruct req. }
  assert (mam_ratio_guard (schedule_wake m1 now (prep_early p) timers).1.1 = mam_ratio_guard m1) as H2.
  { unfold schedule_wake. destruct (min_list _) as [due_|]; [|done].
    destruct (is_some_and _ _); [done|]. by destruct (schedule _ _ _) as [? []]. }
  destruct (schedule_wake _ _ _ _) as [[m2 t2] a2]. simpl in *. congruence.
Qed.

(** ** The core's step *)

(** What storage promises of the rows it reads: distinct ids and hashes, by the
    table's primary key and its unique index. *)
Definition event_ok (ev : Event) : Prop :=
  match ev with Event_Registry ev => registry_event_ok ev | _ => True end.

(** The guard after an event's own handler; MAM state is read again when storage
    opens. *)
Definition core_guard_after (c : Core) (now : ClockReading) (ev : Event) : RatioGuard :=
  match ev with
  | Event_Mam ev => guard_after (core_mam c) now ev
  | Event_Startup ev =>
      match core_state c, (Startup.handle (core_state c) now ev).1 with
      | State_OpeningStorage _, State_ReadingMamPreference _ => RatioGuard_Reading
      | _, _ => mam_ratio_guard (core_mam c)
      end
  | _ => mam_ratio_guard (core_mam c)
  end.

Lemma handle_event_moves c now ev c0 a0 :
  handle_event c now ev = Some (c0, a0) → event_ok ev →
  rtc moves (core_registry c) (core_registry c0)
  ∧ mam_ratio_guard (core_mam c0) = core_guard_after c now ev.
Proof.
  destruct ev as [e|e|e|e|name id|e|e|e|e|e|e]; simpl; intros H Hok.
  - unfold handle_startup in H. destruct (Startup.handle _ _ _) as [st a]. cbn [fst].
    match type of H with Some (let '(_, _) := ?x in _) = _ =>
      assert (rtc moves (core_registry c) (core_registry x.1)
        ∧ mam_ratio_guard (core_mam x.1) = match core_state c, st with
          | State_OpeningStorage _, State_ReadingMamPreference _ => RatioGuard_Reading
          | _, _ => mam_ratio_guard (core_mam c) end) as [Hr Hg] end.
    { destruct (core_state c), st; try done. split; [apply rtc_once, moves_start|done]. }
    match type of H with Some (let '(_, _) := ?x in _) = _ => destruct x as [c1 a1] end.
    cbn [fst snd] in Hr, Hg. by destruct st; injection H as <- <-.
  - by destruct (MamPause.handle _ _ _); simplify_eq/=.
  - by destruct (Settings.handle _ _); simplify_eq/=.
  - by simplify_eq.
  - destruct name.
    + by destruct (Qbittorrent.timer_expired _ _); simplify_eq/=.
    + by destruct (PortForwarding.timer_expired _ _); simplify_eq/=.
    + by destruct (Tunnel.timer_expired _ _ _); simplify_eq/=.
    + by simplify_eq.
    + by simplify_eq.
    + simplify_eq/=. split; [done|]. unfold Mam.timer_expired. by case_match.
  - destruct (PortForwarding.handle _ _ _ _) as [[[pf t] a]|] eqn:E; [|done]. simpl in H.
    destruct e; simplify_eq/=; try done. by destruct (suspect _ _); simplify_eq/=.
  - by destruct (Qbittorrent.handle _ _ _ _) as [[? ?] ?]; simplify_eq/=.
  - pose proof (moves_event (core_registry c) (monotonic now) e Hok) as Hm.
    destruct (Registry.handle _ _ _); simplify_eq/=. split; [by apply rtc_once|done].
  - destruct (Tunnel.handle _ _ _ _) as [[t ts] a]. case_match; simplify_eq/=; [|done].
    destruct (renew _). by simplify_eq/=.
  - by destruct (Notifications.handle _ _ _ _) as [[? ?] ?]; simplify_eq/=.
  - unfold handle_mam in H. destruct (Mam.handle _ _ _ _) as [[m r] [a rot]] eqn:Em.
    apply handle_moves in Em as [Hg Hm]. destruct rot as [k|]; simplify_eq/=; [|done].
    by destruct (rotate _ _); simplify_eq/=.
Qed.

Lemma registry_ok_rows reg reg' :
  registry_rows reg' = registry_rows reg → registry_ok reg → registry_ok reg'.
Proof.
  intros H. apply final_rows in H. destruct reg as [| | |r], reg' as [| | |r']; try done. simpl in *.
  injection H as He Hh Hm. by apply indexed_same; [..|intros id; rewrite He].
Qed.

Lemma step_registry c now ev c' acts :
  handle c now ev = Some (c', acts) → event_ok ev → registry_ok (core_registry c) →
  registry_ok (core_registry c') ∧ mam_ratio_guard (core_mam c') = core_guard_after c now ev.
Proof.
  intros Hh Hok Hreg. destruct (handle_parts _ _ _ _ _ Hh) as (c0 & c1 & a0 & m & t & a2 & cmd & Hp).
  destruct (begun_frame c ev) as (Hst & _ & _ & Hm & Hr & _).
  pose proof (sp_event _ _ _ _ _ _ _ _ _ _ _ _ Hp) as Hev.
  apply handle_event_moves in Hev as [Hmv Hg]; [|done]. rewrite Hr in Hmv.
  assert (core_guard_after (begun c ev) now ev = core_guard_after c now ev) as Hb
    by (unfold core_guard_after; by rewrite Hst, Hm).
  destruct (observe_step_frame c0 now) as (_ & _ & _ & Hm1 & _).
  pose proof (sp_observe _ _ _ _ _ _ _ _ _ _ _ _ Hp) as Hobs. split.
  - apply (registry_ok_rows (core_registry c1)); [apply (sp_rows _ _ _ _ _ _ _ _ _ _ _ _ Hp)|].
    apply (all_moves_ok (core_registry c0)); [|by eapply all_moves_ok].
    rewrite <-Hobs. unfold observe_step. simpl.
    destruct (deciding _) as [[s []]|]; try reflexivity.
    pose proof (observe_moves (core_registry c0) now s) as Hmo. by destruct (Registry.observe _ _ _).
  - rewrite (sp_mam _ _ _ _ _ _ _ _ _ _ _ _ Hp). simpl.
    pose proof (decide_guard (core_mam c1) now (mam_context c1) (core_timers c1)) as Hd.
    rewrite (sp_decide _ _ _ _ _ _ _ _ _ _ _ _ Hp) in Hd. simpl in Hd.
    by rewrite Hd, <-Hobs, Hm1, Hg.
Qed.

Lemma run_registry c events c' trace :
  run c events = Some (c', trace) → Forall (λ e, event_ok (timed_event e)) events →
  registry_ok (core_registry c) → registry_ok (core_registry c').
Proof.
  revert c c' trace. induction events as [|e events IH]; intros c c' trace; simpl.
  { intros [= -> _]. done. }
  intros Hr Hok Hreg. inversion_clear Hok as [|? ? He Hes].
  destruct (handle c _ _) as [[c1 a]|] eqn:Eh; [|done]. simpl in Hr.
  destruct (run c1 events) as [[c2 more]|] eqn:Er; [|done]. simplify_eq/=.
  apply (IH c1 _ more Er Hes). by eapply step_registry.
Qed.

(** ** The rows of every run *)

Lemma elem_of_records r row : row ∈ records r ↔ ∃ id e, rec_entries r !! id = Some e ∧ entry_record e = row.
Proof.
  unfold records. rewrite list_elem_of_fmap. split.
  - intros (e & -> & [id Hin]%elem_of_bt_values). eauto.
  - intros (id & e & He & <-). exists e. split; [done|]. apply elem_of_bt_values. eauto.
Qed.

Lemma indexed_find r row h :
  indexed r → row ∈ records r → Identity_hash (record_identity row) = Some h →
  Registry.find r h = Some row.
Proof.
  intros Hr (id & e & He & <-)%elem_of_records Hh. unfold Registry.find.
  rewrite (ix_hash r Hr id e h He Hh). simpl. by rewrite He.
Qed.

Lemma indexed_distinct r : indexed r → rows_distinct (records r).
Proof.
  intros Hr. split.
  - intros a b (i & e & He & <-)%elem_of_records (j & e' & He' & <-)%elem_of_records Hab.
    rewrite (ix_keyed r Hr i e He), (ix_keyed r Hr j e' He') in Hab. subst j. by simplify_eq.
  - intros a b h Ha Hb Hha Hhb. pose proof (indexed_find r a h Hr Ha Hha) as H1.
    rewrite (indexed_find r b h Hr Hb Hhb) in H1. by injection H1 as ->.
Qed.

(** C27: The registry's indexes are sound in every run, as long as storage reads
    rows with distinct ids and hashes: a row is found by its hash, a row with a
    MAM ID makes that ID known, so a bookmark never gets a second row, and the
    rows in memory have distinct ids and hashes, so a save never breaks what
    storage promises of them. *)
Theorem registry_indexes_sound events c trace r :
  run Core.new events = Some (c, trace) → Forall (λ e, event_ok (timed_event e)) events →
  Registry.loaded (core_registry c) = Some r →
  (∀ row h, row ∈ records r → Identity_hash (record_identity row) = Some h →
     Registry.find r h = Some row)
  ∧ (∀ row mam, row ∈ records r → Identity_mam_id (record_identity row) = Some mam →
       knows r mam = true ∧ is_Some (find_mam r mam))
  ∧ rows_distinct (records r).
Proof.
  intros Hrun Hok Hl. assert (indexed r) as Hr.
  { apply run_registry in Hrun; [|done..]. by destruct (core_registry c); simplify_eq/=. }
  split_and!.
  - intros row h Hin Hh. by apply indexed_find.
  - intros row mam (id & e & He & <-)%elem_of_records Hm.
    destruct (ix_mam r Hr id e mam He Hm) as [i Hi]. unfold knows, find_mam. rewrite Hi.
    split; [done|]. destruct (ix_mam_row r Hr mam i Hi) as [e' He']. simpl. rewrite He'. by eexists.
  - by apply indexed_distinct.
Qed.
