(* ===== verification/MamAccess.v ===== *)
(** * When requests reach MAM

    The guarantees about every request to MAM that hold in every run of the
    core: the switch and the VPN, one request at a time, the request rate, the
    spacing of IP lookups, and the cookie that is used. *)

From S2P Require Import Prelude Values Vocabulary MamApi Messages Timer MamPause Settings.
From S2P Require Import Tunnel Qbittorrent Registry Budget RatioGuard Network Account.
From S2P Require Import Acquisition Mam MamProofs Core CoreProofs.

#[local] Arguments Mam.decide : simpl never.
#[local] Arguments prepare : simpl never.
#[local] Arguments mam_context : simpl never.
#[local] Arguments take : simpl never.

(** ** Invariants of the link *)

Definition outstanding_epoch (o : Outstanding) : ConnectionEpoch :=
  match o with
  | Outstanding_SavingRegistration _ _ epoch | Outstanding_Request _ _ epoch => epoch
  end.

(** After [n] steps: what is outstanding on the connection of now was sent
    through a gate that has stayed open since. *)
Definition link_inv (n : Z) (l : Link) : Prop :=
  0 ≤ link_epoch l ≤ 2 * n
  ∧ ∀ o, link_outstanding l = Some o →
      outstanding_epoch o ≤ link_epoch l
      ∧ (outstanding_epoch o = link_epoch l → link_gate l = RequestGate_Open).

Lemma link_event_inv n l now ev l' acts :
  link_inv n l → link_event l now ev = (l', acts) →
  link_inv n l' ∧ link_gate l' = link_gate l ∧ link_epoch l' = link_epoch l
  ∧ (∀ a, a ∈ acts → link_gate l' = RequestGate_Open).
Proof.
  intros [He Ho] H. unfold link_event in H.
  destruct ev as [e|e|e|e|name id|e|e|e|e|e|e]; simplify_eq; try (split_and!; try done; by intros a ?%elem_of_nil).
  apply link_handle_cases in H as [(-> & Hg & Hep & _ & Hout & _)|(at_ & cookie & _ & Hout & -> & ->)].
  - split_and!; [split; [by rewrite Hep|]|done..|by intros a ?%elem_of_nil].
    intros o Hl. rewrite Hep, Hg. destruct Hout as [Hout|Hout]; rewrite Hout in Hl; [by apply Ho|done].
  - split_and!; [split; simpl; [done|]|done..|].
    + intros o ?. simplify_eq/=. apply (Ho _ Hout).
    + intros a _. by apply (Ho _ Hout).
Qed.

Lemma epoch_next_small e : 0 ≤ e < u64_max → ConnectionEpoch_next e = e + 1.
Proof. intros. unfold ConnectionEpoch_next. apply wrapping_add_small. lia. Qed.

Lemma link_prepare_inv n l ctx moved :
  link_inv n l → 2 * (n + 1) ≤ u64_max → link_inv (n + 1) (link_prepare l ctx moved).
Proof.
  intros [He Ho] Hn. unfold link_prepare, link_inv; simpl.
  set (gate := gate_of _ _).
  set (e := if (link_gate l ==? RequestGate_Open) && (gate ==? RequestGate_Closed) then _ else _).
  assert (e = link_epoch l ∧ (link_gate l = RequestGate_Open → gate = RequestGate_Open)
          ∨ e = link_epoch l + 1) as Hcases.
  { unfold e. rewrite epoch_next_small by lia. case_bool_decide; simpl; [|by left].
    case_bool_decide; simpl; [by right|]. left. split; [done|]. intros _. by destruct gate. }
  assert (0 ≤ e < u64_max) as Hr by lia.
  rewrite epoch_next_small by done.
  split; [destruct moved; lia|]. intros o Hout. destruct (Ho o Hout) as [Hle Hopen].
  destruct moved; [split; lia|]. destruct Hcases as [[-> Hg]| ->]; [|split; lia].
  split; [done|]. intros Heq. by apply Hg, Hopen.
Qed.

Lemma link_send_inv n l now cookie work l' acts :
  link_inv n l → link_send l now cookie work = (l', acts) →
  link_inv n l' ∧ link_gate l' = link_gate l
  ∧ (∀ a, a ∈ acts → link_gate l = RequestGate_Open).
Proof.
  intros [He Ho] H. unfold link_send in H. destruct (take _ _) as [b taken].
  destruct (negb _ || _ || _) eqn:Eb; simplify_eq.
  { split_and!; [by split|done|]. by intros a ?%elem_of_nil. }
  apply orb_false_iff in Eb as [[Eg _]%orb_false_iff _]. reflect_bools.
  destruct work as [[|req]|], cookie as [c|]; simplify_eq/=;
    (split_and!; [split; simpl; [done|] | done | try (by intros a _); try (by intros a ?%elem_of_nil)]);
    try done; intros o ?; simplify_eq/=; split; done.
Qed.

(** ** Invariants of the core *)

Definition access_inv (n : Z) (c : Core) : Prop :=
  link_inv n (link (core_mam c))
  ∧ mam_gate (core_mam c) = gate_of (mam_hosts (core_mam c)) (mam_context c).

Lemma access_inv_new : access_inv 0 Core.new.
Proof. split; [|done]. split; [done|]. simpl. intros o ?. done. Qed.

(** The gate after a step is the one the step's decision followed. *)
Lemma step_gate c now ev c' acts c0 c1 a0 m t a2 cmd :
  step_parts c now ev c' acts c0 c1 a0 m t a2 cmd →
  gate_of (mam_hosts (core_mam c')) (mam_context c1)
  = gate_of (mam_hosts (core_mam c')) (mam_context c').
Proof.
  intros [Hev Hobs Hdec Hst Hse Htu Hma _ _ _ _].
  destruct (observe_step_frame c0 now) as (Hs1 & _ & Ht1 & _). rewrite Hobs in Hs1, Ht1.
  apply gate_of_core; congruence.
Qed.

Lemma link_send_hosts l now cookie work :
  link_hosts (link_send l now cookie work).1 = link_hosts l.
Proof. unfold link_send. by repeat (case_match; simplify_eq/=). Qed.

Lemma access_inv_step n c now ev c' acts :
  access_inv n c → handle c now ev = Some (c', acts) → 2 * (n + 1) ≤ u64_max →
  access_inv (n + 1) c'
  ∧ ∀ a, a ∈ mam_actions acts → mam_gate (core_mam c') = RequestGate_Open.
Proof.
  intros [Hinv Hgate] Hh Hn.
  destruct (handle_parts _ _ _ _ _ Hh) as (c0 & c1 & a0 & m & t & a2 & cmd & Hp).
  pose proof (step_gate _ _ _ _ _ _ _ _ _ _ _ _ Hp) as Hsg.
  destruct (handle_link_step _ _ _ _ _ _ _ _ _ _ _ _ Hp) as [moved Hs].
  unfold link_step in Hs.
  destruct (link_event (link (core_mam c)) (monotonic now) ev) as [l1 b0] eqn:E1.
  destruct (link_event_inv _ _ _ _ _ _ Hinv E1) as (Hinv1 & Hg1 & _ & Ha1).
  match type of Hs with context [link_send ?l ?nw ?k ?w] =>
    pose proof (link_send_hosts l nw k w) as Hh3;
    destruct (link_send l nw k w) as [l3 b2] eqn:E3 end.
  destruct (link_send_inv (n + 1) _ _ _ _ _ _ (link_prepare_inv _ _ (mam_context c1) moved Hinv1 Hn) E3)
    as (Hinv3 & Hg3 & Ha3).
  simpl in Hh3, Hg3. injection Hs as Hl Ha.
  assert (link_hosts l1 = mam_hosts (core_mam c')) as Hhosts.
  { change (mam_hosts (core_mam c')) with (link_hosts (link (core_mam c'))). by rewrite <-Hl. }
  assert (mam_gate (core_mam c') = gate_of (mam_hosts (core_mam c')) (mam_context c')) as Hgate'.
  { change (mam_gate (core_mam c')) with (link_gate (link (core_mam c'))).
    by rewrite <-Hl, Hg3, <-Hsg, Hhosts. }
  split; [split; [by rewrite <-Hl|done]|].
  intros a. rewrite <-Ha, elem_of_app. intros [Hin|Hin].
  - (* Sent by the event: the gate was open, and neither half of it changed. *)
    pose proof (Ha1 a Hin) as Hopen. rewrite Hg1 in Hopen.
    assert (∃ e, ev = Event_Mam e) as [e ->].
    { destruct ev; simpl in E1; simplify_eq; try by apply elem_of_nil in Hin. eauto. }
    pose proof (handle_event_link _ _ _ _ _ (sp_event _ _ _ _ _ _ _ _ _ _ _ _ Hp)) as [_ Hsame].
    destruct (Hsame e eq_refl) as [Hst Htu].
    destruct (begun_frame c (Event_Mam e)) as (Hbs & _ & Hbt & _).
    rewrite Hgate'. transitivity (gate_of (mam_hosts (core_mam c')) (mam_context c)).
    { apply gate_of_core; [rewrite (sp_state _ _ _ _ _ _ _ _ _ _ _ _ Hp)|
        rewrite (sp_tunnel _ _ _ _ _ _ _ _ _ _ _ _ Hp)]; congruence. }
    rewrite <-Hhosts. change (mam_gate (core_mam c) = RequestGate_Open) in Hopen.
    rewrite Hgate in Hopen. unfold link_event, link_handle in E1. rewrite <-Hopen.
    destruct e, (link_outstanding (link (core_mam c))) as [[]|]; simplify_eq/=;
      try by apply elem_of_nil in Hin.
    all: by case_bool_decide; simplify_eq/=.
  - rewrite Hgate', <-Hsg, <-Hhosts. by apply (Ha3 a).
Qed.

Lemma run_access_inv n c events c' acts :
  access_inv n c → run c events = Some (c', acts) →
  2 * (n + Z.of_nat (length events)) ≤ u64_max →
  access_inv (n + Z.of_nat (length events)) c'.
Proof.
  revert n c acts. induction events as [|e events IH]; intros n c acts Hinv Hr Hn.
  { simplify_eq/=. by rewrite Z.add_0_r. }
  cbn [length] in Hn |- *. rewrite Nat2Z.inj_succ in Hn |- *. simpl in Hr.
  destruct (handle c _ _) as [[c1 a1]|] eqn:E1; [|done]. simpl in Hr.
  destruct (run c1 events) as [[c2 a2]|] eqn:E2; [|done]. simplify_eq/=.
  destruct (access_inv_step _ _ _ _ _ _ Hinv E1) as [Hinv1 _]; [lia|].
  replace (n + Z.succ (Z.of_nat (length events))) with (n + 1 + Z.of_nat (length events)) by lia.
  eapply IH; [done..|lia].
Qed.

Lemma reachable_access c :
  reachable c → ∃ n, access_inv n c ∧ 2 * (n + 1) ≤ u64_max.
Proof.
  intros (events & acts & Hr & Hn). exists (Z.of_nat (length events)). split; [|lia].
  apply (run_access_inv 0 Core.new events c acts access_inv_new Hr). lia.
Qed.

(** ** A concrete run

    Startup with MAM requests on and a saved cookie, a protected tunnel, the IP
    lookup a minute after the start, the registration and the first reading. *)
Definition at_secs (s : Z) (ev : Event) : TimedEvent :=
  mkTimedEvent (mkClockReading (from_secs s) (from_secs (1_800_000_000 + s))) ev.

Definition sample_ip : IpAddr := IpAddr_V4 3_221_226_219.

Definition sample_run : list TimedEvent := [
  at_secs 0 (Event_Startup (StartupEvent_Start StartupMode_Resume));
  at_secs 0 (Event_Startup StartupEvent_StorageOpened);
  at_secs 1 (Event_MamPause (MamPauseEvent_Read (Some MamRequestMode_Enabled)));
  at_secs 1 (Event_Settings (SettingsEvent_Read None (Some "cookie"%string) None None None));
  at_secs 1 (Event_Registry (RegistryEvent_Read []));
  at_secs 1 (Event_Mam (MamEvent_StateRead None None SavedRatioGuard_Unset));
  at_secs 1 (Event_Mam MamEvent_Enable);
  at_secs 1 (Event_Tunnel (TunnelEvent_Enable ["nl-1"; "se-2"]%string (Some "nl-1"%string)));
  at_secs 2 (Event_Tunnel (TunnelEvent_ExitIpObserved sample_ip));
  at_secs 61 (Event_TimerExpired TimerName_Mam 2);
  at_secs 62 (Event_Mam (MamEvent_Answered
    (Ok (MamReply_Ip (mkIpObservation sample_ip 7 None))) None));
  at_secs 63 (Event_Mam MamEvent_RegistrationAttemptSaved);
  at_secs 64 (Event_Mam (MamEvent_Answered
    (Ok (MamReply_Registered Registration_Completed sample_ip)) None))].

(** The core before the [n]th event of the run, that event, and its step. *)
Definition sample_result (n : nat) : Core * list (ClockReading * Action) :=
  default (Core.new, []) (run Core.new (firstn n sample_run)).
Definition sample_core (n : nat) : Core := (sample_result n).1.
Definition sample_event (n : nat) : TimedEvent :=
  default (at_secs 0 (Event_Startup StartupEvent_StorageOpened)) (sample_run !! n).
Definition sample_step (n : nat) : Core * list Action :=
  default (Core.new, [])
    (handle (sample_core n) (occurred_at (sample_event n)) (timed_event (sample_event n))).

Lemma sample_reachable n :
  run Core.new (firstn n sample_run) = Some (sample_result n) → reachable (sample_core n).
Proof.
  intros Hr. exists (firstn n sample_run), (sample_result n).2. split.
  - rewrite Hr. unfold sample_core. by destruct (sample_result n).
  - rewrite length_firstn. change (length sample_run) with 13%nat. unfold u64_max. lia.
Qed.

(** ** The switch and the VPN *)

Lemma gate_of_open hosts ctx :
  gate_of hosts ctx = RequestGate_Open ↔
  hosts = MamHosts_Configured ∧ ctx_requests ctx = MamRequestsStatus_Running
  ∧ ctx_protection ctx = TunnelProtection_Protected.
Proof.
  unfold gate_of. destruct (_ && _ && _) eqn:E; split; try done; intros; reflect_bools; try done.
  destruct_and?. rewrite !bool_decide_eq_true_2 in E by done. done.
Qed.

(** C1: No request to MAM, and no save that announces one, is asked for unless,
    when the step ends, MAM's hosts are configured, the owner's switch is on with
    that choice saved, and the VPN tunnel was last checked to protect traffic: a
    pause or a lost tunnel stops requests in the very step that learns of it. *)
Theorem mam_speaks_only_when_permitted c now ev c' acts a :
  reachable c → handle c now ev = Some (c', acts) →
  a ∈ acts → speaks_to_mam a = true →
  mam_hosts (core_mam c') = MamHosts_Configured
  ∧ mam_requests (core_state c') = MamRequestsStatus_Running
  ∧ is_Some (protected_exit c').
Proof.
  intros (n & Hinv & Hn)%reachable_access Hh Ha Hs.
  destruct (access_inv_step _ _ _ _ _ _ Hinv Hh Hn) as [[_ Hgate] Hopen].
  rewrite (Hopen a) in Hgate by (by apply elem_of_mam_actions).
  symmetry in Hgate. apply gate_of_open in Hgate as (? & ? & Hp). split_and!; [done..|].
  unfold mam_context in Hp; simpl in Hp.
  destruct (protected_exit c'); [by eexists|done].
Qed.

Lemma mam_speaks_only_when_permitted_witness :
  let c' := (sample_step 11).1 in
  mam_hosts (core_mam c') = MamHosts_Configured
  ∧ mam_requests (core_state c') = MamRequestsStatus_Running
  ∧ is_Some (protected_exit c').
Proof.
  intros c'.
  apply (mam_speaks_only_when_permitted (sample_core 11) (occurred_at (sample_event 11))
    (timed_event (sample_event 11)) (sample_step 11).1 (sample_step 11).2
    (Action_MamRequest MamRequest_RegisterSeedbox (Some "cookie"%string))).
  - apply sample_reachable. vm_compute. reflexivity.
  - vm_compute. reflexivity.
  - apply list_elem_of_In. vm_compute. left. reflexivity.
  - vm_compute. reflexivity.
Defined.

(** ** One request at a time *)

Definition is_request (a : Action) : bool :=
  match a with Action_MamRequest _ _ => true | _ => false end.
Definition is_answer (e : Event) : bool :=
  match e with Event_Mam (MamEvent_Answered _ _) => true | _ => false end.

Definition count {A} (p : A → bool) (l : list A) : Z := Z.of_nat (length (List.filter p l)).

Lemma count_app {A} (p : A → bool) l k : count p (l ++ k) = count p l + count p k.
Proof. unfold count. rewrite List.filter_app, length_app. lia. Qed.
Lemma count_cons {A} (p : A → bool) x l : count p (x :: l) = (if p x then 1 else 0) + count p l.
Proof. unfold count. simpl. destruct (p x); simpl; lia. Qed.
Lemma count_nil {A} (p : A → bool) : count p [] = 0.
Proof. done. Qed.
Lemma count_pos {A} (p : A → bool) l : 0 ≤ count p l.
Proof. unfold count. lia. Qed.
Lemma count_requests acts : count is_request acts = count is_request (mam_actions acts).
Proof.
  unfold mam_actions. induction acts as [|a acts IH]; [done|].
  simpl. destruct a; simpl; rewrite ?count_cons; simpl; lia.
Qed.

(** Whether a request is outstanding. *)
Definition busy (l : Link) : Z :=
  match link_outstanding l with Some (Outstanding_Request _ _ _) => 1 | _ => 0 end.

Lemma busy_bounds l : 0 ≤ busy l ≤ 1.
Proof. unfold busy. repeat case_match; lia. Qed.

Lemma link_event_busy l now ev l' acts :
  link_event l now ev = (l', acts) →
  busy l + count is_request acts ≤ (if is_answer ev then 1 else 0) + busy l'.
Proof.
  unfold link_event, link_handle, busy. intros H.
  destruct ev as [e|e|e|e|name id|e|e|e|e|e|e]; try (simplify_eq; rewrite count_nil; simpl; lia).
  destruct e, (link_outstanding l) as [[|]|] eqn:Eo; simplify_eq/=;
    try (case_bool_decide; simplify_eq/=); rewrite ?Eo, ?count_cons, ?count_nil; simpl; lia.
Qed.

Lemma link_send_busy l now cookie work l' acts :
  link_send l now cookie work = (l', acts) → busy l + count is_request acts = busy l'.
Proof.
  unfold link_send, busy. destruct (take _ _). intros H.
  destruct (negb _ || _ || _) eqn:E; simplify_eq; [rewrite count_nil; lia|].
  apply orb_false_iff in E as [[_ Ho]%orb_false_iff _].
  destruct (link_outstanding l) eqn:Eo; [done|].
  destruct work as [[]|], cookie; simplify_eq/=; rewrite ?Eo, ?count_cons, ?count_nil; simpl; lia.
Qed.

Lemma handle_busy c now ev c' acts :
  handle c now ev = Some (c', acts) →
  busy (link (core_mam c)) + count is_request acts
    ≤ (if is_answer ev then 1 else 0) + busy (link (core_mam c')).
Proof.
  intros Hh. destruct (handle_parts _ _ _ _ _ Hh) as (c0 & c1 & a0 & m & t & a2 & cmd & Hp).
  destruct (handle_link_step _ _ _ _ _ _ _ _ _ _ _ _ Hp) as [moved Hs].
  rewrite count_requests. unfold link_step in Hs.
  destruct (link_event _ _ _) as [l1 b0] eqn:E1. apply link_event_busy in E1.
  destruct (link_send _ _ _ _) as [l3 b2] eqn:E3. apply link_send_busy in E3.
  injection Hs as Hl Ha. rewrite <-Ha, count_app, <-Hl. 
  change (busy (link_prepare l1 (mam_context c1) moved)) with (busy l1) in E3. lia.
Qed.

Definition trace_actions (trace : list (ClockReading * Action)) : list Action := snd <$> trace.

Lemma trace_actions_cons now acts trace :
  trace_actions (((now,.) <$> acts) ++ trace) = acts ++ trace_actions trace.
Proof.
  unfold trace_actions. rewrite fmap_app, <-list_fmap_compose. f_equal.
  rewrite <-(list_fmap_id acts) at 2. by apply list_fmap_ext.
Qed.

Lemma run_busy c events c' trace :
  run c events = Some (c', trace) →
  busy (link (core_mam c)) + count is_request (trace_actions trace)
    ≤ count (λ e, is_answer (timed_event e)) events + busy (link (core_mam c')).
Proof.
  revert c trace. induction events as [|e events IH]; intros c trace; simpl.
  { intros; simplify_eq. unfold trace_actions. simpl. rewrite !count_nil. lia. }
  destruct (handle c _ _) as [[c1 a1]|] eqn:E1; [|done]. simpl.
  destruct (run c1 events) as [[c2 a2]|] eqn:E2; [|done]. intros; simplify_eq/=.
  apply handle_busy in E1. apply IH in E2.
  rewrite count_cons, trace_actions_cons, count_app. lia.
Qed.

(** C25: At any moment of any run at most one request to MAM is unanswered: the
    requests asked for never exceed the answers received by more than one. *)
Theorem one_mam_request_at_a_time events c trace :
  run Core.new events = Some (c, trace) →
  count is_request (trace_actions trace) ≤ count (λ e, is_answer (timed_event e)) events + 1.
Proof.
  intros Hr%run_busy. pose proof (busy_bounds (link (core_mam c))).
  change (busy (link (core_mam Core.new))) with 0 in Hr. lia.
Qed.

Lemma one_mam_request_at_a_time_witness :
  count is_request (trace_actions (default (Core.new, []) (run Core.new sample_run)).2)
    ≤ count (λ e, is_answer (timed_event e)) sample_run + 1.
Proof.
  apply (one_mam_request_at_a_time sample_run (default (Core.new, []) (run Core.new sample_run)).1).
  vm_compute. reflexivity.
Defined.

(** ** The request rate *)

(** An action that draws a token. The registration draws it when its attempt is
    saved, so its request draws none. *)
Definition draws_token (a : Action) : bool :=
  match a with
  | Action_MamRequest MamRequest_RegisterSeedbox _ => false
  | Action_MamRequest _ _ | Action_SaveRegistrationAttempt _ => true
  | _ => false
  end.

Lemma count_draws acts : count draws_token acts = count draws_token (mam_actions acts).
Proof.
  unfold mam_actions. induction acts as [|a acts IH]; [done|].
  simpl. destruct a; simpl; rewrite ?count_cons; simpl; lia.
Qed.

Definition event_times (events : list TimedEvent) : list Instant :=
  (λ e, monotonic (occurred_at e)) <$> events.

Lemma link_send_level l now cookie work l' acts :
  budget_ok (link_budget l) (monotonic now) →
  (∀ request, work = Some (Wanted_Request request) → request ≠ MamRequest_RegisterSeedbox) →
  link_send l now cookie work = (l', acts) →
  budget_ok (link_budget l') (monotonic now)
  ∧ level (link_budget l') (monotonic now) + count draws_token acts * REQUEST_REFILL
    = level (link_budget l) (monotonic now).
Proof.
  intros Hok Hnot. unfold link_send. intros H.
  destruct (take_level _ _ Hok) as (b & taken & Et & _ & Hok' & Hlev). rewrite Et in H.
  destruct (negb _ || _ || _) eqn:E; simplify_eq; [rewrite count_nil; split; [done|lia]|].
  apply orb_false_iff in E as [_ Ht]. destruct taken; [|done].
  destruct work as [[|req]|], cookie as [k|]; simplify_eq/=; rewrite ?count_cons, ?count_nil; simpl;
    (split; [done|]); try lia;
    destruct req; try (simpl; lia); exfalso; by apply (Hnot _ eq_refl).
Qed.

(** What MAM work wants is never the registration request itself: it follows
    only from its saved attempt. *)
Lemma wanted_not_registration m now k reserve w n early request :
  wanted m now k reserve w n early = Some (Wanted_Request request) →
  request ≠ MamRequest_RegisterSeedbox.
Proof.
  unfold wanted, single, acquisition_request. intros H ->.
  repeat (case_match; simplify_eq/=).
  all: repeat match goal with E : _ <$> ?o = _ |- _ => destruct o; simplify_eq/= end.
Qed.

Lemma handle_level c now ev c' acts :
  budget_ok (mam_budget (core_mam c)) (monotonic now) →
  handle c now ev = Some (c', acts) →
  budget_ok (mam_budget (core_mam c')) (monotonic now)
  ∧ level (mam_budget (core_mam c')) (monotonic now) + count draws_token acts * REQUEST_REFILL
    = level (mam_budget (core_mam c)) (monotonic now).
Proof.
  intros Hok Hh. destruct (handle_parts _ _ _ _ _ Hh) as (c0 & c1 & a0 & m & t & a2 & cmd & Hp).
  destruct (handle_link_step _ _ _ _ _ _ _ _ _ _ _ _ Hp) as [moved Hs].
  rewrite count_draws. unfold link_step in Hs.
  destruct (link_event _ _ _) as [l1 b0] eqn:E1.
  assert (link_budget l1 = mam_budget (core_mam c) ∧ count draws_token b0 = 0) as [Hb Hd].
  { unfold link_event in E1. destruct ev as [e|e|e|e|name id|e|e|e|e|e|e]; try by simplify_eq.
    by apply link_handle_cases in E1 as [(-> & _ & _ & -> & _)|(? & ? & _ & _ & -> & ->)]. }
  match type of Hs with context [link_send ?l ?nw ?k ?w] =>
    destruct (link_send l nw k w) as [l3 b2] eqn:E3 end.
  apply link_send_level in E3 as [Hok3 Hlev]; [| |].
  - injection Hs as Hl Ha. change (mam_budget (core_mam c')) with (link_budget (link (core_mam c'))).
    rewrite <-Ha, count_app, Hd, <-Hl. split; [done|]. simpl in Hlev. rewrite Hb in Hlev. lia.
  - simpl. by rewrite Hb.
  - intros request. apply wanted_not_registration.
Qed.

Lemma run_level t c events c' trace :
  budget_ok (mam_budget (core_mam c)) t → ascending t (event_times events) →
  run c events = Some (c', trace) →
  let t' := last_time t (event_times events) in
  budget_ok (mam_budget (core_mam c')) t'
  ∧ level (mam_budget (core_mam c')) t'
      + count draws_token (trace_actions trace) * REQUEST_REFILL
    ≤ level (mam_budget (core_mam c)) t + (t' - t).
Proof.
  revert t c trace. induction events as [|e events IH]; intros t c trace Hok; simpl.
  { intros _ ?; simplify_eq. unfold last_time, trace_actions; simpl. rewrite count_nil.
    split; [done|lia]. }
  intros [Ht Hasc].
  destruct (handle c _ _) as [[c1 a1]|] eqn:E1; [|done]. simpl.
  destruct (run c1 events) as [[c2 a2]|] eqn:E2; [|done]. intros; simplify_eq/=.
  apply handle_level in E1 as [Hok1 Hlev1]; [|by eapply budget_ok_later].
  destruct (IH _ _ _ Hok1 Hasc E2) as [Hok2 Hlev2].
  change (last_time t (_ :: event_times events))
    with (last_time (monotonic (occurred_at e)) (event_times events)).
  split; [done|]. rewrite trace_actions_cons, count_app.
  pose proof (level_grows (mam_budget (core_mam c)) t (monotonic (occurred_at e))). lia.
Qed.

(** C24: In every window of every run, however long the run was before it, the
    requests sent to MAM (a registration counts when its attempt is saved) number
    at most ten and one more for each three seconds the window lasts. *)
Theorem mam_request_rate t0 before c trace0 e window c' trace :
  ascending t0 (event_times (before ++ e :: window)) → t0 ≤ TIME_MAX →
  run Core.new before = Some (c, trace0) → run c (e :: window) = Some (c', trace) →
  let first := monotonic (occurred_at e) in
  count draws_token (trace_actions trace) * REQUEST_REFILL
    ≤ REQUEST_BURST * REQUEST_REFILL + (last_time first (event_times window) - first).
Proof.
  intros Hasc Ht0 Hr0 Hr. cbv zeta.
  unfold event_times in Hasc. rewrite fmap_app in Hasc.
  assert (ascending t0 (event_times before)
    ∧ ascending (last_time t0 (event_times before)) (event_times (e :: window))) as [Ha1 Ha2].
  { by apply ascending_app. }
  destruct (run_level t0 Core.new before c trace0) as [Hok _]; [|done..|].
  { by apply new_ok. }
  simpl in Ha2. destruct Ha2 as [Hle Ha2].
  assert (budget_ok (mam_budget (core_mam c)) (monotonic (occurred_at e))) as Hok'
    by (by eapply budget_ok_later).
  destruct (run_level (monotonic (occurred_at e)) c (e :: window) c' trace) as [Hok2 Hlev]; [done| |done|].
  { simpl. split; [lia|done]. }
  pose proof (level_bounds _ _ Hok'). pose proof (level_bounds _ _ Hok2). fold CAPACITY.
  change (last_time (monotonic (occurred_at e)) (event_times (e :: window)))
    with (last_time (monotonic (occurred_at e)) (event_times window)) in *. lia.
Qed.

Lemma mam_request_rate_witness :
  count draws_token (trace_actions (default (Core.new, [])
     (run (sample_core 9) (sample_event 9 :: skipn 10 sample_run))).2) * REQUEST_REFILL
    ≤ REQUEST_BURST * REQUEST_REFILL
      + (last_time (monotonic (occurred_at (sample_event 9)))
           (event_times (skipn 10 sample_run)) - monotonic (occurred_at (sample_event 9))).
Proof.
  apply (mam_request_rate 0 (firstn 9 sample_run) (sample_core 9) (sample_result 9).2
    (sample_event 9) (skipn 10 sample_run)
    (default (Core.new, []) (run (sample_core 9) (sample_event 9 :: skipn 10 sample_run))).1).
  - vm_compute. repeat split; discriminate.
  - vm_compute. discriminate.
  - vm_compute. reflexivity.
  - vm_compute. reflexivity.
Defined.

(** ** The decision behind a request *)

Lemma link_send_work l now cookie work l' acts a :
  link_send l now cookie work = (l', acts) → a ∈ acts →
  (work = Some Wanted_Register ∧ a = Action_SaveRegistrationAttempt (wall now)
   ∧ ∃ k, cookie = Some k ∧ link_outstanding l' =
       Some (Outstanding_SavingRegistration (wall now) k (link_epoch l)))
  ∨ ∃ request, work = Some (Wanted_Request request)
      ∧ a = Action_MamRequest request (opt_filter (λ _, MamRequest_needs_cookie request) cookie).
Proof.
  unfold link_send. intros H Ha. destruct (take _ _) as [b taken].
  destruct (negb _ || _ || _); simplify_eq; [by apply elem_of_nil in Ha|].
  destruct work as [[|req]|], cookie as [k|]; simplify_eq/=;
    try (by apply elem_of_nil in Ha); apply list_elem_of_singleton in Ha; subst a; eauto 6.
Qed.

(** A request other than the registration is one the step's decision wanted. *)
Lemma request_decided c now ev c' acts request k :
  handle c now ev = Some (c', acts) →
  Action_MamRequest request k ∈ acts → request ≠ MamRequest_RegisterSeedbox →
  ∃ c0 c1 a0 m t a2 cmd, step_parts c now ev c' acts c0 c1 a0 m t a2 cmd
    ∧ Action_MamRequest request k ∈ a2
    ∧ let p := prepare (core_mam c1) now (mam_context c1) in
      k = opt_filter (λ _, MamRequest_needs_cookie request) (prep_cookie p)
      ∧ request_reason (prep_mam p) now (ctx_reserve (mam_context c1)) (prep_watching p)
          (prep_next p) (prep_early p) request
      ∧ (request = MamRequest_LookUpIp
         ∨ is_some (prep_cookie p) = true ∧ is_Some (Network.current (mam_network (prep_mam p))))
      ∧ net_last_sent (mam_network (prep_mam p))
        = link_last_sent (link_event (link (core_mam c)) (monotonic now) ev).1.
Proof.
  intros Hh Ha Hreq. destruct (handle_parts _ _ _ _ _ Hh) as (c0 & c1 & a0 & m & t & a2 & cmd & Hp).
  exists c0, c1, a0, m, t, a2, cmd. split; [done|].
  destruct (handle_link_step _ _ _ _ _ _ _ _ _ _ _ _ Hp) as [moved0 Hs].
  pose proof (parts_mam_actions _ _ _ _ _ _ _ _ _ _ _ _ Hp) as Hac.
  pose proof Hp as [Hev Hobs Hdec Hst Hse Htu Hma _ _ _ _].
  apply decide_link in Hdec as (moved & Hl & Hd). set (p := prepare (core_mam c1) now (mam_context c1)) in Hl, Hd.
  apply handle_event_link in Hev as [Hle _].
  destruct (begun_frame c ev) as (_ & _ & _ & Hm & _). rewrite Hm in Hle.
  destruct (observe_step_frame c0 now) as (_ & _ & _ & Hm1 & _). rewrite Hobs in Hm1.
  assert (Action_MamRequest request k ∈ mam_actions acts) as Hin by (by apply elem_of_mam_actions).
  rewrite Hac, elem_of_app in Hin. destruct Hin as [Hin|Hin].
  { exfalso. apply (f_equal snd) in Hle. simpl in Hle. rewrite Hle in Hin.
    unfold link_event in Hin. destruct ev as [e|e|e|e|name id|e|e|e|e|e|e];
      try by apply elem_of_nil in Hin.
    destruct (link_handle _ _ e) as [l1 b1] eqn:E1. simpl in Hin.
    apply link_handle_cases in E1 as [(-> & _)|(? & ? & _ & _ & _ & ->)];
      [by apply elem_of_nil in Hin|].
    apply list_elem_of_singleton in Hin. by simplify_eq. }
  split; [by apply elem_of_guarded in Hin as []|]. intros p'. subst p'. fold p.
  match type of Hd with _ = link_send ?l ?nw ?ck ?w =>
    destruct (link_send l nw ck w) as [l3 b2] eqn:E3 end.
  injection Hd as Hlm Hb. rewrite Hb in Hin.
  destruct (link_send_work _ _ _ _ _ _ _ E3 Hin) as [(_ & ? & _)|(req & Hw & Heq)]; [done|].
  simplify_eq. apply wanted_request_reason in Hw as [Hreason Hck].
  split; [done|]. split; [done|]. split; [naive_solver|].
  change (net_last_sent (mam_network (prep_mam p))) with (link_last_sent (link (prep_mam p))).
  rewrite Hl. simpl. rewrite Hm1. apply (f_equal fst) in Hle. simpl in Hle. by rewrite <-Hle.
Qed.

(** ** The cookie *)

(** A request to MAM other than the registration carries a cookie exactly
    when it needs one, and then it is the cookie in storage, with no change to it
    being saved and none that failed to save. *)
Theorem mam_request_cookie c now ev c' acts request k :
  handle c now ev = Some (c', acts) →
  Action_MamRequest request k ∈ acts → request ≠ MamRequest_RegisterSeedbox →
  if MamRequest_needs_cookie request
  then is_Some k ∧ (Settings.loaded (core_settings c') ≫= usable_api_cookie) = k
  else k = None.
Proof.
  intros Hh Ha Hreq.
  destruct (request_decided _ _ _ _ _ _ _ Hh Ha Hreq)
    as (c0 & c1 & a0 & m & t & a2 & cmd & Hp & _ & -> & _ & Hck & _).
  destruct (prepare_spec (core_mam c1) now (mam_context c1)) as (? & ? & ? & ? & _ & _ & _ & _ & _ & Hk).
  destruct (prep_cookie _) as [cookie|].
  - destruct (MamRequest_needs_cookie request) eqn:En; simpl; rewrite ?En; [|done].
    split; [by eexists|]. rewrite (sp_settings _ _ _ _ _ _ _ _ _ _ _ _ Hp).
    destruct (observe_step_frame c0 now) as (_ & Hs1 & _).
    rewrite (sp_observe _ _ _ _ _ _ _ _ _ _ _ _ Hp) in Hs1. rewrite <-Hs1. by apply Hk.
  - destruct Hck as [->|[? _]]; done.
Qed.

Lemma mam_request_cookie_witness :
  is_Some (Some "cookie"%string)
  ∧ (Settings.loaded (core_settings (sample_step 12).1) ≫= usable_api_cookie) = Some "cookie"%string.
Proof.
  apply (mam_request_cookie (sample_core 12) (occurred_at (sample_event 12))
    (timed_event (sample_event 12)) (sample_step 12).1 (sample_step 12).2
    (MamRequest_LoadUserData ClientListing_Include) (Some "cookie"%string)).
  - vm_compute. reflexivity.
  - apply list_elem_of_In. vm_compute. left. reflexivity.
  - discriminate.
Defined.

(** ** The spacing of IP lookups *)

Lemma link_send_last_sent l now cookie work l' acts :
  link_send l now cookie work = (l', acts) →
  (link_last_sent l' = link_last_sent l ∨ link_last_sent l' = Some (monotonic now))
  ∧ ∀ k, Action_MamRequest MamRequest_LookUpIp k ∈ acts →
      link_last_sent l' = Some (monotonic now).
Proof.
  intros H. unfold link_send in H. destruct (take _ _) as [b taken].
  destruct (negb _ || _ || _); simplify_eq; [split; [by left|by intros k ?%elem_of_nil]|].
  destruct work as [[|req]|], cookie; simplify_eq/=;
    try (split; [by left|intros k; rewrite ?list_elem_of_singleton, ?elem_of_nil; done]);
    (case_bool_decide; [by auto|]; split; [by left|]; intros k ?%list_elem_of_singleton;
     by simplify_eq).
Qed.

(** The last lookup, or the start, as a step leaves it: never earlier than it
    was, and now after a lookup or when MAM is enabled. *)
Lemma handle_last_sent c now ev c' acts :
  handle c now ev = Some (c', acts) →
  let sent := net_last_sent (mam_network (core_mam c)) in
  let sent' := net_last_sent (mam_network (core_mam c')) in
  (sent' = sent ∨ sent' = Some (monotonic now))
  ∧ (ev = Event_Mam MamEvent_Enable → sent' = Some (monotonic now))
  ∧ (∀ k, Action_MamRequest MamRequest_LookUpIp k ∈ acts → sent' = Some (monotonic now)).
Proof.
  intros Hh. destruct (handle_parts _ _ _ _ _ Hh) as (c0 & c1 & a0 & m & t & a2 & cmd & Hp).
  destruct (handle_link_step _ _ _ _ _ _ _ _ _ _ _ _ Hp) as [moved Hs]. cbv zeta.
  change (net_last_sent (mam_network (core_mam c'))) with (link_last_sent (link (core_mam c'))).
  change (net_last_sent (mam_network (core_mam c))) with (link_last_sent (link (core_mam c))).
  set (l := link (core_mam c)) in *. unfold link_step in Hs.
  destruct (link_event l _ _) as [l1 b0] eqn:E1.
  match type of Hs with context [link_send ?l ?nw ?k ?w] =>
    destruct (link_send l nw k w) as [l3 b2] eqn:E3 end.
  injection Hs as Hl Ha. rewrite <-Hl.
  assert ((link_last_sent l1 = link_last_sent l ∨ link_last_sent l1 = Some (monotonic now))
    ∧ (ev = Event_Mam MamEvent_Enable → link_last_sent l1 = Some (monotonic now))
    ∧ ∀ k, Action_MamRequest MamRequest_LookUpIp k ∉ b0) as (H1 & H1e & H1b).
  { unfold link_event in E1. destruct ev as [e|e|e|e|name id|e|e|e|e|e|e];
      try (simplify_eq; split_and!; [by left|done|by intros k ?%elem_of_nil]).
    split_and!.
    - apply link_handle_cases in E1 as [(_ & _ & _ & _ & _ & [?|[_ ?]] & _)|(? & ? & _ & _ & -> & _)]; auto.
    - intros [= ->]. by destruct (link_outstanding l) eqn:Eo; simpl in E1; simplify_eq/=.
    - apply link_handle_cases in E1 as [(-> & _)|(? & ? & _ & _ & _ & ->)];
        [by intros k ?%elem_of_nil|intros k Hk%list_elem_of_singleton; done]. }
  assert ((link_last_sent l3 = link_last_sent l1 ∨ link_last_sent l3 = Some (monotonic now))
    ∧ ∀ k, Action_MamRequest MamRequest_LookUpIp k ∈ b2 → link_last_sent l3 = Some (monotonic now))
    as [H3 H3b].
  { by apply link_send_last_sent in E3. }
  split_and!.
  - destruct H3 as [->|?]; auto.
  - intros He. destruct H3 as [->|?]; auto.
  - intros k Hk. apply (H3b k).
    assert (Action_MamRequest MamRequest_LookUpIp k ∈ mam_actions acts) as Hin
      by (by apply elem_of_mam_actions).
    rewrite <-Ha, elem_of_app in Hin. destruct Hin; [by destruct (H1b k)|done].
Qed.

(** A mark: MAM was enabled, or an IP lookup was asked for, at this time. *)
Definition lookup_marked (events : list TimedEvent) (trace : list (ClockReading * Action))
    (s : Instant) : Prop :=
  (∃ e, e ∈ events ∧ timed_event e = Event_Mam MamEvent_Enable ∧ monotonic (occurred_at e) = s)
  ∨ ∃ now k, (now, Action_MamRequest MamRequest_LookUpIp k) ∈ trace ∧ monotonic now = s.

Lemma run_last_sent t c events c' trace :
  ascending t (event_times events) → run c events = Some (c', trace) →
  let t' := last_time t (event_times events) in
  t ≤ t'
  ∧ (∀ u, net_last_sent (mam_network (core_mam c)) = Some u → u ≤ t →
      ∃ u', net_last_sent (mam_network (core_mam c')) = Some u' ∧ u ≤ u' ≤ t')
  ∧ ∀ s, lookup_marked events trace s →
      ∃ u, net_last_sent (mam_network (core_mam c')) = Some u ∧ s ≤ u ≤ t'.
Proof.
  revert t c trace. induction events as [|e events IH]; intros t c trace; simpl.
  { intros _ ?; simplify_eq. unfold last_time; simpl. split_and!; [lia|intros u ->; eauto with lia|].
    intros s [(e & He & _)|(now & k & Hk & _)]; [by apply elem_of_nil in He|by apply elem_of_nil in Hk]. }
  intros [Ht Hasc].
  destruct (handle c _ _) as [[c1 a1]|] eqn:E1; [|done]. simpl.
  destruct (run c1 events) as [[c2 a2]|] eqn:E2; [|done]. intros; simplify_eq/=.
  change (last_time t (_ :: event_times events))
    with (last_time (monotonic (occurred_at e)) (event_times events)).
  set (now := occurred_at e) in *.
  destruct (IH _ _ _ Hasc E2) as (Hge & Hkeep & Hmark). clear IH.
  apply handle_last_sent in E1 as (Hs & Hen & Hlk).
  split_and!; [lia| |].
  - intros u Hu Hut. destruct Hs as [Hs|Hs].
    + rewrite Hu in Hs. destruct (Hkeep u Hs) as (u' & -> & ?); [lia|]. eauto with lia.
    + destruct (Hkeep _ Hs) as (u' & -> & ?); [lia|]. exists u'. split; [done|lia].
  - assert (∀ s, s = monotonic now →
      net_last_sent (mam_network (core_mam c1)) = Some (monotonic now) →
      ∃ u, net_last_sent (mam_network (core_mam c')) = Some u
        ∧ s ≤ u ≤ last_time (monotonic now) (event_times events)) as Hnow.
    { intros s -> Hs1. destruct (Hkeep _ Hs1) as (u' & -> & ?); [lia|]. eauto. }
    intros s [(e' & He & Hev & <-)|(now' & k & Hk & <-)].
    + apply elem_of_cons in He as [->|He]; [apply Hnow; [done|by apply Hen]|].
      apply Hmark. left. eauto.
    + apply elem_of_app in Hk as [Hk|Hk].
      * apply list_elem_of_fmap in Hk as (a & [= -> <-] & Hin). apply Hnow; [done|by eapply Hlk].
      * apply Hmark. right. eauto.
Qed.

(** An IP lookup is sent no sooner than a minute after every earlier lookup
    and after every start of MAM work, whatever made it wanted: a pause, a server
    switch, a repair or the five-minute routine. *)
Theorem ip_lookups_spaced t0 before c trace e c' acts k s :
  ascending t0 (event_times (before ++ [e])) →
  run Core.new before = Some (c, trace) →
  handle c (occurred_at e) (timed_event e) = Some (c', acts) →
  Action_MamRequest MamRequest_LookUpIp k ∈ acts →
  lookup_marked before trace s →
  s + LOOKUP_SPACING ≤ monotonic (occurred_at e).
Proof.
  intros Hasc Hr Hh Ha Hmark. unfold event_times in Hasc. rewrite fmap_app in Hasc.
  apply ascending_app in Hasc as [Hasc [Hle _]].
  destruct (run_last_sent _ _ _ _ _ Hasc Hr) as (_ & _ & Hm).
  destruct (Hm s Hmark) as (u & Hu & Hsu & _).
  destruct (request_decided _ _ _ _ _ _ _ Hh Ha) as (c0 & c1 & a0 & m & t & a2 & cmd & Hp & _ & _ & Hdue & _ & Hls);
    [done|].
  simpl in Hdue. unfold due in Hdue. reflect_bools. rewrite Hls in *.
  assert (∃ u', link_last_sent (link_event (link (core_mam c)) (monotonic (occurred_at e))
      (timed_event e)).1 = Some u' ∧ (u' = u ∨ u' = monotonic (occurred_at e))) as (u' & Hu' & Hcase).
  { unfold link_event. destruct (timed_event e); try (simpl; eauto; done).
    destruct (link_handle _ _ event) as [l1 b1] eqn:E1.
    apply link_handle_cases in E1 as [(_ & _ & _ & _ & _ & [Hl|[_ Hl]] & _)|(? & ? & _ & _ & -> & _)];
      simpl; eauto. rewrite Hl. simpl. rewrite Hu. eauto. }
  rewrite Hu' in *. simpl in *. reflect_bools. unfold duration_since in *.
  unfold LOOKUP_SPACING, from_mins, from_secs, NANOS_PER_SEC in *. lia.
Qed.

Lemma ip_lookups_spaced_witness :
  from_secs 1 + LOOKUP_SPACING ≤ monotonic (occurred_at (sample_event 9)).
Proof.
  apply (ip_lookups_spaced 0 (firstn 9 sample_run) (sample_core 9) (sample_result 9).2
    (sample_event 9) (sample_step 9).1 (sample_step 9).2 None).
  - vm_compute. repeat split; discriminate.
  - vm_compute. reflexivity.
  - vm_compute. reflexivity.
  - apply list_elem_of_In. vm_compute. left. reflexivity.
  - left. exists (sample_event 6). split; [|split; reflexivity].
    apply list_elem_of_In. vm_compute. do 6 right. left. reflexivity.
Defined.
