(* ===== verification/Samples.v ===== *)
(** * A concrete run of downloads

    The run of [MamAccess.sample_run] continued: qBittorrent connects, the account
    and a bookmark are read, the bookmark's torrent is fetched, added and then
    counted against the ratio. The theorems about downloads are applied to its
    steps. *)

From S2P Require Import Prelude Values Vocabulary MamApi Messages Timer MamPause Startup.
From S2P Require Import Settings History PortForwarding Tunnel Qbittorrent Registry Budget.
From S2P Require Import RatioGuard Network Account Acquisition Connectability Mam MamProofs.
From S2P Require Import RegistryStorage RegistryIndex Notifications Core CoreProofs RegistryMoves MamAccess.

Definition sample_release : ClientVersion := mkClientVersion 5 2 2.

Definition sample_summary : SnatchSummary := {|
  summary_unsatisfied := 3;
  summary_unsatisfied_limit := 50;
  summary_unsatisfied_not_seeding := 0;
  summary_hit_and_run_not_seeding := 0;
  summary_partial := Partials_NotSeen;
  summary_duplicates := 0;
  summary_tracker_errors := 0;
  summary_connectable := Connectable_Yes;
  summary_red := [] |}.

(** A reading of the account with this downloaded figure. *)
Definition sample_data (downloaded : ByteSize) : UserData := {|
  data_uploaded := 9_000_000_000;
  data_downloaded := downloaded;
  data_points := 50_000;
  data_wedges := 2;
  data_class := UserClass_Vip;
  data_vip_until := Some (from_secs 1_900_000_000);
  data_summary := Some sample_summary;
  data_notices := None;
  data_clients := Some [mkListedClient (Some sample_release) (Some Connectable_Yes)
                          ClientRefusal_NotRefused] |}.

Definition sample_bookmark : Bookmark := {|
  bookmark_id := 42;
  bookmark_title := "A Book";
  bookmark_vip := VipTorrent_No;
  bookmark_freeleech := Freeleech_ForEveryone;
  bookmark_personal := PersonalFreeleech_No;
  bookmark_snatched := Snatched_Never;
  bookmark_bookmarked_at := None |}.

Definition sample_sync (torrents : list (TorrentHash * TorrentUpdate)) : QbittorrentEvent :=
  QbittorrentEvent_Synced (mkSyncUpdate 1 SyncScope_Full torrents []).

(** A torrent halfway through its download. *)
Definition sample_progress : TorrentUpdate :=
  {| TorrentUpdate_default with
     update_state := Some TorrentState_Downloading;
     update_progress := Some 500;
     update_size := Some 700;
     update_total_size := Some 700;
     update_downloaded := Some 350 |}.

Definition sample_answer (reply : MamReply) : Event :=
  Event_Mam (MamEvent_Answered (Ok reply) None).

Definition downloads_run : list TimedEvent := sample_run ++ [
  at_secs 65 (Event_Qbittorrent QbittorrentEvent_Enable);
  at_secs 66 (Event_Qbittorrent (QbittorrentEvent_Connected
    (ReportedVersion_Release sample_release) (mkQbittorrentPreferences None None None)));
  at_secs 67 (Event_Qbittorrent (sample_sync []));
  at_secs 68 (sample_answer (MamReply_UserData (sample_data 1_000_000_000)));
  at_secs 69 (sample_answer (MamReply_Bookmarks (mkBookmarkPage 1 [sample_bookmark])));
  at_secs 70 (sample_answer (MamReply_Fetched (mkFetchedTorrent "f00d" 700)));
  at_secs 97 (Event_TimerExpired TimerName_QbittorrentPoll 4);
  at_secs 98 (Event_Qbittorrent (sample_sync []));
  at_secs 99 (Event_Qbittorrent QbittorrentEvent_CommandDone);
  at_secs 100 (Event_Qbittorrent (sample_sync [("f00d"%string, sample_progress)]));
  at_secs 101 (Event_Registry RegistryEvent_Saved);
  at_secs 362 (Event_TimerExpired TimerName_Mam 5);
  at_secs 363 (sample_answer (MamReply_Ip (mkIpObservation sample_ip 7 None)));
  at_secs 368 (Event_TimerExpired TimerName_Mam 9);
  at_secs 369 (sample_answer (MamReply_UserData (sample_data 1_000_000_700)));
  at_secs 370 (Event_TimerExpired TimerName_QbittorrentPoll 7);
  at_secs 371 (Event_Qbittorrent (sample_sync [("f00d"%string, sample_progress)]))].

(** The core before the [n]th event of the run, that event, and its step. *)
Definition downloads_result (n : nat) : Core * list (ClockReading * Action) :=
  default (Core.new, []) (run Core.new (firstn n downloads_run)).
Definition downloads_core (n : nat) : Core := (downloads_result n).1.
Definition downloads_event (n : nat) : TimedEvent :=
  default (at_secs 0 (Event_Startup StartupEvent_StorageOpened)) (downloads_run !! n).
Definition downloads_step (n : nat) : Core * list Action :=
  default (Core.new, [])
    (handle (downloads_core n) (occurred_at (downloads_event n))
       (timed_event (downloads_event n))).

Lemma downloads_reachable n :
  run Core.new (firstn n downloads_run) = Some (downloads_result n) → reachable (downloads_core n).
Proof.
  intros Hr. exists (firstn n downloads_run), (downloads_result n).2. split.
  - rewrite Hr. unfold downloads_core. by destruct (downloads_result n).
  - rewrite length_firstn. change (length downloads_run) with 30%nat. unfold u64_max. lia.
Qed.

(** The run reads no rows but an empty table. *)
Lemma downloads_events_ok n : Forall (λ e, event_ok (timed_event e)) (firstn n downloads_run).
Proof.
  apply Forall_take. repeat (apply Forall_cons_2; [try exact I|]); [|apply Forall_nil_2].
  split; [intros a b Hin|intros a b h Hin]; by apply elem_of_nil in Hin.
Qed.

Definition downloads_rows (n : nat) : Records :=
  default (Records_new []) (Registry.loaded (core_registry (downloads_core n))).

Lemma registry_indexes_sound_witness :
  run Core.new (firstn 19 downloads_run) = Some (downloads_result 19)
  ∧ Registry.find (downloads_rows 19) "f00d" = head (records (downloads_rows 19))
  ∧ rows_distinct (records (downloads_rows 19)).
Proof.
  assert (run Core.new (firstn 19 downloads_run) = Some (downloads_result 19)) as Hrun
    by (vm_compute; reflexivity).
  split; [exact Hrun|].
  destruct (registry_indexes_sound (firstn 19 downloads_run) (downloads_core 19)
    (downloads_result 19).2 (downloads_rows 19)) as (Hfind & _ & Hrows).
  - vm_compute. reflexivity.
  - apply downloads_events_ok.
  - vm_compute. reflexivity.
  - split; [|exact Hrows].
    rewrite (Hfind (default (sample_row 0 (Identity_Mam 0) Desired_Queued)
      (head (records (downloads_rows 19)))) "f00d"%string).
    + vm_compute. reflexivity.
    + apply list_elem_of_In. vm_compute. left. reflexivity.
    + vm_compute. reflexivity.
Defined.
