(* ===== verification/Admission.v ===== *)
(** * Admission

    Which downloads are fetched, and when a wedge is spent: the rules a torrent
    must meet before its file is asked for, from the account, the ratio guard,
    qBittorrent and the torrent's own listing. *)

From S2P Require Import Prelude Values Vocabulary MamApi Messages Timer MamPause Startup.
From S2P Require Import Settings History PortForwarding Tunnel Qbittorrent Registry Budget.
From S2P Require Import RatioGuard Network Account Acquisition Connectability Mam MamProofs.
From S2P Require Import Notifications Core CoreProofs MamAccess Samples.

#[local] Arguments Mam.decide : simpl never.
#[local] Arguments Mam.handle : simpl never.
#[local] Arguments mam_context : simpl never.
#[local] Arguments Acquisition.next : simpl never.
#[local] Arguments prepare : simpl never.

(** ** The rules *)

(** What decides whether a wedge is spent: the torrent's own listing, seen in the
    last five minutes, shows it free for the owner; or the bonus history, read in
    the last five minutes and a minute after the torrent's last wedged download,
    shows whether a wedge was spent on it. *)
Record wedge_decided (acq : Acquisition) (id : MamTorrentId) (data : UserData)
    (now : Instant) (wall : SystemTime) (wedge : Wedge) : Prop := {
  wd_listing : ∃ listing seen,
    current acq id now LOOKUP_FRESH_FOR = Some (Some listing, seen)
    ∧ match wedge with
      | Wedge_Keep => free_for_owner listing data wall = true
          ∨ ∃ history, history_settles acq id now = Some history ∧ id ∈ history_wedged history
      | Wedge_Spend => free_for_owner listing data wall = false
          ∧ WedgeCount_is_zero (data_wedges data) = false
          ∧ ∃ history, history_settles acq id now = Some history ∧ id ∉ history_wedged history
      end;
}.

(** The admission rules, for a queued torrent. *)
Record admits (acq : Acquisition) (queued : list MamTorrentId) (facts : Acquisition.Facts)
    (id : MamTorrentId) (wedge : Wedge) : Prop := {
  ad_queued : id ∈ queued;
  ad_bookmarked : is_Some (Bookmarks_find (acq_bookmarks acq) id);
  ad_gate : facts_gate facts = RequestGate_Open;
  ad_seedbox : facts_seedbox facts = SeedboxConfirmation_Confirmed;
  ad_not_refused : acq_refused acq = None;
  ad_ratio_guard : permits_downloads (facts_ratio_guard facts) = true;
  ad_readiness : facts_readiness facts = ClientReadiness_Ready;
  ad_downloading : facts_downloading facts < facts_downloading_limit facts;
  ad_client : ClientStanding_admits (facts_client facts) = true;
  ad_ratio : ratio_low (facts_account facts) = None;
  ad_account : ∃ data summary,
    fresh (facts_account facts) (facts_now facts) (acq_last_admission acq) = Some data
    ∧ data_summary data = Some summary
    ∧ UnsatisfiedLimit_admits_one_more (summary_unsatisfied_limit summary)
        (UnsatisfiedCount_plus (summary_unsatisfied summary) (facts_recent facts))
        UNSATISFIED_RESERVE = true
    ∧ wedge_decided acq id data (facts_now facts) (facts_wall facts) wedge;
}.

Lemma find_id l id b :
  List.find (λ b, bookmark_id b ==? id) l = Some b → bookmark_id b = id.
Proof. intros [_ H]%List.find_some. by apply bool_decide_eq_true in H. Qed.

Lemma candidate_spec acq queued b :
  candidate acq queued = Some b →
  bookmark_id b ∈ queued ∧ Bookmarks_find (acq_bookmarks acq) (bookmark_id b) = Some b.
Proof.
  unfold candidate. intros (id & Hid & [Hf _]%opt_filter_Some)%find_map_Some.
  pose proof Hf as Hb. unfold Bookmarks_find in Hb. apply bind_Some in Hb as (l & _ & Hl).
  apply find_id in Hl as ->. done.
Qed.

Lemma next_fetch acq queued facts id wedge :
  Acquisition.next acq queued facts = Next_Fetch id wedge → admits acq queued facts id wedge.
Proof.
  unfold Acquisition.next. destruct (candidate acq queued) as [b|] eqn:Ec; [|by case_match].
  apply candidate_spec in Ec as [Hq Hb].
  destruct (facts_gate facts) eqn:Eg; [|done]. destruct (facts_seedbox facts) eqn:Es; [|done].
  destruct (acq_refused acq) eqn:Er; [done|].
  destruct (facts_ratio_guard facts) as [| |downloaded|used] eqn:Eguard; try done.
  destruct (facts_readiness facts) eqn:Ey; [|done]. simpl.
  destruct (DownloadingLimit_is_reached_by _ _) eqn:El; [done|].
  destruct (fresh _ _ _) as [data|] eqn:Ed; [|done].
  destruct (ClientStanding_admits _) eqn:Ea; [|done]. simpl.
  destruct (ratio_low _) eqn:Elow; [done|]. simpl.
  destruct (data_summary data) as [summary|] eqn:Esum; [|done].
  destruct (UnsatisfiedLimit_admits_one_more _ _ _) eqn:Eu; [|done]. simpl.
  intros Hn.
  assert (wedge_decided acq (bookmark_id b) data (facts_now facts) (facts_wall facts) wedge
    ∧ bookmark_id b = id) as [Hw <-].
  { destruct (current _ _ _ _) as [[[listing|] seen]|] eqn:Ecur;
      [|by unfold ask in Hn; case_match..].
    destruct (free_for_owner _ _ _) eqn:Ef; simplify_eq.
    { split; [|done]. split. eauto 6. }
    destruct (history_settles _ _ _) as [h|] eqn:Eh; [|by unfold ask in Hn; case_match].
    destruct (bool_decide (bookmark_id b ∈ history_wedged h)) eqn:Hin; reflect_bools;
      simpl in Hn; simplify_eq.
    - split; [|done]. split. eauto 8.
    - destruct (WedgeCount_is_zero _) eqn:Ez; simplify_eq. split; [|done]. split. eauto 10. }
  unfold DownloadingLimit_is_reached_by in El. reflect_bools.
  split; try done; [by rewrite Eguard|eauto 7].
Qed.

(** ** The state a decision is made on *)

(** Downloads qBittorrent added in the last hour, or will add; and those that
    are running and not finished. *)
Definition recent_downloads (rows : option Records) (wall : SystemTime) : UnsatisfiedCount :=
  match rows with
  | Some rows => try_from_or_max u32_max (Z.of_nat (length
      (filter (λ download, recent download wall) (downloads rows))))
  | None => 0
  end.
Definition running_downloads (rows : option Records) : TorrentCount :=
  match rows with
  | Some rows => TorrentCount_counting (filter Download_is_downloading (downloads rows))
  | None => 0
  end.

Lemma follow_connectability_current m now ctx :
  let m' := follow_connectability m now ctx in
  is_Some (Network.current (mam_network m')) →
  Network.current (mam_network m') = Network.current (mam_network m).
Proof.
  unfold follow_connectability. destruct (follow _ _) as [c []]; simpl; [|done].
  unfold Network.current, Network_unconfirm. simpl.
  destruct (net_observed _) as [o|]; simpl; by intros [? ?].
Qed.

Lemma follow_connectability_client m now ctx :
  mam_client (follow_connectability m now ctx) = mam_client m
  ∧ mam_account (follow_connectability m now ctx) = mam_account m.
Proof. unfold follow_connectability. by destruct (follow _ _) as [c []]. Qed.

Lemma watch_downloads_spec m now rows :
  (watch_downloads m now rows).2 = recent_downloads rows (wall now)
  ∧ mam_client (watch_downloads m now rows).1 = mam_client m
  ∧ mam_account (watch_downloads m now rows).1 = mam_account m
  ∧ mam_network (watch_downloads m now rows).1 = mam_network m.
Proof. unfold watch_downloads. by destruct rows. Qed.

(** With a current observation of the connection, the facts are those of the
    state that sends. *)
Lemma prepare_facts m now ctx :
  let p := prepare m now ctx in
  is_Some (Network.current (mam_network (prep_mam p))) →
  mam_client (prep_mam p) = client_standing (mam_account (prep_mam p)) (ctx_client_version ctx)
  ∧ prep_facts p = decide_facts (prep_mam p) now ctx (prep_gate p) (prep_cookie p)
      (Network.current (mam_network (prep_mam p)))
      (recent_downloads (prep_records p) (wall now)) (running_downloads (prep_records p)).
Proof.
  intros p. unfold p, prepare. clear p.
  destruct (remind m now) as [m1 a1]. destruct (follow_gate m1 ctx) as [m2 g].
  set (m3 := follow_cookie m2 ctx). set (m4 := {| m3 with mam_client := _ |}).
  pose proof (follow_connectability_current m4 now ctx) as Hcur.
  destruct (follow_connectability_client m4 now ctx) as [Hc Ha].
  set (m5 := follow_connectability m4 now ctx) in *.
  destruct (watch_downloads_spec m5 now (Registry.loaded (ctx_registry ctx)))
    as (Hr & Hwc & Hwa & Hwn).
  destruct (watch_downloads m5 now _) as [m6 recent]. simpl in *.
  intros Hsome. rewrite Hwn in Hsome.
  split; [by rewrite Hwc, Hc, Hwa, Ha|].
  rewrite Hwn, Hr, (Hcur Hsome). by destruct (Registry.loaded _).
Qed.

(** The watch is over the rows and the account of the same state. *)
Lemma prepare_watched m now ctx :
  let p := prepare m now ctx in
  acq_watched (mam_acquisition (prep_mam p)) =
    match prep_records p with
    | Some rows => watch_all (mam_acquisition (prep_mam p)) (downloads rows)
                     (Account.data (mam_account (prep_mam p))) (monotonic now) (wall now)
    | None => []
    end.
Proof.
  intros p. unfold p, prepare. clear p.
  destruct (remind m now) as [m1 a1]. destruct (follow_gate m1 ctx) as [m2 g].
  match goal with |- context [watch_downloads ?m now _] => generalize m; intros m5 end.
  unfold watch_downloads. by destruct (Registry.loaded _).
Qed.

(** ** Sending *)

(** The state after a request is what sending it notes, beside the budget, the
    request itself and the wake. *)
Lemma decide_sent m now ctx timers m' timers' acts request k :
  decide m now ctx timers = (m', timers', acts) →
  Action_MamRequest request k ∈ acts →
  let p := prepare m now ctx in
  let noted := note_sent (prep_mam p) now (prep_records p) request in
  ∃ b o w, m' = {| noted with mam_budget := b; mam_outstanding := o; mam_wake := w |}.
Proof.
  intros H Ha p noted. unfold decide in H. fold p in H.
  assert (Action_MamRequest request k ∉ prep_reminded p) as Hr.
  { intros Hin. destruct (prepare_link m now ctx) as (_ & _ & _ & Hr). fold p in Hr.
    assert (Action_MamRequest request k ∈ guarded (prep_reminded p)) as Hg
      by (by apply elem_of_guarded).
    rewrite Hr in Hg. by apply elem_of_nil in Hg. }
  match type of H with (let '(_, _) := ?e in _) = _ => destruct e as [m2 sent] eqn:Es end.
  destruct (schedule_wake m2 now (prep_early p) timers) as [[m3 t3] woken] eqn:Ew. simplify_eq.
  rewrite !elem_of_app in Ha. destruct Ha as [?|[Ha|Ha]]; [done| |exfalso].
  - destruct (_ && _); [|by simplify_eq; apply elem_of_nil in Ha].
    assert (∃ b o, m2 = {| noted with mam_budget := b; mam_outstanding := o |}) as (b & o & ->).
    { unfold Mam.send in Es. destruct (take (mam_budget (prep_mam p)) _) as [b taken].
      destruct (wanted _ _ _ _ _ _ _) as [[|req]|], (prep_cookie p), taken; simplify_eq/=;
        try by apply elem_of_nil in Ha.
      all: try by apply list_elem_of_singleton in Ha.
      all: apply list_elem_of_singleton in Ha; simplify_eq; exists b; eexists;
        by destruct req. }
    unfold schedule_wake in Ew. destruct (min_list _) as [due|]; [|simplify_eq; by eexists _, _, _].
    destruct (is_some_and _ _); [simplify_eq; by eexists _, _, _|].
    destruct (schedule _ _ _) as [? []]. simplify_eq. by eexists _, _, _.
  - unfold schedule_wake in Ew. destruct (min_list _) as [due|]; [|simplify_eq; by apply elem_of_nil in Ha].
    destruct (is_some_and _ _); [simplify_eq; by apply elem_of_nil in Ha|].
    destruct (schedule _ _ _) as [? []]. simplify_eq. by apply list_elem_of_singleton in Ha.
Qed.

(** ** Rows a command leaves alone *)

Lemma rows_downloads rows rows' :
  records_rows rows = records_rows rows' →
  downloads rows = downloads rows' ∧ queued rows = queued rows'.
Proof. intros [= H _ _]. unfold downloads, queued, records. by rewrite H. Qed.

(** The facts an admission is decided on, read from the core. *)
Definition admission_facts (c : Core) (now : ClockReading) : Acquisition.Facts :=
  let m := core_mam c in
  let rows := Registry.loaded (core_registry c) in {|
  facts_now := monotonic now;
  facts_wall := wall now;
  facts_gate := mam_gate m;
  facts_seedbox := confirms (mam_seedbox m) (Network.current (mam_network m));
  facts_readiness := ctx_readiness (mam_context c);
  facts_client := client_standing (mam_account m) (ctx_client_version (mam_context c));
  facts_recent := recent_downloads rows (wall now);
  facts_downloading := running_downloads rows;
  facts_downloading_limit := ctx_downloading_limit (mam_context c);
  facts_ratio_guard := mam_ratio_guard m;
  facts_account := mam_account m;
|}.

(** A running download that is no longer free: unfinished, listed, seen not free
    after the bonus history last showed no wedge on it, and never wedged in this
    run; and a wedge is left. *)
Record rescues (acq : Acquisition) (rows : Records) (account : Account) (now : ClockReading)
    (id : MamTorrentId) : Prop := {
  rs_download : ∃ download, download ∈ downloads rows ∧ download_mam download = id
    ∧ download_completion download = Completion_Incomplete;
  rs_never_wedged : wedge_recorded acq id = None;
  rs_not_free : ∃ listing seen history data_,
    current acq id (monotonic now) WATCH_FRESH_FOR = Some (Some listing, seen)
    ∧ acq_history acq = Some history ∧ id ∉ history_wedged history ∧ seen ≤ history_at history
    ∧ fresh account (monotonic now) None = Some data_
    ∧ free_for_owner listing data_ (wall now) = false
    ∧ WedgeCount_is_zero (data_wedges data_) = false;
}.

Lemma fresh_data account now since d : fresh account now since = Some d → Account.data account = Some d.
Proof.
  unfold fresh, Account.data. destruct (account_reading account); [|done]. simpl.
  by case_match.
Qed.

Lemma watch_next_fetch acq rows account now id wedge :
  acq_watched acq = watch_all acq (downloads rows) (Account.data account) (monotonic now) (wall now) →
  watch_next acq account (monotonic now) = Next_Fetch id wedge →
  wedge = Wedge_Spend ∧ rescues acq rows account now id.
Proof.
  unfold watch_next. intros Hw Hn.
  destruct (find_map _ _) as [nx|] eqn:Ef; [|done]. simpl in Hn. subst nx.
  apply find_map_Some in Ef as ([d w] & Hin & Hd). rewrite Hw in Hin.
  apply list_elem_of_fmap in Hin as (d' & [= <- ->] & [_ Hin]%list_elem_of_filter).
  case_match; [|done]. injection Hd as Hd. unfold watch_wants in Hd.
  destruct (watch acq d _ _ _) as [| | | |[] []] eqn:Ew; try done; try (by case_match).
  destruct (download_completion d ==? Completion_Incomplete) eqn:Ec; [|done]. reflect_bools.
  destruct (fresh account _ None) as [da|] eqn:Efr; [|done].
  destruct (WedgeCount_is_zero _) eqn:Ez; [done|]. simplify_eq/=. split; [done|].
  pose proof (fresh_data _ _ _ _ Efr) as Hda. rewrite Hda in Ew. unfold watch in Ew.
  destruct (is_some_and (acq_history acq) _) eqn:Eh; [done|].
  destruct (wedge_recorded acq _) eqn:Er; [clear -Ew; by case_match|].
  destruct (current acq _ _ _) as [[listing seen]|] eqn:Ecur; [|done].
  destruct (is_some_and (opt_zip _ _) _) eqn:Efree; [done|].
  destruct (is_some_and (acq_history acq) (λ h, seen <=? history_at h)) eqn:Eh2; [|done].
  destruct listing as [listing|]; [|done]. simpl in Efree.
  destruct (acq_history acq) as [h|] eqn:Ehist; [|done]. simpl in Eh, Eh2. reflect_bools.
  split; eauto 12.
Qed.

(** The parts of the context a step's end shares with its decision. *)
Lemma context_frame c now ev c' acts c0 c1 a0 m t a2 command :
  step_parts c now ev c' acts c0 c1 a0 m t a2 command →
  ctx_readiness (mam_context c') = ctx_readiness (mam_context c1)
  ∧ ctx_client_version (mam_context c') = ctx_client_version (mam_context c1)
  ∧ ctx_downloading_limit (mam_context c') = ctx_downloading_limit (mam_context c1)
  ∧ ctx_reserve (mam_context c') = ctx_reserve (mam_context c1).
Proof.
  intros [_ Hobs _ _ Hse _ _ _ Hv _ _].
  destruct (observe_step_frame c0 now) as (_ & Hs1 & _). rewrite Hobs in Hs1.
  unfold mam_context, core_session. simpl. rewrite Hse, <-Hs1.
  split_and!; try done.
  all: destruct (core_qbittorrent c') as [| | |s'], (core_qbittorrent c1) as [| | |s1]; try done;
    injection Hv as H1 H2 H3 H4 H5; unfold Qbittorrent.listed; simpl; by rewrite ?H1, ?H2, ?H5.
Qed.

Lemma prepare_gate m now ctx :
  prep_gate (prepare m now ctx) = mam_gate (prep_mam (prepare m now ctx)).
Proof.
  destruct (prepare_link m now ctx) as (moved & Hl & -> & _).
  change (mam_gate ?m) with (link_gate (link m)). by rewrite Hl.
Qed.

(** What a step that fetches leaves of the state it decided on. *)
Lemma fetch_frame c now ev c' acts c0 c1 a0 m t a2 command id wedge k :
  step_parts c now ev c' acts c0 c1 a0 m t a2 command →
  Action_MamRequest (MamRequest_FetchTorrent id wedge) k ∈ a2 →
  let p := prepare (core_mam c1) now (mam_context c1) in
  let m := core_mam c' in
  mam_gate m = prep_gate p
  ∧ mam_network m = mam_network (prep_mam p) ∧ mam_seedbox m = mam_seedbox (prep_mam p)
  ∧ mam_account m = mam_account (prep_mam p) ∧ mam_ratio_guard m = mam_ratio_guard (prep_mam p)
  ∧ ∃ admitted, mam_acquisition m
      = fetching (mam_acquisition (prep_mam p)) (monotonic now) id wedge admitted.
Proof.
  intros Hp Ha2 p. pose proof (sp_decide _ _ _ _ _ _ _ _ _ _ _ _ Hp) as Hdec.
  destruct (decide_sent _ _ _ _ _ _ _ _ _ Hdec Ha2) as (b & o & w & Hm). fold p in Hm.
  cbv zeta. rewrite (sp_mam _ _ _ _ _ _ _ _ _ _ _ _ Hp), Hm, (prepare_gate _ _ _ : prep_gate p = _).
  split_and!; try reflexivity. by eexists.
Qed.


