(* ===== verification/Reconcile.v ===== *)
(** * The commands that reach qBittorrent

    Why a torrent is started, added, stopped or removed: what each command
    requires of the registry's rows, of the update just merged and of MAM's
    current permission. *)

From S2P Require Import Prelude Values Vocabulary MamApi Messages Timer MamPause Startup.
From S2P Require Import Settings History PortForwarding Tunnel Qbittorrent Registry Budget.
From S2P Require Import RatioGuard Network Account Acquisition Connectability Mam MamProofs.
From S2P Require Import Notifications Core CoreProofs MamAccess Samples.

#[local] Arguments Mam.decide : simpl never.
#[local] Arguments Mam.handle : simpl never.
#[local] Arguments mam_context : simpl never.

(** ** What a command requires *)

(** The rows and the torrents a rule speaks of: a row with this hash and this
    desire, and its torrent as the update shows it. *)
Definition managed (rows : list TorrentRecord) (torrents : gmap TorrentHash Torrent)
    (desired : Desired) (hash : TorrentHash) (ok : TorrentRecord → Torrent → Prop) : Prop :=
  ∃ row torrent, row ∈ rows ∧ record_desired row = desired
    ∧ Identity_hash (record_identity row) = Some hash
    ∧ torrents !! hash = Some torrent ∧ ok row torrent.

(** The interface between MAM work and the registry: the test the registry is
    given promises that a torrent it accepts is cleared to transfer. *)
Class TransferGate (permits : MamTorrentId → bool) (cleared : MamTorrentId → Prop) : Prop :=
  transfer_cleared : ∀ mam, permits mam = true → cleared mam.

(** The row's torrent is cleared to transfer, if it has a MAM ID. *)
Definition row_cleared (cleared : MamTorrentId → Prop) (row : TorrentRecord) : Prop :=
  ∀ mam, Identity_mam_id (record_identity row) = Some mam → cleared mam.

(** Seeded for 96 hours, or nothing of it ever downloaded. *)
Definition leaves_nothing_unsatisfied (t : Torrent) : Prop :=
  is_Some (torrent_completed_at t) ∧ SEEDING_TARGET ≤ torrent_seeding_time t
  ∨ torrent_progress t = 0 ∧ torrent_downloaded t = 0.

Definition all_selected (t : Torrent) : Prop := partial t = false.

Definition command_ok (rows : list TorrentRecord) (torrents : gmap TorrentHash Torrent)
    (cleared : MamTorrentId → Prop) (command : TorrentCommand) : Prop :=
  match command with
  | TorrentCommand_Remove hashes =>
      ∀ h, h ∈ hashes → managed rows torrents Desired_Removed h (λ _ t,
        leaves_nothing_unsatisfied t)
  | TorrentCommand_Stop hashes =>
      ∀ h, h ∈ hashes → managed rows torrents Desired_Held h (λ _ t,
        torrent_completed_at t = None ∧ is_stopped (torrent_state t) = false)
  | TorrentCommand_SelectAllFiles h =>
      managed rows torrents Desired_Active h (λ row t,
        partial t = true ∧ row_cleared cleared row)
  | TorrentCommand_Add mam h =>
      ∃ row, row ∈ rows ∧ record_identity row = Identity_Linked mam h
        ∧ record_desired row = Desired_Active ∧ record_origin row ≠ Origin_Adopted
        ∧ torrents !! h = None ∧ cleared mam
  | TorrentCommand_Start hashes =>
      ∀ h, h ∈ hashes → managed rows torrents Desired_Active h (λ row t,
        is_stopped (torrent_state t) = true
        ∧ ¬ (record_origin row = Origin_Adopted ∧ untouched t = true)
        ∧ (torrent_state t = TorrentState_Stopped Completion_Complete ∧ all_selected t
           ∨ row_cleared cleared row))
  | TorrentCommand_ForceStart hashes =>
      ∀ h, h ∈ hashes → managed rows torrents Desired_Active h (λ _ t,
        is_Some (torrent_completed_at t) ∧ torrent_seeding_time t < SEEDING_TARGET
        ∧ all_selected t ∧ torrent_force_start t = ForceStart_NotForced)
  | TorrentCommand_EndForceStart hashes =>
      ∀ h, h ∈ hashes → managed rows torrents Desired_Active h (λ _ t,
        (torrent_completed_at t = None ∨ SEEDING_TARGET ≤ torrent_seeding_time t)
        ∧ torrent_force_start t = ForceStart_Forced)
  end.

(** ** Reconciliation *)

Section reconciliation.
Context (permits : MamTorrentId → bool) (cleared : MamTorrentId → Prop).
Context `{Hgate : TransferGate permits cleared}.

Lemma is_some_true {A} (o : option A) : is_some o = true ↔ is_Some o.
Proof. destruct o; simpl; split; [by eexists|done|done|by intros []]. Qed.
Lemma is_none_true {A} (o : option A) : is_none o = true ↔ o = None.
Proof. by destruct o. Qed.

Lemma permitted_spec row : permitted permits row = true → row_cleared cleared row.
Proof. unfold permitted. intros H mam Hm. rewrite Hm in H. by apply transfer_cleared. Qed.

Lemma elem_of_present rows session desired h t :
  (h, t) ∈ present rows session desired →
  ∃ row, row ∈ records rows ∧ record_desired row = desired
    ∧ Identity_hash (record_identity row) = Some h ∧ session_torrents session !! h = Some t.
Proof.
  unfold present. intros (row & [Hd Hin]%list_elem_of_filter & Hf)%list_elem_of_omap.
  apply bind_Some in Hf as (h' & Hh & Hf). apply bind_Some in Hf as (t' & Ht & [= <- <-]).
  eauto 6.
Qed.

(** A command built from the rows present: each of its hashes passed the
    filter. *)
Lemma managed_present rows session desired (f : TorrentHash * Torrent → bool)
    (ok : TorrentRecord → Torrent → Prop) h :
  (∀ row t, f (h, t) = true → ok row t) →
  h ∈ (filter (λ p, f p) (present rows session desired)).*1 →
  managed (records rows) (session_torrents session) desired h ok.
Proof.
  intros Hok ([h' t] & -> & [Hf Hp]%list_elem_of_filter)%list_elem_of_fmap.
  apply elem_of_present in Hp as (row & ? & ? & ? & ?). simpl in *.
  exists row, t. split_and!; try done. apply Hok. by destruct (f (h', t)).
Qed.

Lemma removable_spec t : removable t = true → leaves_nothing_unsatisfied t.
Proof.
  unfold removable, untouched, leaves_nothing_unsatisfied.
  intros [H|H]%orb_true_iff; reflect_bools; [left|right]; [|done].
  split; [by apply is_some_true|done].
Qed.

Lemma first_partial_spec rows session h :
  first_partial rows session permits = Some h →
  managed (records rows) (session_torrents session) Desired_Active h (λ row t,
    partial t = true ∧ row_cleared cleared row).
Proof.
  unfold first_partial. intros (row & Hin & Hf)%find_map_Some.
  apply bind_Some in Hf as (h' & Hh & Hf). apply bind_Some in Hf as (t & Ht & Hf).
  apply then_some_Some in Hf as [Hf <-]. reflect_bools. exists row, t.
  split_and!; try done. by apply permitted_spec.
Qed.

Lemma first_missing_spec rows session command :
  first_missing rows session permits = Some command →
  command_ok (records rows) (session_torrents session) cleared command.
Proof.
  unfold first_missing. intros (row & Hin & Hf)%find_map_Some.
  destruct (record_identity row) as [| |mam h] eqn:Ei; try done.
  apply then_some_Some in Hf as [Hf <-]. reflect_bools. exists row.
  split_and!; try done; [|by apply transfer_cleared]. by destruct (session_torrents session !! h).
Qed.

Lemma stopped_hashes_spec rows session :
  command_ok (records rows) (session_torrents session) cleared
    (TorrentCommand_Start (stopped_hashes rows session permits)).
Proof.
  intros h (row & [Hd Hin]%list_elem_of_filter & Hf)%list_elem_of_omap.
  apply bind_Some in Hf as (h' & Hh & Hf). apply bind_Some in Hf as (t & Ht & Hf).
  apply then_some_Some in Hf as [Hf <-]. reflect_bools. exists row, t.
  split_and!; try done.
  { intros [Ho Hu]. match goal with H : _ && _ = false |- _ => by rewrite Ho, Hu in H end. }
  match goal with H : _ || _ = true |- _ => apply orb_true_iff in H as [H|H] end.
  - left. by reflect_bools.
  - right. by apply permitted_spec.
Qed.

(** Reconciliation asks only for what the rules allow. *)
Lemma reconcile_ok rows session command :
  reconcile rows session permits = Some command →
  command_ok (records rows) (session_torrents session) cleared command.
Proof.
  unfold reconcile.
  destruct (negb _); [intros [= <-] h; apply managed_present; intros; by apply removable_spec|].
  destruct (negb _).
  { intros [= <-] h. apply managed_present. intros row t. cbn [fst snd]. intros. reflect_bools.
    split; [by apply is_none_true|done]. }
  destruct (first_partial _ _ _) eqn:Ep; [intros [= <-]; by apply first_partial_spec|].
  destruct (first_missing _ _ _) eqn:Em; [intros [= <-]; by apply first_missing_spec|].
  destruct (negb _); [intros [= <-]; apply stopped_hashes_spec|].
  destruct (negb _).
  { intros [= <-] h. apply managed_present. intros row t. unfold unsatisfied. cbn [fst snd]. intros.
    reflect_bools. split_and!; try done. by apply is_some_true. }
  intros [_ <-]%then_some_Some h. apply managed_present. intros row t. unfold unsatisfied.
  cbn [fst snd]. intros. reflect_bools. split; [|done].
  match goal with H : _ && _ = false |- _ => apply andb_false_iff in H as [H|H] end; reflect_bools.
  - left. by destruct (torrent_completed_at t).
  - by right.
Qed.

End reconciliation.

(** ** The permission of MAM work *)

(** What clears a download to transfer. *)
Record download_cleared (m : Mam) (id : MamTorrentId) : Prop := {
  dc_gate : mam_gate m = RequestGate_Open;
  dc_ratio : ∃ downloaded, mam_ratio_guard m = RatioGuard_Watching downloaded;
  dc_session : ∃ at_, mam_session m = Session_Verified at_;
  dc_ip : ∃ observed, Network.current (mam_network m) = Some observed
    ∧ (mam_confirmed_download_ip m = Some (observed_ip observed)
       ∨ acq_reapproved (mam_acquisition m) !! id = Some (observed_ip observed));
  dc_free : id ∈ acq_newly_fetched (mam_acquisition m)
    ∨ ∃ download watch, (download, watch) ∈ acq_watched (mam_acquisition m)
        ∧ download_mam download = id
        ∧ (watch = DownloadWatch_Wedged ∨ watch = DownloadWatch_FreeForNow);
}.

#[export] Instance mam_transfer_gate m : TransferGate (permits_download m) (download_cleared m).
Proof.
  intros id. unfold permits_download.
  destruct (Network.current (mam_network m)) as [observed|] eqn:Ec; [|done].
  intros H. reflect_bools. split.
  - done.
  - destruct (mam_ratio_guard m); try done. by eexists.
  - destruct (mam_session m); try done. by eexists.
  - exists observed. split; [done|].
    match goal with H : (_ ==? _) || _ = true |- _ => apply orb_true_iff in H as [H|H] end;
      reflect_bools; auto.
  - match goal with H : _ || existsb _ _ = true |- _ => apply orb_true_iff in H as [H|H] end;
      [left; by reflect_bools|right].
    match goal with H : existsb _ _ = true |- _ => apply existsb_exists in H as ([d w] & Hin & Hw) end.
    reflect_bools. exists d, w. split_and!; [by apply list_elem_of_In|done|]. simpl in *.
    destruct w; auto; done.
Qed.

(** ** The core *)

(** A choice of the next qBittorrent request is never left for later. *)
Lemma qbittorrent_decided {C} q now timers w (x : C) f :
  deciding (Qbittorrent.decide q now timers w x f).1.1.1 = None.
Proof.
  unfold Qbittorrent.decide, Qbittorrent.wait, schedule.
  destruct (deciding q) as [[s after]|] eqn:Ed; [|done].
  destruct (set_preferences s _) as [s1 [a|]] eqn:Es.
  - unfold set_preferences in Es. by repeat (case_match; simplify_eq/=).
  - destruct after; simpl; [|done]. destruct (f x s1) as [x1 [cmd|]]; [done|]. by case_match.
Qed.

Lemma follow_preferences_decided q w :
  deciding q = None → deciding (follow_preferences q w).1 = None.
Proof.
  intros Hq. unfold follow_preferences. destruct q as [| | |s]; try done.
  destruct (session_activity s) eqn:Ea; try done. unfold set_preferences.
  destruct (opt_filter _ _); [done|]. destruct (opt_filter _ _); [done|]. simpl. by rewrite Ea.
Qed.

Lemma decide_qbittorrent_decided c now :
  deciding (core_qbittorrent (decide_qbittorrent c now).1) = None.
Proof.
  unfold decide_qbittorrent.
  match goal with |- context [Qbittorrent.decide ?q ?n ?t ?w ?x ?f] =>
    pose proof (qbittorrent_decided q n t w x f) as Hd;
    destruct (Qbittorrent.decide q n t w x f) as [[[q1 t1] r1] a1];
    pose proof (follow_preferences_decided q1 w Hd) as Hf;
    destruct (follow_preferences q1 w) as [q2 a2] end.
  done.
Qed.

Lemma handle_decided c now ev c' acts :
  handle c now ev = Some (c', acts) → deciding (core_qbittorrent c') = None.
Proof.
  unfold handle. destruct (begin_step c ev) as [cb notices].
  destruct (handle_event cb now ev) as [[c0 a0]|]; [|done]. simpl.
  destruct (settle_step c0 now) as [c2 settled] eqn:Es.
  destruct (notify_step c2 now _ notices) as [c3 notified] eqn:En. intros; simplify_eq.
  apply notify_step_frame in En as (_ & _ & _ & _ & _ & -> & _).
  unfold settle_step in Es. destruct (observe_step c0 now) as [c1 observed].
  destruct (decide_mam c1 now) as [c4 requested].
  match type of Es with (let '(_, _) := ?e in _) = _ => destruct e as [mam lease] end.
  match type of Es with (let '(_, _) := ?e in _) = _ => destruct e as [c5 renewed] end.
  pose proof (decide_qbittorrent_decided c5 now) as Hd.
  destruct (decide_qbittorrent c5 now) as [c6 commanded]. simpl in Hd.
  match type of Es with (let '(_, _) := ?e in _) = _ => destruct e as [h a] end.
  by simplify_eq/=.
Qed.

Lemma reachable_decided c : reachable c → deciding (core_qbittorrent c) = None.
Proof.
  intros (events & acts & Hr & _). revert Hr.
  assert (deciding (core_qbittorrent Core.new) = None) as H by done. revert H.
  generalize Core.new as c0. revert acts. induction events as [|e events IH]; intros acts c0 H0 Hr.
  { by simplify_eq/=. }
  simpl in Hr. destruct (handle c0 _ _) as [[c1 a1]|] eqn:E1; [|done]. simpl in Hr.
  destruct (run c1 events) as [[c2 a2]|] eqn:E2; [|done]. simplify_eq/=.
  eapply IH; [|done]. by eapply handle_decided.
Qed.

(** What an event does to qBittorrent's state. *)
Definition qbittorrent_event (q : Qbittorrent) (now : ClockReading) (timers : Timers) (ev : Event)
    : Qbittorrent :=
  match ev with
  | Event_Qbittorrent e => (Qbittorrent.handle q now e timers).1.1
  | Event_TimerExpired TimerName_QbittorrentPoll id => (Qbittorrent.timer_expired q id).1
  | _ => q
  end.

Lemma handle_event_qbittorrent c now ev c0 a0 :
  handle_event c now ev = Some (c0, a0) →
  core_qbittorrent c0 = qbittorrent_event (core_qbittorrent c) now (core_timers c) ev.
Proof.
  destruct ev as [e|e|e|e|name id|e|e|e|e|e|e]; simpl; intros H.
  - unfold handle_startup in H. destruct (Startup.handle _ _ _) as [st a].
    destruct (core_state c), st; by simplify_eq/=.
  - destruct (MamPause.handle _ _ _); by simplify_eq/=.
  - destruct (Settings.handle _ _); by simplify_eq/=.
  - by simplify_eq.
  - destruct name; try (case_match; by simplify_eq/=); try by simplify_eq/=.
  - destruct (PortForwarding.handle _ _ _ _) as [[[pf t] a]|]; [|done]. simpl in H.
    destruct e; try (by simplify_eq/=). destruct (suspect _ _). by simplify_eq/=.
  - destruct (Qbittorrent.handle _ _ _ _) as [[? ?] ?]; by simplify_eq/=.
  - destruct (Registry.handle _ _ _); by simplify_eq/=.
  - destruct (Tunnel.handle _ _ _ _) as [[t ts] a]. case_match; [|by simplify_eq/=].
    destruct (renew _). by simplify_eq/=.
  - destruct (Notifications.handle _ _ _ _) as [[? ?] ?]; by simplify_eq/=.
  - unfold handle_mam in H. destruct (Mam.handle _ _ _ _) as [[m r] [a [k|]]]; [|by simplify_eq/=].
    destruct (rotate _ _). by simplify_eq/=.
Qed.

(** A fresh update is being decided on only in the step that merged it. *)
Lemma qbittorrent_event_deciding q now timers ev s :
  deciding q = None →
  deciding (qbittorrent_event q now timers ev) = Some (s, DecidingAfter_Sync) →
  ∃ update, ev = Event_Qbittorrent (QbittorrentEvent_Synced update).
Proof.
  intros Hq H. destruct ev as [| | | |name id| |e| | | |]; try (simpl in H; congruence).
  - destruct name; try (simpl in H; congruence). simpl in H. unfold Qbittorrent.timer_expired in H.
    destruct q; simpl in H; try done; repeat (case_match; simplify_eq/=); done.
  - simpl in H. destruct e; try (by eexists); exfalso;
      unfold Qbittorrent.handle, failed, Qbittorrent.wait, schedule in H;
      destruct q; simpl in H, Hq; try done; repeat (case_match; simplify_eq/=); done.
Qed.

(** A command leaves the core only in the step that merged a fresh update, and
    only by the rules, whatever the permission is taken to promise. *)
Lemma commands_decided (cleared : MamTorrentId → Prop) c now ev c' acts command :
  reachable c → handle c now ev = Some (c', acts) →
  Action_QbittorrentCommand command ∈ acts →
  TransferGate (permits_download (core_mam c')) cleared →
  ∃ update rows session,
    ev = Event_Qbittorrent (QbittorrentEvent_Synced update)
    ∧ Registry.loaded (core_registry c') = Some rows
    ∧ core_session c' = Some session ∧ Qbittorrent.listed session = true
    ∧ command_ok (records rows) (session_torrents session) cleared command.
Proof.
  intros Hreach Hh Ha Hgate. pose proof (reachable_decided c Hreach) as Hd0.
  destruct (handle_parts _ _ _ _ _ Hh) as (c0 & c1 & a0 & m & t & a2 & cmd & Hp).
  assert (Action_QbittorrentCommand command ∈ guarded acts) as Hg by (by apply elem_of_guarded).
  assert (cmd = Some command) as ->.
  { rewrite (sp_actions _ _ _ _ _ _ _ _ _ _ _ _ Hp) in Hg.
    rewrite app_assoc, <-(parts_mam_actions _ _ _ _ _ _ _ _ _ _ _ _ Hp), elem_of_app in Hg.
    destruct Hg as [[_ ?]%elem_of_mam_actions|Hg]; [done|].
    destruct cmd as [cmd|]; simpl in Hg; [|by apply elem_of_nil in Hg].
    apply list_elem_of_singleton in Hg. congruence. }
  destruct (sp_command _ _ _ _ _ _ _ _ _ _ _ _ Hp command eq_refl) as (s & rs & Hd & Hl & Hr & Hc).
  destruct (begun_frame c ev) as (_ & _ & _ & _ & _ & Hbq & _ & Hbt).
  pose proof (sp_event _ _ _ _ _ _ _ _ _ _ _ _ Hp) as Hev.
  apply handle_event_qbittorrent in Hev. rewrite Hbq, Hbt in Hev.
  destruct (observe_step_frame c0 now) as (_ & _ & _ & _ & Ho & _).
  rewrite (sp_observe _ _ _ _ _ _ _ _ _ _ _ _ Hp) in Ho. rewrite Ho, Hev in Hd.
  destruct (qbittorrent_event_deciding _ _ _ _ _ Hd0 Hd) as [update ->].
  pose proof (final_rows _ _ (sp_rows _ _ _ _ _ _ _ _ _ _ _ _ Hp)) as Hrows. rewrite Hr in Hrows.
  destruct (Registry.loaded (core_registry c')) as [rows|] eqn:El; [|done].
  pose proof (sp_view _ _ _ _ _ _ _ _ _ _ _ _ Hp) as Hv. rewrite Ho, Hev in Hv.
  apply (reconcile_ok _ cleared) in Hc.
  assert (records rows = records rs) as Hrec by (unfold records; injection Hrows as ->; done).
  unfold core_session.
  destruct (qbittorrent_event (core_qbittorrent c) now (core_timers c) _) as [| | |s0]; try done.
  simpl in Hd. destruct (session_activity s0); try done. simplify_eq.
  destruct (core_qbittorrent c') as [| | |s']; try done. injection Hv as H1 H2 H3 H4 H5.
  exists update, rows, s'. unfold Qbittorrent.listed in *. rewrite H4, H5, Hrec.
  split_and!; done.
Qed.

(** C3: A command changes qBittorrent's torrents only in the step that merged a
    fresh update, and only by the rules: what is removed has seeded 96 hours or
    never downloaded anything, what is stopped is unfinished and held, and what is
    started, selected or added is wanted and, where it could still download from
    MAM, cleared by MAM now: requests open, the ratio guard watching, the session
    verified, its IP approved, and the torrent free or just admitted. *)
Theorem commands_follow_rules c now ev c' acts command :
  reachable c → handle c now ev = Some (c', acts) →
  Action_QbittorrentCommand command ∈ acts →
  ∃ update rows session,
    ev = Event_Qbittorrent (QbittorrentEvent_Synced update)
    ∧ Registry.loaded (core_registry c') = Some rows
    ∧ core_session c' = Some session ∧ Qbittorrent.listed session = true
    ∧ command_ok (records rows) (session_torrents session) (download_cleared (core_mam c')) command.
Proof. intros Hc Hh Ha. exact (commands_decided _ _ _ _ _ _ _ Hc Hh Ha (mam_transfer_gate _)). Qed.

Lemma commands_follow_rules_witness :
  let c' := (downloads_step 20).1 in
  ∃ update rows session,
    timed_event (downloads_event 20) = Event_Qbittorrent (QbittorrentEvent_Synced update)
    ∧ Registry.loaded (core_registry c') = Some rows
    ∧ core_session c' = Some session ∧ Qbittorrent.listed session = true
    ∧ command_ok (records rows) (session_torrents session) (download_cleared (core_mam c'))
        (TorrentCommand_Add 42 "f00d").
Proof.
  apply (commands_follow_rules (downloads_core 20) (occurred_at (downloads_event 20))
    (timed_event (downloads_event 20)) (downloads_step 20).1 (downloads_step 20).2).
  - apply downloads_reachable. vm_compute. reflexivity.
  - vm_compute. reflexivity.
  - apply list_elem_of_In. vm_compute. left. reflexivity.
Defined.
