(* ===== verification/Spending.v ===== *)
(** * Spending

    When bonus points are spent: a purchase is sent only from a fresh reading that
    shows it affordable above the owner's reserve, and never while the outcome of
    the last one is open. *)

From S2P Require Import Prelude Values Vocabulary MamApi Messages Timer MamPause Startup.
From S2P Require Import Settings History PortForwarding Tunnel Qbittorrent Registry Budget.
From S2P Require Import RatioGuard Network Account Acquisition Connectability Mam MamProofs.
From S2P Require Import Notifications Core CoreProofs MamAccess Samples Admission.

#[local] Arguments Mam.decide : simpl never.
#[local] Arguments Mam.handle : simpl never.
#[local] Arguments mam_context : simpl never.
#[local] Arguments prepare : simpl never.

(** ** The policy *)

(** The outcome of a purchase is known: made, refused, or settled by the reading
    after it or by the owner. *)
Definition purchase_known (r : PurchaseRecord) : Prop :=
  match purchase_outcome r with
  | Some (PurchaseOutcome_Made _) | Some (PurchaseOutcome_Refused _)
  | Some (PurchaseOutcome_Settled _ _) => True
  | _ => False
  end.

Record affords (account : Account) (reserve : Points) (now : Instant) (wall : SystemTime)
    (purchase : Purchase) : Prop := {
  af_purchase : purchase = Purchase_Vip;
  af_known : ∀ r, account_last_purchase account = Some r → purchase_known r;
  af_not_refused : ∀ at_, account_refused account = Some at_ →
    REFUSAL_BACKOFF ≤ duration_since now at_;
  af_reading : ∃ reading weeks,
    account_reading account = Some reading
    ∧ duration_since now (reading_taken reading) ≤ ACCOUNT_FRESH_FOR
    ∧ (∀ r, account_last_purchase account = Some r → purchase_sent r < reading_taken reading)
    ∧ vip_weeks (reading_data reading) wall = Some weeks
    ∧ (∀ until, data_vip_until (reading_data reading) = Some until →
         until - wall < VIP_RENEW_WITHIN)
    ∧ Points_plus reserve (VipWeeks_cost weeks (account_vip_price_per_week account))
        ≤ data_points (reading_data reading);
}.

Lemma purchase_waiting_known r : purchase_waiting r = false → purchase_known r.
Proof. unfold purchase_waiting, purchase_known. by destruct (purchase_outcome r) as [[]|]. Qed.

Lemma fresh_Some account now since data :
  fresh account now since = Some data →
  ∃ reading, account_reading account = Some reading ∧ reading_data reading = data
    ∧ duration_since now (reading_taken reading) ≤ ACCOUNT_FRESH_FOR
    ∧ ∀ s, since = Some s → s < reading_taken reading.
Proof.
  unfold fresh. intros (reading & [Hr Hc]%opt_filter_Some & ->)%fmap_Some. reflect_bools.
  exists reading. split_and!; try done. intros s ->. simpl in *. by reflect_bools.
Qed.

(** Renewed within the renewal period only, for a week at least. *)
Lemma vip_weeks_due data wall weeks :
  vip_weeks data wall = Some weeks →
  100 ≤ weeks ∧ ∀ until, data_vip_until data = Some until → until - wall < VIP_RENEW_WITHIN.
Proof.
  unfold vip_weeks. case_match eqn:E; [done|]. intros [= <-]. reflect_bools. split; [lia|].
  intros ends Hu. rewrite Hu in E. simpl in E. unfold wall_duration_since in E.
  case_match; reflect_bools; simpl in E; [lia|]. unfold VIP_RENEW_WITHIN, from_hours, from_mins,
    from_secs, NANOS_PER_SEC in *. lia.
Qed.

Lemma wanted_purchase_affords account now wall reserve purchase :
  wanted_purchase account now wall reserve = Some purchase →
  affords account reserve now wall purchase.
Proof.
  unfold wanted_purchase. intros (data & [Hf Hw]%opt_filter_Some & (cost & Hc & Hp)%bind_Some)%bind_Some.
  apply fresh_Some in Hf as (reading & Hr & <- & Hage & Hafter).
  unfold vip_cost in Hc. apply bind_Some in Hc as (weeks & Hweeks & [= <-]).
  destruct (vip_weeks_due _ _ _ Hweeks) as [_ Hdue].
  unfold then_some in Hp. case_match eqn:E; simplify_eq. reflect_bools. split; [done|..].
  - intros r Hl. rewrite Hl in Hw. apply purchase_waiting_known. exact Hw.
  - intros at_ Hat. rewrite Hat in *. simpl in *. by reflect_bools.
  - exists reading, weeks. split_and!; try done. intros r Hl. apply Hafter. by rewrite Hl.
Qed.

(** What a step that buys leaves of the account it decided on. *)
Lemma buy_frame c now ev c' acts c0 c1 a0 m t a2 command purchase k :
  step_parts c now ev c' acts c0 c1 a0 m t a2 command →
  Action_MamRequest (MamRequest_Buy purchase) k ∈ a2 →
  let p := prepare (core_mam c1) now (mam_context c1) in
  mam_account (core_mam c') = buying (mam_account (prep_mam p)) purchase (monotonic now) (wall now).
Proof.
  intros Hp Ha2 p. pose proof (sp_decide _ _ _ _ _ _ _ _ _ _ _ _ Hp) as Hdec.
  destruct (decide_sent _ _ _ _ _ _ _ _ _ Hdec Ha2) as (b & o & w & Hm). fold p in Hm.
  by rewrite (sp_mam _ _ _ _ _ _ _ _ _ _ _ _ Hp), Hm.
Qed.


(** *** Witness *)

(** An account without VIP time and with points to spare. *)
Definition spending_run : list TimedEvent := sample_run ++ [
  let data := sample_data 1_000_000_000 in
  at_secs 68 (sample_answer (MamReply_UserData
    {| data with data_points := 90_000; data_vip_until := None |}))].

Definition spending_core : Core :=
  (default (Core.new, []) (run Core.new (firstn 13 spending_run))).1.
Definition spending_event : TimedEvent :=
  default (at_secs 0 (Event_Startup StartupEvent_StorageOpened)) (spending_run !! 13%nat).
Definition spending_step : Core * list Action :=
  default (Core.new, [])
    (handle spending_core (occurred_at spending_event) (timed_event spending_event)).

