(* ===== verification/RatioTrip.v ===== *)
(** * When MAM counts a download against the ratio

    The reading that shows the downloaded figure risen trips the guard, stops
    every download and is saved; until the owner has checked, nothing transfers. *)

From S2P Require Import Prelude Values Vocabulary MamApi Messages Timer MamPause Startup.
From S2P Require Import Settings History PortForwarding Tunnel Qbittorrent Registry RegistryStorage.
From S2P Require Import RegistryIndex Budget RatioGuard Network Account Acquisition Connectability.
From S2P Require Import Mam MamProofs Notifications Core CoreProofs RegistryMoves MamAccess Samples.
From S2P Require Import Admission Reconcile.

#[local] Arguments Mam.decide : simpl never.
#[local] Arguments mam_context : simpl never.
#[local] Arguments hold : simpl never.
#[local] Arguments follow_downloads : simpl never.

(** ** Holding every download *)

(** A download with this hash is running. *)
Definition runs (r : Records) (h : TorrentHash) : Prop :=
  ∃ d, d ∈ downloads r ∧ download_hash d = h ∧ Download_is_downloading d = true.

(** The download a row stands for. *)
Definition row_download (row : TorrentRecord) : option Download :=
  match record_identity row with
  | Identity_Linked mam hash =>
      let seen := observation_torrent <$> record_observation row in
      then_some
        (((record_desired row ==? Desired_Active) || (record_desired row ==? Desired_Held))
         && (record_origin row !=? Origin_Adopted))
        {| download_mam := mam; download_hash := hash; download_desired := record_desired row;
           download_completion :=
             if is_some_and seen (λ t, is_some (torrent_completed_at t))
             then Completion_Complete else Completion_Incomplete;
           download_added_at := seen ≫= torrent_added_at |}
  | _ => None
  end.

Lemma elem_of_downloads r d :
  d ∈ downloads r ↔ ∃ id e, rec_entries r !! id = Some e ∧ row_download (entry_record e) = Some d.
Proof.
  unfold downloads. rewrite list_elem_of_omap. split.
  - intros (row & (id & e & He & <-)%elem_of_records & Hd). eauto.
  - intros (id & e & He & Hd). exists (entry_record e). split; [|done]. apply elem_of_records. eauto.
Qed.

Lemma row_download_Some row d :
  row_download row = Some d →
  Identity_hash (record_identity row) = Some (download_hash d)
  ∧ record_desired row = download_desired d.
Proof.
  unfold row_download. destruct (record_identity row); try done.
  intros [_ <-]%then_some_Some. done.
Qed.

(** Holding a torrent stops its download and no other. *)
Lemma hold_runs r now h0 h :
  indexed r → runs (hold r now h0).1 h → runs r h ∧ h ≠ h0.
Proof.
  intros Hr (d & (id & e & He & Hd)%elem_of_downloads & <- & Hdown).
  destruct (row_download_Some _ _ Hd) as [Hh Hdes].
  unfold Download_is_downloading in Hdown. reflect_bools.
  set (r1 := match rec_by_hash r !! h0 with Some id => set_desired r id Desired_Held | None => r end).
  assert (∃ e1, rec_entries r1 !! id = Some e1 ∧ entry_record e1 = entry_record e) as (e1 & He1 & Hrec).
  { pose proof (save_spec r1 now) as Hs. unfold hold in He. fold r1 in He.
    destruct (save r1 now) as [r2 acts]. simpl in He.
    destruct Hs as [(_ & -> & _)|(? & _ & _ & _ & _ & _ & _ & Heq)]; [by exists e|].
    specialize (Heq id). rewrite He in Heq. simpl in Heq. symmetry in Heq.
    apply fmap_Some in Heq as (e1 & ? & ?). eauto. }
  assert (rec_entries r !! id = Some e1 ∧ rec_by_hash r !! h0 ≠ Some id) as [He0 Hne].
  { unfold r1 in He1. destruct (rec_by_hash r !! h0) as [j|]; [|done].
    unfold set_desired in He1. cbn -[alter lookup] in He1.
    destruct (Z.eq_dec id j) as [->|Hj].
    - rewrite lookup_alter_eq in He1. apply fmap_Some in He1 as (e2 & _ & ->).
      rewrite <-Hrec in Hdes. simpl in Hdes. congruence.
    - rewrite lookup_alter_ne in He1 by done. split; [done|congruence]. }
  split.
  - exists d. split_and!; [|done|].
    + apply elem_of_downloads. exists id, e1. by rewrite Hrec.
    + unfold Download_is_downloading. by rewrite !bool_decide_eq_true_2.
  - intros <-. apply Hne. apply (ix_hash r Hr id e1); [done|]. by rewrite Hrec.
Qed.

Lemma hold_indexed r now h : indexed r → indexed (hold r now h).1.
Proof. exact (apply_op_indexed r (mkClockReading now 0) (Op_Hold h)). Qed.

(** While tripped, following a download holds it if it runs, and changes no other
    row. *)
Lemma follow_download_tripped now nw m r acts w m' r' acts' :
  permits_downloads (mam_ratio_guard m) = false →
  follow_download now nw true (m, r, acts) w = (m', r', acts') →
  r' = if Download_is_downloading w.1
       then (hold r (monotonic now) (download_hash w.1)).1 else r.
Proof.
  intros Hg. unfold follow_download. destruct w as [d wt]. intros H. cbn [fst].
  match type of H with (let '(_, _) := ?e in _) = _ =>
    assert (e.1.2 = r) as Hr; [|destruct e as [[m1 r1] a1]; cbn [fst snd] in Hr; subst r1] end.
  { by destruct wt; rewrite ?Hg, ?andb_false_r. }
  cbn [orb andb] in H.
  destruct (Download_is_downloading d).
  - destruct (hold r _ _) as [r2 a2]. destruct (watch_notice _ _ _); [|by simplify_eq].
    by case_match; simplify_eq.
  - destruct (watch_notice _ _ _); [|by simplify_eq]. by case_match; simplify_eq.
Qed.

Lemma follow_fold_tripped now nw ws m r acts m' r' acts' :
  permits_downloads (mam_ratio_guard m) = false → indexed r →
  fold_left (follow_download now nw true) ws (m, r, acts) = (m', r', acts') →
  ∀ h, runs r' h → runs r h ∧
    ∀ w, w ∈ ws → Download_is_downloading w.1 = true → download_hash w.1 ≠ h.
Proof.
  revert m r acts. induction ws as [|w ws IH]; intros m r acts Hg Hr; cbn [fold_left].
  { intros H h Hh. simplify_eq. split; [done|]. by intros w ?%elem_of_nil. }
  destruct (follow_download now nw true (m, r, acts) w) as [[m1 r1] acts1] eqn:E.
  pose proof E as Hr1%follow_download_tripped; [|done].
  apply follow_download_moves in E as [[= Hg1 _] _].
  intros H h Hh. destruct (IH m1 r1 acts1) with (h := h) as [Hh1 Hws]; [congruence| |done|done|].
  { subst r1. destruct (Download_is_downloading w.1); [by apply hold_indexed|done]. }
  subst r1. destruct (Download_is_downloading w.1) eqn:Ed.
  - destruct (hold_runs r (monotonic now) (download_hash w.1) h Hr Hh1) as [Hh0 Hne].
    split; [done|]. intros w' [->|Hw']%elem_of_cons; [by intros _ <-|by apply Hws].
  - split; [done|]. intros w' [->|Hw']%elem_of_cons; [congruence|by apply Hws].
Qed.

(** Following the downloads while tripped leaves none running. *)
Lemma follow_downloads_tripped m now reg used m' reg' acts r' :
  mam_ratio_guard m = RatioGuard_Tripped used → registry_ok reg →
  follow_downloads m now reg = (m', reg', acts) →
  Registry.loaded reg' = Some r' → ∀ h, ¬ runs r' h.
Proof.
  intros Hg Hr. unfold follow_downloads. destruct reg as [| | |r]; try by intros ? ?; simplify_eq.
  rewrite Hg. cbv zeta.
  match goal with |- context [fold_left ?f ?ws ?st] =>
    destruct (fold_left f ws st) as [[m2 r2] a2] eqn:Ef end.
  intros H Hl h Hh. simplify_eq/=.
  destruct (follow_fold_tripped _ _ _ _ _ _ _ _ _ ltac:(by rewrite Hg) Hr Ef h Hh)
    as [(d & Hd & Hdh & Hdown) Hno].
  apply (Hno (d, watch (mam_acquisition m) d (Account.data (mam_account m)) (monotonic now)
    (wall now))); [|exact Hdown|exact Hdh]. unfold watch_all. apply list_elem_of_fmap.
  exists d. split; [reflexivity|]. apply list_elem_of_filter. split; [|done].
  unfold Download_is_downloading in Hdown. reflect_bools.
  match goal with H : download_completion d = _ |- _ => by rewrite H end.
Qed.

(** ** The step that trips *)

Definition tripped_by (m : Mam) (used : RatioUse) : Prop :=
  mam_ratio_guard m = RatioGuard_Watching (Some (use_before used))
  ∧ use_before used < use_after used.

(** The answer that trips the guard: its actions, and what is left running. *)
Lemma answered_trips m now req res cur reg m' reg' acts used :
  answered m now req res cur reg = (m', reg', acts) → registry_ok reg →
  (∀ u, mam_ratio_guard m ≠ RatioGuard_Tripped u) →
  mam_ratio_guard m' = RatioGuard_Tripped used →
  tripped_by m used
  ∧ Action_SaveRatioGuard (SavedRatioGuard_Tripped used) ∈ acts
  ∧ ∀ r', Registry.loaded reg' = Some r' → ∀ h, ¬ runs r' h.
Proof.
  intros H Hreg Hm Hm'. pose proof H as [Hga _]%answered_moves. rewrite Hm' in Hga.
  unfold guard_answered in Hga. destruct req; try (by destruct (Hm used)).
  destruct res as [[]|]; try (by destruct (Hm used)). destruct cur; [|by destruct (Hm used)].
  assert (tripped_by m used ∧ RatioGuard.observe (mam_ratio_guard m) (data_downloaded data) (wall now)
    = (RatioGuard_Tripped used, Seen_Tripped used)) as [Ht Hobs].
  { unfold RatioGuard.observe in *. destruct (mam_ratio_guard m) as [| |[before|]|u] eqn:Eg;
      simpl in Hga; try done; [|by destruct (Hm u)].
    destruct (before <? data_downloaded data) eqn:El; [|by case_match].
    injection Hga as ->. reflect_bools. split; [split; [done|exact El]|done]. }
  split; [exact Ht|]. unfold answered in H.
  set (m0 := if _ && _ then _ else m) in H.
  assert (mam_ratio_guard m0 = mam_ratio_guard m) as Hs.
  { unfold m0. destruct (_ && _); [|done]. unfold follow_session. by repeat case_match. }
  clearbody m0. cbv zeta in H. destruct (Account.read _ _ _ _) as [acc settled].
  match type of H with context [RatioGuard.observe (mam_ratio_guard ?x)] =>
    assert (mam_ratio_guard x = mam_ratio_guard m) as Hg by (by destruct settled as [[? []]|]);
    generalize dependent x end.
  intros m1 H Hg. rewrite Hg, Hobs in H. cbv beta iota zeta in H.
  destruct (follow_downloads _ _ _) as [[m2 reg2] a2] eqn:Ef. simplify_eq.
  split; [left|]. intros r' Hl h Hrun.
  eapply (follow_downloads_tripped _ _ _ used); [|exact Hreg|exact Ef|exact Hl|exact Hrun]. done.
Qed.

(** The event that trips the guard is such an answer. *)
Lemma handle_trips m now ev reg m' reg' acts rotated used :
  Mam.handle m now ev reg = (m', reg', (acts, rotated)) → registry_ok reg →
  (∀ u, mam_ratio_guard m ≠ RatioGuard_Tripped u) →
  (∀ a b g, ev ≠ MamEvent_StateRead a b g) →
  mam_ratio_guard m' = RatioGuard_Tripped used →
  tripped_by m used
  ∧ Action_SaveRatioGuard (SavedRatioGuard_Tripped used) ∈ acts
  ∧ ∀ r', Registry.loaded reg' = Some r' → ∀ h, ¬ runs r' h.
Proof.
  intros H Hreg Hm Hev Hm'. pose proof H as [Hg _]%handle_moves. rewrite Hm' in Hg.
  unfold guard_after in Hg.
  destruct ev as [|res rot|lr lrem g| | | | | | | | |]; try (by destruct (Hm used)).
  - simpl in H. destruct (mam_outstanding m) as [[|req t ep]|] eqn:Eo; try (by destruct (Hm used)).
    destruct (answered _ _ _ _ _ _) as [[m1 reg1] a1] eqn:Ea. injection H as <- <- <- <-.
    apply (answered_trips _ _ _ _ _ _ _ _ _ used) in Ea; [exact Ea|exact Hreg|exact Hm|].
    revert Hm'. by destruct (opt_filter _ rot).
  - by destruct (Hev lr lrem g).
  - unfold RatioGuard.checked in Hg. destruct (mam_ratio_guard m) as [| | |u]; simpl in Hg; try done.
Qed.

(** What an event's handler asks for is asked for by the step. *)
Lemma handled_actions c now ev c' acts c0 a0 :
  handle c now ev = Some (c', acts) → handle_event (begun c ev) now ev = Some (c0, a0) → a0 ⊆ acts.
Proof.
  unfold handle, begun. destruct (begin_step c ev) as [cb notices]. cbn [fst]. intros Hh He.
  rewrite He in Hh. simpl in Hh. destruct (settle_step c0 now) as [c2 a2].
  destruct (notify_step c2 now _ notices) as [c3 a3]. simplify_eq/=.
  intros a Ha. apply elem_of_app. by left.
Qed.

(** The handler of a MAM event, in the core. *)
Lemma handle_mam_spec c now e c0 a0 :
  handle_mam c now e = (c0, a0) →
  ∃ a1 rotated,
    Mam.handle (core_mam c) now e (core_registry c) = (core_mam c0, core_registry c0, (a1, rotated))
    ∧ a1 ⊆ a0 ∧ core_qbittorrent c0 = core_qbittorrent c.
Proof.
  unfold handle_mam. destruct (Mam.handle _ _ _ _) as [[m1 reg1] [a1 rot]]. intros H.
  exists a1, rot. destruct rot as [k|]; [|by injection H as <- <-].
  destruct (rotate _ _) as [s a]. injection H as <- <-. split_and!; try done.
  intros x Hx. apply elem_of_app. by left.
Qed.


(** ** Until the owner has checked *)

(** Events that may let the guard watch again: the owner's check, and the read of
    what storage holds. *)
Definition restores_guard (ev : Event) : bool :=
  match ev with
  | Event_Mam (MamEvent_RatioUseChecked) | Event_Mam (MamEvent_StateRead _ _ _) => true
  | _ => false
  end.

Lemma guard_stays c now ev :
  permits_downloads (mam_ratio_guard (core_mam c)) = false → restores_guard ev = false →
  permits_downloads (core_guard_after c now ev) = false.
Proof.
  intros Hp Hev. unfold core_guard_after. destruct ev as [e| | | | | | | | | |e]; try exact Hp.
  - by repeat case_match.
  - unfold guard_after. destruct e; try exact Hp; try done.
    repeat case_match; try done. unfold guard_answered, RatioGuard.observe.
    by repeat (case_match; simplify_eq/=).
Qed.

(** A guard that does not permit downloads clears none. *)
#[local] Instance tripped_gate m (H : permits_downloads (mam_ratio_guard m) = false) :
  TransferGate (permits_download m) (λ _, False).
Proof.
  intros id. unfold permits_download. rewrite H. destruct (Network.current _); [|done].
  by rewrite andb_false_r.
Qed.

(** C7: Once the guard has tripped, or while it has not been read, no step lets it
    permit downloads again but the owner's check and the read of what storage
    holds; and until then a step's command adds nothing from MAM, starts of the
    MAM torrents only what is complete with every file selected, and selects files
    of none. *)
Theorem nothing_transfers_until_checked c now ev c' acts command :
  reachable c → registry_ok (core_registry c) →
  handle c now ev = Some (c', acts) → event_ok ev →
  permits_downloads (mam_ratio_guard (core_mam c)) = false → restores_guard ev = false →
  permits_downloads (mam_ratio_guard (core_mam c')) = false
  ∧ (Action_QbittorrentCommand command ∈ acts →
     ∃ rows session,
       Registry.loaded (core_registry c') = Some rows ∧ core_session c' = Some session
       ∧ command_ok (records rows) (session_torrents session) (λ _, False) command).
Proof.
  intros Hreach Hreg Hh Hok Hp Hev.
  pose proof (step_registry _ _ _ _ _ Hh Hok Hreg) as [_ Hg].
  assert (permits_downloads (mam_ratio_guard (core_mam c')) = false) as Hp'
    by (rewrite Hg; by apply guard_stays).
  split; [exact Hp'|]. intros Ha.
  destruct (commands_decided _ _ _ _ _ _ _ Hreach Hh Ha (tripped_gate _ Hp'))
    as (update & rows & session & _ & Hl & Hs & _ & Hc). by exists rows, session.
Qed.

(** *** Witnesses *)

Lemma downloads_registry_ok n :
  run Core.new (firstn n downloads_run) = Some (downloads_result n) →
  registry_ok (core_registry (downloads_core n)).
Proof.
  intros Hr. unfold downloads_core. destruct (downloads_result n) as [c trace]. simpl.
  by apply (run_registry _ _ _ _ Hr (downloads_events_ok n)).
Qed.

Definition sample_use : RatioUse :=
  match mam_ratio_guard (core_mam (downloads_step 27).1) with
  | RatioGuard_Tripped used => used
  | _ => mkRatioUse 0 0 0
  end.


Lemma nothing_transfers_until_checked_witness :
  permits_downloads (mam_ratio_guard (core_mam (downloads_step 29).1)) = false
  ∧ ∃ rows session,
      Registry.loaded (core_registry (downloads_step 29).1) = Some rows
      ∧ core_session (downloads_step 29).1 = Some session
      ∧ command_ok (records rows) (session_torrents session) (λ _, False)
          (TorrentCommand_Stop ["f00d"%string]).
Proof.
  destruct (nothing_transfers_until_checked (downloads_core 29) (occurred_at (downloads_event 29))
    (timed_event (downloads_event 29)) (downloads_step 29).1 (downloads_step 29).2
    (TorrentCommand_Stop ["f00d"%string])) as [Hp Hc].
  - apply downloads_reachable. vm_compute. reflexivity.
  - apply downloads_registry_ok. vm_compute. reflexivity.
  - vm_compute. reflexivity.
  - exact I.
  - vm_compute. reflexivity.
  - reflexivity.
  - split; [exact Hp|]. apply Hc. apply list_elem_of_In. vm_compute. left. reflexivity.
Defined.
