(* ===== verification/Html.v ===== *)
(** * Markup

    What a [maud] template stands for: a list of nodes, of which an element has a name,
    attributes and content. Writing markup as text, with what is text escaped, is
    [maud]'s. *)

From S2P Require Import Prelude Bytes.

Inductive Node :=
  | Node_Doctype
  | Node_Text (text : string)
  | Node_Element (name : string) (attributes : list (string * string)) (content : list Node).

Abbreviation Markup := (list Node) (only parsing).

Definition text (s : string) : Markup := [Node_Text s].
Definition element (name : string) (attributes : list (string * string)) (parts : list Markup)
    : Markup :=
  [Node_Element name attributes (concat parts)].
Definition doctype : Markup := [Node_Doctype].

(** [@if] and [@if let]. *)
Definition when (b : bool) (m : Markup) : Markup := if b then m else [].
Definition with_some {A} (o : option A) (f : A → Markup) : Markup :=
  match o with Some x => f x | None => [] end.
(** [@for]. *)
Definition each {A} (l : list A) (f : A → Markup) : Markup := concat (map f l).

(** An attribute that is there if it has a value, or if it is set. *)
Definition attribute_of (name : string) (value : option string) : list (string * string) :=
  match value with Some value => [(name, value)] | None => [] end.
Definition flag (name : string) (set : bool) : list (string * string) :=
  if set then [(name, EmptyString)] else [].

(** The value of an attribute. *)
Definition attribute (name : string) (attributes : list (string * string)) : option string :=
  snd <$> List.find (λ a, String.eqb a.1 name) attributes.

(** ** Every element *)

Section nodes.
Context (P : string → list (string * string) → list Node → Prop).

(** That something holds of every element, wherever it is. *)
Fixpoint every (n : Node) : Prop :=
  match n with
  | Node_Element name attributes content =>
      P name attributes content ∧ fold_right (λ n holds, every n ∧ holds) True content
  | _ => True
  end.
Definition everywhere (m : Markup) : Prop := Forall every m.

Lemma everywhere_app m m' : everywhere m → everywhere m' → everywhere (m ++ m').
Proof. intros. by apply Forall_app. Qed.

Lemma everywhere_concat parts : Forall everywhere parts → everywhere (concat parts).
Proof. induction 1; simpl; [constructor|by apply everywhere_app]. Qed.

Lemma everywhere_text s : everywhere (text s).
Proof. by repeat constructor. Qed.

Lemma everywhere_element name attributes parts :
  P name attributes (concat parts) → Forall everywhere parts →
  everywhere (element name attributes parts).
Proof.
  intros HP Hparts. apply Forall_singleton. split; [done|].
  apply everywhere_concat in Hparts. simpl. revert Hparts.
  generalize (concat parts). induction 1; simpl; auto.
Qed.

Lemma everywhere_when b m : (b = true → everywhere m) → everywhere (when b m).
Proof. destruct b; simpl; [auto|constructor]. Qed.

Lemma everywhere_with_some {A} (o : option A) f :
  (∀ x, o = Some x → everywhere (f x)) → everywhere (with_some o f).
Proof. destruct o; simpl; [auto|constructor]. Qed.

Lemma everywhere_each {A} (l : list A) f :
  (∀ x, x ∈ l → everywhere (f x)) → everywhere (each l f).
Proof.
  intros Hf. apply everywhere_concat, List.Forall_forall.
  intros m (x & <- & Hx)%in_map_iff. by apply Hf, list_elem_of_In.
Qed.
End nodes.

(** ** What the elements give *)

Section collected.
Context {X : Type} (f : string → list (string * string) → list X).

(** What every element gives, in the order of the elements. *)
Fixpoint collect_node (n : Node) : list X :=
  match n with
  | Node_Element name attributes content =>
      f name attributes ++ fold_right (λ n found, collect_node n ++ found) [] content
  | _ => []
  end.
Definition collect (m : Markup) : list X := fold_right (λ n found, collect_node n ++ found) [] m.
End collected.
