(* ===== verification/MamPages.v ===== *)
(** * The status page's MAM panels

    The session and seedbox registration, the account as MAM reports it and bookmark
    acquisition ([shell/web/mam_pages.rs]). *)

From S2P Require Import Prelude Values Vocabulary MamApi Messages.
From S2P Require Import Bytes Text.
From S2P Require Import Settings.
From S2P Require Import RatioGuard Network Account Acquisition Connectability Mam.
From S2P Require Import Describe.
From S2P Require Import Html.

Local Open Scope string_scope.
Local Open Scope Z_scope.
Local Open Scope list_scope.

(** [UserClass], displayed. *)
Definition UserClass_fmt (class : UserClass) : string :=
  match class with
  | UserClass_Mouse => "Mouse"
  | UserClass_User => "User"
  | UserClass_PowerUser => "Power User"
  | UserClass_Vip => "VIP"
  | UserClass_EliteVip => "Elite VIP"
  | UserClass_Other name => name
  end.

Definition tag_of (label tone : string) : Markup :=
  element "span" [("class", say ["tag "; tone])] [text label].
Definition panel_head (id title : string) (rest : list Markup) : Markup :=
  element "div" [("class", "panel-head")]
    (element "h2" [("id", id)] [text title] :: rest).
Definition panel (id : string) (parts : list Markup) : Markup :=
  element "section" [("class", "panel"); ("aria-labelledby", id)] parts.
Definition dt (term : string) : Markup := element "dt" [] [text term].
Definition dd (parts : list Markup) : Markup := element "dd" [] parts.
Definition p (parts : list Markup) : Markup := element "p" [] parts.
Definition mono (s : string) : Markup := element "span" [("class", "mono")] [text s].

Section panels.
Context `{!Rfc3339}.

(** [pages::time] *)
Definition time (time : SystemTime) (style : string) : Markup :=
  let stamp := timestamp time in
  element "time" [("datetime", stamp); ("data-style", style)] [text stamp].
Definition full (at_ : SystemTime) : Markup := time at_ "full".

Definition access_panel (mam : Mam) (settings : SettingsState) (now : SystemTime) : Markup :=
  let cookie := is_some_and (Settings.loaded settings)
                  (λ settings, is_some (setting_saved (settings_api_cookie settings))) in
  let '(tag, tone) :=
    match mam_session mam, mam_hosts mam, mam_gate mam, cookie with
    | _, MamHosts_NotConfigured, _, _ => ("Not configured", "neutral")
    | _, _, _, false => ("No API cookie", "warning")
    | Session_Rejected _ _ _, _, _, _ => ("Session refused", "error")
    | _, _, RequestGate_Closed, _ => ("Waiting", "neutral")
    | Session_Verified _, _, _, _ => ("Working", "ok")
    | Session_Unverified, _, _, _ => ("Checking…", "pending")
    end in
  panel "mam" [
    panel_head "mam" "MAM access" [tag_of tag tone];
    element "dl" [] [
      dt "Session";
      dd [match mam_session mam with
          | Session_Unverified => text "Not verified since startup, a pause, or a change"
          | Session_Verified at_ => text "Accepted, last at " ++ full at_
          | Session_Rejected reason _ at_ =>
              text "Refused at " ++ full at_ ++ text ": " ++ text (rejection reason)
          end];
      dt "IP MAM sees";
      dd [match net_observed (mam_network mam) with
          | Some observed =>
              mono (ip_text (observed_ip (obs_observation observed)))
              ++ text " in " ++ text (Asn_fmt (observed_asn (obs_observation observed)))
              ++ with_some (observed_provider (obs_observation observed))
                   (λ name, text " (" ++ text name ++ text ")")
              ++ text ", " ++ full (obs_at observed)
              ++ when (obs_standing observed ==? IpStanding_Unconfirmed) (text " · unconfirmed")
          | None => text "Not observed yet"
          end];
      with_some (net_last_failure (mam_network mam)) (λ failure,
        dt "Failed lookups" ++
        dd [text (num (net_failures (mam_network mam))); text ": "; text (mam_failure failure)]);
      dt "Seedbox registration";
      dd [match seedbox_status (mam_seedbox mam) with
          | SeedboxStatus_Unconfirmed => text "Not confirmed"
          | SeedboxStatus_Confirmed ip at_ =>
              text "Confirmed for " ++ mono (ip_text ip) ++ text " at " ++ full at_
          | SeedboxStatus_Failed failure at_ =>
              text "Failed at " ++ full at_ ++ text ": " ++
              match failure with
              | RegistrationFailure_Mam failure => text (mam_failure failure)
              | RegistrationFailure_NotSaved => text "the attempt could not be recorded"
              end
          end];
      dt "Next registration";
      dd [match seedbox_last_attempt (mam_seedbox mam), allowance (mam_seedbox mam) now with
          | LastAttempt_ReadFailed, _ => text "Blocked: the last attempt could not be read"
          | _, RegistrationAllowance_Unknown => text "Waiting for the last attempt to be read"
          | _, RegistrationAllowance_Now => text "Allowed when needed"
          | _, RegistrationAllowance_After at_ =>
              text "Not before " ++ full at_ ++ text ", as MAM allows one an hour"
          end]]].

(** Whether anything used ratio, which Windlass never does on purpose. *)
Definition ratio_guard_panel (mam : Mam) : Markup :=
  let '(tag, tone) :=
    match mam_ratio_guard mam with
    | RatioGuard_Reading => ("Reading", "pending")
    | RatioGuard_ReadFailed => ("Unknown", "error")
    | RatioGuard_Watching _ => ("No ratio used", "ok")
    | RatioGuard_Tripped _ => ("Ratio used", "error")
    end in
  panel "mam-ratio" [
    panel_head "mam-ratio" "Ratio use" [tag_of tag tone];
    match mam_ratio_guard mam with
    | RatioGuard_Reading => p [text "Reading the downloaded figure Windlass last saw."]
    | RatioGuard_ReadFailed =>
        p [text "Windlass could not read the downloaded figure it last saw, so it starts no download."]
    | RatioGuard_Watching None =>
        p [text "Windlass only downloads what MAM does not count against your ratio. The next account reading sets the downloaded figure it watches."]
    | RatioGuard_Watching (Some downloaded) =>
        p [text "Windlass only downloads what MAM does not count against your ratio, and watches MAM's downloaded figure of ";
           text (size downloaded); text ". If it rises, every download stops."]
    | RatioGuard_Tripped used =>
        p [text "MAM counted "; text (size (RatioUse_counted used));
           text " against your ratio, seen "; full (use_at used);
           text ". Every download Windlass added is stopped. Find out on MAM what used it, then say:"]
        ++ element "form" [("class", "inline"); ("method", "post"); ("action", "/mam/ratio/checked")] [
             element "button" [("class", "secondary"); ("type", "submit")]
               [text "I checked; let downloads run"]]
    end].

Definition outcome (outcome : option PurchaseOutcome) : Markup :=
  match outcome with
  | None => text "waiting for MAM"
  | Some (PurchaseOutcome_Made points) => text "made; " ++ text (num points) ++ text " points left"
  | Some (PurchaseOutcome_Refused (Some message)) => text "refused: " ++ text message
  | Some (PurchaseOutcome_Refused None) => text "refused"
  | Some PurchaseOutcome_Uncertain =>
      text "uncertain; nothing more is bought until the next reading"
  | Some (PurchaseOutcome_Settled sale by_) =>
      text (if sale ==? Sale_Made then "made" else "not made") ++
      match by_ with
      | SettledBy_Reading => text ", as the next reading showed"
      | SettledBy_Owner => text ", as you checked on MAM"
      end
  | Some PurchaseOutcome_Unresolved =>
      text "the next reading could not tell whether it went through. Check your bonus points on MAM, then say:"
      ++ element "form" [("class", "inline"); ("method", "post"); ("action", "/mam/purchase/checked")] [
           element "button" [("class", "secondary"); ("type", "submit"); ("name", "made"); ("value", "yes")]
             [text "It went through"];
           text " ";
           element "button" [("class", "secondary"); ("type", "submit"); ("name", "made"); ("value", "no")]
             [text "It did not"]]
  end.

Definition last_purchase (record : PurchaseRecord) : Markup :=
  dt "Last purchase" ++
  dd [text (purchase (purchase_purchase record)); text " at "; full (purchase_at record); text ": ";
      outcome (purchase_outcome record)].

(** MAM's client list and what it says about the running qBittorrent. *)
Definition client_list (mam : Mam) : Markup :=
  with_some (account_client_list (mam_account mam)) (λ list,
    dt "Clients MAM lists" ++
    dd [text (Describe.client_standing (mam_client mam)); text " · read "; full (list_at list);
        each (list_clients list) (λ client,
          element "br" [] [] ++
          match client_qbittorrent client with
          | Some version => text "qBittorrent " ++ text (ClientVersion_fmt version)
          | None => text "An entry Windlass cannot read"
          end ++
          match client_connectable client with
          | Some Connectable_Yes => text " · connectable"
          | Some Connectable_No => text " · not connectable"
          | _ => text EmptyString
          end ++
          when (client_refusal client ==? ClientRefusal_Refused) (text " · marked not allowed"))]).

(** What Windlass did when MAM could not reach qBittorrent. *)
Definition repair (mam : Mam) : Markup :=
  match mam_connectability mam with
  | Connectability_Fine => []
  | Connectability_Repaired _ wall found =>
      dt "Connectability repair" ++
      dd [text "Made at "; full wall;
          text "; a reading 30 minutes later shows whether it worked. "; text (findings found); text "."]
  | Connectability_Unresolved repaired found =>
      dt "Connectability repair" ++
      element "dd" [("class", "attention")]
        [text "Still not connectable after the repair at "; full repaired; text ". ";
         text (findings found); text "."]
  end.

Definition account_details (mam : Mam) (reserve : option Points) (reading : Reading)
    (now : SystemTime) : list Markup :=
  let account := mam_account mam in
  let data := reading_data reading in
  [dt "Read"; dd [full (reading_at reading)];
   dt "Class";
   dd [text (UserClass_fmt (data_class data));
       with_some (data_vip_until data) (λ until, text " · VIP until " ++ full until)];
   dt "Bonus points";
   dd [text (num (data_points data));
       with_some reserve (λ reserve, text " · reserve " ++ text (num reserve))];
   dt "Wedges"; dd [text (num (data_wedges data))];
   dt "Upload beyond downloads"; dd [text (gib (UserData_buffer data))];
   dt "Ratio";
   dd [match Account.ratio account with
       | Some ratio => text (Ratio_fmt ratio)
       | None => text "Unlimited: nothing downloaded"
       end];
   with_some (data_summary data) (λ summary,
     dt "Unsatisfied" ++
     dd [text (num (summary_unsatisfied summary)); text " of ";
         text (num (summary_unsatisfied_limit summary));
         let not_seeding := TorrentCount_plus (summary_unsatisfied_not_seeding summary)
                              (summary_hit_and_run_not_seeding summary) in
         when (negb (TorrentCount_is_zero not_seeding))
           (text " · " ++ text (num not_seeding) ++ text " not seeding")] ++
     dt "Connectable" ++
     dd [match summary_connectable summary with
         | Connectable_Yes => text "Yes"
         | Connectable_No => text "No"
         | Connectable_Offline => text "Offline: nothing is seeding"
         | Connectable_Unrecognised value => text "MAM says " ++ text value
         end]);
   client_list mam;
   repair mam;
   with_some (opt_filter Attention_any (Account.attention account)) (λ attention,
     dt "Flagged by MAM" ++
     dd [when (attention_partial attention ==? Partials_Seen) (text "A partial download. ");
         when (negb (TorrentCount_is_zero (attention_tracker_errors attention)))
           (text (num (attention_tracker_errors attention)) ++ text " tracker errors. ");
         when (negb (TorrentCount_is_zero (attention_flagged attention)))
           (text (num (attention_flagged attention)) ++ text " torrents in red categories.")]);
   with_some (opt_filter (λ notices, negb (NoticeCount_is_zero (MamNotices_total notices)))
                (data_notices data)) (λ notices,
     dt "MAM notifications" ++
     dd [text (num (MamNotices_total notices)); text ", not read by Windlass"]);
   with_some (Account.vip_cost account data now) (λ cost,
     dt "VIP renewal" ++ dd [text "Due; about "; text (num cost); text " points"]);
   with_some (account_last_purchase account) last_purchase].

Definition account_panel (mam : Mam) (settings : SettingsState) (now : SystemTime) : Markup :=
  let account := mam_account mam in
  match account_reading account with
  | None =>
      panel "mam-account" [
        panel_head "mam-account" "MAM account"
          [element "span" [("class", "tag neutral")] [text "Not read yet"]];
        match account_last_failure account with
        | Some failure =>
            p [text "Reading failed "; text (num (account_failures account)); text " times: ";
               text (mam_failure failure)]
        | None =>
            p [text "Windlass reads the account from MAM every 15 minutes once requests run."]
        end]
  | Some reading =>
      let '(tag, tone) :=
        if is_some (Account.ratio_low account) then ("Ratio low", "error")
        else if is_some_and (Account.attention account) Attention_any
                || is_some (Account.unsatisfied_near_limit account)
        then ("Needs attention", "warning")
        else ("In good standing", "ok") in
      panel "mam-account" [
        panel_head "mam-account" "MAM account" [tag_of tag tone];
        element "dl" [] (account_details mam (Settings.points_reserve settings) reading now)]
  end.

(** What Windlass knows about a running download it added. *)
Definition download_watch (watch : DownloadWatch) : string :=
  match watch with
  | DownloadWatch_Wedged => "a wedge makes it free for you"
  | DownloadWatch_FreeForNow => "free for you now; checked again with the next bookmark listing"
  | DownloadWatch_NeedLookup | DownloadWatch_NeedHistory => "being checked with MAM"
  | DownloadWatch_NotFree WedgeAccounting_Missing _ =>
      "stopped: MAM's bonus history shows no wedge spent on it"
  | DownloadWatch_NotFree _ MamListing_Unlisted => "stopped: MAM no longer lists it"
  | DownloadWatch_NotFree _ _ => "not free for you; a wedge is spent if one is left"
  end.

(** The rows of running downloads, with a break before all but the first. *)
Definition watched_downloads (watched : list (Registry.Download * DownloadWatch)) : Markup :=
  concat (imap (λ index '(download, watch),
    when (0 <? Z.of_nat index) (element "br" [] []) ++
    text "MAM torrent " ++ text (num (Registry.download_mam download)) ++ text ": " ++
    text (download_watch watch)) watched).

Definition bookmarks_panel (mam : Mam) : Markup :=
  let acquisition := mam_acquisition mam in
  let bookmarks := acq_bookmarks acquisition in
  let '(tag, tone) :=
    match acq_hold acquisition, acq_refused acquisition with
    | _, Some _ => ("Downloads refused", "error")
    | Some _, None => ("Waiting", "warning")
    | None, None => ("Ready", "ok")
    end in
  panel "bookmarks" [
    panel_head "bookmarks" "Bookmarks" [tag_of tag tone];
    element "dl" [] [
      dt "Listed";
      dd [match bookmarks_latest bookmarks with
          | Some listed =>
              text (num (listed_found listed)) ++ text " bookmarks at " ++ full (listed_at listed)
          | None => text "Not yet"
          end];
      with_some (bookmarks_last_failure bookmarks) (λ failure,
        dt "Failed listings" ++
        dd [text (num (bookmarks_failures bookmarks)); text ": "; text (mam_failure failure)]);
      with_some (acq_hold acquisition) (λ reason,
        dt "Next download waits" ++ dd [text (Describe.hold reason)]);
      with_some (acq_fetching acquisition) (λ '(id, wedge),
        dt "Downloading" ++
        dd [text "MAM torrent "; text (num id);
            when (wedge ==? Wedge_Spend) (text ", spending a wedge")]);
      when (negb (is_empty (acq_watched acquisition)))
        (dt "Running downloads" ++ dd [watched_downloads (acq_watched acquisition)])]].

(** The MAM panels. *)
Definition panels (mam : Mam) (settings : SettingsState) (now : SystemTime) : Markup :=
  access_panel mam settings now ++ ratio_guard_panel mam ++
  account_panel mam settings now ++ bookmarks_panel mam.
End panels.
