(* ===== verification/Pages.v ===== *)
(** * The dashboard's pages

    Translating the core's state into the pages the owner sees ([shell/web/pages.rs]), over
    the observation the runner publishes after each event ([runner.rs]). Reading the clock
    is an argument of each page that does it. *)

From S2P Require Import Prelude Values Vocabulary MamApi Messages.
From S2P Require Import Bytes Text Address.
From S2P Require Import Timer MamPause Settings History PortForwarding Tunnel Qbittorrent Registry.
From S2P Require Import RatioGuard Network Account Acquisition Connectability Mam Notifications.
From S2P Require Core.
From S2P Require Import HistoryWriter HistoryPages.
From S2P Require Storage.
From S2P Require Import Json.
From S2P Require Import Describe.
From S2P Require Import Dashboard.
From S2P Require Import Html MamPages.

Local Open Scope string_scope.
Local Open Scope Z_scope.
Local Open Scope list_scope.

(** ** What the runner publishes *)

Record Observation := mkObservation {
  seen_state : State;
  seen_settings : SettingsState;
  seen_history : HistoryState;
  seen_port_forwarding : PortForwarding;
  seen_qbittorrent : Qbittorrent;
  seen_registry : Registry;
  seen_tunnel : Tunnel;
  seen_notifications : Notifications;
  seen_mam : Mam;
  seen_last_event : option TimedEvent;
  seen_storage_error : option string;
}.

Definition Observation_of (core : Core.Core) (last_event : option TimedEvent)
    (storage_error : option string) : Observation := {|
  seen_state := Core.core_state core;
  seen_settings := Core.core_settings core;
  seen_history := Core.core_history core;
  seen_port_forwarding := Core.core_port_forwarding core;
  seen_qbittorrent := Core.core_qbittorrent core;
  seen_registry := Core.core_registry core;
  seen_tunnel := Core.core_tunnel core;
  seen_notifications := Core.core_notifications core;
  seen_mam := Core.core_mam core;
  seen_last_event := last_event;
  seen_storage_error := storage_error;
|}.

(** ** Text and order *)

Definition join (separator : string) (l : list string) : string := String.concat separator l.

(** [SocketAddr], displayed. *)
Definition SocketAddr_fmt (address : SocketAddr) : string :=
  match socket_ip address with
  | IpAddr_V4 _ => say [ip_text (socket_ip address); ":"; num (socket_port address)]
  | IpAddr_V6 _ =>
      say ["["; ip_text (socket_ip address);
           if socket_scope address =? 0 then EmptyString else say ["%"; num (socket_scope address)];
           "]:"; num (socket_port address)]
  end.

(** ** Words *)

Definition Location_title (self : Location) : string :=
  match self with
  | Location_Status => "Status"
  | Location_Notifications => "Notifications"
  | Location_History => "History"
  | Location_Settings => "Settings"
  end.

Definition mam_requests_explanation (status : MamRequestsStatus) : string :=
  match status with
  | MamRequestsStatus_Starting =>
      "Windlass is loading its saved state. No MAM requests are made until it is loaded."
  | MamRequestsStatus_StartupFailed =>
      "Saved state could not be loaded, so MAM requests stay blocked. Check the storage error below."
  | MamRequestsStatus_Running =>
      "Windlass may contact MAM when its other conditions are met. Pausing does not stop qBittorrent's tracker traffic."
  | MamRequestsStatus_Paused =>
      "The pause is saved and survives a restart. Authentication is unverified and IP reporting is unconfirmed while paused; this does not mean MAM rejected anything."
  | MamRequestsStatus_PausePending =>
      "Requests are already blocked. The pause is confirmed once it is saved."
  | MamRequestsStatus_PauseNotSaved =>
      "Requests are blocked now, but the pause could not be saved, so a restart could resume them."
  | MamRequestsStatus_ResumePending => "Requests stay paused until resuming is saved."
  | MamRequestsStatus_ResumeNotSaved =>
      "Resuming could not be saved, so requests stay paused."
  end.

Definition cookie_status (settings : SettingsState) : string * string :=
  match settings with
  | SettingsState_Unread | SettingsState_Reading => ("Loading…", "neutral")
  | SettingsState_ReadFailed => ("Settings could not be read", "error")
  | SettingsState_Loaded settings =>
      match Setting_status (settings_api_cookie settings) with
      | SettingStatus_Saving => ("Saving…", "pending")
      | SettingStatus_NotSaved => ("Change not saved; no cookie is used", "error")
      | SettingStatus_Saved =>
          if is_some (setting_saved (settings_api_cookie settings))
          then ("Configured", "ok") else ("Not configured", "warning")
      end
  end.

Definition topic_status (topic : Setting (option NtfyTopic)) : string * string :=
  match Setting_status topic with
  | SettingStatus_Saving => ("Saving…", "pending")
  | SettingStatus_NotSaved => ("Change not saved", "error")
  | SettingStatus_Saved =>
      if is_some (setting_saved topic) then ("Configured", "ok") else ("Not configured", "warning")
  end.

Definition condition (condition : Condition) : string :=
  match condition with
  | Condition_VpnProtection => "VPN not working"
  | Condition_FailoverBlocked => "VPN switch blocked"
  | Condition_ForwardedPort => "No forwarded port"
  | Condition_QbittorrentReachable => "qBittorrent not responding"
  | Condition_QbittorrentVersion => "qBittorrent version not allowed"
  | Condition_TorrentErrors => "Torrents with errors"
  | Condition_FilesMissing => "Files missing on disk"
  | Condition_TorrentsMissing => "Torrents missing from qBittorrent"
  | Condition_RegistrySave => "Torrent records not saved"
  | Condition_MamSession => "MAM refused the API session"
  | Condition_SeedboxRegistration => "Seedbox IP not registered"
  | Condition_MamIp => "IP lookups at MAM failing"
  | Condition_Ratio => "Ratio below 2.0"
  | Condition_UnsatisfiedLimit => "Unsatisfied torrents near the limit"
  | Condition_UnsatisfiedNotSeeding => "Unsatisfied torrents not seeding"
  | Condition_MamFlags => "MAM flags the account's torrents"
  | Condition_MamMessages => "MAM has notifications"
  | Condition_DownloadsHeld => "Downloads held"
  | Condition_Wedges => "No wedges left"
  | Condition_PointsReserve => "Bonus points below the reserve"
  | Condition_VipEnding => "VIP ending"
  | Condition_DownloadsRefused => "MAM refused a download"
  | Condition_SeedingBehind => "Torrents behind on seeding"
  | Condition_MamClient => "qBittorrent not listed by MAM"
  | Condition_Connectable => "qBittorrent not connectable"
  | Condition_PurchaseUnresolved => "A purchase to check on MAM"
  end.

Definition history_status (history : HistoryState) (settings : SettingsState) : string :=
  let limit := history_limit settings in
  match history with
  | HistoryState_Closed | HistoryState_Opening _ => "Opening…"
  | HistoryState_Unavailable => "Unavailable: history could not be opened"
  | HistoryState_Open retained trim =>
      let kept :=
        match limit with
        | None => say ["About "; num retained; " entries kept"]
        | Some limit => say ["About "; num retained; " of "; num limit; " entries kept"]
        end in
      match trim with
      | Trim_Idle => kept
      | Trim_Pending _ => say [kept; "; removing the oldest…"]
      | Trim_Failed => say [kept; "; removing the oldest failed and resumes after a restart"]
      end
  end.

Definition port_failure (reason : MappingFailure) : string :=
  match reason with
  | MappingFailure_NoResponse => "The gateway did not answer"
  | MappingFailure_Refused _ => "The gateway refused the request"
  | MappingFailure_Malformed => "The gateway's answer was not valid"
  end.

Definition approval (approval : MamApproval) : string * string :=
  match approval with
  | MamApproval_Recommended => ("Recommended by MAM", "ok")
  | MamApproval_Allowed => ("Allowed by MAM", "ok")
  | MamApproval_Discouraged => ("Discouraged by MAM", "warning")
  | MamApproval_NotAllowed => ("Not allowed by MAM", "error")
  end.

Definition torrent_state (state : TorrentState) : string :=
  match state with
  | TorrentState_FetchingMetadata => "Fetching metadata"
  | TorrentState_Downloading => "Downloading"
  | TorrentState_DownloadStalled => "Downloading, stalled"
  | TorrentState_DownloadQueued => "Queued to download"
  | TorrentState_Seeding => "Seeding"
  | TorrentState_SeedStalled => "Seeding, no peers"
  | TorrentState_SeedQueued => "Queued to seed"
  | TorrentState_Stopped Completion_Complete => "Stopped, complete"
  | TorrentState_Stopped Completion_Incomplete => "Stopped, incomplete"
  | TorrentState_Checking => "Checking"
  | TorrentState_Moving => "Moving"
  | TorrentState_MissingFiles => "Files missing"
  | TorrentState_Error => "Error"
  | TorrentState_Unknown => "Unknown"
  end.

Definition progress (torrent : Torrent) : string :=
  let permille := torrent_progress torrent in
  say [num (permille / 10); "."; num (permille mod 10); "%"].

Definition wanted (record : TorrentRecord) : string :=
  match record_desired record, record_origin record with
  | Desired_Queued, _ => "Queued"
  | Desired_Snatched, _ => "Snatched before, not downloaded"
  | Desired_Active, Origin_Adopted => "Active, adopted"
  | Desired_Active, (Origin_Bookmark | Origin_Redownload) => "Active"
  | Desired_Held, _ => "Held: its wedge was not spent"
  | Desired_Removed, _ => "Removed"
  end.

(** What qBittorrent reports for a row now, and whether it needs attention. *)
Definition registry_state (record : TorrentRecord) (live : option Torrent) (listed : bool)
    : string * bool :=
  match live, record_desired record with
  | Some torrent, _ =>
      (torrent_state (Vocabulary.torrent_state torrent),
       Vocabulary.torrent_state torrent ==? TorrentState_MissingFiles)
  | None, Desired_Active =>
      if listed then ("Missing from qBittorrent", true) else ("Unknown", false)
  | None, Desired_Queued => ("Waiting to download", false)
  | None, Desired_Snatched => ("Waiting for you", false)
  | None, Desired_Held => ("Held, not in qBittorrent", true)
  | None, Desired_Removed => ("Not in qBittorrent", false)
  end.

Definition setting_label {T} (setting : Setting T) : string * string :=
  match Setting_status setting with
  | SettingStatus_Saved => ("Saved", "ok")
  | SettingStatus_Saving => ("Saving…", "pending")
  | SettingStatus_NotSaved => ("Not saved", "error")
  end.

Definition delay (occurred processed : SystemTime) : string :=
  match wall_duration_since processed occurred with
  | None => "clock changed"
  | Some delay => say ["+"; num (delay / 1_000_000); " ms"]
  end.

(** ** The parts of every page *)

Definition tone_tag (label_tone : string * string) : Markup := tag_of label_tone.1 label_tone.2.

Definition header_live (observation : Observation) (location : Location) : Markup :=
  let status := mam_requests (seen_state observation) in
  let '(label, tone) :=
    match status with
    | MamRequestsStatus_Starting => ("Starting…", "neutral")
    | MamRequestsStatus_StartupFailed => ("Blocked: startup failed", "error")
    | MamRequestsStatus_Running => ("Running", "neutral")
    | MamRequestsStatus_Paused => ("Paused", "warning")
    | MamRequestsStatus_PausePending => ("Blocked, saving pause…", "pending")
    | MamRequestsStatus_PauseNotSaved => ("Blocked, pause not saved", "error")
    | MamRequestsStatus_ResumePending => ("Paused, saving resume…", "pending")
    | MamRequestsStatus_ResumeNotSaved => ("Paused, resume not saved", "error")
    end in
  let button :=
    match status with
    | MamRequestsStatus_Starting | MamRequestsStatus_StartupFailed => None
    | MamRequestsStatus_Running => Some ("/mam/pause", "Pause MAM requests", "secondary")
    | MamRequestsStatus_Paused => Some ("/mam/resume", "Resume MAM requests", "primary")
    | MamRequestsStatus_PausePending | MamRequestsStatus_ResumePending =>
        Some (EmptyString, "Saving…", "secondary")
    | MamRequestsStatus_PauseNotSaved =>
        Some ("/mam/pause", "Try saving the pause again", "primary")
    | MamRequestsStatus_ResumeNotSaved => Some ("/mam/resume", "Try resuming again", "primary")
    end in
  element "div" [("class", "mam-control"); ("data-live", "header")] [
    element "span" [("class", say ["pill "; tone])]
      [text "MAM requests: "; element "strong" [] [text label]];
    with_some button (λ '(action, words, style),
      if String.eqb action EmptyString then
        element "button" ([("class", style); ("type", "button")] ++ flag "disabled" true) [text words]
      else
        element "form" [("method", "post"); ("action", action)] [
          element "input" [("type", "hidden"); ("name", "next"); ("value", Location_path location)] [];
          element "button" [("class", style); ("type", "submit")] [text words]])].

Definition locations : list Location :=
  [Location_Status; Location_Notifications; Location_History; Location_Settings].

Definition layout (location : Location) (observation : Observation) (body : Markup) : Markup :=
  doctype ++
  element "html" [("lang", "en")] [
    element "head" [] [
      element "meta" [("charset", "utf-8")] [];
      element "meta" [("name", "viewport"); ("content", "width=device-width, initial-scale=1")] [];
      element "title" [] [text (Location_title location); text " · Windlass"];
      element "link" [("rel", "stylesheet"); ("href", "/static/app.css")] [];
      element "script" ([("src", "/static/app.js")] ++ flag "defer" true) []];
    element "body" [] [
      element "header" [("class", "top")] [
        element "div" [("class", "bar")] [
          element "a" [("class", "brand"); ("href", "/")] [text "Windlass"];
          element "nav" [("aria-label", "Main")] [
            each locations (λ page,
              if page ==? location then
                element "a" [("href", Location_path page); ("aria-current", "page")]
                  [text (Location_title page)]
              else element "a" [("href", Location_path page)] [text (Location_title page)])];
          element "div" [("class", "controls")] [
            element "span" [("id", "connection"); ("class", "connection")]
              [text "Not live: reload to refresh"];
            header_live observation location]];
        element "div" ([("id", "disconnected"); ("class", "disconnected-banner"); ("role", "status")]
                       ++ flag "hidden" true)
          [text "Lost connection to Windlass. Everything below is from before then. Reconnecting…"]];
      element "main" [] [body]]].

Definition note (parts : list Markup) : Markup := element "p" [("class", "note")] parts.
Definition dd_mono (parts : list Markup) : Markup := element "dd" [("class", "mono")] parts.
Definition span (s : string) : Markup := element "span" [] [text s].
Definition link (href words : string) : Markup := element "a" [("href", href)] [text words].
Definition th (words : string) : Markup := element "th" [("scope", "col")] [text words].
Definition td (parts : list Markup) : Markup := element "td" [] parts.
Definition td_mono (parts : list Markup) : Markup := element "td" [("class", "mono")] parts.

(** ** The status page *)

Section pages.
Context `{!Rfc3339}.
(** [str::to_lowercase]. *)
Context (to_lowercase : string → string).

Definition notifications_panel (notifications : Notifications) (settings : SettingsState) : Markup :=
  let configured := is_some_and (Settings.loaded settings)
                      (λ settings, is_some (setting_saved (settings_ntfy_topic settings))) in
  let failing :=
    match not_delivery notifications with Delivery_Retrying _ _ => true | _ => false end
    || match not_last_outcome notifications with
       | Some outcome => match outcome_result outcome with Err _ => true | Ok _ => false end
       | None => false
       end in
  let tag :=
    if negb configured then ("Not configured", "warning")
    else if failing then ("Delivery failing", "error")
    else match not_delivery notifications with
         | Delivery_Sending _ => ("Sending…", "pending")
         | Delivery_Idle | Delivery_Retrying _ _ => ("Working", "ok")
         end in
  let raised :=
    map (λ entry, condition entry.1)
      (List.filter (λ entry, entry.2 ==? Phase_Raised) (bt_items (not_conditions notifications))) in
  panel "notifications" [
    panel_head "notifications" "Notifications" [tone_tag tag];
    (if configured : bool then
       element "dl" [] [
         dt "Last delivery";
         dd [match not_last_outcome notifications with
             | Some outcome =>
                 match outcome_result outcome with
                 | Ok _ => text "Delivered " ++ full (outcome_at outcome)
                 | Err reason =>
                     text "Failed " ++ full (outcome_at outcome) ++ text ": "
                     ++ text (delivery_failure reason)
                 end
             | None => text "None yet"
             end];
         when (FailureCount_any (not_failures notifications))
           (dt "Failed attempts" ++ dd [text (num (not_failures notifications)); text ", retrying"]);
         dt "Waiting to send"; dd [text (count_of (not_outbox notifications))];
         when (0 <? not_dropped notifications)
           (dt "Dropped"
            ++ dd [text (num (not_dropped notifications)); text " oldest, while delivery failed"])]
     else
       p [text "No ntfy topic is set, so nothing is sent. ";
          link "/settings#notifications" "Set a topic"; text "."]);
    when (negb (is_empty raised))
      (note [text "Reported and not yet resolved: "; text (join ", " raised); text "."])].

Definition switch_allowance (allowance : SwitchAllowance) : Markup :=
  match allowance with
  | SwitchAllowance_Now => text "Allowed if checks keep failing"
  | SwitchAllowance_After at_ =>
      text "Not before " ++ full at_ ++ text ", as MAM allows one IP change an hour"
  | SwitchAllowance_Unknown => text "Blocked: the last switch is not known"
  | SwitchAllowance_NoAlternative => text "No other server is configured"
  end.

Definition tunnel_panel (tunnel : Tunnel) (now : SystemTime) : Markup :=
  match tunnel_watch tunnel with
  | None =>
      panel "tunnel" [
        panel_head "tunnel" "VPN tunnel"
          [element "span" [("class", "tag neutral")] [text "Not configured"]];
        p [text "No exit-IP service is configured, so Windlass cannot tell whether the VPN carries traffic."]]
  | Some watch =>
      let tag :=
        match watch_failover watch, watch_protection watch with
        | Some _, _ => ("Switching server…", "pending")
        | None, Protection_Unknown => ("Checking…", "pending")
        | None, Protection_Available _ _ => ("Protected", "ok")
        | None, Protection_Unavailable _ => ("Unprotected", "error")
        end in
      panel "tunnel" [
        panel_head "tunnel" "VPN tunnel" [tone_tag tag];
        element "dl" [] [
          dt "Server";
          dd [match watch_current watch with
              | Some server => mono server
              | None => span "Unknown"
              end];
          match watch_protection watch with
          | Protection_Available exit_ip checked_at =>
              dt "Exit IP" ++ dd_mono [text (ip_text exit_ip)] ++ dt "Checked" ++ dd [full checked_at]
          | Protection_Unavailable since =>
              dt "Exit IP" ++ dd [text "Unknown"] ++ dt "Failing since" ++ dd [full since]
          | Protection_Unknown => dt "Exit IP" ++ dd [text "Not checked yet"]
          end;
          with_some (watch_last_failure watch) (λ reason,
            dt "Failed checks" ++ dd [text (num (watch_failures watch))] ++
            dt "Latest failure" ++ dd [text (exit_ip_failure reason)]);
          dt "Failover";
          dd [match watch_failover watch with
              | Some (Failover_Saving switch) =>
                  text "Recording a switch to " ++ mono (switch_server switch) ++ text "…"
              | Some (Failover_Switching server) =>
                  text "Switching to " ++ mono server ++ text "…"
              | None => switch_allowance (Tunnel.switch_allowance tunnel now)
              end]]]
  end.

Definition port_forwarding_panel (forwarding : PortForwarding) : Markup :=
  let tag :=
    match forwarding with
    | PortForwarding_Disabled => ("Not configured", "neutral")
    | PortForwarding_Enabled enabled =>
        match pf_lease enabled with
        | None => ("No forwarded port", "error")
        | Some _ =>
            if pf_failures enabled =? FailureCount_NONE then ("Forwarded", "ok")
            else ("Renewal failing", "warning")
        end
    end in
  panel "port-forwarding" [
    panel_head "port-forwarding" "Port forwarding" [tone_tag tag];
    match forwarding with
    | PortForwarding_Disabled =>
        p [text "No ProtonVPN NAT-PMP gateway is configured, so peers cannot connect in."]
    | PortForwarding_Enabled enabled =>
        element "dl" [] [
          match pf_lease enabled with
          | Some lease =>
              dt "Forwarded port" ++
              dd_mono [text "TCP "; text (num (lease_tcp lease)); text ", UDP ";
                       text (num (lease_udp lease))] ++
              dt "Renewed" ++ dd [full (lease_renewed_at lease)]
          | None => dt "Forwarded port" ++ dd [text "None"]
          end;
          with_some (pf_last_failure enabled) (λ reason,
            dt "Failed attempts" ++ dd [text (num (pf_failures enabled))] ++
            dt "Latest failure" ++ dd [text (port_failure reason)])]
    end].

Definition qbittorrent_panel (qbittorrent : Qbittorrent) (forwarded : option Port) : Markup :=
  let tag :=
    match qbittorrent with
    | Qbittorrent_Disabled => ("Not configured", "neutral")
    | Qbittorrent_Connecting => ("Connecting…", "pending")
    | Qbittorrent_Unreachable _ _ => ("Unreachable", "error")
    | Qbittorrent_Connected session => approval (session_approval session)
    end in
  panel "qbittorrent" [
    panel_head "qbittorrent" "qBittorrent" [tone_tag tag];
    match qbittorrent with
    | Qbittorrent_Disabled => p [text "No qBittorrent WebUI is configured."]
    | Qbittorrent_Connecting => p [text "Waiting for qBittorrent's WebUI to answer."]
    | Qbittorrent_Unreachable reason _ =>
        p [text (qbittorrent_failure reason); text ". Retrying every ";
           text (num (as_secs Qbittorrent.POLL_INTERVAL)); text " seconds."]
    | Qbittorrent_Connected session =>
        let preferences := session_preferences session in
        element "dl" [] [
          dt "Version"; dd_mono [text (ReportedVersion_fmt (session_version session))];
          dt "Network interface";
          dd [match preferences_interface preferences with
              | Some interface => mono interface
              | None => span "Any interface; not bound to the VPN"
              end];
          dt "Listen port";
          dd [match preferences_listen_port preferences with
              | Some port => mono (num port)
              | None => span "Unknown"
              end;
              match forwarded, session_activity session with
              | _, Activity_SettingListenPort _ => text " · updating to the forwarded port…"
              | Some port, _ =>
                  if preferences_listen_port preferences ==? Some port
                  then text " · matches the forwarded port"
                  else text " · differs from the forwarded port"
              | None, _ => text EmptyString
              end];
          dt "Torrents"; dd [text (count_of (bt_values (session_torrents session)))]]
    end].

(** ** The torrents *)

Definition torrent_table (rest : list Markup) (headings : list string) (rows : Markup) : Markup :=
  element "section" [("class", "panel table-box"); ("aria-labelledby", "torrents")] ([
    element "h2" [("id", "torrents"); ("class", "table-title")] [text "Torrents"]] ++ rest ++ [
    element "table" [("class", "history")] [
      element "thead" [] [element "tr" [] [each headings th]];
      element "tbody" [] [rows]]]).

Definition torrent_name_text (torrent : Torrent) : string :=
  default EmptyString (torrent_name torrent).

Definition session_table (session : option Qbittorrent.Session) : Markup :=
  match opt_filter (λ session, negb (is_empty (bt_values (session_torrents session)))) session with
  | None => []
  | Some session =>
      let torrents :=
        sort_by_key (λ torrent, to_lowercase (torrent_name_text torrent))
          (bt_values (session_torrents session)) in
      torrent_table [] ["Name"; "State"; "Progress"; "Size"] (each torrents (λ torrent,
        element "tr" [] [
          td [text (torrent_name_text torrent)];
          td [text (torrent_state (Vocabulary.torrent_state torrent))];
          td_mono [text (progress torrent)];
          td_mono [text (Describe.size (torrent_size torrent))]]))
  end.

(** A row of the registry: its name, the record, and the torrent as qBittorrent reports it
    now and as it was seen last. *)
Record Row := mkRow {
  row_name : string;
  row_record : TorrentRecord;
  row_live : option Torrent;
  row_seen : option Torrent;
}.

Definition registry_row (session : option Qbittorrent.Session) (bookmarks : Bookmarks) (record : TorrentRecord)
    : Row :=
  let live := hash ← Identity_hash (record_identity record);
              session ← session; session_torrents session !! hash in
  let seen := opt_or live (observation_torrent <$> record_observation record) in
  let name :=
    match seen ≫= torrent_name with
    | Some name => name
    | None =>
        match Identity_mam_id (record_identity record) with
        | None => EmptyString
        | Some id =>
            match Bookmarks_find bookmarks id with
            | None => say ["MAM torrent "; num id]
            | Some bookmark => bookmark_title bookmark
            end
        end
    end in
  mkRow name record live seen.

Definition registry_markup (listed : bool) (row : Row) : Markup :=
  let record := row_record row in
  let '(state, attention) := registry_state record (row_live row) listed in
  element "tr" [] [
    td [text (row_name row)];
    td [text (wanted record);
        when (record_desired record ==? Desired_Snatched)
          (element "form" [("class", "inline"); ("method", "post"); ("action", "/torrents/redownload")] [
             element "input"
               [("type", "hidden"); ("name", "record"); ("value", num (record_id record))] [];
             element "button" [("class", "secondary"); ("type", "submit")] [text "Download again"]])];
    element "td" (attribute_of "class" (then_some attention "attention")) [text state];
    match row_seen row with
    | Some torrent =>
        td_mono [text (progress torrent)] ++
        td_mono [text (Describe.size (torrent_size torrent))] ++
        td_mono [text (Describe.size (torrent_uploaded torrent)); text " · ratio ";
                 text (Ratio_fmt (torrent_ratio torrent))] ++
        td [match torrent_completed_at torrent with
            | Some at_ => full at_
            | None => text "Not yet"
            end]
    | None => td [] ++ td [] ++ td [] ++ td []
    end].

Definition registry_table (records : Records) (session : option Qbittorrent.Session) (bookmarks : Bookmarks)
    : Markup :=
  let rows := map (registry_row session bookmarks) (Registry.records records) in
  if is_empty rows then []
  else
    let rows := sort_by_key (λ row, to_lowercase (row_name row)) rows in
    let listed := is_some_and session Qbittorrent.listed in
    torrent_table
      [when (Registry.save_failed records)
         (note [text "The latest changes could not be saved; Windlass retries with the next update."])]
      ["Name"; "Wanted"; "State"; "Progress"; "Size"; "Uploaded"; "Completed"]
      (each rows (registry_markup listed)).

(** The torrent registry, with what qBittorrent reports now; while the registry is
    unavailable, what qBittorrent reports. *)
Definition torrent_list (qbittorrent : Qbittorrent) (registry : Registry) (bookmarks : Bookmarks)
    : Markup :=
  let session := match qbittorrent with Qbittorrent_Connected session => Some session | _ => None end in
  match registry with
  | Registry_Loaded records => registry_table records session bookmarks
  | Registry_ReadFailed =>
      element "section" [("class", "panel error"); ("aria-labelledby", "registry-error")] [
        element "h2" [("id", "registry-error")] [text "Torrent registry unavailable"];
        p [text "The torrent registry could not be read, so torrents are shown but not managed."]] ++
      session_table session
  | Registry_Unread | Registry_Reading => session_table session
  end.

(** The clock is read for MAM's panels and again for the tunnel's. *)
Definition status_live (observation : Observation) (mam_now tunnel_now : SystemTime) : Markup :=
  let status := mam_requests (seen_state observation) in
  let settings := seen_settings observation in
  let needs_cookie := is_some_and (Settings.loaded settings)
                        (λ settings, negb (is_some (setting_saved (settings_api_cookie settings)))) in
  element "div" [("class", "stack"); ("data-live", "status")] [
    when needs_cookie
      (element "section" [("class", "attention"); ("aria-labelledby", "setup")] [
         element "h2" [("id", "setup")] [text "Set up MAM access"];
         element "ol" [] [
           element "li" [] [link "/settings#api-cookie" "Add your MAM API cookie"; text "."];
           element "li" [] [text "Resume MAM requests when you are ready. Windlass starts paused."]]]);
    element "div" [("class", "grid")] [
      panel "mam-requests" [
        panel_head "mam-requests" "MAM requests" []; p [text (mam_requests_explanation status)]];
      panel "mam-cookie" [
        panel_head "mam-cookie" "API cookie" [tone_tag (cookie_status settings)];
        p [text "Windlass sends the cookie only to MAM, and records it only as redacted."]];
      panels (seen_mam observation) settings mam_now;
      panel "history-panel" [
        panel_head "history-panel" "History" [link "/history" "View history"];
        p [text (history_status (seen_history observation) settings)]];
      notifications_panel (seen_notifications observation) settings;
      tunnel_panel (seen_tunnel observation) tunnel_now;
      port_forwarding_panel (seen_port_forwarding observation);
      qbittorrent_panel (seen_qbittorrent observation)
        (PortForwarding.forwarded_port (seen_port_forwarding observation))];
    torrent_list (seen_qbittorrent observation) (seen_registry observation)
      (acq_bookmarks (mam_acquisition (seen_mam observation)));
    with_some (seen_storage_error observation) (λ error,
      element "section" [("class", "panel error"); ("aria-labelledby", "storage-error")] [
        element "h2" [("id", "storage-error")] [text "Latest storage error"];
        element "p" [("class", "mono")] [text error]])].

Definition status (observation : Observation) (mam_now tunnel_now : SystemTime) : Markup :=
  layout Location_Status observation
    (element "div" [("class", "page")] [
       element "h1" [("class", "visually-hidden")] [text "Status"];
       status_live observation mam_now tunnel_now]).
End pages.

(** ** The settings page *)

Definition settings_live (observation : Observation) : Markup :=
  let loaded := Settings.loaded (seen_settings observation) in
  let label := λ label, match loaded with None => ("Loading…", "neutral") | Some settings => label settings end in
  let live := λ (name : string) (label_tone : string * string),
    element "span" [("class", say ["tag "; label_tone.2]); ("data-live", name)]
      [text label_tone.1] in
  live "api-cookie-status" (cookie_status (seen_settings observation)) ++
  live "history-limit-status" (label (λ settings, setting_label (settings_history_limit settings))) ++
  live "points-reserve-status" (label (λ settings, setting_label (settings_points_reserve settings))) ++
  live "torrent-limits-status" (label (λ settings, setting_label (settings_torrent_limits settings))).

Definition setting_form (id : list (string * string)) (action : string) (parts : list Markup)
    : Markup :=
  element "form" ([("class", "setting")] ++ id ++ [("method", "post"); ("action", action)]) parts.
Definition setting_head (label : Markup) (status : string * string) (live : string) : Markup :=
  element "div" [("class", "setting-head")] [
    label;
    element "span" [("class", say ["tag "; status.2]); ("data-live", live)] [text status.1]].
Definition label_for (id words : string) : Markup := element "label" [("for", id)] [text words].
Definition hint (words : string) : Markup := element "p" [("class", "hint")] [text words].
Definition row (parts : list Markup) : Markup := element "div" [("class", "row")] parts.
Definition save_button (words : string) : Markup :=
  element "button" [("class", "primary"); ("type", "submit")] [text words].
(** A button that submits its form to another path. *)
Definition other_button (action words : string) : Markup :=
  element "button" [("class", "secondary"); ("type", "submit"); ("formaction", action)] [text words].
(** What a rejected form adds to its field and below it. *)
Definition invalid (error : option string) (id : string) : list (string * string) :=
  attribute_of "aria-invalid" (const "true" <$> error) ++
  attribute_of "aria-describedby" (const id <$> error).
Definition field_error (error : option string) (id : string) : Markup :=
  with_some error (λ error, element "p" [("class", "field-error"); ("id", id)] [text error]).

Definition cookie_form (settings : Settings) (status : string * string) (form : SettingsForm) : Markup :=
  let cookie := settings_api_cookie settings in
  setting_form [("id", "api-cookie")] "/settings/api-cookie" [
    setting_head (label_for "cookie" "MAM API cookie") status "api-cookie-status";
    hint "Paste the mam_id value of an IP- or ASN-locked session with seedbox permission.";
    row [
      element "input"
        ([("id", "cookie"); ("type", "text"); ("name", "cookie"); ("autocomplete", "off");
          ("spellcheck", "false"); ("placeholder", "mam_id value")] ++
         attribute_of "value" (opt_or (form_api_cookie form) (setting_requested cookie)) ++
         invalid (form_api_cookie_error form) "cookie-error") [];
      save_button (if is_some (setting_saved cookie) then "Replace" else "Save");
      when (is_some (setting_saved cookie) || is_some (setting_requested cookie))
        (other_button "/settings/api-cookie/clear" "Clear")];
    field_error (form_api_cookie_error form) "cookie-error"].

Definition topic_form (settings : Settings) (form : SettingsForm) : Markup :=
  let topic := settings_ntfy_topic settings in
  setting_form [("id", "notifications")] "/settings/ntfy-topic" [
    setting_head (label_for "topic" "Notification topic") (topic_status topic) "ntfy-topic-status";
    hint "Windlass publishes notifications to this ntfy topic. Anyone who knows the name can read them, so choose one that is hard to guess, and subscribe to it in the ntfy app.";
    row [
      element "input"
        ([("id", "topic"); ("type", "text"); ("name", "topic"); ("autocomplete", "off");
          ("spellcheck", "false"); ("placeholder", "topic name")] ++
         attribute_of "value" (opt_or (form_ntfy_topic form) (setting_requested topic)) ++
         invalid (form_ntfy_topic_error form) "topic-error") [];
      save_button (if is_some (setting_saved topic) then "Replace" else "Save");
      when (is_some (setting_saved topic) || is_some (setting_requested topic))
        (other_button "/settings/ntfy-topic/clear" "Clear")];
    when (is_some (setting_saved topic))
      (row [other_button "/notifications/test" "Send test notification"]);
    field_error (form_ntfy_topic_error form) "topic-error"].

Definition reserve_form (settings : Settings) (form : SettingsForm) : Markup :=
  let reserve := settings_points_reserve settings in
  setting_form [("id", "points-reserve")] "/settings/points-reserve" [
    setting_head (label_for "reserve" "Bonus points reserve") (setting_label reserve)
      "points-reserve-status";
    hint "Every VIP or upload credit purchase leaves at least this many points. Default 20000.";
    row [
      element "input"
        ([("id", "reserve"); ("type", "text"); ("inputmode", "numeric"); ("name", "reserve");
          ("value", default (num (setting_requested reserve)) (form_points_reserve form))] ++
         invalid (form_points_reserve_error form) "reserve-error") [];
      span "points";
      save_button "Save"];
    field_error (form_points_reserve_error form) "reserve-error"].

Definition limits_form (settings : Settings) (form : SettingsForm) : Markup :=
  let limits := settings_torrent_limits settings in
  let requested := setting_requested limits in
  let error := form_torrent_limits_error form in
  let field := λ (id name : string) (given : option string) (limit : Z),
    element "input"
      ([("id", id); ("class", "short"); ("type", "text"); ("inputmode", "numeric"); ("name", name);
        ("value", default (num limit) given)] ++ invalid error "limits-error") [] in
  setting_form [("id", "torrent-limits")] "/settings/torrent-limits" [
    setting_head (element "span" [("class", "label")] [text "Torrent limits"]) (setting_label limits)
      "torrent-limits-status";
    element "p" [("class", "hint")] [
      text "How many torrents may download at once, and how many may be active: downloading, or seeding while peers download from them. ";
      text "Windlass sets qBittorrent's queue to match, and torrents short of 96 hours of seeding (MAM's 72, plus a day) always run. Defaults 5 and 10."];
    row [
      label_for "max-downloading" "Downloading";
      field "max-downloading" "downloading" (form_max_downloading form) (limits_downloading requested);
      label_for "max-active" "Active";
      field "max-active" "active" (form_max_active form) (limits_active requested);
      save_button "Save"];
    field_error error "limits-error"].

Definition limit_form (settings : Settings) (form : SettingsForm) : Markup :=
  let limit := settings_history_limit settings in
  setting_form [] "/settings/history-limit" [
    setting_head (label_for "history-limit" "History size limit") (setting_label limit)
      "history-limit-status";
    hint "When history grows past this many entries, the oldest are removed. Default 10000.";
    row [
      element "input"
        ([("id", "history-limit"); ("type", "text"); ("inputmode", "numeric"); ("name", "limit");
          ("value", default (num (setting_requested limit)) (form_history_limit form))] ++
         invalid (form_history_limit_error form) "limit-error") [];
      span "entries";
      save_button "Save"];
    field_error (form_history_limit_error form) "limit-error"].

Definition deployment_section (deployment : Deployment) : Markup :=
  element "section" [("class", "panel flush"); ("aria-labelledby", "deployment")] [
    element "div" [("class", "section-head")] [
      element "h2" [("id", "deployment")] [text "Deployment settings"];
      p [text "Set in your NixOS configuration. Change them there and rebuild."]];
    element "dl" [("class", "setting")] [
      dt "Listen addresses";
      dd_mono [text (join ", " (map SocketAddr_fmt (deployment_listen deployment)))];
      dt "Allowed host names";
      (if is_empty (deployment_allowed_hosts deployment)
       then dd [text "None; only the listen addresses"]
       else dd_mono [text (join ", " (deployment_allowed_hosts deployment))]);
      dt "Database";
      dd_mono [text (deployment_database deployment)];
      dt "Notification server";
      dd_mono [text (deployment_ntfy_server deployment)];
      dt "Notifications reach it through";
      match deployment_ntfy_relay deployment with
      | Some relay => dd_mono [text (SocketAddr_fmt relay)]
      | None => dd [text "A direct connection"]
      end;
      dt "Dashboard link in notifications";
      match deployment_dashboard_url deployment with
      | Some url => dd_mono [text url]
      | None => dd [text "None; notifications carry no link"]
      end]].

Definition settings (observation : Observation) (deployment : Deployment) (form : SettingsForm)
    : Markup :=
  let status := cookie_status (seen_settings observation) in
  layout Location_Settings observation
    (element "div" [("class", "page narrow")] [
       element "h1" [] [text "Settings"];
       element "section" [("class", "panel flush"); ("aria-labelledby", "windlass-settings")] [
         element "div" [("class", "section-head")] [
           element "h2" [("id", "windlass-settings")] [text "Windlass settings"];
           p [text "Saved by Windlass. Each change is confirmed only once it is saved."]];
         match Settings.loaded (seen_settings observation) with
         | Some settings =>
             cookie_form settings status form ++ topic_form settings form ++
             reserve_form settings form ++ limits_form settings form ++ limit_form settings form
         | None => element "p" [("class", "setting")] [text status.1]
         end];
       deployment_section deployment]).

(** ** The history page *)

(** [str::replace('+', "%2B")]. *)
Definition plus_encoded (s : string) : string :=
  t (mjoin (map (λ c, if Ascii.eqb c "+"%char then b "%2B" else [c]) (b s))).

Section history_page.
Context `{!Rfc3339}.
(** [serde_json::Value], displayed. *)
Context (json_text : Value → string).

(** The parameters of [page_link]. *)
Definition link_parameters (query : HistoryQuery) (page : Page) : list (string * string) :=
  match query_category query with Some category => [("kind", category)] | None => [] end ++
  (if query_routine query then [("routine", "on")] else []) ++
  omap (λ '(name, value), (λ value, (name, plus_encoded (timestamp value))) <$> value)
    [("from", query_from query); ("to", query_until query)] ++
  match page with
  | Page_Newest => []
  | Page_Before id => [("before", num id)]
  | Page_After id => [("after", num id)]
  end.
Definition page_link (query : HistoryQuery) (page : Page) : string :=
  say ["/history?"; join "&" (map (λ parameter, say [parameter.1; "="; parameter.2])
                               (link_parameters query page))].

Definition data (words : string) : Markup :=
  element "details" [] [element "summary" [] [text "Data"]; element "pre" [] [text words]].

Definition history_entry (row : HistoryRow Value) : Markup :=
  element "tr" [("class", say ["event "; row_category row])] [
    element "td" [("class", "mono muted")] [text (num (row_id row))];
    td_mono [time (row_occurred_at row) "clock"];
    td_mono [time (row_processed_at row) "clock"; text " ";
             element "span" [("class", "muted")]
               [text (delay (row_occurred_at row) (row_processed_at row))]];
    td [element "span" [("class", "kind")] [text "EVENT"];
        text (row_summary row);
        data (row_event row);
        when (negb (is_empty (row_actions row)))
          (element "ul" [("class", "actions")] [
             each (row_actions row) (λ action,
               element "li" [] [
                 element "span" [("class", "kind action")] [text "ACTION"];
                 text (action_summary action);
                 data (json_text (action_detail action))])])]].

Definition filter_form (query : HistoryQuery) : Markup :=
  element "form" [("class", "panel filters"); ("id", "history-filter"); ("method", "get");
                  ("action", "/history")] [
    element "div" [("class", "field")] [
      label_for "kind" "Kind";
      element "select" [("id", "kind"); ("name", "kind")] [
        element "option" [("value", EmptyString)] [text "All kinds"];
        each CATEGORIES (λ '(value, label),
          element "option" ([("value", value)] ++ flag "selected" (query_category query ==? Some value))
            [text label])]];
    element "div" [("class", "field")] [
      label_for "from_local" "From";
      element "input" [("id", "from_local"); ("type", "datetime-local"); ("name", "from_local")] [];
      element "input" ([("type", "hidden"); ("name", "from")]
                       ++ attribute_of "value" (timestamp <$> query_from query)) []];
    element "div" [("class", "field")] [
      label_for "to_local" "To";
      element "input" [("id", "to_local"); ("type", "datetime-local"); ("name", "to_local")] [];
      element "input" ([("type", "hidden"); ("name", "to")]
                       ++ attribute_of "value" (timestamp <$> query_until query)) []];
    element "label" [("class", "check")] [
      element "input" ([("type", "checkbox"); ("name", "routine")]
                       ++ flag "checked" (query_routine query)) [];
      text "Show routine entries"];
    save_button "Apply";
    when (is_some (query_from query) || is_some (query_until query))
      (element "p" [("class", "muted filter-summary")] [
         text "Showing entries processed";
         with_some (query_from query) (λ from, text " from " ++ full from);
         with_some (query_until query) (λ until, text " until " ++ full until);
         text ". "; link "/history" "Clear filters"])].

Definition unreadable (title error : string) : Markup :=
  element "section" [("class", "panel error")]
    [element "h2" [] [text title]; element "p" [("class", "mono")] [text error]].

Definition pager (query : HistoryQuery) (page : HistoryPage Value) : Markup :=
  element "nav" [("class", "pager"); ("aria-label", "History pages")] [
    match has_newer page, list.head (page_rows page) with
    | true, Some first =>
        element "a" [("class", "button"); ("href", page_link query (Page_After (row_id first)))]
          [text "Newer"]
    | _, _ => element "span" [] []
    end;
    match has_older page, list.last (page_rows page) with
    | true, Some last =>
        element "a" [("class", "button"); ("href", page_link query (Page_Before (row_id last)))]
          [text "Older"]
    | _, _ => []
    end].

Definition history (observation : Observation) (query : HistoryQuery)
    (result : Result (HistoryPage Value) string) (retained : option EntryCount) : Markup :=
  layout Location_History observation
    (element "div" [("class", "page")] [
       element "div" [("class", "title-row")] [
         element "h1" [] [text "History"];
         with_some retained (λ retained,
           element "p" [("class", "muted")] [text "About "; text (num retained); text " entries kept"])];
       filter_form query;
       match result with
       | Err error => unreadable "History could not be read" error
       | Ok page =>
           element "div" [("class", "panel table-box")] [
             element "table" [("class", "history")] [
               element "caption" [("class", "visually-hidden")]
                 [text "History entries, newest first. Actions are listed under the event whose processing produced them."];
               element "thead" [] [element "tr" [] [each ["#"; "Happened"; "Processed"; "Entry"] th]];
               element "tbody" [] [
                 when (is_empty (page_rows page))
                   (element "tr" [] [element "td" [("colspan", "4")] [text "No entries match."]]);
                 each (page_rows page) history_entry]]] ++
           pager query page
       end]).

(** ** The notifications page *)

Definition notice_item (notice : Storage.StoredNotice) : Markup :=
  let words := Storage.stored_words notice in
  let page := Storage.words_page words in
  element "li" [("class", "panel notice"); ("id", say ["notice-"; num (Storage.stored_id notice)])] [
    element "div" [("class", "notice-head")] [
      element "h2" [] [text (Storage.words_title words)];
      element "span" [("class", "muted")] [
        full (Storage.stored_at notice);
        text " · ";
        text (if Storage.stored_urgent notice then "Urgent" else "Dashboard only")]];
    p [text (Storage.words_body words)];
    if is_some (strip_prefix (b "https://") (b page)) then
      element "a" [("href", page); ("rel", "noreferrer")] [text "Open MAM"]
    else link page "Show on the dashboard"].

(** Every notice Windlass gave, newest first, each with its own address for pushes to
    link to. *)
Definition notifications (observation : Observation)
    (result : Result (list Storage.StoredNotice) string) : Markup :=
  layout Location_Notifications observation
    (element "div" [("class", "page")] [
       element "div" [("class", "title-row")] [
         element "h1" [] [text "Notifications"];
         element "p" [("class", "muted")]
           [text "Urgent notices are also pushed to your phone, as a link to their entry here. The rest are only shown here."]];
       match result with
       | Err error => unreadable "Notifications could not be read" error
       | Ok notices =>
           if is_empty notices then
             element "section" [("class", "panel")] [p [text "No notices yet."]]
           else element "ol" [("class", "notices")] [each notices notice_item]
       end]).

(** A plain page for refused or failed requests. *)
Definition message (observation : Observation) (title words : string) : Markup :=
  layout Location_Status observation
    (element "div" [("class", "page narrow")] [
       element "h1" [] [text title];
       p [text words];
       p [link "/" "Back to status"]]).

(** ** The markup of a response *)

(** [str::to_lowercase]; the clock, read for MAM's panels and for the tunnel's; and what
    reading the stored history and notices gives. *)
Context (to_lowercase : string → string) (mam_now tunnel_now : SystemTime).
Context (read_page : HistoryQuery → Result (HistoryPage Value) string).
Context (read_notices : Z → Result (list Storage.StoredNotice) string).

(** The parts of every page that update live. The header's command returns to the page
    given by [location]. *)
Definition live (observation : Observation) (location : Location) : Markup :=
  header_live observation location ++
  status_live to_lowercase observation mam_now tunnel_now ++
  settings_live observation.

(** How many notices the notifications page shows. *)
Definition NOTICES_SHOWN : Z := 200.

(** The page a handler answers with; what is no page has no markup. *)
Definition rendered (deployment : Deployment) (observation : Observation) (body : Body) : Markup :=
  match body with
  | Body_Status => status to_lowercase observation mam_now tunnel_now
  | Body_Notifications => notifications observation (read_notices NOTICES_SHOWN)
  | Body_History query =>
      history observation query (read_page query)
        match seen_history observation with
        | HistoryState_Open retained _ => Some retained
        | HistoryState_Closed | HistoryState_Opening _ | HistoryState_Unavailable => None
        end
  | Body_Settings form => settings observation deployment form
  | Body_Message title words => message observation title words
  | Body_Live location => live observation location
  | Body_Empty | Body_Text _ | Body_Stylesheet | Body_Script => []
  end.
End history_page.
