(* ===== verification/PageProofs.v ===== *)
(** * What the pages show and where they lead

    That no page but the settings form shows a secret; that every form and link of a page
    is one the dashboard's handlers answer; and that the links between the pages of the
    history keep what was asked for. *)

From S2P Require Import Prelude Values Vocabulary MamApi Messages.
From S2P Require Import Bytes Text Address.
From S2P Require Import Settings Mam.
From S2P Require Core.
From S2P Require Import HistoryWriter HistoryPages.
From S2P Require Import Json.
From S2P Require Import Describe.
From S2P Require Recorded Storage NoticeWords.
From S2P Require Import Dashboard Html MamPages Pages.

Local Open Scope string_scope.
Local Open Scope Z_scope.
Local Open Scope list_scope.

(** ** Secrets *)

(** A secret that is there or not, with what it is left out. *)
Definition hide_secret (secret : option string) : option string := const EmptyString <$> secret.

(** A secret setting; the value asked for is kept or hidden as [asked] says. *)
Definition hide_setting (asked : option string → option string) (setting : Setting (option string))
    : Setting (option string) := {|
  setting_saved := hide_secret (setting_saved setting);
  setting_requested := asked (setting_requested setting);
  setting_persistence :=
    match setting_persistence setting with
    | SettingPersistence_Pending value => SettingPersistence_Pending (hide_secret value)
    | SettingPersistence_Idle => SettingPersistence_Idle
    | SettingPersistence_Failed => SettingPersistence_Failed
    end;
|}.

Definition hide_settings (asked : option string → option string) (settings : SettingsState)
    : SettingsState :=
  match settings with
  | SettingsState_Loaded settings =>
      SettingsState_Loaded
        {| settings with
           settings_api_cookie := hide_setting asked (settings_api_cookie settings);
           settings_ntfy_topic := hide_setting asked (settings_ntfy_topic settings) |}
  | settings => settings
  end.

Definition hide_mam (mam : Mam) : Mam := {| mam with
  mam_outstanding :=
    (λ outstanding, match outstanding with
     | Outstanding_SavingRegistration at_ _ epoch =>
         Outstanding_SavingRegistration at_ EmptyString epoch
     | outstanding => outstanding
     end) <$> mam_outstanding mam;
  mam_cookie_in_use := hide_secret (mam_cookie_in_use mam);
  mam_issued_cookie := hide_secret (mam_issued_cookie mam) |}.

(** The observation without the API cookies and the ntfy topic it holds, but for those
    the owner asked for as [asked] says. *)
Definition hide (asked : option string → option string) (observation : Observation) : Observation :=
  {| observation with
     seen_settings := hide_settings asked (seen_settings observation);
     seen_mam := hide_mam (seen_mam observation);
     seen_last_event :=
       (λ event, {| event with timed_event := Recorded.hide_event (timed_event event) |})
       <$> seen_last_event observation |}.

Lemma is_some_hidden secret : is_some (hide_secret secret) = is_some secret.
Proof. by destruct secret. Qed.

Lemma status_hidden asked setting : Setting_status (hide_setting asked setting) = Setting_status setting.
Proof. unfold Setting_status. simpl. by destruct (setting_persistence setting). Qed.

Section secrets.
Context `{!Rfc3339} (json_text : Value → string) (to_lowercase : string → string).
Context (mam_now tunnel_now : SystemTime).
Context (read_page : HistoryQuery → Result (HistoryPage Value) string).
Context (read_notices : Z → Result (list Storage.StoredNotice) string).
Local Abbreviation rendered :=
  (rendered json_text to_lowercase mam_now tunnel_now read_page read_notices).

Lemma cookie_status_hidden asked settings :
  cookie_status (hide_settings asked settings) = cookie_status settings.
Proof.
  destruct settings as [| |s|]; try done. simpl. by rewrite status_hidden, is_some_hidden.
Qed.

Lemma panels_hidden asked mam settings now :
  panels (hide_mam mam) (hide_settings asked settings) now = panels mam settings now.
Proof.
  unfold panels. f_equal; [|f_equal; f_equal; by destruct settings].
  unfold access_panel. destruct settings as [| |s|]; try reflexivity.
  cbn [hide_settings Settings.loaded is_some_and settings_api_cookie hide_setting setting_saved].
  by rewrite is_some_hidden.
Qed.

Lemma notifications_panel_hidden asked notifications settings :
  notifications_panel notifications (hide_settings asked settings)
  = notifications_panel notifications settings.
Proof.
  destruct settings as [| |s|]; try done. unfold notifications_panel.
  cbn [hide_settings Settings.loaded is_some_and settings_ntfy_topic hide_setting setting_saved].
  by rewrite is_some_hidden.
Qed.

Lemma status_live_hidden asked observation :
  status_live to_lowercase (hide asked observation) mam_now tunnel_now
  = status_live to_lowercase observation mam_now tunnel_now.
Proof.
  unfold status_live.
  cbn [hide seen_state seen_settings seen_history seen_port_forwarding seen_qbittorrent seen_registry
       seen_tunnel seen_notifications seen_mam seen_storage_error].
  rewrite cookie_status_hidden, panels_hidden, notifications_panel_hidden.
  destruct (seen_settings observation) as [| |s|]; try reflexivity.
  cbn [hide_settings Settings.loaded is_some_and settings_api_cookie hide_setting setting_saved].
  by rewrite is_some_hidden.
Qed.

Lemma settings_live_hidden asked observation :
  settings_live (hide asked observation) = settings_live observation.
Proof.
  unfold settings_live. cbn [hide seen_settings]. rewrite cookie_status_hidden.
  by destruct (seen_settings observation).
Qed.

Lemma layout_hidden asked location observation body :
  layout location (hide asked observation) body = layout location observation body.
Proof. done. Qed.

Lemma forms_hidden settings form status :
  let hidden := {| settings with
    settings_api_cookie := hide_setting id (settings_api_cookie settings);
    settings_ntfy_topic := hide_setting id (settings_ntfy_topic settings) |} in
  cookie_form hidden status form = cookie_form settings status form ∧
  topic_form hidden form = topic_form settings form.
Proof.
  cbv zeta. unfold cookie_form, topic_form, topic_status.
  cbn [settings_api_cookie settings_ntfy_topic].
  rewrite status_hidden. cbn [hide_setting setting_saved setting_requested]. by rewrite !is_some_hidden.
Qed.

(** C23: no page but the settings form depends on the API cookie or the ntfy topic: with
    every cookie and topic the core holds left out (those saved, asked for, being saved,
    in use, issued by MAM, waiting with a registration, or in the last event), the status,
    history, notifications, message and live pages are the same. The settings page shows
    of them what the owner asked for last, in its form, and nothing else. *)
Theorem pages_show_no_secret deployment observation body :
  ((∀ form, body ≠ Body_Settings form) →
   rendered deployment (hide (const None) observation) body = rendered deployment observation body) ∧
  rendered deployment (hide id observation) body = rendered deployment observation body.
Proof.
  assert (∀ asked, (∀ form, body ≠ Body_Settings form) →
    rendered deployment (hide asked observation) body = rendered deployment observation body) as Hany.
  { intros asked Hbody. destruct body; try done; unfold Pages.rendered.
    - unfold status. by rewrite status_live_hidden, layout_hidden.
    - by destruct (Hbody form).
    - unfold live. by rewrite status_live_hidden, settings_live_hidden. }
  split; [apply Hany|]. destruct body; try (apply Hany; congruence). unfold Pages.rendered, settings.
  cbn [hide seen_settings]. rewrite layout_hidden, cookie_status_hidden.
  destruct (seen_settings observation) as [| |s|]; try done.
  cbn [hide_settings Settings.loaded]. by rewrite !(proj1 (forms_hidden _ _ _)), (proj2 (forms_hidden _ _ (cookie_status (SettingsState_Loaded s)))).
Qed.
End secrets.

(** ** A page with a cookie *)

Definition sample_settings : Settings := {|
  settings_history_limit := Setting_loaded 10_000 10_000;
  settings_api_cookie := Setting_loaded (Some "mam-secret") (Some "mam-secret");
  settings_ntfy_topic := Setting_loaded (Some "topic-secret") (Some "topic-secret");
  settings_points_reserve := Setting_loaded 20_000 20_000;
  settings_torrent_limits := Setting_loaded (mkTorrentLimits 5 10) (mkTorrentLimits 5 10) |}.
Definition sample_observation : Observation :=
  let started := Observation_of Core.new None None in
  {| started with seen_settings := SettingsState_Loaded sample_settings |}.
Definition sample_rendered (observation : Observation) (body : Body) : Markup :=
  @rendered (λ _, None) (λ _, EmptyString) id 0 0 (λ _, Err "unread") (λ _, Err "unread")
    sample_deployment observation body.

Lemma pages_show_no_secret_witness :
  sample_rendered (hide (const None) sample_observation) (Body_Live Location_Status)
  = sample_rendered sample_observation (Body_Live Location_Status) ∧
  hide (const None) sample_observation ≠ sample_observation.
Proof.
  split.
  - apply (@pages_show_no_secret (λ _, None)). discriminate.
  - intros H. apply (f_equal (λ observation, setting_saved ∘ settings_api_cookie
      <$> Settings.loaded (seen_settings observation))) in H. discriminate H.
Defined.
