(* ===== verification/PageLinks.v ===== *)
(** * Where the pages lead

    Every form and link of a page is one the dashboard's handlers answer, and the links
    between the pages of the history keep what was asked for. What a browser does is
    here a relation: following a link asks for its address, and submitting a form sends
    its fields, those that are hidden with the value they have. *)

From S2P Require Import Prelude Values Vocabulary MamApi Messages.
From S2P Require Import Bytes Text Address.
From S2P Require Import MamPause Settings Registry Mam.
From S2P Require Core.
From S2P Require Import HistoryWriter HistoryPages.
From S2P Require Import Json.
From S2P Require Import Describe.
From S2P Require Storage NoticeWords.
From S2P Require Import Dashboard Html MamPages Pages.

Local Open Scope string_scope.
Local Open Scope Z_scope.
Local Open Scope list_scope.

(** ** Parameters of an address *)

(** Text that an address holds as it is, but for [+]. *)
Definition plain_byte (c : ascii) : bool := name_byte c || existsb (Z.eqb (u8 c)) [43; 46; 58].
Definition plain (s : string) : Prop := Forall (λ c, plain_byte c = true) (b s).

Definition encoded (parameter : string * string) : string :=
  say [parameter.1; "="; plus_encoded parameter.2].

(** Reading the parameters of an address, where they are plain. *)
Definition reads_parameters (decode : string → Pairs) : Prop :=
  ∀ parameters, Forall (λ parameter, plain parameter.1 ∧ plain parameter.2) parameters →
    decode (join "&" (map encoded parameters)) = parameters.

(** An address without the place in its page, its path, and what follows its question mark. *)
Definition link_path (link : string) : string := t (default [] (list.head (split "#"%char (b link)))).
Definition address_path (address : string) : string :=
  t (default [] (list.head (split "?"%char (b (link_path address))))).
Definition address_query (address : string) : string :=
  t (match split "?"%char (b (link_path address)) with _ :: query :: _ => query | _ => [] end).

(** ** Parameters, decoded *)

Definition asked_parameters `{!Rfc3339} (query : HistoryQuery) (page : Page) : Pairs :=
  match query_category query with Some category => [("kind", category)] | None => [] end ++
  (if query_routine query then [("routine", "on")] else []) ++
  match query_from query with Some from => [("from", timestamp from)] | None => [] end ++
  match query_until query with Some until => [("to", timestamp until)] | None => [] end ++
  match page with
  | Page_Newest => []
  | Page_Before id => [("before", num id)]
  | Page_After id => [("after", num id)]
  end.

Lemma plus_encoded_free s : "+"%char ∉ b s → plus_encoded s = s.
Proof.
  intros Hs. unfold plus_encoded. rewrite <-(t_b s) at 2. f_equal.
  induction (b s) as [|c l IH]; [done|]. rewrite not_elem_of_cons in Hs. simpl.
  destruct (Ascii.eqb_spec c "+"%char); [naive_solver|]. simpl. f_equal. naive_solver.
Qed.

Lemma signed_digit : ∀ c, is_digit c = true ∨ c = "-"%char → plain_byte c = true ∧ c ≠ "+"%char.
Proof. intros c [Hc| ->]; [|by vm_compute]. revert c Hc. each_byte. Qed.

Lemma num_plain n : plain (num n) ∧ "+"%char ∉ b (num n).
Proof.
  unfold plain, num. rewrite b_t.
  assert (Forall (λ c, is_digit c = true ∨ c = "-"%char) (print_Z n)) as H.
  { unfold print_Z. case_match; [constructor; [by right|]|];
      (eapply List.Forall_impl; [|apply print_nat_digits; lia]); auto. }
  split.
  - eapply List.Forall_impl; [|exact H]. intros c Hc. by apply signed_digit.
  - intros Hin. rewrite List.Forall_forall in H. apply list_elem_of_In, H, signed_digit in Hin. tauto.
Qed.

Lemma categories_plain category :
  category ∈ CATEGORIES.*1 → plain category ∧ "+"%char ∉ b category.
Proof.
  intros H. assert (Forall (λ category, forallb (λ c, plain_byte c && negb (Ascii.eqb c "+")) (b category) = true)
                      CATEGORIES.*1) as Hall by (repeat constructor).
  rewrite List.Forall_forall in Hall. apply list_elem_of_In, Hall, forallb_Forall_true in H.
  split.
  - eapply List.Forall_impl; [|exact H]. simpl. intros c Hc. by reflect_bools.
  - intros Hin. rewrite List.Forall_forall in H. apply list_elem_of_In, H in Hin. done.
Qed.

Section links.
Context `{!Rfc3339}.
(** The pages, once the query's category is one there is. *)
Definition category_known (query : HistoryQuery) : Prop :=
  ∀ category, query_category query = Some category → category ∈ CATEGORIES.*1.

Lemma page_link_encoded query page :
  category_known query →
  page_link query page = say ["/history?"; join "&" (map encoded (asked_parameters query page))].
Proof.
  intros Hc. unfold page_link. do 4 f_equal. unfold link_parameters, asked_parameters.
  rewrite !map_app. f_equal; [|f_equal; [by destruct (query_routine query)|rewrite app_assoc; f_equal]].
  - destruct (query_category query) as [c|] eqn:E; [|done]. unfold encoded. simpl.
    by rewrite plus_encoded_free by by apply categories_plain, Hc.
  - by destruct (query_from query), (query_until query).
  - destruct page as [|id|id]; [done|..]; unfold encoded; simpl;
      by rewrite plus_encoded_free by apply num_plain.
Qed.

(** Bytes that end no part of an address. *)
Definition within (s : string) : Prop := Forall (λ c, c ≠ "#"%char ∧ c ≠ "?"%char) (b s).

Lemma within_app s s' : within s → within s' → within (s +:+ s').
Proof. unfold within. rewrite b_app. intros. by apply Forall_app. Qed.

Lemma within_join separator l : within separator → Forall within l → within (join separator l).
Proof.
  intros Hs. unfold join. induction 1 as [|x l Hx Hl IH]; [constructor|]. simpl.
  destruct l; [done|]. by repeat apply within_app.
Qed.

Lemma plain_within : ∀ c, plain_byte c = true → c ≠ "#"%char ∧ c ≠ "?"%char.
Proof. each_byte. Qed.

Lemma say_three x y z : say [x; y; z] = x +:+ y +:+ z.
Proof. reflexivity. Qed.

Lemma encoded_within parameter : plain parameter.1 → plain parameter.2 → within (encoded parameter).
Proof.
  intros H1 H2. unfold encoded. rewrite say_three.
  apply within_app; [|apply within_app; [by repeat constructor|]].
  - eapply List.Forall_impl; [|exact H1]. apply plain_within.
  - unfold within, plus_encoded. rewrite b_t. induction H2 as [|c l Hc Hl IH]; [constructor|]. simpl.
    apply Forall_app. split; [|done].
    destruct (Ascii.eqb_spec c "+"%char); repeat constructor; try done; by apply plain_within.
Qed.

Lemma split_within c s : (c = "#"%char ∨ c = "?"%char) → within s → split c (b s) = [b s].
Proof.
  intros Hc Hs. apply split_last. intros Hin. unfold within in Hs. rewrite List.Forall_forall in Hs.
  apply list_elem_of_In, Hs in Hin. naive_solver.
Qed.

Lemma address_of_query path query :
  within path → within query →
  address_path (say [path; "?"; query]) = path ∧ address_query (say [path; "?"; query]) = query.
Proof.
  intros Hp Hq.
  assert (link_path (say [path; "?"; query]) = say [path; "?"; query]) as Hl.
  { unfold link_path. assert (split "#"%char (b (say [path; "?"; query])) = [b (say [path; "?"; query])]) as ->.
    { apply split_last. rewrite say_three, !b_app, !elem_of_app. unfold within in *.
      rewrite List.Forall_forall in Hp, Hq.
      intros [Hin|[Hin|Hin]]; [apply list_elem_of_In, Hp in Hin; naive_solver|
        |apply list_elem_of_In, Hq in Hin; naive_solver].
      revert Hin. apply (bool_decide_eq_false_1 _). reflexivity. }
    simpl. by rewrite t_b. }
  unfold address_path, address_query. rewrite Hl. rewrite say_three, !b_app. simpl.
  rewrite split_app, (split_within _ query) by
    first [by right|done|intros Hin; unfold within in Hp; rewrite List.Forall_forall in Hp;
           apply list_elem_of_In, Hp in Hin; naive_solver].
  simpl. by rewrite !t_b.
Qed.

Definition number_sent (page : Page) : Prop :=
  match page with Page_Newest => True | Page_Before id | Page_After id => i64_min ≤ id ≤ i64_max end.

Lemma asked_parameters_read query page :
  number_sent page →
  HistoryParameters_read (asked_parameters query page)
  = Some (mkHistoryParameters (query_category query) (timestamp <$> query_from query)
      (timestamp <$> query_until query) None None
      (match page with Page_Before id => Some id | _ => None end)
      (match page with Page_After id => Some id | _ => None end)
      (if query_routine query then Some "on" else None)).
Proof.
  intros Hn. unfold asked_parameters, HistoryParameters_read, number_field, given_field.
  destruct (query_category query), (query_routine query), (query_from query), (query_until query), page;
    simpl in *; unfold num; rewrite ?b_t, ?parse_print_i64 by done; reflexivity.
Qed.

Definition times_plain (query : HistoryQuery) : Prop :=
  ∀ time, query_from query = Some time ∨ query_until query = Some time → plain (timestamp time).

Lemma asked_parameters_plain query page :
  category_known query → times_plain query →
  Forall (λ parameter, plain parameter.1 ∧ plain parameter.2) (asked_parameters query page).
Proof.
  unfold category_known, times_plain, asked_parameters. intros Hc Ht.
  repeat apply Forall_app_2.
  - destruct (query_category query); [|constructor]. apply Forall_singleton. split; [by repeat constructor|].
    by apply categories_plain, Hc.
  - destruct (query_routine query); by repeat constructor.
  - destruct (query_from query); [|constructor]. apply Forall_singleton. split; [by repeat constructor|apply Ht; by left].
  - destruct (query_until query); [|constructor]. apply Forall_singleton. split; [by repeat constructor|apply Ht; by right].
  - destruct page; [constructor|..]; apply Forall_singleton; (split; [by repeat constructor|apply num_plain]).
Qed.

Lemma page_link_address query page :
  category_known query → times_plain query →
  address_path (page_link query page) = "/history" ∧
  address_query (page_link query page) = join "&" (map encoded (asked_parameters query page)).
Proof.
  intros Hc Ht. rewrite page_link_encoded by done.
  apply (address_of_query "/history" (join "&" (map encoded (asked_parameters query page)))); [by repeat constructor|].
  apply within_join; [by repeat constructor|]. apply List.Forall_map.
  eapply List.Forall_impl; [|by apply asked_parameters_plain]. intros ? []. by apply encoded_within.
Qed.

(** ** Following a link *)

Context (open : bool) (parse_local parse_exact : bytes → option SystemTime).
Context (headers : list (string * option string)).
(** The library that reads the parameters of an address. *)
Context (decode : string → Pairs).

Definition follow (link : string) : Request :=
  mkRequest Method_Get (address_path link) headers (decode (address_query link)) None.
Local Abbreviation routed := (routed open parse_local parse_exact).

Lemma page_link_followed query page :
  reads_parameters decode → category_known query → times_plain query → number_sent page →
  ∃ parameters,
    HistoryParameters_read (asked_parameters query page) = Some parameters ∧
    routed (follow (page_link query page))
    = answer (Dashboard.page (Body_History (history_query parse_local parse_exact parameters))).
Proof.
  intros Hd Hc Ht Hn. destruct (page_link_address query page Hc Ht) as [Hp Hq].
  eexists. split; [by apply asked_parameters_read|].
  unfold Dashboard.routed, follow, request_path. rewrite Hp, Hq, Hd by by apply asked_parameters_plain.
  change (history_page parse_local parse_exact
            (mkRequest Method_Get "/history" headers (asked_parameters query page) None) = answer
    (Dashboard.page (Body_History (history_query parse_local parse_exact
       (mkHistoryParameters (query_category query) (timestamp <$> query_from query)
          (timestamp <$> query_until query) None None
          (match page with Page_Before id => Some id | _ => None end)
          (match page with Page_After id => Some id | _ => None end)
          (if query_routine query then Some "on" else None)))))).
  unfold history_page. cbn [request_query]. by rewrite asked_parameters_read.
Qed.

Lemma find_category category :
  category ∈ CATEGORIES.*1 →
  List.find (λ value, bool_decide (Some category = Some value)) CATEGORIES.*1 = Some category.
Proof. unfold CATEGORIES. simpl. rewrite !elem_of_cons, elem_of_nil. naive_solver. Qed.

Lemma filter_time_exact time :
  plain (timestamp time) → timestamp time ≠ EmptyString →
  filter_time parse_local parse_exact (Some (timestamp time)) None = parse_exact (b (timestamp time)).
Proof.
  intros Hp Hn. unfold filter_time, present. simpl. rewrite trim_graphic.
  - destruct (b (timestamp time)) eqn:E; [|done]. destruct Hn.
    by rewrite <-(t_b (timestamp time)), E.
  - eapply List.Forall_impl; [|exact Hp]. each_byte.
Qed.

(** the links between the pages of the history keep what was asked for: following
    the link to the entries before or after one asks for that page with the same
    category, routine entries and times, whose offsets survive as the [+] they may have
    is encoded. *)
Theorem page_links_keep_the_filter query page :
  reads_parameters decode → category_known query → number_sent page →
  (∀ time, query_from query = Some time ∨ query_until query = Some time →
     plain (timestamp time) ∧ timestamp time ≠ EmptyString ∧
     parse_exact (b (timestamp time)) = Some time) →
  routed (follow (page_link query page)) = answer (Dashboard.page (Body_History (at_page query page))).
Proof.
  intros Hd Hc Hn Ht.
  destruct (page_link_followed query page) as (parameters & Hr & ->); [done..| |done|].
  { intros time Htime. by apply Ht. }
  rewrite asked_parameters_read in Hr by done. injection Hr as <-.
  do 3 f_equal. destruct query as [category routine from until page0]. unfold history_query, at_page.
  cbn -[CATEGORIES filter_time] in *. f_equal.
  - destruct category as [c|]; [by apply find_category, Hc|done].
  - by destruct routine.
  - destruct from as [time|]; [|done]. destruct (Ht time) as (? & ? & Hp); [by left|].
    rewrite <-Hp at 2. by apply filter_time_exact.
  - destruct until as [time|]; [|done]. destruct (Ht time) as (? & ? & Hp); [by right|].
    rewrite <-Hp at 2. by apply filter_time_exact.
  - by destruct page.
Qed.

(** ** Submitting a form *)

(** A field of a form: its name, and its value if that is hidden. *)
Definition field (name : string) (attributes : list (string * string)) : list (string * option string) :=
  if (String.eqb name "input" || String.eqb name "select") : bool then
    match attribute "name" attributes with
    | Some field =>
        [(field, if is_some_and (attribute "type" attributes) (String.eqb "hidden")
                 then Some (default EmptyString (attribute "value" attributes)) else None)]
    | None => []
    end
  else [].

(** A button that submits the form: the other path it may submit it to, and what it adds. *)
Definition button (name : string) (attributes : list (string * string)) : list (option string * Pairs) :=
  if String.eqb name "button" && is_some_and (attribute "type" attributes) (String.eqb "submit") then
    [(attribute "formaction" attributes,
      match attribute "name" attributes, attribute "value" attributes with
      | Some name, Some value => [(name, value)]
      | _, _ => []
      end)]
  else [].

(** The fields sent: each by its name, with its value if it is hidden and any otherwise. *)
Definition filled (fields : list (string * option string)) (pairs : Pairs) : Prop :=
  Forall2 (λ field pair, pair.1 = field.1 ∧ ∀ value, field.2 = Some value → pair.2 = value) fields pairs.

(** A page, a redirect to one, or the form again with what is wrong with it. *)
Definition understood (reply : Reply) : Prop :=
  match response_body (reply_response reply) with
  | Body_Settings _ => True
  | _ => response_status (reply_response reply) ∈ [200; 303; 503]
  end.

Definition submit (path : string) (pairs : Pairs) : Request :=
  mkRequest Method_Post path headers [] (Some pairs).

(** Where an element leads: a link to a page of the dashboard or to another site, a form
    to a handler that understands it whichever of its buttons is pressed, and a filter to
    a page. *)
Definition leads (link : string) : Prop :=
  is_some (strip_prefix (b "https://") (b link)) = true ∨
  response_status (reply_response (routed (follow link))) = 200.

Definition post_leads (action : string) (content : Markup) : Prop :=
  collect button content ≠ [] ∧
  ∀ pressed pairs, pressed ∈ collect button content → filled (collect field content) pairs →
    understood (routed (submit (default action pressed.1) (pairs ++ pressed.2))).

Definition get_leads (action : string) (content : Markup) : Prop :=
  ∀ pairs, NoDup pairs.*1 → pairs.*1 ⊆ (collect field content).*1 →
    response_status (reply_response (routed (mkRequest Method_Get action headers pairs None))) = 200.

Definition form_leads (attributes : list (string * string)) (content : Markup) : Prop :=
  match attribute "action" attributes, attribute "method" attributes with
  | Some action, Some "post" => post_leads action content
  | Some action, Some "get" => get_leads action content
  | _, _ => False
  end.

Definition link_leads (name : string) (attributes : list (string * string)) : Prop :=
  match attribute name attributes with Some link => leads link | None => True end.

Definition answered (name : string) (attributes : list (string * string)) (content : list Node) : Prop :=
  match name with
  | "a" | "link" => link_leads "href" attributes
  | "script" => link_leads "src" attributes
  | "form" => form_leads attributes content
  | _ => True
  end.
End links.

(** ** Every form and link is answered

    Walking the pages element by element: each form is one its handler understands, and each
    link leads to a page. *)

Create HintDb markup.
#[global] Hint Unfold tag_of panel_head panel dt dd p mono time full tone_tag note dd_mono span link th td
  td_mono torrent_table setting_form setting_head label_for hint row save_button other_button field_error
  data unreadable : markup.

Section forms.
Context `{!Rfc3339} (open : bool) (parse_local parse_exact : bytes → option SystemTime).
Context (headers : list (string * option string)) (decode : string → Pairs).
Local Abbreviation routed := (routed open parse_local parse_exact).
Local Abbreviation answered := (answered open parse_local parse_exact headers decode).
Local Abbreviation leads := (leads open parse_local parse_exact headers decode).
Local Abbreviation post_leads := (post_leads open parse_local parse_exact headers).
Local Abbreviation submit := (submit headers).

(** ** What the handlers answer *)

Lemma send_understood event path : understood (send open event (redirect path)).
Proof. unfold send. destruct open; unfold understood; simpl; set_solver. Qed.

Lemma with_form_understood {T} path pairs (read : Pairs → option T) handler form :
  read pairs = Some form → understood (handler form) →
  understood (with_form (submit path pairs) read handler).
Proof. intros Hr Hh. unfold with_form. simpl. by rewrite Hr. Qed.

Lemma post_routed path pairs handler :
  named (get_routes parse_local parse_exact) path = None → named (post_routes open) path = Some handler →
  routed (submit path pairs) = handler (submit path pairs).
Proof. unfold Dashboard.routed. simpl. by intros -> ->. Qed.

(** The forms the handlers take: their paths and the fields they may have. *)
Definition taken : list (string * (Pairs → Prop)) :=
  [("/mam/pause", λ pairs, pairs.*1 = ["next"]);
   ("/mam/resume", λ pairs, pairs.*1 = ["next"]);
   ("/settings/history-limit", λ pairs, pairs.*1 = ["limit"]);
   ("/settings/api-cookie", λ pairs, pairs.*1 = ["cookie"]);
   ("/settings/api-cookie/clear", λ _, True);
   ("/settings/ntfy-topic", λ pairs, pairs.*1 = ["topic"]);
   ("/settings/ntfy-topic/clear", λ _, True);
   ("/settings/points-reserve", λ pairs, pairs.*1 = ["reserve"]);
   ("/settings/torrent-limits", λ pairs, pairs.*1 = ["downloading"; "active"]);
   ("/notifications/test", λ _, True);
   ("/torrents/redownload", λ pairs, ∃ id, 1 ≤ id ≤ u64_max ∧ pairs = [("record", num id)]);
   ("/mam/purchase/checked", λ pairs, pairs = [("made", "yes")] ∨ pairs = [("made", "no")]);
   ("/mam/ratio/checked", λ _, True)].

Lemma rejected_understood form : understood (rejected form).
Proof. done. Qed.

Lemma fields_pairs names (pairs : Pairs) :
  pairs.*1 = names → ∃ values, pairs = zip names values ∧ length values = length names.
Proof.
  intros <-. exists (pairs.*2). rewrite !length_fmap. split; [|done].
  induction pairs as [|[] ? IH]; [done|]. simpl. f_equal. exact IH.
Qed.

(** Pairs with these names, as the list they are. *)
Ltac named_pairs :=
  match goal with
  | H : _.*1 = _ |- _ =>
      apply fields_pairs in H as (values & -> & ?); repeat (destruct values as [|? values]; try done)
  end.

Ltac chosen :=
  cbn beta iota;
  match goal with |- understood (match ?x with _ => _ end) => destruct x end;
  first [apply send_understood|exact I].

Lemma post_understood path fields pairs :
  (path, fields) ∈ taken → fields pairs → understood (routed (submit path pairs)).
Proof.
  unfold taken. intros Hin Hf. rewrite !elem_of_cons, elem_of_nil in Hin.
  repeat (destruct Hin as [[= -> ->]|Hin]); [..|done];
    (erewrite post_routed; [|reflexivity|reflexivity]); simpl in Hf; try named_pairs; try apply send_understood;
    try (eapply with_form_understood; [reflexivity|]).
  - chosen.
  - chosen.
  - chosen.
  - chosen.
  - chosen.
  - destruct Hf as (id & Hid & ->). eapply with_form_understood.
    { unfold required_field, given_field. simpl. unfold num, print_Z. rewrite b_t, (proj2 (Z.ltb_ge _ _)) by lia.
      apply parse_print_unsigned. lia. }
    unfold RecordId_new, non_zero. rewrite !(proj2 (Z.leb_le _ _)) by lia. apply send_understood.
  - destruct Hf as [-> | ->]; (eapply with_form_understood; [reflexivity|]); apply send_understood.
Qed.

(** ** Forms *)

Lemma post_form action content buttons fields :
  collect button content = buttons → collect field content = fields → buttons ≠ [] →
  Forall (λ pressed, ∀ pairs, filled fields pairs →
    ∃ P, (default action pressed.1, P) ∈ taken ∧ P (pairs ++ pressed.2)) buttons →
  post_leads action content.
Proof.
  intros <- <- Hne Hb. split; [done|]. intros pressed pairs Hpressed Hfilled.
  rewrite List.Forall_forall in Hb. apply list_elem_of_In in Hpressed.
  destruct (Hb _ Hpressed _ Hfilled) as (P & Hin & HP). by eapply post_understood.
Qed.

Lemma filled_names fields pairs : filled fields pairs → pairs.*1 = fields.*1.
Proof. unfold filled. induction 1 as [|? ? ? ? [? _] ? IH]; [done|]. simpl. by f_equal. Qed.

Lemma filled_hidden name value pairs :
  filled [(name, Some value)] pairs → pairs = [(name, value)].
Proof.
  unfold filled. intros Hf. inversion Hf as [|? [n v] ? ? [Hn Hv] Hr]; subst. inversion Hr; subst.
  simpl in *. by rewrite Hn, (Hv value eq_refl).
Qed.

Lemma filled_nil pairs : filled [] pairs → pairs = [].
Proof. unfold filled. intros Hf. by inversion Hf. Qed.

(** ** Walking a page *)

(** What elements give, from their names and attributes. *)
Ltac collected :=
  cbv [collect collect_node fold_right element text concat map each when with_some field button attribute attribute_of flag invalid List.find app default is_some_and
       String.eqb Ascii.eqb Bool.eqb fmap option_fmap option_map fst snd orb andb];
  reflexivity.

Lemma form_post attributes content action :
  attribute "action" attributes = Some action → attribute "method" attributes = Some "post" →
  post_leads action content → answered "form" attributes content.
Proof. intros Ha Hm Hp. change (form_leads open parse_local parse_exact headers attributes content).
  unfold form_leads. by rewrite Ha, Hm. Qed.

Lemma link_followed attributes content link :
  attribute "href" attributes = Some link → leads link → answered "a" attributes content.
Proof.
  intros Ha Hl. change (link_leads open parse_local parse_exact headers decode "href" attributes).
  unfold link_leads. by rewrite Ha.
Qed.

(** A form whose fields are known. *)
Ltac form_known :=
  eapply form_post; [reflexivity|reflexivity|]; eapply post_form; [collected|collected|done|];
  repeat (apply Forall_cons_2; [intros pairs Hpairs|]); [..|apply Forall_nil_2];
  cbn [fst snd default app]; eexists;
  (split; [unfold taken; repeat first [apply list_elem_of_here|apply list_elem_of_further]|]);
  cbn beta; rewrite ?app_nil_r.

(** One step into the markup. *)
Ltac walk :=
  repeat lazymatch goal with
  | |- everywhere _ [] => constructor
  | |- everywhere _ (_ ++ _) => apply everywhere_app
  | |- everywhere _ (text _) => apply everywhere_text
  | |- everywhere _ (element _ _ _) => apply everywhere_element; [try exact I|]
  | |- Forall _ [] => constructor
  | |- Forall _ (_ :: _) => constructor
  | |- Forall _ (_ ++ _) => apply Forall_app_2
  | |- everywhere _ (when _ _) => apply everywhere_when; intros ?
  | |- everywhere _ (with_some _ _) => apply everywhere_with_some; intros ? ?
  | |- everywhere _ (each _ _) => apply everywhere_each; intros ? ?
  | |- everywhere _ (if String.eqb ?x ?y then _ else _) => destruct (String.eqb_spec x y); try done
  | |- everywhere _ (match ?x with _ => _ end) => destruct x
  | |- everywhere _ _ => progress cbv beta zeta
  end.

Lemma header_answered observation location :
  everywhere answered (header_live observation location).
Proof.
  unfold header_live. cbv zeta. destruct (mam_requests (seen_state observation)); cbn [with_some]; walk.
  all: form_known; by apply filled_names in Hpairs.
Qed.

(** ** Links to the dashboard's own pages *)

Context (Hdecode : reads_parameters decode).

Lemma decode_nothing : decode EmptyString = [].
Proof. apply (Hdecode []). constructor. Qed.

Lemma page_leads link :
  In link ["/"; "/notifications"; "/history"; "/settings"; "/settings#notifications"; "/settings#api-cookie";
           "/static/app.css"; "/static/app.js"] → leads link.
Proof.
  intros Hin. right. simpl in Hin.
  destruct Hin as [<-|[<-|[<-|[<-|[<-|[<-|[<-|[<-|[]]]]]]]]]; try reflexivity.
  unfold follow. change (address_query "/history") with EmptyString. by rewrite decode_nothing.
Qed.

Ltac own_page := apply page_leads; simpl; tauto.
Ltac own_link := eapply link_followed; [reflexivity|own_page].

Lemma layout_answered location observation body :
  everywhere answered body → everywhere answered (layout location observation body).
Proof.
  intros Hbody. unfold layout, doctype. apply everywhere_app; [by repeat constructor|].
  walk; try apply header_answered; try done.
  - own_page.
  - own_page.
  - own_link.
  - eapply link_followed; [reflexivity|]. destruct x; own_page.
  - eapply link_followed; [reflexivity|]. destruct x; own_page.
Qed.

(** ** MAM's panels *)

Lemma outcome_answered o : everywhere answered (outcome o).
Proof.
  unfold outcome. walk. form_known.
  - apply filled_nil in Hpairs as ->. auto.
  - apply filled_nil in Hpairs as ->. auto.
Qed.

Lemma last_purchase_answered record : everywhere answered (last_purchase record).
Proof. unfold last_purchase. autounfold with markup. walk. apply outcome_answered. Qed.

Lemma Forall_imap {A B} (P : B → Prop) (f : nat → A → B) l :
  (∀ i x, P (f i x)) → Forall P (imap f l).
Proof. revert f. induction l as [|x l IH]; intros f Hf; simpl; constructor; [done|].
  apply IH. intros. apply Hf.
Qed.

Lemma mam_panels_answered mam settings now : everywhere answered (panels mam settings now).
Proof.
  unfold panels, access_panel, ratio_guard_panel, account_panel, account_details, client_list, repair,
    bookmarks_panel, watched_downloads.
  autounfold with markup. walk; try apply last_purchase_answered.
  - by form_known.
  - apply everywhere_concat, Forall_imap. intros i [download watch]. walk.
Qed.

(** ** The status page *)

Context (to_lowercase : string → string).

(** The numbers of the registry's rows are those of records. *)
Definition numbered (registry : Registry) : Prop :=
  ∀ records record, registry = Registry_Loaded records → record ∈ Registry.records records →
    1 ≤ record_id record ≤ u64_max.

Lemma sort_by_key_elem {A} (key : A → string) x l : x ∈ sort_by_key key l → x ∈ l.
Proof.
  assert (∀ y l, x ∈ insert_by_key key y l → x = y ∨ x ∈ l) as Hins.
  { intros y l'. induction l' as [|z l' IH]; simpl; [set_solver|]. case_match; set_solver. }
  induction l as [|y l IH]; simpl; [done|]. intros [-> |Hx]%Hins; [by left|right; auto].
Qed.

Lemma torrent_list_answered qbittorrent registry bookmarks :
  numbered registry → everywhere answered (torrent_list to_lowercase qbittorrent registry bookmarks).
Proof.
  intros Hn. unfold torrent_list.
  assert (∀ session, everywhere answered (session_table to_lowercase session)) as Hsession.
  { intros session. unfold session_table. autounfold with markup. walk. }
  destruct registry as [| | |records]; try apply Hsession; cbv zeta.
  - autounfold with markup. walk. apply Hsession.
  - unfold registry_table, registry_markup. autounfold with markup. walk. form_known.
    apply filled_hidden in Hpairs as ->. eexists. split; [|reflexivity].
    match goal with H : _ ∈ sort_by_key _ _ |- _ => apply sort_by_key_elem in H as
      (record & -> & Hin)%list_elem_of_fmap end.
    by eapply Hn.
Qed.

Lemma status_live_answered observation mam_now tunnel_now :
  numbered (seen_registry observation) →
  everywhere answered (status_live to_lowercase observation mam_now tunnel_now).
Proof.
  intros Hn. unfold status_live, notifications_panel, tunnel_panel, Pages.switch_allowance,
    port_forwarding_panel, qbittorrent_panel.
  autounfold with markup. walk; try apply mam_panels_answered; try by apply torrent_list_answered.
  - own_link.
  - own_link.
  - own_link.
Qed.

(** ** The other pages *)

(** Whichever parts a form has. *)
Ltac decided :=
  repeat match goal with
  | |- context [with_some ?o _] => destruct o; cbn [with_some]
  | |- context [when ?b _] => destruct b; cbn [when]
  end.

Lemma settings_answered observation deployment form :
  everywhere answered (Pages.settings observation deployment form).
Proof.
  unfold Pages.settings. cbv zeta. apply layout_answered.
  unfold cookie_form, topic_form, reserve_form, limits_form, limit_form, deployment_section.
  autounfold with markup. walk.
  all: decided; form_known; first [done|by apply filled_names in Hpairs].
Qed.

(** ** The history page *)

Lemma given_field_once pairs name : NoDup pairs.*1 → ∃ value, given_field pairs name = Some value.
Proof.
  intros Hn. unfold given_field.
  assert (∀ l, NoDup l.*1 → length (List.filter (λ p : string * string, String.eqb p.1 name) l) ≤ 1)%nat as Hl.
  { induction l as [|[x v] l IH]; simpl; [lia|]. intros Hd. inversion_clear Hd as [|? ? Hx Hl].
    destruct (String.eqb_spec x name) as [->|]; [|auto]. simpl.
    destruct (List.filter _ l) as [|[y w] l'] eqn:E; [simpl; lia|]. destruct Hx.
    assert (In (y, w) (List.filter (λ p, String.eqb p.1 name) l)) as Hin by (rewrite E; by left).
    apply filter_In in Hin as [Hin Hy]. simpl in Hy. apply String.eqb_eq in Hy as ->.
    apply list_elem_of_fmap. exists (name, w). split; [done|by apply list_elem_of_In]. }
  specialize (Hl pairs Hn). destruct (List.filter _ pairs) as [|p [|? ?]]; simpl in Hl; [eauto..|lia].
Qed.

Lemma given_field_absent pairs name : name ∉ pairs.*1 → given_field pairs name = Some None.
Proof.
  intros Hn. unfold given_field. replace (List.filter _ pairs) with ([] : Pairs); [done|].
  induction pairs as [|[x v] l IH]; [done|]. simpl in *. apply not_elem_of_cons in Hn as [Hx Hl].
  destruct (String.eqb_spec x name); [by subst|auto].
Qed.

Lemma filter_parameters_read pairs :
  NoDup pairs.*1 → pairs.*1 ⊆ ["kind"; "from_local"; "from"; "to_local"; "to"; "routine"] →
  is_some (HistoryParameters_read pairs) = true.
Proof.
  intros Hn Hs.
  assert (∀ name, name ∉ ["kind"; "from_local"; "from"; "to_local"; "to"; "routine"] →
    given_field pairs name = Some None) as Habsent.
  { intros name Hname. apply given_field_absent. auto. }
  unfold HistoryParameters_read, number_field. rewrite (Habsent "before"), (Habsent "after") by set_solver.
  repeat match goal with
  | |- context [given_field pairs ?name] =>
      let H := fresh in destruct (given_field_once pairs name Hn) as [? H]; rewrite H; clear H
  end. done.
Qed.

Lemma filter_form_answered query : everywhere answered (filter_form query).
Proof.
  unfold filter_form. autounfold with markup. walk; try own_link.
  unfold PageLinks.answered, form_leads. cbn [attribute]. intros pairs Hn Hs.
  assert (is_some (HistoryParameters_read pairs) = true) as Hr.
  { apply filter_parameters_read; [done|]. eapply transitivity; [exact Hs|]. decided; done. }
  change (response_status (reply_response (history_page parse_local parse_exact
    (mkRequest Method_Get "/history" headers pairs None))) = 200).
  unfold history_page. simpl. by destruct (HistoryParameters_read pairs).
Qed.

Context (Hplain : ∀ since text, rfc3339 since = Some text → plain text).

Lemma timestamp_plain time : plain (timestamp time).
Proof.
  unfold timestamp. destruct (wall_duration_since time 0) as [since|]; [|constructor]. simpl.
  destruct (rfc3339 since) eqn:E; [by eapply Hplain|constructor].
Qed.

Lemma page_link_leads query page :
  category_known query → number_sent page → leads (page_link query page).
Proof.
  intros Hc Hn. right.
  destruct (page_link_followed open parse_local parse_exact headers decode query page)
    as (? & _ & ->); [done..| |done|done].
  intros ? _. apply timestamp_plain.
Qed.

(** Pages whose entries have numbers of 64 bits. *)
Definition page_numbered (page : HistoryPage Value) : Prop :=
  ∀ row, row ∈ page_rows page → i64_min ≤ row_id row ≤ i64_max.

Lemma pager_answered query page :
  category_known query → page_numbered page → everywhere answered (pager query page).
Proof.
  intros Hc Hn. unfold pager.
  destruct (list.head (page_rows page)) as [first|] eqn:Efirst,
    (list.last (page_rows page)) as [last|] eqn:Elast; walk;
    (eapply link_followed; [reflexivity|]); apply page_link_leads; try done; apply Hn;
    first [by apply list.head_Some_elem_of|by apply list.last_Some_elem_of].
Qed.

Context (json_text : Value → string).

Lemma history_answered observation query result retained :
  category_known query → (∀ page, result = Ok page → page_numbered page) →
  everywhere answered (Pages.history json_text observation query result retained).
Proof.
  intros Hc Hn. unfold Pages.history. apply layout_answered. unfold history_entry.
  autounfold with markup. destruct result as [page|error]; walk;
    first [apply filter_form_answered|apply pager_answered; auto].
Qed.

(** ** The notifications page *)

Lemma notice_leads notice : leads (NoticeWords.message_page (NoticeWords.message notice)).
Proof.
  destruct notice; try (by right); try (by left); simpl;
    repeat match goal with |- context [match ?x with _ => _ end] => destruct x end;
    first [by left|by right|own_page].
Qed.

Lemma push_leads push : leads (NoticeWords.entry_page push).
Proof.
  right. unfold NoticeWords.entry_page. destruct (push_entry push) as [id|]; [|done].
  assert (link_path (say ["/notifications#notice-"; num id]) = "/notifications") as Hl.
  { unfold link_path, say. cbn [String.concat]. rewrite !b_app.
    change (b "/notifications#notice-") with (b "/notifications" ++ "#"%char :: b "notice-").
    rewrite <-app_assoc, <-app_comm_cons, split_app; [done|].
    apply (bool_decide_eq_false_1 _). reflexivity. }
  unfold follow, address_path. rewrite Hl. reflexivity.
Qed.

(** Notices that lead where Windlass's notices do. *)
Definition given (notice : Storage.StoredNotice) : Prop :=
  ∃ about, Storage.words_page (Storage.stored_words notice)
           = NoticeWords.message_page (NoticeWords.message about).

Lemma notifications_answered observation result :
  (∀ notices, result = Ok notices → Forall given notices) →
  everywhere answered (Pages.notifications observation result).
Proof.
  intros Hg. unfold Pages.notifications. apply layout_answered. unfold notice_item.
  autounfold with markup. destruct result as [notices|error]; walk;
    (eapply link_followed; [reflexivity|]);
    (match goal with H : _ ∈ _ |- _ => apply list_elem_of_In in H;
      destruct (proj1 (List.Forall_forall _ _) (Hg _ eq_refl) _ H) as [about ->] end);
    apply notice_leads.
Qed.

(** ** The page a request is answered with *)

Context (mam_now tunnel_now : SystemTime).
Context (read_page : HistoryQuery → Result (HistoryPage Value) string).
Context (read_notices : Z → Result (list Storage.StoredNotice) string).

Lemma history_query_category parameters :
  category_known (history_query parse_local parse_exact parameters).
Proof.
  intros category Hc. apply list_elem_of_In.
  unfold history_query in Hc. cbn [query_category] in Hc. by apply List.find_some in Hc as [? _].
Qed.

(** C22: every page leads where the dashboard answers: each of its links goes to one of
    the dashboard's own pages, which is there, or to MAM; each of its forms, whatever is
    put into its fields and whichever of its buttons is pressed, is one whose handler
    understands it and answers with a page or a redirect to one, or with the form again
    (never as an unknown address, method or field); the filter of the history asks for a
    page whichever of its fields are sent; and so does the link a push carries. *)
Theorem pages_lead_where_the_dashboard_answers deployment observation body :
  (∀ query, body = Body_History query →
     ∃ parameters, query = history_query parse_local parse_exact parameters) →
  numbered (seen_registry observation) →
  (∀ query page, read_page query = Ok page → page_numbered page) →
  (∀ limit notices, read_notices limit = Ok notices → Forall given notices) →
  everywhere answered
    (rendered json_text to_lowercase mam_now tunnel_now read_page read_notices
       deployment observation body) ∧
  ∀ push, leads (NoticeWords.entry_page push).
Proof.
  intros Hq Hn Hp Hg. split; [|apply push_leads].
  destruct body as [| | | | | |query|form|title words|location]; unfold rendered;
    [constructor|constructor|constructor|constructor|..].
  - unfold status. apply layout_answered. walk. by apply status_live_answered.
  - apply notifications_answered. intros notices. apply Hg.
  - destruct (Hq query eq_refl) as [parameters ->].
    apply history_answered; [apply history_query_category|apply Hp].
  - apply settings_answered.
  - unfold message. apply layout_answered. autounfold with markup. walk. own_link.
  - unfold live. apply everywhere_app; [apply header_answered|].
    apply everywhere_app; [by apply status_live_answered|]. unfold settings_live. walk.
Qed.
End forms.

(** ** A reading of parameters *)

Section decoder.
(** [%2B] is [+]; whatever else is escaped is left as it is. *)
Fixpoint unescape (l : bytes) : bytes :=
  match l with
  | [] => []
  | c :: l' =>
      match strip_prefix (b "%2B") l with
      | Some _ => match l' with _ :: _ :: l'' => "+"%char :: unescape l'' | _ => l end
      | None => c :: unescape l'
      end
  end.
Definition read_parameter (parameter : bytes) : string * string :=
  match Guard.split_once "="%char parameter with
  | Some (name, value) => (t name, t (unescape value))
  | None => (t parameter, EmptyString)
  end.
Definition sample_decode (query : string) : Pairs :=
  if String.eqb query EmptyString then [] else map read_parameter (split "&"%char (b query)).

Lemma plain_bytes : ∀ c, plain_byte c = true → c ≠ "%"%char ∧ c ≠ "&"%char ∧ c ≠ "="%char.
Proof. each_byte. Qed.

Lemma plain_free s c : plain s → (c = "&"%char ∨ c = "="%char) → c ∉ b s.
Proof.
  unfold plain. intros Hs Hc Hin. rewrite List.Forall_forall in Hs.
  apply list_elem_of_In, Hs, plain_bytes in Hin. naive_solver.
Qed.

Lemma plus_encoded_unescaped s : plain s → unescape (b (plus_encoded s)) = b s.
Proof.
  unfold plain, plus_encoded. rewrite b_t. induction 1 as [|c l Hc Hl IH]; [done|]. simpl.
  destruct (Ascii.eqb_spec c "+"%char) as [->|Hp].
  - simpl. f_equal. exact IH.
  - simpl. apply plain_bytes in Hc as (Hc & _).
    rewrite bool_decide_eq_false_2 by congruence. f_equal. exact IH.
Qed.

Lemma plus_encoded_free_of s c : plain s → (c = "&"%char ∨ c = "="%char) → c ∉ b (plus_encoded s).
Proof.
  intros Hs Hc. unfold plus_encoded. rewrite b_t. pose proof (plain_free s c Hs Hc) as Hfree.
  induction (b s) as [|d l IH]; simpl; [by intros Hin; inversion Hin|].
  rewrite not_elem_of_cons in Hfree. rewrite elem_of_app. intros [Hin|Hin]; [|by apply (IH (proj2 Hfree))].
  destruct (Ascii.eqb d "+"); [|by apply list_elem_of_singleton in Hin as ->; destruct Hfree].
  revert Hin. destruct Hc as [-> | ->]; apply (bool_decide_eq_false_1 _); reflexivity.
Qed.

Lemma encoded_parts name value : b (encoded (name, value)) = b name ++ "="%char :: b (plus_encoded value).
Proof. unfold encoded. rewrite say_three, !b_app. done. Qed.

Lemma read_encoded parameter :
  plain parameter.1 → plain parameter.2 → read_parameter (b (encoded parameter)) = parameter.
Proof.
  destruct parameter as [name value]. simpl. intros Hn Hv.
  unfold read_parameter, Guard.split_once. rewrite encoded_parts.
  rewrite (proj2 (find_byte_Some _ _ (length (b name)))).
  2: { exists (b name), (b (plus_encoded value)). split_and!; [done..|]. apply plain_free; auto. }
  cbn [mbind option_bind]. rewrite take_app_length.
  replace (skipn (S (length (b name))) _) with (b (plus_encoded value)).
  - by rewrite plus_encoded_unescaped, !t_b.
  - induction (b name); [done|exact IHl].
Qed.

Lemma split_joined (l : list string) :
  Forall (λ s, "&"%char ∉ b s) l → l ≠ [] → split "&"%char (b (join "&" l)) = map b l.
Proof.
  induction 1 as [|s l Hs Hl IH]; [done|]. intros _. unfold join in *. simpl.
  destruct l as [|s' l]; [by rewrite split_last|].
  rewrite !b_app. change (b "&") with ["&"%char]. simpl app. rewrite split_app by done.
  f_equal. by apply IH.
Qed.

Lemma sample_decode_reads : reads_parameters sample_decode.
Proof.
  intros parameters Hp. unfold sample_decode. destruct parameters as [|parameter parameters]; [done|].
  destruct (String.eqb_spec (join "&" (map encoded (parameter :: parameters))) EmptyString) as [E|_].
  { exfalso. destruct parameter as [name value]. apply (f_equal b) in E.
    assert (∃ rest, b (join "&" (map encoded ((name, value) :: parameters)))
                    = b name ++ "="%char :: rest) as [rest Hr].
    { unfold join. simpl. destruct (map encoded parameters); [rewrite encoded_parts; eauto|].
      rewrite b_app, encoded_parts, <-app_assoc. eauto. }
    rewrite Hr in E. by destruct (b name). }
  rewrite split_joined; [|apply List.Forall_map; eapply List.Forall_impl; [|exact Hp]|done].
  - rewrite map_map, map_map. erewrite map_ext_in; [apply map_id|]. intros x Hx.
    rewrite List.Forall_forall in Hp. destruct (Hp x Hx). by apply read_encoded.
  - intros [name value] [Hn Hv]. rewrite encoded_parts, elem_of_app, elem_of_cons.
    intros [Hin|[Hin|Hin]]; [|done|].
    + by apply (plain_free name "&"%char Hn (or_introl eq_refl)).
    + by apply (plus_encoded_free_of value "&"%char Hv (or_introl eq_refl)).
Qed.
End decoder.

(** ** Pages of a running Windlass *)

Definition sample_stamp : string := "2026-10-05T12:00:00+02:00".
Definition sample_stamps : Rfc3339 := λ _, Some sample_stamp.
Definition sample_exact (text : bytes) : option SystemTime := then_some (text ==? b sample_stamp) 0.
Definition sample_filter : HistoryQuery :=
  mkHistoryQuery (Some "mam") true (Some 0) None (Page_After 7).

Lemma page_links_keep_the_filter_witness :
  @page_link sample_stamps sample_filter (Page_Before 42)
  = "/history?kind=mam&routine=on&from=2026-10-05T12:00:00%2B02:00&before=42" ∧
  routed true (λ _, None) sample_exact
    (follow [] sample_decode (@page_link sample_stamps sample_filter (Page_Before 42)))
  = answer (Dashboard.page (Body_History (at_page sample_filter (Page_Before 42)))).
Proof.
  split; [vm_compute; reflexivity|].
  apply page_links_keep_the_filter.
  - exact sample_decode_reads.
  - intros category [= <-]. right. left.
  - vm_compute. split; discriminate.
  - intros time [[= <-]|H]; [|discriminate H]. split; [|split; [discriminate|vm_compute; reflexivity]].
    repeat constructor.
Defined.

(** A torrent snatched before, which the owner may download again. *)
Definition sample_snatched : TorrentRecord := {|
  record_id := 3; record_identity := Identity_Mam 9; record_origin := Origin_Bookmark;
  record_desired := Desired_Snatched; record_save_path := None;
  record_deletion := ContentDeletion_NotAllowed; record_observation := None |}.
Definition sample_observation : Observation :=
  let started := Observation_of Core.new None None in
  {| started with
     seen_state := State_Ready (mkMamPreferenceState (Some MamRequestMode_Paused)
       (MamPreferenceUpdate_Set MamRequestMode_Paused) MamRequestMode_Paused
       MamPreferencePersistence_Idle);
     seen_registry := Registry_Loaded (Records_new [sample_snatched]) |}.
Definition sample_page : Markup :=
  @rendered sample_stamps (λ _, EmptyString) id 0 0 (λ _, Err "unread") (λ _, Err "unread")
    sample_deployment sample_observation Body_Status.

Lemma pages_lead_where_the_dashboard_answers_witness :
  collect (λ name attributes, if String.eqb name "form" then [attribute "action" attributes] else [])
    sample_page = [Some "/mam/resume"; Some "/torrents/redownload"] ∧
  everywhere (answered true (λ _, None) sample_exact [] sample_decode) sample_page.
Proof.
  split; [vm_compute; reflexivity|].
  apply (@pages_lead_where_the_dashboard_answers sample_stamps true (λ _, None) sample_exact []
           sample_decode sample_decode_reads).
  - intros since text [= <-]. repeat constructor.
  - discriminate.
  - intros records record [= <-] Hr. apply list_elem_of_In in Hr. vm_compute in Hr.
    destruct Hr as [<-|[]]. vm_compute. split; discriminate.
  - discriminate.
  - discriminate.
Defined.
