(* ===== verification/PocMachine.v ===== *)
(** * The archived prototype: what its cores share

    The values the prototype's cores share ([POC/windlass-types/src/lib.rs]): the cores, the
    states of torrents, MAM ids read from a torrent's comment, and the types that keep
    secrets out of what is written; and what a core is
    ([POC/windlass-machine/src/machine.rs]): events with the time and the cause they came
    from, what a machine answers one with, and runs of it. *)

From S2P Require Import Prelude Bytes Text.
From S2P Require Import Values.
From S2P Require Import Json.

Local Open Scope string_scope.
Local Open Scope Z_scope.
Local Open Scope list_scope.

(** ** Cores *)

Inductive CoreId :=
  | CoreId_Vpn
  | CoreId_Qbit
  | CoreId_Mam
  | CoreId_Db
  | CoreId_Disk
  | CoreId_Docker
  | CoreId_Domain
  | CoreId_Tunnel.
#[global] Instance CoreId_eq_dec : EqDecision CoreId.
Proof. solve_decision. Defined.

Definition CoreId_all : list CoreId :=
  [CoreId_Vpn; CoreId_Qbit; CoreId_Mam; CoreId_Db; CoreId_Disk; CoreId_Docker; CoreId_Domain;
   CoreId_Tunnel].
Definition CoreId_fmt (self : CoreId) : string :=
  match self with
  | CoreId_Vpn => "vpn"
  | CoreId_Qbit => "qbit"
  | CoreId_Mam => "mam"
  | CoreId_Db => "db"
  | CoreId_Disk => "disk"
  | CoreId_Docker => "docker"
  | CoreId_Domain => "domain"
  | CoreId_Tunnel => "tunnel"
  end.

(** ** HTTP observations *)

Record HttpRequestView := mkHttpRequestView {
  view_method : string;
  view_url : string;
  view_body : option Value;
}.

Inductive HttpAnomaly :=
  | HttpAnomaly_RateLimitViolation (reason : string).

Record HttpExchange := mkHttpExchange {
  exchange_module : string;
  exchange_method : string;
  exchange_url : string;
  exchange_request_headers : list (string * string);
  exchange_request_body : option string;
  exchange_response_status : Z;
  exchange_response_headers : list (string * string);
  exchange_response_body : string;
}.

(** ** Addresses and ports *)

(** An IPv4 address: MAM knows no others. *)
Abbreviation VpnIp := Z (only parsing).
Definition VpnIp_from_ip (ip : IpAddr) : option VpnIp :=
  match ip with IpAddr_V4 v4 => Some v4 | IpAddr_V6 _ => None end.

Abbreviation VpnPort := Z (only parsing).
Definition VpnPort_try_new (port : Z) : option VpnPort := then_some ((0 <? port) && (port <=? 65535)) port.

(** ** Secrets *)

(** The cookie of a qBittorrent session: what is written of it is never the cookie. *)
Record AuthCookie := mkAuthCookie { auth_secret : string }.
#[global] Instance AuthCookie_eq_dec : EqDecision AuthCookie.
Proof. solve_decision. Defined.
Definition AuthCookie_serialize (_ : AuthCookie) : Value := Value_String "[redacted]".
Definition AuthCookie_deserialize (value : Value) : Result AuthCookie string :=
  match value with
  | Value_String value =>
      if (value ==? "[redacted]") || (value ==? EmptyString)
      then Err "redacted or empty auth cookie is not usable"
      else Ok (mkAuthCookie value)
  | _ => Err "invalid type"
  end.

(** ** Retries *)

Abbreviation RetryCount := Z (only parsing).
Definition RetryCount_increment (self : RetryCount) : RetryCount := saturating_add u8_max self 1.
Definition Backoff_exponential (self : Duration) (attempt : RetryCount) : Duration :=
  duration_saturating_mul self (Z.min (2 ^ attempt) u32_max).

Inductive AlertPriority :=
  | AlertPriority_Info
  | AlertPriority_Warning
  | AlertPriority_Critical.
#[global] Instance AlertPriority_eq_dec : EqDecision AlertPriority.
Proof. solve_decision. Defined.

Inductive WakeupId :=
  | WakeupId_Heartbeat
  | WakeupId_DiskCheck
  | WakeupId_TorrentCheck
  | WakeupId_QbitAuthRetry
  | WakeupId_QbitSyncRetry
  | WakeupId_RetryPortRead
  | WakeupId_CompliancePoll
  | WakeupId_DomainSnapshot.

(** ** Torrents *)

Abbreviation TorrentHash := string (only parsing).
Abbreviation TorrentName := string (only parsing).

Inductive TorrentState :=
  | TorrentState_Downloading
  | TorrentState_StalledDownloading
  | TorrentState_Uploading
  | TorrentState_StalledUploading
  | TorrentState_ForcedUpload
  | TorrentState_PausedDownloading
  | TorrentState_PausedUploading
  | TorrentState_Error
  | TorrentState_Other (text : string).
#[global] Instance TorrentState_eq_dec : EqDecision TorrentState.
Proof. solve_decision. Defined.

(** Whether qBittorrent counts the torrent against its limit of active torrents. *)
Definition is_active (self : TorrentState) : bool :=
  match self with
  | TorrentState_Downloading | TorrentState_Uploading | TorrentState_ForcedUpload
  | TorrentState_StalledDownloading | TorrentState_StalledUploading => true
  | _ => false
  end.

Abbreviation MamTorrentId := Z (only parsing).
Definition MamTorrentId_try_new (id : Z) : option MamTorrentId := then_some (0 <? id) id.

(** [str::trim_start_matches] of a text. *)
Fixpoint trim_start_text (fuel : nat) (w l : bytes) : bytes :=
  match fuel with
  | O => l
  | S fuel => match strip_prefix w l with Some rest => trim_start_text fuel w rest | None => l end
  end.
Definition without_start (w : string) (l : bytes) : bytes := trim_start_text (length l) (b w) l.

Definition MamTorrentId_from_url_or_id (text : string) : option MamTorrentId :=
  let s := trim (b text) in
  match parse_unsigned u64_max s with
  | Some id => MamTorrentId_try_new id
  | None =>
      let path := without_start "www.myanonamouse.net" (without_start "http://" (without_start "https://" s)) in
      rest ← match strip_prefix (b "/t/") path with
             | Some rest => Some rest
             | None => strip_prefix (b "/tor/") path
             end;
      part ← list.head (split "/" rest);
      id ← parse_unsigned u64_max part;
      MamTorrentId_try_new id
  end.

Record TorrentRecord := mkTorrentRecord {
  record_hash : TorrentHash;
  record_downloaded_bytes : Z;
  record_seed_time : Duration;
  record_state : TorrentState;
  record_mam_id : option MamTorrentId;
  record_name : TorrentName;
  record_seen_at : SystemTime;
}.

Inductive MamStatus :=
  | MamStatus_Connectable
  | MamStatus_NotConnectable
  | MamStatus_Unreachable.
#[global] Instance MamStatus_eq_dec : EqDecision MamStatus.
Proof. solve_decision. Defined.

Example ids_read :
  map MamTorrentId_from_url_or_id
    ["12345"; " https://www.myanonamouse.net/t/12345 "; "https://www.myanonamouse.net/tor/9/x"; "0";
     "/t/7"; "https://other.example/t/7"; "18446744073709551616"]
  = [Some 12345; Some 12345; Some 9; None; Some 7; None; None].
Proof. vm_compute. reflexivity. Qed.

(** [Uuid]: 128 bits. *)
Abbreviation Uuid := Z (only parsing).

(** ** Causes *)

Inductive ExternalCause :=
  | ExternalCause_Timer (name : string)
  | ExternalCause_FileWatcher (path : string)
  | ExternalCause_DockerEvent (kind : string)
  | ExternalCause_ManualCommand
  | ExternalCause_Init
  | ExternalCause_Unknown.

Inductive EventCause :=
  | EventCause_Action (id : Uuid)
  | EventCause_Publish (id : Uuid)
  | EventCause_External (cause : ExternalCause).

Record Timed (E : Type) := mkTimed {
  timed_at : Instant;
  timed_cause : EventCause;
  timed_inner : E;
}.
Arguments mkTimed {E}. Arguments timed_at {E}. Arguments timed_cause {E}. Arguments timed_inner {E}.

Definition from_action {E} (at_ : Instant) (action_id : Uuid) (inner : E) : Timed E :=
  mkTimed at_ (EventCause_Action action_id) inner.
Definition from_publish {E} (at_ : Instant) (publish_id : Uuid) (inner : E) : Timed E :=
  mkTimed at_ (EventCause_Publish publish_id) inner.
Definition external {E} (at_ : Instant) (cause : ExternalCause) (inner : E) : Timed E :=
  mkTimed at_ (EventCause_External cause) inner.
(** The completion of work: [current] is the action the task works for, if any. *)
Definition from_dispatch {E} (current : option Uuid) (at_ : Instant) (inner : E) : Timed E :=
  match current with
  | Some id => from_action at_ id inner
  | None => external at_ ExternalCause_Unknown inner
  end.

(** ** Answers *)

Record Outcome (A P : Type) := mkOutcome {
  actions : list A;
  publishes : list P;
}.
Arguments mkOutcome {A P}. Arguments actions {A P}. Arguments publishes {A P}.
Definition Outcome_none {A P} : Outcome A P := mkOutcome [] [].

Record CommandOutcome (A P R : Type) := mkCommandOutcome {
  command_actions : list A;
  command_publishes : list P;
  command_response : R;
}.
Arguments mkCommandOutcome {A P R}. Arguments command_actions {A P R}.
Arguments command_publishes {A P R}. Arguments command_response {A P R}.

Definition outcome {A P R} (actions : list A) (response : R) : CommandOutcome A P R :=
  mkCommandOutcome actions [] response.
Definition outcome_with_publish {A P R} (actions : list A) (publishes : list P) (response : R)
    : CommandOutcome A P R :=
  mkCommandOutcome actions publishes response.

(** The name of an enum's variant in its JSON. *)
Definition variant_name (v : Value) : string :=
  match v with
  | Value_String s => s
  | Value_Object m => match m with (key, _) :: _ => key | [] => "?" end
  | _ => "?"
  end.

(** A state machine without side effects: the shell carries its actions out and reports
    what came of them as events. *)
Class Machine (M Config Event Action Publish Command Response : Type) := {
  new : Config → Instant → M;
  handle : M → Instant → SystemTime → Timed Event → M * Outcome Action Publish;
  handle_command : M → Instant → SystemTime → Command → M * CommandOutcome Action Publish Response;
}.

(** ** Runs *)

Section runs.
Context {M Config Event Action Publish Command Response : Type}
        `{!Machine M Config Event Action Publish Command Response}.

(** What reaches a machine: an event or a command, and the clock when it does. *)
Inductive Input :=
  | Input_Event (now : Instant) (wall_now : SystemTime) (event : Timed Event)
  | Input_Command (now : Instant) (wall_now : SystemTime) (command : Command).

Definition step (self : M) (input : Input) : M * Outcome Action Publish :=
  match input with
  | Input_Event now wall_now event => handle self now wall_now event
  | Input_Command now wall_now command =>
      let '(self, result) := handle_command self now wall_now command in
      (self, mkOutcome (command_actions result) (command_publishes result))
  end.

(** The states a machine goes through and what it answers. *)
Fixpoint run (self : M) (inputs : list Input) : M * list (Outcome Action Publish) :=
  match inputs with
  | [] => (self, [])
  | input :: inputs =>
      let '(self, result) := step self input in
      let '(self, results) := run self inputs in (self, result :: results)
  end.

Lemma run_app self inputs inputs' :
  run self (inputs ++ inputs')
  = let '(self, results) := run self inputs in
    let '(self, results') := run self inputs' in (self, results ++ results').
Proof.
  revert self. induction inputs as [|input inputs IH]; intros self; simpl.
  - by destruct (run self inputs').
  - destruct (step self input) as [self' result]. rewrite IH.
    destruct (run self' inputs). by destruct (run m inputs').
Qed.

Lemma runs_snoc self inputs input :
  (run self (inputs ++ [input])).1 = (step (run self inputs).1 input).1.
Proof.
  rewrite run_app. destruct (run self inputs) as [self' results]. simpl.
  by destruct (step self' input).
Qed.

Lemma run_cons self input inputs :
  run self (input :: inputs)
  = ((run (step self input).1 inputs).1, (step self input).2 :: (run (step self input).1 inputs).2).
Proof. simpl. destruct (step self input) as [self' result]. simpl. by destruct (run self' inputs). Qed.

(** The answer at a place is that of the step taken there. *)
Lemma run_answer self inputs (i : nat) answer :
  (run self inputs).2 !! i = Some answer →
  ∃ input, inputs !! i = Some input ∧
    step (run self (take i inputs)).1 input = ((run self (take (S i) inputs)).1, answer).
Proof.
  revert self i. induction inputs as [|input inputs IH]; intros self i; [done|].
  rewrite run_cons. destruct i as [|i]; cbn [take].
  - intros [= <-]. exists input. split; [done|]. rewrite run_cons, take_0. exact (surjective_pairing (step self input)).
  - intros Hi. destruct (IH _ i Hi) as (input' & ? & Heq). exists input'. split; [done|].
    by rewrite !run_cons.
Qed.

Context (I : M → Prop).

(** What every step keeps holds after every run. *)
Lemma run_invariant self inputs :
  I self → (∀ self input, I self → I (step self input).1) → I (run self inputs).1.
Proof.
  intros HI Hstep. revert self HI. induction inputs as [|input inputs IH]; intros self HI; simpl; [done|].
  pose proof (Hstep self input HI) as HI'. destruct (step self input) as [self' result].
  specialize (IH self' HI'). by destruct (run self' inputs).
Qed.

(** What every step's answer satisfies, every answer of a run satisfies. *)
Lemma run_answers (A : Outcome Action Publish → Prop) self inputs :
  I self → (∀ self input, I self → I (step self input).1 ∧ A (step self input).2) →
  Forall A (run self inputs).2.
Proof.
  intros HI Hstep. revert self HI. induction inputs as [|input inputs IH]; intros self HI; simpl; [constructor|].
  destruct (Hstep self input HI) as [HI' HA]. destruct (step self input) as [self' result].
  specialize (IH self' HI'). destruct (run self' inputs). by constructor.
Qed.
End runs.
Arguments Input : clear implicits.

(** Every element of a list that is written out. *)
Ltac each := repeat apply Forall_cons_2; first [apply Forall_nil_2|done].
