(* ===== verification/PocConfig.v ===== *)
(** * The archived prototype: what the tunnel reads and writes

    The parser of a [wg.conf] ([POC/windlass-tunnel-core/src/config.rs]): sections, keys and
    values, the checks of each, and the message of every refusal; and, in Module [PortMapping],
    the codec of NAT-PMP packets ([POC/windlass-tunnel-core/src/natpmp.rs]): the request of a
    port mapping, and what a gateway's answer says of it. *)

From S2P Require Import Prelude Bytes Text.
From S2P Require Import Values.
From S2P Require Import Address.
From S2P Require Import Describe.

Local Open Scope string_scope.
Local Open Scope Z_scope.
Local Open Scope list_scope.

(** ** Data *)

Record InterfaceAddress := mkInterfaceAddress {
  address_ip : IpAddr;
  address_prefix_len : Z;
}.

Record AllowedIp := mkAllowedIp {
  allowed_ip : IpAddr;
  allowed_prefix_len : Z;
}.

Record InterfaceConfig := mkInterfaceConfig {
  private_key : string;
  addresses : list InterfaceAddress;
  dns_servers : list IpAddr;
  mtu : option Z;
  listen_port : option Z;
}.

Inductive Endpoint :=
  | Endpoint_Ip (ip : IpAddr) (port : Z)
  | Endpoint_Hostname (host : string) (port : Z).

Record PeerConfig := mkPeerConfig {
  public_key : string;
  preshared_key : option string;
  allowed_ips : list AllowedIp;
  endpoint : Endpoint;
  persistent_keepalive : option Z;
}.

Record WgConfig := mkWgConfig {
  interface : InterfaceConfig;
  peers : list PeerConfig;
}.

Inductive EndpointResolutionPolicy :=
  | RequireIpLiteral
  | AllowHostnamePreTunnelDns.

Inductive WgConfigError :=
  | WgConfigError_Empty
  | WgConfigError_UnknownSection (name : string)
  | WgConfigError_Malformed (line : Z) (raw : string)
  | WgConfigError_KeyOutsideSection (line : Z) (key : string)
  | WgConfigError_UnknownKey (line : Z) (section key : string)
  | WgConfigError_InvalidValue (line : Z) (key reason : string)
  | WgConfigError_MissingInterfaceKey (key : string)
  | WgConfigError_MissingPeerKey (peer_index : Z) (key : string)
  | WgConfigError_NoPeers
  | WgConfigError_HostnameEndpointForbidden (host : string)
  | WgConfigError_InvalidPrivateKey (reason : string)
  | WgConfigError_InvalidPublicKey (peer_index : Z) (reason : string)
  | WgConfigError_InvalidPresharedKey (peer_index : Z) (reason : string)
  | WgConfigError_UnsupportedDirective (line : Z) (section key reason : string).

(** What the operator's log says. *)
Definition WgConfigError_fmt (self : WgConfigError) : string :=
  match self with
  | WgConfigError_Empty => "config is empty"
  | WgConfigError_UnknownSection name =>
      say ["unknown section header `["; name; "]` (expected `Interface` or `Peer`)"]
  | WgConfigError_Malformed line raw =>
      say ["line "; num line; ": expected `key = value` but got `"; raw; "`"]
  | WgConfigError_KeyOutsideSection line key =>
      say ["line "; num line; ": key `"; key; "` outside any section"]
  | WgConfigError_UnknownKey line section key =>
      say ["line "; num line; ": unknown key `"; key; "` in ["; section; "]"]
  | WgConfigError_InvalidValue line key reason =>
      say ["line "; num line; ": invalid value for `"; key; "`: "; reason]
  | WgConfigError_MissingInterfaceKey key =>
      say ["[Interface] is missing required key `"; key; "`"]
  | WgConfigError_MissingPeerKey peer_index key =>
      say ["[Peer] (section "; num peer_index; ") is missing required key `"; key; "`"]
  | WgConfigError_NoPeers => "config has no [Peer] sections"
  | WgConfigError_HostnameEndpointForbidden host =>
      say ["endpoint `"; host; "` is a hostname but the deployment requires an IP literal"]
  | WgConfigError_InvalidPrivateKey reason =>
      say ["private key is not valid base64 of a 32-byte key: "; reason]
  | WgConfigError_InvalidPublicKey peer_index reason =>
      say ["public key for peer "; num peer_index; " is not valid base64 of a 32-byte key: "; reason]
  | WgConfigError_InvalidPresharedKey peer_index reason =>
      say ["preshared key for peer "; num peer_index; " is not valid base64 of a 32-byte key: "; reason]
  | WgConfigError_UnsupportedDirective line section key reason =>
      say ["line "; num line; ": directive `"; key; "` in ["; section; "] is not supported: "; reason]
  end.

(** ** Results *)

Definition bind_result {T U E} (r : Result T E) (f : T → Result U E) : Result U E :=
  match r with Ok x => f x | Err e => Err e end.
Definition map_err {T E F} (f : E → F) (r : Result T E) : Result T F :=
  match r with Ok x => Ok x | Err e => Err (f e) end.
Definition ok_or {T E} (o : option T) (e : E) : Result T E :=
  match o with Some x => Ok x | None => Err e end.
Fixpoint collect_results {A T E} (f : A → Result T E) (l : list A) : Result (list T) E :=
  match l with
  | [] => Ok []
  | x :: l => bind_result (f x) (λ y, bind_result (collect_results f l) (λ ys, Ok (y :: ys)))
  end.
Fixpoint fold_results {A S E} (f : S → A → Result S E) (s : S) (l : list A) : Result S E :=
  match l with
  | [] => Ok s
  | x :: l => bind_result (f s x) (λ s, fold_results f s l)
  end.

(** ** Text *)

(** [str::split_once] and [str::rsplit_once]. *)
Definition split_once (w l : bytes) : option (bytes * bytes) :=
  i ← find_text w l; Some (take i l, drop (i + length w) l).
Definition rsplit_once (c : ascii) (l : bytes) : option (bytes * bytes) :=
  i ← find_byte c (rev l); Some (rev (drop (S i) (rev l)), rev (take i (rev l))).
(** [str::strip_suffix] of a character. *)
Definition strip_suffix (c : ascii) (l : bytes) : option bytes :=
  match rev l with d :: r => then_some (d ==? c) (rev r) | [] => None end.

(** [str::lines]: the lines of a text, without their ends. *)
Definition end_stripped (line : bytes) : bytes := default line (strip_suffix "013" line).
Definition text_lines (content : bytes) : list bytes :=
  let parts := split "010" content in
  let ended := removelast parts in
  let rest := List.last parts [] in
  map end_stripped ended ++ if is_empty rest then [] else [rest].

(** [str::parse] of an unsigned number, with the message of [ParseIntError]. *)
Fixpoint accumulate_digits (max acc : Z) (l : bytes) : Result Z string :=
  match l with
  | [] => Ok acc
  | c :: l =>
      match to_digit c with
      | None => Err "invalid digit found in string"
      | Some d =>
          if max <? acc * 10 + d then Err "number too large to fit in target type"
          else accumulate_digits max (acc * 10 + d) l
      end
  end.
Definition parse_int (max : Z) (l : bytes) : Result Z string :=
  match l with
  | [] => Err "cannot parse integer from empty string"
  | ["+"%char] | ["-"%char] => Err "invalid digit found in string"
  | c :: rest => accumulate_digits max 0 (if c ==? "+"%char then rest else l)
  end.

(** [IpAddr::from_str], [Ipv4Addr::from_str] and [Ipv6Addr::from_str] with the message of
    [AddrParseError]. *)
Definition parse_ip_text (l : bytes) : Result IpAddr string :=
  ok_or (parse_ip l) "invalid IP address syntax".
Definition parse_ipv4_text (l : bytes) : option Z := whole read_ipv4_addr l.
Definition parse_ipv6_text (l : bytes) : Result Z string :=
  ok_or (whole read_ipv6_addr l) "invalid IPv6 address syntax".

(** ** Pieces of the file *)

Definition strip_comment (line : bytes) : bytes := default line (head (split "#" line)).

Definition parse_section_header (line : bytes) : option bytes :=
  stripped ← strip_prefix (b "[") (trim line);
  stripped ← strip_suffix "]" stripped;
  let name := trim stripped in
  if is_empty name then None else Some name.

Definition split_key_value (line : bytes) : option (bytes * bytes) :=
  '(key, value) ← split_once (b "=") line;
  let key := trim key in
  let value := trim value in
  if is_empty key then None else Some (key, value).

Record ParsedCidr := mkParsedCidr {
  cidr_ip : IpAddr;
  cidr_prefix_len : Z;
}.

Definition max_prefix (ip : IpAddr) : Z :=
  match ip with IpAddr_V4 _ => 32 | IpAddr_V6 _ => 128 end.

Definition parse_cidr (raw : bytes) : Result ParsedCidr string :=
  match split_once (b "/") raw with
  | Some (ip_part, prefix_part) =>
      bind_result (parse_ip_text ip_part) (λ ip,
      bind_result (parse_int u8_max prefix_part) (λ prefix_len,
      if max_prefix ip <? prefix_len
      then Err (say ["prefix "; num prefix_len; " exceeds max for IP version"])
      else Ok (mkParsedCidr ip prefix_len)))
  | None => bind_result (parse_ip_text raw) (λ ip, Ok (mkParsedCidr ip (max_prefix ip)))
  end.

Definition parse_endpoint (raw : bytes) (policy : EndpointResolutionPolicy) : Result Endpoint string :=
  match strip_prefix (b "[") raw with
  | Some rest =>
      bind_result (ok_or (split_once (b "]:") rest) "expected `[ipv6]:port`") (λ '(addr, port),
      bind_result (parse_ipv6_text addr) (λ ip,
      bind_result (parse_int u16_max port) (λ port,
      Ok (Endpoint_Ip (IpAddr_V6 ip) port))))
  | None =>
      bind_result (ok_or (rsplit_once ":" raw) "expected `host:port`") (λ '(host, port),
      bind_result (parse_int u16_max port) (λ port,
      match parse_ipv4_text host with
      | Some ip => Ok (Endpoint_Ip (IpAddr_V4 ip) port)
      | None =>
          match parse_ipv6_text host with
          | Ok ip => Ok (Endpoint_Ip (IpAddr_V6 ip) port)
          | Err _ =>
              match policy with
              | RequireIpLiteral =>
                  Err (say ["endpoint `"; t host; "` is a hostname; policy requires IP literal"])
              | AllowHostnamePreTunnelDns => Ok (Endpoint_Hostname (t host) port)
              end
          end
      end))
  end.

(** ** Keys *)

(** The value of a base64 character; [=] counts as zero. *)
Definition table (c : ascii) : Z :=
  if between 65 90 c then u8 c - 65
  else if between 97 122 c then u8 c - 71
  else if between 48 57 c then u8 c + 4
  else if c ==? "+"%char then 62
  else if c ==? "/"%char then 63
  else if c ==? "="%char then 0
  else 255.

Fixpoint decode_chunks (l : bytes) : Result bytes string :=
  match l with
  | c0 :: c1 :: c2 :: c3 :: rest =>
      let v0 := table c0 in let v1 := table c1 in let v2 := table c2 in let v3 := table c3 in
      if (63 <? v0) || (63 <? v1) || (64 <? v2) || (64 <? v3) then Err "invalid base64 character"
      else
        let combined := Z.lor (Z.lor (Z.lor (Z.shiftl v0 18) (Z.shiftl v1 12)) (Z.shiftl v2 6)) v3 in
        bind_result (decode_chunks rest) (λ out,
        Ok (byte (Z.shiftr combined 16)
            :: (if c2 ==? "="%char then [] else [byte (Z.shiftr combined 8)])
            ++ (if c3 ==? "="%char then [] else [byte combined])
            ++ out))
  | _ => Ok []
  end.

Definition is_base64 (c : ascii) : bool :=
  is_ascii_alphanumeric c || (c ==? "+"%char) || (c ==? "/"%char) || (c ==? "="%char).
Definition decode_base64_44 (input : bytes) : Result bytes string :=
  if forallb is_base64 input then decode_chunks input else Err "contains non-base64 character".

Definition validate_base64_key (input : bytes) : Result () string :=
  let trimmed := trim input in
  if negb (length trimmed =? 44)%nat then
    Err (say ["expected 44 base64 characters, got "; num (Z.of_nat (length trimmed))])
  else if negb (is_some (strip_suffix "=" trimmed)) then Err "expected base64 `=` padding"
  else
    bind_result (decode_base64_44 trimmed) (λ bytes,
    if negb (length bytes =? 32)%nat then
      Err (say ["decoded length is "; num (Z.of_nat (length bytes)); " bytes, expected 32"])
    else Ok ()).

(** ** Sections *)

Inductive Section_ :=
  | Section_Interface
  | Section_Peer.

Record InterfaceBuilder := mkInterfaceBuilder {
  ib_private_key : option string;
  ib_addresses : list InterfaceAddress;
  ib_dns_servers : list IpAddr;
  ib_mtu : option Z;
  ib_listen_port : option Z;
}.
Definition InterfaceBuilder_default : InterfaceBuilder := mkInterfaceBuilder None [] [] None None.

Record PeerBuilder := mkPeerBuilder {
  pb_public_key : option string;
  pb_preshared_key : option string;
  pb_allowed_ips : list AllowedIp;
  pb_endpoint : option Endpoint;
  pb_persistent_keepalive : option Z;
}.
Definition PeerBuilder_default : PeerBuilder := mkPeerBuilder None None [] None None.

(** The pieces of a value separated by commas, blank ones left out. *)
Definition pieces (value : bytes) : list bytes :=
  filter (λ piece, piece ≠ []) (map trim (split "," value)).

Definition refused_directives : list string :=
  ["PreUp"; "PostUp"; "PreDown"; "PostDown"; "FwMark"; "SaveConfig"].

Definition InterfaceBuilder_set (self : InterfaceBuilder) (key value : bytes) (line : Z)
    : Result InterfaceBuilder WgConfigError :=
  let invalid := WgConfigError_InvalidValue line in
  let key := t key in
  if key ==? "PrivateKey" then Ok {| self with ib_private_key := Some (t value) |}
  else if key ==? "Address" then
    fold_results (λ self piece,
      bind_result (map_err (invalid "Address") (parse_cidr piece)) (λ addr,
      Ok {| self with ib_addresses :=
              ib_addresses self ++ [mkInterfaceAddress (cidr_ip addr) (cidr_prefix_len addr)] |}))
      self (pieces value)
  else if key ==? "DNS" then
    fold_results (λ self piece,
      bind_result (map_err (invalid "DNS") (parse_ip_text piece)) (λ ip,
      Ok {| self with ib_dns_servers := ib_dns_servers self ++ [ip] |}))
      self (pieces value)
  else if key ==? "MTU" then
    bind_result (map_err (invalid "MTU") (parse_int u16_max value)) (λ n,
    Ok {| self with ib_mtu := Some n |})
  else if key ==? "ListenPort" then
    bind_result (map_err (invalid "ListenPort") (parse_int u16_max value)) (λ n,
    Ok {| self with ib_listen_port := Some n |})
  else if key ==? "Table" then
    if trim value ==? b "off" then Ok self
    else Err (WgConfigError_UnsupportedDirective line "Interface" "Table"
                "only `Table = off` is accepted; other values would conflict with Windlass-managed routing")
  else if existsb (λ directive, key ==? directive) refused_directives then
    Err (WgConfigError_UnsupportedDirective line "Interface" key
           (say ["`"; key; "` is a wg-quick directive that affects tunnel behavior; ";
                 "Windlass does not honor it.  Remove it from wg.conf"]))
  else Err (WgConfigError_UnknownKey line "Interface" key).

Definition InterfaceBuilder_build (self : InterfaceBuilder) : Result InterfaceConfig WgConfigError :=
  bind_result (ok_or (ib_private_key self) (WgConfigError_MissingInterfaceKey "PrivateKey"))
    (λ private_key_raw,
  bind_result (map_err WgConfigError_InvalidPrivateKey (validate_base64_key (b private_key_raw))) (λ _,
  if is_empty (ib_addresses self) then Err (WgConfigError_MissingInterfaceKey "Address")
  else Ok (mkInterfaceConfig private_key_raw (ib_addresses self) (ib_dns_servers self)
             (ib_mtu self) (ib_listen_port self)))).

Definition PeerBuilder_set (self : PeerBuilder) (key value : bytes) (line : Z)
    (policy : EndpointResolutionPolicy) : Result PeerBuilder WgConfigError :=
  let invalid := WgConfigError_InvalidValue line in
  let key := t key in
  if key ==? "PublicKey" then Ok {| self with pb_public_key := Some (t value) |}
  else if key ==? "PresharedKey" then Ok {| self with pb_preshared_key := Some (t value) |}
  else if key ==? "AllowedIPs" then
    fold_results (λ self piece,
      bind_result (map_err (invalid "AllowedIPs") (parse_cidr piece)) (λ cidr,
      Ok {| self with pb_allowed_ips :=
              pb_allowed_ips self ++ [mkAllowedIp (cidr_ip cidr) (cidr_prefix_len cidr)] |}))
      self (pieces value)
  else if key ==? "Endpoint" then
    bind_result (map_err (invalid "Endpoint") (parse_endpoint value policy)) (λ endpoint,
    Ok {| self with pb_endpoint := Some endpoint |})
  else if key ==? "PersistentKeepalive" then
    bind_result (map_err (invalid "PersistentKeepalive") (parse_int u16_max value)) (λ n,
    Ok {| self with pb_persistent_keepalive := Some n |})
  else Err (WgConfigError_UnknownKey line "Peer" key).

Definition PeerBuilder_build (self : PeerBuilder) (peer_index : Z) : Result PeerConfig WgConfigError :=
  let missing := WgConfigError_MissingPeerKey peer_index in
  bind_result (ok_or (pb_public_key self) (missing "PublicKey")) (λ public_key,
  bind_result (map_err (WgConfigError_InvalidPublicKey peer_index)
                 (validate_base64_key (b public_key))) (λ _,
  bind_result (match pb_preshared_key self with
               | Some psk => map_err (WgConfigError_InvalidPresharedKey peer_index)
                               (validate_base64_key (b psk))
               | None => Ok ()
               end) (λ _,
  if is_empty (pb_allowed_ips self) then Err (missing "AllowedIPs")
  else
    bind_result (ok_or (pb_endpoint self) (missing "Endpoint")) (λ endpoint,
    Ok (mkPeerConfig public_key (pb_preshared_key self) (pb_allowed_ips self) endpoint
          (pb_persistent_keepalive self)))))).

(** ** The file *)

Record ParseState := mkParseState {
  current_section : option Section_;
  interface_builder : InterfaceBuilder;
  peer_builders : list PeerBuilder;
  any_section_seen : bool;
}.

(** One line. A [Peer] section has pushed the builder its keys go to. *)
Definition parse_line (policy : EndpointResolutionPolicy) (state : ParseState)
    (numbered : Z * bytes) : Result ParseState WgConfigError :=
  let '(line_number, raw_line) := numbered in
  let line := trim (strip_comment raw_line) in
  if is_empty line then Ok state
  else
    match parse_section_header line with
    | Some name =>
        if t name ==? "Interface" then
          Ok {| state with current_section := Some Section_Interface; any_section_seen := true |}
        else if t name ==? "Peer" then
          Ok {| state with current_section := Some Section_Peer; any_section_seen := true;
                           peer_builders := peer_builders state ++ [PeerBuilder_default] |}
        else Err (WgConfigError_UnknownSection (t name))
    | None =>
        bind_result (ok_or (split_key_value line) (WgConfigError_Malformed line_number (t raw_line)))
          (λ '(key, value),
        match current_section state with
        | None => Err (WgConfigError_KeyOutsideSection line_number (t key))
        | Some Section_Interface =>
            bind_result (InterfaceBuilder_set (interface_builder state) key value line_number)
              (λ builder, Ok {| state with interface_builder := builder |})
        | Some Section_Peer =>
            match list.last (peer_builders state) with
            | Some peer =>
                bind_result (PeerBuilder_set peer key value line_number policy) (λ peer,
                Ok {| state with peer_builders := removelast (peer_builders state) ++ [peer] |})
            | None => Ok state
            end
        end)
    end.

(** [.enumerate()] from a first number. *)
Fixpoint numbered {A} (first : Z) (l : list A) : list (Z * A) :=
  match l with [] => [] | x :: l => (first, x) :: numbered (first + 1) l end.

Definition ParseState_start : ParseState := mkParseState None InterfaceBuilder_default [] false.

Definition parse (content : bytes) (policy : EndpointResolutionPolicy)
    : Result WgConfig WgConfigError :=
  bind_result (fold_results (parse_line policy) ParseState_start (numbered 1 (text_lines content)))
    (λ state,
  if negb (any_section_seen state) then Err WgConfigError_Empty
  else
    bind_result (InterfaceBuilder_build (interface_builder state)) (λ interface,
    if is_empty (peer_builders state) then Err WgConfigError_NoPeers
    else
      bind_result
        (collect_results (λ '(i, builder), PeerBuilder_build builder i)
           (numbered 0 (peer_builders state))) (λ peers,
      Ok (mkWgConfig interface peers)))).

(** ** What is accepted *)

Definition key_ok (key : string) : Prop :=
  length (trim (b key)) = 44%nat ∧
  ∃ bytes, decode_base64_44 (trim (b key)) = Ok bytes ∧ length bytes = 32%nat.
Definition prefix_ok (ip : IpAddr) (prefix_len : Z) : Prop := 0 ≤ prefix_len ≤ max_prefix ip.
Definition u16_ok (n : option Z) : Prop := ∀ n', n = Some n' → is_u16 n'.
Definition endpoint_ok (policy : EndpointResolutionPolicy) (endpoint : Endpoint) : Prop :=
  match endpoint with
  | Endpoint_Ip _ port => is_u16 port
  | Endpoint_Hostname _ port => is_u16 port ∧ policy = AllowHostnamePreTunnelDns
  end.
Definition address_ok (address : InterfaceAddress) : Prop :=
  prefix_ok (address_ip address) (address_prefix_len address).
Definition allowed_ok (allowed : AllowedIp) : Prop :=
  prefix_ok (allowed_ip allowed) (allowed_prefix_len allowed).

Record interface_ok (interface : InterfaceConfig) : Prop := {
  interface_key : key_ok (private_key interface);
  interface_addressed : addresses interface ≠ [];
  interface_prefixes : Forall address_ok (addresses interface);
  interface_mtu : u16_ok (mtu interface);
  interface_port : u16_ok (listen_port interface);
}.
Record peer_ok (policy : EndpointResolutionPolicy) (peer : PeerConfig) : Prop := {
  peer_key : key_ok (public_key peer);
  peer_preshared : ∀ psk, preshared_key peer = Some psk → key_ok psk;
  peer_routed : allowed_ips peer ≠ [];
  peer_prefixes : Forall allowed_ok (allowed_ips peer);
  peer_endpoint : endpoint_ok policy (endpoint peer);
  peer_keepalive : u16_ok (persistent_keepalive peer);
}.

(** A line the parser has understood: blank, one of the two headers, or a supported key. *)
Definition supported_keys : list string :=
  ["PrivateKey"; "Address"; "DNS"; "MTU"; "ListenPort"; "Table"; "PublicKey"; "PresharedKey";
   "AllowedIPs"; "Endpoint"; "PersistentKeepalive"].
Definition understood (raw_line : bytes) : Prop :=
  let line := trim (strip_comment raw_line) in
  line = [] ∨
  (∃ name, parse_section_header line = Some name ∧ t name ∈ ["Interface"; "Peer"]) ∨
  ∃ key value, split_key_value line = Some (key, value) ∧ t key ∈ supported_keys ∧
    (t key = "Table" → trim value = b "off").

(** ** Results, inverted *)

Lemma bind_result_Ok {T U E} (r : Result T E) (f : T → Result U E) y :
  bind_result r f = Ok y ↔ ∃ x, r = Ok x ∧ f x = Ok y.
Proof. destruct r; naive_solver. Qed.
Lemma map_err_Ok {T E F} (f : E → F) (r : Result T E) x : map_err f r = Ok x ↔ r = Ok x.
Proof. destruct r; naive_solver. Qed.
Lemma ok_or_returns {T E} (o : option T) (e : E) x : ok_or o e = Ok x ↔ o = Some x.
Proof. destruct o; naive_solver. Qed.

Lemma fold_results_keeps {A S E} (I : S → Prop) (P : A → Prop) (f : S → A → Result S E) l s s' :
  (∀ s x s', I s → f s x = Ok s' → I s' ∧ P x) →
  I s → fold_results f s l = Ok s' → I s' ∧ Forall P l.
Proof.
  intros Hf. revert s. induction l as [|x l IH]; intros s Hs; cbn.
  - intros [= <-]. split; [done|constructor].
  - intros (s1 & Hx & Hl)%bind_result_Ok. destruct (Hf s x s1 Hs Hx) as [Hs1 HP].
    destruct (IH s1 Hs1 Hl) as [? ?]. split; [done|by constructor].
Qed.

Lemma collect_results_all {A T E} (P : A → Prop) (Q : T → Prop) (f : A → Result T E) l ys :
  (∀ x y, P x → f x = Ok y → Q y) → Forall P l → collect_results f l = Ok ys →
  Forall Q ys ∧ length ys = length l.
Proof.
  intros Hf Hl. revert ys. induction Hl as [|x l HP Hl IH]; intros ys; cbn.
  - intros [= <-]. by split; [constructor|].
  - intros (y & Hy & (ys' & Hys & [= <-])%bind_result_Ok)%bind_result_Ok.
    destruct (IH ys' Hys) as [? Hlen]. split; [constructor; eauto|]. cbn. by rewrite Hlen.
Qed.

Ltac results :=
  repeat match goal with
  | H : bind_result _ _ = Ok _ |- _ => apply bind_result_Ok in H as (? & ? & ?)
  | H : map_err _ _ = Ok _ |- _ => apply map_err_Ok in H
  | H : ok_or _ _ = Ok _ |- _ => apply ok_or_returns in H
  | H : Ok _ = Ok _ |- _ => injection H as <-
  | H : Err _ = Ok _ |- _ => discriminate H
  | H : (if ?c then _ else _) = Ok _ |- _ => destruct c eqn:?; try discriminate
  end.

Lemma accumulate_digits_bounds max acc l n :
  0 ≤ acc ≤ max → accumulate_digits max acc l = Ok n → 0 ≤ n ≤ max.
Proof.
  revert acc. induction l as [|c l IH]; intros acc Hacc; cbn; [by intros [= <-]|].
  destruct (to_digit c) as [d|] eqn:Hd; [|done].
  apply then_some_Some in Hd as [Hdigit <-]. unfold is_digit in Hdigit. reflect_bools.
  case_match; [done|]. reflect_bools. apply IH. lia.
Qed.
Lemma parse_int_bounds max l n : 0 ≤ max → parse_int max l = Ok n → 0 ≤ n ≤ max.
Proof.
  intros Hmax. unfold parse_int.
  repeat case_match; try done; apply accumulate_digits_bounds; lia.
Qed.

Lemma parse_cidr_ok raw cidr : parse_cidr raw = Ok cidr → prefix_ok (cidr_ip cidr) (cidr_prefix_len cidr).
Proof.
  unfold parse_cidr, prefix_ok. destruct (split_once _ _) as [[ip_part prefix_part]|]; intros Hcidr; results.
  - match goal with H : parse_int _ _ = Ok _ |- _ => apply parse_int_bounds in H; [|done] end.
    reflect_bools. cbn. lia.
  - cbn. by destruct (_ : IpAddr).
Qed.

Lemma parse_port_ok l n : parse_int u16_max l = Ok n → is_u16 n.
Proof. by apply parse_int_bounds. Qed.

Lemma parse_endpoint_ok raw policy endpoint :
  parse_endpoint raw policy = Ok endpoint → endpoint_ok policy endpoint.
Proof.
  unfold parse_endpoint. destruct (strip_prefix _ _) as [rest|]; intros Hendpoint; results.
  - destruct (_ : bytes * bytes) as [addr port]. results. cbn. eauto using parse_port_ok.
  - destruct (_ : bytes * bytes) as [host port]. results.
    destruct (parse_ipv4_text host), (parse_ipv6_text host), policy; results; cbn;
      eauto using parse_port_ok.
Qed.

Lemma validate_key_ok key u : validate_base64_key (b key) = Ok u → key_ok key.
Proof.
  unfold validate_base64_key, key_ok. intros Hkey. results.
  rewrite !negb_false_iff, !Nat.eqb_eq in *. eauto.
Qed.

Definition ib_ok (self : InterfaceBuilder) : Prop :=
  Forall address_ok (ib_addresses self) ∧ u16_ok (ib_mtu self) ∧ u16_ok (ib_listen_port self).
Definition pb_ok (policy : EndpointResolutionPolicy) (self : PeerBuilder) : Prop :=
  Forall allowed_ok (pb_allowed_ips self) ∧ u16_ok (pb_persistent_keepalive self) ∧
  ∀ endpoint, pb_endpoint self = Some endpoint → endpoint_ok policy endpoint.

Ltac key_is := match goal with H : (_ ==? _) = true |- _ => apply bool_decide_eq_true in H end.

Lemma u16_some n : is_u16 n → u16_ok (Some n).
Proof. by intros ? ? [= <-]. Qed.

(** The key of a line that was taken is one of the supported ones. *)
Ltac supported :=
  split;
  [ match goal with H : t _ = _ |- _ => rewrite H end;
    apply (bool_decide_eq_true (_ ∈ _)); vm_compute; reflexivity
  | first [done|congruence] ].

Lemma InterfaceBuilder_set_ok self key value line self' :
  ib_ok self → InterfaceBuilder_set self key value line = Ok self' →
  ib_ok self' ∧ t key ∈ supported_keys ∧ (t key = "Table" → trim value = b "off").
Proof.
  intros Hok. unfold InterfaceBuilder_set. intros Hset. results; repeat key_is.
  all: split; [|by supported].
  1, 6: done.
  - apply (fold_results_keeps ib_ok (λ _, True)) in Hset; [by destruct Hset| |done].
    intros builder piece builder' (Ha & Hm & Hp) Hpiece. results. split; [|done].
    split; [|done]. cbn. apply Forall_app_2; [done|]. apply Forall_singleton. unfold address_ok. cbn.
    by eapply parse_cidr_ok.
  - apply (fold_results_keeps ib_ok (λ _, True)) in Hset; [by destruct Hset| |done].
    intros builder piece builder' Hbuilder Hpiece. by results.
  - destruct Hok as (Ha & Hm & Hp). split_and!; eauto using u16_some, parse_port_ok.
  - destruct Hok as (Ha & Hm & Hp). split_and!; eauto using u16_some, parse_port_ok.
Qed.

Lemma PeerBuilder_set_ok self key value line policy self' :
  pb_ok policy self → PeerBuilder_set self key value line policy = Ok self' →
  pb_ok policy self' ∧ t key ∈ supported_keys ∧ (t key = "Table" → trim value = b "off").
Proof.
  intros Hok. unfold PeerBuilder_set. intros Hset. results; repeat key_is.
  all: split; [|by supported].
  1, 2: done.
  - apply (fold_results_keeps (pb_ok policy) (λ _, True)) in Hset; [by destruct Hset| |done].
    intros builder piece builder' (Ha & Hk & He) Hpiece. results. split; [|done].
    split; [|done]. cbn. apply Forall_app_2; [done|]. apply Forall_singleton. unfold allowed_ok. cbn.
    by eapply parse_cidr_ok.
  - destruct Hok as (Ha & Hk & He). split_and!; [done|done|].
    intros endpoint [= <-]. by eapply parse_endpoint_ok.
  - destruct Hok as (Ha & Hk & He). split_and!; eauto using u16_some, parse_port_ok.
Qed.

Lemma InterfaceBuilder_build_ok self interface :
  ib_ok self → InterfaceBuilder_build self = Ok interface → interface_ok interface.
Proof.
  intros (Ha & Hm & Hp). unfold InterfaceBuilder_build. intros Hbuild. results.
  split; cbn; try done; [by eapply validate_key_ok|by destruct (ib_addresses self)].
Qed.

Lemma PeerBuilder_build_ok self policy i peer :
  pb_ok policy self → PeerBuilder_build self i = Ok peer → peer_ok policy peer.
Proof.
  intros (Ha & Hk & He). unfold PeerBuilder_build. intros Hbuild. results.
  split; cbn; try done; eauto.
  - by eapply validate_key_ok.
  - intros psk Hpsk. rewrite Hpsk in *. results. by eapply validate_key_ok.
  - by destruct (pb_allowed_ips self).
Qed.

Definition state_ok (policy : EndpointResolutionPolicy) (state : ParseState) : Prop :=
  ib_ok (interface_builder state) ∧ Forall (pb_ok policy) (peer_builders state) ∧
  (current_section state = Some Section_Peer → peer_builders state ≠ []).

Lemma last_removelast {A} (l : list A) x : list.last l = Some x → l = removelast l ++ [x].
Proof.
  intros (l' & ->)%last_Some. by rewrite removelast_last.
Qed.

Lemma parse_line_ok policy state numbered state' :
  state_ok policy state → parse_line policy state numbered = Ok state' →
  state_ok policy state' ∧ understood numbered.2.
Proof.
  destruct numbered as [n raw_line]. intros (Hi & Hp & Hs) Hline. unfold parse_line in Hline. cbn [snd].
  unfold understood. set (line := trim (strip_comment raw_line)) in *.
  destruct (is_empty line) eqn:Hempty.
  { results. split; [done|]. left. by destruct line. }
  destruct (parse_section_header line) as [name|] eqn:Hheader.
  - assert (∀ header, header ∈ ["Interface"; "Peer"] → t name = header →
      ∃ name', Some name = Some name' ∧ t name' ∈ ["Interface"; "Peer"]) as Hknown
      by (intros header Hin Heq; exists name; by rewrite Heq).
    results; key_is; (split; [|right; left; eapply Hknown; [|done]; set_solver]).
    + split_and!; [done|done|by intros [=]].
    + split_and!; [done| |by destruct (peer_builders state)].
      apply Forall_app_2; [done|]. apply Forall_singleton.
      split_and!; [apply Forall_nil_2|by intros ? [=]|by intros ? [=]].
  - apply bind_result_Ok in Hline as ([key value] & Hsplit%ok_or_returns & Hline).
    destruct (current_section state) as [[]|] eqn:Hsection; [| |done].
    + results.
      match goal with H : InterfaceBuilder_set _ _ _ _ = Ok _ |- _ =>
        apply (InterfaceBuilder_set_ok _ _ _ _ _ Hi) in H as (? & ? & ?) end.
      split; [split_and!; [done|done|by intros [=]]|]. right. right. eauto.
    + destruct (list.last (peer_builders state)) as [peer|] eqn:Hlast.
      * pose proof (last_removelast _ _ Hlast) as Heq. rewrite Heq in Hp.
        apply Forall_app in Hp as [Hinit Hpeer%Forall_inv]. results.
        match goal with H : PeerBuilder_set _ _ _ _ _ = Ok _ |- _ =>
          apply (PeerBuilder_set_ok _ _ _ _ _ _ Hpeer) in H as (? & ? & ?) end.
        split; [|right; right; eauto].
        split_and!; [done|apply Forall_app_2; [done|by apply Forall_singleton]|].
        intros _. cbn. by intros [_ [=]]%app_eq_nil.
      * exfalso. apply Hs; [done|]. by apply last_None.
Qed.

Lemma numbered_values {A} (first : Z) (l : list A) (P : A → Prop) :
  Forall (λ n, P n.2) (numbered first l) ↔ Forall P l.
Proof.
  revert first. induction l as [|x l IH]; intros first; cbn; [by split; intros _; apply Forall_nil_2|].
  by rewrite !Forall_cons_iff, IH.
Qed.

(** a configuration that is accepted is one the tunnel can be brought up with. Whatever
    the text, when the parser accepts it: the private key, every public key and every preshared
    key is 44 base64 characters of 32 bytes; the interface has an address and
    every peer an endpoint and a routed range, of which there is at least one peer; prefixes
    fit their address family and ports 16 bits; an endpoint is a host name only under the policy
    that allows names. And every line was understood: it is blank, one of the two headers, or a
    key the tunnel honours, so no hook, mark or route policy of the file is passed over. *)
Theorem an_accepted_configuration_is_complete content policy config :
  parse content policy = Ok config →
  interface_ok (interface config) ∧
  peers config ≠ [] ∧ Forall (peer_ok policy) (peers config) ∧
  Forall understood (text_lines content).
Proof.
  unfold parse. intros (state & Hlines & Hconfig)%bind_result_Ok.
  assert (state_ok policy ParseState_start) as Hstart
    by (split; [split_and!; [apply Forall_nil_2|by intros ? [=]|by intros ? [=]]
               |split; [apply Forall_nil_2|by intros [=]]]).
  destruct (fold_results_keeps (state_ok policy) (λ n, understood n.2) _ _ _ _
              (parse_line_ok policy) Hstart Hlines) as [(Hi & Hp & _) Hunderstood].
  results. cbn.
  match goal with H : collect_results _ _ = Ok _ |- _ =>
    eapply (collect_results_all (λ n, pb_ok policy n.2) (peer_ok policy)) in H as [Hpeers Hlength] end;
    [|by intros [i builder] peer; apply PeerBuilder_build_ok|by apply numbered_values].
  split_and!; [by eapply InterfaceBuilder_build_ok| |done|by apply numbered_values in Hunderstood].
  intros ->. destruct (peer_builders state); done.
Qed.

(** ** A sample file *)

Definition nl : string := String "010" EmptyString.
Definition sample_key : string := "AAECAwQFBgcICQoLDA0ODxAREhMUFRYXGBkaGxwdHh8=".
Definition sample_text (key endpoint : string) : bytes :=
  b (say ["[Interface]"; nl; "PrivateKey = "; key; " # secret"; nl; "Address = 10.2.0.2/32"; nl;
          "DNS = 10.2.0.1"; nl; nl; "[Peer]"; nl; "PublicKey = "; sample_key; nl;
          "AllowedIPs = 0.0.0.0/0, ::/0"; nl; "Endpoint = "; endpoint; nl]).
Definition sample_config : WgConfig :=
  mkWgConfig
    (mkInterfaceConfig sample_key [mkInterfaceAddress (IpAddr_V4 167_903_234) 32]
       [IpAddr_V4 167_903_233] None None)
    [mkPeerConfig sample_key None [mkAllowedIp (IpAddr_V4 0) 0; mkAllowedIp (IpAddr_V6 0) 0]
       (Endpoint_Ip (IpAddr_V4 3_221_225_985) 51_820) None].

Lemma an_accepted_configuration_is_complete_witness :
  parse (sample_text sample_key "192.0.2.1:51820") RequireIpLiteral = Ok sample_config ∧
  peers sample_config ≠ [] ∧ Forall (peer_ok RequireIpLiteral) (peers sample_config).
Proof.
  assert (parse (sample_text sample_key "192.0.2.1:51820") RequireIpLiteral = Ok sample_config) as Hparse
    by (vm_compute; reflexivity).
  split; [exact Hparse|].
  destruct (an_accepted_configuration_is_complete _ _ _ Hparse) as (_ & Hpeers & Hok & _).
  split; [exact Hpeers|exact Hok].
Defined.

Example refusals :
  map (λ '(key, endpoint), match parse (sample_text key endpoint) RequireIpLiteral with
                           | Ok _ => EmptyString
                           | Err error => WgConfigError_fmt error
                           end)
    [("short", "192.0.2.1:51820"); (sample_key, "vpn.example:51820"); (sample_key, "192.0.2.1:99999")]
  = ["private key is not valid base64 of a 32-byte key: expected 44 base64 characters, got 5";
     "line 9: invalid value for `Endpoint`: endpoint `vpn.example` is a hostname; policy requires IP literal";
     "line 9: invalid value for `Endpoint`: number too large to fit in target type"].
Proof. vm_compute. reflexivity. Qed.

(** A key with [=] among its data characters, which is no base64, is accepted. *)
Theorem padding_inside_a_key_is_accepted :
  is_some (match parse (sample_text "=AECAwQFBgcICQoLDA0ODxAREhMUFRYXGBkaGxwdHh8=" "192.0.2.1:51820")
                         RequireIpLiteral with
           | Ok config => Some config
           | Err _ => None
           end) = true.
Proof. vm_compute. reflexivity. Qed.

(** ** Errors *)

Lemma bind_result_Err {T U E} (r : Result T E) (f : T → Result U E) e :
  bind_result r f = Err e ↔ r = Err e ∨ ∃ x, r = Ok x ∧ f x = Err e.
Proof. destruct r; naive_solver. Qed.
Lemma map_err_Err {T E F} (f : E → F) (r : Result T E) e : map_err f r = Err e ↔ ∃ e', e = f e' ∧ r = Err e'.
Proof. destruct r; naive_solver. Qed.
Lemma ok_or_Err {T E} (o : option T) (e e' : E) : ok_or o e = Err e' ↔ o = None ∧ e' = e.
Proof. destruct o; naive_solver. Qed.
Lemma fold_results_Err {A S E} (f : S → A → Result S E) s l e :
  fold_results f s l = Err e → ∃ s x, f s x = Err e.
Proof.
  revert s. induction l as [|x l IH]; intros s; cbn; [done|].
  intros [Hx|(s' & _ & Hl)]%bind_result_Err; eauto.
Qed.
Lemma collect_results_Err {A T E} (f : A → Result T E) l e :
  collect_results f l = Err e → ∃ x, f x = Err e.
Proof.
  induction l as [|x l IH]; cbn; [done|].
  intros [Hx|(y & _ & [Hl|(ys & _ & Hys)]%bind_result_Err)]%bind_result_Err; eauto. done.
Qed.

Ltac errors :=
  repeat match goal with
  | H : bind_result _ _ = Err _ |- _ => apply bind_result_Err in H as [H|(? & ? & H)]
  | H : map_err _ _ = Err _ |- _ => apply map_err_Err in H as (? & ? & H)
  | H : ok_or _ _ = Err _ |- _ => apply ok_or_Err in H as [? ?]
  | H : fold_results _ _ _ = Err _ |- _ => apply fold_results_Err in H as (? & ? & H)
  | H : Ok _ = Err _ |- _ => discriminate H
  | H : Err _ = Err _ |- _ => injection H as H; try discriminate H
  | H : (if ?c then _ else _) = Err _ |- _ => destruct c eqn:?
  | H : match ?o with Some _ => _ | None => _ end = Err _ |- _ => destruct o eqn:?
  | H : match ?s with Section_Interface => _ | Section_Peer => _ end = Err _ |- _ => destruct s
  end; try congruence.

(** A host name under the policy that forbids one is refused as an invalid value of its line:
    the error made for it is never produced, whatever the file. *)
Theorem a_forbidden_hostname_is_an_invalid_value content policy host :
  parse content policy ≠ Err (WgConfigError_HostnameEndpointForbidden host).
Proof.
  unfold parse. intros Hparse. errors.
  - destruct (_ : Z * bytes) as [n raw_line]. unfold parse_line in *. errors.
    destruct (_ : bytes * bytes) as [key value]. errors;
      unfold InterfaceBuilder_set, PeerBuilder_set in *; errors.
  - unfold InterfaceBuilder_build in *. errors.
  - match goal with H : collect_results _ _ = Err _ |- _ => apply collect_results_Err in H as ([i builder] & H) end.
    unfold PeerBuilder_build in *. errors.
Qed.

(** ** NAT-PMP packets *)

Module PortMapping.

Definition VERSION : Z := 0.
Definition OP_MAP_UDP : Z := 1.
Definition OP_MAP_TCP : Z := 2.

Inductive Protocol :=
  | Protocol_Udp
  | Protocol_Tcp.
#[global] Instance Protocol_eq_dec : EqDecision Protocol.
Proof. solve_decision. Defined.

Definition op (self : Protocol) : Z :=
  match self with Protocol_Udp => OP_MAP_UDP | Protocol_Tcp => OP_MAP_TCP end.
Definition from_op (op : Z) : option Protocol :=
  let op := Z.land op 127 in
  if op =? OP_MAP_UDP then Some Protocol_Udp
  else if op =? OP_MAP_TCP then Some Protocol_Tcp
  else None.

Record NatPmpRequest := mkNatPmpRequest {
  request_protocol : Protocol;
  request_internal_port : Z;
  request_external_port_hint : Z;
  request_lifetime_seconds : Z;
}.

Definition encode (self : NatPmpRequest) : bytes :=
  [byte VERSION; byte (op (request_protocol self)); byte 0; byte 0]
  ++ to_be_u16 (request_internal_port self)
  ++ to_be_u16 (request_external_port_hint self)
  ++ to_be_u32 (request_lifetime_seconds self).

Record NatPmpLease := mkNatPmpLease {
  lease_protocol : Protocol;
  lease_epoch_seconds : Z;
  lease_internal_port : Z;
  lease_external_port : Z;
  lease_lifetime_seconds : Z;
}.

Inductive NatPmpResponseCode :=
  | NatPmpResponseCode_Success
  | NatPmpResponseCode_UnsupportedVersion
  | NatPmpResponseCode_NotAuthorized
  | NatPmpResponseCode_NetworkFailure
  | NatPmpResponseCode_OutOfResources
  | NatPmpResponseCode_UnsupportedOpcode
  | NatPmpResponseCode_Other (code : Z).
#[global] Instance NatPmpResponseCode_eq_dec : EqDecision NatPmpResponseCode.
Proof. solve_decision. Defined.

Definition from_u16 (code : Z) : NatPmpResponseCode :=
  if code =? 0 then NatPmpResponseCode_Success
  else if code =? 1 then NatPmpResponseCode_UnsupportedVersion
  else if code =? 2 then NatPmpResponseCode_NotAuthorized
  else if code =? 3 then NatPmpResponseCode_NetworkFailure
  else if code =? 4 then NatPmpResponseCode_OutOfResources
  else if code =? 5 then NatPmpResponseCode_UnsupportedOpcode
  else NatPmpResponseCode_Other code.

Inductive NatPmpDecodeError :=
  | NatPmpDecodeError_WrongLength (length : Z)
  | NatPmpDecodeError_WrongVersion (version : Z)
  | NatPmpDecodeError_UnknownOp (op : Z)
  | NatPmpDecodeError_ErrorCode (protocol : Protocol) (code : NatPmpResponseCode).

Definition decode (packet : bytes) : Result NatPmpLease NatPmpDecodeError :=
  match packet with
  | [version; opcode; c0; c1; e0; e1; e2; e3; i0; i1; x0; x1; l0; l1; l2; l3] =>
      if negb (u8 version =? VERSION) then Err (NatPmpDecodeError_WrongVersion (u8 version))
      else if negb (u8 opcode =? Z.lor 128 OP_MAP_UDP) && negb (u8 opcode =? Z.lor 128 OP_MAP_TCP)
      then Err (NatPmpDecodeError_UnknownOp (u8 opcode))
      else
        match from_op (u8 opcode) with
        | None => Err (NatPmpDecodeError_UnknownOp (u8 opcode))
        | Some protocol =>
            match from_u16 (from_be [c0; c1]) with
            | NatPmpResponseCode_Success =>
                Ok (mkNatPmpLease protocol (from_be [e0; e1; e2; e3]) (from_be [i0; i1])
                      (from_be [x0; x1]) (from_be [l0; l1; l2; l3]))
            | code => Err (NatPmpDecodeError_ErrorCode protocol code)
            end
        end
  | _ => Err (NatPmpDecodeError_WrongLength (Z.of_nat (length packet)))
  end.

(** Whether this lease answers the request. *)
Definition matches_request (self : NatPmpLease) (req : NatPmpRequest) : bool :=
  (lease_protocol self ==? request_protocol req)
  && ((request_internal_port req =? 0) || (lease_internal_port self =? request_internal_port req)).

(** ** What a gateway sends *)

(** The answer of RFC 6886 with a result code. *)
Definition answer (protocol : Protocol) (code epoch internal external lifetime : Z) : bytes :=
  [byte VERSION; byte (128 + op protocol)] ++ to_be_u16 code ++ to_be_u32 epoch
  ++ to_be_u16 internal ++ to_be_u16 external ++ to_be_u32 lifetime.

Lemma byte_of n c : n mod 256 = u8 c → byte n = c.
Proof. intros Hn. apply u8_inj. by rewrite u8_byte. Qed.

Lemma to_from_be_u16 a c : to_be_u16 (from_be [a; c]) = [a; c].
Proof.
  unfold to_be_u16, from_be. simpl. pose proof (u8_range a). pose proof (u8_range c).
  rewrite (byte_of _ a), (byte_of _ c); [done|..]; Z.div_mod_to_equations; lia.
Qed.

Lemma to_from_be_u32 a c d e : to_be_u32 (from_be [a; c; d; e]) = [a; c; d; e].
Proof.
  unfold to_be_u32, from_be. simpl.
  pose proof (u8_range a). pose proof (u8_range c). pose proof (u8_range d). pose proof (u8_range e).
  rewrite (byte_of _ a), (byte_of _ c), (byte_of _ d), (byte_of _ e); [done|..];
    change (2 ^ 24) with 16777216; change (2 ^ 16) with 65536; change (2 ^ 8) with 256;
    Z.div_mod_to_equations; lia.
Qed.

Lemma from_u16_success code : from_u16 code = NatPmpResponseCode_Success ↔ code = 0.
Proof. unfold from_u16. repeat case_match; reflect_bools; split; try done; lia. Qed.

Lemma from_u16_injective code code' : from_u16 code = from_u16 code' → code = code'.
Proof. unfold from_u16. repeat case_match; reflect_bools; intros; simplify_eq; lia. Qed.

Lemma decode_answer protocol code epoch internal external lifetime :
  is_u16 code → is_u32 epoch → is_u16 internal → is_u16 external → is_u32 lifetime →
  decode (answer protocol code epoch internal external lifetime)
  = match from_u16 code with
    | NatPmpResponseCode_Success => Ok (mkNatPmpLease protocol epoch internal external lifetime)
    | code => Err (NatPmpDecodeError_ErrorCode protocol code)
    end.
Proof.
  intros Hc He Hi Hx Hl. unfold answer, to_be_u16, to_be_u32. cbn [app decode]. rewrite !u8_byte.
  fold (to_be_u16 code) (to_be_u16 internal) (to_be_u16 external) (to_be_u32 epoch) (to_be_u32 lifetime).
  rewrite !from_to_be_u16, !from_to_be_u32 by done. by destruct protocol.
Qed.

(** What is read as a lease is the answer that grants it. *)
Lemma decode_granted packet lease :
  decode packet = Ok lease →
  packet = answer (lease_protocol lease) 0 (lease_epoch_seconds lease) (lease_internal_port lease)
             (lease_external_port lease) (lease_lifetime_seconds lease).
Proof.
  do 16 (destruct packet as [|? packet]; [done|]). destruct packet; [|done].
  cbn [decode]. destruct (u8 a =? VERSION) eqn:Hv; [|done]. cbn [negb].
  destruct (negb _ && negb _) eqn:Hop; [done|].
  destruct (from_op _) as [protocol|] eqn:Hp; [|done].
  destruct (from_u16 _) eqn:Hc; try done. intros [= <-].
  apply from_u16_success in Hc. unfold answer. cbn [lease_protocol lease_epoch_seconds lease_internal_port
    lease_external_port lease_lifetime_seconds].
  rewrite to_from_be_u32, !to_from_be_u16, to_from_be_u32, <-Hc, to_from_be_u16. cbn [app].
  reflect_bools. rewrite (byte_of _ a) by (rewrite Hv; done).
  rewrite (byte_of _ a0); [done|]. apply andb_false_iff in Hop as [Hop|Hop]; reflect_bools; rewrite Hop in *;
    vm_compute in Hp; simplify_eq; done.
Qed.

End PortMapping.
