(* ===== verification/PocCores.v ===== *)
(** * The archived prototype: the small cores

    The machine that turns tunnel facts into VPN facts
    ([POC/windlass-vpn-core/src/lib.rs]), the one that watches the free space of the disk
    ([POC/windlass-disk-core/src/lib.rs]) and the one that hands records to the database
    ([POC/windlass-db-core/src/lib.rs]). *)

From S2P Require Import Prelude.
From S2P Require Import Json.
From S2P Require Import PocMachine.

Local Open Scope string_scope.
Local Open Scope Z_scope.
Local Open Scope list_scope.

(** ** The VPN *)

Module Vpn.

Inductive VerificationSource :=
  | IfConfigCo
  | MamJsonIp.

Inductive VpnCommand :=.

Inductive VpnEvent :=
  | ContainerHealthy
  | ContainerUnhealthy
  | PortFileChanged (port : VpnPort).

Inductive VpnAction :=.

Inductive VpnPublish :=
  | VpnPublish_Connected
  | VpnPublish_Disconnected
  | VpnPublish_PortReady (port : VpnPort)
  | VpnPublish_PortUnavailable
  | VpnPublish_PublicIpObserved (ip : VpnIp)
  | VpnPublish_PublicIpUnavailable
  | VpnPublish_PublicIpMismatch (file_ip verified_ip : VpnIp) (source : VerificationSource)
  | VpnPublish_PublicIpVerificationDegraded (consecutive_failures : Z) (last_reason : string)
  | VpnPublish_Crashed
  | VpnPublish_Recovered.

Inductive VpnTopic :=
  | VpnTopic_Connectivity
  | VpnTopic_Port
  | VpnTopic_PublicIp.

Definition VpnPublish_topic (self : VpnPublish) : VpnTopic :=
  match self with
  | VpnPublish_Connected | VpnPublish_Disconnected | VpnPublish_Crashed | VpnPublish_Recovered =>
      VpnTopic_Connectivity
  | VpnPublish_PortReady _ | VpnPublish_PortUnavailable => VpnTopic_Port
  | VpnPublish_PublicIpObserved _ | VpnPublish_PublicIpUnavailable
  | VpnPublish_PublicIpMismatch _ _ _ | VpnPublish_PublicIpVerificationDegraded _ _ =>
      VpnTopic_PublicIp
  end.

Inductive VpnResponse :=
  | VpnResponse_Accepted.

Record VpnMachine := mkVpnMachine {
  connected : bool;
  port : option VpnPort;
}.

Definition VpnMachine_new (_ : ()) (_ : Instant) : VpnMachine := mkVpnMachine false None.

Definition VpnMachine_handle (self : VpnMachine) (_ : Instant) (_ : SystemTime)
    (event : Timed VpnEvent) : VpnMachine * Outcome VpnAction VpnPublish :=
  match timed_inner event with
  | ContainerHealthy =>
      let was_unhealthy := negb (connected self) in
      ({| self with connected := true |},
       mkOutcome []
         (VpnPublish_Connected :: if was_unhealthy then [VpnPublish_Recovered] else []))
  | ContainerUnhealthy =>
      let was_connected := connected self in
      (mkVpnMachine false None,
       mkOutcome []
         (VpnPublish_Disconnected :: VpnPublish_PortUnavailable
          :: if was_connected then [VpnPublish_Crashed] else []))
  | PortFileChanged port =>
      ({| self with port := Some port |}, mkOutcome [] [VpnPublish_PortReady port])
  end.

Definition VpnMachine_handle_command (self : VpnMachine) (_ : Instant) (_ : SystemTime)
    (cmd : VpnCommand) : VpnMachine * CommandOutcome VpnAction VpnPublish VpnResponse :=
  match cmd with end.

#[global] Instance VpnMachine_Machine :
    Machine VpnMachine () VpnEvent VpnAction VpnPublish VpnCommand VpnResponse := {
  new := VpnMachine_new;
  handle := VpnMachine_handle;
  handle_command := VpnMachine_handle_command;
}.

End Vpn.

(** ** The disk *)

Module Disk.

Record DiskConfig := mkDiskConfig { hard_floor_bytes : Z }.

Inductive DiskCommand :=
  | RefreshDisk.

Inductive DiskEvent :=
  | DiskEvent_Init
  | DiskSpaceObserved (free_bytes : Z).

Inductive DiskAction :=.

Inductive DiskPublish :=
  | BelowFloor (free_bytes : Z)
  | AboveFloor (free_bytes : Z).

Inductive DiskTopic :=
  | DiskTopic_Pressure.
Definition DiskPublish_topic (self : DiskPublish) : DiskTopic :=
  match self with BelowFloor _ | AboveFloor _ => DiskTopic_Pressure end.

Inductive DiskResponse :=
  | DiskResponse_Accepted.

Record DiskMachine := mkDiskMachine {
  config : DiskConfig;
  free_bytes : option Z;
}.

Definition pressure_publish (self : DiskMachine) (free_bytes : Z) : DiskPublish :=
  if free_bytes <? hard_floor_bytes (config self) then BelowFloor free_bytes else AboveFloor free_bytes.

Definition DiskMachine_new (config : DiskConfig) (_ : Instant) : DiskMachine :=
  mkDiskMachine config None.

Definition DiskMachine_handle (self : DiskMachine) (_ : Instant) (_ : SystemTime)
    (event : Timed DiskEvent) : DiskMachine * Outcome DiskAction DiskPublish :=
  match timed_inner event with
  | DiskEvent_Init => (self, mkOutcome [] [])
  | DiskSpaceObserved free_bytes =>
      let self := {| self with free_bytes := Some free_bytes |} in
      (self, mkOutcome [] [pressure_publish self free_bytes])
  end.

Definition DiskMachine_handle_command (self : DiskMachine) (_ : Instant) (_ : SystemTime)
    (cmd : DiskCommand) : DiskMachine * CommandOutcome DiskAction DiskPublish DiskResponse :=
  match cmd with RefreshDisk => (self, outcome [] DiskResponse_Accepted) end.

#[global] Instance DiskMachine_Machine :
    Machine DiskMachine DiskConfig DiskEvent DiskAction DiskPublish DiskCommand DiskResponse := {
  new := DiskMachine_new;
  handle := DiskMachine_handle;
  handle_command := DiskMachine_handle_command;
}.

End Disk.

(** ** The database *)

Module Db.

Inductive ActivitySource :=
  | ActivitySource_Shell
  | ActivitySource_Domain
  | ActivitySource_Qbit
  | ActivitySource_Mam
  | ActivitySource_Vpn
  | ActivitySource_Web
  | ActivitySource_System
  | ActivitySource_Download.

Record ActivityRecord := mkActivityRecord {
  activity_at : SystemTime;
  activity_source : ActivitySource;
  activity_action : string;
  activity_book_id : option Z;
  activity_detail : option string;
  activity_metadata : Value;
}.

Record AlertRecord := mkAlertRecord {
  alert_at : SystemTime;
  alert_priority : AlertPriority;
  alert_title : string;
  alert_body : string;
}.

Record SystemSnapshotRecord := mkSystemSnapshotRecord {
  snapshot_at : SystemTime;
  snapshot_state : Value;
}.

Inductive TorrentStateRecord :=
  | TorrentStateRecord_Downloading
  | TorrentStateRecord_Uploading
  | TorrentStateRecord_ForcedUpload
  | TorrentStateRecord_PausedDownloading
  | TorrentStateRecord_PausedUploading
  | TorrentStateRecord_StalledDownloading
  | TorrentStateRecord_StalledUploading
  | TorrentStateRecord_Checking
  | TorrentStateRecord_Error
  | TorrentStateRecord_Unknown (text : string).

Record TorrentRecord := mkTorrentRecord {
  torrent_hash : TorrentHash;
  torrent_book_id : option Z;
  torrent_mam_id : option MamTorrentId;
  torrent_name : string;
  torrent_state : TorrentStateRecord;
  torrent_seeding_time_secs : Z;
  torrent_downloaded_bytes : Z;
  torrent_seen_at : SystemTime;
}.

Inductive BookStatus :=
  | BookStatus_PendingMetadata
  | BookStatus_Queued
  | BookStatus_Downloading
  | BookStatus_Complete
  | BookStatus_Failed.

Record BookRecord := mkBookRecord {
  book_id : option Z;
  book_mam_id : option MamTorrentId;
  book_title : option string;
  book_author : option string;
  book_status : BookStatus;
}.

Inductive DownloadStatus :=
  | DownloadStatus_Pending
  | DownloadStatus_Downloading
  | DownloadStatus_Seeding
  | DownloadStatus_Satisfied
  | DownloadStatus_Complete
  | DownloadStatus_Failed
  | DownloadStatus_Blacklisted.

Record DownloadQueueRecord := mkDownloadQueueRecord {
  queued_book_id : option Z;
  queued_mam_id : MamTorrentId;
  queued_status : DownloadStatus;
}.

Record DownloadStateChange := mkDownloadStateChange {
  changed_mam_id : MamTorrentId;
  changed_status : DownloadStatus;
}.

Inductive DbCommand :=
  | RecordActivity (record : ActivityRecord)
  | RecordAlert (record : AlertRecord)
  | SaveSystemSnapshot (record : SystemSnapshotRecord)
  | UpsertTorrent (record : TorrentRecord)
  | UpsertBook (record : BookRecord)
  | EnqueueDownload (record : DownloadQueueRecord)
  | MarkDownloadState (change : DownloadStateChange).

Record DbFailure := mkDbFailure {
  failure_operation : string;
  failure_message : string;
  failure_retryable : bool;
}.

Inductive DbEvent :=
  | ActivityRecorded (id : Z)
  | AlertRecorded (id : Z)
  | SystemSnapshotSaved (id : Z)
  | TorrentUpserted (hash : TorrentHash)
  | BookUpserted (id : Z)
  | DownloadQueueUpdated (id : Z)
  | DbEvent_Failed (failure : DbFailure).

Inductive DbAction :=
  | Execute (command : DbCommand).

Inductive DbPublish :=
  | Succeeded (operation : string)
  | DbPublish_Failed (failure : DbFailure).

Inductive DbTopic :=
  | DbTopic_Results
  | DbTopic_Failures.
Definition DbPublish_topic (self : DbPublish) : DbTopic :=
  match self with Succeeded _ => DbTopic_Results | DbPublish_Failed _ => DbTopic_Failures end.

Inductive DbResponse :=
  | DbResponse_Accepted.

(** The machine has no state. *)
Inductive DbMachine :=
  | mkDbMachine.

Definition DbMachine_new (_ : ()) (_ : Instant) : DbMachine := mkDbMachine.

Definition DbMachine_handle (self : DbMachine) (_ : Instant) (_ : SystemTime)
    (event : Timed DbEvent) : DbMachine * Outcome DbAction DbPublish :=
  let publish :=
    match timed_inner event with
    | DbEvent_Failed failure => DbPublish_Failed failure
    | ActivityRecorded _ => Succeeded "RecordActivity"
    | AlertRecorded _ => Succeeded "RecordAlert"
    | SystemSnapshotSaved _ => Succeeded "SaveSystemSnapshot"
    | TorrentUpserted _ => Succeeded "UpsertTorrent"
    | BookUpserted _ => Succeeded "UpsertBook"
    | DownloadQueueUpdated _ => Succeeded "DownloadQueueUpdated"
    end in
  (self, mkOutcome [] [publish]).

Definition DbMachine_handle_command (self : DbMachine) (_ : Instant) (_ : SystemTime)
    (cmd : DbCommand) : DbMachine * CommandOutcome DbAction DbPublish DbResponse :=
  (self, outcome [Execute cmd] DbResponse_Accepted).

#[global] Instance DbMachine_Machine :
    Machine DbMachine () DbEvent DbAction DbPublish DbCommand DbResponse := {
  new := DbMachine_new;
  handle := DbMachine_handle;
  handle_command := DbMachine_handle_command;
}.

End Db.
