(* ===== verification/PocDocker.v ===== *)
(** * The archived prototype: containers

    The machine of container lifecycles ([POC/windlass-docker-core/src/lib.rs]): the health of
    the anchor and of its dependents, the check of stale network namespaces, and the
    restarts behind a circuit breaker. Then what it promises for every sequence of events and
    commands: that a dependent is trusted only while the anchor is healthy, and that automatic
    restarts stay within the budget of their window. *)

From S2P Require Import Prelude.
From stdpp Require Import strings.
From S2P Require Import PocMachine.

Local Open Scope string_scope.
Local Open Scope Z_scope.
Local Open Scope list_scope.

Record DockerConfig := mkDockerConfig {
  anchor : string;
  max_restarts_per_window : Z;
  restart_window_duration : Duration;
  autoheal_dependents : bool;
}.

Definition DockerConfig_default : DockerConfig := mkDockerConfig "windlass" 3 (from_mins 10) false.

Inductive DockerCommand :=
  | DockerCommand_StopDependents
  | DockerCommand_StartDependents
  | DockerCommand_RestartContainer (name : string)
  | DockerCommand_StopContainer (name : string)
  | DockerCommand_StartContainer (name : string)
  | DockerCommand_DumpLogs (name : string)
  | DockerCommand_DumpAllLogs
  | DockerCommand_ListDependents.

Inductive DockerEvent :=
  | DockerEvent_Init
  | DockerEvent_ContainerHealthy (name : string)
  | DockerEvent_ContainerUnhealthy (name : string)
  | DockerEvent_ContainerStopped (name : string)
  | DockerEvent_ContainerStarted (name : string) (started_at : SystemTime)
  | DockerEvent_DependentsDiscovered (names : list string)
  | DockerEvent_LogsDumped (name path : string)
  | DockerEvent_LogsDumpFailed (name reason : string).

Inductive DockerAction :=
  | DockerAction_StartContainer (name : string)
  | DockerAction_StopContainer (name : string)
  | DockerAction_RestartContainer (name : string)
  | DockerAction_InspectContainer (name : string)
  | DockerAction_DumpLogs (name : string)
  | DockerAction_DiscoverDependents.

Inductive DockerPublish :=
  | DockerPublish_ContainerCrashed (name : string)
  | DockerPublish_ContainerHealthy (name : string)
  | DockerPublish_LogsDumped (name path : string)
  | DockerPublish_Stopped (name : string)
  | DockerPublish_Started (name : string) (started_at : SystemTime)
  | DockerPublish_DependentNetworkUntrusted (name : string)
      (dependent_started_at anchor_healthy_since : SystemTime)
  | DockerPublish_DependentNetworkTrusted (name : string)
  | DockerPublish_RestartStorm (window_count max : Z).

Inductive DockerTopic :=
  | DockerTopic_Lifecycle
  | DockerTopic_Logs.

Definition DockerPublish_topic (self : DockerPublish) : DockerTopic :=
  match self with
  | DockerPublish_LogsDumped _ _ => DockerTopic_Logs
  | _ => DockerTopic_Lifecycle
  end.

Inductive DockerResponse :=
  | DockerResponse_Accepted
  | DockerResponse_Dependents (names : list string).

Inductive ContainerHealth :=
  | ContainerHealth_Unknown
  | ContainerHealth_Healthy
  | ContainerHealth_Unhealthy.
#[global] Instance ContainerHealth_eq_dec : EqDecision ContainerHealth.
Proof. solve_decision. Defined.

Record ContainerState := mkContainerState {
  health : ContainerHealth;
  started_at : option SystemTime;
  network_trusted : bool;
}.
Definition ContainerState_default : ContainerState :=
  mkContainerState ContainerHealth_Unknown None false.

Record DockerMachine := mkDockerMachine {
  config : DockerConfig;
  containers : gmap string ContainerState;
  dependents : list string;
  anchor_healthy_since : option SystemTime;
  restart_window : list SystemTime;
  incident_id : Z;
  crash_dump_emitted_for_current_incident : bool;
}.

Abbreviation Answer := (Outcome DockerAction DockerPublish) (only parsing).

(** [entry(name).or_default()] *)
Definition container (self : DockerMachine) (name : string) : ContainerState :=
  default ContainerState_default (containers self !! name).
Definition set_container (self : DockerMachine) (name : string) (entry : ContainerState)
    : DockerMachine :=
  {| self with containers := <[name := entry]> (containers self) |}.

(** ** The circuit breaker *)

(** [chrono::Duration::from_std]: at most [i64::MAX] milliseconds. *)
Definition from_std (d : Duration) : option Duration := then_some (d <=? i64_max * 1_000_000) d.

Fixpoint drop_older (window : Duration) (now : SystemTime) (times : list SystemTime)
    : list SystemTime :=
  match times with
  | front :: rest => if window <? now - front then drop_older window now rest else times
  | [] => []
  end.
Definition window_of (config : DockerConfig) : Duration :=
  default (from_secs 0) (from_std (restart_window_duration config)).
Definition prune_restart_window (self : DockerMachine) (now : SystemTime) : DockerMachine :=
  {| self with restart_window := drop_older (window_of (config self)) now (restart_window self) |}.

Definition dump_everything (self : DockerMachine) : list DockerAction :=
  DockerAction_DumpLogs (anchor (config self)) :: map DockerAction_DumpLogs (dependents self).

Definition try_restart (self : DockerMachine) (name : string) (now : SystemTime)
    : DockerMachine * (list DockerAction * list DockerPublish) :=
  let self := prune_restart_window self now in
  let max := max_restarts_per_window (config self) in
  let window_count := try_from_or_max u32_max (Z.of_nat (length (restart_window self))) in
  if (max =? 0) || (window_count <? max) then
    ({| self with restart_window := restart_window self ++ [now] |},
     ([DockerAction_RestartContainer name], []))
  else
    let publishes := [DockerPublish_RestartStorm window_count max] in
    if crash_dump_emitted_for_current_incident self then (self, ([], publishes))
    else
      ({| self with crash_dump_emitted_for_current_incident := true |},
       (dump_everything self, publishes)).

(** ** Events *)

Definition mark_untrusted (entry : ContainerState) : ContainerState :=
  {| entry with network_trusted := false |}.

Definition apply_container_healthy (self : DockerMachine) (name : string) (wall_now : SystemTime)
    : DockerMachine * Answer :=
  let entry := container self name in
  let was_healthy := health entry ==? ContainerHealth_Healthy in
  let self := set_container self name {| entry with health := ContainerHealth_Healthy |} in
  if name ==? anchor (config self) then
    if is_some (anchor_healthy_since self) then (self, mkOutcome [] [])
    else
      let self := {| self with anchor_healthy_since := Some wall_now;
                               incident_id := saturating_add u64_max (incident_id self) 1;
                               crash_dump_emitted_for_current_incident := false |} in
      let self := fold_left (λ self dep_name,
                    set_container self dep_name (mark_untrusted (container self dep_name)))
                    (dependents self) self in
      (self, mkOutcome (map DockerAction_InspectContainer (dependents self))
               [DockerPublish_ContainerHealthy name])
  else (self, mkOutcome [] (if was_healthy then [] else [DockerPublish_ContainerHealthy name])).

Definition apply_container_unhealthy (self : DockerMachine) (name : string) (wall_now : SystemTime)
    : DockerMachine * Answer :=
  let entry := container self name in
  let was_unhealthy := health entry ==? ContainerHealth_Unhealthy in
  let self := set_container self name {| entry with health := ContainerHealth_Unhealthy |} in
  if name ==? anchor (config self) then
    if is_some (anchor_healthy_since self) then
      let self := {| self with anchor_healthy_since := None;
                               containers := mark_untrusted <$> containers self |} in
      (self, mkOutcome [] [DockerPublish_ContainerCrashed name])
    else (self, mkOutcome [] [])
  else
    let crashed := if was_unhealthy then [] else [DockerPublish_ContainerCrashed name] in
    if autoheal_dependents (config self) && bool_decide (name ∈ dependents self) then
      let '(self, (restart_actions, restart_publish)) := try_restart self name wall_now in
      (self, mkOutcome restart_actions (crashed ++ restart_publish))
    else (self, mkOutcome [] crashed).

Definition apply_container_started (self : DockerMachine) (name : string)
    (started_at : SystemTime) (wall_now : SystemTime) : DockerMachine * Answer :=
  let entry := container self name in
  let entry := {| entry with started_at := Some started_at |} in
  let self := set_container self name entry in
  let started := DockerPublish_Started name started_at in
  if negb (name ==? anchor (config self)) && bool_decide (name ∈ dependents self) then
    match anchor_healthy_since self with
    | Some healthy_since =>
        if healthy_since <=? started_at then
          let was_untrusted := negb (network_trusted entry) in
          let self := set_container self name {| entry with network_trusted := true |} in
          (self, mkOutcome []
                   (started :: if was_untrusted then [DockerPublish_DependentNetworkTrusted name]
                               else []))
        else
          let self := set_container self name {| entry with network_trusted := false |} in
          let untrusted := DockerPublish_DependentNetworkUntrusted name started_at healthy_since in
          let '(self, (restart_actions, restart_publish)) := try_restart self name wall_now in
          (self, mkOutcome restart_actions (started :: untrusted :: restart_publish))
    | None => (self, mkOutcome [] [started])
    end
  else (self, mkOutcome [] [started]).

Definition DockerMachine_new (config : DockerConfig) (_ : Instant) : DockerMachine :=
  mkDockerMachine config ∅ [] None [] 0 false.

Definition DockerMachine_handle (self : DockerMachine) (_ : Instant) (wall_now : SystemTime)
    (event : Timed DockerEvent) : DockerMachine * Answer :=
  match timed_inner event with
  | DockerEvent_Init =>
      (self, mkOutcome [DockerAction_DiscoverDependents;
                        DockerAction_InspectContainer (anchor (config self))] [])
  | DockerEvent_LogsDumped _ _ | DockerEvent_LogsDumpFailed _ _ => (self, Outcome_none)
  | DockerEvent_DependentsDiscovered names => ({| self with dependents := names |}, Outcome_none)
  | DockerEvent_ContainerHealthy name => apply_container_healthy self name wall_now
  | DockerEvent_ContainerUnhealthy name => apply_container_unhealthy self name wall_now
  | DockerEvent_ContainerStopped name =>
      (set_container self name (mark_untrusted (container self name)),
       mkOutcome [] [DockerPublish_Stopped name])
  | DockerEvent_ContainerStarted name started_at =>
      apply_container_started self name started_at wall_now
  end.

Definition DockerMachine_handle_command (self : DockerMachine) (_ : Instant) (_ : SystemTime)
    (cmd : DockerCommand) : DockerMachine * CommandOutcome DockerAction DockerPublish DockerResponse :=
  match cmd with
  | DockerCommand_StopDependents =>
      (self, outcome (map DockerAction_StopContainer (dependents self)) DockerResponse_Accepted)
  | DockerCommand_StartDependents =>
      (self, outcome (map DockerAction_StartContainer (dependents self)) DockerResponse_Accepted)
  | DockerCommand_RestartContainer name =>
      (self, outcome [DockerAction_RestartContainer name] DockerResponse_Accepted)
  | DockerCommand_StopContainer name =>
      (self, outcome [DockerAction_StopContainer name] DockerResponse_Accepted)
  | DockerCommand_StartContainer name =>
      (self, outcome [DockerAction_StartContainer name] DockerResponse_Accepted)
  | DockerCommand_DumpLogs name =>
      (self, outcome [DockerAction_DumpLogs name] DockerResponse_Accepted)
  | DockerCommand_DumpAllLogs => (self, outcome (dump_everything self) DockerResponse_Accepted)
  | DockerCommand_ListDependents =>
      (self, outcome [] (DockerResponse_Dependents (dependents self)))
  end.

#[global] Instance DockerMachine_Machine :
    Machine DockerMachine DockerConfig DockerEvent DockerAction DockerPublish DockerCommand
      DockerResponse := {
  new := DockerMachine_new;
  handle := DockerMachine_handle;
  handle_command := DockerMachine_handle_command;
}.

Abbreviation DockerInput := (Input DockerEvent DockerCommand) (only parsing).

(** ** Trust *)

(** Without a healthy anchor nothing is trusted. *)
Definition trust_ok (self : DockerMachine) : Prop :=
  anchor_healthy_since self = None →
  ∀ name entry, containers self !! name = Some entry → network_trusted entry = false.

Lemma container_lookup self name : containers self !! name = None ∨ containers self !! name = Some (container self name).
Proof. unfold container. destruct (containers self !! name); auto. Qed.

Lemma container_untrusted self name :
  trust_ok self → anchor_healthy_since self = None → network_trusted (container self name) = false.
Proof.
  intros Hok Hnone. unfold container. destruct (containers self !! name) eqn:Hname; [|done].
  by eapply Hok.
Qed.

Lemma set_container_trust self name entry :
  (anchor_healthy_since self = None → network_trusted entry = false) →
  trust_ok self → trust_ok (set_container self name entry).
Proof.
  intros Hentry Hok Hnone name' entry'. cbn in *. rewrite lookup_insert_Some.
  intros [[_ <-]|[_ ?]]; [by apply Hentry|by eapply Hok].
Qed.

Lemma try_restart_keeps self name now :
  let self' := (try_restart self name now).1 in
  containers self' = containers self ∧ anchor_healthy_since self' = anchor_healthy_since self.
Proof. unfold try_restart. cbn. by repeat case_match. Qed.

Lemma trust_same self self' :
  containers self' = containers self → anchor_healthy_since self' = anchor_healthy_since self →
  trust_ok self → trust_ok self'.
Proof. unfold trust_ok. by intros -> ->. Qed.

Definition untrust (self : DockerMachine) (name : string) : DockerMachine :=
  set_container self name (mark_untrusted (container self name)).
Lemma untrust_all_keeps names self :
  let self' := fold_left untrust names self in
  anchor_healthy_since self' = anchor_healthy_since self ∧
  restart_window self' = restart_window self ∧ config self' = config self.
Proof.
  revert self. induction names as [|name names IH]; intros self; cbn [fold_left]; [done|].
  exact (IH (untrust self name)).
Qed.

Lemma set_health_trust self name h :
  trust_ok self →
  trust_ok (set_container self name
    (mkContainerState h (started_at (container self name)) (network_trusted (container self name)))).
Proof. intros Hok. apply set_container_trust; [|done]. intros Hnone. by apply container_untrusted. Qed.

Lemma healthy_trust self name wall_now :
  trust_ok self → trust_ok (apply_container_healthy self name wall_now).1.
Proof.
  intros Hok. unfold apply_container_healthy.
  pose proof (λ h, set_health_trust self name h Hok) as Hset.
  case_match; [|by apply Hset]. case_match; [by apply Hset|]. cbn [fst].
  intros Hnone. exfalso. revert Hnone. cbv zeta.
  match goal with |- context [fold_left ?f ?names ?start] =>
    change f with untrust; destruct (untrust_all_keeps names start) as (-> & _) end. done.
Qed.

Lemma unhealthy_trust self name wall_now :
  trust_ok self → trust_ok (apply_container_unhealthy self name wall_now).1.
Proof.
  intros Hok. unfold apply_container_unhealthy.
  pose proof (λ h, set_health_trust self name h Hok) as Hset.
  case_match.
  - case_match; [|by apply Hset]. intros _ name' entry. cbn [fst containers].
    rewrite lookup_fmap, fmap_Some. by intros (entry' & _ & ->).
  - case_match; [|by apply Hset].
    match goal with |- context [try_restart ?x name wall_now] =>
      pose proof (try_restart_keeps x name wall_now) as [Hc Ha];
      destruct (try_restart x name wall_now) as [self' [restart_actions restart_publish]] end.
    exact (trust_same (set_container self name _) self' Hc Ha (Hset _)).
Qed.

Lemma started_trust self name started wall_now :
  trust_ok self → trust_ok (apply_container_started self name started wall_now).1.
Proof.
  intros Hok. unfold apply_container_started. cbv zeta.
  set (entry := mkContainerState _ _ _).
  assert (trust_ok (set_container self name entry)) as Hset.
  { apply set_container_trust; [|done]. intros Hnone. by apply container_untrusted. }
  case_match; [|done]. case_match; [|done]. case_match.
  - apply set_container_trust; [cbn in *; congruence|done].
  - match goal with |- context [try_restart ?x name wall_now] =>
      pose proof (try_restart_keeps x name wall_now) as [Hc Ha];
      destruct (try_restart x name wall_now) as [self' [restart_actions restart_publish]] end.
    refine (trust_same (set_container (set_container self name _) name _) self' Hc Ha _).
    by apply set_container_trust.
Qed.

Lemma step_trust self (input : DockerInput) : trust_ok self → trust_ok (step self input).1.
Proof.
  intros Hok. destruct input as [now wall_now [at_ cause []]|now wall_now []]; cbn; try done;
    auto using healthy_trust, unhealthy_trust, started_trust.
  by apply set_container_trust.
Qed.

(** ** Restarts *)

Definition is_restart (action : DockerAction) : bool :=
  match action with DockerAction_RestartContainer _ => true | _ => false end.
Definition restarts (actions : list DockerAction) : nat := length (List.filter is_restart actions).

(** When containers were restarted without a command. *)
Definition restarts_of (input : DockerInput) (answer : Outcome DockerAction DockerPublish)
    : list SystemTime :=
  match input with
  | Input_Event _ wall_now _ => repeat wall_now (restarts (actions answer))
  | Input_Command _ _ _ => []
  end.
Definition automatic_restarts (inputs : list DockerInput)
    (answers : list (Outcome DockerAction DockerPublish)) : list SystemTime :=
  concat (zip_with restarts_of inputs answers).

Definition wall (input : DockerInput) : SystemTime :=
  match input with Input_Event _ wall_now _ | Input_Command _ wall_now _ => wall_now end.

(** Any [max + 1] restarts in a row take longer than the window. *)
Definition spaced (window : Duration) (max : nat) (times : list SystemTime) : Prop :=
  ∀ i first last, times !! i = Some first → times !! (i + max)%nat = Some last → window < last - first.

(** The window holds the latest restarts; those before it are older than the window. *)
Record budget_ok (self : DockerMachine) (times : list SystemTime) (now : SystemTime) : Prop := {
  budget_max : 0 < max_restarts_per_window (config self) ≤ u32_max;
  budget_spaced : spaced (window_of (config self)) (Z.to_nat (max_restarts_per_window (config self))) times;
  budget_window : ∃ old, times = old ++ restart_window self ∧
    Forall (λ time, window_of (config self) < now - time) old;
}.

Lemma drop_older_split window now times :
  ∃ dropped, times = dropped ++ drop_older window now times ∧ Forall (λ time, window < now - time) dropped.
Proof.
  induction times as [|time times (dropped & Heq & Hold)]; cbn.
  - exists []. split; [done|constructor].
  - case_match; reflect_bools.
    + exists (time :: dropped). cbn. rewrite <-Heq. split; [done|by constructor].
    + exists []. split; [done|constructor].
Qed.

Lemma older_later window now now' times :
  now ≤ now' → Forall (λ time, window < now - time) times → Forall (λ time, window < now' - time) times.
Proof. intros Hle. apply List.Forall_impl. lia. Qed.

(** One more restart while fewer than the maximum are in the window. *)
Lemma spaced_more window max old recent now :
  spaced window max (old ++ recent) → Forall (λ time, window < now - time) old →
  (length recent < max)%nat → spaced window max ((old ++ recent) ++ [now]).
Proof.
  intros Hspaced Hold Hlen i first last Hi Hlast.
  pose proof (lookup_lt_Some _ _ _ Hlast) as Hlt. rewrite length_app in Hlt. cbn in Hlt.
  destruct (decide (i + max = length (old ++ recent)))%nat as [Heq|Hne].
  - rewrite lookup_app_r, Heq, Nat.sub_diag in Hlast by lia. cbn in Hlast. injection Hlast as <-.
    rewrite length_app in Heq. rewrite <-app_assoc, lookup_app_l in Hi by lia.
    by eapply Forall_lookup_1 in Hold.
  - rewrite lookup_app_l in Hlast by lia. rewrite lookup_app_l in Hi by lia. by eapply Hspaced.
Qed.

Lemma budget_same self self' times now now' :
  restart_window self' = restart_window self → config self' = config self → now ≤ now' →
  budget_ok self times now → budget_ok self' times now'.
Proof.
  intros Hwindow Hconfig Hnow [Hmax Hspaced (old & Heq & Hold)].
  split; rewrite ?Hconfig, ?Hwindow; [done|done|]. exists old. split; [done|]. by eapply older_later.
Qed.

Lemma no_restart_in (f : string → DockerAction) names :
  (∀ name, is_restart (f name) = false) → restarts (map f names) = 0%nat.
Proof. intros Hf. unfold restarts. induction names as [|name names IH]; cbn; [done|]. by rewrite Hf. Qed.

Lemma try_restart_budget self name times now now' :
  budget_ok self times now → now ≤ now' →
  budget_ok (try_restart self name now').1
    (times ++ repeat now' (restarts (try_restart self name now').2.1)) now'.
Proof.
  intros [Hmax Hspaced (old & Heq & Hold)] Hnow. unfold try_restart. cbv zeta.
  destruct (drop_older_split (window_of (config self)) now' (restart_window self))
    as (dropped & Hsplit & Hdropped).
  set (kept := drop_older _ _ _) in *. set (pruned := prune_restart_window self now').
  assert (times = (old ++ dropped) ++ kept) as Htimes by (by rewrite Heq, Hsplit, <-app_assoc).
  assert (Forall (λ time, window_of (config self) < now' - time) (old ++ dropped)) as Hgone.
  { apply Forall_app_2; [by eapply older_later|done]. }
  destruct ((max_restarts_per_window (config pruned) =? 0) || _) eqn:Hroom.
  - assert (length kept < Z.to_nat (max_restarts_per_window (config self)))%nat.
    { unfold pruned, prune_restart_window, try_from_or_max in Hroom.
      cbn [config restart_window] in Hroom. fold kept in Hroom.
      apply orb_prop in Hroom as [Hroom|Hroom]; reflect_bools; lia. }
    cbn [fst snd restarts]. split; [done| |].
    + cbn [repeat]. rewrite Htimes. apply spaced_more; [by rewrite <-Htimes|done|done].
    + exists (old ++ dropped). split; [|done]. cbn. by rewrite Htimes, <-app_assoc.
  - assert (budget_ok pruned times now') as Hpruned.
    { split; [done|done|]. exists (old ++ dropped). done. }
    case_match; cbn [fst snd].
    + by rewrite app_nil_r.
    + unfold dump_everything. cbn [restarts]. unfold restarts. cbn [List.filter is_restart].
      fold (restarts (map DockerAction_DumpLogs (dependents pruned))).
      rewrite no_restart_in, app_nil_r by done. by eapply budget_same; [..|exact Hpruned].
Qed.

(** A step that restarts nothing. *)
Lemma quiet_budget self self' times now wall_now answered published :
  budget_ok self times now → now ≤ wall_now →
  restart_window self' = restart_window self → config self' = config self →
  restarts answered = 0%nat →
  budget_ok self' (times ++ repeat wall_now (restarts (actions (mkOutcome (P:=DockerPublish) answered published))))
    wall_now.
Proof. intros ?? Hw Hc Hnone. cbn [actions]. rewrite Hnone, app_nil_r. by eapply budget_same. Qed.

Lemma healthy_budget self name times now wall_now :
  budget_ok self times now → now ≤ wall_now →
  budget_ok (apply_container_healthy self name wall_now).1
    (times ++ repeat wall_now (restarts (actions (apply_container_healthy self name wall_now).2))) wall_now.
Proof.
  intros Hok Hnow. unfold apply_container_healthy.
  case_match; [|by eapply quiet_budget]. case_match; [by eapply quiet_budget|]. cbv zeta.
  match goal with |- context [fold_left ?f ?names ?start] =>
    change f with untrust; destruct (untrust_all_keeps names start) as (_ & Hw & Hc) end.
  eapply quiet_budget; [exact Hok|done|exact Hw|exact Hc|by apply no_restart_in].
Qed.

(** A step that tries a restart from a state with the same window. *)
Lemma trying_budget self self' name times now wall_now published :
  budget_ok self times now → now ≤ wall_now →
  restart_window self' = restart_window self → config self' = config self →
  let '(self'', (restart_actions, restart_publish)) := try_restart self' name wall_now in
  budget_ok self''
    (times ++ repeat wall_now
       (restarts (actions (mkOutcome (P:=DockerPublish) restart_actions (published restart_publish)))))
    wall_now.
Proof.
  intros Hok Hnow Hw Hc.
  pose proof (try_restart_budget self' name times now wall_now
                (budget_same _ _ _ _ _ Hw Hc (Z.le_refl now) Hok) Hnow) as Htry.
  by destruct (try_restart self' name wall_now) as [self'' [restart_actions restart_publish]].
Qed.

Lemma unhealthy_budget self name times now wall_now :
  budget_ok self times now → now ≤ wall_now →
  budget_ok (apply_container_unhealthy self name wall_now).1
    (times ++ repeat wall_now (restarts (actions (apply_container_unhealthy self name wall_now).2))) wall_now.
Proof.
  intros Hok Hnow. unfold apply_container_unhealthy.
  case_match; [case_match; by eapply quiet_budget|]. case_match; [|by eapply quiet_budget].
  match goal with |- context [try_restart ?x name wall_now] =>
    pose proof (trying_budget self x name times now wall_now id Hok Hnow eq_refl eq_refl) as Htry;
    by destruct (try_restart x name wall_now) as [self' [restart_actions restart_publish]] end.
Qed.

Lemma started_budget self name started times now wall_now :
  budget_ok self times now → now ≤ wall_now →
  budget_ok (apply_container_started self name started wall_now).1
    (times ++ repeat wall_now (restarts (actions (apply_container_started self name started wall_now).2)))
    wall_now.
Proof.
  intros Hok Hnow. unfold apply_container_started.
  case_match; [|by eapply quiet_budget]. case_match; [|by eapply quiet_budget].
  case_match; [by eapply quiet_budget|].
  match goal with |- context [try_restart ?x name wall_now] =>
    pose proof (trying_budget self x name times now wall_now id Hok Hnow eq_refl eq_refl) as Htry;
    by destruct (try_restart x name wall_now) as [self' [restart_actions restart_publish]] end.
Qed.

Lemma step_budget self (input : DockerInput) times now :
  budget_ok self times now → now ≤ wall input →
  budget_ok (step self input).1 (times ++ restarts_of input (step self input).2) (wall input).
Proof.
  intros Hok Hnow.
  destruct input as [at_ wall_now [event_at cause []]|at_ wall_now []];
    cbn [step handle handle_command DockerMachine_Machine DockerMachine_handle DockerMachine_handle_command
      timed_inner wall restarts_of] in *;
    eauto using healthy_budget, unhealthy_budget, started_budget, quiet_budget.
  all: cbn; rewrite app_nil_r; by eapply budget_same.
Qed.

Lemma try_restart_config self name now : config (try_restart self name now).1 = config self.
Proof. unfold try_restart. cbn. by repeat case_match. Qed.

Lemma step_config self (input : DockerInput) : config (step self input).1 = config self.
Proof.
  destruct input as [at_ wall_now [event_at cause []]|at_ wall_now []];
    cbn [step handle handle_command DockerMachine_Machine DockerMachine_handle DockerMachine_handle_command
      timed_inner]; try done.
  - unfold apply_container_healthy. case_match; [|done]. case_match; [done|]. cbv zeta.
    match goal with |- context [fold_left ?f ?names ?start] =>
      change f with untrust; exact (proj2 (proj2 (untrust_all_keeps names start))) end.
  - unfold apply_container_unhealthy. case_match; [by case_match|]. case_match; [|done].
    match goal with |- context [try_restart ?x ?name ?now] =>
      pose proof (try_restart_config x name now) as Hc;
      by destruct (try_restart x name now) as [? [? ?]] end.
  - unfold apply_container_started. case_match; [|done]. case_match; [|done]. case_match; [done|].
    match goal with |- context [try_restart ?x ?name ?now] =>
      pose proof (try_restart_config x name now) as Hc;
      by destruct (try_restart x name now) as [? [? ?]] end.
Qed.

(** the restart budget. Whatever happens to the containers, as long as the wall clock does
    not run backwards, the restarts the machine asks for by itself, for dependents in a
    stale network and for unhealthy ones together, are never more than
    [max_restarts_per_window] in any window of the configured length: any one more of them
    in a row take longer than the window. *)
Theorem automatic_restarts_stay_within_the_budget cfg now (inputs : list DockerInput) :
  0 < max_restarts_per_window cfg ≤ u32_max → Sorted Z.le (map wall inputs) →
  spaced (window_of cfg) (Z.to_nat (max_restarts_per_window cfg))
    (automatic_restarts inputs (run (DockerMachine_new cfg now) inputs).2).
Proof.
  intros Hmax Hsorted.
  assert (∀ self times now, budget_ok self times now → config self = cfg →
    Sorted Z.le (now :: map wall inputs) →
    spaced (window_of cfg) (Z.to_nat (max_restarts_per_window cfg))
      (times ++ automatic_restarts inputs (run self inputs).2)) as Hrun.
  { clear Hsorted. induction inputs as [|input inputs IH]; intros self times from Hok Hcfg Hsorted.
    - cbn. rewrite app_nil_r, <-Hcfg. by apply budget_spaced in Hok.
    - rewrite run_cons. unfold automatic_restarts. cbn [snd zip_with concat]. rewrite app_assoc.
      cbn [map] in Hsorted. apply Sorted_inv in Hsorted as [Hrest Hfirst%HdRel_inv].
      apply IH with (wall input); [by eapply step_budget|by rewrite step_config|done]. }
  apply (Hrun _ [] (default 0 (list.head (map wall inputs)))); [|done|].
  - split; [done|by intros i ? ?; rewrite lookup_nil|]. exists []. split; [done|apply Forall_nil_2].
  - constructor; [done|]. destruct inputs; cbn; constructor. lia.
Qed.

(** trust follows the anchor. Whatever events and commands arrive, a container's network is
    trusted only while the anchor is known healthy: the anchor's crash withdraws the trust of
    every container, and none regains it before the anchor is healthy again. *)
Theorem trust_needs_a_healthy_anchor cfg now (inputs : list DockerInput) name :
  let final := (run (DockerMachine_new cfg now) inputs).1 in
  network_trusted (container final name) = true → is_some (anchor_healthy_since final) = true.
Proof.
  cbn zeta. set (final := (run _ _).1). intros Htrusted.
  assert (trust_ok final) as Hok.
  { apply run_invariant; [|by intros; apply step_trust]. intros _ name' entry Hname. cbn in Hname. by rewrite lookup_empty in Hname. }
  destruct (anchor_healthy_since final) eqn:Hsince; [done|].
  by rewrite (container_untrusted _ _ Hok Hsince) in Htrusted.
Qed.

(** ** A sample run *)

Definition docker_event (wall_now : SystemTime) (event : DockerEvent) : DockerInput :=
  Input_Event 0 wall_now (mkTimed 0 (EventCause_External ExternalCause_Unknown) event).
Definition sample_docker : DockerConfig := mkDockerConfig "windlass" 2 (from_secs 10) true.
(** An unhealthy dependent, reported five times in fifteen seconds. *)
Definition sample_storm : list DockerInput :=
  docker_event 0 (DockerEvent_DependentsDiscovered ["qbittorrent"])
  :: map (λ s, docker_event (from_secs s) (DockerEvent_ContainerUnhealthy "qbittorrent")) [1; 2; 3; 4; 15].

Lemma automatic_restarts_stay_within_the_budget_witness :
  automatic_restarts sample_storm (run (DockerMachine_new sample_docker 0) sample_storm).2
    = [from_secs 1; from_secs 2; from_secs 15] ∧
  spaced (from_secs 10) 2 [from_secs 1; from_secs 2; from_secs 15].
Proof.
  assert (automatic_restarts sample_storm (run (DockerMachine_new sample_docker 0) sample_storm).2
    = [from_secs 1; from_secs 2; from_secs 15]) as Htimes by (vm_compute; reflexivity).
  split; [exact Htimes|]. rewrite <-Htimes.
  apply (automatic_restarts_stay_within_the_budget sample_docker 0 sample_storm).
  - vm_compute. split; [reflexivity|discriminate].
  - repeat constructor; vm_compute; discriminate.
Defined.

Lemma trust_needs_a_healthy_anchor_witness :
  ∃ inputs, let final := (run (DockerMachine_new sample_docker 0) inputs).1 in
    network_trusted (container final "qbittorrent") = true ∧
    is_some (anchor_healthy_since final) = true.
Proof.
  exists [docker_event 0 (DockerEvent_DependentsDiscovered ["qbittorrent"]);
          docker_event 5 (DockerEvent_ContainerHealthy "windlass");
          docker_event 7 (DockerEvent_ContainerStarted "qbittorrent" 6)].
  assert (network_trusted (container (run (DockerMachine_new sample_docker 0)
    [docker_event 0 (DockerEvent_DependentsDiscovered ["qbittorrent"]);
     docker_event 5 (DockerEvent_ContainerHealthy "windlass");
     docker_event 7 (DockerEvent_ContainerStarted "qbittorrent" 6)]).1 "qbittorrent") = true) as Htrusted
    by (vm_compute; reflexivity).
  split; [exact Htrusted|]. exact (trust_needs_a_healthy_anchor _ _ _ _ Htrusted).
Defined.

(** A storm is published for every restart that is suppressed, not once. *)
Theorem a_storm_is_published_again_and_again :
  map publishes (run (DockerMachine_new sample_docker 0) sample_storm).2
  = [[]; [DockerPublish_ContainerCrashed "qbittorrent"]; []; [DockerPublish_RestartStorm 2 2];
     [DockerPublish_RestartStorm 2 2]; []].
Proof. vm_compute. reflexivity. Qed.
