(* ===== verification/PocTunnel.v ===== *)
(** * The archived prototype: the tunnel

    The state machine of the prototype's own WireGuard tunnel
    ([POC/windlass-tunnel-core/src/machine.rs]): the boot behind a kill switch, the watch
    over the handshake, the forwarded port, the leak probe and the exit IP. *)

From S2P Require Import Prelude Bytes Text.
From S2P Require Import Describe.
From S2P Require Import PocMachine.

Local Open Scope string_scope.
Local Open Scope Z_scope.
Local Open Scope list_scope.

(** ** Configuration *)

Record TunnelConfig := mkTunnelConfig {
  peer_count : Z;
  handshake_poll_interval : Duration;
  handshake_stall_after : Duration;
  stall_count_before_rotate : Z;
  rotations_before_stuck : option Z;
  port_renewal_basis_points : Z;
  leak_probe_interval : Duration;
  natpmp_failure_threshold : Z;
  exit_ip_failure_threshold : Z;
  exit_ip_query_interval : Duration;
}.

Definition TunnelConfig_default : TunnelConfig := {|
  peer_count := 1;
  handshake_poll_interval := from_secs 30;
  handshake_stall_after := from_mins 3;
  stall_count_before_rotate := 3;
  rotations_before_stuck := None;
  port_renewal_basis_points := 5_000;
  leak_probe_interval := from_hours 6;
  natpmp_failure_threshold := 3;
  exit_ip_failure_threshold := 3;
  exit_ip_query_interval := from_hours 6;
|}.

(** What the types of a configuration's fields allow. *)
Definition config_ok (config : TunnelConfig) : Prop :=
  1 ≤ peer_count config < 2 ^ 32 ∧ 1 ≤ stall_count_before_rotate config ≤ u32_max ∧
  1 ≤ natpmp_failure_threshold config ≤ u32_max ∧ 1 ≤ exit_ip_failure_threshold config ≤ u32_max ∧
  0 < port_renewal_basis_points config ≤ 10_000.

(** ** Events *)

Inductive ExitIpFailure :=
  | ExitIpFailure_Transport (detail : string)
  | ExitIpFailure_HttpStatus (code : Z)
  | ExitIpFailure_Parse (detail : string).
Definition ExitIpFailure_fmt (self : ExitIpFailure) : string :=
  match self with
  | ExitIpFailure_Transport s => say ["transport: "; s]
  | ExitIpFailure_HttpStatus c => say ["HTTP "; num c]
  | ExitIpFailure_Parse s => say ["parse: "; s]
  end.

Inductive InterfaceConfigureFailure :=
  | InterfaceConfigureFailure_LinkAdd (detail : string)
  | InterfaceConfigureFailure_WgSet (detail : string)
  | InterfaceConfigureFailure_AddressAdd (detail : string)
  | InterfaceConfigureFailure_LinkUp (detail : string)
  | InterfaceConfigureFailure_RouteAdd (detail : string)
  | InterfaceConfigureFailure_MtuSet (detail : string)
  | InterfaceConfigureFailure_DnsWrite (detail : string)
  | InterfaceConfigureFailure_Other (detail : string).
Definition InterfaceConfigureFailure_fmt (self : InterfaceConfigureFailure) : string :=
  match self with
  | InterfaceConfigureFailure_LinkAdd s => say ["ip link add: "; s]
  | InterfaceConfigureFailure_WgSet s => say ["wg set: "; s]
  | InterfaceConfigureFailure_AddressAdd s => say ["ip addr add: "; s]
  | InterfaceConfigureFailure_LinkUp s => say ["ip link set up: "; s]
  | InterfaceConfigureFailure_RouteAdd s => say ["ip route add: "; s]
  | InterfaceConfigureFailure_MtuSet s => say ["ip link set mtu: "; s]
  | InterfaceConfigureFailure_DnsWrite s => say ["DNS resolver write: "; s]
  | InterfaceConfigureFailure_Other s => s
  end.

Inductive FirewallInstallFailure :=
  | FirewallInstallFailure_NftMissing (detail : string)
  | FirewallInstallFailure_RulesetRejected (detail : string)
  | FirewallInstallFailure_Other (detail : string).
Definition FirewallInstallFailure_fmt (self : FirewallInstallFailure) : string :=
  match self with
  | FirewallInstallFailure_NftMissing s => say ["nft missing: "; s]
  | FirewallInstallFailure_RulesetRejected s => say ["nft ruleset rejected: "; s]
  | FirewallInstallFailure_Other s => s
  end.

Inductive NatPmpFailure :=
  | NatPmpFailure_Bind (detail : string)
  | NatPmpFailure_Send (detail : string)
  | NatPmpFailure_Timeout
  | NatPmpFailure_Recv (detail : string)
  | NatPmpFailure_GatewayError (code : Z)
  | NatPmpFailure_MalformedResponse (detail : string)
  | NatPmpFailure_PortMismatch (udp_port tcp_port : Z).
Definition NatPmpFailure_fmt (self : NatPmpFailure) : string :=
  match self with
  | NatPmpFailure_Bind s => say ["NAT-PMP socket bind: "; s]
  | NatPmpFailure_Send s => say ["NAT-PMP send: "; s]
  | NatPmpFailure_Timeout => "NAT-PMP gateway timeout"
  | NatPmpFailure_Recv s => say ["NAT-PMP recv: "; s]
  | NatPmpFailure_GatewayError code => say ["NAT-PMP gateway error code "; num code]
  | NatPmpFailure_MalformedResponse s => say ["NAT-PMP malformed response: "; s]
  | NatPmpFailure_PortMismatch udp_port tcp_port =>
      say ["NAT-PMP gateway granted UDP port "; num udp_port; " but TCP port "; num tcp_port]
  end.

Inductive LeakProbeOutcome :=
  | LeakProbeOutcome_NoEgressDetected
  | LeakProbeOutcome_LeakDetected (interface observed_remote : string)
  | LeakProbeOutcome_Inconclusive (reason : string).

Inductive TunnelTimer :=
  | TunnelTimer_HandshakeWatchdog
  | TunnelTimer_PortRenewal
  | TunnelTimer_LeakProbe
  | TunnelTimer_ExitIpQuery.
#[global] Instance TunnelTimer_eq_dec : EqDecision TunnelTimer.
Proof. solve_decision. Defined.

Definition TunnelTimer_name (self : TunnelTimer) : string :=
  match self with
  | TunnelTimer_HandshakeWatchdog => "TunnelTimer::HandshakeWatchdog"
  | TunnelTimer_PortRenewal => "TunnelTimer::PortRenewal"
  | TunnelTimer_LeakProbe => "TunnelTimer::LeakProbe"
  | TunnelTimer_ExitIpQuery => "TunnelTimer::ExitIpQuery"
  end.

Inductive TunnelEvent :=
  | TunnelEvent_Init
  | TunnelEvent_PreTunnelFirewallInstalled
  | TunnelEvent_PreTunnelFirewallInstallFailed (reason : FirewallInstallFailure)
  | TunnelEvent_InterfaceConfigured
  | TunnelEvent_InterfaceConfigureFailed (reason : InterfaceConfigureFailure)
  | TunnelEvent_FirewallInstalled
  | TunnelEvent_FirewallInstallFailed (reason : FirewallInstallFailure)
  | TunnelEvent_HandshakeReported (age_seconds : Z)
  | TunnelEvent_HandshakeStalled
  | TunnelEvent_NatPmpLeaseGranted (external_port lifetime_seconds epoch_seconds : Z)
  | TunnelEvent_NatPmpFailed (reason : NatPmpFailure)
  | TunnelEvent_LeakProbeCompleted (outcome : LeakProbeOutcome)
  | TunnelEvent_ExitIpObserved (ip : VpnIp)
  | TunnelEvent_ExitIpQueryFailed (reason : ExitIpFailure)
  | TunnelEvent_TimerFired (timer : TunnelTimer).

(** ** Answers *)

Inductive TunnelAction :=
  | TunnelAction_InstallPreTunnelFirewall
  | TunnelAction_ConfigureInterface
  | TunnelAction_InstallFirewall
  | TunnelAction_PollHandshake (peer_index : Z)
  | TunnelAction_RequestNatPmp
  | TunnelAction_RotateEndpoint (peer_index : Z)
  | TunnelAction_RunLeakProbe
  | TunnelAction_QueryExitIp
  | TunnelAction_ScheduleTimer (timer : TunnelTimer) (after : Duration).
#[global] Instance TunnelAction_eq_dec : EqDecision TunnelAction.
Proof. solve_decision. Defined.

Inductive TunnelPublish :=
  | TunnelPublish_Up (exit_ip : option VpnIp)
  | TunnelPublish_Down (reason : string) (since : SystemTime)
  | TunnelPublish_Stuck (reason : string) (since : SystemTime) (attempted_recoveries : Z)
  | TunnelPublish_Recovered (exit_ip : option VpnIp)
  | TunnelPublish_PortReady (port : VpnPort)
  | TunnelPublish_PortUnavailable
  | TunnelPublish_LeakDetected (interface observed_remote : string) (exit_ip : option VpnIp)
  | TunnelPublish_PortForwardingDegraded (consecutive_failures : Z) (last_reason : string)
  | TunnelPublish_ExitIpObserved (ip : VpnIp)
  | TunnelPublish_ExitIpVerificationDegraded (consecutive_failures : Z) (last_reason : string).

Inductive TunnelTopic :=
  | TunnelTopic_Health
  | TunnelTopic_Port
  | TunnelTopic_Leak
  | TunnelTopic_PublicIp.

Definition TunnelPublish_topic (self : TunnelPublish) : TunnelTopic :=
  match self with
  | TunnelPublish_Up _ | TunnelPublish_Down _ _ | TunnelPublish_Stuck _ _ _
  | TunnelPublish_Recovered _ => TunnelTopic_Health
  | TunnelPublish_PortReady _ | TunnelPublish_PortUnavailable
  | TunnelPublish_PortForwardingDegraded _ _ => TunnelTopic_Port
  | TunnelPublish_LeakDetected _ _ _ => TunnelTopic_Leak
  | TunnelPublish_ExitIpObserved _ | TunnelPublish_ExitIpVerificationDegraded _ _ =>
      TunnelTopic_PublicIp
  end.

Inductive TunnelCommand :=
  | TunnelCommand_PollHandshakeNow
  | TunnelCommand_RequestPortNow
  | TunnelCommand_RotateEndpointNow
  | TunnelCommand_RunLeakProbeNow.

Inductive RejectionReason :=
  | RejectionReason_NoAlternativePeer
  | RejectionReason_NotYetInitialized.

Inductive TunnelResponse :=
  | TunnelResponse_Accepted
  | TunnelResponse_Rejected (reason : RejectionReason).

Abbreviation Answer := (Outcome TunnelAction TunnelPublish) (only parsing).

(** ** State *)

Inductive TunnelHealth :=
  | TunnelHealth_Initializing
  | TunnelHealth_Connecting
  | TunnelHealth_Up
  | TunnelHealth_Down
  | TunnelHealth_Stuck (attempted_recoveries : Z).
#[global] Instance TunnelHealth_eq_dec : EqDecision TunnelHealth.
Proof. solve_decision. Defined.

Record TunnelMachine := mkTunnelMachine {
  config : TunnelConfig;
  active_peer_index : Z;
  health : TunnelHealth;
  interface_configured : bool;
  firewall_installed : bool;
  pre_tunnel_firewall_installed : bool;
  last_handshake_age_seconds : option Z;
  consecutive_stalls : Z;
  rotation_count : Z;
  consecutive_natpmp_failures : Z;
  forwarded_port : option Z;
  port_published : bool;
  last_natpmp_epoch : option Z;
  port_degraded_published : bool;
  last_exit_ip : option VpnIp;
  consecutive_exit_ip_failures : Z;
  exit_ip_degraded_published : bool;
}.

Definition is_stuck (health : TunnelHealth) : bool :=
  match health with TunnelHealth_Stuck _ => true | _ => false end.

(** ** Delays *)

Definition degraded_edge_crossed (flag : bool) (failures threshold : Z) : bool * bool :=
  let crossed := negb flag && (threshold <=? failures) in
  (flag || crossed, crossed).

Definition lease_renewal_delay (lifetime : Duration) (basis_points : Z) : Duration :=
  let secs := as_secs lifetime * basis_points / 10_000 in from_secs (Z.max secs 1).

Definition backoff_for_attempt (attempt : Z) : Duration :=
  let base := from_secs 5 in
  let cap := from_mins 5 in
  let factor := 2 ^ Z.min (saturating_sub attempt 1) 8 in
  let candidate := duration_saturating_mul base factor in
  Z.min candidate cap.

Definition exit_ip_retry_delay (attempt : Z) (normal_cadence : Duration) : Duration :=
  Z.min (backoff_for_attempt attempt) normal_cadence.

(** ** Operations *)

Definition next_peer_index (self : TunnelMachine) : Z :=
  (active_peer_index self + 1) mod peer_count (config self).

Definition pending_port_ready (self : TunnelMachine) : option TunnelPublish :=
  if port_published self || negb (firewall_installed self) then None
  else
    port ← forwarded_port self;
    TunnelPublish_PortReady <$> VpnPort_try_new port.

(** Publish a held port if it may be published now. *)
Definition publish_port (self : TunnelMachine) : TunnelMachine * list TunnelPublish :=
  match pending_port_ready self with
  | Some publish => ({| self with port_published := true |}, [publish])
  | None => (self, [])
  end.

Definition watchdog (self : TunnelMachine) : TunnelAction :=
  TunnelAction_ScheduleTimer TunnelTimer_HandshakeWatchdog (handshake_poll_interval (config self)).

Definition apply_handshake_stalled (self : TunnelMachine) (wall_now : SystemTime)
    : TunnelMachine * Answer :=
  let self := {| self with consecutive_stalls := saturating_add u32_max (consecutive_stalls self) 1 |} in
  let was_up := health self ==? TunnelHealth_Up in
  if consecutive_stalls self <? stall_count_before_rotate (config self) then
    (self, mkOutcome [watchdog self] [])
  else if is_some_and (rotations_before_stuck (config self)) (λ max, rotation_count self <? max)
          && (1 <? peer_count (config self)) then
    let self := {| self with active_peer_index := next_peer_index self;
                             rotation_count := saturating_add u32_max (rotation_count self) 1;
                             consecutive_stalls := 0 |} in
    let rotate := TunnelAction_RotateEndpoint (active_peer_index self) in
    if was_up then
      let self := {| self with health := TunnelHealth_Down |} in
      (self, mkOutcome [rotate; watchdog self]
               [TunnelPublish_Down "handshake stalled; rotating endpoint" wall_now])
    else (self, mkOutcome [rotate; watchdog self] [])
  else
    let was_stuck := is_stuck (health self) in
    let self := {| self with health := TunnelHealth_Stuck (rotation_count self) |} in
    (self, mkOutcome [watchdog self]
             (if was_stuck then []
              else [TunnelPublish_Stuck "handshake stalled past recovery threshold" wall_now
                      (rotation_count self)])).

Definition TunnelMachine_new (config : TunnelConfig) (_ : Instant) : TunnelMachine :=
  let peers_u32 := peer_count config mod 2 ^ 32 in
  let normalized_rotations := Some
    match rotations_before_stuck config with None => peers_u32 | Some n => Z.min n peers_u32 end in
  {| config := {| config with rotations_before_stuck := normalized_rotations |};
     active_peer_index := 0;
     health := TunnelHealth_Initializing;
     interface_configured := false;
     firewall_installed := false;
     pre_tunnel_firewall_installed := false;
     last_handshake_age_seconds := None;
     consecutive_stalls := 0;
     rotation_count := 0;
     consecutive_natpmp_failures := 0;
     forwarded_port := None;
     port_published := false;
     last_natpmp_epoch := None;
     port_degraded_published := false;
     last_exit_ip := None;
     consecutive_exit_ip_failures := 0;
     exit_ip_degraded_published := false |}.

Definition down (self : TunnelMachine) (reason : string) (wall_now : SystemTime)
    : TunnelMachine * Answer :=
  ({| self with health := TunnelHealth_Down |}, mkOutcome [] [TunnelPublish_Down reason wall_now]).

Definition apply_firewall_installed (self : TunnelMachine) : TunnelMachine * Answer :=
  let self := {| self with firewall_installed := true |} in
  let was_initializing := health self ==? TunnelHealth_Initializing in
  let self := if was_initializing then {| self with health := TunnelHealth_Connecting |} else self in
  let '(self, publishes) := publish_port self in
  (self, mkOutcome
     [TunnelAction_PollHandshake (active_peer_index self);
      TunnelAction_RequestNatPmp;
      TunnelAction_RunLeakProbe;
      TunnelAction_QueryExitIp;
      TunnelAction_ScheduleTimer TunnelTimer_HandshakeWatchdog (handshake_poll_interval (config self));
      TunnelAction_ScheduleTimer TunnelTimer_LeakProbe (leak_probe_interval (config self));
      TunnelAction_ScheduleTimer TunnelTimer_ExitIpQuery (exit_ip_query_interval (config self))]
     publishes).

Definition apply_handshake_reported (self : TunnelMachine) (age_seconds : Z) (wall_now : SystemTime)
    : TunnelMachine * Answer :=
  if negb (interface_configured self) || negb (firewall_installed self) then (self, Outcome_none)
  else if handshake_stall_after (config self) <? from_secs age_seconds then
    apply_handshake_stalled self wall_now
  else
    let self := {| self with last_handshake_age_seconds := Some age_seconds;
                             consecutive_stalls := 0;
                             rotation_count := 0 |} in
    let was_up := health self ==? TunnelHealth_Up in
    let was_stuck := is_stuck (health self) in
    let self := {| self with health := TunnelHealth_Up |} in
    let up := if was_up then [] else [TunnelPublish_Up (last_exit_ip self)] in
    let recovered := if was_stuck then [TunnelPublish_Recovered (last_exit_ip self)] else [] in
    let '(self, port) := publish_port self in
    (self, mkOutcome [] (up ++ recovered ++ port)).

Definition apply_lease_granted (self : TunnelMachine)
    (external_port lifetime_seconds epoch_seconds : Z) : TunnelMachine * Answer :=
  let self := {| self with consecutive_natpmp_failures := 0;
                           port_degraded_published := false;
                           last_natpmp_epoch := Some epoch_seconds |} in
  let port_changed := negb (forwarded_port self ==? Some external_port) in
  let self := {| self with forwarded_port := Some external_port |} in
  let self := if port_changed then {| self with port_published := false |} else self in
  let '(self, publishes) := publish_port self in
  (self, mkOutcome
     [TunnelAction_ScheduleTimer TunnelTimer_PortRenewal
        (lease_renewal_delay (from_secs lifetime_seconds) (port_renewal_basis_points (config self)))]
     publishes).

Definition apply_natpmp_failed (self : TunnelMachine) (reason : NatPmpFailure)
    : TunnelMachine * Answer :=
  let self := {| self with consecutive_natpmp_failures :=
                   saturating_add u32_max (consecutive_natpmp_failures self) 1 |} in
  let '(degraded, crossed) :=
    degraded_edge_crossed (port_degraded_published self) (consecutive_natpmp_failures self)
      (natpmp_failure_threshold (config self)) in
  let self := {| self with port_degraded_published := degraded |} in
  let retry :=
    [TunnelAction_ScheduleTimer TunnelTimer_PortRenewal
       (backoff_for_attempt (consecutive_natpmp_failures self))] in
  if crossed then
    let publish :=
      TunnelPublish_PortForwardingDegraded (consecutive_natpmp_failures self)
        (NatPmpFailure_fmt reason) in
    let held := is_some (forwarded_port self) in
    let lost := if held && port_published self then [TunnelPublish_PortUnavailable] else [] in
    let self := {| self with forwarded_port := None |} in
    let self := if held then {| self with port_published := false |} else self in
    (self, mkOutcome retry (publish :: lost))
  else (self, mkOutcome retry []).

Definition apply_leak_probe (self : TunnelMachine) (outcome : LeakProbeOutcome)
    (wall_now : SystemTime) : TunnelMachine * Answer :=
  let again :=
    [TunnelAction_ScheduleTimer TunnelTimer_LeakProbe (leak_probe_interval (config self))] in
  match outcome with
  | LeakProbeOutcome_NoEgressDetected | LeakProbeOutcome_Inconclusive _ =>
      (self, mkOutcome again [])
  | LeakProbeOutcome_LeakDetected interface observed_remote =>
      let leak := TunnelPublish_LeakDetected interface observed_remote (last_exit_ip self) in
      let was_up := health self ==? TunnelHealth_Up in
      let self := {| self with health := TunnelHealth_Down |} in
      (self, mkOutcome again
               (leak :: if was_up
                        then [TunnelPublish_Down
                                (say ["leak detected via "; interface; " reaching "; observed_remote])
                                wall_now]
                        else []))
  end.

Definition apply_timer (self : TunnelMachine) (timer : TunnelTimer) : TunnelMachine * Answer :=
  let actions :=
    match timer with
    | TunnelTimer_HandshakeWatchdog =>
        [TunnelAction_PollHandshake (active_peer_index self);
         TunnelAction_ScheduleTimer TunnelTimer_HandshakeWatchdog
           (handshake_poll_interval (config self))]
    | TunnelTimer_PortRenewal => [TunnelAction_RequestNatPmp]
    | TunnelTimer_LeakProbe => [TunnelAction_RunLeakProbe]
    | TunnelTimer_ExitIpQuery =>
        [TunnelAction_QueryExitIp;
         TunnelAction_ScheduleTimer TunnelTimer_ExitIpQuery (exit_ip_query_interval (config self))]
    end in
  (self, mkOutcome actions []).

Definition apply_exit_ip_observed (self : TunnelMachine) (ip : VpnIp) : TunnelMachine * Answer :=
  let changed := negb (last_exit_ip self ==? Some ip) in
  let self := {| self with last_exit_ip := Some ip;
                           consecutive_exit_ip_failures := 0;
                           exit_ip_degraded_published := false |} in
  (self, mkOutcome [] (if changed then [TunnelPublish_ExitIpObserved ip] else [])).

Definition apply_exit_ip_failed (self : TunnelMachine) (reason : ExitIpFailure)
    : TunnelMachine * Answer :=
  let self := {| self with consecutive_exit_ip_failures :=
                   saturating_add u32_max (consecutive_exit_ip_failures self) 1 |} in
  let '(degraded, crossed) :=
    degraded_edge_crossed (exit_ip_degraded_published self) (consecutive_exit_ip_failures self)
      (exit_ip_failure_threshold (config self)) in
  let self := {| self with exit_ip_degraded_published := degraded |} in
  (self, mkOutcome
     [TunnelAction_ScheduleTimer TunnelTimer_ExitIpQuery
        (exit_ip_retry_delay (consecutive_exit_ip_failures self)
           (exit_ip_query_interval (config self)))]
     (if crossed then
        [TunnelPublish_ExitIpVerificationDegraded (consecutive_exit_ip_failures self)
           (ExitIpFailure_fmt reason)]
      else [])).

Definition TunnelMachine_handle (self : TunnelMachine) (_ : Instant) (wall_now : SystemTime)
    (event : Timed TunnelEvent) : TunnelMachine * Answer :=
  match timed_inner event with
  | TunnelEvent_Init => (self, mkOutcome [TunnelAction_InstallPreTunnelFirewall] [])
  | TunnelEvent_PreTunnelFirewallInstalled =>
      ({| self with pre_tunnel_firewall_installed := true |},
       mkOutcome [TunnelAction_ConfigureInterface] [])
  | TunnelEvent_PreTunnelFirewallInstallFailed reason =>
      down self (say ["pre-tunnel firewall install failed: "; FirewallInstallFailure_fmt reason]) wall_now
  | TunnelEvent_InterfaceConfigured =>
      ({| self with interface_configured := true |}, mkOutcome [TunnelAction_InstallFirewall] [])
  | TunnelEvent_InterfaceConfigureFailed reason =>
      down self (say ["interface configure failed: "; InterfaceConfigureFailure_fmt reason]) wall_now
  | TunnelEvent_FirewallInstalled => apply_firewall_installed self
  | TunnelEvent_FirewallInstallFailed reason =>
      down self (say ["firewall install failed: "; FirewallInstallFailure_fmt reason]) wall_now
  | TunnelEvent_HandshakeReported age_seconds => apply_handshake_reported self age_seconds wall_now
  | TunnelEvent_HandshakeStalled => apply_handshake_stalled self wall_now
  | TunnelEvent_NatPmpLeaseGranted external_port lifetime_seconds epoch_seconds =>
      apply_lease_granted self external_port lifetime_seconds epoch_seconds
  | TunnelEvent_NatPmpFailed reason => apply_natpmp_failed self reason
  | TunnelEvent_LeakProbeCompleted outcome => apply_leak_probe self outcome wall_now
  | TunnelEvent_ExitIpObserved ip => apply_exit_ip_observed self ip
  | TunnelEvent_ExitIpQueryFailed reason => apply_exit_ip_failed self reason
  | TunnelEvent_TimerFired timer => apply_timer self timer
  end.

Abbreviation Reply := (CommandOutcome TunnelAction TunnelPublish TunnelResponse) (only parsing).

Definition TunnelMachine_handle_command (self : TunnelMachine) (_ : Instant) (_ : SystemTime)
    (cmd : TunnelCommand) : TunnelMachine * Reply :=
  match cmd with
  | TunnelCommand_PollHandshakeNow =>
      (self, outcome [TunnelAction_PollHandshake (active_peer_index self)] TunnelResponse_Accepted)
  | TunnelCommand_RequestPortNow =>
      (self, outcome [TunnelAction_RequestNatPmp] TunnelResponse_Accepted)
  | TunnelCommand_RotateEndpointNow =>
      if peer_count (config self) <=? 1 then
        (self, outcome [] (TunnelResponse_Rejected RejectionReason_NoAlternativePeer))
      else if negb (interface_configured self) then
        (self, outcome [] (TunnelResponse_Rejected RejectionReason_NotYetInitialized))
      else
        let self := {| self with active_peer_index := next_peer_index self;
                                 consecutive_stalls := 0 |} in
        (self, outcome [TunnelAction_RotateEndpoint (active_peer_index self)] TunnelResponse_Accepted)
  | TunnelCommand_RunLeakProbeNow =>
      (self, outcome [TunnelAction_RunLeakProbe] TunnelResponse_Accepted)
  end.

#[global] Instance TunnelMachine_Machine :
    Machine TunnelMachine TunnelConfig TunnelEvent TunnelAction TunnelPublish TunnelCommand
      TunnelResponse := {
  new := TunnelMachine_new;
  handle := TunnelMachine_handle;
  handle_command := TunnelMachine_handle_command;
}.

(** ** What the tunnel promises

    For every sequence of events and commands: the boot order and the kill switch, what the
    rest of the program is told of the forwarded port, the recovery of a stalled tunnel, and
    that the chains of timers and requests never end. *)

Abbreviation TunnelInput := (Input TunnelEvent TunnelCommand) (only parsing).

(** What an answer leaves unchanged, by cases on what reached the machine. *)
Ltac tunnel_cases :=
  repeat match goal with
  | input : Input _ _ |- _ => destruct input as [? ? [? ? []]|? ? []]
  | timer : TunnelTimer |- _ => destruct timer
  | probe : LeakProbeOutcome |- _ => destruct probe
  end.
Ltac tunnel_unfold :=
  cbn [step handle handle_command TunnelMachine_Machine timed_inner];
  unfold TunnelMachine_handle, TunnelMachine_handle_command, down, apply_firewall_installed,
    apply_handshake_reported, apply_handshake_stalled, apply_lease_granted, apply_natpmp_failed,
    apply_leak_probe, apply_timer, apply_exit_ip_observed, apply_exit_ip_failed, publish_port,
    pending_port_ready;
  cbn.
Ltac name_publisher self' :=
  match goal with |- context [publish_port ?x] => set (self' := x) end.

(** ** The port the rest of the program knows *)

(** The port a consumer of the publishes holds. *)
Definition hears (port : option VpnPort) (publish : TunnelPublish) : option VpnPort :=
  match publish with
  | TunnelPublish_PortReady port => Some port
  | TunnelPublish_PortUnavailable => None
  | _ => port
  end.
Definition told (port : option VpnPort) (answers : list (Outcome TunnelAction TunnelPublish))
    : option VpnPort :=
  fold_left (λ port answer, fold_left hears (publishes answer) port) answers port.

(** A grant names a port that can be forwarded. *)
Definition grants_a_port (input : TunnelInput) : Prop :=
  match input with
  | Input_Event _ _ event =>
      match timed_inner event with
      | TunnelEvent_NatPmpLeaseGranted external_port _ _ => 0 < external_port ≤ 65535
      | _ => True
      end
  | Input_Command _ _ _ => True
  end.

Definition port_ok (self : TunnelMachine) : Prop :=
  port_published self = firewall_installed self && is_some (forwarded_port self) ∧
  ∀ port, forwarded_port self = Some port → 0 < port ≤ 65535.

(** The port that may be used: the one held, behind the kill switch. *)
Definition usable_port (self : TunnelMachine) : option VpnPort :=
  if firewall_installed self then forwarded_port self else None.

Lemma VpnPort_valid port : 0 < port ≤ 65535 → VpnPort_try_new port = Some port.
Proof.
  intros [Hl Hu]. unfold VpnPort_try_new.
  by rewrite (proj2 (Z.ltb_lt _ _) Hl), (proj2 (Z.leb_le _ _) Hu).
Qed.

(** A held port that may be told is told. *)
Lemma publish_port_told self port :
  (∀ port, forwarded_port self = Some port → 0 < port ≤ 65535) →
  (port_published self = true →
     firewall_installed self && is_some (forwarded_port self) = true ∧ port = forwarded_port self) →
  (firewall_installed self && is_some (forwarded_port self) = false → port = None) →
  port_ok (publish_port self).1 ∧
  fold_left hears (publish_port self).2 port = usable_port (publish_port self).1.
Proof.
  intros Hvalid Hpublished Hnone. unfold publish_port, pending_port_ready, port_ok, usable_port.
  destruct (port_published self) eqn:Hp; cbn [orb].
  - destruct (Hpublished eq_refl) as [Hboth ->]. apply andb_prop in Hboth as [Hf Hs].
    cbn. by rewrite Hp, Hf, Hs.
  - destruct (firewall_installed self) eqn:Hf; cbn [negb].
    + destruct (forwarded_port self) as [held|] eqn:Hheld; cbn.
      * rewrite VpnPort_valid by eauto. cbn. eauto.
      * rewrite Hp, Hf, Hheld. by rewrite Hnone.
    + cbn. rewrite Hp, Hf. by rewrite Hnone.
Qed.

Definition port_state (self : TunnelMachine) : bool * bool * option Z :=
  (firewall_installed self, port_published self, forwarded_port self).

Lemma port_state_ok self self' :
  port_state self' = port_state self → port_ok self →
  port_ok self' ∧ usable_port self' = usable_port self.
Proof.
  unfold port_state, port_ok, usable_port. intros [= -> -> ->] Hok. done.
Qed.

Definition silent (publishes : list TunnelPublish) : Prop :=
  ∀ port, fold_left hears publishes port = port.

Lemma stalled_tells_nothing self wall_now :
  port_state (apply_handshake_stalled self wall_now).1 = port_state self ∧
  silent (publishes (apply_handshake_stalled self wall_now).2).
Proof. unfold apply_handshake_stalled. cbn. by repeat case_match. Qed.

Lemma firewall_tells self :
  port_ok self →
  port_ok (apply_firewall_installed self).1 ∧
  fold_left hears (publishes (apply_firewall_installed self).2) (usable_port self)
  = usable_port (apply_firewall_installed self).1.
Proof.
  intros [Hpub Hvalid]. unfold apply_firewall_installed.
  name_publisher self'.
  assert (port_state self' = (true, port_published self, forwarded_port self)) as [= Hf Hp Hheld]
    by (subst self'; by case_match).
  pose proof (publish_port_told self' (usable_port self)) as Htold.
  destruct (publish_port self') as [final published] eqn:Hpublish. cbn in *. apply Htold.
  - by rewrite Hheld.
  - rewrite Hp, Hpub, Hf, Hheld. intros [Hf' ->]%andb_prop. unfold usable_port. by rewrite Hf'.
  - rewrite Hf, Hheld. unfold usable_port. by destruct (firewall_installed self), (forwarded_port self).
Qed.

Lemma handshake_tells self age_seconds wall_now :
  port_ok self →
  port_ok (apply_handshake_reported self age_seconds wall_now).1 ∧
  fold_left hears (publishes (apply_handshake_reported self age_seconds wall_now).2) (usable_port self)
  = usable_port (apply_handshake_reported self age_seconds wall_now).1.
Proof.
  intros Hok. unfold apply_handshake_reported. case_match; [done|]. case_match.
  - destruct (stalled_tells_nothing self wall_now) as [Hstate Hsilent].
    destruct (port_state_ok _ _ Hstate Hok) as [? Heq]. by rewrite Hsilent, Heq.
  - name_publisher self'.
    pose proof (publish_port_told self' (usable_port self)) as Htold.
    destruct Hok as [Hpub Hvalid].
    destruct (publish_port self') as [final published] eqn:Hpublish. cbn in *.
    rewrite fold_left_app, fold_left_app.
    replace (fold_left hears (if is_stuck _ then _ else _) _) with (usable_port self)
      by (by repeat case_match).
    unfold usable_port in *. apply Htold; [done| |].
    + rewrite Hpub. intros Hboth. split; [done|]. by apply andb_prop in Hboth as [-> _].
    + by destruct (firewall_installed self), (forwarded_port self).
Qed.

Lemma lease_tells self external_port lifetime_seconds epoch_seconds :
  port_ok self → 0 < external_port ≤ 65535 →
  port_ok (apply_lease_granted self external_port lifetime_seconds epoch_seconds).1 ∧
  fold_left hears
    (publishes (apply_lease_granted self external_port lifetime_seconds epoch_seconds).2)
    (usable_port self)
  = usable_port (apply_lease_granted self external_port lifetime_seconds epoch_seconds).1.
Proof.
  intros [Hpub Hvalid] Hport. unfold apply_lease_granted. name_publisher self'. cbn in self'.
  assert (port_state self'
          = (firewall_installed self, port_published self && (forwarded_port self ==? Some external_port),
             Some external_port)) as [= Hf Hp Hheld].
  { subst self'. unfold port_state.
    destruct (forwarded_port self ==? Some external_port); cbn;
      by rewrite ?andb_true_r, ?andb_false_r. }
  pose proof (publish_port_told self' (usable_port self)) as Htold.
  destruct (publish_port self') as [final published] eqn:Hpublish. cbn in *. apply Htold.
  - rewrite Hheld. by intros ? [= <-].
  - rewrite Hp, Hf, Hheld, Hpub. unfold usable_port.
    intros [[-> _]%andb_prop Heq]%andb_prop. split; [done|]. by apply bool_decide_eq_true in Heq.
  - rewrite Hf, Hheld. unfold usable_port. cbn. rewrite ?andb_true_r. by intros ->.
Qed.

Lemma natpmp_failed_tells self reason :
  port_ok self →
  port_ok (apply_natpmp_failed self reason).1 ∧
  fold_left hears (publishes (apply_natpmp_failed self reason).2) (usable_port self)
  = usable_port (apply_natpmp_failed self reason).1.
Proof.
  intros [Hpub Hvalid]. unfold apply_natpmp_failed, degraded_edge_crossed. cbn.
  destruct (negb _ && _); cbn; [|done].
  unfold port_ok, usable_port. rewrite Hpub.
  by destruct (forwarded_port self), (firewall_installed self).
Qed.

(** Every step tells what changes of the port that may be used, and nothing else. *)
Lemma step_tells_port self (input : TunnelInput) :
  port_ok self → grants_a_port input →
  port_ok (step self input).1 ∧
  fold_left hears (publishes (step self input).2) (usable_port self) = usable_port (step self input).1.
Proof.
  intros Hok Hgrant. destruct input as [now wall_now [at_ cause []]|now wall_now []];
    cbn [step handle TunnelMachine_Machine TunnelMachine_handle timed_inner grants_a_port] in *;
    auto using firewall_tells, handshake_tells, lease_tells, natpmp_failed_tells.
  - destruct (stalled_tells_nothing self wall_now) as [Hstate Hsilent].
    destruct (port_state_ok _ _ Hstate Hok) as [? Heq]. by rewrite Hsilent, Heq.
  - unfold apply_leak_probe. case_match; [done| |done]. cbn. by case_match.
  - unfold apply_exit_ip_observed. cbn. by case_match.
  - unfold apply_exit_ip_failed, degraded_edge_crossed. cbn. by case_match.
  - cbn. destruct (_ <=? 1); [done|]. by destruct (negb _).
Qed.

(** the forwarded port the rest of the prototype knows. Through any sequence of events and
    commands in which the gateway's grants name a port, what [PortReady] and
    [PortUnavailable] have told so far is the port the tunnel holds when its kill switch is
    installed, and no port before that: a port granted early is held back and told when the
    kill switch comes up, a changed port replaces the old one at once, a renewal of the same
    port tells nothing, and a lost port is withdrawn. *)
Theorem the_port_told_is_the_port_held config now (inputs : list TunnelInput) :
  Forall grants_a_port inputs →
  let final := run (TunnelMachine_new config now) inputs in
  told None final.2 = usable_port final.1.
Proof.
  intros Hgrants. cbn zeta.
  assert (∀ self, port_ok self →
    told (usable_port self) (run self inputs).2 = usable_port (run self inputs).1) as Hrun.
  { induction Hgrants as [|input inputs Hgrant _ IH]; intros self Hok; [done|].
    destruct (step_tells_port self input Hok Hgrant) as [Hok' Htold].
    rewrite run_cons. cbn [fst snd]. unfold told in *. cbn [fold_left]. rewrite Htold. by apply IH. }
  by apply (Hrun (TunnelMachine_new config now)).
Qed.

(** ** The kill switch *)

Definition reports (kind : TunnelEvent → bool) (input : TunnelInput) : bool :=
  match input with Input_Event _ _ event => kind (timed_inner event) | Input_Command _ _ _ => false end.
Definition is_pre_tunnel_firewall_installed (event : TunnelEvent) : bool :=
  match event with TunnelEvent_PreTunnelFirewallInstalled => true | _ => false end.
Definition is_interface_configured (event : TunnelEvent) : bool :=
  match event with TunnelEvent_InterfaceConfigured => true | _ => false end.
Definition is_firewall_installed (event : TunnelEvent) : bool :=
  match event with TunnelEvent_FirewallInstalled => true | _ => false end.

Definition is_port_ready (publish : TunnelPublish) : bool :=
  match publish with TunnelPublish_PortReady _ => true | _ => false end.
Definition is_health_good (publish : TunnelPublish) : bool :=
  match publish with TunnelPublish_Up _ | TunnelPublish_Recovered _ => true | _ => false end.

Definition asks (action : TunnelAction) (answer : Outcome TunnelAction TunnelPublish) : bool :=
  existsb (λ asked, asked ==? action) (actions answer).
Definition tells (kind : TunnelPublish → bool) (answer : Outcome TunnelAction TunnelPublish) : bool :=
  existsb kind (publishes answer).

(** What a step may answer, and the flags it sets. *)
Definition gated (self : TunnelMachine) (input : TunnelInput) (self' : TunnelMachine)
    (answer : Outcome TunnelAction TunnelPublish) : Prop :=
  interface_configured self' = interface_configured self || reports is_interface_configured input ∧
  firewall_installed self' = firewall_installed self || reports is_firewall_installed input ∧
  (asks TunnelAction_ConfigureInterface answer = true →
     reports is_pre_tunnel_firewall_installed input = true) ∧
  (asks TunnelAction_InstallFirewall answer = true → reports is_interface_configured input = true) ∧
  (tells is_health_good answer = true →
     interface_configured self = true ∧ firewall_installed self = true) ∧
  (tells is_port_ready answer = true → firewall_installed self' = true).

Lemma publish_port_gated self :
  interface_configured (publish_port self).1 = interface_configured self ∧
  firewall_installed (publish_port self).1 = firewall_installed self ∧
  existsb is_health_good (publish_port self).2 = false ∧
  (existsb is_port_ready (publish_port self).2 = true → firewall_installed self = true).
Proof.
  unfold publish_port, pending_port_ready.
  destruct (port_published self); [done|]. destruct (firewall_installed self) eqn:Hf; cbn; [|done].
  destruct (forwarded_port self) as [port|]; cbn; [|by rewrite Hf].
  unfold VpnPort_try_new. destruct (_ && _); cbn; by rewrite ?Hf.
Qed.

Lemma stalled_gated self wall_now :
  interface_configured (apply_handshake_stalled self wall_now).1 = interface_configured self ∧
  firewall_installed (apply_handshake_stalled self wall_now).1 = firewall_installed self ∧
  asks TunnelAction_ConfigureInterface (apply_handshake_stalled self wall_now).2 = false ∧
  asks TunnelAction_InstallFirewall (apply_handshake_stalled self wall_now).2 = false ∧
  tells is_health_good (apply_handshake_stalled self wall_now).2 = false ∧
  tells is_port_ready (apply_handshake_stalled self wall_now).2 = false.
Proof. unfold apply_handshake_stalled. cbn. by repeat case_match. Qed.

Ltac gated_by_computing :=
  unfold gated, asks, tells; cbn; rewrite ?orb_false_r, ?orb_true_r; repeat split; done.

Lemma gated_publishing self input before published actions :
  interface_configured before = interface_configured self || reports is_interface_configured input →
  firewall_installed before = firewall_installed self || reports is_firewall_installed input →
  asks TunnelAction_ConfigureInterface (mkOutcome actions []) = false →
  asks TunnelAction_InstallFirewall (mkOutcome actions []) = false →
  (existsb is_health_good published = true →
     interface_configured self = true ∧ firewall_installed self = true) →
  existsb is_port_ready published = false →
  gated self input (publish_port before).1 (mkOutcome actions (published ++ (publish_port before).2)).
Proof.
  intros Hi Hf Hc Hinstall Hgood Hready.
  destruct (publish_port_gated before) as (Hi' & Hf' & Hgood' & Hready').
  unfold gated, asks, tells in *. cbn in *. rewrite Hc, Hinstall, !existsb_app, Hi', Hf', Hgood', Hready.
  rewrite orb_false_r. by split_and?.
Qed.

Lemma step_gated self (input : TunnelInput) :
  gated self input (step self input).1 (step self input).2.
Proof.
  destruct input as [now wall_now [at_ cause []]|now wall_now []];
    cbn [step handle TunnelMachine_Machine TunnelMachine_handle timed_inner];
    try gated_by_computing.
  - unfold apply_firewall_installed. name_publisher before. cbn in before.
    assert (interface_configured before = interface_configured self ∧ firewall_installed before = true)
      as [Hi Hf] by (subst before; by case_match).
    rewrite (surjective_pairing (publish_port before)). cbn [fst snd].
    apply (gated_publishing self _ before []); cbn; rewrite ?orb_false_r, ?orb_true_r; done.
  - unfold apply_handshake_reported.
    destruct (interface_configured self) eqn:Hi, (firewall_installed self) eqn:Hf; cbn [orb negb];
      try (unfold gated; cbn; rewrite Hi, Hf; done).
    case_match.
    + destruct (stalled_gated self wall_now) as (Hi' & Hf' & Hc & Hinstall & Hgood & Hready).
      unfold gated. rewrite Hi', Hf', Hc, Hinstall, Hgood, Hready. by cbn; rewrite ?orb_false_r.
    + name_publisher before. cbn in before.
      rewrite (surjective_pairing (publish_port before)). cbn [fst snd]. rewrite app_assoc.
      apply gated_publishing; cbn; rewrite ?Hi, ?Hf; try done.
      by repeat case_match.
  - destruct (stalled_gated self wall_now) as (Hi' & Hf' & Hc & Hinstall & Hgood & Hready).
    unfold gated. rewrite Hi', Hf', Hc, Hinstall, Hgood, Hready. by cbn; rewrite ?orb_false_r.
  - unfold apply_lease_granted. name_publisher before. cbn in before.
    assert (interface_configured before = interface_configured self ∧
            firewall_installed before = firewall_installed self)
      as [Hi Hf] by (subst before; by case_match).
    rewrite (surjective_pairing (publish_port before)). cbn [fst snd].
    apply (gated_publishing self _ before []); cbn; rewrite ?orb_false_r; done.
  - unfold apply_natpmp_failed, degraded_edge_crossed. cbn.
    destruct (negb _ && _); [|gated_by_computing].
    destruct (is_some _), (port_published self); gated_by_computing.
  - unfold apply_leak_probe. case_match; [gated_by_computing| |gated_by_computing].
    case_match; gated_by_computing.
  - unfold apply_exit_ip_observed. cbn. case_match; gated_by_computing.
  - unfold apply_exit_ip_failed, degraded_edge_crossed. cbn. case_match; gated_by_computing.
  - unfold apply_timer. case_match; gated_by_computing.
  - cbn. destruct (_ <=? 1); [gated_by_computing|]. destruct (negb _); gated_by_computing.
Qed.

Lemma run_flags self (inputs : list TunnelInput) :
  interface_configured (run self inputs).1
  = interface_configured self || existsb (reports is_interface_configured) inputs ∧
  firewall_installed (run self inputs).1
  = firewall_installed self || existsb (reports is_firewall_installed) inputs.
Proof.
  revert self. induction inputs as [|input inputs IH]; intros self.
  - cbn. by rewrite !orb_false_r.
  - rewrite run_cons. cbn [fst existsb]. destruct (IH (step self input).1) as [-> ->].
    destruct (step_gated self input) as (-> & -> & _). by rewrite !orb_assoc.
Qed.

(** C32: the boot is fenced. Whatever events and commands arrive in whatever order, the tunnel
    asks for the interface to be configured only once the firewall of the boot has been
    reported installed, asks for the kill switch only once the interface has been
    reported configured, calls the tunnel up or recovered only after both the interface
    and the kill switch were reported in place, and names a forwarded port only
    after the kill switch was. A failed or missing step of the boot therefore never ends in
    traffic outside the tunnel. *)
Theorem the_boot_is_fenced config now (inputs : list TunnelInput) (i : nat) answer :
  (run (TunnelMachine_new config now) inputs).2 !! i = Some answer →
  let reported kind n := existsb (reports kind) (take n inputs) = true in
  (asks TunnelAction_ConfigureInterface answer = true →
     reported is_pre_tunnel_firewall_installed (S i)) ∧
  (asks TunnelAction_InstallFirewall answer = true → reported is_interface_configured (S i)) ∧
  (tells is_health_good answer = true →
     reported is_interface_configured i ∧ reported is_firewall_installed i) ∧
  (tells is_port_ready answer = true → reported is_firewall_installed (S i)).
Proof.
  intros (input & Hinput & Hstep)%run_answer. cbn zeta.
  pose proof (step_gated (run (TunnelMachine_new config now) (take i inputs)).1 input) as Hgated.
  rewrite Hstep in Hgated. cbn in Hgated.
  destruct Hgated as (_ & _ & Hconfigure & Hinstall & Hgood & Hready).
  rewrite !(proj1 (run_flags _ _)), !(proj2 (run_flags _ _)) in *. cbn in *.
  assert (∀ kind, reports kind input = true → existsb (reports kind) (take (S i) inputs) = true) as Hlast.
  { intros kind Hkind. rewrite (take_S_r _ _ _ Hinput), existsb_app. cbn. by rewrite Hkind, orb_true_r. }
  split_and?; eauto.
Qed.

(** ** The chains that watch the tunnel *)

#[global] Instance TunnelTimer_countable : Countable TunnelTimer.
Proof.
  refine (inj_countable'
    (λ timer, match timer with
              | TunnelTimer_HandshakeWatchdog => 0%nat
              | TunnelTimer_PortRenewal => 1%nat
              | TunnelTimer_LeakProbe => 2%nat
              | TunnelTimer_ExitIpQuery => 3%nat
              end)
    (λ n, match n with
          | 0%nat => TunnelTimer_HandshakeWatchdog
          | 1%nat => TunnelTimer_PortRenewal
          | 2%nat => TunnelTimer_LeakProbe
          | _ => TunnelTimer_ExitIpQuery
          end) _).
  by intros [].
Defined.

(** The machine and what its shell has under way: a timer waits at most once, since
    [KeyedTimers] replaces a pending timer of the same key; every request is answered by one
    event. *)
Record Loop := mkLoop {
  machine : TunnelMachine;
  pending : gset TunnelTimer;
  leases_asked : nat;
  probes_asked : nat;
}.

Definition carry_out (loop : Loop) (action : TunnelAction) : Loop :=
  match action with
  | TunnelAction_ScheduleTimer timer _ => {| loop with pending := {[timer]} ∪ pending loop |}
  | TunnelAction_RequestNatPmp => {| loop with leases_asked := S (leases_asked loop) |}
  | TunnelAction_RunLeakProbe => {| loop with probes_asked := S (probes_asked loop) |}
  | _ => loop
  end.

Definition react (loop : Loop) (input : TunnelInput) : Loop :=
  let '(self, answer) := step (machine loop) input in
  fold_left carry_out (actions answer) {| loop with machine := self |}.

Definition is_timer (event : TunnelEvent) : bool :=
  match event with TunnelEvent_TimerFired _ => true | _ => false end.
Definition is_lease_answer (event : TunnelEvent) : bool :=
  match event with
  | TunnelEvent_NatPmpLeaseGranted _ _ _ | TunnelEvent_NatPmpFailed _ => true
  | _ => false
  end.
Definition is_probe_answer (event : TunnelEvent) : bool :=
  match event with TunnelEvent_LeakProbeCompleted _ => true | _ => false end.

(** What can happen next: a pending timer fires, a request is answered in any way, and
    anything else, at any time. *)
Inductive happens : Loop → Loop → Prop :=
  | fires loop now wall_now at_ cause timer :
      timer ∈ pending loop →
      happens loop
        (react {| loop with pending := pending loop ∖ {[timer]} |}
           (Input_Event now wall_now (mkTimed at_ cause (TunnelEvent_TimerFired timer))))
  | answers_lease loop n now wall_now event :
      leases_asked loop = S n → is_lease_answer (timed_inner event) = true →
      happens loop (react {| loop with leases_asked := n |} (Input_Event now wall_now event))
  | answers_probe loop n now wall_now event :
      probes_asked loop = S n → is_probe_answer (timed_inner event) = true →
      happens loop (react {| loop with probes_asked := n |} (Input_Event now wall_now event))
  | anything loop input :
      reports is_timer input = false → reports is_lease_answer input = false →
      reports is_probe_answer input = false →
      happens loop (react loop input).

(** Every chain has its next link: a timer that waits or a request under way. *)
Definition watched (loop : Loop) : Prop :=
  TunnelTimer_HandshakeWatchdog ∈ pending loop ∧
  TunnelTimer_ExitIpQuery ∈ pending loop ∧
  (TunnelTimer_LeakProbe ∈ pending loop ∨ (0 < probes_asked loop)%nat) ∧
  (TunnelTimer_PortRenewal ∈ pending loop ∨ (0 < leases_asked loop)%nat).

Definition schedules (timer : TunnelTimer) (actions : list TunnelAction) : bool :=
  existsb (λ action, match action with
                     | TunnelAction_ScheduleTimer scheduled _ => scheduled ==? timer
                     | _ => false
                     end) actions.

Lemma carry_out_grows actions loop :
  machine (fold_left carry_out actions loop) = machine loop ∧
  pending loop ⊆ pending (fold_left carry_out actions loop) ∧
  (leases_asked loop ≤ leases_asked (fold_left carry_out actions loop))%nat ∧
  (probes_asked loop ≤ probes_asked (fold_left carry_out actions loop))%nat.
Proof.
  revert loop. induction actions as [|action actions IH]; intros loop; cbn [fold_left]; [done|].
  destruct (IH (carry_out loop action)) as (-> & Hp & Hl & Hr).
  assert (machine (carry_out loop action) = machine loop ∧ pending loop ⊆ pending (carry_out loop action) ∧
    (leases_asked loop ≤ leases_asked (carry_out loop action))%nat ∧
    (probes_asked loop ≤ probes_asked (carry_out loop action))%nat) as (-> & ? & ? & ?).
  { destruct action; cbn; split_and?; done || lia || apply union_subseteq_r. }
  split_and?; [done|by etrans|lia|lia].
Qed.

Lemma scheduled_pends actions loop timer :
  schedules timer actions = true → timer ∈ pending (fold_left carry_out actions loop).
Proof.
  revert loop. induction actions as [|action actions IH]; intros loop; cbn [fold_left]; [done|].
  cbn. intros [Hhead|Hlater]%orb_prop; [|by apply IH].
  destruct action; try done. apply bool_decide_eq_true in Hhead as ->.
  apply (carry_out_grows actions). cbn. apply elem_of_union_l, elem_of_singleton_2. done.
Qed.

Lemma lease_asked actions loop :
  existsb (λ action, action ==? TunnelAction_RequestNatPmp) actions = true →
  (0 < leases_asked (fold_left carry_out actions loop))%nat.
Proof.
  revert loop. induction actions as [|action actions IH]; intros loop; cbn [fold_left]; [done|].
  cbn [existsb]. intros [->%bool_decide_eq_true|Hlater]%orb_prop; [|by apply IH].
  pose proof (carry_out_grows actions (carry_out loop TunnelAction_RequestNatPmp)). cbn in *. lia.
Qed.

Lemma probe_asked actions loop :
  existsb (λ action, action ==? TunnelAction_RunLeakProbe) actions = true →
  (0 < probes_asked (fold_left carry_out actions loop))%nat.
Proof.
  revert loop. induction actions as [|action actions IH]; intros loop; cbn [fold_left]; [done|].
  cbn [existsb]. intros [->%bool_decide_eq_true|Hlater]%orb_prop; [|by apply IH].
  pose proof (carry_out_grows actions (carry_out loop TunnelAction_RunLeakProbe)). cbn in *. lia.
Qed.

(** What reacting keeps, and the links it adds. *)
Lemma react_grows loop input :
  let answer := (step (machine loop) input).2 in
  pending loop ⊆ pending (react loop input) ∧
  (leases_asked loop ≤ leases_asked (react loop input))%nat ∧
  (probes_asked loop ≤ probes_asked (react loop input))%nat ∧
  (∀ timer, schedules timer (actions answer) = true → timer ∈ pending (react loop input)) ∧
  (asks TunnelAction_RequestNatPmp answer = true → (0 < leases_asked (react loop input))%nat) ∧
  (asks TunnelAction_RunLeakProbe answer = true → (0 < probes_asked (react loop input))%nat).
Proof.
  cbn zeta. unfold react, asks. destruct (step (machine loop) input) as [self answer]. cbn [snd].
  destruct (carry_out_grows (actions answer) {| loop with machine := self |}) as (_ & Hp & Hl & Hr).
  split_and?; auto using scheduled_pends, lease_asked, probe_asked.
Qed.

Lemma starting_watches loop now wall_now at_ cause :
  watched
    (react loop (Input_Event now wall_now (mkTimed at_ cause TunnelEvent_FirewallInstalled))).
Proof.
  set (input := Input_Event _ _ _).
  destruct (react_grows loop input) as (_ & _ & _ & Ht & Hl & Hr).
  assert (∃ peer first second third,
    actions (step (machine loop) input).2
    = [TunnelAction_PollHandshake peer; TunnelAction_RequestNatPmp; TunnelAction_RunLeakProbe;
       TunnelAction_QueryExitIp; TunnelAction_ScheduleTimer TunnelTimer_HandshakeWatchdog first;
       TunnelAction_ScheduleTimer TunnelTimer_LeakProbe second;
       TunnelAction_ScheduleTimer TunnelTimer_ExitIpQuery third]) as (peer & first & second & third & Heq).
  { cbn. unfold apply_firewall_installed. name_publisher before. destruct (publish_port before).
    cbn. eauto. }
  unfold asks, watched in *. rewrite Heq in *. split_and?; auto.
Qed.

Lemma fired_goes_on self now wall_now at_ cause timer :
  let answer :=
    (step self (Input_Event now wall_now (mkTimed at_ cause (TunnelEvent_TimerFired timer)))).2 in
  match timer with
  | TunnelTimer_HandshakeWatchdog | TunnelTimer_ExitIpQuery => schedules timer (actions answer) = true
  | TunnelTimer_PortRenewal => asks TunnelAction_RequestNatPmp answer = true
  | TunnelTimer_LeakProbe => asks TunnelAction_RunLeakProbe answer = true
  end.
Proof. by destruct timer. Qed.

Lemma answer_goes_on self now wall_now event :
  let answer := (step self (Input_Event now wall_now event)).2 in
  (is_lease_answer (timed_inner event) = true →
     schedules TunnelTimer_PortRenewal (actions answer) = true) ∧
  (is_probe_answer (timed_inner event) = true →
     schedules TunnelTimer_LeakProbe (actions answer) = true).
Proof.
  destruct event as [at_ cause []]; cbn [step handle TunnelMachine_Machine TunnelMachine_handle
    timed_inner is_lease_answer is_probe_answer]; split; try done; intros _.
  - unfold apply_lease_granted. name_publisher before. by destruct (publish_port before).
  - unfold apply_natpmp_failed, degraded_edge_crossed. cbn. by destruct (negb _ && _).
  - unfold apply_leak_probe. by case_match.
Qed.

Lemma happens_watched loop loop' : happens loop loop' → watched loop → watched loop'.
Proof.
  intros [loop1 now wall_now at_ cause timer Hpending|loop1 n now wall_now event Hn Hkind
         |loop1 n now wall_now event Hn Hkind|loop1 input _ _ _] (Hw & He & Hp & Hl); unfold watched.
  - set (before := {| loop1 with pending := _ |}). set (input := Input_Event _ _ _).
    destruct (react_grows before input) as (Hpend & Hleases & Hprobes & Ht & Hlease & Hprobe).
    pose proof (fired_goes_on (machine loop1) now wall_now at_ cause timer) as Hon.
    assert (∀ other, other ≠ timer → other ∈ pending loop1 → other ∈ pending (react before input)) as Hkeep.
    { intros other ??. apply Hpend. cbn. set_solver. }
    destruct timer; cbn zeta in Hon; split_and?;
      try (by apply Hkeep); try (by apply Ht);
      try (by right; auto);
      match goal with H : _ ∨ _ |- _ ∨ _ => destruct H; [left; by apply Hkeep|right; cbn in *; lia] end.
  - set (before := {| loop1 with leases_asked := _ |}). set (input := Input_Event _ _ _).
    destruct (react_grows before input) as (Hpend & Hleases & Hprobes & Ht & Hlease & Hprobe).
    pose proof (proj1 (answer_goes_on (machine loop1) now wall_now event) Hkind) as Hon.
    split_and?; [by apply Hpend|by apply Hpend| |left; by apply Ht].
    destruct Hp; [left; by apply Hpend|right; cbn in *; lia].
  - set (before := {| loop1 with probes_asked := _ |}). set (input := Input_Event _ _ _).
    destruct (react_grows before input) as (Hpend & Hleases & Hprobes & Ht & Hlease & Hprobe).
    pose proof (proj2 (answer_goes_on (machine loop1) now wall_now event) Hkind) as Hon.
    split_and?; [by apply Hpend|by apply Hpend|left; by apply Ht|].
    destruct Hl; [left; by apply Hpend|right; cbn in *; lia].
  - destruct (react_grows loop1 input) as (Hpend & Hleases & Hprobes & _).
    split_and?; [by apply Hpend|by apply Hpend| |].
    + destruct Hp; [left; by apply Hpend|right; lia].
    + destruct Hl; [left; by apply Hpend|right; lia].
Qed.

(** C33: once the tunnel has been started, nothing it watches is ever forgotten. From the
    moment the kill switch has been reported installed, through whatever happens next in
    whatever order (timers firing, requests answered with success or failure, stalls, leaks,
    commands, reports of the boot repeated), the watch over the handshake and the query of
    the exit IP each have a timer waiting, the leak probe is either waiting or under way, and so
    is the renewal of the port. No chain of timers dies and none depends on a
    request that was never made. *)
Theorem the_tunnel_stays_watched loop loop' now wall_now at_ cause :
  rtc happens
    (react loop (Input_Event now wall_now (mkTimed at_ cause TunnelEvent_FirewallInstalled))) loop' →
  watched loop'.
Proof.
  intros Hhappens. refine (rtc_ind_r _ _ _ _ loop' Hhappens); [apply starting_watches|].
  intros loop1 loop2 _ Hstep. by apply happens_watched.
Qed.

(** ** A sample run *)

Definition at_once (event : TunnelEvent) : TunnelInput :=
  Input_Event 0 0 (mkTimed 0 (EventCause_External ExternalCause_Unknown) event).
Definition sample_boot : list TunnelInput :=
  at_once <$>
    [TunnelEvent_Init; TunnelEvent_PreTunnelFirewallInstalled; TunnelEvent_InterfaceConfigured;
     TunnelEvent_NatPmpLeaseGranted 40_000 60 1; TunnelEvent_FirewallInstalled;
     TunnelEvent_HandshakeReported 5; TunnelEvent_NatPmpLeaseGranted 40_001 60 2].

Lemma the_port_told_is_the_port_held_witness :
  Forall grants_a_port sample_boot ∧
  told None (run (TunnelMachine_new TunnelConfig_default 0) sample_boot).2 = Some 40_001.
Proof.
  assert (Forall grants_a_port sample_boot) as Hgrants
    by (repeat apply Forall_cons_2; cbn; try done; apply Forall_nil_2).
  split; [exact Hgrants|].
  rewrite (the_port_told_is_the_port_held TunnelConfig_default 0 sample_boot Hgrants).
  vm_compute. reflexivity.
Defined.

Lemma the_boot_is_fenced_witness :
  ∃ answer, (run (TunnelMachine_new TunnelConfig_default 0) sample_boot).2 !! 5%nat = Some answer ∧
  tells is_health_good answer = true ∧
  existsb (reports is_firewall_installed) (take 5 sample_boot) = true.
Proof.
  exists (mkOutcome [] [TunnelPublish_Up None]). split; [vm_compute; reflexivity|].
  split; [vm_compute; reflexivity|].
  destruct (the_boot_is_fenced TunnelConfig_default 0 sample_boot 5 (mkOutcome [] [TunnelPublish_Up None]))
    as (_ & _ & Hgood & _); [vm_compute; reflexivity|].
  apply Hgood. vm_compute. reflexivity.
Defined.

Lemma the_tunnel_stays_watched_witness :
  ∃ loop, rtc happens
    (react (mkLoop (TunnelMachine_new TunnelConfig_default 0) ∅ 0 0)
       (at_once TunnelEvent_FirewallInstalled)) loop ∧ loop.(leases_asked) = 0%nat ∧ watched loop.
Proof.
  set (start := react _ _).
  set (answered := react {| start with leases_asked := 0%nat |}
                     (at_once (TunnelEvent_NatPmpFailed NatPmpFailure_Timeout))).
  assert (rtc happens start answered) as Hrun.
  { eapply rtc_l; [|apply rtc_refl]. by apply answers_lease. }
  exists answered. split; [exact Hrun|]. split; [reflexivity|].
  exact (the_tunnel_stays_watched (mkLoop (TunnelMachine_new TunnelConfig_default 0) ∅ 0 0) answered
           0 0 0 (EventCause_External ExternalCause_Unknown) Hrun).
Defined.

(** A gateway that grants port 0, which no consumer can be told, leaves the port told before
    in place: it is neither replaced nor withdrawn. *)
Theorem a_grant_of_port_zero_leaves_a_stale_port :
  let '(self, answers) :=
    run (TunnelMachine_new TunnelConfig_default 0)
      (sample_boot ++ [at_once (TunnelEvent_NatPmpLeaseGranted 0 60 3)]) in
  told None answers = Some 40_001 ∧ forwarded_port self = Some 0 ∧ port_published self = false.
Proof. vm_compute. done. Qed.

(** ** Delays *)

(** Retries wait between five seconds and five minutes, and never less than before. *)
Theorem retries_are_bounded attempt attempt' :
  0 ≤ attempt ≤ attempt' → attempt' ≤ u32_max →
  from_secs 5 ≤ backoff_for_attempt attempt ≤ backoff_for_attempt attempt' ∧
  backoff_for_attempt attempt' ≤ from_mins 5.
Proof.
  intros Hle Hmax. unfold backoff_for_attempt, saturating_sub.
  assert (∀ n, 0 ≤ n → 1 ≤ 2 ^ Z.min n 8 ≤ 256) as Hpow.
  { intros n Hn. split; [apply (Z.pow_le_mono_r 2 0); lia|apply (Z.pow_le_mono_r 2 _ 8); lia]. }
  assert (2 ^ Z.min (Z.max (attempt - 1) 0) 8 ≤ 2 ^ Z.min (Z.max (attempt' - 1) 0) 8)
    by (apply Z.pow_le_mono_r; lia).
  pose proof (Hpow (Z.max (attempt - 1) 0)). pose proof (Hpow (Z.max (attempt' - 1) 0)).
  assert (from_secs 5 * 256 ≤ DURATION_MAX) by (vm_compute; done).
  unfold duration_saturating_mul, from_mins, from_secs, NANOS_PER_SEC in *. lia.
Qed.
