(* ===== verification/PocNet.v ===== *)
(** * The archived prototype: the tunnel's shell

    What carries out the tunnel's actions ([POC/windlass-net]): the runner of commands
    ([src/command.rs]), the configuration of the interface, the firewall and the probes
    ([src/shell.rs], [probe.rs], [handshake.rs]), and the NAT-PMP client ([natpmp.rs]). Work is a
    script: a request to the system, and what follows each reply. Then what holds whatever
    the system replies: the keys of the configuration reach only the standard input of [wg], an
    interface whose configuration fails is taken down again, the default route moves only
    after the way to every peer is pinned, and the kill switch lets nothing else out. *)

From S2P Require Import Prelude Bytes Text.
From stdpp Require Import strings.
From S2P Require Import Values.
From S2P Require Import Address.
From S2P Require Import Json.
From S2P Require Import Describe.
From S2P Require Import PocMachine.
From S2P Require Import PocConfig PocTunnel.
Import PortMapping.

Local Open Scope string_scope.
Local Open Scope Z_scope.
Local Open Scope list_scope.

(** ** Scripts *)

(** What a finished process leaves; a signal leaves no exit code. *)
Record Output := mkOutput {
  status_code : option Z;
  output_stdout : bytes;
  output_stderr : bytes;
}.
(** A process, or the error that it could not be started, fed or waited for. *)
Abbreviation Process := (Result Output string) (only parsing).

(** What arrives at a socket until the deadline, and the error that ends the wait sooner. *)
Record Arrivals := mkArrivals {
  datagrams : list bytes;
  receive_error : option string;
}.

(** An HTTP answer and its body, which may not be readable, or the error of the request. *)
Abbreviation Fetched := (Result (Z * Result string string) string) (only parsing).

Inductive Request :=
  | Request_Gate (core : CoreId) (method url : string)
  | Request_Observe (core : CoreId) (exchange : HttpExchange)
  | Request_Spawn (program : string) (args : list string) (stdin : option string)
  | Request_Now
  | Request_Bind
  | Request_Connect (gateway : SocketAddr)
  | Request_Send (datagram : bytes)
  | Request_Receive (timeout : Duration)
  | Request_Get (url : string)
  | Request_BoundConnect (interface host : string) (port : Z) (timeout : Duration).

Definition Reply (request : Request) : Type :=
  match request with
  | Request_Gate _ _ _ | Request_Observe _ _ => unit
  | Request_Spawn _ _ _ => Process
  | Request_Now => SystemTime
  | Request_Bind | Request_Connect _ | Request_Send _ => Result () string
  | Request_Receive _ => Arrivals
  | Request_Get _ => Fetched
  | Request_BoundConnect _ _ _ _ => bool
  end.

Inductive Script (A : Type) :=
  | Return (x : A)
  | Step (request : Request) (next : Reply request → Script A).
Arguments Return {A}. Arguments Step {A}.

Fixpoint and_then {A B} (script : Script A) (k : A → Script B) : Script B :=
  match script with
  | Return x => k x
  | Step request next => Step request (λ reply, and_then (next reply) k)
  end.
#[global] Instance Script_ret : MRet Script := @Return.
#[global] Instance Script_bind : MBind Script := λ A B k script, and_then script k.

Definition ask (request : Request) : Script (Reply request) := Step request Return.

(** An asynchronous function that may fail, and the [?] operator. *)
Definition Attempt (E A : Type) : Type := Script (Result A E).
Definition try {E A B} (attempt : Attempt E A) (k : A → Attempt E B) : Attempt E B :=
  and_then attempt (λ outcome, match outcome with Ok x => k x | Err e => Return (Err e) end).
Definition attempt_map_err {E F A} (f : E → F) (attempt : Attempt E A) : Attempt F A :=
  and_then attempt (λ outcome, Return (map_err f outcome)).
Definition of_result {E A} (result : Result A E) : Attempt E A := Return result.
Fixpoint try_each {E A} (f : A → Attempt E ()) (l : list A) : Attempt E () :=
  match l with
  | [] => Return (Ok ())
  | x :: l => try (f x) (λ _, try_each f l)
  end.

(** ** Commands *)

Record CommandOutcome := mkCommandOutcome {
  stdout : string;
  stderr : string;
  exit_code : Z;
}.

Inductive CommandError :=
  | CommandError_Spawn (program source : string)
  | CommandError_NonZeroExit (program : string) (code : Z) (stderr : string)
  | CommandError_Signal (program : string).
Definition CommandError_fmt (self : CommandError) : string :=
  match self with
  | CommandError_Spawn program source => say ["failed to spawn `"; program; "`: "; source]
  | CommandError_NonZeroExit program code stderr =>
      say ["`"; program; "` exited with code "; num code; ": "; stderr]
  | CommandError_Signal program => say ["`"; program; "` killed by signal (no exit code)"]
  end.

Definition url_for (program : string) (args : list string) : string :=
  say (program :: flat_map (λ a, [" "; a]) args).

Definition lossy_text (l : bytes) : string := t (from_utf8_lossy l).

(** What is recorded of a process: of its input only the length. *)
Definition exchange (program url : string) (stdin_len : option Z)
    (result : Result CommandOutcome CommandError) (output : Output) : HttpExchange :=
  let raw_code := default (-1) (status_code output) in
  let stderr := lossy_text (output_stderr output) in {|
    exchange_module := program;
    exchange_method := "spawn";
    exchange_url := url;
    exchange_request_headers := match stdin_len with Some n => [("stdin-bytes", num n)] | None => [] end;
    exchange_request_body := None;
    exchange_response_status := Z.min (Z.max raw_code 0) u16_max;
    exchange_response_headers := if stderr ==? EmptyString then [] else [("stderr", stderr)];
    exchange_response_body := match result with Ok o => stdout o | Err _ => EmptyString end;
  |}.

Definition finish (program : string) (output : Output) : Result CommandOutcome CommandError :=
  let stdout := lossy_text (output_stdout output) in
  let stderr := lossy_text (output_stderr output) in
  match status_code output with
  | None => Err (CommandError_Signal program)
  | Some code =>
      if code =? 0 then Ok (mkCommandOutcome stdout stderr code)
      else Err (CommandError_NonZeroExit program code stderr)
  end.

(** [SystemRunner]: what is run passes the tap before and after. *)
Definition spawned (program : string) (args : list string) (stdin : option string)
    : Attempt CommandError CommandOutcome :=
  let url := url_for program args in
  Step (Request_Gate CoreId_Tunnel "spawn" url) (λ _,
  Step (Request_Spawn program args stdin) (λ process,
    match process with
    | Err source => Return (Err (CommandError_Spawn program source))
    | Ok output =>
        let result := finish program output in
        Step (Request_Observe CoreId_Tunnel
                (exchange program url ((λ s, Z.of_nat (String.length s)) <$> stdin) result output))
             (λ _, Return result)
    end)).
Definition run (program : string) (args : list string) : Attempt CommandError CommandOutcome :=
  spawned program args None.
Definition run_with_stdin (program : string) (args : list string) (stdin : string)
    : Attempt CommandError CommandOutcome :=
  spawned program args (Some stdin).

(** ** Configuration *)

(** [ipnet::IpNet], the address as it was written. *)
Record IpNet := mkIpNet {
  net_addr : IpAddr;
  net_prefix_len : Z;
}.

Record TunnelShellConfig := mkTunnelShellConfig {
  wg : WgConfig;
  interface_name : string;
  natpmp_gateway : SocketAddr;
  natpmp_timeout : Duration;
  natpmp_lifetime_seconds : Z;
  exit_ip_urls : list string;
  allowed_tcp_endpoints : list SocketAddr;
  local_routes : list IpNet;
}.

Definition DEFAULT_EXIT_IP_URLS : list string := ["https://api.ipify.org"; "https://ipv4.icanhazip.com"].
Definition TunnelShellConfig_new (wg : WgConfig) : TunnelShellConfig := {|
  wg := wg;
  interface_name := "wg0";
  natpmp_gateway := mkSocketAddr (IpAddr_V4 167903233) 5351 0;
  natpmp_timeout := from_secs 2;
  natpmp_lifetime_seconds := 60;
  exit_ip_urls := DEFAULT_EXIT_IP_URLS;
  allowed_tcp_endpoints := [];
  local_routes := [];
|}.

Definition ip_text (ip : IpAddr) : string := t (print_ip ip).
(** [Display] of an address with a prefix, and of a socket's address. *)
Definition cidr_text (ip : IpAddr) (prefix_len : Z) : string := say [ip_text ip; "/"; num prefix_len].
Definition socket_text (addr : SocketAddr) : string :=
  match socket_ip addr with
  | IpAddr_V4 _ => say [ip_text (socket_ip addr); ":"; num (socket_port addr)]
  | IpAddr_V6 _ =>
      say ["["; ip_text (socket_ip addr);
           if socket_scope addr =? 0 then EmptyString else say ["%"; num (socket_scope addr)];
           "]:"; num (socket_port addr)]
  end.

(** ** The interface *)

(** Reading a JSON document from its text, and the message where it cannot be read as a type. *)
Class JsonText := {
  json_document : string → option Value;
  json_error : string → string → string;
}.

Record UnderlayHop := mkUnderlayHop {
  gateway : option string;
  dev : string;
}.

Definition text_field (row : Value) (name : string) : option string :=
  fields ← read_map row; fields !! name ≫= read_string.
Definition parse_route_get `{JsonText} (json : string) : Result UnderlayHop string :=
  match json_document json with
  | None => Err (say ["parse: "; json_error "Value" json])
  | Some rows =>
      match rows with
      | Value_Array (row :: _) =>
          match text_field row "dev" with
          | None => Err "route result missing `dev`"
          | Some dev => Ok (mkUnderlayHop (text_field row "gateway") dev)
          end
      | _ => Err "empty route result"
      end
  end.

Definition endpoint_for_args (endpoint : Endpoint) : Result string string :=
  match endpoint with
  | Endpoint_Ip ip port => Ok (socket_text (mkSocketAddr ip port 0))
  | Endpoint_Hostname host port =>
      Err (say ["hostname endpoint `"; host; ":"; num port;
                "` requires pre-tunnel DNS (not implemented this phase) — supply an IP literal in wg.conf"])
  end.

Definition allowed_ips_for_args (peer : PeerConfig) : string :=
  String.concat "," (map (λ a, cidr_text (allowed_ip a) (allowed_prefix_len a)) (allowed_ips peer)).

(** The peers with their places. *)
Definition other_peers (peers : list PeerConfig) (peer_index : Z) : list PeerConfig :=
  omap (λ '(i, other), then_some (negb (i =? peer_index)) other) (numbered 0 peers).

Definition set_wg_interface (config : TunnelShellConfig) (peer_index : Z) (replace : bool)
    : Attempt InterfaceConfigureFailure () :=
  let iface := interface_name config in
  let interface := interface (wg config) in
  let peers := peers (wg config) in
  match peers !! Z.to_nat peer_index with
  | None => Return (Err (InterfaceConfigureFailure_Other
                           (say ["peer index "; num peer_index; " out of range"])))
  | Some peer =>
      try (of_result (map_err InterfaceConfigureFailure_Other (endpoint_for_args (endpoint peer))))
        (λ endpoint,
      let args :=
        ["set"; iface; "private-key"; "/dev/stdin"]
        ++ match listen_port interface with Some port => ["listen-port"; num port] | None => [] end
        ++ (if replace
            then flat_map (λ other, ["peer"; public_key other; "remove"]) (other_peers peers peer_index)
            else [])
        ++ ["peer"; public_key peer; "endpoint"; endpoint; "allowed-ips"; allowed_ips_for_args peer]
        ++ match persistent_keepalive peer with
           | Some seconds => ["persistent-keepalive"; num seconds]
           | None => []
           end
        ++ match preshared_key peer with Some _ => ["preshared-key"; "/dev/stdin"] | None => [] end in
      let stdin := say (private_key interface
                        :: match preshared_key peer with Some key => [nl; key] | None => [] end) in
      try (attempt_map_err (λ e, InterfaceConfigureFailure_WgSet (CommandError_fmt e))
             (run_with_stdin "wg" args stdin)) (λ _,
      Return (Ok ())))
  end.

Definition family_args (ip : IpAddr) : list string :=
  match ip with IpAddr_V4 _ => [] | IpAddr_V6 _ => ["-6"] end.
Definition host_route (ip : IpAddr) : string :=
  say [ip_text ip; match ip with IpAddr_V4 _ => "/32" | IpAddr_V6 _ => "/128" end].
Definition hop_args (hop : UnderlayHop) : list string :=
  match gateway hop with Some gateway => ["via"; gateway] | None => [] end ++ ["dev"; dev hop].

(** A failure of the routes, with what was tried. *)
Definition route_failure (what : list string) (e : string) : InterfaceConfigureFailure :=
  InterfaceConfigureFailure_RouteAdd (say (what ++ [": "; e])).
Definition route_run (what args : list string) : Attempt InterfaceConfigureFailure CommandOutcome :=
  attempt_map_err (λ e, route_failure what (CommandError_fmt e)) (run "ip" args).

Definition pin_underlay_route `{JsonText} (peer : PeerConfig) : Attempt InterfaceConfigureFailure () :=
  match endpoint peer with
  | Endpoint_Hostname _ _ => Return (Ok ())
  | Endpoint_Ip ip _ =>
      let what := ["underlay route get "; ip_text ip] in
      try (route_run what ["-j"; "route"; "get"; ip_text ip]) (λ out,
      try (of_result (map_err (route_failure what) (parse_route_get (stdout out)))) (λ hop,
      let dst := host_route ip in
      try (route_run ["pin underlay "; dst] (["route"; "replace"; dst] ++ hop_args hop)) (λ _,
      Return (Ok ()))))
  end.
Definition pin_underlay_routes `{JsonText} (config : TunnelShellConfig)
    : Attempt InterfaceConfigureFailure () :=
  try_each pin_underlay_route (peers (wg config)).

Definition pin_local_route `{JsonText} (network : IpNet) : Attempt InterfaceConfigureFailure () :=
  let destination := ip_text (net_addr network) in
  let family := family_args (net_addr network) in
  let what := ["local route get "; destination] in
  try (route_run what (family ++ ["-j"; "route"; "get"; destination])) (λ out,
  try (of_result (map_err (route_failure what) (parse_route_get (stdout out)))) (λ hop,
  let network := cidr_text (net_addr network) (net_prefix_len network) in
  try (route_run ["pin local route "; network] (family ++ ["route"; "replace"; network] ++ hop_args hop))
    (λ _, Return (Ok ())))).
Definition pin_local_routes `{JsonText} (config : TunnelShellConfig)
    : Attempt InterfaceConfigureFailure () :=
  try_each pin_local_route (local_routes config).

Definition is_ipv6 (ip : IpAddr) : bool := match ip with IpAddr_V4 _ => false | IpAddr_V6 _ => true end.

Definition add_address (iface : string) (addr : InterfaceAddress) : Attempt InterfaceConfigureFailure () :=
  let cidr := cidr_text (address_ip addr) (address_prefix_len addr) in
  try (attempt_map_err (λ e, InterfaceConfigureFailure_AddressAdd (say [cidr; ": "; CommandError_fmt e]))
         (run "ip" ["addr"; "add"; cidr; "dev"; iface])) (λ _, Return (Ok ())).

(** What follows once the interface is there. *)
Definition configure_created `{JsonText} (config : TunnelShellConfig)
    : Attempt InterfaceConfigureFailure () :=
  let iface := interface_name config in
  let interface := interface (wg config) in
  try (set_wg_interface config 0 true) (λ _,
  try (match mtu interface with
       | Some mtu =>
           try (attempt_map_err (λ e, InterfaceConfigureFailure_MtuSet (CommandError_fmt e))
                  (run "ip" ["link"; "set"; "dev"; iface; "mtu"; num mtu])) (λ _, Return (Ok ()))
       | None => Return (Ok ())
       end) (λ _,
  try (try_each (add_address iface) (addresses interface)) (λ _,
  try (attempt_map_err (λ e, InterfaceConfigureFailure_LinkUp (CommandError_fmt e))
         (run "ip" ["link"; "set"; "dev"; iface; "up"])) (λ _,
  try (pin_underlay_routes config) (λ _,
  try (pin_local_routes config) (λ _,
  try (route_run ["v4"] ["route"; "replace"; "default"; "dev"; iface]) (λ _,
  try (if existsb (λ a, is_ipv6 (address_ip a)) (addresses interface)
       then try (route_run ["v6"] ["-6"; "route"; "replace"; "default"; "dev"; iface]) (λ _, Return (Ok ()))
       else Return (Ok ())) (λ _,
  if is_empty (dns_servers interface) then Return (Ok ())
  else
    let body := say (flat_map (λ ip, ["nameserver "; ip_text ip; nl]) (dns_servers interface)) in
    try (attempt_map_err (λ e, InterfaceConfigureFailure_DnsWrite (CommandError_fmt e))
           (run_with_stdin "tee" ["/etc/resolv.conf"] body)) (λ _, Return (Ok ())))))))))).

Definition configure_interface `{JsonText} (config : TunnelShellConfig)
    : Attempt InterfaceConfigureFailure () :=
  let iface := interface_name config in
  and_then (run "ip" ["link"; "del"; "dev"; iface]) (λ _,
  try (attempt_map_err (λ e, InterfaceConfigureFailure_LinkAdd (CommandError_fmt e))
         (run "ip" ["link"; "add"; "dev"; iface; "type"; "wireguard"])) (λ _,
  and_then (configure_created config) (λ outcome,
  match outcome with
  | Ok () => Return (Ok ())
  | Err reason => and_then (run "ip" ["link"; "del"; "dev"; iface]) (λ _, Return (Err reason))
  end))).

(** ** The firewall *)

Definition firewall_failure_from (e : CommandError) : FirewallInstallFailure :=
  match e with
  | CommandError_Spawn _ _ => FirewallInstallFailure_NftMissing (CommandError_fmt e)
  | CommandError_NonZeroExit _ _ _ => FirewallInstallFailure_RulesetRejected (CommandError_fmt e)
  | CommandError_Signal _ => FirewallInstallFailure_Other (CommandError_fmt e)
  end.

Definition peer_endpoints_for_ruleset (config : TunnelShellConfig) : list (IpAddr * Z) :=
  omap (λ p, match endpoint p with
             | Endpoint_Ip ip port => Some (ip, port)
             | Endpoint_Hostname _ _ => None
             end) (peers (wg config)).

(** A line of the ruleset that accepts what goes to a port of an address. *)
Definition accept_rule (protocol : string) (ip : IpAddr) (port : Z) : string :=
  say ["    "; match ip with IpAddr_V4 _ => "ip" | IpAddr_V6 _ => "ip6" end; " daddr "; ip_text ip; " ";
       protocol; " dport "; num port; " accept"; nl].
Definition append_peer_underlay_rules (peer_endpoints : list (IpAddr * Z)) : string :=
  say (map (λ '(ip, port), accept_rule "udp" ip port) peer_endpoints).
Definition append_allowed_tcp_rules (endpoints : list SocketAddr) : string :=
  say (map (λ endpoint, accept_rule "tcp" (socket_ip endpoint) (socket_port endpoint)) endpoints).

Definition quoted (text : string) : string := let quote := t [ascii_of_nat 34] in say [quote; text; quote].
Definition accept_interface (iface : string) : string :=
  say ["    oifname "; quoted iface; " accept"; nl].
Definition table_text (rules : list string) : string :=
  say (["table inet windlass_killswitch"; nl; "delete table inet windlass_killswitch"; nl;
        "table inet windlass_killswitch {"; nl; "  chain output {"; nl;
        "    type filter hook output priority filter; policy drop;"; nl]
       ++ rules ++ ["  }"; nl; "}"; nl]).

Definition build_nft_pre_tunnel_ruleset (config : TunnelShellConfig) : string :=
  table_text
    [accept_interface "lo";
     say ["    ct state established,related accept"; nl];
     append_peer_underlay_rules (peer_endpoints_for_ruleset config);
     append_allowed_tcp_rules (allowed_tcp_endpoints config)].

Definition build_nft_ruleset (config : TunnelShellConfig) : string :=
  table_text
    [accept_interface "lo";
     accept_interface (interface_name config);
     say ["    ct state established,related accept"; nl];
     append_peer_underlay_rules (peer_endpoints_for_ruleset config);
     append_allowed_tcp_rules (allowed_tcp_endpoints config)].

(** ** What each action does *)

(** The work of an action: a script, and what it reports. *)
Definition Work : Type := Script (option TunnelEvent).
Definition report (event : TunnelEvent) : Work := Return (Some event).

Definition spawn_configure_interface `{JsonText} (config : TunnelShellConfig) : Work :=
  outcome ← configure_interface config;
  report (match outcome with
          | Ok () => TunnelEvent_InterfaceConfigured
          | Err reason => TunnelEvent_InterfaceConfigureFailed reason
          end).

Definition spawn_install_pre_tunnel_firewall (config : TunnelShellConfig) : Work :=
  outcome ← run_with_stdin "nft" ["-f"; "-"] (build_nft_pre_tunnel_ruleset config);
  report (match outcome with
          | Ok _ => TunnelEvent_PreTunnelFirewallInstalled
          | Err e => TunnelEvent_PreTunnelFirewallInstallFailed (firewall_failure_from e)
          end).

Definition spawn_install_firewall (config : TunnelShellConfig) : Work :=
  outcome ← run_with_stdin "nft" ["-f"; "-"] (build_nft_ruleset config);
  report (match outcome with
          | Ok _ => TunnelEvent_FirewallInstalled
          | Err e => TunnelEvent_FirewallInstallFailed (firewall_failure_from e)
          end).

Definition spawn_rotate_endpoint (config : TunnelShellConfig) (peer_index : Z) : Work :=
  outcome ← set_wg_interface config peer_index true;
  match outcome with
  | Ok () => Return None
  | Err reason =>
      report (TunnelEvent_InterfaceConfigureFailed (InterfaceConfigureFailure_Other
        (say ["rotate endpoint to peer "; num peer_index; ": "; InterfaceConfigureFailure_fmt reason])))
  end.

(** *** The handshake *)

Inductive HandshakeAge :=
  | HandshakeAge_Observed (age_seconds : Z)
  | HandshakeAge_NeverHandshook.

Inductive HandshakeParseError :=
  | HandshakeParseError_PeerNotFound (key : string)
  | HandshakeParseError_MalformedLine (line : string).

(** [str::split_whitespace]: the next word and what follows it. *)
Fixpoint word_length (l : bytes) : nat :=
  match l with
  | [] => O
  | _ :: rest => if existsb (λ w, is_some (Text.strip_prefix w l)) white_space then O else S (word_length rest)
  end.
Definition next_word (l : bytes) : option (bytes * bytes) :=
  let l := trim_front (length l) white_space l in
  if is_empty l then None else Some (take (word_length l) l, drop (word_length l) l).

(** [DateTime::from_timestamp] of whole seconds: the times [chrono] has. *)
Class Timestamps := from_timestamp : Z → option SystemTime.

Definition handshake_line `{Timestamps} (line peer_public_key : bytes) (now : SystemTime)
    : option (Result HandshakeAge HandshakeParseError) :=
  let malformed := Err (HandshakeParseError_MalformedLine (t line)) in
  match next_word line with
  | None => None
  | Some (key, rest) =>
      match next_word rest with
      | None => Some malformed
      | Some (ts, _) =>
          if negb (key ==? peer_public_key) then None
          else
            Some match parse_i64 ts with
                 | None => malformed
                 | Some secs =>
                     if secs =? 0 then Ok HandshakeAge_NeverHandshook
                     else
                       match from_timestamp secs with
                       | None => malformed
                       | Some observed =>
                           let delta := (now - observed) ÷ from_secs 1 in
                           Ok (HandshakeAge_Observed (if delta <? 0 then 0 else delta))
                       end
                 end
      end
  end.
Definition latest_handshake_age `{Timestamps} (output peer_public_key : string) (now : SystemTime)
    : Result HandshakeAge HandshakeParseError :=
  default (Err (HandshakeParseError_PeerNotFound peer_public_key))
    (find_map (λ raw, handshake_line (trim raw) (b peer_public_key) now) (text_lines (b output))).

Definition spawn_poll_handshake `{Timestamps} (config : TunnelShellConfig) (peer_index : Z) : Work :=
  match peers (wg config) !! Z.to_nat peer_index with
  | None => report TunnelEvent_HandshakeStalled
  | Some peer =>
      outcome ← run "wg" ["show"; interface_name config; "latest-handshakes"];
      match outcome with
      | Err _ => report TunnelEvent_HandshakeStalled
      | Ok out =>
          now ← ask Request_Now;
          report (match latest_handshake_age (stdout out) (public_key peer) now with
                  | Ok (HandshakeAge_Observed age_seconds) => TunnelEvent_HandshakeReported age_seconds
                  | Ok HandshakeAge_NeverHandshook | Err _ => TunnelEvent_HandshakeStalled
                  end)
      end
  end.

(** *** The forwarded port *)

Inductive NatPmpClientError :=
  | NatPmpClientError_Bind (source : string)
  | NatPmpClientError_Send (gateway : SocketAddr) (source : string)
  | NatPmpClientError_Timeout (gateway : SocketAddr) (timeout : Duration)
  | NatPmpClientError_Recv (source : string)
  | NatPmpClientError_Decode (error : NatPmpDecodeError).

(** [{:02x}] of a byte, and [{:#04x}]. *)
Definition hex_byte (n : Z) : bytes := [hex_char (n / 16); hex_char (n mod 16)].
Definition hex_encode (l : bytes) : string := t (flat_map (λ c, hex_byte (u8 c)) l).

Definition Protocol_debug (self : Protocol) : string :=
  match self with Protocol_Udp => "Udp" | Protocol_Tcp => "Tcp" end.
Definition NatPmpResponseCode_debug (self : NatPmpResponseCode) : string :=
  match self with
  | NatPmpResponseCode_Success => "Success"
  | NatPmpResponseCode_UnsupportedVersion => "UnsupportedVersion"
  | NatPmpResponseCode_NotAuthorized => "NotAuthorized"
  | NatPmpResponseCode_NetworkFailure => "NetworkFailure"
  | NatPmpResponseCode_OutOfResources => "OutOfResources"
  | NatPmpResponseCode_UnsupportedOpcode => "UnsupportedOpcode"
  | NatPmpResponseCode_Other code => say ["Other("; num code; ")"]
  end.
Definition NatPmpDecodeError_fmt (self : NatPmpDecodeError) : string :=
  match self with
  | NatPmpDecodeError_WrongLength length =>
      say ["response is "; num length; " bytes; NAT-PMP port-map responses are 16 bytes"]
  | NatPmpDecodeError_WrongVersion version =>
      say ["response version is "; num version; "; expected 0 (RFC 6886)"]
  | NatPmpDecodeError_UnknownOp op =>
      say ["response op 0x"; t (hex_byte op); " is not a known port-map response (0x81 / 0x82)"]
  | NatPmpDecodeError_ErrorCode protocol code =>
      say ["gateway returned error code "; NatPmpResponseCode_debug code; " for "; Protocol_debug protocol;
           " mapping"]
  end.

(** What is recorded of a request and an answer. *)
Definition natpmp_exchange (url : string) (request_bytes response_bytes : bytes) (error_tag : option string)
    : HttpExchange := {|
  exchange_module := "natpmp";
  exchange_method := "udp";
  exchange_url := url;
  exchange_request_headers := [];
  exchange_request_body := Some (hex_encode request_bytes);
  exchange_response_status :=
    match response_bytes with _ :: _ :: c2 :: c3 :: _ => from_be [c2; c3] | _ => 0 end;
  exchange_response_headers := match error_tag with Some tag => [("error", tag)] | None => [] end;
  exchange_response_body := hex_encode response_bytes;
|}.
Definition emit_exchange {A} (url : string) (request_bytes response_bytes : bytes)
    (error_tag : option string) (next : Script A) : Script A :=
  Step (Request_Observe CoreId_Tunnel (natpmp_exchange url request_bytes response_bytes error_tag))
    (λ _, next).

(** [NatPmpClient::new] *)
Definition NatPmpClient_new (gateway : SocketAddr) : Attempt NatPmpClientError () :=
  try (attempt_map_err NatPmpClientError_Bind (ask Request_Bind)) (λ _,
  attempt_map_err NatPmpClientError_Bind (ask (Request_Connect gateway))).

(** A buffer of 64 bytes. *)
Definition RECEIVE_BUFFER : nat := 64.

(** The datagrams that arrive until the deadline, up to the first that answers the request. *)
Fixpoint receive (gateway : SocketAddr) (request_timeout : Duration) (req : NatPmpRequest) (url : string)
    (arrivals : list bytes) (receive_error : option string) : Attempt NatPmpClientError NatPmpLease :=
  let request_bytes := encode req in
  match arrivals with
  | [] =>
      match receive_error with
      | None =>
          emit_exchange url request_bytes [] (Some "timeout")
            (Return (Err (NatPmpClientError_Timeout gateway request_timeout)))
      | Some e =>
          emit_exchange url request_bytes [] (Some "recv-error") (Return (Err (NatPmpClientError_Recv e)))
      end
  | datagram :: arrivals =>
      let response_bytes := take RECEIVE_BUFFER datagram in
      let ignored := emit_exchange url request_bytes response_bytes (Some "ignored")
                       (receive gateway request_timeout req url arrivals receive_error) in
      match decode response_bytes with
      | Ok lease =>
          if matches_request lease req
          then emit_exchange url request_bytes response_bytes None (Return (Ok lease))
          else ignored
      | Err (NatPmpDecodeError_ErrorCode protocol code) =>
          if protocol ==? request_protocol req
          then emit_exchange url request_bytes response_bytes None
                 (Return (Err (NatPmpClientError_Decode (NatPmpDecodeError_ErrorCode protocol code))))
          else ignored
      | Err _ => ignored
      end
  end.

(** [NatPmpClient::request] *)
Definition natpmp_request (gateway : SocketAddr) (request_timeout : Duration) (req : NatPmpRequest)
    : Attempt NatPmpClientError NatPmpLease :=
  let request_bytes := encode req in
  let url := socket_text gateway in
  Step (Request_Gate CoreId_Tunnel "udp" url) (λ _,
  Step (Request_Send request_bytes) (λ sent,
    match sent with
    | Err source =>
        emit_exchange url request_bytes [] None (Return (Err (NatPmpClientError_Send gateway source)))
    | Ok () =>
        Step (Request_Receive request_timeout) (λ arrivals,
          receive gateway request_timeout req url (datagrams arrivals) (receive_error arrivals))
    end)).

Definition code_to_be_u16 (code : NatPmpResponseCode) : bytes :=
  to_be_u16 match code with
            | NatPmpResponseCode_Success => 0
            | NatPmpResponseCode_UnsupportedVersion => 1
            | NatPmpResponseCode_NotAuthorized => 2
            | NatPmpResponseCode_NetworkFailure => 3
            | NatPmpResponseCode_OutOfResources => 4
            | NatPmpResponseCode_UnsupportedOpcode => 5
            | NatPmpResponseCode_Other code => code
            end.
Definition natpmp_failure (err : NatPmpClientError) : NatPmpFailure :=
  match err with
  | NatPmpClientError_Bind e => NatPmpFailure_Bind e
  | NatPmpClientError_Send _ source => NatPmpFailure_Send source
  | NatPmpClientError_Timeout _ _ => NatPmpFailure_Timeout
  | NatPmpClientError_Recv e => NatPmpFailure_Recv e
  | NatPmpClientError_Decode (NatPmpDecodeError_ErrorCode _ code) =>
      NatPmpFailure_GatewayError (from_be (code_to_be_u16 code))
  | NatPmpClientError_Decode other => NatPmpFailure_MalformedResponse (NatPmpDecodeError_fmt other)
  end.

Definition merge_dual_lease (udp tcp : NatPmpLease) : TunnelEvent :=
  if negb (lease_external_port udp =? lease_external_port tcp)
  then TunnelEvent_NatPmpFailed
         (NatPmpFailure_PortMismatch (lease_external_port udp) (lease_external_port tcp))
  else TunnelEvent_NatPmpLeaseGranted (lease_external_port tcp)
         (Z.min (lease_lifetime_seconds udp) (lease_lifetime_seconds tcp))
         (Z.max (lease_epoch_seconds udp) (lease_epoch_seconds tcp)).

(** A failure on the way is reported as such. *)
Definition or_report {A} (attempt : Attempt NatPmpClientError A) (k : A → Work) : Work :=
  and_then attempt (λ outcome,
    match outcome with
    | Ok x => k x
    | Err e => report (TunnelEvent_NatPmpFailed (natpmp_failure e))
    end).

(** The client is made by the first request and kept; [opened] is whether it was. *)
Definition spawn_request_natpmp (config : TunnelShellConfig) (opened : bool) : Work :=
  let gateway := natpmp_gateway config in
  let request_for protocol :=
    natpmp_request gateway (natpmp_timeout config)
      (mkNatPmpRequest protocol 0 0 (natpmp_lifetime_seconds config)) in
  or_report (if opened then Return (Ok ()) else NatPmpClient_new gateway) (λ _,
  or_report (request_for Protocol_Udp) (λ udp,
  or_report (request_for Protocol_Tcp) (λ tcp,
  report (merge_dual_lease udp tcp)))).

(** *** The exit IP *)

Definition exit_ip_exchange (url : string) (status : Z) (body error : string) : HttpExchange := {|
  exchange_module := "tunnel-exit-ip";
  exchange_method := "GET";
  exchange_url := url;
  exchange_request_headers := [];
  exchange_request_body := None;
  exchange_response_status := status;
  exchange_response_headers := if error ==? EmptyString then [] else [("error", error)];
  exchange_response_body := body;
|}.

Definition observed {A} (exchange : HttpExchange) (next : Script A) : Script A :=
  Step (Request_Observe CoreId_Tunnel exchange) (λ _, next).

(** The address in the first line of an answer. *)
Definition exit_ip_of (body : string) : Result TunnelEvent ExitIpFailure :=
  let raw := trim (default [] (list.head (text_lines (b body)))) in
  match parse_ip_text raw with
  | Err e => Err (ExitIpFailure_Parse (say ["`"; t raw; "`: "; e]))
  | Ok ip =>
      match VpnIp_from_ip ip with
      | Some vpn => Ok (TunnelEvent_ExitIpObserved vpn)
      | None => Err (ExitIpFailure_Parse (say ["IPv6 exit IP `"; ip_text ip; "` not yet mapped to VpnIp"]))
      end
  end.

Definition query_exit_ip_once (url : string) : Attempt ExitIpFailure TunnelEvent :=
  Step (Request_Gate CoreId_Tunnel "GET" url) (λ _,
  Step (Request_Get url) (λ fetched,
    match fetched with
    | Err e => observed (exit_ip_exchange url 0 EmptyString e) (Return (Err (ExitIpFailure_Transport e)))
    | Ok (status, body) =>
        if negb ((200 <=? status) && (status <? 300)) then
          observed (exit_ip_exchange url status EmptyString EmptyString)
            (Return (Err (ExitIpFailure_HttpStatus status)))
        else
          match body with
          | Err e =>
              observed (exit_ip_exchange url status EmptyString e) (Return (Err (ExitIpFailure_Transport e)))
          | Ok body => observed (exit_ip_exchange url status body EmptyString) (Return (exit_ip_of body))
          end
    end)).

Fixpoint query_exit_ip (urls : list string) (last_failure : option ExitIpFailure) : Work :=
  match urls with
  | [] =>
      report (TunnelEvent_ExitIpQueryFailed
        (default (ExitIpFailure_Transport "no exit_ip_urls configured") last_failure))
  | url :: urls =>
      and_then (query_exit_ip_once url) (λ outcome,
        match outcome with
        | Ok event => report event
        | Err failure => query_exit_ip urls (Some failure)
        end)
  end.
Definition spawn_query_exit_ip (config : TunnelShellConfig) : Work :=
  query_exit_ip (exit_ip_urls config) None.

(** *** The leak probe *)

Record IpAddrInfo := mkIpAddrInfo {
  family : string;
  scope : option string;
}.
Record IpAddrRow := mkIpAddrRow {
  ifname : string;
  addr_info : list IpAddrInfo;
}.

(** The fields of a structure whose last ones may be left out, also of an array. *)
Definition struct_defaults (names : list string) (v : Value) : option (list (option Value)) :=
  match v with
  | Value_Array values =>
      then_some (bool_decide (length values ≤ length names)%nat)
        (map Some values ++ repeat None (length names - length values))
  | v => struct names v
  end.
Definition IpAddrInfo_read : Json.Reader IpAddrInfo := λ v,
  fields ← struct_defaults ["family"; "scope"] v;
  match fields with
  | [family; scope] =>
      family ← required read_string family; scope ← optional_field read_string scope;
      Some (mkIpAddrInfo family scope)
  | _ => None
  end.
Definition IpAddrRow_read : Json.Reader IpAddrRow := λ v,
  fields ← struct_defaults ["ifname"; "addr_info"] v;
  match fields with
  | [ifname; addr_info] =>
      ifname ← required read_string ifname;
      addr_info ← match addr_info with
                  | Some v => read_list IpAddrInfo_read v
                  | None => Some []
                  end;
      Some (mkIpAddrRow ifname addr_info)
  | _ => None
  end.

Definition is_link_scope (info : IpAddrInfo) : bool := scope info ==? Some "link".

(** [InterfaceSnapshot]: the names in ascending order. *)
Abbreviation InterfaceSnapshot := (gmap string ()) (only parsing).

Inductive ProbeError :=
  | ProbeError_Parse (source : string).
Definition ProbeError_fmt (self : ProbeError) : string :=
  match self with
  | ProbeError_Parse source => say ["failed to parse `ip -j addr show` output: "; source]
  end.

Definition has_global (row : IpAddrRow) : bool :=
  existsb (λ a, ((family a ==? "inet") || (family a ==? "inet6")) && negb (is_link_scope a)) (addr_info row).

Definition parse_ip_addr_show `{JsonText} (json : string) : Result InterfaceSnapshot ProbeError :=
  match json_document json ≫= read_list IpAddrRow_read with
  | None => Err (ProbeError_Parse (json_error "Vec<IpAddrRow>" json))
  | Some rows => Ok (list_to_map (omap (λ row, then_some (has_global row) (ifname row, ())) rows))
  end.

Definition stray (snapshot : InterfaceSnapshot) (tunnel_interface : string) : list string :=
  List.filter (λ name, (name !=? "lo") && (name !=? tunnel_interface)) (bt_keys snapshot).

Definition leak_outcome_from_snapshot (snapshot : InterfaceSnapshot) (tunnel_interface : string)
    : LeakProbeOutcome :=
  let stray := stray snapshot tunnel_interface in
  if is_empty stray then LeakProbeOutcome_NoEgressDetected
  else LeakProbeOutcome_LeakDetected (String.concat "," stray)
         "non-tunnel interface present in namespace".

Definition ACTIVE_PROBE_TARGETS : list (string * Z) := [("1.1.1.1", 443); ("1.0.0.1", 443)].
Definition PROBE_TIMEOUT : Duration := 300 * 1_000_000.

(** The attempts, up to the first connection. *)
Fixpoint try_connects (attempts : list (string * (string * Z))) : Script LeakProbeOutcome :=
  match attempts with
  | [] => Return LeakProbeOutcome_NoEgressDetected
  | (iface, (host, port)) :: attempts =>
      Step (Request_BoundConnect iface host port PROBE_TIMEOUT) (λ connected : bool,
        if connected
        then Return (LeakProbeOutcome_LeakDetected iface (say [host; ":"; num port]))
        else try_connects attempts)
  end.
Definition active_connect_probe (snapshot : InterfaceSnapshot) (tunnel_interface : string)
    : Script LeakProbeOutcome :=
  try_connects (list_prod (stray snapshot tunnel_interface) ACTIVE_PROBE_TARGETS).

Definition spawn_run_leak_probe `{JsonText} (config : TunnelShellConfig) : Work :=
  outcome ← run "ip" ["-j"; "addr"; "show"];
  match outcome with
  | Err e =>
      report (TunnelEvent_LeakProbeCompleted
        (LeakProbeOutcome_Inconclusive (say ["spawn `ip`: "; CommandError_fmt e])))
  | Ok out =>
      match parse_ip_addr_show (stdout out) with
      | Err e =>
          report (TunnelEvent_LeakProbeCompleted
            (LeakProbeOutcome_Inconclusive (say ["parse `ip -j addr show`: "; ProbeError_fmt e])))
      | Ok snapshot =>
          outcome ← match leak_outcome_from_snapshot snapshot (interface_name config) with
                    | LeakProbeOutcome_LeakDetected _ _ =>
                        active_connect_probe snapshot (interface_name config)
                    | outcome => Return outcome
                    end;
          report (TunnelEvent_LeakProbeCompleted outcome)
      end
  end.

(** *** Dispatch *)

Inductive Dispatched :=
  | Dispatched_Work (work : Work)
  | Dispatched_Timer (timer : TunnelTimer) (after : Duration).

(** [TunnelShell::dispatch] *)
Definition dispatch `{JsonText, Timestamps} (config : TunnelShellConfig) (opened : bool)
    (action : TunnelAction) : Dispatched :=
  match action with
  | TunnelAction_InstallPreTunnelFirewall => Dispatched_Work (spawn_install_pre_tunnel_firewall config)
  | TunnelAction_ConfigureInterface => Dispatched_Work (spawn_configure_interface config)
  | TunnelAction_InstallFirewall => Dispatched_Work (spawn_install_firewall config)
  | TunnelAction_PollHandshake peer_index => Dispatched_Work (spawn_poll_handshake config peer_index)
  | TunnelAction_RequestNatPmp => Dispatched_Work (spawn_request_natpmp config opened)
  | TunnelAction_QueryExitIp => Dispatched_Work (spawn_query_exit_ip config)
  | TunnelAction_RotateEndpoint peer_index => Dispatched_Work (spawn_rotate_endpoint config peer_index)
  | TunnelAction_RunLeakProbe => Dispatched_Work (spawn_run_leak_probe config)
  | TunnelAction_ScheduleTimer timer after => Dispatched_Timer timer after
  end.

(** [KeyedTimers::schedule]: the sleeps that are pending, at most one for a key. *)
Definition KeyedTimers (K E : Type) : Type := list (K * Timed E).
Definition schedule {K E} `{EqDecision K} (self : KeyedTimers K E) (key : K) (name : string)
    (after : Duration) (now : Instant) (event : E) : KeyedTimers K E :=
  List.filter (λ pending, pending.1 !=? key) self
  ++ [(key, external (now + after) (ExternalCause_Timer name) event)].

(** ** Runs of a script *)

(** A request with its reply. *)
Definition Event : Type := { request : Request & Reply request }.

(** The script makes these requests, gets these replies and ends with [x]. *)
Fixpoint conducted {A} (script : Script A) (trace : list Event) (x : A) : Prop :=
  match script, trace with
  | Return y, [] => x = y
  | Step request next, event :: trace =>
      ∃ reply, event = existT request reply ∧ conducted (next reply) trace x
  | _, _ => False
  end.

(** A system that replies by its state. *)
Fixpoint conduct {S A} (system : S → ∀ request, S * Reply request) (s : S) (script : Script A)
    : S * list Event * A :=
  match script with
  | Return x => (s, [], x)
  | Step request next =>
      let '(s, reply) := system s request in
      let '(s, trace, x) := conduct system s (next reply) in (s, existT request reply :: trace, x)
  end.

Lemma conduct_conducted {S A} (system : S → ∀ request, S * Reply request) (script : Script A) s :
  conducted script (conduct system s script).1.2 (conduct system s script).2.
Proof.
  revert s. induction script as [x|request next IH]; intros s; cbn; [done|].
  destruct (system s request) as [s' reply]. specialize (IH reply s').
  destruct (conduct system s' (next reply)) as [[s'' trace] x]. by exists reply.
Qed.

Lemma conducted_and_then {A B} (script : Script A) (k : A → Script B) trace y :
  conducted (and_then script k) trace y →
  ∃ x first rest, trace = first ++ rest ∧ conducted script first x ∧ conducted (k x) rest y.
Proof.
  revert trace. induction script as [x|request next IH]; intros trace Hk; [by exists x, [], trace|].
  destruct trace as [|event trace]; [done|]. destruct Hk as (reply & -> & Hnext).
  destruct (IH reply trace Hnext) as (x & first & rest & -> & Hfirst & Hrest).
  exists x, (existT request reply :: first), rest. split_and!; [done|by exists reply|done].
Qed.

Lemma conducted_try {E A B} (attempt : Attempt E A) (k : A → Attempt E B) trace outcome :
  conducted (try attempt k) trace outcome →
  (∃ e, outcome = Err e ∧ conducted attempt trace (Err e)) ∨
  ∃ x first rest, trace = first ++ rest ∧ conducted attempt first (Ok x) ∧ conducted (k x) rest outcome.
Proof.
  intros ([x|e] & first & rest & -> & Hfirst & Hrest)%conducted_and_then; [by right; exists x, first, rest|].
  destruct rest; [|done]. cbn in Hrest. subst. left. exists e. by rewrite app_nil_r.
Qed.

Lemma conducted_map_err {E F A} (f : E → F) (attempt : Attempt E A) trace outcome :
  conducted (attempt_map_err f attempt) trace outcome →
  ∃ outcome', outcome = map_err f outcome' ∧ conducted attempt trace outcome'.
Proof.
  intros (outcome' & first & rest & -> & Hfirst & Hrest)%conducted_and_then.
  destruct rest; [|done]. exists outcome'. by rewrite app_nil_r.
Qed.

(** A command: the process, then what is recorded of it. *)
Lemma conducted_spawned program args stdin trace outcome :
  conducted (spawned program args stdin) trace outcome →
  ∃ process rest,
    trace = existT (Request_Gate CoreId_Tunnel "spawn" (url_for program args)) ()
            :: existT (Request_Spawn program args stdin) process :: rest ∧
    Forall (λ event : Event, ∃ exchange, projT1 event = Request_Observe CoreId_Tunnel exchange) rest ∧
    outcome = match process with
              | Ok output => finish program output
              | Err source => Err (CommandError_Spawn program source)
              end.
Proof.
  unfold spawned. destruct trace as [|event [|event' rest]]; cbn; [done|by intros (? & _ & [])|].
  intros ([] & -> & process & -> & Hrest). exists process, rest.
  destruct process as [output|source]; destruct rest as [|event [|]]; try done.
  - destruct Hrest as ([] & -> & ->). split_and!; [done| |done]. constructor; [by eexists|constructor].
  - by destruct Hrest as (? & ? & []).
Qed.

(** Every request of a script. *)
Fixpoint always {A} (P : Request → Prop) (script : Script A) : Prop :=
  match script with
  | Return _ => True
  | Step request next => P request ∧ ∀ reply, always P (next reply)
  end.

Lemma always_and_then {A B} P (script : Script A) (k : A → Script B) :
  always P script → (∀ x, always P (k x)) → always P (and_then script k).
Proof.
  intros Hscript Hk. induction script as [x|request next IH]; [apply Hk|].
  split; [apply Hscript|]. intros reply. apply IH, Hscript.
Qed.

Lemma always_try {E A B} P (attempt : Attempt E A) (k : A → Attempt E B) :
  always P attempt → (∀ x, always P (k x)) → always P (try attempt k).
Proof. intros Ha Hk. apply always_and_then; [done|]. intros [x|e]; [apply Hk|done]. Qed.

Lemma always_map_err {E F A} P (f : E → F) (attempt : Attempt E A) :
  always P attempt → always P (attempt_map_err f attempt).
Proof. intros Ha. by apply always_and_then. Qed.

Lemma always_try_each {E A} P (f : A → Attempt E ()) l :
  (∀ x, x ∈ l → always P (f x)) → always P (try_each f l).
Proof.
  induction l as [|x l IH]; intros Hf; [done|]. apply always_try; [apply Hf; set_solver|].
  intros _. apply IH. intros y Hy. apply Hf. set_solver.
Qed.

Lemma always_conducted {A} P (script : Script A) trace x :
  always P script → conducted script trace x → Forall (λ event : Event, P (projT1 event)) trace.
Proof.
  revert trace. induction script as [y|request next IH]; intros [|event trace] Halways Hconducted; try done.
  destruct Hconducted as (reply & -> & Hnext). destruct Halways as [Hrequest Hreplies].
  constructor; [done|]. by apply (IH reply).
Qed.

(** ** Where the keys go *)

(** The configuration with its secret keys blanked. *)
Definition blank (key : string) : string := t (repeat "*"%char (String.length key)).
Definition hide_peer (peer : PeerConfig) : PeerConfig :=
  {| peer with preshared_key := blank <$> preshared_key peer |}.
Definition hide_keys (config : TunnelShellConfig) : TunnelShellConfig :=
  let wg := wg config in
  let interface := interface wg in
  {| config with
     wg := {| interface := {| interface with private_key := blank (private_key interface) |};
              peers := map hide_peer (peers wg) |} |}.

(** Scripts that request the same, in the same order, for the same replies, and come to the same; only
    what [wg] is fed differs, and not in length. *)
Inductive alike {A} : Script A → Script A → Prop :=
  | alike_return x : alike (Return x) (Return x)
  | alike_step request next next' :
      (∀ reply, alike (next reply) (next' reply)) → alike (Step request next) (Step request next')
  | alike_keys args keys keys' (next next' : Process → Script A) :
      String.length keys = String.length keys' → (∀ reply, alike (next reply) (next' reply)) →
      alike (Step (Request_Spawn "wg" args (Some keys)) next)
            (Step (Request_Spawn "wg" args (Some keys')) next').

Lemma alike_refl {A} (script : Script A) : alike script script.
Proof. induction script; by constructor. Qed.

Lemma alike_and_then {A B} (script script' : Script A) (k k' : A → Script B) :
  alike script script' → (∀ x, alike (k x) (k' x)) → alike (and_then script k) (and_then script' k').
Proof. intros Hscript Hk. induction Hscript; cbn; [done|by constructor|by constructor]. Qed.

Lemma alike_try {E A B} (attempt attempt' : Attempt E A) (k k' : A → Attempt E B) :
  alike attempt attempt' → (∀ x, alike (k x) (k' x)) → alike (try attempt k) (try attempt' k').
Proof. intros Ha Hk. apply alike_and_then; [done|]. intros [x|e]; [done|constructor]. Qed.

Lemma alike_map_err {E F A} (f : E → F) (attempt attempt' : Attempt E A) :
  alike attempt attempt' → alike (attempt_map_err f attempt) (attempt_map_err f attempt').
Proof. intros Ha. apply alike_and_then; [done|]. constructor. Qed.

Lemma alike_fed args keys keys' :
  String.length keys = String.length keys' →
  alike (run_with_stdin "wg" args keys) (run_with_stdin "wg" args keys').
Proof.
  intros Hlength. constructor. intros _. constructor; [done|]. intros [output|source]; [|constructor].
  cbn. rewrite Hlength. apply alike_refl.
Qed.

Lemma length_blank key : String.length (blank key) = String.length key.
Proof. unfold blank, t. induction (String.length key); cbn; [done|by f_equal]. Qed.
Lemma length_fed private preshared :
  String.length (say (private :: match preshared with Some key => [nl; key] | None => [] end))
  = String.length (say (blank private :: match blank <$> preshared with Some key => [nl; key] | None => [] end)).
Proof.
  assert (∀ x y, String.length (x ++ y)%string = (String.length x + String.length y)%nat) as Happ
    by (intros x y; induction x as [|c x IH]; [done|exact (f_equal S IH)]).
  unfold say. destruct preshared as [key|]; cbn [fmap option_fmap option_map String.concat];
    by rewrite ?Happ, ?length_blank.
Qed.

Lemma numbered_map {A B} (f : A → B) l first :
  numbered first (map f l) = map (λ '(i, x), (i, f x)) (numbered first l).
Proof. revert first. induction l as [|x l IH]; intros first; cbn; [done|]. f_equal. apply IH. Qed.

Lemma other_peers_hidden peers peer_index :
  map public_key (other_peers (map hide_peer peers) peer_index) = map public_key (other_peers peers peer_index).
Proof.
  unfold other_peers. rewrite numbered_map. generalize (numbered 0 peers). intros l.
  induction l as [|[i peer] l IH]; cbn; [done|]. destruct (i =? peer_index); cbn; [done|]. f_equal. exact IH.
Qed.

Lemma set_wg_alike config peer_index replace :
  alike (set_wg_interface config peer_index replace) (set_wg_interface (hide_keys config) peer_index replace).
Proof.
  unfold set_wg_interface. cbn [hide_keys interface_name wg interface peers listen_port private_key].
  rewrite list_lookup_fmap. destruct (peers (wg config) !! Z.to_nat peer_index) as [peer|]; cbn [fmap option_fmap option_map];
    [|constructor].
  apply alike_try; [apply alike_refl|]. intros endpoint. cbv zeta.
  assert (∀ l : list PeerConfig, flat_map (λ other, ["peer"; public_key other; "remove"]) l
    = flat_map (λ key, ["peer"; key; "remove"]) (map public_key l)) as Hremoved.
  { intros l. induction l; cbn; [done|]. by do 3 f_equal. }
  rewrite !Hremoved, other_peers_hidden. cbn [hide_peer public_key allowed_ips persistent_keepalive preshared_key].
  apply alike_try; [|intros _; constructor]. apply alike_map_err.
  destruct (preshared_key peer) as [key|]; cbn [fmap option_fmap option_map]; apply alike_fed;
    [apply (length_fed _ (Some key))|apply (length_fed _ None)].
Qed.

(** Two lists of steps that are alike one by one. *)
Lemma alike_try_each {E A B} (f : A → Attempt E ()) (g : B → Attempt E ()) (h : A → B) l :
  (∀ x, alike (f x) (g (h x))) → alike (try_each f l) (try_each g (map h l)).
Proof. intros Hf. induction l as [|x l IH]; [constructor|]. cbn. by apply alike_try. Qed.

Lemma endpoints_hidden config :
  peer_endpoints_for_ruleset (hide_keys config) = peer_endpoints_for_ruleset config.
Proof.
  unfold peer_endpoints_for_ruleset. cbn. generalize (peers (wg config)). intros l.
  induction l as [|peer l IH]; cbn; [done|]. destruct (endpoint peer); cbn; [by f_equal|done].
Qed.

Section work.
Context `{JsonText, Timestamps}.

Lemma configure_alike config : alike (configure_interface config) (configure_interface (hide_keys config)).
Proof.
  assert (alike (configure_created config) (configure_created (hide_keys config))) as Hcreated.
  { unfold configure_created. cbv zeta. apply alike_try; [apply set_wg_alike|]. intros _.
    do 3 (apply alike_try; [apply alike_refl|]; intros _).
    apply alike_try; [|intros; apply alike_refl].
    apply (alike_try_each pin_underlay_route pin_underlay_route hide_peer). intros peer. apply alike_refl. }
  unfold configure_interface. cbv zeta. apply alike_and_then; [apply alike_refl|]. intros _.
  apply alike_try; [apply alike_refl|]. intros _. apply alike_and_then; [done|]. intros. apply alike_refl.
Qed.

(** C36: the secret keys reach only the standard input of [wg]. Whatever action the core has the shell
    carry out, the shell would ask the same of the system, in the same order, record the same
    for its observability and report the same to the core if the keys of the configuration were blanked,
    for all that the system may reply; only the text that [wg] reads differs. *)
Theorem keys_reach_only_wg config opened action :
  match dispatch config opened action, dispatch (hide_keys config) opened action with
  | Dispatched_Work work, Dispatched_Work work' => alike work work'
  | Dispatched_Timer timer after, Dispatched_Timer timer' after' => timer = timer' ∧ after = after'
  | _, _ => False
  end.
Proof.
  destruct action; cbn [dispatch]; try (apply alike_refl); try done.
  - unfold spawn_install_pre_tunnel_firewall, build_nft_pre_tunnel_ruleset. rewrite endpoints_hidden. apply alike_refl.
  - apply alike_and_then; [apply configure_alike|]. intros. apply alike_refl.
  - unfold spawn_install_firewall, build_nft_ruleset. rewrite endpoints_hidden. apply alike_refl.
  - unfold spawn_poll_handshake. cbn [hide_keys wg peers]. rewrite list_lookup_fmap.
    destruct (_ !! _); apply alike_refl.
  - apply alike_and_then; [apply set_wg_alike|]. intros. apply alike_refl.
Qed.

(** ** How the interface comes up *)

(** A command that was run, with what came of it. *)
Definition ran (program : string) (args : list string) (process : Process) : Event :=
  existT (Request_Spawn program args None) process.
Definition succeeded (process : Process) : Prop := ∃ output, process = Ok output ∧ status_code output = Some 0.

(** The default route is given to the tunnel. *)
Definition takes_over (config : TunnelShellConfig) (request : Request) : Prop :=
  request = Request_Spawn "ip" ["route"; "replace"; "default"; "dev"; interface_name config] None.
(** The way to an address was fixed: a route of its own to it was set. *)
Definition pinned (ip : IpAddr) (trace : list Event) : Prop :=
  ∃ hop process, ran "ip" (["route"; "replace"; host_route ip] ++ hop_args hop) process ∈ trace ∧ succeeded process.

Lemma finish_Ok program output outcome : finish program output = Ok outcome → status_code output = Some 0.
Proof.
  unfold finish. destruct (status_code output) as [code|]; [|done].
  destruct (Z.eqb_spec code 0) as [->|]; [done|done].
Qed.

(** A command that went well was run, and succeeded. *)
Lemma conducted_run_Ok program args trace outcome :
  conducted (run program args) trace (Ok outcome) → ∃ process, ran program args process ∈ trace ∧ succeeded process.
Proof.
  intros (process & rest & -> & _ & Houtcome)%conducted_spawned. exists process. split; [set_solver|].
  destruct process as [output|source]; [|done]. exists output. split; [done|]. symmetry in Houtcome. by eapply finish_Ok.
Qed.

Lemma pins_pinned config trace :
  conducted (pin_underlay_routes config) trace (Ok ()) →
  ∀ peer ip port, peer ∈ peers (wg config) → endpoint peer = Endpoint_Ip ip port → pinned ip trace.
Proof.
  unfold pin_underlay_routes. revert trace. induction (peers (wg config)) as [|peer l IH]; intros trace; [set_solver|].
  cbn [try_each]. intros [(? & ? & _)|([] & first & rest & -> & Hfirst & Hrest)]%conducted_try; [done|].
  intros peer' ip port [->|Hin]%elem_of_cons Hendpoint.
  - unfold pin_underlay_route in Hfirst. rewrite Hendpoint in Hfirst.
    apply conducted_try in Hfirst as [(? & ? & _)|(out & t1 & t2 & -> & _ & Hfirst)]; [done|].
    apply conducted_try in Hfirst as [(? & ? & _)|(hop & t3 & t4 & -> & _ & Hfirst)]; [done|].
    apply conducted_try in Hfirst as [(? & ? & _)|(out' & t5 & t6 & -> & Hpin & _)]; [done|].
    apply conducted_map_err in Hpin as ([outcome|] & [= ->] & (process & Hran & Hsucceeded)%conducted_run_Ok).
    exists hop, process. split; [|done]. rewrite !elem_of_app. tauto.
  - destruct (IH rest Hrest peer' ip port Hin Hendpoint) as (hop & process & ? & ?).
    exists hop, process. split; [|done]. rewrite elem_of_app. tauto.
Qed.

(** What precedes the first event of a kind, where none is in the first part. *)
Lemma first_of (P : Event → Prop) first rest before event after :
  Forall (λ event, ¬ P event) first → first ++ rest = before ++ event :: after → P event →
  ∃ before', before = first ++ before'.
Proof.
  intros Hquiet. revert before. induction Hquiet as [|e first He _ IH]; intros before Heq HP; [by exists before|].
  destruct before as [|e' before]; [cbn in Heq; congruence|]. cbn in Heq. injection Heq as <- Heq.
  destruct (IH before Heq HP) as (before' & ->). by exists before'.
Qed.

Lemma b_say pieces : b (say pieces) = concat (map b pieces).
Proof.
  unfold say. induction pieces as [|x [|y pieces] IH]; [done|by cbn; rewrite app_nil_r|].
  change (b (x +:+ EmptyString +:+ String.concat EmptyString (y :: pieces)) = b x ++ concat (map b (y :: pieces))).
  by rewrite !b_app, IH.
Qed.
Lemma slash_not_default x y pieces : say (x :: String "/" y :: pieces) ≠ "default".
Proof.
  intros Heq%(f_equal b). rewrite b_say in Heq.
  assert ("/"%char ∈ b "default") as Hin.
  { rewrite <-Heq. cbn [map concat]. rewrite !elem_of_app. right. left. apply list_elem_of_here. }
  revert Hin. by apply (bool_decide_unpack _).
Qed.

(** Only the one command gives the tunnel the default route. *)
Lemma spawned_elsewhere config program args stdin :
  (program, args, stdin) ≠ ("ip", ["route"; "replace"; "default"; "dev"; interface_name config], None) →
  always (λ request, ¬ takes_over config request) (spawned program args stdin).
Proof.
  intros Hother. split; [done|]. intros _. split; [by intros [= -> -> ->]|].
  intros [output|]; [|done]. by split.
Qed.

Lemma run_elsewhere config program first args :
  first ≠ "route" → always (λ request, ¬ takes_over config request) (run program (first :: args)).
Proof. intros Hfirst. apply spawned_elsewhere. congruence. Qed.

Ltac elsewhere :=
  repeat first
    [ apply always_try; [|intros] | apply always_map_err | apply always_try_each; intros | done
    | apply spawned_elsewhere; by intros [=] ].

Lemma set_wg_elsewhere config peer_index replace :
  always (λ request, ¬ takes_over config request) (set_wg_interface config peer_index replace).
Proof. unfold set_wg_interface. cbv zeta. destruct (_ !! _); elsewhere. Qed.

Lemma pin_underlay_elsewhere config peer :
  always (λ request, ¬ takes_over config request) (pin_underlay_route peer).
Proof.
  unfold pin_underlay_route. destruct (endpoint peer) as [ip port|]; [|done]. cbv zeta. elsewhere.
  apply spawned_elsewhere. intros [= Hdefault _]. revert Hdefault. destruct ip; apply slash_not_default.
Qed.

Lemma pin_local_elsewhere config network :
  always (λ request, ¬ takes_over config request) (pin_local_route network).
Proof.
  unfold pin_local_route. cbv zeta. destruct (net_addr network); elsewhere.
  apply spawned_elsewhere. intros [= Hdefault _]. revert Hdefault. apply slash_not_default.
Qed.
(** What happens up to some point does not give the tunnel the default route, or every peer is pinned
    before it may. *)
Definition ordered (config : TunnelShellConfig) (trace : list Event) : Prop :=
  Forall (λ event : Event, ¬ takes_over config (projT1 event)) trace ∨
  ∃ first rest, trace = first ++ rest ∧ Forall (λ event : Event, ¬ takes_over config (projT1 event)) first ∧
    ∀ peer ip port, peer ∈ peers (wg config) → endpoint peer = Endpoint_Ip ip port → pinned ip first.

(** The next stage: it fails, or what it did is known and the rest follows. *)
Ltac stage H quiet :=
  apply conducted_try in H as [(? & ? & H)|(? & ? & ? & -> & ?Hstage & H)];
  [left; pose proof (always_conducted _ _ _ _ quiet H); by repeat apply Forall_app_2
  |match goal with Hdone : conducted _ _ (Ok _) |- _ =>
     pose proof (always_conducted _ _ _ _ quiet Hdone); clear Hdone end].

Lemma created_order config trace outcome :
  conducted (configure_created config) trace outcome →
  ordered config trace.
Proof.
  set (P := λ request, ¬ takes_over config request).
  assert (always P (match mtu (interface (wg config)) with
                    | Some mtu =>
                        try (attempt_map_err (λ e, InterfaceConfigureFailure_MtuSet (CommandError_fmt e))
                               (run "ip" ["link"; "set"; "dev"; interface_name config; "mtu"; num mtu]))
                          (λ _, Return (Ok ()))
                    | None => Return (Ok ())
                    end)) as Hmtu by (destruct (mtu _); elsewhere).
  assert (always P (try_each (add_address (interface_name config)) (addresses (interface (wg config))))) as Haddresses
    by (unfold add_address; cbv zeta; elsewhere).
  assert (always P (attempt_map_err (λ e, InterfaceConfigureFailure_LinkUp (CommandError_fmt e))
                      (run "ip" ["link"; "set"; "dev"; interface_name config; "up"]))) as Hup by elsewhere.
  assert (always P (pin_underlay_routes config)) as Hpins
    by (apply always_try_each; intros; apply pin_underlay_elsewhere).
  unfold configure_created. cbv zeta. intros H1.
  stage H1 (set_wg_elsewhere config 0 true). stage H1 Hmtu. stage H1 Haddresses. stage H1 Hup.
  apply conducted_try in H1 as [(? & ? & H1)|([] & t5 & t6 & -> & Hpinned & H1)].
  { left. pose proof (always_conducted _ _ _ _ Hpins H1). by repeat apply Forall_app_2. }
  right. pose proof (always_conducted _ _ _ _ Hpins Hpinned).
  rewrite !app_assoc. eexists _, t6. split_and!; [done|by repeat apply Forall_app_2|].
  intros peer ip port Hin Hendpoint. destruct (pins_pinned config t5 Hpinned peer ip port Hin Hendpoint) as (hop & process & ? & ?).
  exists hop, process. rewrite !elem_of_app. tauto.
Qed.
(** The interface is not there in the end: it was never added, or the last command takes it down. *)
Definition taken_down (config : TunnelShellConfig) (trace : list Event) : Prop :=
  let iface := interface_name config in
  (∀ process, ran "ip" ["link"; "add"; "dev"; iface; "type"; "wireguard"] process ∈ trace → ¬ succeeded process) ∨
  ∃ before process rest,
    trace = before ++ ran "ip" ["link"; "del"; "dev"; iface] process :: rest ∧
    Forall (λ event : Event, ∃ exchange, projT1 event = Request_Observe CoreId_Tunnel exchange) rest.

Definition process_of (event : Event) : option Process :=
  let '(existT request reply) := event in
  match request as request return Reply request → option Process with
  | Request_Spawn _ _ _ => Some
  | _ => λ _, None
  end reply.

Lemma add_failed config trace e :
  conducted (run "ip" ["link"; "add"; "dev"; interface_name config; "type"; "wireguard"]) trace (Err e) →
  ∀ process, ran "ip" ["link"; "add"; "dev"; interface_name config; "type"; "wireguard"] process ∈ trace →
    ¬ succeeded process.
Proof.
  intros (process & rest & -> & Hrest & Houtcome)%conducted_spawned process' Hin (output & -> & Hcode).
  rewrite !elem_of_cons in Hin. destruct Hin as [[=]|[Hprocess|Hin]].
  - apply (f_equal process_of) in Hprocess as [= <-]. unfold finish in Houtcome. by rewrite Hcode in Houtcome.
  - rewrite Forall_forall in Hrest. by destruct (Hrest _ Hin).
Qed.
Lemma removal_last config before trace e (outcome : Result () InterfaceConfigureFailure) :
  conducted (and_then (run "ip" ["link"; "del"; "dev"; interface_name config])
               (λ _, Return (Err e : Result () InterfaceConfigureFailure))) trace outcome →
  taken_down config (before ++ trace).
Proof.
  intros (x & first & rest & -> & (process & rest' & -> & Hrest & _)%conducted_spawned & Hlast)%conducted_and_then.
  destruct rest; [|done]. right. rewrite app_nil_r.
  exists (before ++ [existT (Request_Gate CoreId_Tunnel "spawn"
                       (url_for "ip" ["link"; "del"; "dev"; interface_name config])) ()]), process, rest'.
  split; [by rewrite <-app_assoc|done].
Qed.

Lemma ordered_before config first trace :
  Forall (λ event : Event, ¬ takes_over config (projT1 event)) first → ordered config trace →
  ordered config (first ++ trace).
Proof.
  intros Hfirst [Hquiet|(t1 & t2 & -> & Hquiet & Hpins)]; [left; by apply Forall_app_2|].
  right. exists (first ++ t1), t2. split_and!; [by rewrite app_assoc|by apply Forall_app_2|].
  intros peer ip port Hin Hendpoint. destruct (Hpins peer ip port Hin Hendpoint) as (hop & process & ? & ?).
  exists hop, process. rewrite elem_of_app. tauto.
Qed.

Lemma ordered_after config trace rest :
  Forall (λ event : Event, ¬ takes_over config (projT1 event)) rest → ordered config trace →
  ordered config (trace ++ rest).
Proof.
  intros Hrest [Hquiet|(t1 & t2 & -> & Hquiet & Hpins)]; [left; by apply Forall_app_2|].
  right. exists t1, (t2 ++ rest). by rewrite app_assoc.
Qed.

Lemma removal_elsewhere {E} config (outcome : Result () E) :
  always (λ request, ¬ takes_over config request)
    (and_then (run "ip" ["link"; "del"; "dev"; interface_name config]) (λ _, Return outcome)).
Proof. by apply always_and_then; [apply run_elsewhere|]. Qed.

(** The stages of the configuration: the old interface goes, the new one is added, it is configured,
    and it goes too if that fails. *)
Lemma configure_stages config trace outcome :
  conducted (configure_interface config) trace outcome →
  ordered config trace ∧ ∀ reason, outcome = Err reason → taken_down config trace.
Proof.
  unfold configure_interface. cbv zeta.
  intros (x & deleted & rest & -> & Hdeleted & Hadd)%conducted_and_then.
  pose proof (always_conducted (λ request, ¬ takes_over config request) _ _ _
    (run_elsewhere config "ip" "link" _ ltac:(done)) Hdeleted) as Hquiet.
  apply conducted_try in Hadd as [(e & -> & Hadd)|(out & added & created & -> & Hadd & Hcreated)];
    pose proof (always_conducted (λ request, ¬ takes_over config request) _ _ _
      (always_map_err _ _ _ (run_elsewhere config "ip" "link" _ ltac:(done))) Hadd) as Hquiet'.
  - split; [left; by apply Forall_app_2|]. intros _ _. left.
    apply conducted_map_err in Hadd as ([|e'] & [= ->] & Hadd). intros process'.
    rewrite elem_of_app. intros [Hin|Hin]; [|by eapply add_failed].
    apply conducted_spawned in Hdeleted as (process & observed & -> & Hobserved & _).
    rewrite !elem_of_cons in Hin. destruct Hin as [[=]|[Hin|Hin]].
    + by apply (f_equal (@projT1 _ _)) in Hin.
    + rewrite Forall_forall in Hobserved. by destruct (Hobserved _ Hin).
  - apply conducted_and_then in Hcreated as (outcome' & first & rest & -> & Hfirst%created_order & Hrest).
    destruct outcome' as [[]|reason].
    + destruct rest; [|done]. rewrite app_nil_r. cbn in Hrest. split; [|by intros ? ->].
      do 2 (apply ordered_before; [done|]). done.
    + pose proof (always_conducted _ _ _ _ (removal_elsewhere config (Err reason)) Hrest) as Hquiet''.
      split; [do 2 (apply ordered_before; [done|]); by apply ordered_after|].
      intros _ _. rewrite !app_assoc. by eapply removal_last.
Qed.

End work.

(** ** What the kill switch lets out *)

(** A packet that leaves: through which interface, of a connection known or not, and where to. *)
Record Packet := mkPacket {
  out_interface : string;
  established : bool;
  destination : IpAddr;
  protocol : string;
  destination_port : Z;
}.

(** What a rule accepts, as [nft] documents it. *)
Inductive Accept :=
  | Accept_Interface (name : string)
  | Accept_Established
  | Accept_To (ip : IpAddr) (protocol : string) (port : Z).
Definition accepts (packet : Packet) (rule : Accept) : Prop :=
  match rule with
  | Accept_Interface name => out_interface packet = name
  | Accept_Established => established packet = true
  | Accept_To ip wanted port =>
      destination packet = ip ∧ protocol packet = wanted ∧ destination_port packet = port
  end.

(** Reading a ruleset: the table, replaced whole, with one chain on the way out that drops what no rule
    accepts; [None] if a line is not understood. *)
Definition words (line : bytes) : list bytes := List.filter (λ w, negb (is_empty w)) (Text.split " " line).
Definition unquoted (word : bytes) : option bytes :=
  match word with
  | c :: rest => if c ==? ascii_of_nat 34 then PocConfig.strip_suffix (ascii_of_nat 34) rest else None
  | [] => None
  end.
Definition is_family (family : string) (ip : IpAddr) : bool :=
  family ==? match ip with IpAddr_V4 _ => "ip" | IpAddr_V6 _ => "ip6" end.
Definition read_rule (line : bytes) : option Accept :=
  match map t (words line) with
  | [oifname; name; accept] =>
      if (oifname ==? "oifname") && (accept ==? "accept")
      then (λ name, Accept_Interface (t name)) <$> unquoted (b name) else None
  | [ct; state; states; accept] =>
      if [ct; state; states; accept] ==? ["ct"; "state"; "established,related"; "accept"]
      then Some Accept_Established else None
  | [family; daddr; address; protocol; dport; port; accept] =>
      ip ← parse_ip (b address);
      port ← parse_unsigned u16_max (b port);
      if is_family family ip && ([daddr; dport; accept] ==? ["daddr"; "dport"; "accept"])
         && existsb (String.eqb protocol) ["udp"; "tcp"]
      then Some (Accept_To ip protocol port) else None
  | _ => None
  end.

Definition table_head : list bytes :=
  map b ["table inet windlass_killswitch"; "delete table inet windlass_killswitch";
         "table inet windlass_killswitch {"; "  chain output {";
         "    type filter hook output priority filter; policy drop;"].
Definition table_foot : list bytes := map b ["  }"; "}"].
Definition read_ruleset (text : string) : option (list Accept) :=
  let lines := text_lines (b text) in
  let rules := drop (length table_head) lines in
  let count := (length rules - length table_foot)%nat in
  if (take (length table_head) lines ==? table_head) && (drop count rules ==? table_foot)
  then mapM read_rule (take count rules) else None.

(** The words of a rule, and its line. *)
Definition words_of (rule : Accept) : list bytes :=
  match rule with
  | Accept_Interface name => [b "oifname"; b (quoted name); b "accept"]
  | Accept_Established => map b ["ct"; "state"; "established,related"; "accept"]
  | Accept_To ip protocol port =>
      [b match ip with IpAddr_V4 _ => "ip" | IpAddr_V6 _ => "ip6" end; b "daddr"; print_ip ip; b protocol;
       b "dport"; print_Z port; b "accept"]
  end.
Definition line_of (rule : Accept) : bytes := join " " ([[]; []; []; []] ++ words_of rule).
Definition ended (line : bytes) : bytes := line ++ ["010"%char].

(** A name that can stand between quotes, and a rule that can be written. *)
Definition plain (name : string) : Prop :=
  Forall (λ c, is_ascii_graphic c = true ∧ c ≠ ascii_of_nat 34) (b name).
Definition rule_ok (rule : Accept) : Prop :=
  match rule with
  | Accept_Interface name => plain name
  | Accept_Established => True
  | Accept_To ip protocol port => IpAddr_ok ip ∧ 0 ≤ port ≤ u16_max ∧ protocol ∈ ["udp"; "tcp"]
  end.

Lemma b_accept_rule protocol ip port : b (accept_rule protocol ip port) = ended (line_of (Accept_To ip protocol port)).
Proof.
  unfold accept_rule, ended, line_of, words_of, ip_text, num. rewrite b_say. cbn [map concat]. rewrite !b_t.
  by destruct ip; simpl; repeat (rewrite <-app_assoc; simpl).
Qed.

Lemma b_accept_interface name : b (accept_interface name) = ended (line_of (Accept_Interface name)).
Proof.
  unfold accept_interface, ended, line_of, words_of. rewrite b_say. cbn [map concat].
  generalize (b (quoted name)). intros word. by simpl; repeat (rewrite <-app_assoc; simpl).
Qed.

Lemma b_table_text rules :
  b (table_text rules) = concat (map ended table_head) ++ concat (map b rules) ++ concat (map ended table_foot).
Proof. unfold table_text. by rewrite b_say, !map_app, !concat_app. Qed.

Lemma b_says {A} (f : A → string) l : b (say (map f l)) = concat (map (b ∘ f) l).
Proof. by rewrite b_say, map_map. Qed.

Lemma split_join c parts : parts ≠ [] → Forall (λ part, c ∉ part) parts → Text.split c (join c parts) = parts.
Proof.
  induction parts as [|part parts IH]; intros Hne Hall; [done|]. apply Forall_cons_iff in Hall as [Hpart Hall].
  destruct parts as [|part' parts]; [by apply split_last|].
  cbn [join]. rewrite split_app by done. f_equal. by apply IH.
Qed.

Lemma text_lines_ended lines :
  Forall (λ line, Forall (λ c, c ≠ "010"%char ∧ c ≠ "013"%char) line) lines →
  text_lines (concat (map ended lines)) = lines.
Proof.
  intros Hlines.
  assert (Text.split "010" (concat (map ended lines)) = lines ++ [[]]) as Hsplit.
  { induction Hlines as [|line lines Hline _ IH]; [done|]. cbn [map concat]. unfold ended at 1.
    rewrite <-app_assoc. cbn [app]. rewrite split_app; [by rewrite IH|].
    intros Hin. rewrite Forall_forall in Hline. by destruct (Hline _ Hin). }
  unfold text_lines. cbv zeta. rewrite Hsplit, removelast_last, last_last. cbn [is_empty]. rewrite app_nil_r.
  induction Hlines as [|line lines Hline Hrest IH]; [done|]. cbn [map]. f_equal.
  - unfold end_stripped, PocConfig.strip_suffix. destruct (rev line) as [|c r] eqn:Hrev; [done|].
    rewrite bool_decide_eq_false_2; [done|]. intros ->. rewrite Forall_forall in Hline.
    apply (Hline "013"%char); [|done]. apply list_elem_of_In, in_rev. rewrite Hrev. by left.
  - apply IH. clear -Hrest. induction Hrest as [|line' lines' Hline' _ IH']; [done|].
    cbn [map concat]. unfold ended at 1. rewrite <-app_assoc. cbn [app]. rewrite split_app; [by rewrite IH'|].
    intros Hin. rewrite Forall_forall in Hline'. by destruct (Hline' _ Hin).
Qed.

(** What the text of an address or a number is made of. *)
Lemma join_graphic c parts :
  is_ascii_graphic c = true → Forall (Forall (λ c, is_ascii_graphic c = true)) parts →
  Forall (λ c, is_ascii_graphic c = true) (join c parts).
Proof.
  intros Hc Hparts. induction Hparts as [|part [|part' parts] Hpart _ IH]; [done|done|].
  cbn [join]. apply Forall_app_2; [done|]. by constructor.
Qed.

Lemma print_hex_graphic g : 0 ≤ g < 65536 → Forall (λ c, is_ascii_graphic c = true) (print_hex g).
Proof.
  intros Hg.
  assert (∀ d, 0 ≤ d < 16 → is_ascii_graphic (hex_char d) = true) as Hc.
  { intros d Hd. by assert (d = 0 ∨ d = 1 ∨ d = 2 ∨ d = 3 ∨ d = 4 ∨ d = 5 ∨ d = 6 ∨ d = 7 ∨ d = 8 ∨ d = 9 ∨
      d = 10 ∨ d = 11 ∨ d = 12 ∨ d = 13 ∨ d = 14 ∨ d = 15) as Hcases by lia; destruct_or!; subst. }
  unfold print_hex. cbv zeta. apply List.Forall_map.
  repeat case_match; repeat constructor; apply Hc; Z.div_mod_to_equations; lia.
Qed.

Lemma print_ip_plain ip : IpAddr_ok ip → print_ip ip ≠ [] ∧ Forall (λ c, is_ascii_graphic c = true) (print_ip ip).
Proof.
  intros Hip. split. { intros Hnil. pose proof (address_round_trip ip Hip) as Hread. by rewrite Hnil in Hread. }
  assert (∀ bits, 0 ≤ bits < 2 ^ 32 → Forall (λ c, is_ascii_graphic c = true) (print_ipv4 bits)) as Hv4.
  { intros bits Hbits. unfold print_ipv4. apply join_graphic; [done|]. apply List.Forall_map.
    pose proof (octets_range bits Hbits) as Hoctets. eapply List.Forall_impl; [|exact Hoctets]. cbn. intros n Hn.
    eapply List.Forall_impl; [apply digit_graphic|apply print_nat_digits; lia]. }
  destruct ip as [bits|bits]; [by apply Hv4|]. cbn [print_ip]. unfold print_ipv6. destruct (_ =? _).
  - apply Forall_app_2; [by repeat constructor|]. apply Hv4. apply Z.mod_pos_bound. lia.
  - pose proof (segments_range bits) as Hsegments. destruct (zero_run _) as [start len].
    assert (∀ l, Forall (λ g, 0 ≤ g < 65536) l →
      Forall (λ c, is_ascii_graphic c = true) (join ":" (map print_hex l))) as Hgroups.
    { intros l Hl. apply join_graphic; [done|]. apply List.Forall_map. eapply List.Forall_impl; [|exact Hl]. apply print_hex_graphic. }
    destruct (1 <? len)%nat; [|by apply Hgroups].
    apply Forall_app_2; [by apply Hgroups, Forall_take|]. apply Forall_app_2; [by repeat constructor|].
    by apply Hgroups, Forall_drop.
Qed.

Lemma word_plain l :
  Forall (λ c, is_ascii_graphic c = true) l → (" "%char ∉ l) ∧
  Forall (λ c, c ≠ "010"%char ∧ c ≠ "013"%char) l.
Proof.
  intros Hl. split; [intros Hin; rewrite Forall_forall in Hl; by specialize (Hl _ Hin)|].
  eapply List.Forall_impl; [|exact Hl]. cbn. intros c Hc. split; by intros ->.
Qed.

Lemma b_quoted name : b (quoted name) = ascii_of_nat 34 :: b name ++ [ascii_of_nat 34].
Proof. unfold quoted. cbv zeta. rewrite b_say. cbn [map concat]. by rewrite app_nil_r. Qed.

Lemma words_of_plain rule :
  rule_ok rule → Forall (λ word, word ≠ [] ∧ Forall (λ c, is_ascii_graphic c = true) word) (words_of rule).
Proof.
  intros Hok. destruct rule as [name| |ip protocol port]; cbn [words_of map].
  - constructor; [by repeat constructor|]. constructor; [|by repeat constructor]. rewrite b_quoted.
    split; [done|]. constructor; [done|]. apply Forall_app_2; [|by repeat constructor].
    eapply List.Forall_impl; [|exact Hok]. by intros c [? _].
  - repeat constructor; done.
  - destruct Hok as (Hip & Hport & Hprotocol).
    destruct (print_ip_plain ip Hip) as [Hne Hplain].
    constructor; [by destruct ip; repeat constructor|]. constructor; [by repeat constructor|].
    constructor; [done|].
    constructor; [by (rewrite !elem_of_cons in Hprotocol; destruct Hprotocol as [->|[->|?%elem_of_nil]]; repeat constructor)|].
    constructor; [by repeat constructor|].
    constructor; [|by repeat constructor].
    unfold print_Z. destruct (Z.ltb_spec port 0); [lia|].
    destruct (print_nat_cons port) as (c & l & -> & Hall); [lia|]. split; [done|].
    eapply List.Forall_impl; [apply digit_graphic|done].
Qed.

Lemma words_line rule : rule_ok rule → words (line_of rule) = words_of rule.
Proof.
  intros Hok. pose proof (words_of_plain rule Hok) as Hplain. unfold words, line_of.
  rewrite split_join; [|done|].
  - rewrite List.filter_app. cbn [List.filter is_empty negb app]. clear Hok.
    induction Hplain as [|word l [Hne _] _ IH]; [done|]. cbn [List.filter]. rewrite IH. by destruct word.
  - apply Forall_app_2; [by repeat (constructor; [set_solver|])|].
    eapply List.Forall_impl; [|exact Hplain]. intros word [_ Hword]. by apply word_plain.
Qed.

Lemma line_plain rule : rule_ok rule → Forall (λ c, c ≠ "010"%char ∧ c ≠ "013"%char) (line_of rule).
Proof.
  intros Hok. pose proof (words_of_plain rule Hok) as Hplain. unfold line_of.
  assert (∀ parts, Forall (λ part, Forall (λ c, c ≠ "010"%char ∧ c ≠ "013"%char) part) parts →
    Forall (λ c, c ≠ "010"%char ∧ c ≠ "013"%char) (join " " parts)) as Hjoin.
  { intros parts Hparts. induction Hparts as [|part [|part' parts] Hpart _ IH]; [done|done|].
    cbn [join]. apply Forall_app_2; [done|]. by constructor. }
  apply Hjoin, Forall_app_2; [by repeat constructor|].
  eapply List.Forall_impl; [|exact Hplain]. intros word [_ Hword]. by apply word_plain.
Qed.

Lemma read_rule_line rule : rule_ok rule → read_rule (line_of rule) = Some rule.
Proof.
  intros Hok. unfold read_rule. rewrite words_line by done. destruct rule as [name| |ip protocol port]; cbn [words_of map].
  - rewrite !t_b, !bool_decide_eq_true_2 by done. cbn [andb]. rewrite b_quoted. cbn [unquoted]. rewrite bool_decide_eq_true_2 by done.
    unfold PocConfig.strip_suffix. rewrite rev_app_distr. cbn [rev app].
    rewrite bool_decide_eq_true_2 by done. cbn. by rewrite rev_involutive, t_b.
  - by rewrite bool_decide_eq_true_2.
  - destruct Hok as (Hip & Hport & Hprotocol). rewrite !b_t, address_round_trip by done. cbn [mbind option_bind].
    unfold print_Z. destruct (Z.ltb_spec port 0); [lia|]. rewrite parse_print_unsigned by done. cbn [mbind option_bind].
    rewrite !t_b. unfold is_family. rewrite !bool_decide_eq_true_2 by done. cbn [andb].
    rewrite !elem_of_cons in Hprotocol. by destruct Hprotocol as [->|[->|?%elem_of_nil]].
Qed.

Lemma ruleset_read rules :
  Forall rule_ok rules →
  ∀ text, b text = concat (map ended table_head) ++ concat (map (ended ∘ line_of) rules) ++ concat (map ended table_foot) →
  read_ruleset text = Some rules.
Proof.
  intros Hrules text Htext. unfold read_ruleset.
  replace (b text) with (concat (map ended (table_head ++ map line_of rules ++ table_foot)))
    by by rewrite Htext, !map_app, !concat_app, map_map.
  rewrite text_lines_ended.
  - cbv zeta. rewrite take_app_length, drop_app_length, length_app, Nat.add_sub, drop_app_length, take_app_length.
    rewrite !bool_decide_eq_true_2 by done. cbn [andb].
    clear Htext. induction Hrules as [|rule rules Hrule _ IH]; [done|]. cbn [map mapM].
    rewrite read_rule_line by done. cbn [mbind option_bind]. by rewrite IH.
  - rewrite !Forall_app. split_and!; [by apply (bool_decide_unpack _); vm_compute| |by apply (bool_decide_unpack _); vm_compute].
    apply List.Forall_map. eapply List.Forall_impl; [|exact Hrules]. intros rule. apply line_plain.
Qed.

(** ** The two rulesets *)
Definition peer_rules (config : TunnelShellConfig) : list Accept :=
  map (λ '(ip, port), Accept_To ip "udp" port) (peer_endpoints_for_ruleset config).
Definition tcp_rules (config : TunnelShellConfig) : list Accept :=
  map (λ endpoint, Accept_To (socket_ip endpoint) "tcp" (socket_port endpoint)) (allowed_tcp_endpoints config).
Definition kill_switch (interfaces : list string) (config : TunnelShellConfig) : list Accept :=
  map Accept_Interface interfaces ++ [Accept_Established] ++ peer_rules config ++ tcp_rules config.

(** A configuration whose addresses are addresses and whose interface has a name. *)
Definition config_ok (config : TunnelShellConfig) : Prop :=
  plain (interface_name config) ∧
  Forall (λ '(ip, port), IpAddr_ok ip ∧ 0 ≤ port ≤ u16_max) (peer_endpoints_for_ruleset config) ∧
  Forall (λ endpoint, IpAddr_ok (socket_ip endpoint) ∧ 0 ≤ socket_port endpoint ≤ u16_max)
    (allowed_tcp_endpoints config).

Lemma kill_switch_ok interfaces config :
  config_ok config → Forall plain interfaces → Forall rule_ok (kill_switch interfaces config).
Proof.
  intros (_ & Hpeers & Htcp) Hinterfaces. unfold kill_switch, peer_rules, tcp_rules.
  repeat apply Forall_app_2; [by apply List.Forall_map|by repeat constructor| |];
    apply List.Forall_map; (eapply List.Forall_impl; [|eassumption]).
  - intros [ip port] [Hip Hport]. split; [done|split; [done|by repeat constructor]].
  - intros endpoint [Hip Hport]. split; [done|split; [done|by repeat constructor]].
Qed.

Lemma b_peer_rules config :
  b (append_peer_underlay_rules (peer_endpoints_for_ruleset config)) = concat (map (ended ∘ line_of) (peer_rules config)).
Proof.
  unfold append_peer_underlay_rules, peer_rules. rewrite b_says, map_map. f_equal. apply map_ext.
  intros [ip port]. apply b_accept_rule.
Qed.
Lemma b_tcp_rules config :
  b (append_allowed_tcp_rules (allowed_tcp_endpoints config)) = concat (map (ended ∘ line_of) (tcp_rules config)).
Proof.
  unfold append_allowed_tcp_rules, tcp_rules. rewrite b_says, map_map. f_equal. apply map_ext.
  intros endpoint. apply b_accept_rule.
Qed.

Lemma ruleset_reads interfaces config :
  config_ok config → Forall plain interfaces →
  read_ruleset (table_text
    (map accept_interface interfaces ++
     [say ["    ct state established,related accept"; nl];
      append_peer_underlay_rules (peer_endpoints_for_ruleset config);
      append_allowed_tcp_rules (allowed_tcp_endpoints config)])) = Some (kill_switch interfaces config).
Proof.
  intros Hconfig Hinterfaces. apply ruleset_read; [by apply kill_switch_ok|].
  rewrite b_table_text. unfold kill_switch. rewrite !map_app, !concat_app. cbn [map concat].
  rewrite b_peer_rules, b_tcp_rules, !map_map, !app_nil_r.
  rewrite (map_ext _ _ b_accept_interface). by rewrite <-!app_assoc.
Qed.

(** What may leave the namespace: through the loopback interface, and through the tunnel once it is up; what
    belongs to a known connection; and outside the tunnel what goes to a peer, or by TCP to an endpoint the
    configuration allows. *)
Definition lets_out (config : TunnelShellConfig) (tunnelled : bool) (packet : Packet) : Prop :=
  out_interface packet = "lo" ∨
  (tunnelled = true ∧ out_interface packet = interface_name config) ∨
  established packet = true ∨
  (protocol packet = "udp" ∧
     ∃ peer, peer ∈ peers (wg config) ∧ endpoint peer = Endpoint_Ip (destination packet) (destination_port packet)) ∨
  (protocol packet = "tcp" ∧
     ∃ endpoint, endpoint ∈ allowed_tcp_endpoints config ∧
       socket_ip endpoint = destination packet ∧ socket_port endpoint = destination_port packet).

Lemma peers_accepted config packet :
  Exists (accepts packet) (peer_rules config) ↔
  protocol packet = "udp" ∧
  ∃ peer, peer ∈ peers (wg config) ∧ endpoint peer = Endpoint_Ip (destination packet) (destination_port packet).
Proof.
  unfold peer_rules. rewrite Exists_exists. setoid_rewrite list_elem_of_fmap. split.
  - intros (rule & ([ip port] & -> & (peer & Hpeer & Hendpoint)%list_elem_of_omap) & -> & -> & ->).
    split; [done|]. exists peer. split; [done|]. by destruct (endpoint peer); simplify_eq/=.
  - intros (Hudp & peer & Hpeer & Hendpoint). exists (Accept_To (destination packet) "udp" (destination_port packet)).
    split; [|done]. exists (destination packet, destination_port packet). split; [done|].
    apply list_elem_of_omap. exists peer. by rewrite Hendpoint.
Qed.

Lemma tcp_accepted config packet :
  Exists (accepts packet) (tcp_rules config) ↔
  protocol packet = "tcp" ∧
  ∃ endpoint, endpoint ∈ allowed_tcp_endpoints config ∧
    socket_ip endpoint = destination packet ∧ socket_port endpoint = destination_port packet.
Proof.
  unfold tcp_rules. rewrite Exists_exists. setoid_rewrite list_elem_of_fmap. split.
  - intros (rule & (endpoint & -> & Hin) & Hip & Htcp & Hport). by split; [|exists endpoint].
  - intros (Htcp & endpoint & Hin & Hip & Hport). exists (Accept_To (socket_ip endpoint) "tcp" (socket_port endpoint)).
    split; [by exists endpoint|done].
Qed.

Definition interfaces (config : TunnelShellConfig) (tunnelled : bool) : list string :=
  "lo" :: if tunnelled then [interface_name config] else [].

Lemma kill_switch_lets_out config tunnelled packet :
  Exists (accepts packet) (kill_switch (interfaces config tunnelled) config) ↔ lets_out config tunnelled packet.
Proof.
  unfold kill_switch, lets_out, interfaces. cbn [map]. rewrite !Exists_app, peers_accepted, tcp_accepted, !Exists_cons, !Exists_nil.
  cbn [accepts]. destruct tunnelled; cbn [map]; rewrite ?Exists_cons, ?Exists_nil; cbn [accepts]; intuition congruence.
Qed.

(** [nft] took a ruleset that lets out [allowed] and nothing else. *)
Definition installed (allowed : Packet → Prop) (trace : list Event) : Prop :=
  ∃ text process rules,
    existT (Request_Spawn "nft" ["-f"; "-"] (Some text)) process ∈ trace ∧ succeeded process ∧
    read_ruleset text = Some rules ∧ ∀ packet, Exists (accepts packet) rules ↔ allowed packet.

(** ** What an action reports *)

(** Every result of a script. *)
Fixpoint yields {A} (P : A → Prop) (script : Script A) : Prop :=
  match script with
  | Return x => P x
  | Step _ next => ∀ reply, yields P (next reply)
  end.
Lemma yields_seq {A B} (Q : A → Prop) P (script : Script A) (k : A → Script B) :
  yields Q script → (∀ x, Q x → yields P (k x)) → yields P (and_then script k).
Proof. intros Hscript Hk. induction script as [x|request next IH]; cbn; [by apply Hk|]. intros reply. apply IH, Hscript. Qed.
Lemma yields_and_then {A B} P (script : Script A) (k : A → Script B) :
  (∀ x, yields P (k x)) → yields P (and_then script k).
Proof. intros Hk. induction script as [x|request next IH]; cbn; [apply Hk|done]. Qed.
Lemma yields_conducted {A} P (script : Script A) trace x : yields P script → conducted script trace x → P x.
Proof.
  revert trace. induction script as [y|request next IH]; intros [|event trace] Hyields Hconducted; try done.
  - by cbn in Hconducted; subst.
  - destruct Hconducted as (reply & -> & Hnext). by apply (IH reply trace).
Qed.

Lemma conducted_last {A B} (script : Script A) (f : A → B) trace y :
  conducted (and_then script (λ x, Return (f x))) trace y → ∃ x, y = f x ∧ conducted script trace x.
Proof.
  intros (x & first & rest & -> & Hfirst & Hrest)%conducted_and_then. destruct rest; [|done].
  exists x. by rewrite app_nil_r.
Qed.

Definition about_firewall (event : option TunnelEvent) : bool :=
  match event with
  | Some (TunnelEvent_PreTunnelFirewallInstalled | TunnelEvent_FirewallInstalled) => true
  | _ => false
  end.

Lemma nft_installed config text trace out tunnelled :
  config_ok config → text = table_text
    (map accept_interface (interfaces config tunnelled) ++
     [say ["    ct state established,related accept"; nl];
      append_peer_underlay_rules (peer_endpoints_for_ruleset config);
      append_allowed_tcp_rules (allowed_tcp_endpoints config)]) →
  conducted (run_with_stdin "nft" ["-f"; "-"] text) trace (Ok out) → installed (lets_out config tunnelled) trace.
Proof.
  intros Hconfig -> (process & rest & -> & _ & Houtcome)%conducted_spawned.
  eexists _, process, (kill_switch (interfaces config tunnelled) config). split_and!.
  - rewrite !elem_of_cons. tauto.
  - destruct process as [output|source]; [|done]. exists output. split; [done|]. symmetry in Houtcome. by eapply finish_Ok.
  - apply ruleset_reads; [done|]. destruct Hconfig as [Hname _].
    destruct tunnelled; repeat constructor; try done.
  - apply kill_switch_lets_out.
Qed.

Section reports.
Context `{JsonText, Timestamps}.

Lemma natpmp_quiet config opened :
  yields (λ event, about_firewall event = false) (spawn_request_natpmp config opened).
Proof.
  unfold spawn_request_natpmp, or_report. cbv zeta.
  do 3 (apply yields_and_then; intros [?|?]; [|done]).
  cbn [report yields]. unfold merge_dual_lease. by destruct (negb _).
Qed.

Lemma exit_ip_once_quiet url :
  yields (λ outcome, ∀ event, outcome = Ok event → about_firewall (Some event) = false) (query_exit_ip_once url).
Proof.
  cbn. intros _ [[status body]|e]; [|done]. destruct (negb _); [done|]. destruct body as [body|e]; [|done].
  cbn. intros _ event. unfold exit_ip_of. cbv zeta. by repeat case_match; intros; simplify_eq.
Qed.

Lemma exit_ip_quiet urls last_failure :
  yields (λ event, about_firewall event = false) (query_exit_ip urls last_failure).
Proof.
  revert last_failure. induction urls as [|url urls IH]; intros last_failure; [done|].
  eapply yields_seq; [apply exit_ip_once_quiet|]. intros [event|failure] Hevent; [by apply Hevent|apply IH].
Qed.

Lemma leak_probe_quiet config : yields (λ event, about_firewall event = false) (spawn_run_leak_probe config).
Proof.
  apply yields_and_then. intros [out|e]; [|done]. case_match; [|done]. by apply yields_and_then.
Qed.


(** ** What the leak probe reports *)

Definition tried (iface : string) (target : string * Z) (connected : bool) : Event :=
  existT (Request_BoundConnect iface target.1 target.2 PROBE_TIMEOUT) connected.

Lemma connects_tried attempts trace outcome :
  conducted (try_connects attempts) trace outcome →
  match outcome with
  | LeakProbeOutcome_LeakDetected iface address =>
      ∃ target, (iface, target) ∈ attempts ∧ address = say [target.1; ":"; num target.2] ∧
        tried iface target true ∈ trace
  | LeakProbeOutcome_NoEgressDetected => ∀ iface target, (iface, target) ∈ attempts → tried iface target false ∈ trace
  | LeakProbeOutcome_Inconclusive _ => False
  end.
Proof.
  revert trace. induction attempts as [|[iface [host port]] attempts IH]; intros trace Hconducted.
  { destruct trace; [|done]. cbn in Hconducted. subst. set_solver. }
  destruct trace as [|event trace]; [done|]. destruct Hconducted as ([] & -> & Hnext).
  - destruct trace; [|done]. cbn in Hnext. subst. exists (host, port). split_and!; [by left|done|by left].
  - specialize (IH trace Hnext). destruct outcome as [|iface' address|reason]; [| |done].
    + intros iface' target [[= -> ->]|Hin]%elem_of_cons; [by left|right; by apply IH].
    + destruct IH as (target & Hin & -> & Htried). exists target. split_and!; [by right|done|by right].
Qed.

(** The interfaces that have a global address, as [ip] listed them. *)
Definition listed (snapshot : InterfaceSnapshot) (trace : list Event) : Prop :=
  ∃ output, ran "ip" ["-j"; "addr"; "show"] (Ok output) ∈ trace ∧ status_code output = Some 0 ∧
    parse_ip_addr_show (lossy_text (output_stdout output)) = Ok snapshot.

Definition list_addresses : Attempt CommandError CommandOutcome := run "ip" ["-j"; "addr"; "show"].

Lemma listing_listed trace rest out snapshot :
  conducted list_addresses trace (Ok out) → parse_ip_addr_show (stdout out) = Ok snapshot →
  listed snapshot (trace ++ rest).
Proof.
  intros (process & observed & -> & _ & Houtcome)%conducted_spawned Hparse.
  destruct process as [output|source]; [|done]. exists output. split; [rewrite elem_of_app, !elem_of_cons; tauto|].
  pose proof (finish_Ok _ _ _ (eq_sym Houtcome)) as Hcode. split; [done|].
  unfold finish in Houtcome. rewrite Hcode in Houtcome. by injection Houtcome as ->.
Qed.

Lemma listed_listing trace outcome snapshot :
  conducted list_addresses trace outcome → listed snapshot trace →
  ∃ out, outcome = Ok out ∧ parse_ip_addr_show (stdout out) = Ok snapshot.
Proof.
  intros (process & observed & -> & Hobserved & Houtcome)%conducted_spawned (output & Hin & Hcode & Hparse).
  rewrite !elem_of_cons in Hin. destruct Hin as [[=]|[Hprocess|Hin]].
  - apply (f_equal process_of) in Hprocess as [= <-]. unfold finish in Houtcome. rewrite Hcode in Houtcome.
    cbn in Houtcome. subst. by eexists.
  - rewrite Forall_forall in Hobserved. by destruct (Hobserved _ Hin).
Qed.

Lemma elem_of_stray snapshot tunnel_interface name :
  name ∈ stray snapshot tunnel_interface ↔ is_Some (snapshot !! name) ∧ name ≠ "lo" ∧ name ≠ tunnel_interface.
Proof.
  unfold stray. rewrite list_elem_of_In, filter_In, <-list_elem_of_In.
  unfold bt_keys. rewrite list_elem_of_fmap.
  assert ((∃ y : string * (), name = y.1 ∧ y ∈ bt_items snapshot) ↔ is_Some (snapshot !! name)) as ->.
  { split; [intros ([? u] & -> & Hin%elem_of_bt_items); by exists u|intros [u Hu]; exists (name, u)].
    by rewrite elem_of_bt_items. }
  rewrite andb_true_iff, !negb_true_iff, !bool_decide_eq_false. tauto.
Qed.

(** the probe reports what it saw. A leak is reported only of an interface other than the tunnel and
    loopback that [ip] listed with a global address, after a connection bound to it reached a
    target; that nothing leaks, only after [ip] listed the interfaces and, for each such one, a
    connection bound to it was tried with each target and failed; otherwise, only that
    [ip] or what it printed could not be used. *)
Theorem the_leak_probe_reports_what_it_saw config trace outcome :
  conducted (spawn_run_leak_probe config) trace (Some (TunnelEvent_LeakProbeCompleted outcome)) →
  match outcome with
  | LeakProbeOutcome_LeakDetected iface address =>
      ∃ snapshot target, listed snapshot trace ∧ is_Some (snapshot !! iface) ∧
        iface ≠ "lo" ∧ iface ≠ interface_name config ∧
        target ∈ ACTIVE_PROBE_TARGETS ∧ address = say [target.1; ":"; num target.2] ∧
        tried iface target true ∈ trace
  | LeakProbeOutcome_NoEgressDetected =>
      ∃ snapshot, listed snapshot trace ∧
        ∀ iface target, is_Some (snapshot !! iface) → iface ≠ "lo" → iface ≠ interface_name config →
          target ∈ ACTIVE_PROBE_TARGETS → tried iface target false ∈ trace
  | LeakProbeOutcome_Inconclusive _ => ¬ ∃ snapshot, listed snapshot trace
  end.
Proof.
  unfold spawn_run_leak_probe. fold list_addresses.
  intros (listing & first & rest & -> & Hlisting & Hrest)%conducted_and_then.
  destruct listing as [out|e].
  2:{ destruct rest; [|done]. injection Hrest as ->. intros [snapshot Hlisted]. rewrite app_nil_r in Hlisted.
      by destruct (listed_listing _ _ _ Hlisting Hlisted) as (? & ? & _). }
  destruct (parse_ip_addr_show (stdout out)) as [snapshot|e] eqn:Hparse.
  2:{ destruct rest; [|done]. injection Hrest as ->. intros [snapshot Hlisted]. rewrite app_nil_r in Hlisted.
      destruct (listed_listing _ _ _ Hlisting Hlisted) as (? & [= <-] & ?). congruence. }
  apply conducted_last in Hrest as (found & [= <-] & Hrest).
  pose proof (listing_listed _ rest _ _ Hlisting Hparse) as Hlisted.
  unfold leak_outcome_from_snapshot in Hrest. cbv zeta in Hrest.
  destruct (stray snapshot (interface_name config)) as [|name names] eqn:Hstray; cbn [is_empty] in Hrest.
  - destruct rest; [|done]. cbn in Hrest. subst outcome. exists snapshot. split; [done|].
    intros iface target Hin Hlo Htunnel. exfalso.
    assert (iface ∈ stray snapshot (interface_name config)) as Hiface by by apply elem_of_stray.
    rewrite Hstray in Hiface. set_solver.
  - clear Hstray names. apply connects_tried in Hrest. destruct outcome as [|iface address|]; [| |done].
    + exists snapshot. split; [done|]. intros iface target Hin Hlo Htunnel Htarget.
      rewrite elem_of_app. right. apply Hrest, list_elem_of_In, in_prod; apply list_elem_of_In; [|done].
      by apply elem_of_stray.
    + destruct Hrest as (target & Hin & -> & Htried).
      apply list_elem_of_In, in_prod_iff in Hin as [Hiface Htarget].
      apply list_elem_of_In, elem_of_stray in Hiface as (? & ? & ?). apply list_elem_of_In in Htarget.
      exists snapshot, target. rewrite elem_of_app. tauto.
Qed.

(** ** What the gateway granted *)

(** The datagram answers the request, well or not. *)
Definition answers (req : NatPmpRequest) (datagram : bytes) : bool :=
  match decode (take RECEIVE_BUFFER datagram) with
  | Ok lease => matches_request lease req
  | Err (NatPmpDecodeError_ErrorCode protocol _) => protocol ==? request_protocol req
  | Err _ => false
  end.
(** The first that does grants the lease. *)
Definition grants (req : NatPmpRequest) (lease : NatPmpLease) (arrivals : list bytes) : Prop :=
  ∃ ignored datagram later,
    arrivals = ignored ++ datagram :: later ∧ Forall (λ other, answers req other = false) ignored ∧
    decode (take RECEIVE_BUFFER datagram) = Ok lease ∧ matches_request lease req = true.

Lemma receive_answer gateway request_timeout req url arrivals receive_error trace lease :
  conducted (receive gateway request_timeout req url arrivals receive_error) trace (Ok lease) →
  grants req lease arrivals.
Proof.
  revert trace. induction arrivals as [|datagram arrivals IH]; intros trace Hconducted.
  { destruct receive_error, trace as [|? [|? ?]]; try done; by destruct Hconducted as (? & _ & ?). }
  assert (answers req datagram = false → (∃ trace, conducted (receive gateway request_timeout req url arrivals receive_error)
    trace (Ok lease)) → grants req lease (datagram :: arrivals)) as Hignored.
  { intros Hanswers [rest Hrest]. destruct (IH rest Hrest) as (ignored & answer & later & -> & ? & ? & ?).
    exists (datagram :: ignored), answer, later. by split_and!; [|constructor| |]. }
  cbn [receive] in Hconducted. cbv zeta in Hconducted. unfold answers in Hignored.
  destruct (decode (take RECEIVE_BUFFER datagram)) as [granted|e] eqn:Hdecode.
  - destruct (matches_request granted req) eqn:Hmatches.
    + destruct trace as [|? [|? ?]]; try done; destruct Hconducted as (? & _ & Hconducted); [|done].
      injection Hconducted as ->. by exists [], datagram, arrivals.
    + destruct trace as [|event trace]; [done|]. destruct Hconducted as (? & _ & Hconducted). eauto.
  - destruct e as [| | |protocol code];
      [destruct trace; [done|]; destruct Hconducted as (? & _ & Hconducted); by eauto..|].
    destruct (protocol ==? request_protocol req); (destruct trace as [|event trace]; [done|]);
      destruct Hconducted as (? & _ & Hconducted); [|by eauto]. by destruct trace.
Qed.

(** A request for a port, what the gateway sent until the deadline, and the lease that came of it. *)
Definition port_request (config : TunnelShellConfig) (protocol : Protocol) : NatPmpRequest :=
  mkNatPmpRequest protocol 0 0 (natpmp_lifetime_seconds config).
Definition granted (config : TunnelShellConfig) (protocol : Protocol) (lease : NatPmpLease) (trace : list Event) : Prop :=
  ∃ before arrivals after,
    trace = before ++ existT (Request_Send (encode (port_request config protocol))) (Ok ())
                   :: existT (Request_Receive (natpmp_timeout config)) arrivals :: after ∧
    grants (port_request config protocol) lease (datagrams arrivals).

Lemma granted_after config protocol lease first trace :
  granted config protocol lease trace → granted config protocol lease (first ++ trace).
Proof.
  intros (before & arrivals & after & -> & Hgrants). exists (first ++ before), arrivals, after.
  by rewrite app_assoc.
Qed.
Lemma granted_before config protocol lease trace rest :
  granted config protocol lease trace → granted config protocol lease (trace ++ rest).
Proof.
  intros (before & arrivals & after & -> & Hgrants). exists before, arrivals, (after ++ rest).
  by rewrite <-app_assoc.
Qed.

Lemma request_granted config protocol trace lease :
  conducted (natpmp_request (natpmp_gateway config) (natpmp_timeout config) (port_request config protocol))
    trace (Ok lease) → granted config protocol lease trace.
Proof.
  destruct trace as [|gate [|sent trace]]; [done|by intros (? & _ & ?)|].
  intros ([] & -> & sent' & -> & Hsent). destruct sent' as [[]|source].
  - destruct trace as [|received trace]; [done|]. destruct Hsent as (arrivals & -> & Hreceived%receive_answer).
    by exists [existT (Request_Gate CoreId_Tunnel "udp" (socket_text (natpmp_gateway config))) ()], arrivals, trace.
  - destruct trace as [|? []]; [done|by destruct Hsent as (? & _ & ?)|by destruct Hsent as (? & _ & ?)].
Qed.

Lemma reported_granted {A} (attempt : Attempt NatPmpClientError A) k trace port lifetime epoch :
  conducted (or_report attempt k) trace (Some (TunnelEvent_NatPmpLeaseGranted port lifetime epoch)) →
  ∃ x first rest, trace = first ++ rest ∧ conducted attempt first (Ok x) ∧
    conducted (k x) rest (Some (TunnelEvent_NatPmpLeaseGranted port lifetime epoch)).
Proof.
  intros ([x|e] & first & rest & -> & Hfirst & Hrest)%conducted_and_then; [by exists x, first, rest|].
  by destruct rest.
Qed.

(** a forwarded port is one the gateway granted for both protocols. The shell reports a lease
    only if, to a request of this attempt for UDP and to a later one for TCP, the first datagram that answered
    it before the deadline granted the same external port; the lifetime is the shorter
    of the two and the epoch the later. *)
Theorem a_reported_lease_was_granted_twice config opened trace port lifetime epoch :
  conducted (spawn_request_natpmp config opened) trace
    (Some (TunnelEvent_NatPmpLeaseGranted port lifetime epoch)) →
  ∃ first rest udp tcp,
    trace = first ++ rest ∧ granted config Protocol_Udp udp first ∧ granted config Protocol_Tcp tcp rest ∧
    lease_external_port udp = port ∧ lease_external_port tcp = port ∧
    lifetime = Z.min (lease_lifetime_seconds udp) (lease_lifetime_seconds tcp) ∧
    epoch = Z.max (lease_epoch_seconds udp) (lease_epoch_seconds tcp).
Proof.
  intros ([] & opening & t1 & -> & _ & Hclient)%reported_granted.
  apply reported_granted in Hclient as (udp & t2 & t3 & -> & Hudp%request_granted & Hclient).
  apply reported_granted in Hclient as (tcp & t4 & t5 & -> & Htcp%request_granted & Hmerged).
  destruct t5; [|done]. injection Hmerged as Hmerged. unfold merge_dual_lease in Hmerged.
  destruct (Z.eqb_spec (lease_external_port udp) (lease_external_port tcp)) as [Heq|]; [|done].
  injection Hmerged as -> -> ->.
  exists (opening ++ t2), (t4 ++ []), udp, tcp. rewrite <-app_assoc.
  split_and!; [done|by apply granted_after|by apply granted_before|done..].
Qed.

End reports.

(** ** An example *)

(** The documents a system prints: a route through a gateway, and two interfaces with an address. *)
Definition sample_route : Value :=
  Value_Array [Value_Object [("gateway", Value_String "192.0.2.1"); ("dev", Value_String "eth0")]].
Definition sample_addresses : Value :=
  let row name := Value_Object [("ifname", Value_String name);
    ("addr_info", Value_Array [Value_Object [("family", Value_String "inet"); ("scope", Value_String "global")]])] in
  Value_Array [row "wg0"; row "eth0"].
#[local] Instance sample_json : JsonText := {|
  json_document text := if text ==? "route" then Some sample_route
                        else if text ==? "addresses" then Some sample_addresses else None;
  json_error type text := EmptyString;
|}.
#[local] Instance sample_times : Timestamps := λ secs, Some (secs * from_secs 1).

Definition sample_config : TunnelShellConfig :=
  let peer := mkPeerConfig "peer" None [] (Endpoint_Ip (IpAddr_V4 3405803783) 51820) None in
  let config := TunnelShellConfig_new (mkWgConfig (mkInterfaceConfig "key" [] [] None None) [peer]) in
  {| config with allowed_tcp_endpoints := [mkSocketAddr (IpAddr_V4 3221225985) 8080 0] |}.

(** A system where every command succeeds, only the interface on the way out connects, and the
    gateway grants what it is asked for after a stray datagram. *)
Definition sample_reply (last : option bytes) (request : Request) : option bytes * Reply request :=
  match request with
  | Request_Spawn program args stdin =>
      (last, Ok (mkOutput (Some 0) (b (if args ==? ["-j"; "addr"; "show"] then "addresses" else "route")) []))
  | Request_Bind | Request_Connect _ => (last, Ok ())
  | Request_Send datagram => (Some datagram, Ok ())
  | Request_Receive _ =>
      (None, mkArrivals [[]; match last with
                             | Some (_ :: op :: _) =>
                                 map ascii_of_nat [0; 128 + nat_of_ascii op; 0; 0; 0; 0; 0; 9; 0; 0; 172; 68; 0; 0; 0; 60]%nat
                             | _ => []
                             end] None)
  | Request_BoundConnect iface _ _ _ => (last, iface ==? "eth0")
  | Request_Get _ => (last, Err EmptyString)
  | Request_Now => (last, 0)
  | _ => (last, ())
  end.
Definition sample_run {A} (script : Script A) : list Event * A :=
  let '(_, trace, x) := conduct sample_reply None script in (trace, x).

Lemma sample_run_conducted {A} (script : Script A) trace x :
  sample_run script = (trace, x) → conducted script trace x.
Proof.
  unfold sample_run. pose proof (conduct_conducted sample_reply script None) as Hrun.
  destruct (conduct sample_reply None script) as [[last trace'] x']. by intros [= -> ->].
Qed.

Lemma sample_config_ok : config_ok sample_config.
Proof.
  split_and!; [apply (bool_decide_unpack _); by vm_compute|repeat constructor; done|repeat constructor; done].
Qed.



(** A leak through the interface on the way out. *)
Lemma the_leak_probe_reports_what_it_saw_witness :
  let trace := (sample_run (spawn_run_leak_probe sample_config)).1 in
  conducted (spawn_run_leak_probe sample_config) trace
    (Some (TunnelEvent_LeakProbeCompleted (LeakProbeOutcome_LeakDetected "eth0" "1.1.1.1:443"))) ∧
  ∃ snapshot target, listed snapshot trace ∧ is_Some (snapshot !! "eth0") ∧
    "eth0" ≠ "lo" ∧ "eth0" ≠ interface_name sample_config ∧
    target ∈ ACTIVE_PROBE_TARGETS ∧ "1.1.1.1:443" = say [target.1; ":"; num target.2] ∧
    tried "eth0" target true ∈ trace.
Proof.
  intros trace.
  assert (conducted (spawn_run_leak_probe sample_config) trace
    (Some (TunnelEvent_LeakProbeCompleted (LeakProbeOutcome_LeakDetected "eth0" "1.1.1.1:443")))) as Hrun
    by (apply sample_run_conducted; by vm_compute).
  split; [exact Hrun|]. exact (the_leak_probe_reports_what_it_saw _ _ _ Hrun).
Defined.

(** A lease of one minute, after a datagram that answers nothing. *)
Lemma a_reported_lease_was_granted_twice_witness :
  let trace := (sample_run (spawn_request_natpmp sample_config false)).1 in
  conducted (spawn_request_natpmp sample_config false) trace
    (Some (TunnelEvent_NatPmpLeaseGranted 44100 60 9)) ∧
  ∃ first rest udp tcp,
    trace = first ++ rest ∧ granted sample_config Protocol_Udp udp first ∧ granted sample_config Protocol_Tcp tcp rest ∧
    lease_external_port udp = 44100 ∧ lease_external_port tcp = 44100 ∧
    60 = Z.min (lease_lifetime_seconds udp) (lease_lifetime_seconds tcp) ∧
    9 = Z.max (lease_epoch_seconds udp) (lease_epoch_seconds tcp).
Proof.
  intros trace.
  assert (conducted (spawn_request_natpmp sample_config false) trace
    (Some (TunnelEvent_NatPmpLeaseGranted 44100 60 9))) as Hrun by (apply sample_run_conducted; by vm_compute).
  split; [exact Hrun|]. exact (a_reported_lease_was_granted_twice _ _ _ _ _ _ Hrun).
Defined.
