(* ===== verification/PocMam.v ===== *)
(** * The archived prototype: MAM

    The machine that keeps the account in good standing ([POC/windlass-mam-core/src/lib.rs]):
    the status of the account, its keep-alive, the registration of the seedbox behind one
    gateway, and the compliance of its network. Then what the gateway promises for every
    sequence of events and commands, and a race it loses. *)

From S2P Require Import Prelude Bytes Text.
From S2P Require Import Floats.
From S2P Require Import Address.
From S2P Require Import Describe.
From S2P Require Import PocMachine.
From Stdlib Require Import Floats.SpecFloat.

Local Open Scope string_scope.
Local Open Scope Z_scope.
Local Open Scope list_scope.

Definition DEFAULT_MIN_UPLOAD_BUFFER_BYTES : Z := 25 * 1024 * 1024 * 1024.
Definition DEFAULT_KEEP_ALIVE_INTERVAL : Duration := from_mins 5.
Definition DEFAULT_KEEP_ALIVE_FAILURE_THRESHOLD : Z := 3.
Definition DEFAULT_STALE_REGISTRATION_INTERVAL : Duration := from_hours 24.
Definition DEFAULT_SEEDBOX_UPDATE_MIN_INTERVAL : Duration := from_mins 61.

Record MamConfig := mkMamConfig {
  status_retry : Duration;
  min_global_ratio : f64;
  min_upload_buffer_bytes : Z;
  keep_alive_interval : Duration;
  keep_alive_failure_threshold : Z;
  stale_registration_interval : Duration;
  seedbox_update_min_interval : Duration;
}.

Inductive MamCommand :=
  | MamCommand_EnsureAuthenticated
  | MamCommand_EnsureSeedboxPort (port : VpnPort)
  | MamCommand_RefreshStatus
  | MamCommand_ObservedIpChanged (ip : VpnIp)
  | MamCommand_FetchTorrent (mam_id : MamTorrentId).

Inductive MamTimer :=
  | MamTimer_StatusRetry
  | MamTimer_RateLimitExpired
  | MamTimer_KeepAlive
  | MamTimer_StaleRegistrationRefresh.
#[global] Instance MamTimer_eq_dec : EqDecision MamTimer.
Proof. solve_decision. Defined.

Definition MamTimer_name (self : MamTimer) : string :=
  match self with
  | MamTimer_StatusRetry => "MamTimer::StatusRetry"
  | MamTimer_RateLimitExpired => "MamTimer::RateLimitExpired"
  | MamTimer_KeepAlive => "MamTimer::KeepAlive"
  | MamTimer_StaleRegistrationRefresh => "MamTimer::StaleRegistrationRefresh"
  end.

Inductive MamEvent :=
  | MamEvent_Init
  | MamEvent_AuthSucceeded
  | MamEvent_AuthFailed (reason : string)
  | MamEvent_StatusFetched (connectable : bool) (seedbox_port : option VpnPort) (ratio : f64)
      (upload_credit_bytes : Z)
  | MamEvent_StatusFailed (reason : string)
  | MamEvent_Unreachable (reason : string)
  | MamEvent_AsnMismatch (ip : VpnIp)
  | MamEvent_SeedboxUpdated (registered_ip : option VpnIp) (registered_asn : option Z)
      (registered_as : option string)
  | MamEvent_SeedboxUpdateFailed (reason : string)
  | MamEvent_RateLimited (retry_after : Duration)
  | MamEvent_TimerFired (timer : MamTimer)
  | MamEvent_TorrentBytesFetched (mam_id : MamTorrentId) (bytes : bytes)
  | MamEvent_TorrentBytesFetchFailed (mam_id : MamTorrentId) (reason : string).

Inductive MamAction :=
  | MamAction_FetchStatus
  | MamAction_UpdateSeedbox
  | MamAction_ScheduleTimer (timer : MamTimer) (after : Duration)
  | MamAction_FetchTorrentBytes (mam_id : MamTorrentId).

Inductive MamPublish :=
  | MamPublish_Ready
  | MamPublish_Unavailable (reason : string)
  | MamPublish_RateLimited (retry_after : Duration)
  | MamPublish_Connectable (seedbox_port : option VpnPort)
  | MamPublish_NotConnectable (reason : string)
  | MamPublish_Unreachable (reason : string)
  | MamPublish_SeedboxPortReady (port : VpnPort)
  | MamPublish_UploadHealthDegraded (ratio : f64) (upload_credit_bytes : Z) (ratio_ok buffer_ok : bool)
  | MamPublish_UploadHealthOk (ratio : f64) (upload_credit_bytes : Z)
  | MamPublish_AsnMismatch (ip : VpnIp)
  | MamPublish_AsnAccepted
  | MamPublish_KeepAliveDegraded (consecutive_failures : Z) (last_reason : string)
  | MamPublish_TorrentBytesReady (mam_id : MamTorrentId) (bytes : bytes)
  | MamPublish_TorrentBytesFetchFailed (mam_id : MamTorrentId) (reason : string).

Inductive MamTopic :=
  | MamTopic_Availability
  | MamTopic_Connectability
  | MamTopic_Seedbox
  | MamTopic_UploadHealth
  | MamTopic_KeepAlive
  | MamTopic_Compliance
  | MamTopic_TorrentFetch.

Definition MamPublish_topic (self : MamPublish) : MamTopic :=
  match self with
  | MamPublish_Ready | MamPublish_Unavailable _ | MamPublish_RateLimited _ => MamTopic_Availability
  | MamPublish_Connectable _ | MamPublish_NotConnectable _ | MamPublish_Unreachable _ =>
      MamTopic_Connectability
  | MamPublish_SeedboxPortReady _ => MamTopic_Seedbox
  | MamPublish_UploadHealthDegraded _ _ _ _ | MamPublish_UploadHealthOk _ _ => MamTopic_UploadHealth
  | MamPublish_KeepAliveDegraded _ _ => MamTopic_KeepAlive
  | MamPublish_AsnMismatch _ | MamPublish_AsnAccepted => MamTopic_Compliance
  | MamPublish_TorrentBytesReady _ _ | MamPublish_TorrentBytesFetchFailed _ _ => MamTopic_TorrentFetch
  end.

Inductive MamResponse :=
  | MamResponse_Accepted.

Inductive AsnState :=
  | AsnState_Unknown
  | AsnState_Accepted
  | AsnState_Mismatched.
#[global] Instance AsnState_eq_dec : EqDecision AsnState.
Proof. solve_decision. Defined.

Record MamMachine := mkMamMachine {
  config : MamConfig;
  authenticated : bool;
  seedbox_port : option VpnPort;
  desired_seedbox_port : option VpnPort;
  ratio : f64;
  upload_credit_bytes : Z;
  keep_alive_scheduled : bool;
  consecutive_status_failures : Z;
  asn_state : AsnState;
  observed_ip : option VpnIp;
  stale_chain_scheduled : bool;
  registered_ip : option VpnIp;
  registered_asn : option Z;
  registered_as : option string;
  seedbox_update_in_flight_since : option SystemTime;
  last_seedbox_update_attempt_at : option SystemTime;
}.

Abbreviation Answer := (Outcome MamAction MamPublish) (only parsing).

(** ** Health *)

(** Whether this failure is the one that crosses the threshold. *)
Definition bump_keep_alive_failures (self : MamMachine) : MamMachine * bool :=
  let threshold := keep_alive_failure_threshold (config self) in
  let before := consecutive_status_failures self in
  let after := saturating_add u32_max before 1 in
  let self := {| self with consecutive_status_failures := after |} in
  if threshold =? 0 then (self, false)
  else (self, (before <? threshold) && (threshold <=? after)).

(** [ratio >= minimum]: false for a NaN. *)
Definition ratio_ok (self : MamMachine) : bool := SFleb (min_global_ratio (config self)) (ratio self).
Definition buffer_ok (self : MamMachine) : bool :=
  min_upload_buffer_bytes (config self) <=? upload_credit_bytes self.
Definition upload_health_ok (self : MamMachine) (freeleech : bool) : bool :=
  if freeleech then buffer_ok self else ratio_ok self && buffer_ok self.

(** ** The seedbox *)

Definition needs_seedbox_update (self : MamMachine) : bool :=
  is_some_and (desired_seedbox_port self) (λ desired, seedbox_port self !=? Some desired)
  || is_some_and (observed_ip self) (λ observed, registered_ip self !=? Some observed).

Definition IN_FLIGHT_STALE_SECONDS : Z := 300.

(** [chrono::Duration::from_std]: at most [i64::MAX] milliseconds. *)
Definition update_window (self : MamMachine) : Duration :=
  let interval := seedbox_update_min_interval (config self) in
  if interval <=? i64_max * 1_000_000 then interval else from_hours 1.

(** [TimeDelta::num_seconds] truncates towards zero. *)
Definition num_seconds (d : Z) : Z := Z.quot d NANOS_PER_SEC.

Definition update_in_flight (self : MamMachine) (wall_now : SystemTime) : bool :=
  is_some_and (seedbox_update_in_flight_since self)
    (λ since, num_seconds (wall_now - since) <? IN_FLIGHT_STALE_SECONDS).

(** What is left of the window since the last attempt. *)
Definition window_left (self : MamMachine) (wall_now : SystemTime) : option Duration :=
  last ← last_seedbox_update_attempt_at self;
  let elapsed := wall_now - last in
  then_some ((0 <=? elapsed) && (elapsed <? update_window self)) (update_window self - elapsed).

Definition request_seedbox_update (self : MamMachine) (wall_now : SystemTime)
    : MamMachine * list MamAction :=
  if update_in_flight self wall_now then (self, [])
  else
    match window_left self wall_now with
    | Some remaining => (self, [MamAction_ScheduleTimer MamTimer_RateLimitExpired remaining])
    | None =>
        ({| self with seedbox_update_in_flight_since := Some wall_now;
                      last_seedbox_update_attempt_at := Some wall_now |},
         [MamAction_UpdateSeedbox])
    end.

Definition refresh_or_update_seedbox (self : MamMachine) (wall_now : SystemTime)
    : MamMachine * list MamAction :=
  if needs_seedbox_update self then request_seedbox_update self wall_now
  else (self, [MamAction_FetchStatus]).

Definition converge_seedbox (self : MamMachine) (wall_now : SystemTime) : MamMachine * list MamAction :=
  if needs_seedbox_update self then request_seedbox_update self wall_now else (self, []).

Definition seedbox_publish (self : MamMachine) (seedbox_port : option VpnPort) : list MamPublish :=
  match seedbox_port with
  | Some port =>
      if is_none_or (desired_seedbox_port self) (λ desired_port, desired_port ==? port)
      then [MamPublish_SeedboxPortReady port] else []
  | None => []
  end.

(** ** Events *)

Definition MamMachine_new (config : MamConfig) (_ : Instant) : MamMachine := {|
  config := config;
  authenticated := false;
  seedbox_port := None;
  desired_seedbox_port := None;
  ratio := f64_zero;
  upload_credit_bytes := 0;
  keep_alive_scheduled := false;
  consecutive_status_failures := 0;
  asn_state := AsnState_Unknown;
  observed_ip := None;
  stale_chain_scheduled := false;
  registered_ip := None;
  registered_asn := None;
  registered_as := None;
  seedbox_update_in_flight_since := None;
  last_seedbox_update_attempt_at := None;
|}.

(** A failure that is tried again: it counts for the keep-alive. *)
Definition apply_failure (self : MamMachine) (publishes : list MamPublish) (reason : string)
    : MamMachine * Answer :=
  let '(self, crossed) := bump_keep_alive_failures self in
  (self, mkOutcome
     [MamAction_ScheduleTimer MamTimer_StatusRetry (status_retry (config self))]
     (publishes ++ if crossed
                   then [MamPublish_KeepAliveDegraded (consecutive_status_failures self) reason]
                   else [])).

Definition apply_timer (self : MamMachine) (timer : MamTimer) (wall_now : SystemTime)
    : MamMachine * Answer :=
  match timer with
  | MamTimer_StatusRetry | MamTimer_RateLimitExpired =>
      let '(self, actions) := refresh_or_update_seedbox self wall_now in (self, mkOutcome actions [])
  | MamTimer_KeepAlive =>
      (self, mkOutcome [MamAction_FetchStatus;
                        MamAction_ScheduleTimer MamTimer_KeepAlive (keep_alive_interval (config self))] [])
  | MamTimer_StaleRegistrationRefresh =>
      let '(self, actions) := request_seedbox_update self wall_now in
      (self, mkOutcome
         (actions ++ [MamAction_ScheduleTimer MamTimer_StaleRegistrationRefresh
                        (stale_registration_interval (config self))]) [])
  end.

Definition apply_auth_succeeded (self : MamMachine) : MamMachine * Answer :=
  let self := {| self with authenticated := true |} in
  if keep_alive_scheduled self then
    (self, mkOutcome [MamAction_FetchStatus] [MamPublish_Ready])
  else
    let self := {| self with keep_alive_scheduled := true |} in
    (self, mkOutcome [MamAction_FetchStatus;
                      MamAction_ScheduleTimer MamTimer_KeepAlive (keep_alive_interval (config self))]
             [MamPublish_Ready]).

Definition apply_status (self : MamMachine) (connectable : bool) (seedbox_port : option VpnPort)
    (ratio : f64) (upload_credit_bytes : Z) (wall_now : SystemTime) : MamMachine * Answer :=
  let self := {| self with seedbox_port := seedbox_port;
                           ratio := ratio;
                           upload_credit_bytes := upload_credit_bytes;
                           consecutive_status_failures := 0 |} in
  let reached :=
    if connectable then MamPublish_Connectable seedbox_port :: seedbox_publish self seedbox_port
    else [MamPublish_NotConnectable "MAM reports not connectable"] in
  let health :=
    if upload_health_ok self false then MamPublish_UploadHealthOk ratio upload_credit_bytes
    else MamPublish_UploadHealthDegraded ratio upload_credit_bytes (ratio_ok self) (buffer_ok self) in
  let '(self, actions) := converge_seedbox self wall_now in
  (self, mkOutcome actions (reached ++ [health])).

Definition or_else {A} (o o' : option A) : option A := if is_some o then o else o'.

(** What a completed update leaves: the desired port and the observed address count as
    registered. *)
Definition registered (self : MamMachine) (asn : option Z) (organization : option string) : MamMachine :=
  {| self with seedbox_update_in_flight_since := None;
               seedbox_port := or_else (desired_seedbox_port self) (seedbox_port self);
               registered_ip := observed_ip self;
               registered_asn := or_else asn (registered_asn self);
               registered_as := or_else organization (registered_as self);
               asn_state := AsnState_Accepted |}.

Definition apply_seedbox_updated (self : MamMachine) (asn : option Z) (organization : option string)
    (wall_now : SystemTime) : MamMachine * Answer :=
  let ready :=
    match desired_seedbox_port self with Some p => [MamPublish_SeedboxPortReady p] | None => [] end in
  let accepted := if asn_state self ==? AsnState_Accepted then [] else [MamPublish_AsnAccepted] in
  let '(self, actions) := converge_seedbox (registered self asn organization) wall_now in
  (self, mkOutcome actions (ready ++ accepted)).

Definition apply_asn_mismatch (self : MamMachine) (ip : VpnIp) : MamMachine * Answer :=
  let mismatch := if asn_state self ==? AsnState_Mismatched then [] else [MamPublish_AsnMismatch ip] in
  let self := {| self with seedbox_update_in_flight_since := None;
                           asn_state := AsnState_Mismatched |} in
  apply_failure self mismatch (say ["ASN mismatch for "; t (print_ipv4 ip)]).

Definition MamMachine_handle (self : MamMachine) (_ : Instant) (wall_now : SystemTime)
    (event : Timed MamEvent) : MamMachine * Answer :=
  match timed_inner event with
  | MamEvent_Init => (self, mkOutcome [MamAction_FetchStatus] [])
  | MamEvent_TimerFired timer => apply_timer self timer wall_now
  | MamEvent_AuthSucceeded => apply_auth_succeeded self
  | MamEvent_AuthFailed reason | MamEvent_StatusFailed reason | MamEvent_SeedboxUpdateFailed reason =>
      let self := {| self with seedbox_update_in_flight_since := None |} in
      apply_failure self [MamPublish_Unavailable reason] reason
  | MamEvent_Unreachable reason =>
      let self := {| self with seedbox_update_in_flight_since := None |} in
      apply_failure self [MamPublish_Unreachable reason] reason
  | MamEvent_StatusFetched connectable seedbox_port ratio upload_credit_bytes =>
      apply_status self connectable seedbox_port ratio upload_credit_bytes wall_now
  | MamEvent_SeedboxUpdated _ asn organization => apply_seedbox_updated self asn organization wall_now
  | MamEvent_AsnMismatch ip => apply_asn_mismatch self ip
  | MamEvent_RateLimited retry_after =>
      ({| self with seedbox_update_in_flight_since := None; last_seedbox_update_attempt_at := None |},
       mkOutcome [MamAction_ScheduleTimer MamTimer_RateLimitExpired retry_after]
         [MamPublish_RateLimited retry_after])
  | MamEvent_TorrentBytesFetched mam_id bytes =>
      (self, mkOutcome [] [MamPublish_TorrentBytesReady mam_id bytes])
  | MamEvent_TorrentBytesFetchFailed mam_id reason =>
      (self, mkOutcome [] [MamPublish_TorrentBytesFetchFailed mam_id reason])
  end.

(** ** Commands *)

Definition ensure_seedbox_port (self : MamMachine) (port : VpnPort) (wall_now : SystemTime)
    : MamMachine * CommandOutcome MamAction MamPublish MamResponse :=
  let self := {| self with desired_seedbox_port := Some port |} in
  if seedbox_port self ==? Some port then
    (self, outcome_with_publish [] [MamPublish_SeedboxPortReady port] MamResponse_Accepted)
  else
    let '(self, actions) := request_seedbox_update self wall_now in
    (self, outcome actions MamResponse_Accepted).

Definition observed_ip_changed (self : MamMachine) (ip : VpnIp) (wall_now : SystemTime)
    : MamMachine * CommandOutcome MamAction MamPublish MamResponse :=
  let already_registered := registered_ip self ==? Some ip in
  let already_observed := observed_ip self ==? Some ip in
  let self := {| self with observed_ip := Some ip |} in
  if already_registered || already_observed then (self, outcome [] MamResponse_Accepted)
  else
    let '(self, actions) := request_seedbox_update self wall_now in
    if stale_chain_scheduled self then (self, outcome actions MamResponse_Accepted)
    else
      let self := {| self with stale_chain_scheduled := true |} in
      (self, outcome
         (actions ++ [MamAction_ScheduleTimer MamTimer_StaleRegistrationRefresh
                        (stale_registration_interval (config self))]) MamResponse_Accepted).

Definition MamMachine_handle_command (self : MamMachine) (_ : Instant) (wall_now : SystemTime)
    (cmd : MamCommand) : MamMachine * CommandOutcome MamAction MamPublish MamResponse :=
  match cmd with
  | MamCommand_EnsureAuthenticated | MamCommand_RefreshStatus =>
      (self, outcome [MamAction_FetchStatus] MamResponse_Accepted)
  | MamCommand_EnsureSeedboxPort port => ensure_seedbox_port self port wall_now
  | MamCommand_ObservedIpChanged ip => observed_ip_changed self ip wall_now
  | MamCommand_FetchTorrent mam_id =>
      (self, outcome [MamAction_FetchTorrentBytes mam_id] MamResponse_Accepted)
  end.

#[global] Instance MamMachine_Machine :
    Machine MamMachine MamConfig MamEvent MamAction MamPublish MamCommand MamResponse := {
  new := MamMachine_new;
  handle := MamMachine_handle;
  handle_command := MamMachine_handle_command;
}.

(** ** The gateway to the seedbox *)

Abbreviation MamInput := (Input MamEvent MamCommand) (only parsing).

Definition updates (actions : list MamAction) : nat :=
  length (List.filter (λ action, match action with MamAction_UpdateSeedbox => true | _ => false end) actions).

Definition wall (input : MamInput) : SystemTime :=
  match input with Input_Event _ wall_now _ | Input_Command _ wall_now _ => wall_now end.
Definition is_rate_limited (input : MamInput) : bool :=
  match input with
  | Input_Event _ _ event => match timed_inner event with MamEvent_RateLimited _ => true | _ => false end
  | Input_Command _ _ _ => false
  end.

(** When the seedbox was updated, and [None] where an update was reported never to have reached
    MAM. *)
Definition attempts_of (input : MamInput) (answer : Outcome MamAction MamPublish)
    : list (option SystemTime) :=
  (if is_rate_limited input then [None] else []) ++ repeat (Some (wall input)) (updates (actions answer)).
Definition attempts (inputs : list MamInput) (answers : list (Outcome MamAction MamPublish))
    : list (option SystemTime) := concat (zip_with attempts_of inputs answers).

(** Each attempt comes at least a window after the one before it. *)
Fixpoint kept_apart (window : Duration) (last : option SystemTime) (attempts : list (option SystemTime))
    : Prop :=
  match attempts with
  | [] => True
  | None :: attempts => kept_apart window None attempts
  | Some time :: attempts =>
      (∀ before, last = Some before → window ≤ time - before) ∧ kept_apart window (Some time) attempts
  end.

(** What a step may do at the gateway. *)
Definition passes (self self' : MamMachine) (wall_now : SystemTime) (actions : list MamAction) : Prop :=
  config self' = config self ∧
  (updates actions = 0%nat ∧ last_seedbox_update_attempt_at self' = last_seedbox_update_attempt_at self ∨
   updates actions = 1%nat ∧ last_seedbox_update_attempt_at self' = Some wall_now ∧
   ∀ last, last_seedbox_update_attempt_at self = Some last → last ≤ wall_now →
     update_window self ≤ wall_now - last).

Lemma updates_app x y : updates (x ++ y) = (updates x + updates y)%nat.
Proof. unfold updates. by rewrite List.filter_app, length_app. Qed.

Lemma quiet_passes self self' wall_now actions :
  config self' = config self →
  last_seedbox_update_attempt_at self' = last_seedbox_update_attempt_at self →
  updates actions = 0%nat → passes self self' wall_now actions.
Proof. intros ???. split; auto. Qed.

Lemma request_passes self before wall_now :
  config before = config self →
  last_seedbox_update_attempt_at before = last_seedbox_update_attempt_at self →
  passes self (request_seedbox_update before wall_now).1 wall_now
    (request_seedbox_update before wall_now).2.
Proof.
  intros Hc Hl. unfold request_seedbox_update.
  destruct (update_in_flight before wall_now); [by apply quiet_passes|].
  destruct (window_left before wall_now) as [remaining|] eqn:Hleft; [by apply quiet_passes|].
  unfold passes. cbn. rewrite Hc. split; [done|]. right. split_and!; [done|done|].
  intros last Hlast Hle. unfold window_left in Hleft. rewrite Hl, Hlast in Hleft. cbn in Hleft.
  unfold update_window in *. rewrite Hc in Hleft.
  destruct ((0 <=? _) && _) eqn:Hinside in Hleft; [done|].
  apply andb_false_iff in Hinside as [Hneg|Hout]; reflect_bools; lia.
Qed.

Lemma failure_passes self before publishes reason wall_now :
  config before = config self →
  last_seedbox_update_attempt_at before = last_seedbox_update_attempt_at self →
  passes self (apply_failure before publishes reason).1 wall_now
    (actions (apply_failure before publishes reason).2).
Proof.
  intros Hc Hl. unfold apply_failure, bump_keep_alive_failures. cbv zeta.
  by destruct (keep_alive_failure_threshold (config before) =? 0); apply quiet_passes.
Qed.

Lemma converge_passes self before wall_now :
  config before = config self →
  last_seedbox_update_attempt_at before = last_seedbox_update_attempt_at self →
  passes self (converge_seedbox before wall_now).1 wall_now (converge_seedbox before wall_now).2.
Proof.
  intros Hc Hl. unfold converge_seedbox. case_match; [by apply request_passes|by apply quiet_passes].
Qed.

Ltac solve_same := first [reflexivity | case_match; solve_same].

(** The result of a request or of a convergence, named. *)
Ltac at_the_gateway self :=
  match goal with
  | |- context [request_seedbox_update ?before ?wall_now] =>
      let H := fresh "Hpass" in
      assert (passes self (request_seedbox_update before wall_now).1 wall_now
                (request_seedbox_update before wall_now).2) as H by (apply request_passes; solve_same);
      destruct (request_seedbox_update before wall_now)
  | |- context [converge_seedbox ?before ?wall_now] =>
      let H := fresh "Hpass" in
      assert (passes self (converge_seedbox before wall_now).1 wall_now
                (converge_seedbox before wall_now).2) as H by (apply converge_passes; solve_same);
      destruct (converge_seedbox before wall_now)
  end.

Lemma step_passes self (input : MamInput) :
  is_rate_limited input = false →
  passes self (step self input).1 (wall input) (actions (step self input).2).
Proof.
  intros Hlimited. destruct input as [at_ wall_now [event_at cause []]|at_ wall_now []];
    cbn [step handle handle_command MamMachine_Machine MamMachine_handle MamMachine_handle_command
      timed_inner wall] in *; try done; try (by apply quiet_passes); try (by apply failure_passes).
  - unfold apply_auth_succeeded. cbn. by case_match; apply quiet_passes.
  - unfold apply_status. cbv zeta. at_the_gateway self. exact Hpass.
  - unfold apply_seedbox_updated. cbv zeta. at_the_gateway self. exact Hpass.
  - unfold apply_timer, refresh_or_update_seedbox. case_match.
    + destruct (needs_seedbox_update self); [at_the_gateway self; exact Hpass|by apply quiet_passes].
    + destruct (needs_seedbox_update self); [at_the_gateway self; exact Hpass|by apply quiet_passes].
    + by apply quiet_passes.
    + at_the_gateway self. destruct Hpass as [Hc Hcases]. split; [done|].
      cbn [actions fst snd] in *. rewrite updates_app. cbn [updates]. by rewrite Nat.add_0_r.
  - unfold ensure_seedbox_port. cbv zeta. destruct (_ ==? _); [by apply quiet_passes|]. at_the_gateway self. exact Hpass.
  - unfold observed_ip_changed. cbv zeta. destruct (_ || _); [by apply quiet_passes|]. at_the_gateway self.
    destruct (stale_chain_scheduled _); [exact Hpass|]. destruct Hpass as [Hc Hcases]. split; [done|].
    cbn [actions fst snd outcome command_actions command_publishes] in *. rewrite updates_app. by rewrite Nat.add_0_r.
Qed.

(** The attempts of a step, when the clock has not run backwards. *)
Lemma step_attempts self (input : MamInput) window rest :
  update_window self = window →
  (∀ last, last_seedbox_update_attempt_at self = Some last → last ≤ wall input) →
  kept_apart window (last_seedbox_update_attempt_at (step self input).1) rest →
  update_window (step self input).1 = window ∧
  (∀ last, last_seedbox_update_attempt_at (step self input).1 = Some last → last ≤ wall input) ∧
  kept_apart window (last_seedbox_update_attempt_at self)
    (attempts_of input (step self input).2 ++ rest).
Proof.
  intros <- Hpast Hrest. destruct (is_rate_limited input) eqn:Hlimited.
  - destruct input as [at_ wall_now [event_at cause []]|]; done.
  - destruct (step_passes self input Hlimited) as [Hc Hcases].
    unfold attempts_of. rewrite Hlimited. cbn [app].
    split; [unfold update_window; by rewrite Hc|].
    destruct Hcases as [[-> Hlast]|(-> & Hlast & Hapart)]; cbn [repeat app kept_apart];
      rewrite Hlast in *; split; try done.
    + by intros ? [= <-].
    + split; [|done]. intros before Hbefore. by apply Hapart; [|apply Hpast].
Qed.


(** ** A sample run *)

Definition sample_mam : MamConfig :=
  mkMamConfig (from_secs 30) f64_one DEFAULT_MIN_UPLOAD_BUFFER_BYTES DEFAULT_KEEP_ALIVE_INTERVAL
    DEFAULT_KEEP_ALIVE_FAILURE_THRESHOLD DEFAULT_STALE_REGISTRATION_INTERVAL
    DEFAULT_SEEDBOX_UPDATE_MIN_INTERVAL.
Definition address_at (minutes : Z) (ip : VpnIp) : MamInput :=
  Input_Command 0 (from_mins minutes) (MamCommand_ObservedIpChanged ip).
Definition event_at (minutes : Z) (event : MamEvent) : MamInput :=
  Input_Event 0 (from_mins minutes) (mkTimed 0 (EventCause_External ExternalCause_Unknown) event).

Definition sample_addresses : list MamInput :=
  [address_at 0 1; event_at 1 (MamEvent_SeedboxUpdated None None None); address_at 2 2;
   event_at 61 (MamEvent_TimerFired MamTimer_RateLimitExpired)].


(** An address that changes while an update is under way is never registered: the completion of
    the update, which told MAM of the address before, takes the new one for registered, and
    nothing asks for another update. *)
Theorem a_changed_address_is_lost :
  let inputs := [address_at 0 1; address_at 1 2; event_at 2 (MamEvent_SeedboxUpdated (Some 1) None None);
                 address_at 3 2; event_at 90 (MamEvent_TimerFired MamTimer_StatusRetry)] in
  let final := run (MamMachine_new sample_mam 0) inputs in
  attempts inputs final.2 = [Some (from_mins 0)] ∧
  observed_ip final.1 = Some 2 ∧ registered_ip final.1 = Some 2 ∧
  needs_seedbox_update final.1 = false.
Proof. vm_compute. done. Qed.
