(* ===== verification/PocQbit.v ===== *)
(** * The archived prototype: qBittorrent

    The machine that drives qBittorrent ([POC/windlass-qbit-core/src/lib.rs]): its session, the
    listening port, banned privacy settings, deletion under the seed-time lock, the queue
    and the quota. Then what it promises of every step: which session it acts in, what it
    deletes and pauses, and which port it announces. *)

From S2P Require Import Prelude.
From stdpp Require Import strings.
From S2P Require Import Bytes Text.
From S2P Require Import PocMachine.

Local Open Scope string_scope.
Local Open Scope Z_scope.
Local Open Scope list_scope.

Record QbitConfig := mkQbitConfig {
  auth_retry : Duration;
  sync_retry : Duration;
  torrent_refresh : Duration;
  hnr_seed_time : Duration;
  unsatisfied_quota_limit : Z;
  max_sync_attempts : Z;
}.

Inductive QbitCommand :=
  | QbitCommand_EnsureAuthenticated
  | QbitCommand_EnsureListenPort (port : VpnPort)
  | QbitCommand_RefreshTorrents
  | QbitCommand_PauseTorrent (hash : TorrentHash)
  | QbitCommand_ResumeTorrent (hash : TorrentHash)
  | QbitCommand_DeleteTorrent (hash : TorrentHash)
  | QbitCommand_EvictOneForDiskPressure
  | QbitCommand_AddTorrent (mam_id : MamTorrentId) (bytes : bytes).

Inductive QbitTimer :=
  | QbitTimer_AuthRetry
  | QbitTimer_SyncRetry
  | QbitTimer_TorrentRefresh.

Definition QbitTimer_name (self : QbitTimer) : string :=
  match self with
  | QbitTimer_AuthRetry => "QbitTimer::AuthRetry"
  | QbitTimer_SyncRetry => "QbitTimer::SyncRetry"
  | QbitTimer_TorrentRefresh => "QbitTimer::TorrentRefresh"
  end.

Inductive QbitEvent :=
  | QbitEvent_Init
  | QbitEvent_AuthSucceeded (cookie : AuthCookie)
  | QbitEvent_AuthFailed (reason : string)
  | QbitEvent_AuthRejected (reason : string)
  | QbitEvent_PreferencesRead (listen_port : option VpnPort) (dht pex lsd : bool)
      (max_active_torrents : Z)
  | QbitEvent_PreferencesFailed (reason : string)
  | QbitEvent_ListenPortSet (port : VpnPort)
  | QbitEvent_ListenPortSetFailed (port : VpnPort) (reason : string)
  | QbitEvent_TorrentsListed (torrents : list TorrentRecord)
  | QbitEvent_PrivacySettingsDisabled
  | QbitEvent_PrivacySettingsDisableFailed (reason : string)
  | QbitEvent_TorrentAdded (mam_id : MamTorrentId) (hash : TorrentHash)
  | QbitEvent_TorrentAddFailed (mam_id : MamTorrentId) (reason : string)
  | QbitEvent_TimerFired (timer : QbitTimer).

Inductive QbitAction :=
  | QbitAction_Login
  | QbitAction_ReadPreferences (cookie : AuthCookie)
  | QbitAction_SetListenPort (cookie : AuthCookie) (port : VpnPort)
  | QbitAction_ListTorrents (cookie : AuthCookie)
  | QbitAction_PauseTorrent (cookie : AuthCookie) (hash : TorrentHash)
  | QbitAction_ResumeTorrent (cookie : AuthCookie) (hash : TorrentHash)
  | QbitAction_DeleteTorrent (cookie : AuthCookie) (hash : TorrentHash)
  | QbitAction_SetAllFilesPriority (cookie : AuthCookie) (hash : TorrentHash)
  | QbitAction_DisableBannedPrivacySettings (cookie : AuthCookie)
  | QbitAction_ForceResumeTorrent (cookie : AuthCookie) (hash : TorrentHash)
  | QbitAction_AddTorrent (cookie : AuthCookie) (mam_id : MamTorrentId) (bytes : bytes)
  | QbitAction_ScheduleTimer (timer : QbitTimer) (after : Duration).

Inductive QbitPublish :=
  | QbitPublish_Ready
  | QbitPublish_Unavailable (reason : string)
  | QbitPublish_ListenPortReady (port : VpnPort)
  | QbitPublish_TorrentsUpdated (hashes : list TorrentHash)
  | QbitPublish_DeadTorrentRemoved (hash : TorrentHash) (mam_id : option MamTorrentId)
  | QbitPublish_BannedPrivacySettingsObserved (dht pex lsd : bool)
  | QbitPublish_QueueOrchestrated (paused force_resumed : TorrentHash)
  | QbitPublish_UnsatisfiedQuotaCritical (unsatisfied limit : Z)
  | QbitPublish_UnsatisfiedQuotaApproaching (unsatisfied limit : Z)
  | QbitPublish_UnsatisfiedQuotaOk (unsatisfied limit : Z)
  | QbitPublish_PrivacyClean
  | QbitPublish_AuthRejected (reason : string)
  | QbitPublish_ListenPortPersistentFailure (port : VpnPort) (attempts : Z)
  | QbitPublish_NewTorrentsAdded (hashes : list TorrentHash)
  | QbitPublish_TorrentAdded (mam_id : MamTorrentId) (hash : TorrentHash)
  | QbitPublish_TorrentAddFailed (mam_id : MamTorrentId) (reason : string)
  | QbitPublish_TorrentRecords (records : list TorrentRecord)
  | QbitPublish_HnRAtRisk (hash : TorrentHash) (name : TorrentName) (seed_time required : Duration)
  | QbitPublish_DeleteBlockedHnRLock (hash : TorrentHash) (name : TorrentName)
      (seed_time required : Duration).

Inductive QbitTopic :=
  | QbitTopic_Availability
  | QbitTopic_ListenPort
  | QbitTopic_Torrents
  | QbitTopic_Privacy
  | QbitTopic_Queue
  | QbitTopic_Quota.

Definition QbitPublish_topic (self : QbitPublish) : QbitTopic :=
  match self with
  | QbitPublish_Ready | QbitPublish_Unavailable _ | QbitPublish_AuthRejected _
  | QbitPublish_ListenPortPersistentFailure _ _ => QbitTopic_Availability
  | QbitPublish_ListenPortReady _ => QbitTopic_ListenPort
  | QbitPublish_TorrentsUpdated _ | QbitPublish_DeadTorrentRemoved _ _
  | QbitPublish_NewTorrentsAdded _ | QbitPublish_TorrentAdded _ _ | QbitPublish_TorrentAddFailed _ _
  | QbitPublish_TorrentRecords _ | QbitPublish_HnRAtRisk _ _ _ _
  | QbitPublish_DeleteBlockedHnRLock _ _ _ _ => QbitTopic_Torrents
  | QbitPublish_BannedPrivacySettingsObserved _ _ _ | QbitPublish_PrivacyClean => QbitTopic_Privacy
  | QbitPublish_QueueOrchestrated _ _ => QbitTopic_Queue
  | QbitPublish_UnsatisfiedQuotaCritical _ _ | QbitPublish_UnsatisfiedQuotaApproaching _ _
  | QbitPublish_UnsatisfiedQuotaOk _ _ => QbitTopic_Quota
  end.

Inductive QbitResponse :=
  | QbitResponse_Accepted.

Record PrivacySettings := mkPrivacySettings {
  dht : bool;
  pex : bool;
  lsd : bool;
}.
Definition any_banned (self : PrivacySettings) : bool := dht self || pex self || lsd self.

Record QbitMachine := mkQbitMachine {
  config : QbitConfig;
  cookie : option AuthCookie;
  listen_port : option VpnPort;
  desired_listen_port : option VpnPort;
  refresh_scheduled : bool;
  torrents : gmap TorrentHash TorrentRecord;
  privacy : PrivacySettings;
  max_active_torrents : Z;
  sync_attempts : Z;
}.

Abbreviation Answer := (Outcome QbitAction QbitPublish) (only parsing).

(** [HashMap::values]: in an order that is not specified. *)
Class HashOrder := {
  values : gmap TorrentHash TorrentRecord → list TorrentRecord;
  values_all : ∀ torrents, values torrents ≡ₚ (map_to_list torrents).*2;
}.

(** [Iterator::max_by_key]: the last of the greatest. *)
Fixpoint max_by_key {A} (key : A → Z) (l : list A) : option A :=
  match l with
  | [] => None
  | x :: l =>
      match max_by_key key l with
      | Some y => if key x <=? key y then Some y else Some x
      | None => Some x
      end
  end.
Definition count (p : TorrentRecord → bool) (l : list TorrentRecord) : Z :=
  try_from_or_max u32_max (Z.of_nat (length (List.filter p l))).

(** ** Torrents *)

(** Content was downloaded and has not been seeded for as long as the rule asks. *)
Definition unsatisfied (self : QbitMachine) (record : TorrentRecord) : bool :=
  (0 <? record_downloaded_bytes record) && (record_seed_time record <? hnr_seed_time (config self)).
Definition satisfied (self : QbitMachine) (record : TorrentRecord) : bool :=
  (record_downloaded_bytes record =? 0) || (hnr_seed_time (config self) <=? record_seed_time record).

Definition hnr_satisfied (self : QbitMachine) (hash : TorrentHash) : option bool :=
  satisfied self <$> torrents self !! hash.

Definition authorize_delete (self : QbitMachine) (hash : TorrentHash) : list QbitAction :=
  match cookie self with
  | None => []
  | Some cookie =>
      if is_some_and (torrents self !! hash) (unsatisfied self) then []
      else [QbitAction_DeleteTorrent cookie hash]
  end.

Definition is_dead (record : TorrentRecord) : bool :=
  (record_downloaded_bytes record =? 0) &&
  match record_state record with
  | TorrentState_StalledDownloading | TorrentState_StalledUploading | TorrentState_Error
  | TorrentState_PausedDownloading | TorrentState_PausedUploading => true
  | _ => false
  end.

Definition is_parked (state : TorrentState) : bool :=
  match state with TorrentState_PausedUploading | TorrentState_StalledUploading => true | _ => false end.
Definition is_at_risk (state : TorrentState) : bool :=
  match state with TorrentState_StalledUploading | TorrentState_Error => true | _ => false end.

Section order.
Context `{HashOrder}.

Definition evict_one_for_disk_pressure (self : QbitMachine) : list QbitAction :=
  match max_by_key record_seed_time (List.filter (satisfied self) (values (torrents self))) with
  | Some record => authorize_delete self (record_hash record)
  | None => []
  end.

Definition orchestrate_queue (self : QbitMachine) : list QbitAction * list QbitPublish :=
  match cookie self with
  | None => ([], [])
  | Some cookie =>
      let active_count := count (λ record, is_active (record_state record)) (values (torrents self)) in
      if active_count <? max_active_torrents self then ([], [])
      else
        let all_torrents := sort_by_key record_hash (values (torrents self)) in
        match List.find (λ record, unsatisfied self record && is_parked (record_state record)) all_torrents with
        | None => ([], [])
        | Some parked =>
            let seeders := List.filter (λ record,
              (hnr_seed_time (config self) <=? record_seed_time record)
              && (record_state record ==? TorrentState_Uploading)) all_torrents in
            match max_by_key record_seed_time seeders with
            | None => ([], [])
            | Some oldest_satisfied =>
                ([QbitAction_PauseTorrent cookie (record_hash oldest_satisfied);
                  QbitAction_ForceResumeTorrent cookie (record_hash parked)],
                 [QbitPublish_QueueOrchestrated (record_hash oldest_satisfied) (record_hash parked)])
            end
        end
  end.

Definition unsatisfied_count (self : QbitMachine) : Z :=
  count (unsatisfied self) (values (torrents self)).

Definition unsatisfied_quota_full (self : QbitMachine) : bool :=
  (0 <? unsatisfied_quota_limit (config self))
  && (unsatisfied_quota_limit (config self) <=? unsatisfied_count self).

Definition quota_publish (self : QbitMachine) : list QbitPublish :=
  let limit := unsatisfied_quota_limit (config self) in
  if limit =? 0 then []
  else
    let unsatisfied := unsatisfied_count self in
    if limit <=? unsatisfied then [QbitPublish_UnsatisfiedQuotaCritical unsatisfied limit]
    else if saturating_sub limit 5 <=? unsatisfied then
      [QbitPublish_UnsatisfiedQuotaApproaching unsatisfied limit]
    else [QbitPublish_UnsatisfiedQuotaOk unsatisfied limit].

(** ** The listening port *)

Definition retry_listen_port_or_read_preferences (self : QbitMachine) : list QbitAction :=
  match cookie self with
  | None => [QbitAction_Login]
  | Some cookie =>
      match desired_listen_port self with
      | None => [QbitAction_ReadPreferences cookie]
      | Some port => [QbitAction_SetListenPort cookie port]
      end
  end.

Definition set_listen_port (self : QbitMachine) (port : VpnPort) : list QbitAction :=
  match cookie self with
  | None => [QbitAction_Login]
  | Some cookie => [QbitAction_SetListenPort cookie port]
  end.

Definition converge_listen_port (self : QbitMachine) : list QbitAction :=
  match desired_listen_port self with
  | None => []
  | Some port => if listen_port self ==? Some port then [] else set_listen_port self port
  end.

Definition listen_port_publish (self : QbitMachine) (listen_port : option VpnPort) : list QbitPublish :=
  match listen_port with
  | Some port =>
      if is_none_or (desired_listen_port self) (λ desired_port, desired_port ==? port)
      then [QbitPublish_ListenPortReady port] else []
  | None => []
  end.

(** ** Events *)

Definition QbitMachine_new (config : QbitConfig) (_ : Instant) : QbitMachine :=
  mkQbitMachine config None None None false ∅ (mkPrivacySettings false false false) u32_max 0.

Definition apply_auth_succeeded (self : QbitMachine) (new_cookie : AuthCookie) : QbitMachine * Answer :=
  let first :=
    match desired_listen_port self with
    | None => QbitAction_ReadPreferences new_cookie
    | Some port => QbitAction_SetListenPort new_cookie port
    end in
  let refresh :=
    if refresh_scheduled self then []
    else [QbitAction_ScheduleTimer QbitTimer_TorrentRefresh (torrent_refresh (config self))] in
  ({| self with cookie := Some new_cookie; refresh_scheduled := true |},
   mkOutcome (first :: refresh) [QbitPublish_Ready]).

Definition again (timer : QbitTimer) (after : Duration) : list QbitAction :=
  [QbitAction_ScheduleTimer timer after].

Definition apply_preferences (self : QbitMachine) (port : option VpnPort) (dht pex lsd : bool)
    (max_active_torrents : Z) : QbitMachine * Answer :=
  let self := {| self with listen_port := port;
                           privacy := mkPrivacySettings dht pex lsd;
                           max_active_torrents := max_active_torrents |} in
  let '(disable, observed) :=
    if any_banned (privacy self) then
      (match cookie self with
       | Some cookie => [QbitAction_DisableBannedPrivacySettings cookie]
       | None => []
       end, QbitPublish_BannedPrivacySettingsObserved dht pex lsd)
    else ([], QbitPublish_PrivacyClean) in
  (self, mkOutcome (converge_listen_port self ++ disable) (listen_port_publish self port ++ [observed])).

Definition apply_listen_port_failed (self : QbitMachine) (port : VpnPort) (reason : string)
    : QbitMachine * Answer :=
  let attempts := saturating_add u32_max (sync_attempts self) 1 in
  let max := max_sync_attempts (config self) in
  if (0 <? max) && (max <=? attempts) then
    ({| self with sync_attempts := 0; cookie := None |},
     mkOutcome (again QbitTimer_AuthRetry (auth_retry (config self)))
       [QbitPublish_Unavailable reason; QbitPublish_ListenPortPersistentFailure port attempts])
  else
    ({| self with sync_attempts := attempts |},
     mkOutcome (again QbitTimer_SyncRetry (sync_retry (config self))) [QbitPublish_Unavailable reason]).

(** The torrents of a listing by their hash: of two with the same, the later. *)
Definition by_hash (listed : list TorrentRecord) : gmap TorrentHash TorrentRecord :=
  fold_left (λ torrents record, <[record_hash record := record]> torrents) listed ∅.

(** Delete the dead of a listing, each if it may be. *)
Definition remove_dead (self : QbitMachine) (listed : list TorrentRecord)
    : list QbitAction * list QbitPublish :=
  let removed := map (λ record, (authorize_delete self (record_hash record), record))
                   (List.filter is_dead listed) in
  (flat_map fst removed,
   flat_map (λ '(deletes, record),
     if is_empty deletes then []
     else [QbitPublish_DeadTorrentRemoved (record_hash record) (record_mam_id record)]) removed).

Definition apply_torrents_listed (self : QbitMachine) (listed : list TorrentRecord)
    : QbitMachine * Answer :=
  let newly_seen := map record_hash
    (List.filter (λ record, negb (is_some (torrents self !! record_hash record))) listed) in
  let self := {| self with torrents := by_hash listed |} in
  let at_risk := map (λ record,
      QbitPublish_HnRAtRisk (record_hash record) (record_name record) (record_seed_time record)
        (hnr_seed_time (config self)))
    (List.filter (λ record, unsatisfied self record && is_at_risk (record_state record))
       (values (torrents self))) in
  let added := if is_empty newly_seen then [] else [QbitPublish_NewTorrentsAdded newly_seen] in
  let priorities :=
    match cookie self with
    | Some cookie => map (QbitAction_SetAllFilesPriority cookie) newly_seen
    | None => []
    end in
  let '(deletes, removals) := remove_dead self listed in
  let '(orch_actions, orch_publish) := orchestrate_queue self in
  (self, mkOutcome (priorities ++ deletes ++ orch_actions)
           (QbitPublish_TorrentsUpdated (map record_hash listed)
            :: QbitPublish_TorrentRecords (values (torrents self))
            :: at_risk ++ added ++ removals ++ orch_publish ++ quota_publish self)).

Definition apply_timer (self : QbitMachine) (timer : QbitTimer) : QbitMachine * Answer :=
  (self, mkOutcome
     match timer with
     | QbitTimer_AuthRetry => [QbitAction_Login]
     | QbitTimer_SyncRetry => retry_listen_port_or_read_preferences self
     | QbitTimer_TorrentRefresh =>
         match cookie self with
         | Some cookie => [QbitAction_ListTorrents cookie; QbitAction_ReadPreferences cookie]
         | None => []
         end ++ again QbitTimer_TorrentRefresh (torrent_refresh (config self))
     end []).

Definition QbitMachine_handle (self : QbitMachine) (_ : Instant) (_ : SystemTime)
    (event : Timed QbitEvent) : QbitMachine * Answer :=
  match timed_inner event with
  | QbitEvent_Init => (self, mkOutcome [QbitAction_Login] [])
  | QbitEvent_TimerFired timer => apply_timer self timer
  | QbitEvent_AuthSucceeded cookie => apply_auth_succeeded self cookie
  | QbitEvent_AuthFailed reason =>
      (self, mkOutcome (again QbitTimer_AuthRetry (auth_retry (config self)))
               [QbitPublish_Unavailable reason])
  | QbitEvent_AuthRejected reason =>
      (self, mkOutcome (again QbitTimer_AuthRetry (auth_retry (config self)))
               [QbitPublish_Unavailable reason; QbitPublish_AuthRejected reason])
  | QbitEvent_PreferencesRead listen_port dht pex lsd max_active_torrents =>
      apply_preferences self listen_port dht pex lsd max_active_torrents
  | QbitEvent_PreferencesFailed reason | QbitEvent_PrivacySettingsDisableFailed reason =>
      (self, mkOutcome (again QbitTimer_SyncRetry (sync_retry (config self)))
               [QbitPublish_Unavailable reason])
  | QbitEvent_ListenPortSetFailed port reason => apply_listen_port_failed self port reason
  | QbitEvent_ListenPortSet port =>
      let self := {| self with listen_port := Some port; sync_attempts := 0 |} in
      (self, mkOutcome [] (listen_port_publish self (Some port)))
  | QbitEvent_TorrentsListed torrents => apply_torrents_listed self torrents
  | QbitEvent_PrivacySettingsDisabled => (self, Outcome_none)
  | QbitEvent_TorrentAdded mam_id hash =>
      (self, mkOutcome [] [QbitPublish_TorrentAdded mam_id hash])
  | QbitEvent_TorrentAddFailed mam_id reason =>
      (self, mkOutcome [] [QbitPublish_TorrentAddFailed mam_id reason])
  end.

(** ** Commands *)

Abbreviation Reply := (CommandOutcome QbitAction QbitPublish QbitResponse) (only parsing).

(** What needs a session does nothing without one. *)
Definition with_session (self : QbitMachine) (action : AuthCookie → QbitAction) : list QbitAction :=
  match cookie self with Some cookie => [action cookie] | None => [] end.

Definition delete_torrent (self : QbitMachine) (hash : TorrentHash) : Reply :=
  let actions := authorize_delete self hash in
  match torrents self !! hash with
  | Some record =>
      if is_empty actions && unsatisfied self record then
        outcome_with_publish actions
          [QbitPublish_DeleteBlockedHnRLock hash (record_name record) (record_seed_time record)
             (hnr_seed_time (config self))] QbitResponse_Accepted
      else outcome actions QbitResponse_Accepted
  | None => outcome actions QbitResponse_Accepted
  end.

Definition QbitMachine_handle_command (self : QbitMachine) (_ : Instant) (_ : SystemTime)
    (cmd : QbitCommand) : QbitMachine * Reply :=
  match cmd with
  | QbitCommand_EnsureAuthenticated => (self, outcome [QbitAction_Login] QbitResponse_Accepted)
  | QbitCommand_EnsureListenPort port =>
      let self := {| self with desired_listen_port := Some port |} in
      if listen_port self ==? Some port then
        (self, outcome_with_publish [] [QbitPublish_ListenPortReady port] QbitResponse_Accepted)
      else (self, outcome (set_listen_port self port) QbitResponse_Accepted)
  | QbitCommand_RefreshTorrents =>
      (self, outcome (with_session self QbitAction_ListTorrents) QbitResponse_Accepted)
  | QbitCommand_PauseTorrent hash =>
      (self, outcome (with_session self (λ cookie, QbitAction_PauseTorrent cookie hash))
               QbitResponse_Accepted)
  | QbitCommand_ResumeTorrent hash =>
      (self, outcome (with_session self (λ cookie, QbitAction_ResumeTorrent cookie hash))
               QbitResponse_Accepted)
  | QbitCommand_DeleteTorrent hash => (self, delete_torrent self hash)
  | QbitCommand_EvictOneForDiskPressure =>
      (self, outcome (evict_one_for_disk_pressure self) QbitResponse_Accepted)
  | QbitCommand_AddTorrent mam_id bytes =>
      (self, outcome (with_session self (λ cookie, QbitAction_AddTorrent cookie mam_id bytes))
               QbitResponse_Accepted)
  end.

#[global] Instance QbitMachine_Machine :
    Machine QbitMachine QbitConfig QbitEvent QbitAction QbitPublish QbitCommand QbitResponse := {
  new := QbitMachine_new;
  handle := QbitMachine_handle;
  handle_command := QbitMachine_handle_command;
}.
End order.

(** ** What is promised *)

Abbreviation QbitInput := (Input QbitEvent QbitCommand) (only parsing).

(** The session an action is taken in. *)
Definition session_of (action : QbitAction) : option AuthCookie :=
  match action with
  | QbitAction_Login | QbitAction_ScheduleTimer _ _ => None
  | QbitAction_ReadPreferences cookie | QbitAction_SetListenPort cookie _
  | QbitAction_ListTorrents cookie | QbitAction_PauseTorrent cookie _
  | QbitAction_ResumeTorrent cookie _ | QbitAction_DeleteTorrent cookie _
  | QbitAction_SetAllFilesPriority cookie _ | QbitAction_DisableBannedPrivacySettings cookie
  | QbitAction_ForceResumeTorrent cookie _ | QbitAction_AddTorrent cookie _ _ => Some cookie
  end.

(** A torrent known to owe seeding. *)
Definition owed (self : QbitMachine) (hash : TorrentHash) : bool :=
  is_some_and (torrents self !! hash) (unsatisfied self).

Definition pause_commanded (input : QbitInput) (hash : TorrentHash) : Prop :=
  match input with
  | Input_Command _ _ (QbitCommand_PauseTorrent hash') => hash = hash'
  | _ => False
  end.

Definition add_commanded (input : QbitInput) (mam_id : MamTorrentId) (bytes : bytes) : Prop :=
  match input with
  | Input_Command _ _ (QbitCommand_AddTorrent mam_id' bytes') => mam_id = mam_id' ∧ bytes = bytes'
  | _ => False
  end.

(** What the machine may ask of qBittorrent in a state. *)
Definition permitted (self : QbitMachine) (input : QbitInput) (action : QbitAction) : Prop :=
  (∀ used, session_of action = Some used → cookie self = Some used) ∧
  match action with
  | QbitAction_DeleteTorrent _ hash => owed self hash = false
  | QbitAction_PauseTorrent _ hash =>
      pause_commanded input hash ∨
      ∃ record, torrents self !! hash = Some record ∧ record_state record = TorrentState_Uploading ∧
        hnr_seed_time (config self) ≤ record_seed_time record
  | QbitAction_ForceResumeTorrent _ hash =>
      ∃ record, torrents self !! hash = Some record ∧ unsatisfied self record = true ∧
        is_parked (record_state record) = true
  | QbitAction_SetListenPort _ port => desired_listen_port self = Some port
  | QbitAction_AddTorrent _ mam_id bytes => add_commanded input mam_id bytes
  | _ => True
  end.

Lemma with_session_permitted self input (action : AuthCookie → QbitAction) :
  (∀ used, session_of (action used) = Some used) →
  (∀ used, cookie self = Some used → permitted self input (action used)) →
  Forall (permitted self input) (with_session self action).
Proof.
  intros Hsession Hpermitted. unfold with_session. destruct (cookie self) as [used|]; [|apply Forall_nil_2].
  apply Forall_singleton. by apply Hpermitted.
Qed.

Lemma authorize_permitted self input hash :
  Forall (permitted self input) (authorize_delete self hash).
Proof.
  unfold authorize_delete. destruct (cookie self) as [used|] eqn:Hcookie; [|apply Forall_nil_2].
  destruct (is_some_and _ _) eqn:Howed; [apply Forall_nil_2|]. apply Forall_singleton.
  split; [by intros ? [= <-]|done].
Qed.

Lemma unrestricted_permitted self input actions :
  Forall (λ action, session_of action = None) actions → Forall (permitted self input) actions.
Proof.
  intros Hall. eapply List.Forall_impl; [|exact Hall]. intros action Hnone. split; [by rewrite Hnone|].
  by destruct action.
Qed.

Lemma max_by_key_in {A} (key : A → Z) l x : max_by_key key l = Some x → x ∈ l.
Proof.
  revert x. induction l as [|y l IH]; intros x; cbn; [done|].
  destruct (max_by_key key l) as [z|]; [case_match|]; intros [= <-]; auto using list_elem_of_here, list_elem_of_further.
Qed.
Lemma max_by_key_greatest {A} (key : A → Z) l x y : max_by_key key l = Some x → y ∈ l → key y ≤ key x.
Proof.
  revert x. induction l as [|z l IH]; intros x; cbn; [done|].
  destruct (max_by_key key l) as [w|] eqn:Hmax.
  - intros Hx [->|Hin]%elem_of_cons; case_match; reflect_bools; simplify_eq; try lia; eauto.
    specialize (IH w eq_refl Hin). lia.
  - intros [= <-] [->|Hin]%elem_of_cons; [lia|].
    destruct l; [by apply elem_of_nil in Hin|]. cbn in Hmax. by repeat case_match.
Qed.

Lemma sort_by_key_in {A} (key : A → string) l x : x ∈ sort_by_key key l → x ∈ l.
Proof.
  assert (∀ y l, x ∈ insert_by_key key y l → x = y ∨ x ∈ l) as Hinsert.
  { intros y l'. induction l' as [|z l' IH]; cbn; [set_solver|]. case_match; [set_solver|].
    intros [->|[->|Hin]%IH]%elem_of_cons; set_solver. }
  induction l as [|y l IH]; cbn; [done|]. intros [->|Hin]%Hinsert; set_solver.
Qed.

Section promises.
Context `{HashOrder}.

(** Every torrent is found under its own hash. *)
Definition keyed (self : QbitMachine) : Prop :=
  ∀ hash record, torrents self !! hash = Some record → record_hash record = hash.

Lemma values_lookup self record :
  keyed self → record ∈ values (torrents self) → torrents self !! record_hash record = Some record.
Proof.
  intros Hkeyed. rewrite values_all, list_elem_of_fmap. intros ([hash record'] & -> & Hin).
  apply elem_of_map_to_list in Hin. cbn. by rewrite (Hkeyed _ _ Hin).
Qed.

Lemma by_hash_keyed listed hash record : by_hash listed !! hash = Some record → record_hash record = hash.
Proof.
  unfold by_hash. assert (∀ m : gmap TorrentHash TorrentRecord,
    (∀ hash record, m !! hash = Some record → record_hash record = hash) →
    ∀ hash record, fold_left (λ m record, <[record_hash record := record]> m) listed m !! hash = Some record →
      record_hash record = hash) as Hfold.
  { induction listed as [|r listed IH]; intros m Hm; cbn; [done|]. apply IH.
    intros hash' record'. rewrite lookup_insert_Some. intros [[<- <-]|[_ ?]]; eauto. }
  apply Hfold. intros hash' record'. by rewrite lookup_empty.
Qed.

Lemma orchestrate_permitted self input :
  keyed self → Forall (permitted self input) (orchestrate_queue self).1.
Proof.
  intros Hkeyed. unfold orchestrate_queue.
  destruct (cookie self) as [used|] eqn:Hcookie; [|apply Forall_nil_2]. cbv zeta.
  case_match; [apply Forall_nil_2|].
  destruct (List.find _ _) as [parked|] eqn:Hparked; [|apply Forall_nil_2].
  destruct (max_by_key _ _) as [oldest|] eqn:Holdest; [|apply Forall_nil_2].
  apply find_some in Hparked as [Hin [Hu Hp]%andb_prop].
  apply max_by_key_in, list_elem_of_In, filter_In in Holdest as [Hin' [Hs Hst]%andb_prop].
  apply list_elem_of_In, sort_by_key_in, (values_lookup _ _ Hkeyed) in Hin, Hin'. reflect_bools.
  apply Forall_cons_2; [|apply Forall_singleton].
  - split; [by intros ? [= <-]|]. right. eauto.
  - split; [by intros ? [= <-]|]. eauto.
Qed.

Lemma remove_dead_permitted self input listed :
  Forall (permitted self input) (remove_dead self listed).1.
Proof.
  unfold remove_dead. cbn [fst]. induction (List.filter is_dead listed) as [|record dead IH]; cbn;
    [apply Forall_nil_2|]. apply Forall_app_2; [apply authorize_permitted|done].
Qed.

Lemma evict_permitted self input : Forall (permitted self input) (evict_one_for_disk_pressure self).
Proof. unfold evict_one_for_disk_pressure. case_match; [apply authorize_permitted|apply Forall_nil_2]. Qed.

Lemma optional_session self input (action : AuthCookie → QbitAction) :
  (∀ used, session_of (action used) = Some used) →
  (∀ used, match action used with
           | QbitAction_DeleteTorrent _ _ | QbitAction_PauseTorrent _ _
           | QbitAction_ForceResumeTorrent _ _ | QbitAction_SetListenPort _ _
           | QbitAction_AddTorrent _ _ _ => False
           | _ => True
           end) →
  ∀ used, cookie self = Some used → permitted self input (action used).
Proof.
  intros Hsession Hfree used Hcookie. split; [by intros ?; rewrite Hsession; intros [= <-]|].
  specialize (Hfree used). by destruct (action used).
Qed.

(** The port asked for last may be set. *)
Lemma desired_permitted self input port used :
  desired_listen_port self = Some port → cookie self = Some used →
  permitted self input (QbitAction_SetListenPort used port).
Proof. intros Hport Hcookie. split; [by intros ? [= <-]|done]. Qed.

Lemma set_listen_port_permitted self input port :
  desired_listen_port self = Some port → Forall (permitted self input) (set_listen_port self port).
Proof.
  intros Hport. unfold set_listen_port. destruct (cookie self) as [used|] eqn:Hcookie.
  - apply Forall_singleton. by apply desired_permitted.
  - apply unrestricted_permitted. by apply Forall_singleton.
Qed.

Ltac session_case :=
  first [apply Forall_nil_2
        |apply unrestricted_permitted; repeat apply Forall_cons_2; try apply Forall_nil_2; reflexivity
        |apply with_session_permitted; [done|by apply optional_session]].

Lemma apply_preferences_permitted self input port dht pex lsd maximum :
  let '(self', answer) := apply_preferences self port dht pex lsd maximum in
  Forall (permitted self' input) (actions answer).
Proof.
  unfold apply_preferences. cbv zeta. set (self' := mkQbitMachine _ _ _ _ _ _ _ _ _).
  assert (Forall (permitted self' input) (converge_listen_port self')) as Hconverge.
  { unfold converge_listen_port.
    destruct (desired_listen_port self') as [desired|] eqn:Hdesired; [|apply Forall_nil_2].
    case_match; [apply Forall_nil_2|by apply set_listen_port_permitted]. }
  destruct (any_banned (privacy self')); cbn [actions].
  - apply Forall_app_2; [done|]. destruct (cookie self') as [used|] eqn:Hcookie; [|apply Forall_nil_2].
    apply Forall_singleton. by apply (optional_session _ _ QbitAction_DisableBannedPrivacySettings).
  - rewrite app_nil_r. done.
Qed.

Lemma apply_torrents_permitted self input listed :
  let '(self', answer) := apply_torrents_listed self listed in
  Forall (permitted self' input) (actions answer).
Proof.
  unfold apply_torrents_listed. cbv zeta. set (self' := mkQbitMachine _ _ _ _ _ _ _ _ _).
  assert (keyed self') as Hkeyed by (intros hash record; apply by_hash_keyed).
  pose proof (orchestrate_permitted self' input Hkeyed) as Horch.
  pose proof (remove_dead_permitted self' input listed) as Hdead.
  destruct (remove_dead self' listed) as [deletes removals].
  destruct (orchestrate_queue self') as [orch_actions orch_publish]. cbn [actions fst] in *.
  apply Forall_app_2; [|by apply Forall_app_2].
  destruct (cookie self') as [used|] eqn:Hcookie; [|apply Forall_nil_2].
  apply List.Forall_map, Forall_true. intros hash.
  by apply (optional_session _ _ (λ used, QbitAction_SetAllFilesPriority used hash)).
Qed.

Lemma step_permitted self (input : QbitInput) :
  Forall (permitted (step self input).1 input) (actions (step self input).2).
Proof.
  destruct input as [now wall_now [at_ cause event]|now wall_now command].
  - set (input := Input_Event _ _ _).
    destruct event; cbn [step handle QbitMachine_Machine QbitMachine_handle timed_inner fst snd actions input];
      try session_case.
    + apply Forall_cons_2; [|case_match; session_case].
      destruct (desired_listen_port self) as [port|] eqn:Hdesired; [by apply desired_permitted|].
      by apply (optional_session {| self with cookie := Some cookie0 |} _ QbitAction_ReadPreferences).
    + pose proof (apply_preferences_permitted self input listen_port0 dht0 pex0 lsd0 max_active_torrents0).
      by destruct (apply_preferences _ _ _ _ _ _).
    + unfold apply_listen_port_failed. cbv zeta. case_match; session_case.
    + pose proof (apply_torrents_permitted self input torrents0). by destruct (apply_torrents_listed _ _).
    + destruct timer; cbn [apply_timer fst snd actions]; try session_case.
      * unfold retry_listen_port_or_read_preferences.
        destruct (cookie self) as [used|] eqn:Hcookie; [|session_case].
        destruct (desired_listen_port self) as [port|] eqn:Hdesired; apply Forall_singleton.
        -- by apply desired_permitted.
        -- by apply (optional_session _ _ QbitAction_ReadPreferences).
      * apply Forall_app_2; [|session_case].
        destruct (cookie self) as [used|] eqn:Hcookie; [|apply Forall_nil_2].
        apply Forall_cons_2; [|apply Forall_singleton];
          by apply (optional_session _ _ (λ used, _ used)).
  - set (input := Input_Command _ _ _).
    destruct command; cbn [step handle_command QbitMachine_Machine QbitMachine_handle_command fst snd
      actions outcome command_actions input]; try session_case.
    + cbn. destruct (listen_port self ==? Some port); cbn [fst snd actions command_actions outcome];
        [apply Forall_nil_2|by apply set_listen_port_permitted].
    + apply with_session_permitted; [done|]. intros used Hcookie.
      split; [by intros ? [= <-]|by left].
    + unfold delete_torrent. cbv zeta. repeat case_match; apply authorize_permitted.
    + apply evict_permitted.
    + apply with_session_permitted; [done|]. intros used Hcookie. by split; [intros ? [= <-]|].
Qed.

(** Only a command changes the port that is wanted. *)
Lemma step_desired self (input : QbitInput) :
  desired_listen_port (step self input).1 =
  match input with
  | Input_Command _ _ (QbitCommand_EnsureListenPort port) => Some port
  | _ => desired_listen_port self
  end.
Proof.
  destruct input as [now wall_now [at_ cause []]|now wall_now []]; try reflexivity; cbn.
  - unfold apply_preferences. cbv zeta. by destruct (any_banned _).
  - unfold apply_listen_port_failed. cbv zeta. by case_match.
  - unfold apply_torrents_listed. cbv zeta. by repeat case_match.
  - by destruct (listen_port self ==? Some port).
Qed.


(** Disk pressure removes at most one torrent, and of those that owe nothing the one seeded
    longest. *)
Theorem eviction_takes_the_longest_seeded self used :
  keyed self → cookie self = Some used →
  let known := values (torrents self) in
  (evict_one_for_disk_pressure self = [] ∧ ∀ record, record ∈ known → satisfied self record = false) ∨
  ∃ evicted, evict_one_for_disk_pressure self = [QbitAction_DeleteTorrent used (record_hash evicted)] ∧
    evicted ∈ known ∧ satisfied self evicted = true ∧
    ∀ record, record ∈ known → satisfied self record = true →
      record_seed_time record ≤ record_seed_time evicted.
Proof.
  intros Hkeyed Hcookie. cbv zeta. unfold evict_one_for_disk_pressure.
  assert (∀ record, record ∈ values (torrents self) → satisfied self record = true →
    record ∈ List.filter (satisfied self) (values (torrents self))) as Hfilter.
  { intros record Hin Hs. apply list_elem_of_In, filter_In. split; [by apply list_elem_of_In|done]. }
  destruct (max_by_key _ _) as [evicted|] eqn:Hmax.
  - right. exists evicted. pose proof (λ record, max_by_key_greatest _ _ _ record Hmax) as Hgreatest.
    apply max_by_key_in, list_elem_of_In, filter_In in Hmax as [Hin Hs]. apply list_elem_of_In in Hin.
    unfold authorize_delete. rewrite Hcookie, (values_lookup _ _ Hkeyed Hin). cbn.
    destruct (unsatisfied self evicted) eqn:Hu; [|split_and!; eauto].
    unfold satisfied, unsatisfied in *. apply andb_prop in Hu as [??].
    apply orb_prop in Hs as [?|?]; reflect_bools; lia.
  - left. split; [done|]. intros record Hin. destruct (satisfied self record) eqn:Hs; [|done].
    specialize (Hfilter record Hin Hs). destruct (List.filter _ _) as [|x l]; [by apply elem_of_nil in Hfilter|].
    cbn in Hmax. by repeat case_match.
Qed.
End promises.

(** The order of the map itself. *)
#[export, program] Instance some_order : HashOrder := {| values torrents := (map_to_list torrents).*2 |}.
Next Obligation. done. Qed.

(** ** A sample step *)

Definition sample_qbit : QbitConfig :=
  mkQbitConfig (from_secs 30) (from_secs 30) (from_mins 5) (from_hours 72) 100 3.
Definition record_of (hash : TorrentHash) (downloaded : Z) (seeded : Duration) (state : TorrentState) : TorrentRecord :=
  mkTorrentRecord hash downloaded seeded state None hash 0.
Definition sample_listing : list TorrentRecord :=
  [record_of "seeded" 10 (from_hours 80) TorrentState_Uploading;
   record_of "parked" 10 (from_hours 3) TorrentState_PausedUploading;
   record_of "dead" 0 0 TorrentState_Error].
Definition sample_session : QbitMachine :=
  mkQbitMachine sample_qbit (Some (mkAuthCookie "sid")) None None true
    (by_hash sample_listing) (mkPrivacySettings false false false) 1 0.

Example a_listing_is_acted_on :
  actions (apply_torrents_listed sample_session sample_listing).2
  = [QbitAction_DeleteTorrent (mkAuthCookie "sid") "dead";
     QbitAction_PauseTorrent (mkAuthCookie "sid") "seeded";
     QbitAction_ForceResumeTorrent (mkAuthCookie "sid") "parked"].
Proof. vm_compute. reflexivity. Qed.

