(* ===== verification/PocDomain.v ===== *)
(** * The archived prototype: the domain

    The machine that joins the others ([POC/windlass-domain-core/src/lib.rs]): what each of
    them publishes, what that means for the state shown and for the admission of
    downloads, and what is commanded, alerted and recorded in answer. Then the rule of
    admission: for every sequence of events and commands, a candidate is fetched exactly if the
    latest of each signal allows it. *)

From S2P Require Import Prelude Bytes Text.
From stdpp Require Import strings.
From S2P Require Import Floats.
From S2P Require Import Address.
From S2P Require Import Json.
From S2P Require Import Describe.
From S2P Require Import PocMachine.
From S2P Require Import PocCores PocDocker PocMam PocQbit.
Import Vpn Disk Db.

Local Open Scope string_scope.
Local Open Scope Z_scope.
Local Open Scope list_scope.

(** What [chrono] makes of a time in UTC: its text, and the last time there is, in the year
    262142. *)
Class Chrono := {
  datetime_text : SystemTime → string;
  MAX_UTC : SystemTime;
  MAX_UTC_milliseconds : MAX_UTC ≤ i64_max * 1_000_000;
}.
(** The [Debug] form of a text. *)
Class DebugText := debug_text : string → string.

(** ** Types *)

Record WindlassConfig := mkWindlassConfig {
  snapshot_interval : Duration;
  anchor : string;
  initial_blacklist : gset MamTorrentId;
}.

Inductive WindlassTimer :=
  | WindlassTimer_Snapshot.
Definition WindlassTimer_name (self : WindlassTimer) : string :=
  match self with WindlassTimer_Snapshot => "WindlassTimer::Snapshot" end.

Inductive WindlassEvent :=
  | WindlassEvent_Init
  | WindlassEvent_Vpn (publish : VpnPublish)
  | WindlassEvent_Qbit (publish : QbitPublish)
  | WindlassEvent_Mam (publish : MamPublish)
  | WindlassEvent_Disk (publish : DiskPublish)
  | WindlassEvent_Docker (publish : DockerPublish)
  | WindlassEvent_DbFailed (operation message : string)
  | WindlassEvent_TimerFired (timer : WindlassTimer).

Inductive ServiceStatus :=
  | ServiceStatus_Unknown
  | ServiceStatus_Ready
  | ServiceStatus_Degraded.
#[global] Instance ServiceStatus_eq_dec : EqDecision ServiceStatus.
Proof. solve_decision. Defined.

Record SystemStateView := mkSystemStateView {
  state_vpn : ServiceStatus;
  state_qbit : ServiceStatus;
  state_mam : ServiceStatus;
  forwarded_port : option VpnPort;
}.

Inductive WindlassAction :=
  | WindlassAction_Qbit (command : QbitCommand)
  | WindlassAction_Mam (command : MamCommand)
  | WindlassAction_Db (command : DbCommand)
  | WindlassAction_Docker (command : DockerCommand)
  | WindlassAction_SaveSystemSnapshot (state : SystemStateView)
  | WindlassAction_SendAlert (priority : AlertPriority) (title body : string)
  | WindlassAction_ScheduleTimer (timer : WindlassTimer) (after : Duration).

Inductive WindlassPublish :=
  | WindlassPublish_SystemState (state : SystemStateView)
  | WindlassPublish_Activity (message : string).

Inductive WindlassTopic :=
  | WindlassTopic_SystemState
  | WindlassTopic_Activity.
Definition WindlassPublish_topic (self : WindlassPublish) : WindlassTopic :=
  match self with
  | WindlassPublish_SystemState _ => WindlassTopic_SystemState
  | WindlassPublish_Activity _ => WindlassTopic_Activity
  end.

Record DownloadCandidate := mkDownloadCandidate {
  candidate_mam_id : MamTorrentId;
  dl_url : string;
  size_bytes : Z;
  numfiles : Z;
  freeleech : bool;
  est_download_duration : Duration;
  my_snatched : bool;
  freeleech_window_end : option SystemTime;
}.

Inductive WindlassCommand :=
  | WindlassCommand_Refresh
  | WindlassCommand_TryAddTorrent (candidate : DownloadCandidate)
  | WindlassCommand_ManualDownload (mam_id : MamTorrentId).

Inductive GateFailure :=
  | GateFailure_UploadHealth
  | GateFailure_UnsatisfiedQuotaFull
  | GateFailure_QbitPrivacyUnclean
  | GateFailure_QbitPortDesynced
  | GateFailure_MamUnhealthy
  | GateFailure_VpnIpNonCompliant
  | GateFailure_AlreadySnatched
  | GateFailure_Collection
  | GateFailure_FreeleechWindowTooNarrow.

Inductive WindlassResponse :=
  | WindlassResponse_Accepted.

Record AdmissionState := mkAdmissionState {
  upload_health_ok : bool;
  upload_buffer_ok : bool;
  unsatisfied_quota_full : bool;
  qbit_privacy_clean : bool;
  qbit_listen_port : option VpnPort;
  mam_healthy : bool;
  vpn_ip_compliant : option bool;
}.

Definition fail_closed : AdmissionState := {|
  upload_health_ok := false;
  upload_buffer_ok := false;
  unsatisfied_quota_full := true;
  qbit_privacy_clean := false;
  qbit_listen_port := None;
  mam_healthy := false;
  vpn_ip_compliant := None;
|}.

Definition qbit_port_synced (self : AdmissionState) (forwarded_port : option VpnPort) : bool :=
  match qbit_listen_port self, forwarded_port with
  | Some a, Some b => a =? b
  | _, _ => false
  end.

Record WindlassMachine := mkWindlassMachine {
  config : WindlassConfig;
  state : SystemStateView;
  admission : AdmissionState;
  blacklisted_mam_ids : gset MamTorrentId;
}.

Definition WindlassMachine_new (config : WindlassConfig) (_ : Instant) : WindlassMachine := {|
  config := config;
  state := mkSystemStateView ServiceStatus_Unknown ServiceStatus_Unknown ServiceStatus_Unknown None;
  admission := fail_closed;
  blacklisted_mam_ids := initial_blacklist config;
|}.

Abbreviation Answer := (Outcome WindlassAction WindlassPublish) (only parsing).
Abbreviation Reply := (CommandOutcome WindlassAction WindlassPublish WindlassResponse) (only parsing).

(** ** What is sent *)

Definition alert (priority : AlertPriority) (title body : string) : Answer :=
  mkOutcome [WindlassAction_SendAlert priority title body] [].
Definition record_activity (at_ : SystemTime) (source : ActivitySource) (action : string)
    (detail : option string) (metadata : Value) : WindlassAction :=
  WindlassAction_Db (RecordActivity (mkActivityRecord at_ source action None detail metadata)).
(** An alert that is recorded, the same as an activity, and the activity published. *)
Definition recorded_alert (at_ : SystemTime) (priority : AlertPriority) (title body : string)
    (source : ActivitySource) (action message : string) : Answer :=
  mkOutcome
    [WindlassAction_Db (RecordAlert (mkAlertRecord at_ priority title body));
     record_activity at_ source action (Some message) Value_Null]
    [WindlassPublish_Activity message].
Definition recorded_activity (at_ : SystemTime) (source : ActivitySource) (action detail message : string)
    : Answer :=
  mkOutcome [record_activity at_ source action (Some detail) Value_Null] [WindlassPublish_Activity message].

Definition json_object (fields : list (string * Value)) : Value := to_value (Value_Object fields).
Definition json_id (id : Z) : Value := Value_Number (Number_PosInt id).
Definition quote : string := t [ascii_of_nat 34].

Definition snapshot_action (self : WindlassMachine) : WindlassAction :=
  WindlassAction_SaveSystemSnapshot (state self).
Definition publish_state (self : WindlassMachine) : Answer :=
  mkOutcome [snapshot_action self] [WindlassPublish_SystemState (state self)].
Definition publish_state_with_activity (self : WindlassMachine) (message : string) : Answer :=
  mkOutcome [snapshot_action self]
    [WindlassPublish_SystemState (state self); WindlassPublish_Activity message].

Definition set_vpn (self : WindlassMachine) (status : ServiceStatus) (port : option VpnPort) : WindlassMachine :=
  let state := state self in
  {| self with state := {| state with state_vpn := status; forwarded_port := port |} |}.
Definition set_forwarded_port (self : WindlassMachine) (port : option VpnPort) : WindlassMachine :=
  let state := state self in {| self with state := {| state with forwarded_port := port |} |}.
Definition set_qbit (self : WindlassMachine) (status : ServiceStatus) : WindlassMachine :=
  let state := state self in {| self with state := {| state with state_qbit := status |} |}.
(** The state shown of MAM and the gate of admission go together. *)
Definition set_mam (self : WindlassMachine) (status : ServiceStatus) (healthy : bool) : WindlassMachine :=
  let state := state self in
  let admission := admission self in
  {| self with state := {| state with state_mam := status |};
               admission := {| admission with mam_healthy := healthy |} |}.
Definition set_ip_compliant (self : WindlassMachine) (compliant : option bool) : WindlassMachine :=
  let admission := admission self in
  {| self with admission := {| admission with vpn_ip_compliant := compliant |} |}.
Definition set_quota_full (self : WindlassMachine) (full : bool) : WindlassMachine :=
  let admission := admission self in
  {| self with admission := {| admission with unsatisfied_quota_full := full |} |}.
Definition set_privacy_clean (self : WindlassMachine) (clean : bool) : WindlassMachine :=
  let admission := admission self in
  {| self with admission := {| admission with qbit_privacy_clean := clean |} |}.
Definition set_mam_healthy (self : WindlassMachine) (healthy : bool) : WindlassMachine :=
  let admission := admission self in
  {| self with admission := {| admission with mam_healthy := healthy |} |}.
Definition set_upload_health (self : WindlassMachine) (health_ok buffer_ok : bool) : WindlassMachine :=
  let admission := admission self in
  {| self with admission := {| admission with upload_health_ok := health_ok; upload_buffer_ok := buffer_ok |} |}.

(** ** The tunnel *)

Section domain.
Context `{Chrono, DebugText}.

Definition crashed (self : WindlassMachine) : Answer :=
  let anchor := anchor (config self) in
  mkOutcome
    [WindlassAction_Docker DockerCommand_DumpAllLogs;
     WindlassAction_Docker DockerCommand_StopDependents;
     WindlassAction_SendAlert AlertPriority_Critical (say ["VPN anchor `"; anchor; "` crashed"])
       (say ["💀 VPN anchor `"; anchor; "` reported unhealthy.  Dumping logs and ";
             "stopping dependents — the tunnel core will drive recovery without restarting Windlass."])]
    [].

Definition port_ready (self : WindlassMachine) (port : VpnPort) : WindlassMachine * Answer :=
  let self := set_forwarded_port self (Some port) in
  (self, mkOutcome
     [WindlassAction_Qbit (QbitCommand_EnsureListenPort port);
      WindlassAction_Mam (MamCommand_EnsureSeedboxPort port);
      snapshot_action self]
     [WindlassPublish_SystemState (state self)]).

Definition source_words (source : VerificationSource) : string * string * string :=
  match source with
  | IfConfigCo =>
      ("ifconfig.co", "ifconfig.co (public-internet view)", "vpn_public_ip_mismatch_ifconfig")
  | MamJsonIp =>
      ("MAM /json/jsonIp.php", "MAM /json/jsonIp.php (what MAM sees)", "vpn_public_ip_mismatch_mam")
  end.

Definition vpn_ip_text (ip : VpnIp) : string := t (print_ipv4 ip).

Definition on_public_ip_mismatch (file_ip verified_ip : VpnIp) (source : VerificationSource)
    (at_ : SystemTime) : Answer :=
  let '(source_label, source_human, action_label) := source_words source in
  let body := say ["The tunnel reports the VPN exit as "; vpn_ip_text file_ip; " but "; source_human;
    " reports we appear as "; vpn_ip_text verified_ip;
    ". Treat as a potential leak; autograb is blocked until verification recovers."] in
  let message := say ["VPN IP mismatch ("; source_label; "): file="; vpn_ip_text file_ip; " verified=";
    vpn_ip_text verified_ip] in
  recorded_alert at_ AlertPriority_Critical (say ["VPN public IP mismatch ("; source_label; ")"]) body
    ActivitySource_Vpn action_label message.

Definition on_public_ip_verification_degraded (consecutive_failures : Z) (last_reason : string)
    (at_ : SystemTime) : Answer :=
  let body := say ["Public-IP verification (ifconfig.co) failed "; num consecutive_failures;
    " times in a row. Last reason: "; last_reason;
    ". The tunnel-observed IP is still the source of truth; admission is unaffected."] in
  let message := say ["VPN public-IP verification degraded: "; num consecutive_failures;
    " consecutive failures (last: "; last_reason; ")"] in
  recorded_alert at_ AlertPriority_Warning "VPN IP verification failing" body
    ActivitySource_Vpn "vpn_public_ip_verification_degraded" message.

(** What the VPN core publishes. *)
Definition on_vpn (self : WindlassMachine) (publish : VpnPublish) (wall_now : SystemTime)
    : WindlassMachine * Answer :=
  match publish with
  | VpnPublish_Connected =>
      let self := set_vpn self ServiceStatus_Ready (forwarded_port (state self)) in
      (self, publish_state self)
  | VpnPublish_Disconnected =>
      let self := set_vpn self ServiceStatus_Degraded None in (self, publish_state self)
  | VpnPublish_Crashed => (self, crashed self)
  | VpnPublish_Recovered => (self, mkOutcome [WindlassAction_Docker DockerCommand_StartDependents] [])
  | VpnPublish_PortReady port => port_ready self port
  | VpnPublish_PortUnavailable => let self := set_forwarded_port self None in (self, publish_state self)
  | VpnPublish_PublicIpObserved ip =>
      (self, mkOutcome [WindlassAction_Mam (MamCommand_ObservedIpChanged ip)] [])
  | VpnPublish_PublicIpUnavailable =>
      let self := set_ip_compliant self None in
      (self, publish_state_with_activity self "VPN public IP unavailable — admission blocked")
  | VpnPublish_PublicIpMismatch file_ip verified_ip source =>
      (set_ip_compliant self (Some false), on_public_ip_mismatch file_ip verified_ip source wall_now)
  | VpnPublish_PublicIpVerificationDegraded consecutive_failures last_reason =>
      (self, on_public_ip_verification_degraded consecutive_failures last_reason wall_now)
  end.

(** ** Containers *)

Definition on_dependent_network_untrusted (name : string)
    (dependent_started_at anchor_healthy_since at_ : SystemTime) : Answer :=
  let started := datetime_text dependent_started_at in
  let since := datetime_text anchor_healthy_since in
  let body := say ["Dependent container `"; name; "` started at "; started;
    " before the anchor became healthy at "; since;
    ". Its network namespace may be stale; the VPN core has requested a restart. ";
    "Autograb is blocked until trust recovers."] in
  let message := say ["dependent `"; name; "` on stale namespace (started "; started;
    ", anchor healthy_since "; since; ")"] in
  recorded_alert at_ AlertPriority_Critical (say ["Dependent `"; name; "` network untrusted"]) body
    ActivitySource_Vpn "vpn_dependent_network_untrusted" message.

Definition on_dependent_network_trusted (name : string) (at_ : SystemTime) : Answer :=
  let message := say ["dependent `"; name; "` network trusted (fresh namespace)"] in
  recorded_activity at_ ActivitySource_Vpn "vpn_dependent_network_trusted" message message.

Definition on_restart_storm (window_count max : Z) (at_ : SystemTime) : Answer :=
  let body := say ["Restart circuit breaker tripped: "; num window_count;
    " dependent restarts in the current window (limit "; num max; "). Further ";
    "RestartContainer actions are suppressed and a crash dump has been requested ";
    "(deduped per incident).  Investigate before clearing."] in
  let message := say ["restart storm: "; num window_count; " restarts >= cap "; num max] in
  recorded_alert at_ AlertPriority_Critical "Dependent restart storm" body
    ActivitySource_Vpn "vpn_restart_storm" message.

(** What the container core publishes. *)
Definition on_docker (self : WindlassMachine) (publish : DockerPublish) (wall_now : SystemTime)
    : WindlassMachine * Answer :=
  match publish with
  | DockerPublish_DependentNetworkUntrusted name dependent_started_at anchor_healthy_since =>
      (set_ip_compliant self (Some false),
       on_dependent_network_untrusted name dependent_started_at anchor_healthy_since wall_now)
  | DockerPublish_DependentNetworkTrusted name => (self, on_dependent_network_trusted name wall_now)
  | DockerPublish_RestartStorm window_count max =>
      (set_ip_compliant self (Some false), on_restart_storm window_count max wall_now)
  | DockerPublish_ContainerHealthy _ | DockerPublish_ContainerCrashed _ | DockerPublish_Stopped _
  | DockerPublish_Started _ _ | DockerPublish_LogsDumped _ _ => (self, Outcome_none)
  end.

(** ** qBittorrent *)

Definition qbit_ready (self : WindlassMachine) (wall_now : SystemTime) : WindlassMachine * Answer :=
  let was_ready := state_qbit (state self) ==? ServiceStatus_Ready in
  let self := set_qbit self ServiceStatus_Ready in
  let out := publish_state self in
  (self,
   if was_ready then out
   else mkOutcome
          (actions out ++ [record_activity wall_now ActivitySource_Qbit "authenticated" None (json_object [])])
          (publishes out)).

Definition auth_rejected (reason : string) : Answer :=
  alert AlertPriority_Critical "qBit auth failed"
    (say ["🔐 qBittorrent rejected credentials ("; reason;
          "). Check QBITTORRENT_USER / QBITTORRENT_PASS."]).

Definition listen_port_persistent_failure (port : VpnPort) (attempts : Z) : Answer :=
  alert AlertPriority_Warning "qBit port sync failed"
    (say ["⚠️ qBittorrent rejecting port "; num port; " after "; num attempts;
          " attempts. Forcing re-auth."]).

Definition listen_port_ready (self : WindlassMachine) (port : VpnPort) (wall_now : SystemTime)
    : WindlassMachine * Answer :=
  let admission := admission self in
  let was_synced := qbit_listen_port admission ==? Some port in
  let self := {| self with admission := {| admission with qbit_listen_port := Some port |} |} in
  (self,
   if was_synced then Outcome_none
   else mkOutcome
          [record_activity wall_now ActivitySource_Qbit "port_synced" (Some (say ["port="; num port]))
             (json_object [("port", json_id port)])] []).

Definition to_db_state (state : TorrentState) : TorrentStateRecord :=
  match state with
  | TorrentState_Downloading => TorrentStateRecord_Downloading
  | TorrentState_StalledDownloading => TorrentStateRecord_StalledDownloading
  | TorrentState_Uploading => TorrentStateRecord_Uploading
  | TorrentState_StalledUploading => TorrentStateRecord_StalledUploading
  | TorrentState_ForcedUpload => TorrentStateRecord_ForcedUpload
  | TorrentState_PausedDownloading => TorrentStateRecord_PausedDownloading
  | TorrentState_PausedUploading => TorrentStateRecord_PausedUploading
  | TorrentState_Error => TorrentStateRecord_Error
  | TorrentState_Other s => TorrentStateRecord_Unknown s
  end.
Definition to_db_record (r : PocMachine.TorrentRecord) : Db.TorrentRecord := {|
  torrent_hash := record_hash r;
  torrent_book_id := None;
  torrent_mam_id := record_mam_id r;
  torrent_name := record_name r;
  torrent_state := to_db_state (record_state r);
  torrent_seeding_time_secs := try_from_or_max i64_max (as_secs (record_seed_time r));
  torrent_downloaded_bytes := try_from_or_max i64_max (record_downloaded_bytes r);
  torrent_seen_at := record_seen_at r;
|}.

Definition hours_left (seed_time required : Duration) : Z :=
  saturating_sub (as_secs required / 3600) (as_secs seed_time / 3600).

Definition hnr_at_risk (name : TorrentName) (seed_time required : Duration) : Answer :=
  alert AlertPriority_Critical "HnR at risk"
    (say [name; ": stalled with "; num (as_secs seed_time / 3600); "h seeding, ";
          num (hours_left seed_time required); "h required"]).

Definition delete_blocked (name : TorrentName) (seed_time required : Duration) : Answer :=
  alert AlertPriority_Warning "HnR lock — cannot delete"
    (say [name; ": "; num (as_secs seed_time / 3600); "h seeded, "; num (hours_left seed_time required);
          "h remaining. Manual deletion blocked to protect your HnR."]).

Definition download_failed (mam_id : MamTorrentId) (body stage reason : string) (wall_now : SystemTime)
    : Answer :=
  mkOutcome
    [WindlassAction_SendAlert AlertPriority_Warning "Download failed" body;
     record_activity wall_now ActivitySource_Download "torrent_add_failed"
       (Some (say ["{"; quote; "mam_id"; quote; ":"; num mam_id; ","; quote; "reason"; quote; ":"; quote;
                   reason; quote; "}"]))
       (json_object [("mam_id", json_id mam_id); ("stage", Value_String stage);
                     ("reason", Value_String reason)])] [].

Definition torrent_added (mam_id : MamTorrentId) (hash : TorrentHash) (wall_now : SystemTime) : Answer :=
  mkOutcome
    [WindlassAction_SendAlert AlertPriority_Info "Download started"
       (say ["MAM #"; num mam_id; " added to qBittorrent."]);
     record_activity wall_now ActivitySource_Download "torrent_added"
       (Some (say ["{"; quote; "mam_id"; quote; ":"; num mam_id; ","; quote; "hash"; quote; ":"; quote;
                   hash; quote; "}"]))
       (json_object [("mam_id", json_id mam_id); ("hash", Value_String hash)])] [].

Definition torrent_add_failed (mam_id : MamTorrentId) (reason : string) (wall_now : SystemTime) : Answer :=
  download_failed mam_id (say ["Failed to add MAM #"; num mam_id; " to qBittorrent: "; reason])
    "qbit_add" reason wall_now.

Definition new_torrents_added (hashes : list TorrentHash) : Answer :=
  let count := length hashes in
  let preview := String.concat ", " (take 3 hashes) in
  alert AlertPriority_Info "New torrents"
    (if bool_decide (count ≤ 3)%nat then say ["🧲 New torrent(s) added: "; preview]
     else say ["🧲 "; count_of hashes; " new torrent(s) added: "; preview; ", …"]).

Definition on_queue_orchestrated (paused force_resumed : TorrentHash) (at_ : SystemTime) : Answer :=
  let detail := say ["paused=TorrentHash("; debug_text paused; ") resumed=TorrentHash(";
                     debug_text force_resumed; ")"] in
  recorded_activity at_ ActivitySource_Qbit "queue_orchestrated" detail
    (say ["Queue orchestrated: "; detail]).

Definition on_unsatisfied_quota_critical (unsatisfied limit : Z) (at_ : SystemTime) : Answer :=
  let body := say [num unsatisfied; "/"; num limit; " unsatisfied torrents — download disabled."] in
  recorded_alert at_ AlertPriority_Critical "Quota limit reached" body
    ActivitySource_Qbit "unsatisfied_quota_critical" (say ["Quota limit reached: "; body]).

Definition on_unsatisfied_quota_approaching (unsatisfied limit : Z) (at_ : SystemTime) : Answer :=
  let body := say [num unsatisfied; "/"; num limit; " unsatisfied torrents."] in
  recorded_alert at_ AlertPriority_Warning "Approaching quota limit" body
    ActivitySource_Qbit "unsatisfied_quota_approaching" (say ["Approaching quota limit: "; body]).

Definition on_dead_torrent_removed (mam_id : option MamTorrentId) : Answer :=
  match mam_id with
  | None => Outcome_none
  | Some id =>
      mkOutcome [WindlassAction_Db (MarkDownloadState (mkDownloadStateChange id DownloadStatus_Blacklisted))]
        [WindlassPublish_Activity (say ["Dead torrent blacklisted in DB (MAM ID "; num id; ")"])]
  end.

Definition on_banned_privacy_settings_observed (dht pex lsd : bool) (at_ : SystemTime) : Answer :=
  let enabled := (if dht then ["DHT"] else []) ++ (if pex then ["PeX"] else []) ++ (if lsd then ["LSD"] else []) in
  let settings := String.concat ", " enabled in
  let body := say ["The following banned privacy settings are enabled: "; settings;
    ". They have been disabled automatically."] in
  recorded_alert at_ AlertPriority_Critical "Banned qBit privacy setting enabled" body
    ActivitySource_Domain "privacy_auto_revert"
    (say ["Banned qBit privacy settings auto-reverted: "; settings]).

Definition dead_torrent_removed (self : WindlassMachine) (mam_id : option MamTorrentId)
    : WindlassMachine * Answer :=
  (match mam_id with
   | Some id => {| self with blacklisted_mam_ids := {[id]} ∪ blacklisted_mam_ids self |}
   | None => self
   end, on_dead_torrent_removed mam_id).

(** What the qBittorrent core publishes. *)
Definition on_qbit (self : WindlassMachine) (publish : QbitPublish) (wall_now : SystemTime)
    : WindlassMachine * Answer :=
  match publish with
  | QbitPublish_TorrentsUpdated _ => (self, Outcome_none)
  | QbitPublish_Ready => qbit_ready self wall_now
  | QbitPublish_Unavailable reason =>
      let self := set_qbit self ServiceStatus_Degraded in (self, publish_state_with_activity self reason)
  | QbitPublish_AuthRejected reason => (self, auth_rejected reason)
  | QbitPublish_ListenPortPersistentFailure port attempts =>
      (self, listen_port_persistent_failure port attempts)
  | QbitPublish_ListenPortReady port => listen_port_ready self port wall_now
  | QbitPublish_TorrentRecords records =>
      (self, mkOutcome (map (λ r, WindlassAction_Db (UpsertTorrent (to_db_record r))) records) [])
  | QbitPublish_HnRAtRisk _ name seed_time required => (self, hnr_at_risk name seed_time required)
  | QbitPublish_DeleteBlockedHnRLock _ name seed_time required =>
      (self, delete_blocked name seed_time required)
  | QbitPublish_TorrentAdded mam_id hash => (self, torrent_added mam_id hash wall_now)
  | QbitPublish_TorrentAddFailed mam_id reason => (self, torrent_add_failed mam_id reason wall_now)
  | QbitPublish_NewTorrentsAdded hashes => (self, new_torrents_added hashes)
  | QbitPublish_QueueOrchestrated paused force_resumed =>
      (self, on_queue_orchestrated paused force_resumed wall_now)
  | QbitPublish_UnsatisfiedQuotaCritical unsatisfied limit =>
      (set_quota_full self true, on_unsatisfied_quota_critical unsatisfied limit wall_now)
  | QbitPublish_UnsatisfiedQuotaApproaching unsatisfied limit =>
      (set_quota_full self false, on_unsatisfied_quota_approaching unsatisfied limit wall_now)
  | QbitPublish_UnsatisfiedQuotaOk _ _ => (set_quota_full self false, Outcome_none)
  | QbitPublish_DeadTorrentRemoved _ mam_id => dead_torrent_removed self mam_id
  | QbitPublish_BannedPrivacySettingsObserved dht pex lsd =>
      (set_privacy_clean self false, on_banned_privacy_settings_observed dht pex lsd wall_now)
  | QbitPublish_PrivacyClean => (set_privacy_clean self true, Outcome_none)
  end.

(** ** MAM *)

(** The form with two decimals, halves to the even digit. *)
Definition hundredths_text (n : Z) : string :=
  say [num (n / 100); "."; num (n mod 100 / 10); num (n mod 10)].
Definition two_decimals (x : f64) : string :=
  match x with
  | S754_zero negative => say [if negative then "-" else EmptyString; hundredths_text 0]
  | S754_finite negative m e =>
      say [if negative then "-" else EmptyString;
           hundredths_text (round_half_even (Z.pos m * 100 * 2 ^ Z.max e 0) (2 ^ Z.max (- e) 0))]
  | S754_infinity negative => if negative then "-inf" else "inf"
  | S754_nan => "NaN"
  end.

Definition bytes_fetch_failed (mam_id : MamTorrentId) (reason : string) (wall_now : SystemTime) : Answer :=
  download_failed mam_id (say ["Failed to fetch MAM torrent #"; num mam_id; ": "; reason])
    "mam_fetch" reason wall_now.

Definition on_upload_health_degraded (ratio : f64) (upload_credit_bytes : Z) (ratio_ok buffer_ok : bool)
    (at_ : SystemTime) : Answer :=
  let buffer_gib := upload_credit_bytes / (1024 * 1024 * 1024) in
  let reasons :=
    (if ratio_ok then [] else [say ["ratio "; two_decimals ratio; " is below minimum"]])
    ++ (if buffer_ok then [] else [say ["upload buffer "; num buffer_gib; " GiB is below minimum"]]) in
  let body := say ["Upload health degraded — "; String.concat "; " reasons;
    ". Non-freeleech downloads will be blocked."] in
  let message := say ["Upload health degraded: ratio="; two_decimals ratio; ", buffer="; num buffer_gib;
    " GiB"] in
  recorded_alert at_ AlertPriority_Warning "Upload health degraded" body
    ActivitySource_Domain "upload_health_degraded" message.

Definition on_mam_asn_mismatch (ip : VpnIp) (at_ : SystemTime) : Answer :=
  let body := say ["MAM rejected the dynamic-seedbox update from IP "; vpn_ip_text ip;
    ": ASN not registered for this account. Autograb is blocked until the next successful ";
    "seedbox update."] in
  recorded_alert at_ AlertPriority_Critical "MAM ASN mismatch" body
    ActivitySource_Mam "mam_asn_mismatch" (say ["MAM ASN mismatch for "; vpn_ip_text ip]).

Definition on_mam_not_connectable (self : WindlassMachine) (reason : string) (at_ : SystemTime) : Answer :=
  let body := say ["MAM reports the client as not connectable: "; reason] in
  let message := say ["MAM not connectable: "; reason] in
  let recorded := recorded_alert at_ AlertPriority_Warning "MAM reports not connectable" body
    ActivitySource_Mam "mam_not_connectable" message in
  mkOutcome (actions recorded ++ [snapshot_action self])
    (WindlassPublish_SystemState (state self) :: publishes recorded).

Definition on_keep_alive_degraded (consecutive_failures : Z) (last_reason : string) (at_ : SystemTime)
    : Answer :=
  let body := say ["MAM keep-alive failing — "; num consecutive_failures;
    " consecutive failures. Last reason: "; last_reason] in
  let message := say ["MAM heartbeat failing: "; num consecutive_failures;
    " consecutive failures (last: "; last_reason; ")"] in
  recorded_alert at_ AlertPriority_Warning "MAM heartbeat failing" body
    ActivitySource_Domain "mam_keep_alive_degraded" message.

Definition rate_limited (self : WindlassMachine) (retry_after : Duration) : WindlassMachine * Answer :=
  let self := set_mam self ServiceStatus_Degraded false in
  let seconds := num (as_secs retry_after) in
  let out := publish_state_with_activity self (say ["MAM rate limited for "; seconds; "s"]) in
  (self, mkOutcome
     (actions out ++
      [WindlassAction_SendAlert AlertPriority_Critical "MAM rate limit"
         (say ["🛑 MAM rate-limit guard triggered (retry after "; seconds;
               "s). Requests were too fast — investigate before resuming."])])
     (publishes out)).

(** What the MAM core publishes. *)
Definition on_mam (self : WindlassMachine) (publish : MamPublish) (wall_now : SystemTime)
    : WindlassMachine * Answer :=
  match publish with
  | MamPublish_Connectable _ => (set_mam_healthy self true, Outcome_none)
  | MamPublish_TorrentBytesReady mam_id bytes =>
      (self, mkOutcome [WindlassAction_Qbit (QbitCommand_AddTorrent mam_id bytes)] [])
  | MamPublish_TorrentBytesFetchFailed mam_id reason => (self, bytes_fetch_failed mam_id reason wall_now)
  | MamPublish_SeedboxPortReady port =>
      (self, alert AlertPriority_Info "MAM seedbox updated"
               (say ["MAM seedbox registered with port "; num port; "."]))
  | MamPublish_Ready =>
      let self := set_mam self ServiceStatus_Ready true in (self, publish_state self)
  | MamPublish_Unavailable reason =>
      let self := set_mam self ServiceStatus_Degraded false in (self, publish_state_with_activity self reason)
  | MamPublish_NotConnectable reason =>
      let self := set_mam self ServiceStatus_Degraded false in
      (self, on_mam_not_connectable self reason wall_now)
  | MamPublish_Unreachable reason =>
      let self := set_mam self ServiceStatus_Degraded false in
      (self, publish_state_with_activity self (say ["MAM unreachable: "; reason]))
  | MamPublish_UploadHealthDegraded ratio upload_credit_bytes ratio_ok buffer_ok =>
      (set_upload_health self false buffer_ok,
       on_upload_health_degraded ratio upload_credit_bytes ratio_ok buffer_ok wall_now)
  | MamPublish_UploadHealthOk _ _ => (set_upload_health self true true, Outcome_none)
  | MamPublish_AsnMismatch ip => (set_ip_compliant self (Some false), on_mam_asn_mismatch ip wall_now)
  | MamPublish_AsnAccepted => (set_ip_compliant self (Some true), Outcome_none)
  | MamPublish_KeepAliveDegraded consecutive_failures last_reason =>
      (self, on_keep_alive_degraded consecutive_failures last_reason wall_now)
  | MamPublish_RateLimited retry_after => rate_limited self retry_after
  end.

(** ** The disk, and every event *)

Definition below_floor (free_bytes : Z) : Answer :=
  let gib := SFdiv 53 1024 (f64_of free_bytes) (f64_of (1024 * 1024 * 1024)) in
  mkOutcome
    [WindlassAction_Qbit QbitCommand_EvictOneForDiskPressure;
     WindlassAction_SendAlert AlertPriority_Warning "Low disk space"
       (say ["💾 Low disk space: "; one_decimal gib; " GB remaining."])]
    [WindlassPublish_Activity
       (say ["Disk pressure: "; num free_bytes; " bytes free — eviction triggered"])].

Definition snapshot_timer (self : WindlassMachine) : WindlassAction :=
  WindlassAction_ScheduleTimer WindlassTimer_Snapshot (snapshot_interval (config self)).

Definition WindlassMachine_handle (self : WindlassMachine) (_ : Instant) (wall_now : SystemTime)
    (event : Timed WindlassEvent) : WindlassMachine * Answer :=
  match timed_inner event with
  | WindlassEvent_Init =>
      (self, mkOutcome
         [WindlassAction_Qbit QbitCommand_EnsureAuthenticated;
          WindlassAction_Mam MamCommand_EnsureAuthenticated;
          snapshot_timer self] [])
  | WindlassEvent_Vpn publish => on_vpn self publish wall_now
  | WindlassEvent_Docker publish => on_docker self publish wall_now
  | WindlassEvent_Qbit publish => on_qbit self publish wall_now
  | WindlassEvent_Mam publish => on_mam self publish wall_now
  | WindlassEvent_Disk (AboveFloor _) => (self, Outcome_none)
  | WindlassEvent_Disk (BelowFloor free_bytes) => (self, below_floor free_bytes)
  | WindlassEvent_DbFailed operation message =>
      (self, mkOutcome [] [WindlassPublish_Activity (say ["DB "; operation; " failed: "; message])])
  | WindlassEvent_TimerFired WindlassTimer_Snapshot =>
      (self, mkOutcome [snapshot_action self; snapshot_timer self] [])
  end.

(** ** Admission *)

Definition FREELEECH_SAFETY_BUFFER : Duration := from_mins 30.

(** [None]: the addition overflows, which panics. *)
Definition freeleech_window_fits (now : SystemTime) (candidate : DownloadCandidate) : option bool :=
  match freeleech_window_end candidate with
  | None => Some false
  | Some window_end =>
      let total := est_download_duration candidate + FREELEECH_SAFETY_BUFFER in
      if DURATION_MAX <? total then None
      else
        match from_std total with
        | None => Some false
        | Some total_chrono =>
            if MAX_UTC <? now + total_chrono then None else Some (now + total_chrono <=? window_end)
        end
  end.

(** The gates that fail, in their order; [None] for a panic. *)
Definition WindlassMachine_admit (self : WindlassMachine) (candidate : DownloadCandidate) (now : SystemTime)
    : option (Result () (list GateFailure)) :=
  fits ← (if freeleech candidate then freeleech_window_fits now candidate else Some true);
  let admission := admission self in
  let gate (blocked : bool) (failure : GateFailure) := if blocked then [failure] else [] in
  let failures :=
    gate (negb (upload_buffer_ok admission) || (negb (freeleech candidate) && negb (upload_health_ok admission)))
      GateFailure_UploadHealth
    ++ gate (unsatisfied_quota_full admission) GateFailure_UnsatisfiedQuotaFull
    ++ gate (negb (qbit_privacy_clean admission)) GateFailure_QbitPrivacyUnclean
    ++ gate (negb (qbit_port_synced admission (forwarded_port (state self)))) GateFailure_QbitPortDesynced
    ++ gate (negb (mam_healthy admission)) GateFailure_MamUnhealthy
    ++ gate (vpn_ip_compliant admission !=? Some true) GateFailure_VpnIpNonCompliant
    ++ gate (my_snatched candidate) GateFailure_AlreadySnatched
    ++ gate (20 <? numfiles candidate) GateFailure_Collection
    ++ gate (negb fits) GateFailure_FreeleechWindowTooNarrow in
  Some (if is_empty failures then Ok () else Err failures).

Definition gate_label (gate : GateFailure) : string :=
  match gate with
  | GateFailure_UploadHealth => "upload health"
  | GateFailure_UnsatisfiedQuotaFull => "unsatisfied-quota limit reached"
  | GateFailure_QbitPrivacyUnclean => "qBit privacy settings (DHT/PeX/LSD)"
  | GateFailure_QbitPortDesynced => "qBit listen port out of sync with VPN"
  | GateFailure_MamUnhealthy => "MAM unhealthy"
  | GateFailure_VpnIpNonCompliant => "VPN IP non-compliant"
  | GateFailure_AlreadySnatched => "already snatched"
  | GateFailure_Collection => "torrent is a collection (numfiles > 20)"
  | GateFailure_FreeleechWindowTooNarrow => "freeleech window too narrow for estimated download"
  end.

Definition blocked_admission_message (mam_id : MamTorrentId) (failures : list GateFailure) : string :=
  say ["Admission blocked for MAM #"; num mam_id; ": "; String.concat ", " (map gate_label failures)].

Definition fetch_torrent (mam_id : MamTorrentId) : list WindlassAction :=
  [WindlassAction_Mam (MamCommand_FetchTorrent mam_id)].

Definition is_blacklisted (self : WindlassMachine) (mam_id : MamTorrentId) : bool :=
  bool_decide (mam_id ∈ blacklisted_mam_ids self).

Definition download_blocked (mam_id : MamTorrentId) (at_ : SystemTime) : WindlassAction :=
  record_activity at_ ActivitySource_Download "download_blocked"
    (Some (say ["{"; quote; "mam_id"; quote; ":"; num mam_id; ","; quote; "reason"; quote; ":"; quote;
                "blacklisted"; quote; "}"]))
    (json_object [("mam_id", json_id mam_id); ("reason", Value_String "blacklisted")]).

Definition handle_manual_download (self : WindlassMachine) (mam_id : MamTorrentId) (at_ : SystemTime)
    : Reply :=
  if is_blacklisted self mam_id then
    outcome [download_blocked mam_id at_] WindlassResponse_Accepted
  else if unsatisfied_quota_full (admission self) then
    outcome
      [WindlassAction_SendAlert AlertPriority_Warning "Download blocked — quota full"
         (say ["MAM #"; num mam_id; " not started: unsatisfied-torrent quota is full."])]
      WindlassResponse_Accepted
  else if negb (is_some (qbit_listen_port (admission self))) then
    outcome
      [WindlassAction_SendAlert AlertPriority_Warning "Download blocked — qBit not ready"
         (say ["MAM #"; num mam_id; " not started: qBittorrent is not connected. Try again shortly."])]
      WindlassResponse_Accepted
  else outcome (fetch_torrent mam_id) WindlassResponse_Accepted.

(** [None] for a panic. *)
Definition WindlassMachine_handle_command (self : WindlassMachine) (_ : Instant) (wall_now : SystemTime)
    (cmd : WindlassCommand) : option (WindlassMachine * Reply) :=
  match cmd with
  | WindlassCommand_Refresh =>
      Some (self, outcome [WindlassAction_Qbit QbitCommand_RefreshTorrents;
                           WindlassAction_Mam MamCommand_RefreshStatus] WindlassResponse_Accepted)
  | WindlassCommand_TryAddTorrent candidate =>
      admitted ← WindlassMachine_admit self candidate wall_now;
      Some (self,
        match admitted with
        | Ok () => outcome (fetch_torrent (candidate_mam_id candidate)) WindlassResponse_Accepted
        | Err failures =>
            outcome_with_publish []
              [WindlassPublish_Activity (blocked_admission_message (candidate_mam_id candidate) failures)]
              WindlassResponse_Accepted
        end)
  | WindlassCommand_ManualDownload mam_id => Some (self, handle_manual_download self mam_id wall_now)
  end.

(** The domain as a task of its own: gone after a panic, and then it answers nothing. *)
Definition task_handle (self : option WindlassMachine) (now : Instant) (wall_now : SystemTime)
    (event : Timed WindlassEvent) : option WindlassMachine * Answer :=
  match self with
  | Some self => let '(self, answer) := WindlassMachine_handle self now wall_now event in (Some self, answer)
  | None => (None, Outcome_none)
  end.
Definition task_handle_command (self : option WindlassMachine) (now : Instant) (wall_now : SystemTime)
    (cmd : WindlassCommand)
    : option WindlassMachine * CommandOutcome WindlassAction WindlassPublish (option WindlassResponse) :=
  match self ≫= λ self, WindlassMachine_handle_command self now wall_now cmd with
  | Some (self, reply) =>
      (Some self,
       mkCommandOutcome (command_actions reply) (command_publishes reply) (Some (command_response reply)))
  | None => (None, outcome [] None)
  end.

#[global] Instance WindlassMachine_Machine :
    Machine (option WindlassMachine) WindlassConfig WindlassEvent WindlassAction WindlassPublish
      WindlassCommand (option WindlassResponse) := {
  new config now := Some (WindlassMachine_new config now);
  handle := task_handle;
  handle_command := task_handle_command;
}.
End domain.

(** ** The rule of admission *)

Abbreviation WindlassInput := (Input WindlassEvent WindlassCommand) (only parsing).

Definition event_of (input : WindlassInput) : option WindlassEvent :=
  match input with Input_Event _ _ event => Some (timed_inner event) | Input_Command _ _ _ => None end.

(** The latest of a signal, if there was any. *)
Definition latest {A} (signal : WindlassEvent → option A) (start : A) (inputs : list WindlassInput) : A :=
  fold_left (λ value input, default value (event_of input ≫= signal)) inputs start.

Definition upload_signal (event : WindlassEvent) : option (bool * bool) :=
  match event with
  | WindlassEvent_Mam (MamPublish_UploadHealthOk _ _) => Some (true, true)
  | WindlassEvent_Mam (MamPublish_UploadHealthDegraded _ _ _ buffer_ok) => Some (false, buffer_ok)
  | _ => None
  end.
Definition quota_signal (event : WindlassEvent) : option bool :=
  match event with
  | WindlassEvent_Qbit (QbitPublish_UnsatisfiedQuotaCritical _ _) => Some true
  | WindlassEvent_Qbit (QbitPublish_UnsatisfiedQuotaApproaching _ _ | QbitPublish_UnsatisfiedQuotaOk _ _) =>
      Some false
  | _ => None
  end.
Definition privacy_signal (event : WindlassEvent) : option bool :=
  match event with
  | WindlassEvent_Qbit (QbitPublish_BannedPrivacySettingsObserved _ _ _) => Some false
  | WindlassEvent_Qbit QbitPublish_PrivacyClean => Some true
  | _ => None
  end.
Definition listen_port_signal (event : WindlassEvent) : option (option VpnPort) :=
  match event with
  | WindlassEvent_Qbit (QbitPublish_ListenPortReady port) => Some (Some port)
  | _ => None
  end.
Definition mam_signal (event : WindlassEvent) : option bool :=
  match event with
  | WindlassEvent_Mam (MamPublish_Ready | MamPublish_Connectable _) => Some true
  | WindlassEvent_Mam (MamPublish_Unavailable _ | MamPublish_NotConnectable _ | MamPublish_Unreachable _
                      | MamPublish_RateLimited _) => Some false
  | _ => None
  end.
(** Only MAM's word counts in favour of the address. *)
Definition address_signal (event : WindlassEvent) : option (option bool) :=
  match event with
  | WindlassEvent_Mam MamPublish_AsnAccepted => Some (Some true)
  | WindlassEvent_Mam (MamPublish_AsnMismatch _)
  | WindlassEvent_Vpn (VpnPublish_PublicIpMismatch _ _ _)
  | WindlassEvent_Docker (DockerPublish_DependentNetworkUntrusted _ _ _ | DockerPublish_RestartStorm _ _) =>
      Some (Some false)
  | WindlassEvent_Vpn VpnPublish_PublicIpUnavailable => Some None
  | _ => None
  end.
Definition forwarded_port_signal (event : WindlassEvent) : option (option VpnPort) :=
  match event with
  | WindlassEvent_Vpn (VpnPublish_PortReady port) => Some (Some port)
  | WindlassEvent_Vpn (VpnPublish_PortUnavailable | VpnPublish_Disconnected) => Some None
  | _ => None
  end.

(** The gates that the signals so far leave, closed before the first. *)
Definition gates (inputs : list WindlassInput) : AdmissionState :=
  let '(health_ok, buffer_ok) := latest upload_signal (false, false) inputs in {|
    upload_health_ok := health_ok;
    upload_buffer_ok := buffer_ok;
    unsatisfied_quota_full := latest quota_signal true inputs;
    qbit_privacy_clean := latest privacy_signal false inputs;
    qbit_listen_port := latest listen_port_signal None inputs;
    mam_healthy := latest mam_signal false inputs;
    vpn_ip_compliant := latest address_signal None inputs;
  |}.

Definition removed_dead (inputs : list WindlassInput) : list MamTorrentId :=
  omap (λ input, match event_of input with
                 | Some (WindlassEvent_Qbit (QbitPublish_DeadTorrentRemoved _ mam_id)) => mam_id
                 | _ => None
                 end) inputs.

(** When the signals allow a candidate. *)
Definition allowed (inputs : list WindlassInput) (now : SystemTime) (candidate : DownloadCandidate) : Prop :=
  let gates := gates inputs in
  upload_buffer_ok gates = true ∧ (freeleech candidate = true ∨ upload_health_ok gates = true) ∧
  unsatisfied_quota_full gates = false ∧ qbit_privacy_clean gates = true ∧
  (∃ port, qbit_listen_port gates = Some port ∧ latest forwarded_port_signal None inputs = Some port) ∧
  mam_healthy gates = true ∧ vpn_ip_compliant gates = Some true ∧
  my_snatched candidate = false ∧ numfiles candidate ≤ 20 ∧
  (freeleech candidate = true → ∃ window_end, freeleech_window_end candidate = Some window_end ∧
     now + est_download_duration candidate + FREELEECH_SAFETY_BUFFER ≤ window_end).

(** When a torrent may be fetched: for a candidate that is allowed, or because the owner
    asks for one that was never found dead, with room in the quota and after qBittorrent once
    had its port. *)
Definition fetch_allowed (cfg : WindlassConfig) (inputs : list WindlassInput) (input : WindlassInput)
    (mam_id : MamTorrentId) : Prop :=
  match input with
  | Input_Command _ now (WindlassCommand_TryAddTorrent candidate) =>
      mam_id = candidate_mam_id candidate ∧ allowed inputs now candidate
  | Input_Command _ _ (WindlassCommand_ManualDownload id) =>
      mam_id = id ∧ (id ∉ initial_blacklist cfg) ∧ (id ∉ removed_dead inputs) ∧
      unsatisfied_quota_full (gates inputs) = false ∧ qbit_listen_port (gates inputs) ≠ None
  | _ => False
  end.

(** What the wire can carry: times of [chrono] and durations that are not negative. *)
Definition input_ok `{Chrono} (input : WindlassInput) : Prop :=
  match input with
  | Input_Command _ now (WindlassCommand_TryAddTorrent candidate) =>
      0 ≤ now ∧ 0 ≤ est_download_duration candidate ∧
      ∀ window_end, freeleech_window_end candidate = Some window_end → window_end ≤ MAX_UTC
  | _ => True
  end.

Section admission.
Context `{Chrono, DebugText}.

(** The machine's gates are those of the signals. *)
Definition follows (cfg : WindlassConfig) (inputs : list WindlassInput) (self : WindlassMachine) : Prop :=
  admission self = gates inputs ∧
  forwarded_port (state self) = latest forwarded_port_signal None inputs ∧
  ∀ id, id ∈ blacklisted_mam_ids self ↔ id ∈ initial_blacklist cfg ∨ id ∈ removed_dead inputs.

Lemma latest_snoc {A} (signal : WindlassEvent → option A) start inputs input :
  latest signal start (inputs ++ [input])
  = default (latest signal start inputs) (event_of input ≫= signal).
Proof. unfold latest. by rewrite fold_left_app. Qed.

Lemma gates_eta self :
  admission self = {|
    upload_health_ok := upload_health_ok (admission self);
    upload_buffer_ok := upload_buffer_ok (admission self);
    unsatisfied_quota_full := unsatisfied_quota_full (admission self);
    qbit_privacy_clean := qbit_privacy_clean (admission self);
    qbit_listen_port := qbit_listen_port (admission self);
    mam_healthy := mam_healthy (admission self);
    vpn_ip_compliant := vpn_ip_compliant (admission self) |}.
Proof. by destruct (admission self). Qed.

Lemma removed_dead_snoc inputs input :
  removed_dead (inputs ++ [input]) = removed_dead inputs ++ removed_dead [input].
Proof. apply omap_app. Qed.

Lemma handle_follows cfg inputs self now wall_now event :
  follows cfg inputs self →
  follows cfg (inputs ++ [Input_Event now wall_now event])
    (WindlassMachine_handle self now wall_now event).1.
Proof.
  destruct self as [cfg' [vpn qbit mam port] gates' blacklist]. destruct event as [at_ cause event].
  unfold follows, gates. rewrite !latest_snoc, removed_dead_snoc. cbn [event_of timed_inner mbind option_bind].
  destruct (latest upload_signal _ inputs) as [health_ok buffer_ok].
  cbn [admission state forwarded_port blacklisted_mam_ids]. intros (-> & -> & Hblack).
  destruct event as [|[]|[]|[]|[]|[]| |[]];
    cbn [WindlassMachine_handle timed_inner on_vpn on_qbit on_mam on_docker fst]; try (split_and!; cbn; [done|done|]);
    try (intros id; rewrite app_nil_r; apply Hblack).
  unfold dead_torrent_removed. destruct mam_id as [mam_id|]; cbn; split_and!; try done; intros id.
  - rewrite elem_of_union, elem_of_singleton, Hblack, elem_of_app, elem_of_cons. set_solver.
  - rewrite app_nil_r. apply Hblack.
Qed.

Lemma step_follows cfg inputs self input self' :
  follows cfg inputs self → (step (Some self) input).1 = Some self' → follows cfg (inputs ++ [input]) self'.
Proof.
  intros Hf. destruct input as [now wall_now event|now wall_now command]; cbn.
  - pose proof (handle_follows cfg inputs self now wall_now event Hf) as H1.
    destruct (WindlassMachine_handle _ _ _ _). by intros [= <-].
  - assert (follows cfg (inputs ++ [Input_Command now wall_now command]) self) as Hsame.
    { destruct Hf as (Hg & Hp & Hb). unfold follows, gates in *.
      rewrite !latest_snoc, removed_dead_snoc, app_nil_r. done. }
    unfold task_handle_command. cbn. destruct command; cbn.
    + by intros [= <-].
    + destruct (WindlassMachine_admit _ _ _) as [[]|]; cbn; by intros [= <-].
    + by intros [= <-].
Qed.

Lemma run_follows cfg now inputs self :
  (run (new cfg now : option WindlassMachine) inputs).1 = Some self → follows cfg inputs self.
Proof.
  revert self. induction inputs as [|input inputs IH] using rev_ind; intros self.
  - intros [= <-]. split_and!; [done|done|]. cbn. set_solver.
  - rewrite runs_snoc. destruct (run _ inputs).1 as [self'|] eqn:Hself.
    + intros Hstep. by eapply step_follows; [apply IH|].
    + by destruct input.
Qed.

(** ** What is fetched *)

Lemma gate_nil (blocked : bool) (failure : GateFailure) rest :
  is_empty ((if blocked then [failure] else []) ++ rest) = negb blocked && is_empty rest.
Proof. by destruct blocked. Qed.

Definition admitted (self : WindlassMachine) (candidate : DownloadCandidate) (now : SystemTime) : Prop :=
  WindlassMachine_admit self candidate now = Some (Ok ()).

Lemma window_fits now candidate :
  0 ≤ now → 0 ≤ est_download_duration candidate →
  (∀ window_end, freeleech_window_end candidate = Some window_end → window_end ≤ MAX_UTC) →
  freeleech_window_fits now candidate = Some true ↔
  ∃ window_end, freeleech_window_end candidate = Some window_end ∧
    now + est_download_duration candidate + FREELEECH_SAFETY_BUFFER ≤ window_end.
Proof.
  intros Hnow Hest Hend. unfold freeleech_window_fits.
  destruct (freeleech_window_end candidate) as [window_end|]; [|by split; [|intros (? & ? & _)]].
  specialize (Hend window_end eq_refl). pose proof MAX_UTC_milliseconds as Hmax.
  set (total := est_download_duration candidate + FREELEECH_SAFETY_BUFFER).
  replace (now + est_download_duration candidate + FREELEECH_SAFETY_BUFFER) with (now + total) by (unfold total; lia).
  assert (i64_max * 1_000_000 ≤ DURATION_MAX) as Hwide by (vm_compute; discriminate).
  split.
  - destruct (DURATION_MAX <? total); [done|]. destruct (from_std total) as [total'|] eqn:Hstd; [|done].
    unfold from_std, then_some in Hstd. destruct (total <=? _); [|done]. injection Hstd as <-.
    destruct (MAX_UTC <? _); [done|]. intros [= Hle]. reflect_bools. eauto.
  - intros (? & [= <-] & Hle). destruct (Z.ltb_spec DURATION_MAX total); [lia|].
    unfold from_std, then_some. destruct (Z.leb_spec total (i64_max * 1_000_000)); [|lia].
    destruct (Z.ltb_spec MAX_UTC (now + total)); [lia|]. f_equal. by apply Z.leb_le.
Qed.

Lemma admitted_iff self candidate now :
  0 ≤ now → 0 ≤ est_download_duration candidate →
  (∀ window_end, freeleech_window_end candidate = Some window_end → window_end ≤ MAX_UTC) →
  admitted self candidate now ↔
  upload_buffer_ok (admission self) = true ∧
  (freeleech candidate = true ∨ upload_health_ok (admission self) = true) ∧
  unsatisfied_quota_full (admission self) = false ∧ qbit_privacy_clean (admission self) = true ∧
  (∃ port, qbit_listen_port (admission self) = Some port ∧ forwarded_port (state self) = Some port) ∧
  mam_healthy (admission self) = true ∧ vpn_ip_compliant (admission self) = Some true ∧
  my_snatched candidate = false ∧ numfiles candidate ≤ 20 ∧
  (freeleech candidate = true → ∃ window_end, freeleech_window_end candidate = Some window_end ∧
     now + est_download_duration candidate + FREELEECH_SAFETY_BUFFER ≤ window_end).
Proof.
  intros Hnow Hest Hend. rewrite <-(window_fits now candidate Hnow Hest Hend).
  unfold admitted, WindlassMachine_admit.
  assert (qbit_port_synced (admission self) (forwarded_port (state self)) = true ↔
    ∃ port, qbit_listen_port (admission self) = Some port ∧ forwarded_port (state self) = Some port) as <-.
  { unfold qbit_port_synced. destruct (qbit_listen_port _) as [a|], (forwarded_port _) as [p|];
      try (split; [done|intros (? & ? & ?); congruence]).
    rewrite Z.eqb_eq. split; [intros ->; eauto|intros (? & ? & ?); congruence]. }
  destruct (if freeleech candidate then _ else _) as [fits|] eqn:Hfits; cbn [mbind option_bind].
  2: { destruct (freeleech candidate); [|done]. rewrite Hfits. split; [done|].
       intros (_ & _ & _ & _ & _ & _ & _ & _ & _ & Hw). by specialize (Hw eq_refl). }
  assert (is_empty (if negb fits then [GateFailure_FreeleechWindowTooNarrow] else []) = true ↔
    (freeleech candidate = true → freeleech_window_fits now candidate = Some true)) as Hwindow.
  { destruct (freeleech candidate), fits; naive_solver. }
  assert (∀ l : list GateFailure, Some (if is_empty l then Ok () else Err l) = Some (Ok ()) ↔ is_empty l = true)
    as Hnone by (intros []; naive_solver).
  cbv zeta. rewrite Hnone, !gate_nil, !andb_true_iff, Hwindow, !negb_true_iff, orb_false_iff, andb_false_iff,
    !negb_false_iff, bool_decide_eq_true, Z.ltb_ge. tauto.
Qed.

(** Only a signal of the address changes its gate. *)
Lemma handle_address self now wall_now event :
  vpn_ip_compliant (admission (WindlassMachine_handle self now wall_now event).1)
  = default (vpn_ip_compliant (admission self)) (address_signal (timed_inner event)).
Proof.
  destruct event as [at_ cause event]. destruct event as [|[]|[]|[]|[]|[]| |[]]; try reflexivity.
  cbn. unfold dead_torrent_removed. by destruct mam_id.
Qed.

(** What an event may lead to. *)
Definition acts_for (event : WindlassEvent) (action : WindlassAction) : Prop :=
  match action with
  | WindlassAction_Qbit (QbitCommand_EnsureListenPort port)
  | WindlassAction_Mam (MamCommand_EnsureSeedboxPort port) => event = WindlassEvent_Vpn (VpnPublish_PortReady port)
  | WindlassAction_Qbit (QbitCommand_AddTorrent mam_id bytes) =>
      event = WindlassEvent_Mam (MamPublish_TorrentBytesReady mam_id bytes)
  | WindlassAction_Mam (MamCommand_FetchTorrent _) => False
  | _ => True
  end.

Lemma event_actions self now wall_now event :
  Forall (acts_for (timed_inner event)) (actions (WindlassMachine_handle self now wall_now event).2).
Proof.
  destruct event as [at_ cause event].
  destruct event as [|[]|[]|[]|[]|[]| |[]];
    cbn [WindlassMachine_handle timed_inner on_vpn on_docker on_qbit on_mam snd]; try (by each).
  all: unfold qbit_ready, listen_port_ready, dead_torrent_removed, on_dead_torrent_removed,
    on_public_ip_mismatch; cbn [snd];
    try match goal with source : VerificationSource |- _ => destruct source end;
    try (by repeat case_match; each).
  apply List.Forall_map. by apply Forall_true.
Qed.

(** What a command may lead to. *)
Definition acts_for_command (action : WindlassAction) : Prop :=
  match action with
  | WindlassAction_Qbit QbitCommand_RefreshTorrents | WindlassAction_Mam MamCommand_RefreshStatus
  | WindlassAction_Mam (MamCommand_FetchTorrent _) | WindlassAction_Db _ | WindlassAction_SendAlert _ _ _ => True
  | _ => False
  end.

Lemma task_command_actions self now wall_now command :
  Forall acts_for_command (command_actions (task_handle_command self now wall_now command).2).
Proof.
  unfold task_handle_command. destruct self as [self|]; [|constructor]. cbn. destruct command; cbn.
  - each.
  - destruct (WindlassMachine_admit _ _ _) as [[[]|]|]; cbn; unfold fetch_torrent; each.
  - unfold handle_manual_download. repeat case_match; cbn; unfold fetch_torrent; each.
Qed.

Lemma manual_fetches self id at_ mam_id :
  WindlassAction_Mam (MamCommand_FetchTorrent mam_id) ∈ command_actions (handle_manual_download self id at_) ↔
  mam_id = id ∧ (id ∉ blacklisted_mam_ids self) ∧ unsatisfied_quota_full (admission self) = false ∧
  qbit_listen_port (admission self) ≠ None.
Proof.
  unfold handle_manual_download, is_blacklisted, download_blocked, record_activity, fetch_torrent.
  case_bool_decide; [|destruct (unsatisfied_quota_full _), (qbit_listen_port _)];
    cbn; rewrite list_elem_of_singleton;
    (split; [by intros [= ->]|by intros (-> & ? & ? & ?)]).
Qed.

Lemma candidate_fetches self candidate now wall_now mam_id :
  WindlassAction_Mam (MamCommand_FetchTorrent mam_id)
    ∈ actions (step (Some self) (Input_Command now wall_now (WindlassCommand_TryAddTorrent candidate))).2 ↔
  mam_id = candidate_mam_id candidate ∧ admitted self candidate wall_now.
Proof.
  cbn. unfold task_handle_command, admitted. cbn.
  destruct (WindlassMachine_admit self candidate wall_now) as [[[]|failures]|]; cbn.
  - unfold fetch_torrent. rewrite list_elem_of_singleton. split; [by intros [= ->]|by intros [-> _]].
  - rewrite elem_of_nil. split; [done|by intros [_ ?]].
  - rewrite elem_of_nil. split; [done|by intros [_ ?]].
Qed.

End admission.

(** ** A sample run *)

#[export, program] Instance sample_chrono : Chrono :=
  {| datetime_text _ := "2026-01-01 00:00:00 UTC"; MAX_UTC := 8_210_266_876_799_999_999_999 |}.
Next Obligation. vm_compute. discriminate. Qed.
#[export] Instance sample_debug : DebugText := λ text, say [quote; text; quote].

Definition sample_domain : WindlassConfig := mkWindlassConfig (from_mins 5) "windlass" {[7]}.
Definition event_at (event : WindlassEvent) : WindlassInput :=
  Input_Event 0 0 (mkTimed 0 (EventCause_External ExternalCause_Unknown) event).
Definition sample_candidate : DownloadCandidate :=
  mkDownloadCandidate 42 "dl" 1000 3 false (from_mins 10) false None.
Definition sample_signals : list WindlassInput :=
  map event_at
    [WindlassEvent_Vpn (VpnPublish_PortReady 5000);
     WindlassEvent_Qbit QbitPublish_PrivacyClean;
     WindlassEvent_Qbit (QbitPublish_ListenPortReady 5000);
     WindlassEvent_Qbit (QbitPublish_UnsatisfiedQuotaOk 3 100);
     WindlassEvent_Mam MamPublish_Ready;
     WindlassEvent_Mam (MamPublish_UploadHealthOk f64_one 5);
     WindlassEvent_Mam MamPublish_AsnAccepted].
Definition ask (command : WindlassCommand) : WindlassInput := Input_Command 0 0 command.


(** The owner's download is not held back while qBittorrent is away: the port it announced once
    keeps the gate open. *)
Theorem a_manual_download_ignores_a_lost_qbittorrent :
  let inputs := sample_signals ++ [event_at (WindlassEvent_Qbit (QbitPublish_Unavailable "gone"))] in
  let final := run (new sample_domain 0 : option WindlassMachine) inputs in
  (state_qbit ∘ state) <$> final.1 = Some ServiceStatus_Degraded ∧
  actions (step final.1 (ask (WindlassCommand_ManualDownload 42))).2
    = [WindlassAction_Mam (MamCommand_FetchTorrent 42)].
Proof. vm_compute. done. Qed.

(** A candidate whose estimate reaches beyond the last day [chrono] has takes the domain down. *)
Theorem an_endless_estimate_ends_the_domain :
  let candidate := mkDownloadCandidate 42 "dl" 1000 3 true (from_hours 2_500_000_000) false (Some 0) in
  (step (new sample_domain 0 : option WindlassMachine)
     (ask (WindlassCommand_TryAddTorrent candidate))).1 = None.
Proof. vm_compute. reflexivity. Qed.
