(* ===== verification/PocSystem.v ===== *)
(** * The archived prototype: its parts together

    The cores as the prototype runs them: the loop of a runtime and its fan-out by topic
    ([POC/windlass-machine/src/runtime.rs], [pubsub.rs]), the tasks that carry what one core
    publishes to the next ([POC/windlass/src/shell/init.rs], [tunnel_bridge.rs],
    [domain_shell.rs], [service.rs]) and the request for a download
    ([POC/windlass-web/src/routes/download.rs]). Every interleaving of events, commands and
    deliveries is a list of labels. Then what holds of all of them: which ports reach
    qBittorrent and MAM, that no fetched torrent does, and that a lost address blocks the
    admission of candidates for good. *)

From S2P Require Import Prelude Bytes Text.
From stdpp Require Import strings.
From S2P Require Import Values.
From S2P Require Import Floats.
From S2P Require Import Address.
From S2P Require Import Json.
From S2P Require Import Describe.
From S2P Require Import PocMachine.
From S2P Require Import PocCores PocDocker PocMam PocQbit PocTunnel PocDomain.
Import Vpn Disk Db.

Local Open Scope string_scope.
Local Open Scope Z_scope.
Local Open Scope list_scope.

#[global] Instance MamTopic_eq_dec : EqDecision MamTopic.
Proof. solve_decision. Defined.
#[global] Instance QbitTopic_eq_dec : EqDecision QbitTopic.
Proof. solve_decision. Defined.
#[global] Instance VpnTopic_eq_dec : EqDecision VpnTopic.
Proof. solve_decision. Defined.
#[global] Instance DiskTopic_eq_dec : EqDecision DiskTopic.
Proof. solve_decision. Defined.
#[global] Instance DbTopic_eq_dec : EqDecision DbTopic.
Proof. solve_decision. Defined.
#[global] Instance DockerTopic_eq_dec : EqDecision DockerTopic.
Proof. solve_decision. Defined.
#[global] Instance TunnelTopic_eq_dec : EqDecision TunnelTopic.
Proof. solve_decision. Defined.
#[global] Instance WindlassTopic_eq_dec : EqDecision WindlassTopic.
Proof. solve_decision. Defined.

(** ** A runtime *)

(** A core with the events and commands sent to it, and the channel that holds what it published
    for the task that forwards it. *)
Record Runtime (M E C P : Type) := mkRuntime {
  machine : M;
  events : list (Timed E);
  commands : list C;
  outbox : list (Uuid * P);
}.
Arguments mkRuntime {M E C P}. Arguments machine {M E C P}. Arguments events {M E C P}.
Arguments commands {M E C P}. Arguments outbox {M E C P}.

(** How many publishes a forwarder's channel holds. *)
Definition CHANNEL_CAPACITY : nat := 128.

(** [TopicFanout::send] with one subscriber: a publish of a topic it did not ask for passes it
    by, and one that finds the channel full is dropped. *)
Definition fan_out {P} (subscribed : P → bool) (outbox : list (Uuid * P)) (envelope : Uuid * P)
    : list (Uuid * P) :=
  if negb (subscribed envelope.2) then outbox
  else if bool_decide (length outbox < CHANNEL_CAPACITY)%nat then outbox ++ [envelope] else outbox.

(** The publishes in their envelopes, each with an id of its own. *)
Definition envelopes {P} (ids : nat → Uuid) (publishes : list P) : list (Uuid * P) :=
  imap (λ i publish, (ids i, publish)) publishes.

Section runtime.
Context {M Config E A P C R : Type} `{!Machine M Config E A P C R}.
Context (subscribed : P → bool) (ids : nat → Uuid).

Definition spawn (config : Config) : Runtime M E C P := mkRuntime (new config 0) [] [] [].

(** [ServiceRuntime::run] takes an event: the machine answers, the actions go to the shell and the
    publishes to the fan-out. *)
Definition serve (self : Runtime M E C P) (now : Instant) (wall_now : SystemTime)
    : Runtime M E C P * list A :=
  match events self with
  | [] => (self, [])
  | event :: rest =>
      let '(machine, answer) := handle (machine self) now wall_now event in
      (mkRuntime machine rest (commands self)
         (fold_left (fan_out subscribed) (envelopes ids (publishes answer)) (outbox self)),
       actions answer)
  end.

(** ... or a command. *)
Definition obey (self : Runtime M E C P) (now : Instant) (wall_now : SystemTime)
    : Runtime M E C P * list A :=
  match commands self with
  | [] => (self, [])
  | command :: rest =>
      let '(machine, answer) := handle_command (machine self) now wall_now command in
      (mkRuntime machine (events self) rest
         (fold_left (fan_out subscribed) (envelopes ids (command_publishes answer)) (outbox self)),
       command_actions answer)
  end.
End runtime.

Definition send_event {M E C P} (self : Runtime M E C P) (event : Timed E) : Runtime M E C P :=
  mkRuntime (machine self) (events self ++ [event]) (commands self) (outbox self).
Definition send_command {M E C P} (self : Runtime M E C P) (command : C) : Runtime M E C P :=
  mkRuntime (machine self) (events self) (commands self ++ [command]) (outbox self).
Definition set_outbox {M E C P} (self : Runtime M E C P) (outbox : list (Uuid * P)) : Runtime M E C P :=
  mkRuntime (machine self) (events self) (commands self) outbox.

(** ** What the forwarders subscribe to *)

Definition among {T} `{EqDecision T} (topics : list T) (topic : T) : bool := existsb (λ t, topic ==? t) topics.

Definition tunnel_topics (publish : TunnelPublish) : bool :=
  among [TunnelTopic_Health; TunnelTopic_Port; TunnelTopic_Leak; TunnelTopic_PublicIp]
    (TunnelPublish_topic publish).
Definition vpn_topics (publish : VpnPublish) : bool :=
  among [VpnTopic_Connectivity; VpnTopic_Port; VpnTopic_PublicIp] (VpnPublish_topic publish).
Definition qbit_topics (publish : QbitPublish) : bool :=
  among [QbitTopic_Availability; QbitTopic_ListenPort; QbitTopic_Torrents; QbitTopic_Privacy;
         QbitTopic_Queue; QbitTopic_Quota] (QbitPublish_topic publish).
Definition mam_topics (publish : MamPublish) : bool :=
  among [MamTopic_Availability; MamTopic_Connectability; MamTopic_Seedbox; MamTopic_UploadHealth;
         MamTopic_KeepAlive; MamTopic_Compliance] (MamPublish_topic publish).
Definition disk_topics (publish : DiskPublish) : bool := among [DiskTopic_Pressure] (DiskPublish_topic publish).
Definition docker_topics (publish : DockerPublish) : bool :=
  among [DockerTopic_Lifecycle; DockerTopic_Logs] (DockerPublish_topic publish).
Definition db_topics (publish : DbPublish) : bool :=
  among [DbTopic_Failures; DbTopic_Results] (DbPublish_topic publish).
Definition domain_topics (publish : WindlassPublish) : bool :=
  among [WindlassTopic_SystemState; WindlassTopic_Activity] (WindlassPublish_topic publish).

(** ** The system *)

Record System := mkSystem {
  tunnel : Runtime TunnelMachine TunnelEvent TunnelCommand TunnelPublish;
  vpn : Runtime VpnMachine VpnEvent VpnCommand VpnPublish;
  qbit : Runtime QbitMachine QbitEvent QbitCommand QbitPublish;
  mam : Runtime MamMachine MamEvent MamCommand MamPublish;
  disk : Runtime DiskMachine DiskEvent DiskCommand DiskPublish;
  docker : Runtime DockerMachine DockerEvent DockerCommand DockerPublish;
  db : Runtime DbMachine DbEvent DbCommand DbPublish;
  domain : Runtime (option WindlassMachine) WindlassEvent WindlassCommand WindlassPublish;
  known_port : option VpnPort;
}.

(** What a core asks of the shell that does its work. *)
Inductive Request :=
  | Request_Tunnel (action : TunnelAction)
  | Request_Qbit (action : QbitAction)
  | Request_Mam (action : MamAction)
  | Request_Docker (action : DockerAction)
  | Request_Db (action : DbAction)
  | Request_Timer (timer : WindlassTimer) (after : Duration).

(** *** The bridge from the tunnel *)

Record TunnelBridgeOutput := mkTunnelBridgeOutput {
  vpn_events : list VpnEvent;
  vpn_publishes : list VpnPublish;
  clear_forwarded_port : bool;
}.

(** The address a leak was seen from, if it is an IPv4 literal. *)
Definition leaked_ip (observed_remote : string) : VpnIp :=
  default 0 (ip ← parse_ip (b observed_remote); VpnIp_from_ip ip).

Definition bridge_tunnel_publish (publish : TunnelPublish) : TunnelBridgeOutput :=
  match publish with
  | TunnelPublish_Up exit_ip | TunnelPublish_Recovered exit_ip =>
      mkTunnelBridgeOutput [ContainerHealthy]
        match exit_ip with Some ip => [VpnPublish_PublicIpObserved ip] | None => [] end false
  | TunnelPublish_Down _ _ | TunnelPublish_Stuck _ _ _ =>
      mkTunnelBridgeOutput [ContainerUnhealthy] [VpnPublish_PublicIpUnavailable] true
  | TunnelPublish_LeakDetected _ observed_remote exit_ip =>
      mkTunnelBridgeOutput [ContainerUnhealthy]
        [VpnPublish_PublicIpMismatch (default 0 exit_ip) (leaked_ip observed_remote) IfConfigCo] true
  | TunnelPublish_PortReady port => mkTunnelBridgeOutput [PortFileChanged port] [] false
  | TunnelPublish_PortUnavailable | TunnelPublish_PortForwardingDegraded _ _ =>
      mkTunnelBridgeOutput [] [VpnPublish_PortUnavailable] true
  | TunnelPublish_ExitIpVerificationDegraded consecutive_failures last_reason =>
      mkTunnelBridgeOutput [] [VpnPublish_PublicIpVerificationDegraded consecutive_failures last_reason] false
  | TunnelPublish_ExitIpObserved ip => mkTunnelBridgeOutput [] [VpnPublish_PublicIpObserved ip] false
  end.

Definition tell_domain (self : System) (now : Instant) (id : Uuid) (event : WindlassEvent) : System :=
  let domain := send_event (domain self) (from_publish now id event) in {| self with domain := domain |}.
Definition tell_vpn (now : Instant) (id : Uuid) (self : System) (event : VpnEvent) : System :=
  let vpn := send_event (vpn self) (from_publish now id event) in {| self with vpn := vpn |}.

Definition forward_tunnel (self : System) (now : Instant) (id : Uuid) (publish : TunnelPublish) : System :=
  let out := bridge_tunnel_publish publish in
  let self := fold_left (tell_vpn now id) (vpn_events out) self in
  let self := fold_left (λ self publish, tell_domain self now id (WindlassEvent_Vpn publish))
                (vpn_publishes out) self in
  if clear_forwarded_port out then {| self with known_port := None |} else self.

(** *** The other forwarders *)

Definition port_after (publish : VpnPublish) (known : option VpnPort) : option VpnPort :=
  match publish with
  | VpnPublish_PortReady port => Some port
  | VpnPublish_PortUnavailable | VpnPublish_Disconnected => None
  | _ => known
  end.
Definition forward_vpn (self : System) (now : Instant) (id : Uuid) (publish : VpnPublish) : System :=
  let known_port := port_after publish (known_port self) in
  tell_domain {| self with known_port := known_port |} now id (WindlassEvent_Vpn publish).

(** The failure of an activity's record is not told: the domain would record another. *)
Definition forward_db (self : System) (now : Instant) (id : Uuid) (publish : DbPublish) : System :=
  match publish with
  | Succeeded _ => self
  | DbPublish_Failed failure =>
      if failure_operation failure ==? "RecordActivity" then self
      else tell_domain self now id
             (WindlassEvent_DbFailed (failure_operation failure) (failure_message failure))
  end.

Definition command_db (self : System) (command : DbCommand) : System :=
  let db := send_command (db self) command in {| self with db := db |}.

Definition forward_domain (self : System) (wall_now : SystemTime) (publish : WindlassPublish) : System :=
  match publish with
  | WindlassPublish_SystemState _ => self
  | WindlassPublish_Activity message =>
      command_db self
        (RecordActivity (mkActivityRecord wall_now ActivitySource_Domain "service_activity" None
                           (Some message) Value_Null))
  end.

(** *** The domain's shell *)

Definition status_json (status : ServiceStatus) : Value :=
  Value_String match status with
               | ServiceStatus_Unknown => "Unknown"
               | ServiceStatus_Ready => "Ready"
               | ServiceStatus_Degraded => "Degraded"
               end.
Definition state_json (state : SystemStateView) : Value :=
  json_object
    [("vpn", status_json (state_vpn state)); ("qbit", status_json (state_qbit state));
     ("mam", status_json (state_mam state));
     ("forwarded_port", match PocDomain.forwarded_port state with Some port => json_id port | None => Value_Null end)].

Definition dispatch (wall_now : SystemTime) (self : System) (action : WindlassAction)
    : System * list Request :=
  match action with
  | WindlassAction_Db command => (command_db self command, [])
  | WindlassAction_SaveSystemSnapshot state =>
      (command_db self (SaveSystemSnapshot (mkSystemSnapshotRecord wall_now (state_json state))), [])
  | WindlassAction_SendAlert priority title body =>
      (command_db self (RecordAlert (mkAlertRecord wall_now priority title body)), [])
  | WindlassAction_Qbit command =>
      let qbit := send_command (qbit self) command in ({| self with qbit := qbit |}, [])
  | WindlassAction_Mam command =>
      let mam := send_command (mam self) command in ({| self with mam := mam |}, [])
  | WindlassAction_Docker command =>
      let docker := send_command (docker self) command in ({| self with docker := docker |}, [])
  | WindlassAction_ScheduleTimer timer after => (self, [Request_Timer timer after])
  end.

Definition dispatch_all (wall_now : SystemTime) (self : System) (actions : list WindlassAction)
    : System * list Request :=
  fold_left (λ '(self, requests) action,
    let '(self, more) := dispatch wall_now self action in (self, requests ++ more)) actions (self, []).

(** ** Steps *)

(** What the shells tell their cores: the outcome of their work, and timers. The domain's shell
    only has timers; the VPN core has no work of its own. *)
Inductive Told :=
  | Told_Tunnel (event : Timed TunnelEvent)
  | Told_Qbit (event : Timed QbitEvent)
  | Told_Mam (event : Timed MamEvent)
  | Told_Disk (event : Timed DiskEvent)
  | Told_Docker (event : Timed DockerEvent)
  | Told_Db (event : Timed DbEvent)
  | Told_Domain (fired : Timed WindlassTimer).

Definition tell (self : System) (told : Told) : System :=
  match told with
  | Told_Tunnel event => let tunnel := send_event (tunnel self) event in {| self with tunnel := tunnel |}
  | Told_Qbit event => let qbit := send_event (qbit self) event in {| self with qbit := qbit |}
  | Told_Mam event => let mam := send_event (mam self) event in {| self with mam := mam |}
  | Told_Disk event => let disk := send_event (disk self) event in {| self with disk := disk |}
  | Told_Docker event => let docker := send_event (docker self) event in {| self with docker := docker |}
  | Told_Db event => let db := send_event (db self) event in {| self with db := db |}
  | Told_Domain fired =>
      let domain := send_event (domain self)
        (mkTimed (timed_at fired) (timed_cause fired) (WindlassEvent_TimerFired (timed_inner fired))) in
      {| self with domain := domain |}
  end.

(** One thing that happens: the cores are told to start, a shell tells its core something, a command
    reaches the domain, or a task takes what is next in a channel. *)
Inductive Label :=
  | Label_Init (now : Instant)
  | Label_Tell (told : Told)
  | Label_Ask (command : WindlassCommand)
  | Label_Serve (core : CoreId) (now : Instant) (wall_now : SystemTime) (ids : nat → Uuid)
  | Label_Obey (core : CoreId) (now : Instant) (wall_now : SystemTime) (ids : nat → Uuid)
  | Label_Forward (core : CoreId) (now : Instant) (wall_now : SystemTime).

Definition init {E} (now : Instant) (event : E) : Timed E := external now ExternalCause_Init event.
(** [ServiceCores::dispatch_init], once everything runs: some cores may be told things before. *)
Definition dispatch_init (self : System) (now : Instant) : System :=
  let domain := send_event (domain self) (init now WindlassEvent_Init) in
  let qbit := send_event (qbit self) (init now QbitEvent_Init) in
  let mam := send_event (mam self) (init now MamEvent_Init) in
  let tunnel := send_event (tunnel self) (init now TunnelEvent_Init) in
  {| self with domain := domain; qbit := qbit; mam := mam; tunnel := tunnel |}.

Section system.
Context `{Chrono, DebugText, HashOrder}.

Definition serve_core (self : System) (core : CoreId) (now : Instant) (wall_now : SystemTime)
    (ids : nat → Uuid) : System * list Request :=
  match core with
  | CoreId_Tunnel =>
      let '(tunnel, actions) := serve tunnel_topics ids (tunnel self) now wall_now in
      ({| self with tunnel := tunnel |}, map Request_Tunnel actions)
  | CoreId_Vpn =>
      let '(vpn, _) := serve vpn_topics ids (vpn self) now wall_now in ({| self with vpn := vpn |}, [])
  | CoreId_Qbit =>
      let '(qbit, actions) := serve qbit_topics ids (qbit self) now wall_now in
      ({| self with qbit := qbit |}, map Request_Qbit actions)
  | CoreId_Mam =>
      let '(mam, actions) := serve mam_topics ids (mam self) now wall_now in
      ({| self with mam := mam |}, map Request_Mam actions)
  | CoreId_Disk =>
      let '(disk, _) := serve disk_topics ids (disk self) now wall_now in ({| self with disk := disk |}, [])
  | CoreId_Docker =>
      let '(docker, actions) := serve docker_topics ids (docker self) now wall_now in
      ({| self with docker := docker |}, map Request_Docker actions)
  | CoreId_Db =>
      let '(db, actions) := serve db_topics ids (db self) now wall_now in
      ({| self with db := db |}, map Request_Db actions)
  | CoreId_Domain =>
      let '(domain, actions) := serve domain_topics ids (domain self) now wall_now in
      dispatch_all wall_now {| self with domain := domain |} actions
  end.

(** Nothing commands the tunnel and the disk, and nothing can command the VPN core. *)
Definition obey_core (self : System) (core : CoreId) (now : Instant) (wall_now : SystemTime)
    (ids : nat → Uuid) : System * list Request :=
  match core with
  | CoreId_Tunnel | CoreId_Vpn | CoreId_Disk => (self, [])
  | CoreId_Qbit =>
      let '(qbit, actions) := obey qbit_topics ids (qbit self) now wall_now in
      ({| self with qbit := qbit |}, map Request_Qbit actions)
  | CoreId_Mam =>
      let '(mam, actions) := obey mam_topics ids (mam self) now wall_now in
      ({| self with mam := mam |}, map Request_Mam actions)
  | CoreId_Docker =>
      let '(docker, actions) := obey docker_topics ids (docker self) now wall_now in
      ({| self with docker := docker |}, map Request_Docker actions)
  | CoreId_Db =>
      let '(db, actions) := obey db_topics ids (db self) now wall_now in
      ({| self with db := db |}, map Request_Db actions)
  | CoreId_Domain =>
      let '(domain, actions) := obey domain_topics ids (domain self) now wall_now in
      dispatch_all wall_now {| self with domain := domain |} actions
  end.

(** The task after a core takes the oldest of what it published. *)
Definition forward_core (self : System) (core : CoreId) (now : Instant) (wall_now : SystemTime) : System :=
  match core with
  | CoreId_Tunnel =>
      match outbox (tunnel self) with
      | [] => self
      | (id, publish) :: rest =>
          let tunnel := set_outbox (tunnel self) rest in
          forward_tunnel {| self with tunnel := tunnel |} now id publish
      end
  | CoreId_Vpn =>
      match outbox (vpn self) with
      | [] => self
      | (id, publish) :: rest =>
          let vpn := set_outbox (vpn self) rest in forward_vpn {| self with vpn := vpn |} now id publish
      end
  | CoreId_Qbit =>
      match outbox (qbit self) with
      | [] => self
      | (id, publish) :: rest =>
          let qbit := set_outbox (qbit self) rest in
          tell_domain {| self with qbit := qbit |} now id (WindlassEvent_Qbit publish)
      end
  | CoreId_Mam =>
      match outbox (mam self) with
      | [] => self
      | (id, publish) :: rest =>
          let mam := set_outbox (mam self) rest in
          tell_domain {| self with mam := mam |} now id (WindlassEvent_Mam publish)
      end
  | CoreId_Disk =>
      match outbox (disk self) with
      | [] => self
      | (id, publish) :: rest =>
          let disk := set_outbox (disk self) rest in
          tell_domain {| self with disk := disk |} now id (WindlassEvent_Disk publish)
      end
  | CoreId_Docker =>
      match outbox (docker self) with
      | [] => self
      | (id, publish) :: rest =>
          let docker := set_outbox (docker self) rest in
          tell_domain {| self with docker := docker |} now id (WindlassEvent_Docker publish)
      end
  | CoreId_Db =>
      match outbox (db self) with
      | [] => self
      | (id, publish) :: rest =>
          let db := set_outbox (db self) rest in forward_db {| self with db := db |} now id publish
      end
  | CoreId_Domain =>
      match outbox (domain self) with
      | [] => self
      | (_, publish) :: rest =>
          let domain := set_outbox (domain self) rest in
          forward_domain {| self with domain := domain |} wall_now publish
      end
  end.

Definition happen (self : System) (label : Label) : System * list Request :=
  match label with
  | Label_Init now => (dispatch_init self now, [])
  | Label_Tell told => (tell self told, [])
  | Label_Ask command =>
      let domain := send_command (domain self) command in ({| self with domain := domain |}, [])
  | Label_Serve core now wall_now ids => serve_core self core now wall_now ids
  | Label_Obey core now wall_now ids => obey_core self core now wall_now ids
  | Label_Forward core now wall_now => (forward_core self core now wall_now, [])
  end.

(** The states of the system, and what the shells are asked. *)
Fixpoint happens (self : System) (labels : list Label) : System * list Request :=
  match labels with
  | [] => (self, [])
  | label :: labels =>
      let '(self, requests) := happen self label in
      let '(self, more) := happens self labels in (self, requests ++ more)
  end.

(** ** The start *)

(** What the environment decides of a start. *)
Record Environment := mkEnvironment {
  env_peer_count : Z;
  exit_ip_query_interval_secs : Z;
  env_quota_limit : Z;
  seedbox_update_min_interval_secs : Z;
  compliance_poll_interval_secs : Z;
  disk_hard_floor_bytes : Z;
  anchor_container : string;
  blacklisted : gset MamTorrentId;
}.

Definition tunnel_config (env : Environment) : TunnelConfig :=
  let defaults := TunnelConfig_default in
  {| defaults with peer_count := env_peer_count env;
                   exit_ip_query_interval := from_secs (exit_ip_query_interval_secs env) |}.
Definition qbit_config (env : Environment) : QbitConfig :=
  mkQbitConfig (from_secs 5) (from_secs 2) (from_secs 30) (from_hours 72) (env_quota_limit env) 3.
Definition mam_config (env : Environment) : MamConfig :=
  mkMamConfig (from_secs 30) (f64_of 2) DEFAULT_MIN_UPLOAD_BUFFER_BYTES DEFAULT_KEEP_ALIVE_INTERVAL
    DEFAULT_KEEP_ALIVE_FAILURE_THRESHOLD DEFAULT_STALE_REGISTRATION_INTERVAL
    (from_secs (seedbox_update_min_interval_secs env)).
Definition docker_config (env : Environment) : DockerConfig :=
  mkDockerConfig (anchor_container env) 3 (from_mins 10) true.
Definition domain_config (env : Environment) : WindlassConfig :=
  mkWindlassConfig (from_secs (compliance_poll_interval_secs env)) (anchor_container env) (blacklisted env).

(** Every core, before the first event. *)
Definition init_shell (env : Environment) : System := {|
  tunnel := spawn (tunnel_config env);
  vpn := spawn ();
  qbit := spawn (qbit_config env);
  mam := spawn (mam_config env);
  disk := spawn (mkDiskConfig (disk_hard_floor_bytes env));
  docker := spawn (docker_config env);
  db := spawn ();
  domain := spawn (domain_config env);
  known_port := None;
|}.

(** ** The request for a download *)

Record AddDownloadBody := mkAddDownloadBody {
  body_mam_url : option string;
  body_mam_id : option Z;
}.

Definition resolve_mam_id (body : AddDownloadBody) : option MamTorrentId :=
  match body_mam_url body with
  | Some url => MamTorrentId_from_url_or_id url
  | None => id ← body_mam_id body; MamTorrentId_try_new id
  end.

(** The status of the answer, and the command that reaches the domain: its channel is closed once
    its task is gone. *)
Definition post_add_download (self : System) (body : AddDownloadBody) : list Label * Z :=
  match resolve_mam_id body with
  | None => ([], 400)
  | Some mam_id =>
      if is_some (machine (domain self)) then ([Label_Ask (WindlassCommand_ManualDownload mam_id)], 202)
      else ([], 503)
  end.
End system.

(** ** Contracts

    What a core may rely on in what it is told, and what it guarantees of its state, its
    publishes and its actions. A system whose cores keep their contracts, and whose
    contracts fit together along its channels, keeps them through every sequence of labels. *)

Record Contract (M E C P A : Type) := mkContract {
  state_ok : M → Prop;
  event_ok : E → Prop;
  command_ok : C → Prop;
  publish_ok : P → Prop;
  action_ok : A → Prop;
}.
Arguments mkContract {M E C P A}. Arguments state_ok {M E C P A}. Arguments event_ok {M E C P A}.
Arguments command_ok {M E C P A}. Arguments publish_ok {M E C P A}. Arguments action_ok {M E C P A}.

Definition no_contract {M E C P A} : Contract M E C P A :=
  mkContract (λ _, True) (λ _, True) (λ _, True) (λ _, True) (λ _, True).

Section contract.
Context {M Config E A P C R : Type} `{!Machine M Config E A P C R}.
Context (subscribed : P → bool) (k : Contract M E C P A).

Definition answer_ok (self : M) (publishes : list P) (actions : list A) : Prop :=
  state_ok k self ∧ Forall (λ publish, subscribed publish = true → publish_ok k publish) publishes ∧
  Forall (action_ok k) actions.

(** The machine keeps its contract; only what its forwarder asked for counts. *)
Class Keeps : Prop := {
  keeps_event self now wall_now event :
    state_ok k self → event_ok k (timed_inner event) →
    answer_ok (handle self now wall_now event).1 (publishes (handle self now wall_now event).2)
      (actions (handle self now wall_now event).2);
  keeps_command self now wall_now command :
    state_ok k self → command_ok k command →
    answer_ok (handle_command self now wall_now command).1
      (command_publishes (handle_command self now wall_now command).2)
      (command_actions (handle_command self now wall_now command).2);
}.

Definition runtime_ok (self : Runtime M E C P) : Prop :=
  state_ok k (machine self) ∧ Forall (λ event, event_ok k (timed_inner event)) (events self) ∧
  Forall (command_ok k) (commands self) ∧ Forall (λ envelope, publish_ok k envelope.2) (outbox self).

Lemma fan_out_ok outbox envelope :
  Forall (λ e, publish_ok k e.2) outbox → (subscribed envelope.2 = true → publish_ok k envelope.2) →
  Forall (λ e, publish_ok k e.2) (fan_out subscribed outbox envelope).
Proof.
  intros Houtbox Henvelope. unfold fan_out. destruct (subscribed envelope.2); cbn; [|done].
  case_bool_decide; [|done]. apply Forall_app_2; [done|]. apply Forall_singleton. auto.
Qed.

Lemma fan_outs_ok ids publishes outbox :
  Forall (λ e, publish_ok k e.2) outbox →
  Forall (λ publish, subscribed publish = true → publish_ok k publish) publishes →
  Forall (λ e, publish_ok k e.2) (fold_left (fan_out subscribed) (envelopes ids publishes) outbox).
Proof.
  unfold envelopes. revert ids outbox. induction publishes as [|publish publishes IH]; intros ids outbox Ho Hp; [done|].
  apply Forall_cons_iff in Hp as [Hp Hps]. cbn. apply (IH (ids ∘ S)); [by apply fan_out_ok|done].
Qed.

Context `{!Keeps}.

Lemma serve_ok ids self now wall_now :
  runtime_ok self →
  runtime_ok (serve subscribed ids self now wall_now).1 ∧
  Forall (action_ok k) (serve subscribed ids self now wall_now).2.
Proof.
  intros (Hstate & Hevents & Hcommands & Houtbox). unfold serve.
  destruct (events self) as [|event rest] eqn:Hqueue.
  { split; [|constructor]. cbn [fst]. split_and!; [done|by rewrite Hqueue|done|done]. }
  apply Forall_cons_iff in Hevents as [Hevent Hrest].
  destruct (keeps_event (machine self) now wall_now event Hstate Hevent) as (Hstate' & Hpublishes & Hactions).
  destruct (handle _ _ _ _) as [m answer]. cbn in *. split; [|done].
  split_and!; [done|done|done|]. by apply fan_outs_ok.
Qed.

Lemma obey_ok ids self now wall_now :
  runtime_ok self →
  runtime_ok (obey subscribed ids self now wall_now).1 ∧
  Forall (action_ok k) (obey subscribed ids self now wall_now).2.
Proof.
  intros (Hstate & Hevents & Hcommands & Houtbox). unfold obey.
  destruct (commands self) as [|command rest] eqn:Hqueue.
  { split; [|constructor]. cbn [fst]. split_and!; [done|done|by rewrite Hqueue|done]. }
  apply Forall_cons_iff in Hcommands as [Hcommand Hrest].
  destruct (keeps_command (machine self) now wall_now command Hstate Hcommand) as (Hstate' & Hpublishes & Hactions).
  destruct (handle_command _ _ _ _) as [m answer]. cbn in *. split; [|done].
  split_and!; [done|done|done|]. by apply fan_outs_ok.
Qed.

Lemma send_event_ok self event :
  runtime_ok self → event_ok k (timed_inner event) → runtime_ok (send_event self event).
Proof.
  intros (? & ? & ? & ?) ?. split_and!; try done. apply Forall_app_2; [done|by apply Forall_singleton].
Qed.
Lemma send_command_ok self command :
  runtime_ok self → command_ok k command → runtime_ok (send_command self command).
Proof.
  intros (? & ? & ? & ?) ?. split_and!; try done. apply Forall_app_2; [done|by apply Forall_singleton].
Qed.
Lemma take_publish_ok self id publish rest :
  runtime_ok self → outbox self = (id, publish) :: rest →
  runtime_ok (set_outbox self rest) ∧ publish_ok k publish.
Proof.
  intros (? & ? & ? & Ho) Heq. rewrite Heq in Ho. apply Forall_cons_iff in Ho as [? ?].
  split; [|done]. split_and!; done.
Qed.
End contract.

#[export] Instance no_contract_kept {M Config E A P C R} `{!Machine M Config E A P C R} subscribed :
  Keeps (M := M) subscribed no_contract.
Proof. split; intros; (split_and!; [done|by apply Forall_true|by apply Forall_true]). Qed.

(** The contracts of all cores. *)
Record Contracts := mkContracts {
  k_tunnel : Contract TunnelMachine TunnelEvent TunnelCommand TunnelPublish TunnelAction;
  k_vpn : Contract VpnMachine VpnEvent VpnCommand VpnPublish VpnAction;
  k_qbit : Contract QbitMachine QbitEvent QbitCommand QbitPublish QbitAction;
  k_mam : Contract MamMachine MamEvent MamCommand MamPublish MamAction;
  k_disk : Contract DiskMachine DiskEvent DiskCommand DiskPublish DiskAction;
  k_docker : Contract DockerMachine DockerEvent DockerCommand DockerPublish DockerAction;
  k_db : Contract DbMachine DbEvent DbCommand DbPublish DbAction;
  k_domain : Contract (option WindlassMachine) WindlassEvent WindlassCommand WindlassPublish WindlassAction;
}.

(** How contracts fit along the channels. *)
Class Fits (k : Contracts) : Prop := {
  fits_init : event_ok (k_domain k) WindlassEvent_Init ∧ event_ok (k_qbit k) QbitEvent_Init ∧
    event_ok (k_mam k) MamEvent_Init ∧ event_ok (k_tunnel k) TunnelEvent_Init;
  fits_tunnel publish : publish_ok (k_tunnel k) publish →
    Forall (event_ok (k_vpn k)) (vpn_events (bridge_tunnel_publish publish)) ∧
    Forall (λ publish, event_ok (k_domain k) (WindlassEvent_Vpn publish))
      (vpn_publishes (bridge_tunnel_publish publish));
  fits_vpn publish : publish_ok (k_vpn k) publish → event_ok (k_domain k) (WindlassEvent_Vpn publish);
  fits_qbit publish : publish_ok (k_qbit k) publish → event_ok (k_domain k) (WindlassEvent_Qbit publish);
  fits_mam publish : publish_ok (k_mam k) publish → event_ok (k_domain k) (WindlassEvent_Mam publish);
  fits_disk publish : publish_ok (k_disk k) publish → event_ok (k_domain k) (WindlassEvent_Disk publish);
  fits_docker publish : publish_ok (k_docker k) publish → event_ok (k_domain k) (WindlassEvent_Docker publish);
  fits_db operation message : event_ok (k_domain k) (WindlassEvent_DbFailed operation message);
  fits_timer timer : event_ok (k_domain k) (WindlassEvent_TimerFired timer);
  fits_records command : command_ok (k_db k) command;
  fits_action action : action_ok (k_domain k) action →
    match action with
    | WindlassAction_Qbit command => command_ok (k_qbit k) command
    | WindlassAction_Mam command => command_ok (k_mam k) command
    | WindlassAction_Docker command => command_ok (k_docker k) command
    | _ => True
    end;
}.

(** What may come from outside. *)
Definition label_ok (k : Contracts) (label : Label) : Prop :=
  match label with
  | Label_Tell (Told_Tunnel event) => event_ok (k_tunnel k) (timed_inner event)
  | Label_Tell (Told_Qbit event) => event_ok (k_qbit k) (timed_inner event)
  | Label_Tell (Told_Mam event) => event_ok (k_mam k) (timed_inner event)
  | Label_Tell (Told_Disk event) => event_ok (k_disk k) (timed_inner event)
  | Label_Tell (Told_Docker event) => event_ok (k_docker k) (timed_inner event)
  | Label_Tell (Told_Db event) => event_ok (k_db k) (timed_inner event)
  | Label_Ask command => command_ok (k_domain k) command
  | _ => True
  end.

Definition request_ok (k : Contracts) (request : Request) : Prop :=
  match request with
  | Request_Tunnel action => action_ok (k_tunnel k) action
  | Request_Qbit action => action_ok (k_qbit k) action
  | Request_Mam action => action_ok (k_mam k) action
  | Request_Docker action => action_ok (k_docker k) action
  | Request_Db action => action_ok (k_db k) action
  | Request_Timer _ _ => True
  end.

Record system_ok (k : Contracts) (self : System) : Prop := {
  tunnel_ok : runtime_ok (k_tunnel k) (tunnel self);
  vpn_ok : runtime_ok (k_vpn k) (vpn self);
  qbit_ok : runtime_ok (k_qbit k) (qbit self);
  mam_ok : runtime_ok (k_mam k) (mam self);
  disk_ok : runtime_ok (k_disk k) (disk self);
  docker_ok : runtime_ok (k_docker k) (docker self);
  db_ok : runtime_ok (k_db k) (db self);
  domain_ok : runtime_ok (k_domain k) (domain self);
}.

Section contracts.
Context `{Chrono, DebugText, HashOrder} (k : Contracts).
Context `{!Keeps tunnel_topics (k_tunnel k), !Keeps vpn_topics (k_vpn k), !Keeps qbit_topics (k_qbit k),
          !Keeps mam_topics (k_mam k), !Keeps disk_topics (k_disk k), !Keeps docker_topics (k_docker k),
          !Keeps db_topics (k_db k), !Keeps domain_topics (k_domain k), !Fits k}.

(** A system with one runtime replaced. *)
Ltac replaced := let Hok := fresh in intros Hok; destruct Hok; constructor; cbn; try done.

Lemma tell_domain_ok self now id event :
  system_ok k self → event_ok (k_domain k) event → system_ok k (tell_domain self now id event).
Proof. intros Hok Hevent. revert Hok. replaced. by apply send_event_ok. Qed.
Lemma command_db_ok self command : system_ok k self → system_ok k (command_db self command).
Proof. replaced. apply send_command_ok; [done|apply fits_records]. Qed.

Lemma forward_tunnel_ok self now id publish :
  system_ok k self → publish_ok (k_tunnel k) publish → system_ok k (forward_tunnel self now id publish).
Proof.
  intros Hok Hpublish. unfold forward_tunnel.
  destruct (fits_tunnel publish Hpublish) as [Hevents Hpublishes].
  assert (system_ok k (fold_left (tell_vpn now id) (vpn_events (bridge_tunnel_publish publish)) self)) as Hvpn.
  { revert self Hok. induction Hevents as [|event events Hevent _ IH]; intros self Hok; [done|].
    apply IH. revert Hok. replaced. by apply send_event_ok. }
  revert Hvpn. generalize (fold_left (tell_vpn now id) (vpn_events (bridge_tunnel_publish publish)) self).
  clear self Hok Hevents. intros self Hok.
  assert (system_ok k (fold_left (λ self publish, tell_domain self now id (WindlassEvent_Vpn publish))
    (vpn_publishes (bridge_tunnel_publish publish)) self)) as Hdomain.
  { revert self Hok. induction Hpublishes as [|event events Hevent _ IH]; intros self Hok; [done|].
    apply IH. by apply tell_domain_ok. }
  destruct (clear_forwarded_port _); [|done]. revert Hdomain. replaced.
Qed.

Lemma dispatch_ok wall_now self action :
  system_ok k self → action_ok (k_domain k) action →
  system_ok k (dispatch wall_now self action).1 ∧ Forall (request_ok k) (dispatch wall_now self action).2.
Proof.
  intros Hok Haction%fits_action. destruct action; cbn [dispatch fst snd];
    (split; [|repeat constructor]); try (by apply command_db_ok);
    try (revert Hok; replaced; by apply send_command_ok).
Qed.

Lemma dispatch_all_ok wall_now self actions :
  system_ok k self → Forall (action_ok (k_domain k)) actions →
  system_ok k (dispatch_all wall_now self actions).1 ∧
  Forall (request_ok k) (dispatch_all wall_now self actions).2.
Proof.
  intros Hok Hactions. unfold dispatch_all.
  assert (∀ requests, Forall (request_ok k) requests →
    system_ok k (fold_left (λ '(self, requests) action,
      let '(self, more) := dispatch wall_now self action in (self, requests ++ more)) actions (self, requests)).1 ∧
    Forall (request_ok k) (fold_left (λ '(self, requests) action,
      let '(self, more) := dispatch wall_now self action in (self, requests ++ more)) actions (self, requests)).2)
    as Hfold; [|by apply Hfold].
  revert self Hok. induction Hactions as [|action actions Haction _ IH]; intros self Hok requests Hrequests; [done|].
  cbn. destruct (dispatch_ok wall_now self action Hok Haction) as [Hok' Hmore].
  destruct (dispatch wall_now self action) as [self' more]. apply IH; [done|by apply Forall_app_2].
Qed.

(** Serving or obeying one core. *)
Ltac core_step lemma :=
  match goal with
  | |- context [serve ?topics ?ids ?rt ?now ?wall_now] =>
      let H1 := fresh "Hcore" in let H2 := fresh "Hactions" in
      destruct (serve_ok topics lemma ids rt now wall_now) as [H1 H2]; [done|];
      destruct (serve topics ids rt now wall_now)
  | |- context [obey ?topics ?ids ?rt ?now ?wall_now] =>
      let H1 := fresh "Hcore" in let H2 := fresh "Hactions" in
      destruct (obey_ok topics lemma ids rt now wall_now) as [H1 H2]; [done|];
      destruct (obey topics ids rt now wall_now)
  end; cbn [fst snd] in *.
Ltac core_done :=
  split; [constructor; cbn; done|first [by apply List.Forall_map|constructor]].

Lemma serve_core_ok self core now wall_now ids :
  system_ok k self →
  system_ok k (serve_core self core now wall_now ids).1 ∧
  Forall (request_ok k) (serve_core self core now wall_now ids).2.
Proof.
  intros [? ? ? ? ? ? ? ?]. destruct core; cbn [serve_core].
  - core_step (k_vpn k). core_done.
  - core_step (k_qbit k). core_done.
  - core_step (k_mam k). core_done.
  - core_step (k_db k). core_done.
  - core_step (k_disk k). core_done.
  - core_step (k_docker k). core_done.
  - core_step (k_domain k). apply dispatch_all_ok; [by constructor|done].
  - core_step (k_tunnel k). core_done.
Qed.

Lemma obey_core_ok self core now wall_now ids :
  system_ok k self →
  system_ok k (obey_core self core now wall_now ids).1 ∧
  Forall (request_ok k) (obey_core self core now wall_now ids).2.
Proof.
  intros [? ? ? ? ? ? ? ?]. destruct core; cbn [obey_core].
  1, 5, 8: core_done.
  - core_step (k_qbit k). core_done.
  - core_step (k_mam k). core_done.
  - core_step (k_db k). core_done.
  - core_step (k_docker k). core_done.
  - core_step (k_domain k). apply dispatch_all_ok; [by constructor|done].
Qed.

Ltac take_next lemma rt :=
  destruct (outbox rt) as [|[id publish] rest] eqn:Hnext; [by constructor|];
  destruct (take_publish_ok lemma rt id publish rest) as [Hcore Hpublish]; [done|done|].

Lemma forward_core_ok self core now wall_now :
  system_ok k self → system_ok k (forward_core self core now wall_now).
Proof.
  intros [? ? ? ? ? ? ? ?]. destruct core; cbn [forward_core].
  - take_next (k_vpn k) (vpn self). apply tell_domain_ok; [by constructor|by apply fits_vpn].
  - take_next (k_qbit k) (qbit self). apply tell_domain_ok; [by constructor|by apply fits_qbit].
  - take_next (k_mam k) (mam self). apply tell_domain_ok; [by constructor|by apply fits_mam].
  - take_next (k_db k) (db self). unfold forward_db. destruct publish as [|failure]; [by constructor|].
    destruct (_ ==? _); [by constructor|]. apply tell_domain_ok; [by constructor|apply fits_db].
  - take_next (k_disk k) (disk self). apply tell_domain_ok; [by constructor|by apply fits_disk].
  - take_next (k_docker k) (docker self). apply tell_domain_ok; [by constructor|by apply fits_docker].
  - take_next (k_domain k) (domain self). unfold forward_domain. destruct publish; [by constructor|].
    apply command_db_ok. by constructor.
  - take_next (k_tunnel k) (tunnel self). apply forward_tunnel_ok; [by constructor|done].
Qed.

Lemma tell_ok self told : system_ok k self → label_ok k (Label_Tell told) → system_ok k (tell self told).
Proof.
  intros Hok Htold. revert Hok. destruct told; cbn [tell]; replaced; apply send_event_ok; try done.
  apply fits_timer.
Qed.

(** Whatever happens, the contracts hold. *)
Theorem contracts_hold self labels :
  system_ok k self → Forall (label_ok k) labels →
  system_ok k (happens self labels).1 ∧ Forall (request_ok k) (happens self labels).2.
Proof.
  revert self. induction labels as [|label labels IH]; intros self Hok Hlabels; [done|].
  apply Forall_cons_iff in Hlabels as [Hlabel Hlabels]. cbn.
  assert (system_ok k (happen self label).1 ∧ Forall (request_ok k) (happen self label).2) as [Hok' Hrequests].
  { destruct label as [now|told|command|core now wall_now ids|core now wall_now ids|core now wall_now];
      cbn [happen].
    - split; [|constructor]. destruct fits_init as (? & ? & ? & ?). revert Hok. replaced; by apply send_event_ok.
    - split; [by apply tell_ok|constructor].
    - split; [|constructor]. revert Hok. replaced. by apply send_command_ok.
    - by apply serve_core_ok.
    - by apply obey_core_ok.
    - split; [by apply forward_core_ok|constructor]. }
  destruct (happen self label) as [self' requests]. cbn in *.
  destruct (IH self' Hok' Hlabels) as [Hok'' Hmore]. destruct (happens self' labels) as [self'' more].
  split; [done|by apply Forall_app_2].
Qed.
End contracts.

(** What a step leaves of the port MAM should have and of MAM's verdict on the network. *)
Definition mam_knows (self : MamMachine) : option VpnPort * AsnState :=
  (desired_seedbox_port self, asn_state self).
Lemma mam_step_knows self (input : MamInput) :
  mam_knows (step self input).1 =
  match input with
  | Input_Command _ _ (MamCommand_EnsureSeedboxPort port) => (Some port, asn_state self)
  | Input_Event _ _ (mkTimed _ _ (MamEvent_AsnMismatch _)) => (desired_seedbox_port self, AsnState_Mismatched)
  | Input_Event _ _ (mkTimed _ _ (MamEvent_SeedboxUpdated _ _ _)) => (desired_seedbox_port self, AsnState_Accepted)
  | _ => mam_knows self
  end.
Proof.
  assert (∀ self wall_now, mam_knows (request_seedbox_update self wall_now).1 = mam_knows self) as Hrequest
    by (intros; unfold request_seedbox_update; by repeat case_match).
  assert (∀ self wall_now, mam_knows (converge_seedbox self wall_now).1 = mam_knows self) as Hconverge
    by (intros; unfold converge_seedbox; by case_match).
  assert (∀ self publishes reason, mam_knows (apply_failure self publishes reason).1 = mam_knows self) as Hfailure.
  { intros self' publishes reason. unfold apply_failure, bump_keep_alive_failures. cbv zeta.
    by destruct (keep_alive_failure_threshold (PocMam.config self') =? 0). }
  destruct input as [now wall_now [at_ cause []]|now wall_now []];
    cbn [step handle handle_command MamMachine_Machine MamMachine_handle MamMachine_handle_command timed_inner];
    try done; try (by rewrite Hfailure);
    unfold PocMam.apply_auth_succeeded, apply_status, apply_seedbox_updated, apply_asn_mismatch,
      PocMam.apply_timer, refresh_or_update_seedbox, ensure_seedbox_port, observed_ip_changed; cbv zeta;
    repeat match goal with
    | |- context [if ?condition then _ else _] =>
        lazymatch condition with context [if _ then _ else _] => fail | _ => destruct condition end
    | timer : MamTimer |- _ => destruct timer
    | |- context [converge_seedbox ?self ?wall_now] =>
        pose proof (Hconverge self wall_now); destruct (converge_seedbox self wall_now); cbn in *
    | |- context [request_seedbox_update ?self ?wall_now] =>
        pose proof (Hrequest self wall_now); destruct (request_seedbox_update self wall_now); cbn in *
    end; try (by rewrite ?Hfailure); try done.
Qed.

(** MAM is said to accept the network only when it was not known to. *)
Lemma mam_accepts_once self (input : MamInput) :
  Forall (λ publish, match publish with
                     | MamPublish_AsnAccepted => asn_state self ≠ AsnState_Accepted
                     | _ => True
                     end) (publishes (step self input).2).
Proof.
  assert (∀ self' publishes reason,
    Forall (λ publish, match publish with MamPublish_AsnAccepted => asn_state self ≠ AsnState_Accepted | _ => True end)
      publishes →
    Forall (λ publish, match publish with MamPublish_AsnAccepted => asn_state self ≠ AsnState_Accepted | _ => True end)
      (PocMachine.publishes (apply_failure self' publishes reason).2)) as Hfailure.
  { intros self' publishes reason Hall. unfold apply_failure, bump_keep_alive_failures. cbv zeta.
    destruct (keep_alive_failure_threshold (PocMam.config self') =? 0); cbn; [by rewrite app_nil_r|].
    apply Forall_app_2; [done|]. case_match; each. }
  destruct input as [now wall_now [at_ cause []]|now wall_now []];
    cbn [step handle handle_command MamMachine_Machine MamMachine_handle MamMachine_handle_command timed_inner];
    try (by each); try (apply Hfailure; each).
  - unfold PocMam.apply_auth_succeeded. cbn. case_match; each.
  - unfold apply_status. cbv zeta. destruct (converge_seedbox _ _). cbn.
    apply Forall_app_2; [|case_match; each]. destruct connectable; [|each].
    apply Forall_cons_2; [done|]. unfold seedbox_publish. repeat case_match; each.
  - unfold apply_asn_mismatch. apply Hfailure. case_match; each.
  - unfold apply_seedbox_updated. cbv zeta. destruct (converge_seedbox _ _). cbn.
    apply Forall_app_2; [case_match; each|]. case_bool_decide; each.
  - unfold PocMam.apply_timer. destruct timer; repeat case_match; each.
  - unfold ensure_seedbox_port. repeat case_match; simplify_eq; cbn; each.
  - unfold observed_ip_changed. repeat case_match; simplify_eq; cbn; each.
Qed.

(** A contract of the domain that is only about its actions. *)
Lemma domain_keeps `{Chrono, DebugText} (k : Contract (option WindlassMachine) WindlassEvent WindlassCommand
    WindlassPublish WindlassAction) :
  (∀ self, state_ok k self) → (∀ publish, publish_ok k publish) →
  (∀ event action, event_ok k event → acts_for event action → action_ok k action) →
  (∀ action, acts_for_command action → action_ok k action) →
  Keeps domain_topics k.
Proof.
  intros Hstate Hpublish Hevent Hcommand. split; intros self now wall_now.
  - intros event _ Hok. split_and!; [done|by apply Forall_true|].
    destruct self as [self|]; [|constructor]. cbn [handle WindlassMachine_Machine task_handle].
    pose proof (event_actions self now wall_now event) as Hacts.
    destruct (WindlassMachine_handle _ _ _ _). eapply List.Forall_impl; [|exact Hacts]. eauto.
  - intros command _ _. split_and!; [done|by apply Forall_true|].
    eapply List.Forall_impl; [|apply task_command_actions]. eauto.
Qed.

(** ** Ports *)

Section ports.
Context `{Chrono, DebugText, HashOrder} (granted : Z → Prop).

Definition port_ok (port : VpnPort) : Prop := granted port ∧ 0 < port ≤ 65535.
Definition optional_ok (port : option VpnPort) : Prop := ∀ p, port = Some p → port_ok p.

Definition tunnel_ports : Contract TunnelMachine TunnelEvent TunnelCommand TunnelPublish TunnelAction := {|
  state_ok self := ∀ port, PocTunnel.forwarded_port self = Some port → granted port;
  event_ok event := match event with TunnelEvent_NatPmpLeaseGranted port _ _ => granted port | _ => True end;
  command_ok _ := True;
  publish_ok publish := match publish with TunnelPublish_PortReady port => port_ok port | _ => True end;
  action_ok _ := True;
|}.
Definition vpn_ports : Contract VpnMachine VpnEvent VpnCommand VpnPublish VpnAction := {|
  state_ok _ := True;
  event_ok event := match event with PortFileChanged port => port_ok port | _ => True end;
  command_ok _ := True;
  publish_ok publish := match publish with VpnPublish_PortReady port => port_ok port | _ => True end;
  action_ok _ := True;
|}.
Definition domain_ports :
    Contract (option WindlassMachine) WindlassEvent WindlassCommand WindlassPublish WindlassAction := {|
  state_ok _ := True;
  event_ok event :=
    match event with WindlassEvent_Vpn (VpnPublish_PortReady port) => port_ok port | _ => True end;
  command_ok _ := True;
  publish_ok _ := True;
  action_ok action :=
    match action with
    | WindlassAction_Qbit (QbitCommand_EnsureListenPort port)
    | WindlassAction_Mam (MamCommand_EnsureSeedboxPort port) => port_ok port
    | _ => True
    end;
|}.
Definition qbit_ports : Contract QbitMachine QbitEvent QbitCommand QbitPublish QbitAction := {|
  state_ok self := optional_ok (desired_listen_port self);
  event_ok _ := True;
  command_ok command := match command with QbitCommand_EnsureListenPort port => port_ok port | _ => True end;
  publish_ok _ := True;
  action_ok action := match action with QbitAction_SetListenPort _ port => port_ok port | _ => True end;
|}.
Definition mam_ports : Contract MamMachine MamEvent MamCommand MamPublish MamAction := {|
  state_ok self := optional_ok (desired_seedbox_port self);
  event_ok _ := True;
  command_ok command := match command with MamCommand_EnsureSeedboxPort port => port_ok port | _ => True end;
  publish_ok _ := True;
  action_ok _ := True;
|}.
Definition port_contracts : Contracts :=
  mkContracts tunnel_ports vpn_ports qbit_ports mam_ports no_contract no_contract no_contract domain_ports.

(** The ports an answer publishes are the one held after it. *)
Definition tells_held (answer : TunnelMachine * Outcome TunnelAction TunnelPublish) : Prop :=
  Forall (λ publish, match publish with
                     | TunnelPublish_PortReady port =>
                         PocTunnel.forwarded_port answer.1 = Some port ∧ 0 < port ≤ 65535
                     | _ => True
                     end) (publishes answer.2).

Lemma publish_port_held self actions :
  PocTunnel.forwarded_port (publish_port self).1 = PocTunnel.forwarded_port self ∧
  tells_held ((publish_port self).1, mkOutcome actions (publish_port self).2).
Proof.
  unfold tells_held, publish_port, pending_port_ready. destruct (_ || _); [by repeat constructor|].
  destruct (PocTunnel.forwarded_port self) as [port|] eqn:Hport; [|by repeat constructor]. cbn.
  unfold VpnPort_try_new, then_some. destruct (_ && _) eqn:Hvalid; cbn; [|by repeat constructor].
  split; [done|]. apply Forall_singleton. split; [done|]. apply andb_prop in Hvalid as [??]. reflect_bools. lia.
Qed.

Lemma tells_held_app self actions publishes publishes' :
  Forall (λ publish, match publish with TunnelPublish_PortReady _ => False | _ => True end) publishes →
  tells_held (self, mkOutcome actions publishes') → tells_held (self, mkOutcome actions (publishes ++ publishes')).
Proof.
  intros Hnone Hheld. apply Forall_app_2; [|done]. eapply List.Forall_impl; [|exact Hnone]. by intros [].
Qed.

Lemma stalled_holds self wall_now :
  PocTunnel.forwarded_port (apply_handshake_stalled self wall_now).1 = PocTunnel.forwarded_port self ∧
  tells_held (apply_handshake_stalled self wall_now).
Proof.
  unfold apply_handshake_stalled, tells_held. cbv zeta. by repeat case_match; split; repeat constructor.
Qed.

Lemma reported_holds self age_seconds wall_now :
  PocTunnel.forwarded_port (apply_handshake_reported self age_seconds wall_now).1 = PocTunnel.forwarded_port self ∧
  tells_held (apply_handshake_reported self age_seconds wall_now).
Proof.
  unfold apply_handshake_reported. destruct (_ || _); [by split; [|constructor]|].
  destruct (_ <? _); [apply stalled_holds|]. cbv zeta. name_publisher before.
  destruct (publish_port_held before []) as [Hport Hheld]. destruct (publish_port before) as [after published].
  cbn in *. split; [done|]. rewrite app_assoc. apply tells_held_app; [|done].
  apply Forall_app_2; by case_match; repeat constructor.
Qed.

Lemma installed_holds self :
  PocTunnel.forwarded_port (apply_firewall_installed self).1 = PocTunnel.forwarded_port self ∧
  tells_held (apply_firewall_installed self).
Proof.
  unfold apply_firewall_installed. cbv zeta. name_publisher before.
  assert (PocTunnel.forwarded_port before = PocTunnel.forwarded_port self) as <- by (subst before; by case_match).
  pose proof (publish_port_held before) as Hpublish. destruct (publish_port before) as [after published].
  cbn in *. split; [by apply (Hpublish [])|apply Hpublish].
Qed.

Lemma granted_holds self external_port lifetime_seconds epoch_seconds :
  PocTunnel.forwarded_port (apply_lease_granted self external_port lifetime_seconds epoch_seconds).1
    = Some external_port ∧
  tells_held (apply_lease_granted self external_port lifetime_seconds epoch_seconds).
Proof.
  unfold apply_lease_granted. cbv zeta. name_publisher before.
  assert (PocTunnel.forwarded_port before = Some external_port) as <- by (subst before; by case_match).
  pose proof (publish_port_held before) as Hpublish. destruct (publish_port before) as [after published].
  cbn in *. split; [by apply (Hpublish [])|apply Hpublish].
Qed.

Lemma failed_holds self reason :
  (∀ port, PocTunnel.forwarded_port (apply_natpmp_failed self reason).1 = Some port →
     PocTunnel.forwarded_port self = Some port) ∧
  tells_held (apply_natpmp_failed self reason).
Proof.
  unfold apply_natpmp_failed, degraded_edge_crossed, tells_held. cbv zeta.
  destruct (negb _ && _); cbn; [|by split; [|constructor]]. split; [by case_match|].
  destruct (PocTunnel.forwarded_port self); cbn; [destruct (port_published self)|]; by repeat constructor.
Qed.

Lemma held_ok self :
  (∀ port, PocTunnel.forwarded_port self.1 = Some port → granted port) → tells_held self →
  answer_ok tunnel_topics tunnel_ports self.1 (publishes self.2) (actions self.2).
Proof.
  intros Hgranted Hheld. split_and!; [done| |by apply Forall_true].
  eapply List.Forall_impl; [|exact Hheld]. intros [] Hport _; try done. destruct Hport as [Hport Hvalid].
  split; [by apply Hgranted|done].
Qed.

#[export] Instance tunnel_ports_kept : Keeps tunnel_topics tunnel_ports.
Proof.
  split; intros self now wall_now.
  - intros [at_ cause event] Hstate Hevent.
    apply held_ok; cbn [handle TunnelMachine_Machine TunnelMachine_handle timed_inner state_ok event_ok
      tunnel_ports] in *.
    + destruct event; cbn [TunnelMachine_handle timed_inner]; try exact Hstate.
      * by rewrite (proj1 (installed_holds self)).
      * by rewrite (proj1 (reported_holds self age_seconds wall_now)).
      * by rewrite (proj1 (stalled_holds self wall_now)).
      * rewrite (proj1 (granted_holds self _ _ _)). by intros ? [= <-].
      * intros port Hport. by apply Hstate, (proj1 (failed_holds self reason)).
      * unfold apply_leak_probe. by case_match.
    + destruct event; cbn [TunnelMachine_handle timed_inner]; try (by repeat constructor).
      * apply installed_holds.
      * apply reported_holds.
      * apply stalled_holds.
      * apply granted_holds.
      * apply failed_holds.
      * unfold apply_leak_probe, tells_held. by repeat case_match; repeat constructor.
      * unfold apply_exit_ip_observed, tells_held. cbn. by case_match; repeat constructor.
      * unfold apply_exit_ip_failed, degraded_edge_crossed, tells_held. cbn.
        destruct (negb _ && _); by repeat constructor.
  - intros command Hstate _. destruct command; cbn;
      [| |destruct (_ <=? 1); [|destruct (negb _)]|]; (split_and!; [exact Hstate|constructor|by apply Forall_true]).
Qed.

#[export] Instance vpn_ports_kept : Keeps vpn_topics vpn_ports.
Proof.
  split; intros self now wall_now; [|by intros []].
  intros [at_ cause event] _ Hevent. split_and!; [done| |by apply Forall_true].
  destruct event; cbn in *; [destruct (connected self)|destruct (connected self)|]; cbn; each.
Qed.

#[export] Instance domain_ports_kept : Keeps domain_topics domain_ports.
Proof.
  apply domain_keeps; try done.
  - intros event [[]|[]| | | | |]; try done; by intros Hport ->.
  - by intros [[]|[]| | | | |].
Qed.

#[export] Instance qbit_ports_kept : Keeps qbit_topics qbit_ports.
Proof.
  assert (∀ self input, optional_ok (desired_listen_port self) →
    (∀ now wall_now port, input = Input_Command now wall_now (QbitCommand_EnsureListenPort port) → port_ok port) →
    answer_ok qbit_topics qbit_ports (step self input).1 (publishes (step self input).2)
      (actions (step self input).2)) as Hstep.
  { intros self input Hstate Hinput.
    assert (optional_ok (desired_listen_port (step self input).1)) as Hstate'.
    { rewrite step_desired. destruct input as [|now wall_now []]; try done. intros ? [= <-]. eauto. }
    split_and!; [done|by apply Forall_true|]. eapply List.Forall_impl; [|apply step_permitted].
    intros [] [_ Haction]; try done. by apply Hstate'. }
  split; intros self now wall_now.
  - intros event Hstate _. by apply (Hstep self (Input_Event now wall_now event)).
  - intros command Hstate Hcommand.
    pose proof (Hstep self (Input_Command now wall_now command) Hstate) as Hanswer. cbn in *.
    destruct (QbitMachine_handle_command _ _ _ _). apply Hanswer. by intros ??? [= _ _ ->].
Qed.

#[export] Instance mam_ports_kept : Keeps mam_topics mam_ports.
Proof.
  assert (∀ self input, optional_ok (desired_seedbox_port self) →
    (∀ now wall_now port, input = Input_Command now wall_now (MamCommand_EnsureSeedboxPort port) → port_ok port) →
    answer_ok mam_topics mam_ports (step self input).1 (publishes (step self input).2)
      (actions (step self input).2)) as Hstep.
  { intros self input Hstate Hinput. split_and!; [|by apply Forall_true|by apply Forall_true].
    pose proof (f_equal fst (mam_step_knows self input)) as Hport. intros port. cbn [fst mam_knows] in Hport.
    change (desired_seedbox_port (step self input).1 = Some port → port_ok port). rewrite Hport.
    destruct input as [? ? [? ? []]|? ? []]; cbn; try apply Hstate. intros [= <-]. eauto. }
  split; intros self now wall_now.
  - intros event Hstate _. by apply (Hstep self (Input_Event now wall_now event)).
  - intros command Hstate Hcommand.
    pose proof (Hstep self (Input_Command now wall_now command) Hstate) as Hanswer. cbn in *.
    destruct (MamMachine_handle_command _ _ _ _). apply Hanswer. by intros ??? [= _ _ ->].
Qed.

#[export] Instance ports_fit : Fits port_contracts.
Proof.
  split; cbn; try done.
  - intros [] Hport; cbn; try (split; each).
    all: destruct exit_ip; split; each.
Qed.
End ports.

(** The ports the gateway granted, by what the tunnel's shell was told. *)
Definition granted_in (labels : list Label) (port : Z) : Prop :=
  ∃ at_ cause lifetime_seconds epoch_seconds,
    Label_Tell (Told_Tunnel (mkTimed at_ cause
      (TunnelEvent_NatPmpLeaseGranted port lifetime_seconds epoch_seconds))) ∈ labels.

Section outcomes.
Context `{Chrono, DebugText, HashOrder}.

Lemma labels_grant labels labels' :
  labels' ⊆ labels → Forall (label_ok (port_contracts (granted_in labels))) labels'.
Proof.
  intros Hall. apply Forall_forall. intros label Hin%Hall.
  destruct label as [now|told|command|core now wall_now ids|core now wall_now ids|core now wall_now]; try done.
  destruct told as [[at_ cause event]|event|event|event|event|event|fired]; try done.
  destruct event; try done. repeat eexists. exact Hin.
Qed.

Lemma started_ok granted env : system_ok (port_contracts granted) (init_shell env).
Proof. constructor; split_and!; cbn; try done; each. Qed.

(** C40: the ports at both ends are the gateway's. Through every interleaving of what the shells
    report, what is asked of the domain, and what the channels between the cores carry, drop
    or hold back, each port that qBittorrent is told to listen on, and the port that is
    wanted for the seedbox at MAM, is one that the VPN's gateway granted to the tunnel, and a port. *)
Theorem ports_come_from_the_gateway env labels :
  let final := happens (init_shell env) labels in
  (∀ cookie port, Request_Qbit (QbitAction_SetListenPort cookie port) ∈ final.2 →
     granted_in labels port ∧ 0 < port ≤ 65535) ∧
  (∀ port, desired_seedbox_port (machine (mam final.1)) = Some port →
     granted_in labels port ∧ 0 < port ≤ 65535).
Proof.
  cbv zeta. destruct (contracts_hold (port_contracts (granted_in labels)) (init_shell env) labels
    (started_ok _ env) (labels_grant labels labels ltac:(done))) as [Hok Hrequests].
  split.
  - intros cookie port Hin. by apply (proj1 (Forall_forall _ _) Hrequests _ Hin).
  - destruct (mam_ok _ _ Hok) as [Hstate _]. exact Hstate.
Qed.

(** ** Downloads *)

Definition no_download : Contracts :=
  mkContracts no_contract no_contract
    (mkContract (λ _, True) (λ _, True)
       (λ command, match command with QbitCommand_AddTorrent _ _ => False | _ => True end) (λ _, True)
       (λ action, match action with QbitAction_AddTorrent _ _ _ => False | _ => True end))
    (mkContract (λ _, True) (λ _, True) (λ _, True)
       (λ publish, match publish with MamPublish_TorrentBytesReady _ _ => False | _ => True end) (λ _, True))
    no_contract no_contract no_contract
    (mkContract (λ _, True)
       (λ event, match event with WindlassEvent_Mam (MamPublish_TorrentBytesReady _ _) => False | _ => True end)
       (λ _, True) (λ _, True)
       (λ action, match action with WindlassAction_Qbit (QbitCommand_AddTorrent _ _) => False | _ => True end)).

#[local] Instance no_download_fits : Fits no_download.
Proof.
  split; cbn; try done.
  - intros [] _; cbn; try (split; each).
    all: destruct exit_ip; split; each.
Qed.

(** The MAM core's forwarder did not ask for the topic of fetched torrents. *)
#[local] Instance mam_no_download : Keeps mam_topics (k_mam no_download).
Proof.
  split; intros self now wall_now; intros; (split_and!; [done| |by apply Forall_true]);
    apply Forall_forall; by intros [] _ Hsubscribed.
Qed.

#[local] Instance qbit_no_download : Keeps qbit_topics (k_qbit no_download).
Proof.
  assert (∀ self input, (∀ mam_id bytes, ¬ add_commanded input mam_id bytes) →
    answer_ok qbit_topics (k_qbit no_download) (step self input).1 (publishes (step self input).2)
      (actions (step self input).2)) as Hstep.
  { intros self input Hinput. split_and!; [done|by apply Forall_true|].
    eapply List.Forall_impl; [|apply step_permitted]. intros [] [_ Haction]; try done. by destruct (Hinput _ _ Haction). }
  split; intros self now wall_now.
  - intros event _ _. apply (Hstep self (Input_Event now wall_now event)). by intros ?? [].
  - intros command _ Hcommand.
    pose proof (Hstep self (Input_Command now wall_now command)) as Hanswer. cbn in *.
    destruct (QbitMachine_handle_command _ _ _ _). apply Hanswer. intros mam_id bytes. destruct command; cbn in Hcommand |- *; tauto.
Qed.

#[local] Instance domain_no_download : Keeps domain_topics (k_domain no_download).
Proof.
  apply domain_keeps; try done.
  - intros event [[]|[]| | | | |]; try done; by intros Hevent ->.
  - by intros [[]|[]| | | | |].
Qed.

Lemma started_without env : system_ok no_download (init_shell env).
Proof. constructor; split_and!; cbn; try done; each. Qed.

(** No torrent that MAM hands out ever reaches qBittorrent, whatever happens: the domain is never
    told that a torrent was fetched. *)
Theorem no_torrent_is_ever_added env labels cookie mam_id bytes :
  Request_Qbit (QbitAction_AddTorrent cookie mam_id bytes) ∉ (happens (init_shell env) labels).2.
Proof.
  intros Hin. assert (Forall (label_ok no_download) labels) as Hlabels.
  { apply Forall_true. intros [|[]| | | |]; done. }
  destruct (contracts_hold no_download (init_shell env) labels (started_without env) Hlabels) as [_ Hrequests].
  by apply (proj1 (Forall_forall _ _) Hrequests _ Hin).
Qed.

(** ** A lost address *)

Definition not_accepted (self : option WindlassMachine) : Prop :=
  match self with Some self => vpn_ip_compliant (admission self) ≠ Some true | None => True end.
Definition lost_address : Contracts :=
  mkContracts no_contract no_contract no_contract
    (mkContract (λ self, asn_state self = AsnState_Accepted)
       (λ event, match event with MamEvent_AsnMismatch _ => False | _ => True end) (λ _, True)
       (λ publish, match publish with MamPublish_AsnAccepted => False | _ => True end) (λ _, True))
    no_contract no_contract no_contract
    (mkContract not_accepted
       (λ event, match event with WindlassEvent_Mam MamPublish_AsnAccepted => False | _ => True end)
       (λ _, True) (λ _, True) (λ _, True)).

#[local] Instance lost_address_fits : Fits lost_address.
Proof.
  split; cbn; try done.
  - intros [] _; cbn; try (split; each). all: destruct exit_ip; split; each.
  - by intros [].
Qed.

#[local] Instance mam_lost_address : Keeps mam_topics (k_mam lost_address).
Proof.
  assert (∀ self (input : MamInput), asn_state self = AsnState_Accepted →
    (∀ at_ wall_now time cause ip, input ≠ Input_Event at_ wall_now (mkTimed time cause (MamEvent_AsnMismatch ip))) →
    answer_ok mam_topics (k_mam lost_address) (step self input).1 (publishes (step self input).2)
      (actions (step self input).2)) as Hstep.
  { intros self input Hstate Hinput. split_and!; [| |by apply Forall_true].
    - pose proof (f_equal snd (mam_step_knows self input)) as Hknows. cbn [snd mam_knows] in Hknows.
      change (asn_state (step self input).1 = AsnState_Accepted). rewrite Hknows.
      destruct input as [? ? [? ? []]|? ? []]; try done. edestruct Hinput; reflexivity.
    - eapply List.Forall_impl; [|apply mam_accepts_once]. by intros [] Hpublish _. }
  split; intros self now wall_now.
  - intros event Hstate Hevent. apply (Hstep self (Input_Event now wall_now event)); [done|].
    intros ? ? ? ? ? [= -> -> ->]. done.
  - intros command Hstate _. pose proof (Hstep self (Input_Command now wall_now command) Hstate) as Hanswer. cbn in *.
    destruct (MamMachine_handle_command _ _ _ _). by apply Hanswer.
Qed.

#[local] Instance domain_lost_address : Keeps domain_topics (k_domain lost_address).
Proof.
  split; intros self now wall_now.
  - intros event Hstate Hevent. split_and!; [|by apply Forall_true|by apply Forall_true].
    destruct self as [self|]; [|done]. cbn [handle WindlassMachine_Machine task_handle].
    pose proof (handle_address self now wall_now event) as Haddress.
    destruct (WindlassMachine_handle _ _ _ _) as [self' answer]. cbn in *. rewrite Haddress.
    by destruct (timed_inner event) as [|[]|[]|[]|[]|[]| |[]].
  - intros command Hstate _. split_and!; [|by apply Forall_true|by apply Forall_true].
    destruct self as [self|]; [|done]. cbn. unfold task_handle_command. destruct command; cbn; try done.
    by destruct (WindlassMachine_admit _ _ _) as [[]|].
Qed.

(** A state in which MAM has accepted an address, nothing on the way says so again, and the domain
    has since lost it. *)
Definition lost (self : System) : Prop := system_ok lost_address self.

(** Once an address that MAM had accepted is lost, no candidate is admitted any more, however often
    MAM confirms a new one: it says so only after it has refused one. *)
Theorem a_lost_address_blocks_for_good self labels candidate now :
  lost self →
  (∀ at_ cause ip, Label_Tell (Told_Mam (mkTimed at_ cause (MamEvent_AsnMismatch ip))) ∉ labels) →
  match machine (domain (happens self labels).1) with
  | Some domain => WindlassMachine_admit domain candidate now ≠ Some (Ok ())
  | None => True
  end.
Proof.
  intros Hlost Hlabels.
  assert (Forall (label_ok lost_address) labels) as Hok.
  { apply Forall_forall. intros [|[]| | | |] Hin; try done. destruct event as [at_ cause []]; try done.
    by destruct (Hlabels at_ cause ip). }
  destruct (contracts_hold lost_address self labels Hlost Hok) as [[? ? ? ? ? ? ? [Hdomain _]] _].
  destruct (machine _) as [domain|]; [|done]. cbn in Hdomain. unfold WindlassMachine_admit.
  destruct (if freeleech candidate then _ else _); cbn; [|done].
  rewrite !gate_nil. destruct (vpn_ip_compliant _) as [[]|]; cbn; rewrite ?andb_false_r; done.
Qed.
End outcomes.

(** ** Sample runs *)

Definition sample_environment : Environment :=
  mkEnvironment 1 3_600 100 3_660 300 1_000 "windlass" ∅.

(** Everything that is on its way arrives, in rounds over the cores. *)
Definition settle_round : list Label :=
  flat_map (λ core, [Label_Serve core 0 0 Z.of_nat; Label_Forward core 0 0; Label_Obey core 0 0 Z.of_nat])
    CoreId_all.
Definition settle (rounds : nat) : list Label := concat (repeat settle_round rounds).
Definition told {E} (event : E) : Timed E := external 0 ExternalCause_Unknown event.

Definition sample_grant : list Label :=
  Label_Init 0 :: settle 2 ++
  Label_Tell (Told_Qbit (told (QbitEvent_AuthSucceeded (mkAuthCookie "sid")))) ::
  map (λ event, Label_Tell (Told_Tunnel (told event)))
    [TunnelEvent_PreTunnelFirewallInstalled; TunnelEvent_InterfaceConfigured; TunnelEvent_FirewallInstalled;
     TunnelEvent_NatPmpLeaseGranted 40_000 60 1]
  ++ settle 8.

(** The port of a grant travels from the tunnel to qBittorrent and MAM. *)
Example a_granted_port_arrives :
  let final := happens (init_shell sample_environment) sample_grant in
  List.filter (λ request, match request with Request_Qbit (QbitAction_SetListenPort _ _) => true | _ => false end)
    final.2
  = [Request_Qbit (QbitAction_SetListenPort (mkAuthCookie "sid") 40_000)] ∧
  desired_seedbox_port (machine (mam final.1)) = Some 40_000 ∧ known_port final.1 = Some 40_000.
Proof. vm_compute. done. Qed.

Definition seedbox_updated : Label := Label_Tell (Told_Mam (told (MamEvent_SeedboxUpdated None None None))).
Definition sample_loss : list Label :=
  Label_Init 0 :: settle 2 ++ [seedbox_updated] ++ settle 4 ++
  [Label_Tell (Told_Tunnel (told (TunnelEvent_InterfaceConfigureFailed (InterfaceConfigureFailure_Other "gone"))))]
  ++ settle 6.

Definition sample_lost : System := (happens (init_shell sample_environment) sample_loss).1.

(** A tunnel that goes down is enough, and neither its return nor another registration at MAM with
    a new address opens the gate again. *)
Example an_address_is_lost :
  lost sample_lost ∧
  let labels :=
    Label_Tell (Told_Tunnel (told (TunnelEvent_ExitIpObserved 9))) :: settle 5 ++ [seedbox_updated] ++ settle 5 in
  let final := (happens sample_lost labels).1 in
  registered_ip (machine (mam final)) = Some 9 ∧
  (vpn_ip_compliant ∘ admission) <$> machine (domain final) = Some None.
Proof.
  split; [|by vm_compute]. unfold lost.
  assert (∀ {M E C P A} (k : Contract M E C P A) (self : Runtime M E C P) machine,
    self = mkRuntime machine [] [] [] → state_ok k machine → runtime_ok k self) as Hempty
    by (intros * -> ?; split_and!; [done|apply Forall_nil_2..]).
  constructor; (eapply Hempty; [vm_compute; reflexivity|]); vm_compute; done.
Qed.
